(* ===== verification/_CoqProject ===== *)
-Q . S2P
Prelude.v
Floats.v
Arrow.v
Core.v
Telemetry.v
Spill.v
SpillCorrect.v
Memory.v
ArrowKernels.v
Kernels.v
FilterCorrect.v
JoinCorrect.v
AggregateCorrect.v
VectorCorrect.v
ConcatCorrect.v
Device.v
DeviceCorrect.v
Operator.v
OperatorCorrect.v
OperatorClaims.v
Execs.v
ExecsCorrect.v
ExecsMore.v
Planner.v
PlannerCorrect.v
PlacementCorrect.v
PlacementTotal.v
Bytes.v
Columns.v
ColumnsCorrect.v
Codec.v
CodecCorrect.v
Uring.v
UringCorrect.v
UringStore.v
CudaKernels.v
CudaLaunch.v
Cuda.v
CudaScan.v
CudaSpec.v
CudaTransfer.v
CudaGather.v
FloatFacts.v
CudaFilterCorrect.v
CudaTable.v
CudaJoinCorrect.v
CudaAggregate.v
CudaGroups.v
CudaAccumulate.v
CudaAggregateCorrect.v
CudaAggregateClaims.v
CudaVector.v
CudaVectorCorrect.v
CudaVectorExact.v
Udf.v
Predict.v
PredictCorrect.v
Encoding.v
MetalKernels.v
Metal.v
MetalSpec.v
MetalLaunch.v
MetalTransfer.v
MetalFilterCorrect.v
MetalVectorCorrect.v
Datagen.v
Parquet.v
Text.v
Tui.v
Render.v
RenderCorrect.v
Display.v
Dashboard.v
DashboardCorrect.v
Session.v
Cluster.v
Metrics.v
Cli.v
Api.v
