(* ===== verification/Prelude.v ===== *)
(** * OxideLake: verification development

    OxideLake runs SQL queries on CPUs and GPUs: DataFusion plans a query, a
    placement rule replaces the operators a device can run by [Gpu*Exec] nodes,
    the nodes send record batches through an operator to a backend, and a
    batch a device declines is computed by the CPU reference kernels.  Batches
    that do not fit live in a three-tier spill manager, files are read through
    io_uring, and a telemetry hub counts what happened.  This library models
    those parts and proves them correct.  Names follow the source; paths below
    are relative to [src/crates/].

    ** Layers

    - [Prelude]: outcomes of Rust code ([res]: [Ok], [Err] or [Panic]), machine
      integers with their wrap-around, lists.  [Floats]: [f32] and [f64] as bit
      patterns with correctly rounded arithmetic, the IEEE order and
      [total_cmp]; [FloatFacts] what is exact, in range or symmetric.  [Arrow],
      [ArrowKernels]: Arrow's data, and its functions as a class with laws and a
      reference instance.  [Bytes]: little-endian encodings.
    - [Core], [Telemetry]: [oxidelake-core] (backend kinds, errors, buffer
      layouts, operator parameters; the hub with its shared counters, on every
      interleaving of their atomic updates).
    - [Memory], [Spill], [SpillCorrect]: [oxidelake-memory] (aligned, pinned and
      host buffers; the spill manager over an abstract object store).
    - [Kernels] with [FilterCorrect], [JoinCorrect], [AggregateCorrect],
      [VectorCorrect], [ConcatCorrect]: the CPU reference kernels
      ([oxidelake-device/src/cpu/kernels.rs]) against declarative definitions:
      three-valued predicates, the nested-loop join, the SQL aggregates.
    - [Device], [DeviceCorrect]: handles, the backend trait as a record of
      operations with the class [BackendContract], the CPU backend as an
      instance, backend selection.  [Columns], [ColumnsCorrect]: columns as raw
      bytes ([columns.rs]).
    - [CudaKernels], [CudaAggregate], [CudaVector], [Cuda]: the CUDA backend
      ([cuda/mod.rs], [cuda/ops.rs]) and its kernels ([kernels/cuda/*.cu]).
      [CudaLaunch], [CudaScan], [CudaGather], [CudaTable], [CudaGroups],
      [CudaAccumulate] hold the reasoning about threads; [CudaSpec] what a
      device batch stands for; [CudaTransfer] upload and download;
      [CudaFilterCorrect], [CudaJoinCorrect], [CudaAggregateCorrect],
      [CudaAggregateClaims], [CudaVectorCorrect], [CudaVectorExact] that the device computes what the reference computes.
    - [MetalKernels], [Metal]: the Metal backend ([metal.rs],
      [kernels/metal/*.metal]), with [MetalSpec], [MetalLaunch],
      [MetalTransfer], [MetalFilterCorrect], [MetalVectorCorrect].
    - [Operator], [OperatorCorrect], [OperatorClaims]:
      [oxidelake-compute/src/operator.rs], proved against [BackendContract].
    - [Execs], [ExecsCorrect], [ExecsMore]: the plan nodes
      ([oxidelake-compute/src/exec/]) and the process backend ([backend.rs]).
      [Udf]: the distance functions of SQL ([udf.rs]).
      [Predict], [PredictCorrect]: model inference ([predict.rs]).
    - [Planner], [PlannerCorrect], [PlacementCorrect], [PlacementTotal]: the
      placement rules ([oxidelake-planner/src/rule.rs], [target.rs]).
      [Codec], [CodecCorrect]: the plan codec ([codec.rs]), with [Encoding] for
      the values it carries.
    - [Uring], [UringCorrect], [UringStore]: the io_uring object store
      ([oxidelake-storage/src/uring.rs]).  [Datagen], [Parquet]: the demo
      table, the Parquet writer and IPC files ([datagen.rs], [parquet_opts.rs],
      [parquet_io.rs], [ipc.rs]).
    - [Text]: characters, decimal and float formatting and parsing.  [Tui]: the
      dashboard's state and event loop ([oxidelake-tui/src/state.rs], [model.rs], [app.rs]).  [Render],
      [RenderCorrect]: its panels ([render.rs]).
    - [Display] ([oxidelake-compute/src/display.rs]), [Dashboard],
      [DashboardCorrect] ([oxidelake-runtime/src/dashboard.rs]): the plan as
      text and the dashboard of a query.  [Session]: sessions
      ([oxidelake-runtime/src/session.rs], [cluster.rs],
      [oxidelake-storage/src/session.rs], [errors.rs]).  [Cluster]: the cluster's
      pieces and its two processes ([cluster.rs], [bin/oxide_worker.rs],
      [bin/oxide_scheduler.rs]).  [Cli]: the [oxide] command
      ([bin/oxide.rs]).  [Metrics]: the metrics endpoint and result
      output ([metrics.rs], [output.rs]).
    - [Api]: the frame API ([oxidelake-api/src/frame.rs]), down to the rows its
      plans deliver.

    ** What the theorems show

    - Tiers and memory: the spill manager refines a map from identifiers to
      batches over every sequence of operations, successful or not, keeps each
      tier within its budget, and demotes the least recently used batch first;
      buffers are aligned, padded and large enough for every slice.
    - Kernels: the filter keeps exactly the rows whose predicate is true; the
      hash join is the nested-loop join; the aggregate is the SQL aggregate with
      its overflow error; distances are computed row by row.
    - Backends: on a contract-meeting backend an operator returns the
      reference's rows or a counted fallback to them, and the plan nodes deliver
      the result of the whole query wherever the batch boundaries fall.
    - CUDA: on every order or interleaving of the threads of every launch, the
      filter, the join, the aggregation and the distances end, never leave a
      buffer, and stand for the reference's result, up to the differences the
      statements name (the order of the matches of one probe row, wrapping
      [Int64] sums, the order in which floats are added, IEEE comparison).
    - Metal: the same for the filter and the distances, on every order of the
      threads and SIMD groups; what is uploaded is what is downloaded.
    - Planning: lowering keeps the meaning of predicates and joins and the
      schema of every plan; the codec round-trips nodes, up to the metadata of an
      aggregate's schema, and refuses every payload of another fingerprint.  A
      projected distance column becomes the device node, which delivers what the
      SQL function computes.
    - Prediction: a loaded model is evaluated layer by layer, batch by batch,
      and its process-wide cache answers a path and its layers with what the
      file held when it was loaded.
    - Storage: every buffer handed to the kernel is reaped, reads return exactly
      their range, the ring thread and the store over it answer any sequence of
      requests as a map from paths to bytes would, and on a kernel that answers
      they answer every one; the demo table written is the one its seed
      determines.
    - Sessions and the dashboard: every session has the settings and rules of
      its target; the event loop ends and restores the terminal; the dashboard
      shows the executed plan with the hub's totals by operator name and the
      profiles; numbers are rounded before they are cut; each metrics request
      has its one well-formed answer.
    - Processes: a worker runs on the backend it was started for or not at all;
      what the scheduler ships, every executor can read and run; [oxide] prints
      the one text its command reports, fails only when it could not, and puts
      its report of a failure and the line of a query on standard error.

    ** Parameters

    Code that is not in the repository is an operation of a class, and what the
    repository relies on is a class of laws: [ArrowKernels]/[ArrowLaws],
    [ArrowBuffers]/[ArrowBuffersLaws], [HashOrder] (the iteration order of a
    [HashMap]), [Allocator], [CudaDriver] (pinned allocation), [CudaApi] (driver
    and scheduler), [Hardware] (detection), [ObjectStore], [SpillEnv] (IPC
    reader and writer), [DataFusionPlan], [PlanNode], [Postcard],
    [InnerCodec], [IoUring], [LocalStore], [MetalApi] (the Metal runtime),
    [ListArrays] (Arrow's list arrays), [Files] and [Oxmera] (the file system
    and the tensor library of [predict]), [ParquetApi] (the Parquet writer),
    [TerminalApi] (crossterm and ratatui), [PlanDisplay], [SqlSession],
    [SessionApi] and [DataFrames] (DataFusion's text, contexts and frames),
    [OutputApi] (CSV, JSON and table writers), [IpcApi] (Arrow's file format),
    [Ballista], [SessionContexts] and [Diagnostics] (the log subscriber and the
    report of a failed [main]).  Every theorem with such laws has a
    witness at an instance, in the [*Example] modules.

    ** Fuel and bounds

    Where a loop waits for the environment, it takes fuel, and a theorem says
    which fuel is enough: [submit_one] and the loops of [Uring] take the number
    of times they may look at the ring ([Prompt] bounds it); the table build of
    the CUDA join takes [capacity + 6] turns per thread, which every thread ends
    within ([CudaTable]); inserting group keys takes [insert_fuel] rounds, which
    are enough because some thread gets on in every round ([CudaGroups]);
    accumulating takes two rounds per atomic operation and one more
    ([CudaAccumulate]).  The dashboard's loop takes turns, and any fuel above
    the first step that ends it is enough.  Device memory is sequentially
    consistent here, which is what the fences and volatile accesses of the
    kernels are for, and threads are scheduled independently, as the source asks
    of the hardware.  Theorems about the device assume at most 2^30 rows, half
    of what the 32-bit capacity of its tables allows.

    ** Not modelled

    The grammar of the command lines (clap's), Ballista's own scheduling and the
    loops of tokio; the Parquet readers and the registration of object stores,
    which are calls into their crates; ratatui's drawing of the widgets;
    tracing spans and events, except the line of a query; DataFusion's own
    metrics; [show], which prints inside
    DataFusion.  Weak memory, the fast-math rewrites a Metal compiler may make,
    and the timing of the telemetry sampler are not modelled either.  An error
    keeps its variant and the operation it names; its text is spelled out where
    a caller prints or matches it, and elsewhere shortened to its fixed part,
    without the numbers that [format!] inserts. *)

From stdpp Require Export base gmap strings pretty list numbers sorting.
From Stdlib Require Export ZArith Lia.

#[global] Open Scope Z_scope.
#[global] Set Default Goal Selector "!".

(** ** Outcomes of Rust code

    [Ok] and [Err] are [core::result::Result]; [Panic] is an unwinding panic
    (an out-of-range index, a slice out of bounds, a failed [copy_from_slice]
    length check). *)

Inductive res (E A : Type) : Type :=
  | Ok (a : A)
  | Err (e : E)
  | Panic.
Arguments Ok {E A} a.
Arguments Err {E A} e.
Arguments Panic {E A}.

#[global] Instance res_ret E : MRet (res E) := λ A a, Ok a.
#[global] Instance res_bind E : MBind (res E) := λ A B f m,
  match m with Ok a => f a | Err e => Err e | Panic => Panic end.
#[global] Instance res_fmap E : FMap (res E) := λ A B f m,
  match m with Ok a => Ok (f a) | Err e => Err e | Panic => Panic end.

#[global] Instance res_eq_dec `{EqDecision E, EqDecision A} : EqDecision (res E A).
Proof. solve_decision. Defined.

Definition is_ok {E A} (m : res E A) : bool :=
  match m with Ok _ => true | _ => false end.

(** [Option::ok_or_else]. *)
Definition ok_or {E A} (o : option A) (e : E) : res E A :=
  match o with Some a => Ok a | None => Err e end.

(** Indexing that panics when the index is out of range ([v[i]]). *)
Definition index {E A} (l : list A) (i : nat) : res E A :=
  match l !! i with Some a => Ok a | None => Panic end.

(** [Result::map_err]. *)
Definition map_err {E F A} (f : E → F) (m : res E A) : res F A :=
  match m with Ok a => Ok a | Err e => Err (f e) | Panic => Panic end.

(** [Result::ok]. *)
Definition res_ok {E A} (m : res E A) : option A :=
  match m with Ok a => Some a | _ => None end.

Lemma bind_Ok_inv {E A B} (m : res E A) (f : A → res E B) b :
  (m ≫= f) = Ok b → ∃ a, m = Ok a ∧ f a = Ok b.
Proof. destruct m; cbn; intros; simplify_eq; eauto. Qed.

Lemma fmap_Ok_inv {E A B} (m : res E A) (f : A → B) b :
  (f <$> m) = Ok b → ∃ a, m = Ok a ∧ f a = b.
Proof. destruct m; cbn; intros; simplify_eq; eauto. Qed.

Lemma bind_ext {E A B} (m : res E A) (f g : A → res E B) :
  (∀ a, m = Ok a → f a = g a) → (m ≫= f) = (m ≫= g).
Proof. intros H. destruct m; cbn; auto. Qed.

Lemma ok_or_Ok_inv {E A} (o : option A) (e : E) a :
  ok_or o e = Ok a → o = Some a.
Proof. destruct o; cbn; intros; by simplify_eq. Qed.

Lemma index_Ok_inv {E A} (l : list A) i a :
  index (E:=E) l i = Ok a → l !! i = Some a.
Proof. unfold index. destruct (l !! i); intros; by simplify_eq. Qed.

Lemma index_Some {E A} (l : list A) i a :
  l !! i = Some a → index (E:=E) l i = Ok a.
Proof. unfold index. by intros ->. Qed.

(** Decompose every monadic step of hypotheses [_ = Ok _]. *)
Ltac res_inv :=
  repeat match goal with
  | H : (_ ≫= _) = Ok _ |- _ =>
      let a := fresh "r" in let H1 := fresh "Hr" in let H2 := fresh "Hk" in
      apply bind_Ok_inv in H as (a & H1 & H2)
  | H : (_ <$> _) = Ok _ |- _ =>
      let a := fresh "r" in let H1 := fresh "Hr" in let H2 := fresh "Hk" in
      apply fmap_Ok_inv in H as (a & H1 & H2)
  | H : ok_or _ _ = Ok _ |- _ => apply ok_or_Ok_inv in H
  | H : index _ _ = Ok _ |- _ => apply index_Ok_inv in H
  | H : mret _ = Ok _ |- _ => cbv [mret res_ret] in H
  | H : Ok _ = Ok _ |- _ => injection H as H
  | H : Err _ = Ok _ |- _ => discriminate H
  | H : Panic = Ok _ |- _ => discriminate H
  end; subst.

(** [Iterator::collect::<Result<Vec<_>, _>>]: stop at the first failure. *)
Lemma mapM_res_Ok {E A B} (f : A → res E B) l k :
  mapM f l = Ok k ↔ Forall2 (λ x y, f x = Ok y) l k.
Proof.
  revert k. induction l as [|x l IH]; intros k; cbn.
  - split; [intros [= <-]; constructor | inversion 1; done].
  - split.
    + intros H. apply bind_Ok_inv in H as (y & Hy & H).
      apply bind_Ok_inv in H as (ys & Hys & H). injection H as <-.
      constructor; [done|]. by apply IH.
    + inversion 1 as [|? y ? ys Hy Hys]; subst. cbn. rewrite Hy. cbn.
      apply IH in Hys. by rewrite Hys.
Qed.

Lemma mapM_res_fmap {E A B} (f : A → res E B) (g : A → B) l :
  (∀ x, x ∈ l → f x = Ok (g x)) → mapM f l = Ok (g <$> l).
Proof.
  intros H. apply mapM_res_Ok. induction l; cbn; constructor.
  - apply H. set_solver.
  - apply IHl. set_solver.
Qed.

Lemma mapM_fmap_ext {E A B C} (f : B → res E C) (g : A → res E C) (h : A → B) l :
  (∀ x, x ∈ l → f (h x) = g x) → mapM f (h <$> l) = mapM g l.
Proof.
  intros H. induction l as [|x l IH]; [done|]. cbn. rewrite H by set_solver.
  rewrite IH by set_solver. done.
Qed.

(** The one error that can occur does. *)
Lemma mapM_res_Err {E A B} (f : A → res E B) l e :
  (∀ x, x ∈ l → (∃ y, f x = Ok y) ∨ f x = Err e) → (∃ x, x ∈ l ∧ f x = Err e) →
  mapM f l = Err e.
Proof.
  intros Hall [x [Hx He]]. induction l as [|y l IH]; [set_solver|]. cbn.
  destruct (Hall y ltac:(set_solver)) as [[z Hz]|Hy].
  - rewrite Hz. cbn. rewrite IH; [done|set_solver|].
    apply elem_of_cons in Hx as [->|Hx]; [congruence|done].
  - by rewrite Hy.
Qed.

Lemma mapM_Err_inv {E A B} (f : A → res E B) l e :
  mapM f l = Err e → ∃ x, x ∈ l ∧ f x = Err e.
Proof.
  induction l as [|x l IH]; [done|]. cbn. destruct (f x) as [y|e'|] eqn:Hx; cbn; [|..|done].
  - destruct (mapM f l) as [ys|e'|]; cbn; [done| |done]. intros [= ->].
    destruct (IH eq_refl) as (z & ? & ?). exists z. set_solver.
  - intros [= ->]. exists x. set_solver.
Qed.

Lemma mapM_Panic_inv {E A B} (f : A → res E B) l :
  mapM f l = Panic → ∃ x, x ∈ l ∧ f x = Panic.
Proof.
  induction l as [|x l IH]; [done|]. cbn. destruct (f x) as [y|e'|] eqn:Hx; cbn; [|done|].
  - destruct (mapM f l) as [ys|e'|]; cbn; [done|done|]. intros _.
    destruct (IH eq_refl) as (z & ? & ?). exists z. set_solver.
  - intros _. exists x. set_solver.
Qed.

(** ** Machine integers

    [u8] to [u128] values are non-negative [Z]; the wrapping operations are
    written out.  Release builds (the profile the workspace ships, with
    [overflow-checks] off) wrap on [+] and [*]; atomics wrap in every build. *)

Definition U64 : Z := 2 ^ 64.
Definition U32 : Z := 2 ^ 32.
Definition u64_max : Z := U64 - 1.
Definition u32_max : Z := U32 - 1.
Definition i64_min : Z := - 2 ^ 63.
Definition i64_max : Z := 2 ^ 63 - 1.

Definition wrap64 (z : Z) : Z := z mod U64.
Definition wrap32 (z : Z) : Z := z mod U32.
Definition wadd64 (a b : Z) : Z := wrap64 (a + b).
Definition wmul64 (a b : Z) : Z := wrap64 (a * b).

(** [u64::saturating_sub]. *)
Definition sat_sub (a b : Z) : Z := Z.max 0 (a - b).

Definition is_u64 (z : Z) : Prop := 0 ≤ z < U64.
Definition is_u32 (z : Z) : Prop := 0 ≤ z < U32.
Definition is_i64 (z : Z) : Prop := i64_min ≤ z ≤ i64_max.
#[global] Hint Unfold is_u64 is_u32 is_i64 : core.

(** [u64::try_from(x).unwrap_or(u64::MAX)] for a non-negative [x]. *)
Definition u64_clamp (x : Z) : Z := Z.min x u64_max.

Lemma U64_pos : 0 < U64. Proof. done. Qed.
Lemma U32_pos : 0 < U32. Proof. done. Qed.

Lemma wrap64_small z : is_u64 z → wrap64 z = z.
Proof. intros. by apply Z.mod_small. Qed.

Lemma wrap64_range z : is_u64 (wrap64 z).
Proof. apply Z.mod_pos_bound, U64_pos. Qed.

Lemma wadd64_small a b : is_u64 (a + b) → wadd64 a b = a + b.
Proof. apply wrap64_small. Qed.

Lemma wadd64_wadd64 a b c : wadd64 (wadd64 a b) c = wadd64 a (b + c).
Proof.
  unfold wadd64, wrap64. rewrite Zplus_mod_idemp_l. f_equal. lia.
Qed.

Lemma wadd64_comm_r a b c : wadd64 (wadd64 a b) c = wadd64 (wadd64 a c) b.
Proof. rewrite !wadd64_wadd64. f_equal. lia. Qed.

Lemma sat_sub_le a b : b ≤ a → sat_sub a b = a - b.
Proof. unfold sat_sub. lia. Qed.

Lemma sat_sub_range a b : is_u64 a → 0 ≤ b → is_u64 (sat_sub a b).
Proof. unfold sat_sub, is_u64. lia. Qed.

Lemma u64_clamp_nonneg x : 0 ≤ x → 0 ≤ u64_clamp x.
Proof. intros. unfold u64_clamp. assert (0 ≤ u64_max) by done. lia. Qed.

Create HintDb oxide discriminated.
#[export] Hint Resolve wrap64_range sat_sub_range U64_pos U32_pos : oxide.

(** ** Sums over lists *)

Fixpoint sumZ {A} (f : A → Z) (l : list A) : Z :=
  match l with [] => 0 | a :: l => f a + sumZ f l end.

Lemma sumZ_app {A} (f : A → Z) l k : sumZ f (l ++ k) = sumZ f l + sumZ f k.
Proof. induction l; cbn; [done|]. rewrite IHl. lia. Qed.

Lemma sumZ_perm {A} (f : A → Z) l k : l ≡ₚ k → sumZ f l = sumZ f k.
Proof. induction 1; cbn; lia. Qed.

Lemma sumZ_nonneg {A} (f : A → Z) l : (∀ a, a ∈ l → 0 ≤ f a) → 0 ≤ sumZ f l.
Proof.
  induction l as [|a l IH]; cbn; [lia|]. intros H.
  assert (0 ≤ f a) by (apply H; set_solver).
  assert (0 ≤ sumZ f l) by (apply IH; set_solver). lia.
Qed.

Lemma sumZ_le_length {A} (f : A → Z) l B :
  (∀ a, a ∈ l → f a ≤ B) → sumZ f l ≤ Z.of_nat (length l) * B.
Proof.
  induction l as [|a l IH]; cbn; [lia|]. intros H.
  assert (f a ≤ B) by (apply H; set_solver).
  assert (sumZ f l ≤ Z.of_nat (length l) * B) by (apply IH; set_solver). lia.
Qed.

Lemma sumZ_ext {A} (f g : A → Z) l : (∀ a, f a = g a) → sumZ f l = sumZ g l.
Proof. intros H. induction l; cbn; [done|]. by rewrite H, IHl. Qed.

Lemma sumZ_fmap {A B} (f : B → Z) (g : A → B) l : sumZ f (g <$> l) = sumZ (λ a, f (g a)) l.
Proof. induction l; cbn; [done|]. by rewrite IHl. Qed.

Lemma sumZ_insert {A} (f : A → Z) l i x y :
  l !! i = Some x → sumZ f (<[i := y]> l) = sumZ f l - f x + f y.
Proof.
  revert i. induction l as [|a l IH]; intros [|i]; simpl; try done.
  - intros [= ->]. lia.
  - intros H. rewrite (IH _ H). lia.
Qed.

(** Rows of one length, one after the other. *)
Lemma length_concat_rows {A} (rows : list (list A)) width :
  Forall (λ r, length r = width) rows → length (concat rows) = (length rows * width)%nat.
Proof. induction 1 as [|r rows Hr _ IH]; [done|]. cbn. rewrite length_app, IH, Hr. lia. Qed.

Lemma concat_row {A} (rows : list (list A)) rest width i r :
  Forall (λ r, length r = width) rows → rows !! i = Some r → take width (drop (i * width) (concat rows ++ rest)) = r.
Proof.
  intros Hw. revert i. induction Hw as [|r' rows Hl _ IH]; intros i Hr; [done|].
  destruct i as [|i]; cbn in Hr |- *; rewrite <- app_assoc.
  - injection Hr as ->. rewrite <- Hl, drop_0, take_app_length. done.
  - rewrite drop_app_ge by lia. rewrite Hl. replace (width + i * width - width)%nat with (i * width)%nat by lia. by apply IH.
Qed.

Lemma filter_ext_in {A} (P Q : A → Prop) `{∀ x, Decision (P x), ∀ x, Decision (Q x)} (l : list A) :
  (∀ x, x ∈ l → P x ↔ Q x) → filter P l = filter Q l.
Proof.
  induction l as [|x l IH]; [done|]. intros HPQ. rewrite !filter_cons.
  rewrite IH by set_solver. assert (P x ↔ Q x) by set_solver.
  destruct (decide (P x)), (decide (Q x)); tauto.
Qed.
