(* ===== verification/Floats.v ===== *)
(** * IEEE 754 floats, as Rust's [f32] and [f64]

    A float is its bit pattern.  Arithmetic decodes to [SpecFloat.spec_float],
    uses the correctly rounded operation of the format and encodes the result;
    every NaN result is the canonical quiet NaN (Rust leaves the payload of a
    NaN result unspecified).  [total_cmp] is [f64::total_cmp], a comparison of
    the sign-adjusted bit patterns. *)

From Stdlib Require Import SpecFloat.
From S2P Require Import Prelude.

Section Format.
(** Significand bits stored, exponent bits, precision and maximal exponent. *)
Context (mw ew prec emax : Z).

Definition sf_decode (bits : Z) : spec_float :=
  let s := Z.testbit bits (mw + ew) in
  let e := Z.shiftr bits mw mod 2 ^ ew in
  let m := bits mod 2 ^ mw in
  if e =? 2 ^ ew - 1 then (if m =? 0 then S754_infinity s else S754_nan)
  else if e =? 0 then
    match m with Zpos p => S754_finite s p (3 - emax - prec) | _ => S754_zero s end
  else
    match m + 2 ^ mw with
    | Zpos p => S754_finite s p (e + 2 - emax - prec)
    | _ => S754_nan
    end.

Definition sign_bit (s : bool) : Z := if s then 2 ^ (mw + ew) else 0.

Definition sf_encode (f : spec_float) : Z :=
  match f with
  | S754_zero s => sign_bit s
  | S754_infinity s => sign_bit s + (2 ^ ew - 1) * 2 ^ mw
  | S754_nan => (2 ^ ew - 1) * 2 ^ mw + 2 ^ (mw - 1)
  | S754_finite s m e =>
      sign_bit s +
      (if Zpos m <? 2 ^ mw then Zpos m
       else (e - 2 + emax + prec) * 2 ^ mw + (Zpos m - 2 ^ mw))
  end.

Definition lift2 (op : spec_float → spec_float → spec_float) (a b : Z) : Z :=
  sf_encode (op (sf_decode a) (sf_decode b)).

Definition is_nan_bits (a : Z) : bool :=
  match sf_decode a with S754_nan => true | _ => false end.

(** The key whose integer order is IEEE [totalOrder] ([f64::total_cmp]):
    negative values have their magnitude bits inverted. *)
Definition total_key (a : Z) : Z :=
  if Z.testbit a (mw + ew) then - (a mod 2 ^ (mw + ew)) - 1 else a.
End Format.

Record f64 := F64 { f64_bits : Z }.
Record f32 := F32 { f32_bits : Z }.

#[global] Instance f64_eq_dec : EqDecision f64.
Proof. solve_decision. Defined.
#[global] Instance f32_eq_dec : EqDecision f32.
Proof. solve_decision. Defined.

Definition f64_sf (a : f64) : spec_float := sf_decode 52 11 53 1024 (f64_bits a).
Definition f32_sf (a : f32) : spec_float := sf_decode 23 8 24 128 (f32_bits a).
Definition sf_f64 (f : spec_float) : f64 := F64 (sf_encode 52 11 53 1024 f).
Definition sf_f32 (f : spec_float) : f32 := F32 (sf_encode 23 8 24 128 f).

Definition f64_add (a b : f64) : f64 := sf_f64 (SFadd 53 1024 (f64_sf a) (f64_sf b)).
Definition f64_is_nan (a : f64) : bool :=
  match f64_sf a with S754_nan => true | _ => false end.
Definition f64_zero : f64 := F64 0.
Definition f64_infinity : f64 := sf_f64 (S754_infinity false).
Definition f64_neg_infinity : f64 := sf_f64 (S754_infinity true).

(** [f64::min] and [f64::max]: a NaN operand is ignored.  On two zeros Rust
    may return either; the model keeps the first operand. *)
Definition f64_min (a b : f64) : f64 :=
  if f64_is_nan a then b else if f64_is_nan b then a
  else if SFltb (f64_sf b) (f64_sf a) then b else a.
Definition f64_max (a b : f64) : f64 :=
  if f64_is_nan a then b else if f64_is_nan b then a
  else if SFltb (f64_sf a) (f64_sf b) then b else a.

Definition f64_total_cmp (a b : f64) : comparison :=
  Z.compare (total_key 52 11 (f64_bits a)) (total_key 52 11 (f64_bits b)).

Definition f32_add (a b : f32) : f32 := sf_f32 (SFadd 24 128 (f32_sf a) (f32_sf b)).
Definition f32_sub (a b : f32) : f32 := sf_f32 (SFsub 24 128 (f32_sf a) (f32_sf b)).
Definition f32_mul (a b : f32) : f32 := sf_f32 (SFmul 24 128 (f32_sf a) (f32_sf b)).
Definition f32_div (a b : f32) : f32 := sf_f32 (SFdiv 24 128 (f32_sf a) (f32_sf b)).
Definition f32_sqrt (a : f32) : f32 := sf_f32 (SFsqrt 24 128 (f32_sf a)).
Definition f32_eqb (a b : f32) : bool := SFeqb (f32_sf a) (f32_sf b).
Definition f32_zero : f32 := F32 0.
Definition f32_neg_zero : f32 := sf_f32 (S754_zero true).
Definition f32_one : f32 := sf_f32 (S754_finite false 8388608 (-23)).
Definition f32_nan : f32 := sf_f32 S754_nan.
Definition f32_is_nan (a : f32) : bool :=
  match f32_sf a with S754_nan => true | _ => false end.

(** [Iterator::sum::<f32>]: a left fold from [-0.0]. *)
Definition f32_sum (l : list f32) : f32 := foldl f32_add f32_neg_zero l.

Example f64_one_plus_one :
  f64_add (F64 0x3ff0000000000000) (F64 0x3ff0000000000000) = F64 0x4000000000000000.
Proof. vm_compute. reflexivity. Qed.

Example f32_three_four_five :
  f32_sqrt (f32_add (f32_mul (F32 0x40400000) (F32 0x40400000))
                    (f32_mul (F32 0x40800000) (F32 0x40800000))) = F32 0x40a00000.
Proof. vm_compute. reflexivity. Qed.

Lemma f64_add_nan_l a b : f64_is_nan a = true → f64_is_nan (f64_add a b) = true.
Proof.
  unfold f64_is_nan at 1, f64_add. by destruct (f64_sf a).
Qed.

Lemma f64_min_nan_r a b : f64_is_nan b = true → f64_is_nan a = false → f64_min a b = a.
Proof. intros Hb Ha. unfold f64_min. by rewrite Ha, Hb. Qed.
Lemma f64_max_nan_r a b : f64_is_nan b = true → f64_is_nan a = false → f64_max a b = a.
Proof. intros Hb Ha. unfold f64_max. by rewrite Ha, Hb. Qed.
