(* ===== verification/Arrow.v ===== *)
(** * Arrow data

    The Arrow and DataFusion crates are not part of the repository.  This file
    holds only the *data* they exchange with it, in the shape the columnar
    format documents: a column is a typed sequence of nullable values, a batch
    is a schema and equally long columns.  The functions of those crates are
    parameters, see [ArrowKernels]. *)

From S2P Require Import Prelude Floats.

(** The variants the repository matches on; every other variant of
    [arrow::datatypes::DataType] is [OtherType]. *)
Inductive DataType :=
  | Int64 | Float64 | Float32 | Int32 | Utf8
  | FixedSizeList (item : Field) (size : Z)
  | OtherType (name : string)
with Field :=
  | mkField (f_name : string) (f_type : DataType) (f_nullable : bool)
            (f_metadata : list (string * string)).

Definition field_name (f : Field) : string := let 'mkField n _ _ _ := f in n.
Definition field_type_of (f : Field) : DataType := let 'mkField _ t _ _ := f in t.
Definition field_nullable (f : Field) : bool := let 'mkField _ _ b _ := f in b.

(** [Field::new]. *)
Definition Field_new (name : string) (dt : DataType) (nullable : bool) : Field :=
  mkField name dt nullable [].

Fixpoint DataType_eq_dec (a b : DataType) : {a = b} + {a ≠ b}
with Field_eq_dec (f g : Field) : {f = g} + {f ≠ g}.
Proof.
  - destruct a as [| | | | |f n|s], b as [| | | | |g m|t];
      try (left; reflexivity); try (right; discriminate).
    + destruct (Field_eq_dec f g) as [->|]; [|right; congruence].
      destruct (decide (n = m)) as [->|]; [left; reflexivity | right; congruence].
    + destruct (decide (s = t)) as [->|]; [left; reflexivity | right; congruence].
  - destruct f as [n1 t1 b1 m1], g as [n2 t2 b2 m2].
    destruct (DataType_eq_dec t1 t2) as [->|]; [|right; congruence].
    destruct (decide (n1 = n2)) as [->|]; [|right; congruence].
    destruct (decide (b1 = b2)) as [->|]; [|right; congruence].
    destruct (decide (m1 = m2)) as [->|]; [left; reflexivity | right; congruence].
Defined.
#[global] Instance DataType_EqDecision : EqDecision DataType := DataType_eq_dec.
#[global] Instance Field_EqDecision : EqDecision Field := Field_eq_dec.

Record Schema := mkSchema { fields : list Field; schema_metadata : list (string * string) }.
#[global] Instance Schema_EqDecision : EqDecision Schema.
Proof. solve_decision. Defined.

(** [Schema::new]. *)
Definition Schema_new (fs : list Field) : Schema := mkSchema fs [].

(** One non-null value of a column. *)
Inductive Value :=
  | VInt (z : Z)
  | VF64 (f : f64)
  | VF32 (f : f32)
  | VVec (v : list f32)
  | VStr (s : string)
  | VOther (repr : string).
#[global] Instance Value_EqDecision : EqDecision Value.
Proof. solve_decision. Defined.

(** The value agrees with the column type. *)
Definition value_has_type (dt : DataType) (v : Value) : bool :=
  match dt, v with
  | Int64, VInt z => bool_decide (i64_min ≤ z ≤ i64_max)
  | Int32, VInt z => bool_decide (- 2 ^ 31 ≤ z < 2 ^ 31)
  | Float64, VF64 _ | Float32, VF32 _ | Utf8, VStr _ => true
  | FixedSizeList item n, VVec l =>
      bool_decide (field_type_of item = Float32) && bool_decide (Z.of_nat (length l) = n)
  | FixedSizeList item _, VOther _ => bool_decide (field_type_of item ≠ Float32)
  | OtherType _, VOther _ => true
  | _, _ => false
  end.

(** [ArrayRef]: the type and the nullable values. *)
Record Array := mkArray { data_type : DataType; values : list (option Value) }.
#[global] Instance Array_EqDecision : EqDecision Array.
Proof. solve_decision. Defined.

Definition array_len (a : Array) : nat := length (values a).

Definition array_ok (a : Array) : bool :=
  forallb (λ o, match o with Some v => value_has_type (data_type a) v | None => true end)
          (values a).

(** [RecordBatch]: the row count is stored, a batch may have no columns. *)
Record RecordBatch := mkBatch {
  schema : Schema;
  columns : list Array;
  num_rows : nat;
}.
#[global] Instance RecordBatch_EqDecision : EqDecision RecordBatch.
Proof. solve_decision. Defined.

Definition num_columns (b : RecordBatch) : nat := length (columns b).

(** A column matches its field: its type, and no null in a non-nullable one. *)
Definition column_ok (f : Field) (a : Array) : bool :=
  bool_decide (data_type a = field_type_of f) && array_ok a &&
  (field_nullable f || forallb (λ o, bool_decide (is_Some o)) (values a)).

(** The invariant of every [RecordBatch] ([RecordBatch::try_new] checks it). *)
Definition batch_ok (b : RecordBatch) : Prop :=
  Forall2 (λ f a, column_ok f a = true ∧ array_len a = num_rows b)
          (fields (schema b)) (columns b).

#[global] Instance batch_ok_dec b : Decision (batch_ok b).
Proof. apply _. Defined.

(** The rows of a batch, each the list of its cells. *)
Definition batch_row (b : RecordBatch) (k : nat) : list (option (option Value)) :=
  (λ a, values a !! k) <$> columns b.
Definition batch_rows (b : RecordBatch) : list (list (option (option Value))) :=
  batch_row b <$> seq 0 (num_rows b).

(** [UInt32Array] and [Int64Array] built from plain vectors. *)
Definition Int64Array_of (l : list (option Z)) : Array :=
  mkArray Int64 (option_map VInt <$> l).
Definition Float64Array_of (l : list (option f64)) : Array :=
  mkArray Float64 (option_map VF64 <$> l).
Definition Float32Array_of (l : list (option f32)) : Array :=
  mkArray Float32 (option_map VF32 <$> l).

(** [downcast_ref::<Int64Array>()] and its siblings: the concrete array type is
    the column type, and a well-typed column holds values of it. *)
Definition as_int (v : Value) : Z := match v with VInt z => z | _ => 0 end.
Definition as_f64 (v : Value) : f64 := match v with VF64 f => f | _ => f64_zero end.
Definition as_vec (v : Value) : list f32 := match v with VVec l => l | _ => [] end.

Definition downcast_int64 (a : Array) : option (list (option Z)) :=
  if decide (data_type a = Int64) then Some (option_map as_int <$> values a) else None.
Definition downcast_float64 (a : Array) : option (list (option f64)) :=
  if decide (data_type a = Float64) then Some (option_map as_f64 <$> values a) else None.

Lemma batch_ok_num_columns b : batch_ok b → length (fields (schema b)) = num_columns b.
Proof. apply Forall2_length. Qed.

Lemma batch_ok_column b i f a :
  batch_ok b → fields (schema b) !! i = Some f → columns b !! i = Some a →
  column_ok f a = true ∧ array_len a = num_rows b.
Proof. intros H Hf Ha. by apply (Forall2_lookup_lr _ _ _ _ _ _ H Hf Ha). Qed.

Lemma batch_ok_column_len b i a :
  batch_ok b → columns b !! i = Some a → array_len a = num_rows b.
Proof.
  intros H Ha. destruct (Forall2_lookup_r _ _ _ _ _ H Ha) as (f & Hf & _ & Hlen). done.
Qed.

Lemma batch_ok_lookup b i f :
  batch_ok b → fields (schema b) !! i = Some f →
  ∃ a, columns b !! i = Some a ∧ column_ok f a = true ∧ array_len a = num_rows b.
Proof. intros H Hf. destruct (Forall2_lookup_l _ _ _ _ _ H Hf) as (a & ? & ? & ?). eauto. Qed.

Lemma column_ok_type f a : column_ok f a = true → data_type a = field_type_of f.
Proof. unfold column_ok. rewrite !andb_true_iff, bool_decide_eq_true. tauto. Qed.
