(* ===== verification/Core.v ===== *)
(** * oxidelake-core: hardware identifiers, errors, buffer layouts, operator parameters

    Models [src/crates/oxidelake-core/src/{hardware,error,layout,params}.rs]. *)

From Stdlib Require Import Ascii.
From S2P Require Import Prelude Floats Arrow.

(** ** Strings

    A Rust [str] is its UTF-8 bytes.  [str::trim] removes the characters with
    the Unicode [White_Space] property, given here by their encodings. *)

Definition byte_is (c : ascii) (n : nat) : bool := Nat.eqb (nat_of_ascii c) n.

Definition ascii_ws (c : ascii) : bool :=
  let n := nat_of_ascii c in ((9 <=? n) && (n <=? 13))%nat || (n =? 32)%nat.

Definition ws2 (c1 c2 : ascii) : bool :=
  byte_is c1 0xC2 && (byte_is c2 0x85 || byte_is c2 0xA0).

Definition ws3 (c1 c2 c3 : ascii) : bool :=
  let n := nat_of_ascii c3 in
  (byte_is c1 0xE1 && byte_is c2 0x9A && byte_is c3 0x80) ||
  (byte_is c1 0xE2 && byte_is c2 0x80 &&
     (((0x80 <=? n) && (n <=? 0x8A))%nat || byte_is c3 0xA8 || byte_is c3 0xA9
      || byte_is c3 0xAF)) ||
  (byte_is c1 0xE2 && byte_is c2 0x81 && byte_is c3 0x9F) ||
  (byte_is c1 0xE3 && byte_is c2 0x80 && byte_is c3 0x80).

Fixpoint trim_start (l : list ascii) : list ascii :=
  match l with
  | [] => []
  | c1 :: l1 =>
      if ascii_ws c1 then trim_start l1
      else match l1 with
           | c2 :: l2 =>
               if ws2 c1 c2 then trim_start l2
               else match l2 with
                    | c3 :: l3 => if ws3 c1 c2 c3 then trim_start l3 else l
                    | [] => l
                    end
           | [] => l
           end
  end.

(** The same walk on the reversed string, so the bytes come last first. *)
Fixpoint trim_rev (l : list ascii) : list ascii :=
  match l with
  | [] => []
  | c1 :: l1 =>
      if ascii_ws c1 then trim_rev l1
      else match l1 with
           | c2 :: l2 =>
               if ws2 c2 c1 then trim_rev l2
               else match l2 with
                    | c3 :: l3 => if ws3 c3 c2 c1 then trim_rev l3 else l
                    | [] => l
                    end
           | [] => l
           end
  end.

Definition str_trim (s : string) : string :=
  String.string_of_list_ascii (rev (trim_rev (rev (trim_start (String.list_ascii_of_string s))))).

Definition ascii_lower (c : ascii) : ascii :=
  let n := nat_of_ascii c in
  if ((65 <=? n) && (n <=? 90))%nat then ascii_of_nat (n + 32) else c.

Definition to_ascii_lowercase (s : string) : string :=
  String.string_of_list_ascii (ascii_lower <$> String.list_ascii_of_string s).

(** ** Hardware ([hardware.rs]) *)

Inductive BackendKind := CpuSimd | Cuda | Metal.
#[global] Instance BackendKind_EqDecision : EqDecision BackendKind.
Proof. solve_decision. Defined.

Definition ALL : list BackendKind := [Cuda; Metal; CpuSimd].

Definition as_str (k : BackendKind) : string :=
  match k with CpuSimd => "cpu" | Cuda => "cuda" | Metal => "metal" end.

Definition is_gpu (k : BackendKind) : bool :=
  match k with CpuSimd => false | _ => true end.

Record DeviceId := mkDeviceId { di_backend : BackendKind; di_ordinal : Z }.
Definition DeviceId_CPU : DeviceId := mkDeviceId CpuSimd 0.

Definition DeviceId_display (d : DeviceId) : string :=
  as_str (di_backend d) +:+ ":" +:+ pretty (di_ordinal d).

(** ** Errors ([error.rs])

    Human-readable details keep the fixed part of the message; interpolated
    values are dropped, except where a caller reads them. *)

Inductive ErrorKind := IoNotFound | IoOther.

Inductive ArrowError := ArrowErr (msg : string).

Inductive EngineError :=
  | Io (kind : ErrorKind)
  | Allocation (bytes align : Z) (detail : string)
  | Device (backend : BackendKind) (detail : string)
  | Execution (detail : string)
  | Plan (detail : string)
  | Format (detail : string)
  | Unsupported (feature detail : string)
  | ArrowE (e : ArrowError)
  | DataFusion (e : DataFusionError)
with DataFusionError :=
  | DFPlan (msg : string)
  | DFInternal (msg : string)
  | DFExecution (msg : string)
  | DFArrow (e : ArrowError)
  | DFExternal (e : EngineError)
  (** an error several readers of one future receive *)
  | DFShared (e : DataFusionError)
  | DFOther (msg : string).

Definition is_unsupported (e : EngineError) : bool :=
  match e with Unsupported _ _ => true | _ => false end.

(** [impl From<EngineError> for DataFusionError]. *)
Definition to_datafusion (e : EngineError) : DataFusionError :=
  match e with
  | DataFusion inner => inner
  | other => DFExternal other
  end.

Abbreviation result := (res EngineError).
Abbreviation df_result := (res DataFusionError).

(** [impl FromStr for BackendKind]. *)
Definition BackendKind_from_str (s : string) : result BackendKind :=
  let t := to_ascii_lowercase (str_trim s) in
  if bool_decide (t ∈ ["cpu"; "cpusimd"; "cpu-simd"; "cpu_simd"]) then Ok CpuSimd
  else if bool_decide (t = "cuda") then Ok Cuda
  else if bool_decide (t = "metal") then Ok Metal
  else Err (Plan ("unknown backend '" +:+ t +:+ "'; expected one of cpu, cuda, metal")).

(** ** Buffer layouts ([layout.rs]) *)

Definition HOST_ALIGN : Z := 64.
Definition DEVICE_ALIGN : Z := 128.

(** [usize::is_power_of_two]: exactly one bit is set. *)
Definition is_power_of_two (n : Z) : bool := (0 <? n) && (Z.land n (n - 1) =? 0).

Record BufferLayout := mkLayout { bl_len : Z; bl_align : Z }.

Definition BufferLayout_new (len align : Z) : result BufferLayout :=
  if (align =? 0) || negb (is_power_of_two align)
  then Err (Allocation len align "alignment must be a non-zero power of two")
  else Ok (mkLayout len align).

Definition BufferLayout_host (len : Z) : BufferLayout := mkLayout len HOST_ALIGN.
Definition BufferLayout_device (len : Z) : BufferLayout := mkLayout len DEVICE_ALIGN.

(** The addition wraps at 64 bits, as it does in a release build. *)
Definition padded_len (l : BufferLayout) : Z :=
  let rem := bl_len l mod bl_align l in
  if rem =? 0 then bl_len l else wadd64 (bl_len l) (bl_align l - rem).

Definition is_aligned (l : BufferLayout) (addr : Z) : bool := addr mod bl_align l =? 0.

(** ** Operator parameters ([params.rs]) *)

Inductive Comparison := CEq | CLt | CLtEq | CGt | CGtEq.
#[global] Instance Comparison_EqDecision : EqDecision Comparison.
Proof. solve_decision. Defined.

Definition symbol (c : Comparison) : string :=
  match c with CEq => "=" | CLt => "<" | CLtEq => "<=" | CGt => ">" | CGtEq => ">=" end.

Inductive Literal := LInt64 (v : Z) | LFloat64 (v : f64).
#[global] Instance Literal_EqDecision : EqDecision Literal.
Proof. solve_decision. Defined.

Definition literal_data_type (l : Literal) : DataType :=
  match l with LInt64 _ => Int64 | LFloat64 _ => Float64 end.

Inductive Predicate :=
  | Compare (column : nat) (op : Comparison) (literal : Literal)
  | And (l r : Predicate).
#[global] Instance Predicate_EqDecision : EqDecision Predicate.
Proof. solve_decision. Defined.

(** [collect_columns] pushes onto a shared vector. *)
Fixpoint collect_columns (p : Predicate) (out : list nat) : list nat :=
  match p with
  | Compare c _ _ => out ++ [c]
  | And l r => collect_columns r (collect_columns l out)
  end.
Definition pred_columns (p : Predicate) : list nat := collect_columns p [].

Fixpoint leaf_count (p : Predicate) : nat :=
  match p with Compare _ _ _ => 1 | And l r => leaf_count l + leaf_count r end.

Inductive AggregateFunction := Sum | Count | Min | Max.
#[global] Instance AggregateFunction_EqDecision : EqDecision AggregateFunction.
Proof. solve_decision. Defined.

Definition agg_name (f : AggregateFunction) : string :=
  match f with Sum => "SUM" | Count => "COUNT" | Min => "MIN" | Max => "MAX" end.

Record AggregateSpec := mkSpec {
  group_by : nat;
  aggregates : list (AggregateFunction * nat);
}.
#[global] Instance AggregateSpec_EqDecision : EqDecision AggregateSpec.
Proof. solve_decision. Defined.

Inductive DistanceMetric := L2 | Cosine.
#[global] Instance DistanceMetric_EqDecision : EqDecision DistanceMetric.
Proof. solve_decision. Defined.

Definition metric_name (m : DistanceMetric) : string :=
  match m with L2 => "l2" | Cosine => "cosine" end.

Definition gpu_eligible_scalar (dt : DataType) : bool :=
  match dt with Int64 | Float64 => true | _ => false end.

Definition vector_dimension (dt : DataType) : option Z :=
  match dt with
  | FixedSizeList item n =>
      if bool_decide (field_type_of item = Float32) && (0 <? n) then Some n else None
  | _ => None
  end.

(** ** Properties *)

Lemma testbit_log2_range n k : 2 ^ k ≤ n < 2 ^ (k + 1) → 0 ≤ k → Z.testbit n k = true.
Proof.
  intros Hn Hk. apply Z.testbit_true; [done|].
  assert (n / 2 ^ k = 1) as ->; [|done].
  rewrite Z.pow_add_r in Hn by lia. symmetry.
  apply (Z.div_unique _ _ _ (n - 2 ^ k)); lia.
Qed.

Lemma is_power_of_two_spec n : is_power_of_two n = true ↔ ∃ k, 0 ≤ k ∧ n = 2 ^ k.
Proof.
  unfold is_power_of_two. rewrite andb_true_iff, Z.ltb_lt, Z.eqb_eq. split.
  - intros [Hn Hland]. exists (Z.log2 n).
    pose proof (Z.log2_nonneg n). pose proof (Z.log2_spec n Hn) as [Hlo Hhi].
    split; [done|]. destruct (decide (n = 2 ^ Z.log2 n)) as [|Hne]; [done|].
    exfalso. assert (Z.testbit (Z.land n (n - 1)) (Z.log2 n) = true) as Hbit.
    { rewrite Z.land_spec, andb_true_iff. rewrite <- Z.add_1_r in Hhi.
      split; apply testbit_log2_range; lia. }
    rewrite Hland, Z.bits_0 in Hbit. done.
  - intros (k & Hk & ->). split; [by apply Z.pow_pos_nonneg|].
    change (2 ^ k - 1) with (Z.pred (2 ^ k)).
    rewrite <- Z.ones_equiv, Z.land_ones by done. by apply Z_mod_same_full.
Qed.

Lemma BufferLayout_new_Ok len align l :
  BufferLayout_new len align = Ok l ↔
  l = mkLayout len align ∧ ∃ k, 0 ≤ k ∧ align = 2 ^ k.
Proof.
  unfold BufferLayout_new. rewrite <- is_power_of_two_spec.
  destruct (is_power_of_two align) eqn:E; cbn.
  - rewrite orb_false_r. destruct (align =? 0) eqn:E0.
    + apply Z.eqb_eq in E0 as ->. done.
    + split; [intros [= <-]; done | by intros [-> _]].
  - rewrite orb_true_r. split; [done | by intros [_ [=]]].
Qed.

(** A layout's length, when rounding it up stays inside 64 bits. *)
Definition layout_fits (l : BufferLayout) : Prop :=
  0 ≤ bl_len l ∧ 0 < bl_align l ∧ bl_len l + bl_align l ≤ U64.

Lemma padded_len_spec l :
  layout_fits l →
  bl_len l ≤ padded_len l < bl_len l + bl_align l ∧ (bl_align l | padded_len l).
Proof.
  intros (Hlen & Ha & Hfit). unfold padded_len.
  pose proof (Z.mod_pos_bound (bl_len l) _ Ha) as Hm.
  destruct (Z.eqb_spec (bl_len l mod bl_align l) 0) as [E|E].
  - split; [lia|]. by apply Z.mod_divide; [lia|].
  - rewrite wadd64_small by (unfold is_u64; lia). split; [lia|].
    exists (bl_len l / bl_align l + 1).
    rewrite (Z.div_mod (bl_len l) (bl_align l)) at 1 by lia. lia.
Qed.

(** [BufferLayout::new] accepts exactly the powers of two, and the padded
    length of an accepted layout whose rounding stays within 64 bits is the
    least multiple of the alignment that holds the buffer. *)
Theorem layout_padding (len align : Z) (l : BufferLayout) :
  BufferLayout_new len align = Ok l →
  0 ≤ len → len + align ≤ U64 →
  (∃ k, 0 ≤ k ∧ align = 2 ^ k) ∧
  len ≤ padded_len l ∧ (align | padded_len l) ∧
  ∀ m, len ≤ m → (align | m) → padded_len l ≤ m.
Proof.
  intros [-> (k & Hk & ->)]%BufferLayout_new_Ok Hlen Hfit.
  assert (0 < 2 ^ k) by by apply Z.pow_pos_nonneg.
  destruct (padded_len_spec (mkLayout len (2 ^ k))) as [[Hlo Hhi] [q Hq]]; [done|].
  cbn [bl_len bl_align] in *. split; [eauto|]. split; [done|]. split; [by exists q|].
  intros m Hm [q' ->]. destruct (Z.le_gt_cases q q'); nia.
Qed.

Lemma layout_padding_witness :
  (∃ k, 0 ≤ k ∧ 64 = 2 ^ k) ∧
  129 ≤ padded_len (mkLayout 129 64) ∧ (64 | padded_len (mkLayout 129 64)) ∧
  ∀ m, 129 ≤ m → (64 | m) → padded_len (mkLayout 129 64) ≤ m.
Proof. apply (layout_padding 129 64 (mkLayout 129 64)); [reflexivity | lia | vm_compute; discriminate]. Defined.

(** *** Backend names *)

Lemma trim_start_ws w l : Forall (λ c, ascii_ws c = true) w → trim_start (w ++ l) = trim_start l.
Proof. induction 1 as [|c w Hc _ IH]; cbn; [done|]. by rewrite Hc. Qed.

Lemma trim_rev_ws w l : Forall (λ c, ascii_ws c = true) w → trim_rev (w ++ l) = trim_rev l.
Proof. induction 1 as [|c w Hc _ IH]; cbn; [done|]. by rewrite Hc. Qed.

(** A printable ASCII byte is neither white space nor part of a longer encoding. *)
Definition graphic (c : ascii) : bool :=
  let n := nat_of_ascii c in ((33 <=? n) && (n <? 127))%nat.

Lemma graphic_not_ws c :
  graphic c = true → ascii_ws c = false ∧
  (∀ d, ws2 c d = false) ∧ (∀ d, ws2 d c = false) ∧
  (∀ d e, ws3 c d e = false) ∧ (∀ d e, ws3 d e c = false).
Proof.
  unfold graphic, ascii_ws, ws2, ws3, byte_is.
  rewrite andb_true_iff, Nat.leb_le, Nat.ltb_lt. intros H.
  assert (∀ k : nat, (128 ≤ k)%nat → (nat_of_ascii c =? k)%nat = false) as Hk.
  { intros k ?. apply Nat.eqb_neq. lia. }
  assert ((128 <=? nat_of_ascii c)%nat = false) as Hl by (apply Nat.leb_gt; lia).
  assert ((nat_of_ascii c <=? 13)%nat = false) as Hw by (apply Nat.leb_gt; lia).
  assert ((nat_of_ascii c =? 32)%nat = false) as Hs by (apply Nat.eqb_neq; lia).
  repeat split; intros; rewrite ?Hw, ?Hs, ?Hl, ?Hk, ?andb_false_r by lia; done.
Qed.

Lemma trim_start_graphic c l : graphic c = true → trim_start (c :: l) = c :: l.
Proof.
  intros (H1 & H2 & _ & H3 & _)%graphic_not_ws. cbn. rewrite H1.
  destruct l as [|c2 [|c3 l]]; [done|by rewrite H2|by rewrite H2, H3].
Qed.

Lemma trim_rev_graphic c l : graphic c = true → trim_rev (c :: l) = c :: l.
Proof.
  intros (H1 & _ & H2 & _ & H3)%graphic_not_ws. cbn. rewrite H1.
  destruct l as [|c2 [|c3 l]]; [done|by rewrite H2|by rewrite H2, H3].
Qed.

Lemma str_trim_graphic w1 l w2 :
  Forall (λ c, ascii_ws c = true) w1 → Forall (λ c, ascii_ws c = true) w2 →
  l ≠ [] → Forall (λ c, graphic c = true) l →
  str_trim (String.string_of_list_ascii (w1 ++ l ++ w2)) = String.string_of_list_ascii l.
Proof.
  intros H1 H2 Hne Hl. unfold str_trim. rewrite String.list_ascii_of_string_of_list_ascii.
  rewrite (trim_start_ws w1) by done. f_equal.
  assert (trim_start (l ++ w2) = l ++ w2) as ->.
  { destruct l as [|c l]; [done|]. cbn [app]. apply trim_start_graphic.
    by apply Forall_cons in Hl as [? _]. }
  rewrite rev_app_distr, trim_rev_ws by by apply Forall_rev.
  assert (trim_rev (rev l) = rev l) as ->; [|apply rev_involutive].
  apply Forall_rev in Hl. destruct (rev l) as [|c l'] eqn:E; [done|].
  apply trim_rev_graphic. by apply Forall_cons in Hl as [? _].
Qed.

Lemma graphic_lower c : graphic (ascii_lower c) = true → graphic c = true.
Proof.
  unfold ascii_lower. set (n := nat_of_ascii c).
  destruct ((65 <=? n) && (n <=? 90))%nat eqn:E; [|done]. intros _.
  apply andb_true_iff in E as [E1%Nat.leb_le E2%Nat.leb_le].
  unfold graphic. fold n. apply andb_true_iff. rewrite Nat.leb_le, Nat.ltb_lt. lia.
Qed.

(** The lower-case names [from_str] accepts for a backend. *)
Definition accepted_names (k : BackendKind) : list string :=
  match k with
  | CpuSimd => ["cpu"; "cpusimd"; "cpu-simd"; "cpu_simd"]
  | Cuda => ["cuda"]
  | Metal => ["metal"]
  end.

Definition all_ws (s : string) : Prop :=
  Forall (λ c, ascii_ws c = true) (String.list_ascii_of_string s).

Lemma accepted_name_graphic k n :
  n ∈ accepted_names k →
  String.list_ascii_of_string n ≠ [] ∧ Forall (λ c, graphic c = true) (String.list_ascii_of_string n).
Proof.
  intros Hn. assert (n ∈ accepted_names CpuSimd ++ accepted_names Cuda ++ accepted_names Metal) as H.
  { rewrite !elem_of_app. destruct k; auto. }
  clear Hn k. cbn in H. repeat (apply elem_of_cons in H as [->|H];
    [split; [done|]; repeat constructor |]). by apply elem_of_nil in H.
Qed.

Lemma list_ascii_app s t :
  String.list_ascii_of_string (s +:+ t) =
  String.list_ascii_of_string s ++ String.list_ascii_of_string t.
Proof.
  induction s as [|c s IH]; [done|].
  change (String c s +:+ t) with (String c (s +:+ t)). cbn. by rewrite IH.
Qed.

Lemma str_trim_name k w1 s w2 :
  all_ws w1 → all_ws w2 → to_ascii_lowercase s ∈ accepted_names k →
  str_trim (w1 +:+ s +:+ w2) = s.
Proof.
  intros H1 H2 Hs. apply accepted_name_graphic in Hs as [Hne Hg].
  unfold to_ascii_lowercase in *. rewrite String.list_ascii_of_string_of_list_ascii in Hne, Hg.
  rewrite <- (String.string_of_list_ascii_of_string (w1 +:+ s +:+ w2)), !list_ascii_app.
  rewrite str_trim_graphic; [apply String.string_of_list_ascii_of_string|done|done| |].
  - by intros E; rewrite E in Hne.
  - apply Forall_fmap in Hg. eapply Forall_impl; [exact Hg|]. intros c. apply graphic_lower.
Qed.

Lemma from_str_lower s :
  BackendKind_from_str s =
  let t := to_ascii_lowercase (str_trim s) in
  if decide (t ∈ accepted_names CpuSimd) then Ok CpuSimd
  else if decide (t ∈ accepted_names Cuda) then Ok Cuda
  else if decide (t ∈ accepted_names Metal) then Ok Metal
  else Err (Plan ("unknown backend '" +:+ t +:+ "'; expected one of cpu, cuda, metal")).
Proof.
  unfold BackendKind_from_str. cbn zeta. set (t := to_ascii_lowercase _).
  assert (∀ a : string, bool_decide (t = a) = bool_decide (t ∈ [a])) as Hs.
  { intros a. apply bool_decide_ext. by rewrite list_elem_of_singleton. }
  rewrite !Hs. unfold bool_decide. cbn [accepted_names].
  repeat case_decide; done.
Qed.

(** parsing a backend name ignores letter case and surrounding white
    space and accepts exactly the documented spellings; in particular the name
    a backend prints parses back to it.  Any other string is a plan error. *)
Theorem backend_from_str_spec (s : string) :
  (∀ k, BackendKind_from_str s = Ok k ↔ to_ascii_lowercase (str_trim s) ∈ accepted_names k) ∧
  (∀ k w1 w2, all_ws w1 → all_ws w2 → to_ascii_lowercase s ∈ accepted_names k →
     BackendKind_from_str (w1 +:+ s +:+ w2) = Ok k) ∧
  ((∀ k, BackendKind_from_str s ≠ Ok k) → ∃ m, BackendKind_from_str s = Err (Plan m)) ∧
  (∀ k, BackendKind_from_str (as_str k) = Ok k).
Proof.
  assert (∀ s k, to_ascii_lowercase (str_trim s) ∈ accepted_names k ↔
                 BackendKind_from_str s = Ok k) as Hiff.
  { intros t k. rewrite from_str_lower. cbn zeta. set (u := to_ascii_lowercase _). split.
    - clearbody u. intros Hu. destruct k; cbn in Hu;
        repeat (apply elem_of_cons in Hu as [->|Hu]; [reflexivity|]);
        by apply elem_of_nil in Hu.
    - repeat case_decide; intros [= <-]; done. }
  split; [intros k; symmetry; apply Hiff|]. split.
  - intros k w1 w2 H1 H2 Hs. apply Hiff. by rewrite (str_trim_name k).
  - split; [|by intros []]. intros Hno. rewrite from_str_lower in *. cbn zeta in *.
    repeat case_decide; [by destruct (Hno CpuSimd)|by destruct (Hno Cuda)
      |by destruct (Hno Metal)|eauto].
Qed.

(** *** Predicates *)

Lemma collect_columns_app p out : collect_columns p out = out ++ pred_columns p.
Proof.
  unfold pred_columns. revert out. induction p as [c op l|l IHl r IHr]; intros out; cbn.
  - done.
  - rewrite IHl, IHr, (IHr (collect_columns l [])). by rewrite (app_assoc out).
Qed.

Lemma pred_columns_And l r : pred_columns (And l r) = pred_columns l ++ pred_columns r.
Proof. unfold pred_columns at 1. cbn. by rewrite collect_columns_app. Qed.

Lemma length_pred_columns p : length (pred_columns p) = leaf_count p.
Proof.
  induction p; [done|]. rewrite pred_columns_And, length_app. cbn. lia.
Qed.
