(* ===== verification/Telemetry.v ===== *)
(** * oxidelake-core: the telemetry hub

    Models [src/crates/oxidelake-core/src/telemetry.rs].

    Operator counters live behind [Arc]s that the hub and the running operators
    share, so the hub holds a heap of [OperatorStats] cells and a deque of
    handles into it; evicting a registration drops a handle, never a cell.
    Counters are atomics: an update is a list of atomic micro-operations, which
    also gives the concurrent semantics (an interleaving of the lists). *)

From Stdlib Require Import Ascii.
From S2P Require Import Prelude Core.

(** ** Tiers and their gauges *)

Inductive MemoryTier := TDevice | THost | TDisk.
#[global] Instance MemoryTier_EqDecision : EqDecision MemoryTier.
Proof. solve_decision. Defined.

Definition MemoryTier_index (t : MemoryTier) : nat :=
  match t with TDevice => 0 | THost => 1 | TDisk => 2 end.

(** [bytes: [AtomicU64; 3]]. *)
Record TierGauges := mkGauges { gauge_bytes : list Z }.
Definition TierGauges_default : TierGauges := mkGauges [0; 0; 0].

Definition gauge_get (g : TierGauges) (t : MemoryTier) : Z :=
  default 0 (gauge_bytes g !! MemoryTier_index t).
Definition gauge_set (g : TierGauges) (t : MemoryTier) (b : Z) : TierGauges :=
  mkGauges (<[MemoryTier_index t := b]> (gauge_bytes g)).
Definition gauge_add (g : TierGauges) (t : MemoryTier) (b : Z) : TierGauges :=
  gauge_set g t (wadd64 (gauge_get g t) b).
Definition gauge_sub (g : TierGauges) (t : MemoryTier) (b : Z) : TierGauges :=
  gauge_set g t (sat_sub (gauge_get g t) b).

Record TierSnapshot := mkTierSnapshot {
  ts_device_bytes : Z; ts_host_bytes : Z; ts_disk_bytes : Z }.
Definition gauges_snapshot (g : TierGauges) : TierSnapshot :=
  mkTierSnapshot (gauge_get g TDevice) (gauge_get g THost) (gauge_get g TDisk).

(** ** Spill counters *)

Record SpillCounters := mkSpillCounters {
  demotions : Z; promotions : Z; spilled_bytes : Z; reloaded_bytes : Z }.
Definition SpillCounters_default : SpillCounters := mkSpillCounters 0 0 0 0.

Definition record_demotion (c : SpillCounters) (bytes : Z) : SpillCounters :=
  mkSpillCounters (wadd64 (demotions c) 1) (promotions c)
                  (wadd64 (spilled_bytes c) bytes) (reloaded_bytes c).
Definition record_promotion (c : SpillCounters) (bytes : Z) : SpillCounters :=
  mkSpillCounters (demotions c) (wadd64 (promotions c) 1)
                  (spilled_bytes c) (wadd64 (reloaded_bytes c) bytes).

Record SpillSnapshot := mkSpillSnapshot {
  ss_demotions : Z; ss_promotions : Z; ss_spilled_bytes : Z; ss_reloaded_bytes : Z }.
Definition spill_snapshot (c : SpillCounters) : SpillSnapshot :=
  mkSpillSnapshot (demotions c) (promotions c) (spilled_bytes c) (reloaded_bytes c).

(** ** Operator counters *)

Record OperatorStats := mkStats {
  os_id : Z; os_name : string; os_backend : BackendKind;
  rows_in : Z; rows_out : Z; batches : Z; elapsed_ns : Z;
  bytes_h2d : Z; bytes_d2h : Z; memory_bytes : Z; fallback_batches : Z;
}.

Definition OperatorStats_new (id : Z) (name : string) (backend : BackendKind) : OperatorStats :=
  mkStats id name backend 0 0 0 0 0 0 0 0.

(** The eight atomic cells of one [OperatorStats]. *)
Inductive Counter :=
  | RowsIn | RowsOut | Batches | ElapsedNs | BytesH2d | BytesD2h | MemoryBytes | Fallbacks.
#[global] Instance Counter_EqDecision : EqDecision Counter.
Proof. solve_decision. Defined.

Definition counter (c : Counter) (s : OperatorStats) : Z :=
  match c with
  | RowsIn => rows_in s | RowsOut => rows_out s | Batches => batches s
  | ElapsedNs => elapsed_ns s | BytesH2d => bytes_h2d s | BytesD2h => bytes_d2h s
  | MemoryBytes => memory_bytes s | Fallbacks => fallback_batches s
  end.

Definition set_counter (c : Counter) (v : Z) (s : OperatorStats) : OperatorStats :=
  let 'mkStats i n b ri ro ba el h d m fb := s in
  match c with
  | RowsIn => mkStats i n b v ro ba el h d m fb
  | RowsOut => mkStats i n b ri v ba el h d m fb
  | Batches => mkStats i n b ri ro v el h d m fb
  | ElapsedNs => mkStats i n b ri ro ba v h d m fb
  | BytesH2d => mkStats i n b ri ro ba el v d m fb
  | BytesD2h => mkStats i n b ri ro ba el h v m fb
  | MemoryBytes => mkStats i n b ri ro ba el h d v fb
  | Fallbacks => mkStats i n b ri ro ba el h d m v
  end.

(** One atomic operation on a cell. *)
Inductive AtomicOp := FetchAdd (c : Counter) (v : Z) | Store (c : Counter) (v : Z).

Definition atomic (op : AtomicOp) (s : OperatorStats) : OperatorStats :=
  match op with
  | FetchAdd c v => set_counter c (wadd64 (counter c s) v) s
  | Store c v => set_counter c v s
  end.
Definition run_atomics (ops : list AtomicOp) (s : OperatorStats) : OperatorStats :=
  foldl (λ s op, atomic op s) s ops.

(** [record_batch]: four relaxed [fetch_add]s, in source order; [elapsed] is
    [Duration::as_nanos], clamped to [u64]. *)
Definition record_batch_ops (rin rout elapsed : Z) : list AtomicOp :=
  [FetchAdd RowsIn rin; FetchAdd RowsOut rout; FetchAdd Batches 1;
   FetchAdd ElapsedNs (u64_clamp elapsed)].
Definition record_batch (rin rout elapsed : Z) (s : OperatorStats) : OperatorStats :=
  run_atomics (record_batch_ops rin rout elapsed) s.

Definition record_transfer_ops (h2d d2h : Z) : list AtomicOp :=
  [FetchAdd BytesH2d h2d; FetchAdd BytesD2h d2h].
Definition record_transfer (h2d d2h : Z) (s : OperatorStats) : OperatorStats :=
  run_atomics (record_transfer_ops h2d d2h) s.

Definition set_memory_bytes (bytes : Z) (s : OperatorStats) : OperatorStats :=
  atomic (Store MemoryBytes bytes) s.
Definition record_fallback (s : OperatorStats) : OperatorStats :=
  atomic (FetchAdd Fallbacks 1) s.

Record OperatorSnapshot := mkOpSnapshot {
  sn_id : Z; sn_name : string; sn_backend : BackendKind;
  sn_rows_in : Z; sn_rows_out : Z; sn_batches : Z; sn_elapsed_ns : Z;
  sn_bytes_h2d : Z; sn_bytes_d2h : Z; sn_memory_bytes : Z; sn_fallback_batches : Z;
}.

Definition stats_snapshot (s : OperatorStats) : OperatorSnapshot :=
  mkOpSnapshot (os_id s) (os_name s) (os_backend s) (rows_in s) (rows_out s) (batches s)
    (elapsed_ns s) (bytes_h2d s) (bytes_d2h s) (memory_bytes s) (fallback_batches s).

Definition fell_back_entirely (s : OperatorSnapshot) : bool :=
  (0 <? sn_batches s) && (sn_batches s <=? sn_fallback_batches s).

(** ** The hub *)

Record TierCapacity := mkCapacity {
  cap_device_bytes : option Z; cap_host_bytes : option Z; spill_on_query_path : bool }.
Definition TierCapacity_default : TierCapacity := mkCapacity None None false.

Record PlanNodeSummary := mkPlanNode {
  pn_depth : Z; pn_name : string; pn_backend : BackendKind; pn_detail : string }.
Record PlacementSkip := mkSkip { skip_node : string; skip_reason : string }.

Definition MAX_PLACEMENT_SKIPS : nat := 256.
Definition MAX_OPERATORS : nat := 4096.

(** A handle is an index into [hub_heap]; [Arc::clone] copies the index. *)
Record TelemetryHub := mkHub {
  hub_heap : list OperatorStats;
  operators : list nat;
  next_operator_id : Z;
  tiers : TierGauges;
  spill : SpillCounters;
  plan : list PlanNodeSummary;
  skips : list PlacementSkip;
  capacity : TierCapacity;
}.

Definition TelemetryHub_new : TelemetryHub :=
  mkHub [] [] 0 TierGauges_default SpillCounters_default [] [] TierCapacity_default.

Definition pop_front {A} (l : list A) : list A := tail l.

Definition register_operator (name : string) (backend : BackendKind) (h : TelemetryHub)
    : nat * TelemetryHub :=
  let id := next_operator_id h in
  let handle := length (hub_heap h) in
  let ops := if (MAX_OPERATORS <=? length (operators h))%nat
             then pop_front (operators h) else operators h in
  (handle, mkHub (hub_heap h ++ [OperatorStats_new id name backend]) (ops ++ [handle])
             (wadd64 id 1) (tiers h) (spill h) (plan h) (skips h) (capacity h)).

Definition clear_operators (h : TelemetryHub) : TelemetryHub :=
  mkHub (hub_heap h) [] (next_operator_id h) (tiers h) (spill h) (plan h) (skips h) (capacity h).

Definition record_skip (node reason : string) (h : TelemetryHub) : TelemetryHub :=
  if (MAX_PLACEMENT_SKIPS <=? length (skips h))%nat then h
  else mkHub (hub_heap h) (operators h) (next_operator_id h) (tiers h) (spill h) (plan h)
         (skips h ++ [mkSkip node reason]) (capacity h).

Definition clear_skips (h : TelemetryHub) : TelemetryHub :=
  mkHub (hub_heap h) (operators h) (next_operator_id h) (tiers h) (spill h) (plan h) [] (capacity h).

Definition set_plan (nodes : list PlanNodeSummary) (h : TelemetryHub) : TelemetryHub :=
  mkHub (hub_heap h) (operators h) (next_operator_id h) (tiers h) (spill h) nodes (skips h) (capacity h).

Definition set_capacity (c : TierCapacity) (h : TelemetryHub) : TelemetryHub :=
  mkHub (hub_heap h) (operators h) (next_operator_id h) (tiers h) (spill h) (plan h) (skips h) c.

(** Updates through the shared parts of the hub. *)
Definition with_tiers (f : TierGauges → TierGauges) (h : TelemetryHub) : TelemetryHub :=
  mkHub (hub_heap h) (operators h) (next_operator_id h) (f (tiers h)) (spill h) (plan h) (skips h) (capacity h).
Definition with_spill (f : SpillCounters → SpillCounters) (h : TelemetryHub) : TelemetryHub :=
  mkHub (hub_heap h) (operators h) (next_operator_id h) (tiers h) (f (spill h)) (plan h) (skips h) (capacity h).
Definition with_stats (handle : nat) (f : OperatorStats → OperatorStats) (h : TelemetryHub) : TelemetryHub :=
  mkHub (alter f handle (hub_heap h)) (operators h) (next_operator_id h) (tiers h) (spill h) (plan h) (skips h) (capacity h).

Record TelemetrySnapshot := mkSnapshot {
  snap_operators : list OperatorSnapshot;
  snap_tiers : TierSnapshot;
  snap_spill : SpillSnapshot;
  snap_plan : list PlanNodeSummary;
  snap_capacity : TierCapacity;
}.

Definition hub_snapshot (h : TelemetryHub) : TelemetrySnapshot :=
  mkSnapshot (stats_snapshot <$> omap (λ i, hub_heap h !! i) (operators h))
    (gauges_snapshot (tiers h)) (spill_snapshot (spill h)) (plan h) (capacity h).

(** ** Prometheus exposition *)

Definition dq : string := String "034"%char EmptyString.
Definition nl : string := String "010"%char EmptyString.
Definition backslash : ascii := "092"%char.

(** The escaped characters are ASCII, so the walk over bytes is the walk over
    characters. *)
Fixpoint escape_label (value : string) : string :=
  match value with
  | EmptyString => EmptyString
  | String c rest =>
      if decide (c = backslash) then String backslash (String backslash (escape_label rest))
      else if decide (c = "034"%char) then String backslash (String "034"%char (escape_label rest))
      else if decide (c = "010"%char) then String backslash (String "n"%char (escape_label rest))
      else String c (escape_label rest)
  end.

Definition operator_counters : list (string * string * (OperatorSnapshot → Z)) :=
  [("oxide_operator_rows_in_total", "Input rows.", sn_rows_in);
   ("oxide_operator_rows_out_total", "Output rows.", sn_rows_out);
   ("oxide_operator_batches_total", "Batches processed.", sn_batches);
   ("oxide_operator_fallback_batches_total",
    "Batches that ran on the CPU reference although the operator was placed on a device.",
    sn_fallback_batches);
   ("oxide_operator_elapsed_nanoseconds_total", "Processing time.", sn_elapsed_ns);
   ("oxide_operator_bytes_h2d_total", "Bytes copied host to device.", sn_bytes_h2d);
   ("oxide_operator_bytes_d2h_total", "Bytes copied device to host.", sn_bytes_d2h)].

Definition operator_sample (name : string) (value : OperatorSnapshot → Z)
    (op : OperatorSnapshot) : string :=
  name +:+ "{operator=" +:+ dq +:+ escape_label (sn_name op) +:+ dq +:+
  ",backend=" +:+ dq +:+ as_str (sn_backend op) +:+ dq +:+ "} " +:+ pretty (value op) +:+ nl.

Definition concat_strings (l : list string) : string := foldr (λ a b, a +:+ b) EmptyString l.

Definition to_prometheus (s : TelemetrySnapshot) : string :=
  let counters := concat_strings
    ((λ '(name, help, value),
       "# HELP " +:+ name +:+ " " +:+ help +:+ nl +:+ "# TYPE " +:+ name +:+ " counter" +:+ nl +:+
       concat_strings (operator_sample name value <$> snap_operators s)) <$> operator_counters) in
  let memory :=
    "# HELP oxide_operator_memory_bytes Currently allocated bytes." +:+ nl +:+
    "# TYPE oxide_operator_memory_bytes gauge" +:+ nl +:+
    concat_strings (operator_sample "oxide_operator_memory_bytes" sn_memory_bytes
                      <$> snap_operators s) in
  let gauges := concat_strings
    ((λ '(name, value),
       "# HELP " +:+ name +:+ " Bytes resident in this memory tier." +:+ nl +:+
       "# TYPE " +:+ name +:+ " gauge" +:+ nl +:+ name +:+ " " +:+ pretty (value : Z) +:+ nl) <$>
      [("oxide_tier_device_bytes", ts_device_bytes (snap_tiers s));
       ("oxide_tier_host_bytes", ts_host_bytes (snap_tiers s));
       ("oxide_tier_disk_bytes", ts_disk_bytes (snap_tiers s))]) in
  let spills := concat_strings
    ((λ '(name, value),
       "# HELP " +:+ name +:+ " Spill manager activity." +:+ nl +:+
       "# TYPE " +:+ name +:+ " counter" +:+ nl +:+ name +:+ " " +:+ pretty (value : Z) +:+ nl) <$>
      [("oxide_spill_demotions_total", ss_demotions (snap_spill s));
       ("oxide_spill_promotions_total", ss_promotions (snap_spill s));
       ("oxide_spill_spilled_bytes_total", ss_spilled_bytes (snap_spill s));
       ("oxide_spill_reloaded_bytes_total", ss_reloaded_bytes (snap_spill s))]) in
  counters +:+ memory +:+ gauges +:+ spills.

(** A scraper's reading of a quoted label value, by the exposition format: up
    to the first unescaped quote, with backslash escapes undone; a raw line
    feed inside a value is malformed. *)
Fixpoint read_label (s : string) : option (string * string) :=
  match s with
  | EmptyString => None
  | String c rest =>
      if decide (c = "034"%char) then Some (EmptyString, rest)
      else if decide (c = "010"%char) then None
      else if decide (c = backslash) then
        match rest with
        | String d rest' =>
            v ← (if decide (d = backslash) then Some backslash
                 else if decide (d = "034"%char) then Some "034"%char
                 else if decide (d = "n"%char) then Some "010"%char else None);
            '(l, r) ← read_label rest'; Some (String v l, r)
        | EmptyString => None
        end
      else '(l, r) ← read_label rest; Some (String c l, r)
  end.

(** ** Sequences of hub operations *)

Inductive HubOp :=
  | ORegister (name : string) (backend : BackendKind)
  | OClearOperators
  | OStats (handle : nat) (op : AtomicOp)
  | OSkip (node reason : string)
  | OClearSkips
  | OSetPlan (nodes : list PlanNodeSummary)
  | OSetCapacity (c : TierCapacity)
  | OTierSet (t : MemoryTier) (b : Z)
  | OTierAdd (t : MemoryTier) (b : Z)
  | OTierSub (t : MemoryTier) (b : Z)
  | ODemotion (b : Z)
  | OPromotion (b : Z).

Definition hub_step (h : TelemetryHub) (op : HubOp) : TelemetryHub :=
  match op with
  | ORegister n b => (register_operator n b h).2
  | OClearOperators => clear_operators h
  | OStats i a => with_stats i (atomic a) h
  | OSkip n r => record_skip n r h
  | OClearSkips => clear_skips h
  | OSetPlan ns => set_plan ns h
  | OSetCapacity c => set_capacity c h
  | OTierSet t b => with_tiers (λ g, gauge_set g t b) h
  | OTierAdd t b => with_tiers (λ g, gauge_add g t b) h
  | OTierSub t b => with_tiers (λ g, gauge_sub g t b) h
  | ODemotion b => with_spill (λ c, record_demotion c b) h
  | OPromotion b => with_spill (λ c, record_promotion c b) h
  end.

Definition hub_run (ops : list HubOp) : TelemetryHub := foldl hub_step TelemetryHub_new ops.

(** The specification of the registration log: handles are handed out in
    order, a clear forgets the ones registered so far, and only the newest
    [MAX_OPERATORS] are shown. *)
Record HubLog := mkLog { log_count : nat; log_live : list nat }.
Definition log_step (l : HubLog) (op : HubOp) : HubLog :=
  match op with
  | ORegister _ _ => mkLog (S (log_count l)) (log_live l ++ [log_count l])
  | OClearOperators => mkLog (log_count l) []
  | _ => l
  end.
Definition log_run (ops : list HubOp) : HubLog := foldl log_step (mkLog 0 []) ops.
Definition newest (n : nat) (l : list nat) : list nat := drop (length l - n) l.

(** ** Properties *)

(** *** Registration *)

Lemma length_newest n l : length (newest n l) = (length l `min` n)%nat.
Proof. unfold newest. rewrite length_drop. lia. Qed.

Lemma newest_snoc n l x :
  (0 < n)%nat →
  newest n (l ++ [x]) =
  (if (n <=? length (newest n l))%nat then pop_front (newest n l) else newest n l) ++ [x].
Proof.
  intros Hn. rewrite length_newest. unfold newest. rewrite length_app. cbn [length].
  destruct (Nat.leb_spec n (length l `min` n)).
  - replace (length l + 1 - n)%nat with (length l - n + 1)%nat by lia.
    rewrite drop_app_le by lia. f_equal. by rewrite <- (drop_drop l 1).
  - replace (length l + 1 - n)%nat with 0%nat by lia.
    by replace (length l - n)%nat with 0%nat by lia.
Qed.

(** The hub agrees with its log. *)
Record hub_rel (h : TelemetryHub) (l : HubLog) : Prop := {
  hr_ops : operators h = newest MAX_OPERATORS (log_live l);
  hr_live : Forall (λ i, (i < log_count l)%nat) (log_live l);
  hr_count : length (hub_heap h) = log_count l;
  hr_next : next_operator_id h = wrap64 (Z.of_nat (log_count l));
  hr_ids : ∀ i s, hub_heap h !! i = Some s → os_id s = wrap64 (Z.of_nat i);
  hr_skips : (length (skips h) ≤ MAX_PLACEMENT_SKIPS)%nat;
}.

Lemma os_id_set_counter c v s : os_id (set_counter c v s) = os_id s.
Proof. by destruct s, c. Qed.
Lemma os_id_atomic op s : os_id (atomic op s) = os_id s.
Proof. destruct op; cbn; apply os_id_set_counter. Qed.

Lemma wadd64_wrap64 a b : wadd64 (wrap64 a) b = wrap64 (a + b).
Proof. unfold wadd64, wrap64. by rewrite Zplus_mod_idemp_l. Qed.

Lemma hub_rel_step h l op : hub_rel h l → hub_rel (hub_step h op) (log_step l op).
Proof.
  intros [Hops Hlive Hcount Hnext Hids Hskips].
  destruct op; cbn; try (constructor; cbn; done).
  - unfold register_operator. constructor; cbn [snd operators hub_heap next_operator_id skips log_live log_count].
    + rewrite newest_snoc by (cbv; lia). by rewrite Hops, Hcount.
    + apply Forall_app. split; [|repeat constructor].
      eapply Forall_impl; [exact Hlive|]. cbn. lia.
    + rewrite length_app, Hcount. cbn. lia.
    + rewrite Hnext, wadd64_wrap64. f_equal. lia.
    + intros i s Hi. apply lookup_app_Some in Hi as [Hi|[Hle Hi]]; [by apply Hids|].
      destruct (i - length (hub_heap h))%nat eqn:E; [|done]. injection Hi as <-.
      cbn. rewrite Hnext. f_equal. lia.
    + done.
  - constructor; cbn; try done.
    + by rewrite length_alter.
    + intros i s Hi. rewrite list_lookup_alter in Hi. case_decide; [|by apply Hids].
      subst. apply fmap_Some in Hi as (s' & Hs' & ->). rewrite os_id_atomic. by apply Hids.
  - unfold record_skip. destruct (Nat.leb_spec MAX_PLACEMENT_SKIPS (length (skips h)));
      [by constructor|]. constructor; cbn; try done. rewrite length_app. cbn. lia.
  - constructor; cbn; done || lia.
Qed.

Lemma hub_rel_run ops : hub_rel (hub_run ops) (log_run ops).
Proof.
  unfold hub_run, log_run.
  assert (hub_rel TelemetryHub_new (mkLog 0 [])) as H0.
  { constructor; cbn; try done; lia. }
  revert H0. generalize TelemetryHub_new (mkLog 0 []).
  induction ops as [|op ops IH]; intros h l H; cbn; [done|].
  by apply IH, hub_rel_step.
Qed.

Lemma hub_handles_valid h l : hub_rel h l →
  omap (λ i, hub_heap h !! i) (operators h) =
  (λ i, default (OperatorStats_new 0 EmptyString CpuSimd) (hub_heap h !! i)) <$> operators h.
Proof.
  intros R. assert (Forall (λ i, (i < length (hub_heap h))%nat) (operators h)) as HF.
  { rewrite (hr_ops _ _ R), (hr_count _ _ R). apply Forall_drop, (hr_live _ _ R). }
  induction HF as [|i js Hi _ IH]; csimpl; [done|].
  apply lookup_lt_is_Some in Hi as [s Hs]. rewrite Hs. cbn. by rewrite IH.
Qed.

(** C39: after any sequence of hub operations the snapshot shows exactly the
    newest [MAX_OPERATORS] operators registered since the last clear, oldest
    first, each under the id it was given (its registration number, which
    never repeats within 2^64 registrations); the skip list never exceeds its
    bound.  Eviction only hides an operator: every cell ever registered stays. *)
Theorem hub_registrations (ops : list HubOp) :
  let h := hub_run ops in let l := log_run ops in
  sn_id <$> snap_operators (hub_snapshot h) =
    (λ i, wrap64 (Z.of_nat i)) <$> newest MAX_OPERATORS (log_live l) ∧
  (length (snap_operators (hub_snapshot h)) ≤ MAX_OPERATORS)%nat ∧
  (length (skips h) ≤ MAX_PLACEMENT_SKIPS)%nat ∧
  length (hub_heap h) = log_count l.
Proof.
  intros h l. pose proof (hub_rel_run ops) as R. fold h l in R.
  unfold hub_snapshot. cbn [snap_operators].
  rewrite (hub_handles_valid h l R), !length_fmap, (hr_ops _ _ R), length_newest.
  split; [|split; [lia|]; split; [apply R|apply R]].
  rewrite <- !list_fmap_compose. apply list_fmap_ext. intros k i Hk. cbn.
  assert (i < length (hub_heap h))%nat as Hi.
  { rewrite (hr_count _ _ R). pose proof (hr_live _ _ R) as HF.
    rewrite Forall_lookup in HF. unfold newest in Hk. rewrite lookup_drop in Hk. eauto. }
  apply lookup_lt_is_Some in Hi as [s Hs]. rewrite Hs. cbn. by apply (hr_ids _ _ R).
Qed.

(** *** Concurrent updates *)

(** One schedule of several threads' atomic operations. *)
Inductive interleave {A} : list (list A) → list A → Prop :=
  | il_done ts : Forall (λ t, t = []) ts → interleave ts []
  | il_step ts i a t tr :
      ts !! i = Some (a :: t) → interleave (<[i := t]> ts) tr → interleave ts (a :: tr).

(** What a [fetch_add] adds to a cell. *)
Definition delta (c : Counter) (op : AtomicOp) : Z :=
  match op with FetchAdd c' v => if decide (c = c') then v else 0 | Store _ _ => 0 end.
Definition is_fetch_add (op : AtomicOp) : Prop :=
  match op with FetchAdd _ _ => True | Store _ _ => False end.

Lemma counter_set_counter c c' v s :
  counter c (set_counter c' v s) = if decide (c = c') then v else counter c s.
Proof. destruct s, c, c'; reflexivity. Qed.

Lemma wadd64_0_r a : is_u64 a → wadd64 a 0 = a.
Proof. intros. unfold wadd64. rewrite Z.add_0_r. by apply wrap64_small. Qed.

Lemma counter_run_atomics c ops s :
  Forall is_fetch_add ops → is_u64 (counter c s) →
  counter c (run_atomics ops s) = wadd64 (counter c s) (sumZ (delta c) ops).
Proof.
  revert s. induction ops as [|op ops IH]; intros s Hf Hs; cbn [sumZ].
  - by rewrite wadd64_0_r.
  - apply Forall_cons in Hf as [Hop Hf]. destruct op as [c' v|c' v]; [|done].
    assert (counter c (atomic (FetchAdd c' v) s) = wadd64 (counter c s) (delta c (FetchAdd c' v))) as E.
    { cbn. rewrite counter_set_counter. case_decide; [by subst|by rewrite wadd64_0_r]. }
    change (run_atomics (FetchAdd c' v :: ops) s) with (run_atomics ops (atomic (FetchAdd c' v) s)).
    rewrite IH by (done || (rewrite E; apply wrap64_range)). by rewrite E, wadd64_wadd64.
Qed.

Lemma interleave_sumZ {A} (f : A → Z) ts tr :
  interleave ts tr → sumZ f tr = sumZ (sumZ f) ts.
Proof.
  induction 1 as [ts H|ts i a t tr Hi _ IH]; cbn.
  - symmetry. induction H as [|t ts -> _ IH]; cbn; lia.
  - rewrite IH, (sumZ_insert _ _ _ _ _ Hi). cbn. lia.
Qed.

Lemma interleave_Forall {A} (P : A → Prop) ts tr :
  interleave ts tr → Forall (Forall P) ts → Forall P tr.
Proof.
  induction 1 as [ts _|ts i a t tr Hi _ IH]; intros HF; [done|].
  pose proof HF as HF'. rewrite Forall_lookup in HF'. apply HF' in Hi as Hat.
  apply Forall_cons in Hat as [? ?]. constructor; [done|]. apply IH.
  by apply Forall_insert.
Qed.

(** A worker records its batches one after the other. *)
Definition worker_ops (batches : list (Z * Z * Z)) : list AtomicOp :=
  concat ((λ '(rin, rout, el), record_batch_ops rin rout el) <$> batches).

Lemma worker_ops_fetch_add bs : Forall is_fetch_add (worker_ops bs).
Proof.
  unfold worker_ops. induction bs as [|[[ri ro] el] bs IH]; cbn; repeat constructor; done.
Qed.

Lemma sumZ_worker_ops c bs :
  sumZ (delta c) (worker_ops bs) =
  sumZ (λ '(rin, rout, el), sumZ (delta c) (record_batch_ops rin rout el)) bs.
Proof.
  unfold worker_ops. induction bs as [|[[ri ro] el] bs IH]; [done|].
  cbn [fmap list_fmap concat sumZ]. by rewrite sumZ_app, IH.
Qed.

(** C38: no update is lost.  However the atomic operations of any number of
    workers recording batches on one operator are interleaved, the operator's
    counters end at their initial value plus the total over all workers,
    modulo 2^64: input rows, output rows and the number of batches. *)
Theorem record_batch_no_lost_update (s : OperatorStats) (work : list (list (Z * Z * Z)))
    (schedule : list AtomicOp) :
  interleave (worker_ops <$> work) schedule →
  is_u64 (rows_in s) → is_u64 (rows_out s) → is_u64 (batches s) →
  let s' := run_atomics schedule s in
  rows_in s' = wadd64 (rows_in s) (sumZ (sumZ (λ '(rin, _, _), rin)) work) ∧
  rows_out s' = wadd64 (rows_out s) (sumZ (sumZ (λ '(_, rout, _), rout)) work) ∧
  batches s' = wadd64 (batches s) (sumZ (λ bs, Z.of_nat (length bs)) work).
Proof.
  intros Hil H1 H2 H3 s'.
  assert (Forall is_fetch_add schedule) as Hf.
  { eapply interleave_Forall; [done|]. apply Forall_fmap, Forall_true. intros bs.
    apply worker_ops_fetch_add. }
  assert (∀ c g, (∀ b : Z * Z * Z, (let '(rin, rout, el) := b in
            sumZ (delta c) (record_batch_ops rin rout el)) = g b) →
          sumZ (delta c) schedule = sumZ (sumZ g) work) as Hsum.
  { intros c g Hg. rewrite (interleave_sumZ _ _ _ Hil), sumZ_fmap. apply sumZ_ext.
    intros bs. rewrite sumZ_worker_ops. by apply sumZ_ext. }
  split; [|split].
  - change (rows_in s') with (counter RowsIn (run_atomics schedule s)).
    rewrite (counter_run_atomics RowsIn) by done. cbn [counter]. f_equal.
    apply Hsum. intros [[ri ro] el]. cbv -[Z.add u64_clamp]. lia.
  - change (rows_out s') with (counter RowsOut (run_atomics schedule s)).
    rewrite (counter_run_atomics RowsOut) by done. cbn [counter]. f_equal.
    apply Hsum. intros [[ri ro] el]. cbv -[Z.add u64_clamp]. lia.
  - change (batches s') with (counter Batches (run_atomics schedule s)).
    rewrite (counter_run_atomics Batches) by done. cbn [counter]. f_equal.
    rewrite (Hsum _ (λ _, 1)) by (intros [[ri ro] el]; cbv -[Z.add u64_clamp]; lia).
    apply sumZ_ext. intros bs. induction bs; cbn [sumZ length]; lia.
Qed.

Lemma record_batch_no_lost_update_witness :
  let s' := run_atomics (take 4 (record_batch_ops 3 1 5) ++ record_batch_ops 4 2 6)
              (OperatorStats_new 0 EmptyString Cuda) in
  rows_in s' = wadd64 0 (sumZ (sumZ (λ '(rin, _, _), rin)) [[(3, 1, 5)]; [(4, 2, 6)]]) ∧
  rows_out s' = wadd64 0 (sumZ (sumZ (λ '(_, rout, _), rout)) [[(3, 1, 5)]; [(4, 2, 6)]]) ∧
  batches s' = wadd64 0 (sumZ (λ bs, Z.of_nat (length bs)) [[(3, 1, 5)]; [(4, 2, 6)]]).
Proof.
  apply (record_batch_no_lost_update (OperatorStats_new 0 EmptyString Cuda)
           [[(3, 1, 5)]; [(4, 2, 6)]]); [|split; vm_compute; done..].
  do 4 (eapply (il_step _ 0); [reflexivity|]). do 4 (eapply (il_step _ 1); [reflexivity|]).
  cbn. apply il_done. repeat constructor.
Defined.

(** A snapshot loads the cells one by one while an operator updates them one
    by one: after a prefix of [record_batch] it can show the rows of a batch
    that is not counted yet, or a fallback that exceeds the batch count. *)
Lemma snapshot_can_be_torn :
  ∃ done_ops rest, done_ops ++ rest = record_batch_ops 10 10 7 ∧
    let s := stats_snapshot (run_atomics done_ops (OperatorStats_new 0 EmptyString Cuda)) in
    sn_rows_in s = 10 ∧ sn_batches s = 0.
Proof. exists (take 1 (record_batch_ops 10 10 7)), (drop 1 (record_batch_ops 10 10 7)). done. Qed.

(** *** Labels *)

(** whatever bytes an operator name holds, the escaped label value ends at
    the quote the exporter writes after it, and a scraper reads back exactly
    the name. *)
Theorem escape_label_roundtrip (name rest : string) :
  read_label (escape_label name +:+ dq +:+ rest) = Some (name, rest).
Proof.
  induction name as [|c name IH]; [reflexivity|]. cbn [escape_label].
  change (dq +:+ rest) with (String "034"%char rest) in *.
  repeat case_decide; subst.
  1-3: match goal with |- context [String ?a (String ?b ?n) +:+ ?x] =>
         change (String a (String b n) +:+ x) with (String a (String b (n +:+ x))) end;
       cbn [read_label]; rewrite IH; reflexivity.
  - change (String c (escape_label name) +:+ String "034"%char rest)
      with (String c (escape_label name +:+ String "034"%char rest)).
    cbn [read_label]. rewrite !decide_False by done. by rewrite IH.
Qed.
