(* ===== verification/Spill.v ===== *)
(** * oxidelake-memory: the three-tier spill manager

    Models [src/crates/oxidelake-memory/src/{spill,ipc}.rs].

    Every public operation of [SpillManager] holds the state mutex from its
    first read of the state to its return, so operations are atomic and the
    model passes the state explicitly; an error leaves the state the code left
    behind.  The object store, the Arrow IPC reader and writer, the size report
    of a batch and the iteration order of [HashMap] are not the repository's
    code: they are parameters with the laws they document. *)

From S2P Require Import Prelude Floats Arrow Core Telemetry.

(** ** Data *)

Inductive Tier := Device_ | Host_ | Disk_.
#[global] Instance Tier_EqDecision : EqDecision Tier.
Proof. solve_decision. Defined.

Definition Tier_gauge (t : Tier) : MemoryTier :=
  match t with Device_ => TDevice | Host_ => THost | Disk_ => TDisk end.

Record SpillBudget := mkBudget { device_budget : Z; host_budget : Z }.

(** [trait DeviceResident], as a record of its two methods. *)
Record DeviceResident := mkResident { dr_bytes : Z; dr_to_host : result RecordBatch }.

Inductive Payload :=
  | PDevice (resident : DeviceResident)
  | PHost (batch : RecordBatch)
  | PDisk (path : string).

Record Entry := mkEntry {
  e_tier : Tier;
  e_bytes : Z;
  e_host_bytes : Z;
  e_last_touch : Z;
  e_schema : Schema;
  e_payload : Payload;
}.

(** [used: [u64; 3]], indexed by [Tier::index]. *)
Record Used := mkUsed { u_device : Z; u_host : Z; u_disk : Z }.
Definition used_at (u : Used) (t : Tier) : Z :=
  match t with Device_ => u_device u | Host_ => u_host u | Disk_ => u_disk u end.
Definition set_used (u : Used) (t : Tier) (v : Z) : Used :=
  match t with
  | Device_ => mkUsed v (u_host u) (u_disk u)
  | Host_ => mkUsed (u_device u) v (u_disk u)
  | Disk_ => mkUsed (u_device u) (u_host u) v
  end.
Definition used_add (t : Tier) (b : Z) (u : Used) : Used := set_used u t (wadd64 (used_at u t) b).
Definition used_sub (t : Tier) (b : Z) (u : Used) : Used := set_used u t (sat_sub (used_at u t) b).

(** [Iterator::min_by_key]: the first element with the least key. *)
Fixpoint min_by_key {A} (key : A → Z) (l : list A) : option A :=
  match l with
  | [] => None
  | a :: l => match min_by_key key l with
              | Some b => if key b <? key a then Some b else Some a
              | None => Some a
              end
  end.

(** ** The object store: an external service *)

Inductive StoreError := StoreNotFound | StoreOther.

Class ObjectStore (St : Type) := {
  os_put : string → list Z → St → res StoreError () * St;
  os_get : string → St → res StoreError (list Z) * St;
  os_delete : string → St → res StoreError () * St;
  (** What is durably stored (for the laws; the code never reads it). *)
  stored : St → gmap string (list Z);
}.

(** The contract of [object_store::ObjectStore]: a successful put replaces the
    object, a get returns what is stored, a delete removes it; a failing call
    may leave its own path in either state but touches no other path. *)
Class ObjectStoreLaws (St : Type) `{!ObjectStore St} : Prop := {
  os_put_ok p b s s' : os_put p b s = (Ok (), s') → stored s' = <[p := b]> (stored s);
  os_put_other p b s r s' q : os_put p b s = (r, s') → q ≠ p → stored s' !! q = stored s !! q;
  os_put_total p b s : (os_put p b s).1 ≠ Panic;
  os_get_state p s : stored (os_get p s).2 = stored s;
  os_get_ok p s b s' : os_get p s = (Ok b, s') → stored s !! p = Some b;
  os_get_total p s : (os_get p s).1 ≠ Panic;
  os_delete_other p s r s' q : os_delete p s = (r, s') → q ≠ p → stored s' !! q = stored s !! q;
  os_delete_total p s : (os_delete p s).1 ≠ Panic;
}.

Definition store_error (e : StoreError) : EngineError :=
  match e with StoreNotFound => Io IoNotFound | StoreOther => Io IoOther end.

(** ** The other external functions *)

Class SpillEnv := {
  (** Arrow IPC: the file writer and reader, [concat_batches], [new_empty]. *)
  ipc_write : RecordBatch → res ArrowError (list Z);
  ipc_open : list Z → res ArrowError (Schema * list (res ArrowError RecordBatch));
  concat_batches : Schema → list RecordBatch → res ArrowError RecordBatch;
  new_empty : Schema → RecordBatch;
  (** [RecordBatch::get_array_memory_size]. *)
  get_array_memory_size : RecordBatch → Z;
  (** The iteration order of [HashMap<BatchId, Entry>]. *)
  hash_iter : gmap Z Entry → list (Z * Entry);
  (** [object_store::path::Path::from]. *)
  Path_from : string → string;
}.

(** What they document: a file the writer finished reads back as the one batch
    written; iterating a hash map visits every entry once, in some order;
    distinct final segments are distinct paths; neither side panics. *)
Class SpillEnvLaws `{!SpillEnv} : Prop := {
  ipc_roundtrip b bytes : ipc_write b = Ok bytes → ipc_open bytes = Ok (schema b, [Ok b]);
  ipc_write_total b : ipc_write b ≠ Panic;
  ipc_open_total bytes : ipc_open bytes ≠ Panic;
  ipc_items_total bytes sch items : ipc_open bytes = Ok (sch, items) → Panic ∉ items;
  concat_batches_total sch bs : concat_batches sch bs ≠ Panic;
  memory_size_nonneg b : 0 ≤ get_array_memory_size b;
  hash_iter_perm m : hash_iter m ≡ₚ map_to_list m;
  spill_paths_distinct (pre : string) (a b : Z) :
    Path_from (pre +:+ "/batch-" +:+ pretty a +:+ ".arrow") =
    Path_from (pre +:+ "/batch-" +:+ pretty b +:+ ".arrow") → a = b;
}.

Section Manager.
Context `{!SpillEnv} {St : Type} `{!ObjectStore St}.

(** *** [ipc.rs] *)

Definition encode_batch (b : RecordBatch) : result (list Z) := map_err ArrowE (ipc_write b).

Definition decode_batch (bytes : list Z) : result RecordBatch :=
  '(schema, items) ← map_err (λ _, Format "invalid Arrow IPC spill file") (ipc_open bytes);
  batches ← map_err (λ _, Format "corrupt Arrow IPC spill file") (mapM id items);
  match batches with
  | [] => Ok (new_empty schema)
  | [b] => Ok b
  | _ => map_err ArrowE (concat_batches schema batches)
  end.

(** *** The manager *)

Record SpillManager := mkManager {
  budget : SpillBudget;
  prefix : string;
  entries : gmap Z Entry;
  used : Used;
  next_id : Z;
  clock : Z;
  telemetry : TelemetryHub;
  store : St;
}.

Definition SpillManager_new (b : SpillBudget) (st : St) (pre : string) (hub : TelemetryHub)
  : SpillManager := mkManager b pre ∅ (mkUsed 0 0 0) 1 0 hub st.

Definition upd_state (f : gmap Z Entry → gmap Z Entry) (g : Used → Used) (m : SpillManager) :=
  mkManager (budget m) (prefix m) (f (entries m)) (g (used m)) (next_id m) (clock m)
    (telemetry m) (store m).
Definition upd_hub (f : TelemetryHub → TelemetryHub) (m : SpillManager) :=
  mkManager (budget m) (prefix m) (entries m) (used m) (next_id m) (clock m)
    (f (telemetry m)) (store m).
Definition set_store (s : St) (m : SpillManager) :=
  mkManager (budget m) (prefix m) (entries m) (used m) (next_id m) (clock m) (telemetry m) s.

(** [next_id.fetch_add(1)] and [clock.fetch_add(1) + 1]. *)
Definition fresh_id (m : SpillManager) : Z * SpillManager :=
  (next_id m, mkManager (budget m) (prefix m) (entries m) (used m) (wadd64 (next_id m) 1)
                (clock m) (telemetry m) (store m)).
Definition tick (m : SpillManager) : Z * SpillManager :=
  (wadd64 (clock m) 1, mkManager (budget m) (prefix m) (entries m) (used m) (next_id m)
                         (wadd64 (clock m) 1) (telemetry m) (store m)).

Definition batch_bytes (b : RecordBatch) : Z := u64_clamp (get_array_memory_size b).

Definition spill_path (m : SpillManager) (id : Z) : string :=
  Path_from (prefix m +:+ "/batch-" +:+ pretty id +:+ ".arrow").

(** [State::coldest]. *)
Definition coldest (t : Tier) (m : SpillManager) : option Z :=
  fst <$> min_by_key (λ '(_, e), e_last_touch e)
            (filter (λ '(_, e), e_tier e = t) (hash_iter (entries m))).

Definition publish (m : SpillManager) : SpillManager :=
  upd_hub (λ h, foldl (λ h t, with_tiers (λ g, gauge_set g (Tier_gauge t) (used_at (used m) t)) h)
                  h [Device_; Host_; Disk_]) m.

Definition write_spill (path : string) (b : RecordBatch) (m : SpillManager)
  : result Z * SpillManager :=
  match encode_batch b with
  | Ok bytes =>
      let len := u64_clamp (Z.of_nat (length bytes)) in
      match os_put path bytes (store m) with
      | (Ok _, s) => (Ok len, set_store s m)
      | (Err e, s) => (Err (store_error e), set_store s m)
      | (Panic, s) => (Panic, set_store s m)
      end
  | Err e => (Err e, m)
  | Panic => (Panic, m)
  end.

Definition read_spill (path : string) (m : SpillManager) : result RecordBatch * SpillManager :=
  match os_get path (store m) with
  | (Ok bytes, s) => (decode_batch bytes, set_store s m)
  | (Err e, s) => (Err (store_error e), set_store s m)
  | (Panic, s) => (Panic, set_store s m)
  end.

(** One turn of the loop of [enforce_device]: [None] is a [break]. *)
Definition demote_device (m : SpillManager) : option (result ()) * SpillManager :=
  match coldest Device_ m with
  | None => (None, m)
  | Some victim =>
      match entries m !! victim with
      | Some (mkEntry _ device_bytes _ touch sch (PDevice resident)) =>
          match dr_to_host resident with
          | Ok batch =>
              let host_bytes := batch_bytes batch in
              let e := mkEntry Host_ host_bytes host_bytes touch sch (PHost batch) in
              (Some (Ok ()),
               upd_hub (with_spill (λ c, record_demotion c device_bytes))
                (upd_state (insert victim e)
                   (λ u, used_add Host_ host_bytes (used_sub Device_ device_bytes u)) m))
          | Err e => (Some (Err e), m)
          | Panic => (Some Panic, m)
          end
      | _ => (None, m)
      end
  end.

Definition demote_host (m : SpillManager) : option (result ()) * SpillManager :=
  match coldest Host_ m with
  | None => (None, m)
  | Some victim =>
      match entries m !! victim with
      | Some (mkEntry _ host_bytes logical_bytes touch sch (PHost batch)) =>
          let path := spill_path m victim in
          match write_spill path batch m with
          | (Ok disk_bytes, m) =>
              let e := mkEntry Disk_ disk_bytes logical_bytes touch sch (PDisk path) in
              (Some (Ok ()),
               upd_hub (with_spill (λ c, record_demotion c host_bytes))
                (upd_state (insert victim e)
                   (λ u, used_add Disk_ disk_bytes (used_sub Host_ host_bytes u)) m))
          | (Err e, m) => (Some (Err e), m)
          | (Panic, m) => (Some Panic, m)
          end
      | _ => (None, m)
      end
  end.

(** The [while] loops of [enforce_device] and [enforce_host]: turn while the
    tier is over its budget, stop at a [break], return at a [?].  Running out
    of fuel is [Panic]; each turn takes one entry out of the tier, so the
    number of entries is enough fuel and that never happens. *)
Fixpoint while_turns (over : SpillManager → bool)
    (turn : SpillManager → option (result ()) * SpillManager)
    (fuel : nat) (m : SpillManager) : result () * SpillManager :=
  if over m then
    match fuel with
    | O => (Panic, m)
    | S fuel =>
        match turn m with
        | (Some (Ok _), m) => while_turns over turn fuel m
        | (Some (Err e), m) => (Err e, m)
        | (Some Panic, m) => (Panic, m)
        | (None, m) => (Ok (), m)
        end
    end
  else (Ok (), m).

Definition enforce_device (m : SpillManager) : result () * SpillManager :=
  while_turns (λ m, device_budget (budget m) <? u_device (used m)) demote_device
    (S (size (entries m))) m.

Definition enforce_host (m : SpillManager) : result () * SpillManager :=
  while_turns (λ m, host_budget (budget m) <? u_host (used m)) demote_host
    (S (size (entries m))) m.

(** Run an enforcement, then publish and return [a]; [?] returns early. *)
Definition finish {A} (a : A) (r : result () * SpillManager) : result A * SpillManager :=
  match r with
  | (Ok _, m) => (Ok a, publish m)
  | (Err e, m) => (Err e, m)
  | (Panic, m) => (Panic, m)
  end.

Definition insert_host (b : RecordBatch) (m : SpillManager) : result Z * SpillManager :=
  let '(id, m) := fresh_id m in
  let bytes := batch_bytes b in
  let '(touch, m) := tick m in
  let e := mkEntry Host_ bytes bytes touch (schema b) (PHost b) in
  finish id (enforce_host (upd_state (insert id e) (used_add Host_ bytes) m)).

Definition insert_device (r : DeviceResident) (sch : Schema) (m : SpillManager)
  : result Z * SpillManager :=
  let '(id, m) := fresh_id m in
  let bytes := dr_bytes r in
  let '(touch, m) := tick m in
  let e := mkEntry Device_ bytes 0 touch sch (PDevice r) in
  match enforce_device (upd_state (insert id e) (used_add Device_ bytes) m) with
  | (Ok _, m) => finish id (enforce_host m)
  | (Err e, m) => (Err e, m)
  | (Panic, m) => (Panic, m)
  end.

Definition touch_entry (t : Z) (e : Entry) : Entry :=
  mkEntry (e_tier e) (e_bytes e) (e_host_bytes e) t (e_schema e) (e_payload e).

Definition spill_get (id : Z) (m : SpillManager) : result RecordBatch * SpillManager :=
  let '(touch, m) := tick m in
  match entries m !! id with
  | None => (Err (Execution "spill: unknown batch id"), m)
  | Some e =>
      let m := upd_state (insert id (touch_entry touch e)) (λ u, u) m in
      match e_payload e with
      | PHost b => (Ok b, m)
      | PDevice r => (dr_to_host r, m)
      | PDisk path =>
          match read_spill path m with
          | (Ok b, m) =>
              let host_bytes :=
                if 0 <? e_host_bytes e then e_host_bytes e else batch_bytes b in
              let e' := mkEntry Host_ host_bytes (e_host_bytes e) touch (e_schema e) (PHost b) in
              let m := upd_state (insert id e')
                (λ u, used_add Host_ host_bytes (used_sub Disk_ (e_bytes e) u)) m in
              let m := upd_hub (with_spill (λ c, record_promotion c host_bytes)) m in
              (* a failed delete is only logged *)
              let m := set_store (os_delete path (store m)).2 m in
              finish b (enforce_host m)
          | (Err e, m) => (Err e, m)
          | (Panic, m) => (Panic, m)
          end
      end
  end.

Definition tier_of (id : Z) (m : SpillManager) : option Tier := e_tier <$> entries m !! id.
Definition schema_of (id : Z) (m : SpillManager) : option Schema := e_schema <$> entries m !! id.
Definition usage (m : SpillManager) : Used := used m.

Definition spill_remove (id : Z) (m : SpillManager) : result bool * SpillManager :=
  match entries m !! id with
  | None => (Ok false, m)
  | Some e =>
      let m := upd_state (delete id) (used_sub (e_tier e) (e_bytes e)) m in
      match e_payload e with
      | PDisk path =>
          match os_delete path (store m) with
          | (Ok _, s) | (Err StoreNotFound, s) => (Ok true, publish (set_store s m))
          | (Err err, s) => (Err (store_error err), set_store s m)
          | (Panic, s) => (Panic, set_store s m)
          end
      | _ => (Ok true, publish m)
      end
  end.
End Manager.
