(* ===== verification/SpillCorrect.v ===== *)
(** * Correctness of the spill manager

    The abstract view of a manager is the map from batch id to the batch a
    caller would read ([contents]).  Every operation keeps the other batches,
    on success and on error; the byte accounting is exact; a successful
    operation leaves each tier within its budget; demotion is
    least-recently-used first. *)

From S2P Require Import Prelude Floats Arrow Core Telemetry Spill.

(** ** Sums over the entries *)

Definition wsum (w : Entry → Z) (es : gmap Z Entry) : Z :=
  sumZ (λ '(_, e), w e) (map_to_list es).

Definition tier_bytes (t : Tier) (e : Entry) : Z := if decide (e_tier e = t) then e_bytes e else 0.
Definition in_tier (t : Tier) (e : Entry) : Z := if decide (e_tier e = t) then 1 else 0.

Lemma tier_bytes_same t e : e_tier e = t → tier_bytes t e = e_bytes e.
Proof. intros. unfold tier_bytes. by rewrite decide_True. Qed.
Lemma tier_bytes_other t e : e_tier e ≠ t → tier_bytes t e = 0.
Proof. intros. unfold tier_bytes. by rewrite decide_False. Qed.

Lemma wsum_delete w es id e : es !! id = Some e → wsum w es = w e + wsum w (delete id es).
Proof.
  intros H. unfold wsum. by rewrite <- (sumZ_perm _ _ _ (map_to_list_delete _ _ _ H)).
Qed.

Lemma wsum_insert w es id e : wsum w (<[id := e]> es) = w e + wsum w (delete id es).
Proof.
  rewrite (wsum_delete w (<[id := e]> es) id e) by apply lookup_insert_eq.
  by rewrite delete_insert_eq.
Qed.

Lemma wsum_insert_fresh w es id e : es !! id = None → wsum w (<[id := e]> es) = w e + wsum w es.
Proof. intros H. by rewrite wsum_insert, delete_id. Qed.

Lemma wsum_update w es id e e' :
  es !! id = Some e → wsum w (<[id := e']> es) = wsum w es - w e + w e'.
Proof. intros H. rewrite wsum_insert, (wsum_delete w es id e H). lia. Qed.

Lemma wsum_nonneg w es : (∀ id e, es !! id = Some e → 0 ≤ w e) → 0 ≤ wsum w es.
Proof.
  intros H. apply sumZ_nonneg. intros [id e] Hin%elem_of_map_to_list. by apply (H id).
Qed.

Lemma wsum_le w es B :
  (∀ id e, es !! id = Some e → w e ≤ B) → wsum w es ≤ Z.of_nat (size es) * B.
Proof.
  intros H. unfold wsum. rewrite <- length_map_to_list. apply sumZ_le_length.
  intros [id e] Hin%elem_of_map_to_list. by apply (H id).
Qed.

Lemma wsum_zero w es : (∀ id e, es !! id = Some e → w e = 0) → wsum w es = 0.
Proof.
  intros H. pose proof (wsum_nonneg w es) as H0. pose proof (wsum_le w es 0) as H1.
  assert (∀ id e, es !! id = Some e → 0 ≤ w e) by (intros i e E; rewrite (H i e E); done).
  assert (∀ id e, es !! id = Some e → w e ≤ 0) by (intros i e E; rewrite (H i e E); done).
  specialize (H0 H2). specialize (H1 H3). lia.
Qed.

Lemma used_at_add t t' b u :
  used_at (used_add t b u) t' = if decide (t = t') then wadd64 (used_at u t) b else used_at u t'.
Proof. destruct t, t'; reflexivity. Qed.

Lemma used_at_sub t t' b u :
  used_at (used_sub t b u) t' = if decide (t = t') then sat_sub (used_at u t) b else used_at u t'.
Proof. destruct t, t'; reflexivity. Qed.

(** ** Least key *)

Lemma min_by_key_Some {A} (key : A → Z) l a :
  min_by_key key l = Some a → a ∈ l ∧ ∀ b, b ∈ l → key a ≤ key b.
Proof.
  revert a. induction l as [|x l IH]; intros a; cbn; [done|].
  destruct (min_by_key key l) as [y|] eqn:E.
  - destruct (IH y eq_refl) as [Hy Hmin].
    destruct (Z.ltb_spec (key y) (key x)); intros [= <-].
    + split; [by apply elem_of_cons; right|]. intros b [->|Hb]%elem_of_cons; [lia|auto].
    + split; [by apply elem_of_cons; left|]. intros b [->|Hb]%elem_of_cons; [lia|].
      specialize (Hmin b Hb). lia.
  - intros [= <-]. destruct l as [|z l].
    + split; [by apply elem_of_cons; left|]. intros b [->|Hb]%elem_of_cons; [lia|].
      by apply elem_of_nil in Hb.
    + cbn in E. destruct (min_by_key key l); [|done]. by destruct (key a <? key z).
Qed.

Lemma min_by_key_None {A} (key : A → Z) l : min_by_key key l = None → l = [].
Proof.
  destruct l as [|x l]; [done|]. cbn. destruct (min_by_key key l); [|done].
  by destruct (key a <? key x).
Qed.

Section Correct.
Context {senv : SpillEnv} {slaws : SpillEnvLaws} {St : Type} `{!ObjectStore St, !ObjectStoreLaws St}.
Abbreviation manager := (SpillManager (St := St)).

Lemma decode_encode b bytes : encode_batch b = Ok bytes → decode_batch bytes = Ok b.
Proof.
  unfold encode_batch, decode_batch. destruct (ipc_write b) eqn:E; cbn; try done.
  intros [= <-]. by rewrite (ipc_roundtrip _ _ E).
Qed.

Lemma encode_total b : encode_batch b ≠ Panic.
Proof. unfold encode_batch. pose proof (ipc_write_total b). by destruct (ipc_write b). Qed.

Lemma mapM_id_total {E A} (l : list (res E A)) : Panic ∉ l → mapM id l ≠ Panic.
Proof.
  induction l as [|x l IH]; cbn; [done|]. rewrite not_elem_of_cons. intros [Hx Hl].
  destruct x; cbn; [|done|by destruct Hx].
  specialize (IH Hl). by destruct (mapM id l).
Qed.

Lemma decode_total bytes : decode_batch bytes ≠ Panic.
Proof.
  unfold decode_batch. pose proof (ipc_open_total bytes).
  destruct (ipc_open bytes) as [[sch items]| |] eqn:E; cbn; try done.
  pose proof (mapM_id_total items (ipc_items_total _ _ _ E)).
  destruct (mapM id items) as [bs| |]; cbn; try done.
  pose proof (concat_batches_total sch bs).
  destruct bs as [|b [|b' bs]]; [done|done|]. by destruct (concat_batches sch (b :: b' :: bs)).
Qed.

(** ** The abstract view *)

(** The batch a payload stands for, given what the store holds. *)
Definition logical (s : St) (p : Payload) : option RecordBatch :=
  match p with
  | PDevice r => res_ok (dr_to_host r)
  | PHost b => Some b
  | PDisk path => stored s !! path ≫= λ bytes, res_ok (decode_batch bytes)
  end.

Definition contents (m : manager) : gmap Z (option RecordBatch) :=
  (λ e, logical (store m) (e_payload e)) <$> entries m.

Lemma lookup_contents m id :
  contents m !! id = (λ e, logical (store m) (e_payload e)) <$> entries m !! id.
Proof. apply lookup_fmap. Qed.

(** ** Invariant *)

(** A batch whose host and encoded sizes are at most [B]. *)
Definition fits (B : Z) (b : RecordBatch) : Prop :=
  batch_bytes b ≤ B ∧
  ∀ bytes, encode_batch b = Ok bytes → u64_clamp (Z.of_nat (length bytes)) ≤ B.

Definition payload_ok (m : manager) (id : Z) (e : Entry) : Prop :=
  match e_payload e with
  | PDevice r => e_tier e = Device_ ∧ dr_to_host r ≠ Panic
  | PHost _ => e_tier e = Host_
  | PDisk path => e_tier e = Disk_ ∧ path = spill_path m id ∧
                  is_Some (logical (store m) (PDisk path))
  end.

Definition entry_ok (B : Z) (m : manager) (id : Z) (e : Entry) : Prop :=
  0 ≤ e_bytes e ≤ B ∧ 0 ≤ e_host_bytes e ≤ B ∧ payload_ok m id e ∧
  ∀ b, logical (store m) (e_payload e) = Some b → fits B b.

Record spill_inv (B : Z) (m : manager) : Prop := {
  inv_entry : ∀ id e, entries m !! id = Some e → entry_ok B m id e;
  inv_used : ∀ t, used_at (used m) t = wsum (tier_bytes t) (entries m);
  inv_bound : 0 ≤ B ∧ Z.of_nat (size (entries m)) * B < U64;
  inv_ids : ∀ id e, entries m !! id = Some e → 0 ≤ id < next_id m;
  inv_touch : ∀ id e, entries m !! id = Some e → 0 ≤ e_last_touch e ≤ clock m;
  inv_touch_inj : ∀ i j e f, entries m !! i = Some e → entries m !! j = Some f →
    e_last_touch e = e_last_touch f → i = j;
  inv_clock : 0 ≤ clock m ∧ 0 ≤ next_id m;
  inv_budget : 0 ≤ device_budget (budget m) ∧ 0 ≤ host_budget (budget m);
}.

(** What an enforcement leaves alone. *)
Record evolves (m m' : manager) : Prop := {
  ev_budget : budget m' = budget m;
  ev_prefix : prefix m' = prefix m;
  ev_next : next_id m' = next_id m;
  ev_clock : clock m' = clock m;
  ev_dom : dom (entries m') = dom (entries m);
  ev_contents : contents m' = contents m;
  ev_touch : ∀ id e e', entries m !! id = Some e → entries m' !! id = Some e' →
    e_last_touch e' = e_last_touch e ∧ e_schema e' = e_schema e;
}.

#[local] Instance evolves_refl : Reflexive evolves.
Proof. intros m. constructor; try done. intros; by simplify_eq. Qed.

#[local] Instance evolves_trans : Transitive evolves.
Proof.
  intros m1 m2 m3 [] []. constructor; try congruence.
  intros id e e' H1 H3. destruct (entries m2 !! id) as [e2|] eqn:E.
  - destruct (ev_touch0 id e e2), (ev_touch1 id e2 e'); try done. split; congruence.
  - apply not_elem_of_dom in E. rewrite <- ev_dom1 in E. apply not_elem_of_dom in E. congruence.
Qed.

Lemma tier_bytes_range B (m : manager) t id e :
  spill_inv B m → entries m !! id = Some e → 0 ≤ tier_bytes t e ≤ B.
Proof.
  intros I H. destruct (inv_entry _ _ I _ _ H) as [Hb _].
  destruct (inv_bound _ _ I). unfold tier_bytes. case_decide; lia.
Qed.

(** *** The coldest entry of a tier *)

Lemma coldest_Some (m : manager) t v :
  coldest t m = Some v →
  ∃ e, entries m !! v = Some e ∧ e_tier e = t ∧
    ∀ j f, entries m !! j = Some f → e_tier f = t → e_last_touch e ≤ e_last_touch f.
Proof.
  unfold coldest. intros ([i e] & H & ->)%fmap_Some.
  apply min_by_key_Some in H as [Hin Hmin]. cbn.
  apply list_elem_of_filter in Hin as [Ht Hin].
  rewrite (hash_iter_perm (entries m)) in Hin. apply elem_of_map_to_list in Hin.
  exists e. split_and!; [done..|]. intros j f Hj Hf.
  apply (Hmin (j, f)), list_elem_of_filter. split; [done|].
  by rewrite (hash_iter_perm (entries m)), elem_of_map_to_list.
Qed.

Lemma coldest_None (m : manager) t j f :
  coldest t m = None → entries m !! j = Some f → e_tier f ≠ t.
Proof.
  unfold coldest. intros H Hj Hf. apply fmap_None, min_by_key_None in H.
  assert ((j, f) ∈ filter (λ '(_, e), e_tier e = t) (hash_iter (entries m))) as Hin.
  { apply list_elem_of_filter. split; [done|].
    by rewrite (hash_iter_perm (entries m)), elem_of_map_to_list. }
  rewrite H in Hin. by apply elem_of_nil in Hin.
Qed.

(** *** Replacing one entry *)

Lemma inv_replace B (m m' : manager) id e e' :
  spill_inv B m → entries m !! id = Some e →
  entries m' = <[id := e']> (entries m) →
  budget m' = budget m → prefix m' = prefix m → next_id m' = next_id m → clock m' = clock m →
  0 ≤ e_last_touch e' ≤ clock m →
  (∀ j f, j ≠ id → entries m !! j = Some f → e_last_touch f ≠ e_last_touch e') →
  (∀ t, used_at (used m') t = wsum (tier_bytes t) (<[id := e']> (entries m))) →
  entry_ok B m' id e' →
  (∀ j f, j ≠ id → entries m !! j = Some f →
     logical (store m') (e_payload f) = logical (store m) (e_payload f)) →
  spill_inv B m'.
Proof.
  intros I He Hes Hb Hp Hn Hc Ht Hdist Hu Hok Hlog.
  assert (∀ j f, <[id := e']> (entries m) !! j = Some f →
    (j = id ∧ f = e') ∨ (j ≠ id ∧ entries m !! j = Some f)) as Hcase.
  { intros j f H. rewrite lookup_insert in H. case_decide as E; [left|right]; split; congruence. }
  constructor; rewrite ?Hes.
  - intros j f [[-> ->]|[Hne Hj]]%Hcase; [done|].
    destruct (inv_entry _ _ I _ _ Hj) as (H1 & H2 & H3 & H4).
    split_and!; [lia..| |].
    + unfold payload_ok in *. pose proof (Hlog j f Hne Hj) as HL.
      destruct (e_payload f); [done|done|].
      unfold spill_path in *. rewrite Hp. rewrite HL. done.
    + intros b. rewrite (Hlog j f Hne Hj). apply H4.
  - done.
  - rewrite map_size_insert_Some by done. apply I.
  - rewrite Hn. intros j f [[-> _]|[_ Hj]]%Hcase; by eapply (inv_ids _ _ I).
  - rewrite Hc. intros j f [[-> ->]|[_ Hj]]%Hcase; [done|by eapply (inv_touch _ _ I)].
  - intros i j f g [[-> ->]|[Hi Hf]]%Hcase [[-> ->]|[Hj Hg]]%Hcase E; [done| | |].
    + by destruct (Hdist j g Hj Hg).
    + by destruct (Hdist i f Hi Hf).
    + by eapply (inv_touch_inj _ _ I).
  - rewrite Hc, Hn. apply I.
  - rewrite Hb. apply I.
Qed.

(** Moving an entry between tiers keeps the accounting exact. *)
Lemma used_move B m id e e' t1 t2 t :
  spill_inv B m → entries m !! id = Some e →
  e_tier e = t1 → e_tier e' = t2 → t1 ≠ t2 → 0 ≤ e_bytes e' ≤ B →
  used_at (used_add t2 (e_bytes e') (used_sub t1 (e_bytes e) (used m))) t =
  wsum (tier_bytes t) (<[id := e']> (entries m)).
Proof.
  intros I He H1 H2 Hne Hb'.
  assert (∀ u, 0 ≤ wsum (tier_bytes u) (<[id := e']> (entries m)) < U64) as Hrange.
  { intros u. pose proof (inv_bound _ _ I) as [HB Hsz]. split.
    - apply wsum_nonneg. intros j f Hj. rewrite lookup_insert in Hj. case_decide; simplify_eq.
      + unfold tier_bytes. case_decide; lia.
      + by eapply tier_bytes_range.
    - eapply Z.le_lt_trans; [|exact Hsz]. rewrite <- (map_size_insert_Some id e' (entries m)) by by eexists.
      apply wsum_le. intros j f Hj. rewrite lookup_insert in Hj. case_decide; simplify_eq.
      + unfold tier_bytes. case_decide; lia.
      + by eapply (tier_bytes_range B m u j f). }
  pose proof (Hrange t2) as R2. rewrite (wsum_update _ _ _ _ _ He) in R2.
  rewrite (wsum_update _ _ _ _ _ He).
  rewrite used_at_add, !used_at_sub, !(inv_used _ _ I).
  pose proof (wsum_delete (tier_bytes t1) (entries m) id e He) as D1.
  assert (0 ≤ wsum (tier_bytes t1) (delete id (entries m))) as D2.
  { apply wsum_nonneg. intros j f [_ Hj]%lookup_delete_Some. by eapply tier_bytes_range. }
  rewrite (tier_bytes_same t1 e) in D1 by done.
  rewrite (tier_bytes_same t2 e'), (tier_bytes_other t2 e) in R2 by congruence.
  rewrite (decide_False (P := t1 = t2)) by done.
  destruct (decide (t2 = t)) as [<-|]; [|destruct (decide (t1 = t)) as [<-|]].
  - rewrite (tier_bytes_same t2 e'), (tier_bytes_other t2 e) by congruence.
    rewrite wadd64_small by (unfold is_u64; lia). lia.
  - rewrite (tier_bytes_same t1 e), (tier_bytes_other t1 e') by congruence.
    rewrite sat_sub_le by lia. lia.
  - rewrite !tier_bytes_other by congruence. lia.
Qed.

(** *** One turn of an enforcement loop *)

(** The coldest entry [e] of tier [t] was replaced by one of a lower tier. *)
Definition turned (t : Tier) (m m' : manager) : Prop :=
  ∃ v e e', entries m !! v = Some e ∧ e_tier e = t ∧ e_tier e' ≠ t ∧
    entries m' = <[v := e']> (entries m) ∧
    ∀ j f, entries m !! j = Some f → e_tier f = t → e_last_touch e ≤ e_last_touch f.

Definition turn_spec (B : Z) (t : Tier) (m : manager)
    (r : option (result ()) * manager) : Prop :=
  match r with
  | (Some (Ok _), m') => spill_inv B m' ∧ evolves m m' ∧ turned t m m'
  | (Some (Err _), m') => spill_inv B m' ∧ evolves m m' ∧ entries m' = entries m
  | (Some Panic, _) => False
  | (None, m') => m' = m ∧ ∀ j f, entries m !! j = Some f → e_tier f ≠ t
  end.

Lemma evolves_replace (m m' : manager) id e e' :
  entries m !! id = Some e → entries m' = <[id := e']> (entries m) →
  budget m' = budget m → prefix m' = prefix m → next_id m' = next_id m → clock m' = clock m →
  e_last_touch e' = e_last_touch e → e_schema e' = e_schema e →
  logical (store m') (e_payload e') = logical (store m) (e_payload e) →
  (∀ j f, j ≠ id → entries m !! j = Some f →
     logical (store m') (e_payload f) = logical (store m) (e_payload f)) →
  evolves m m'.
Proof.
  intros He Hes Hb Hp Hn Hc Ht Hs Hl Hlo. constructor; try done.
  - rewrite Hes, dom_insert_L. apply elem_of_dom_2 in He. set_solver.
  - apply map_eq. intros j. rewrite !lookup_contents, Hes, lookup_insert.
    case_decide as E; [subst; by rewrite He; cbn; rewrite Hl|].
    destruct (entries m !! j) as [f|] eqn:Ej; cbn; [|done]. by rewrite (Hlo j f).
  - intros j f f' Hf Hf'. rewrite Hes, lookup_insert in Hf'. case_decide; simplify_eq; done.
Qed.

(** The stored files of the other entries are at other paths. *)
Lemma other_path B m id j f path :
  spill_inv B m → entries m !! j = Some f → e_payload f = PDisk path → j ≠ id →
  path ≠ spill_path m id.
Proof.
  intros I Hj Hf Hne ->. destruct (inv_entry _ _ I _ _ Hj) as (_ & _ & Hp & _).
  unfold payload_ok in Hp. rewrite Hf in Hp. destruct Hp as (_ & Hp & _).
  apply spill_paths_distinct in Hp. done.
Qed.

Lemma logical_other B m id j f (s' : St) :
  spill_inv B m → entries m !! j = Some f → j ≠ id →
  (∀ q, q ≠ spill_path m id → stored s' !! q = stored (store m) !! q) →
  logical s' (e_payload f) = logical (store m) (e_payload f).
Proof.
  intros I Hj Hne Hs. destruct (e_payload f) as [| |path] eqn:E; cbn; [done..|].
  by rewrite Hs by by eapply other_path.
Qed.

Lemma touch_distinct B m id e j f :
  spill_inv B m → entries m !! id = Some e → j ≠ id → entries m !! j = Some f →
  e_last_touch f ≠ e_last_touch e.
Proof. intros I He Hne Hj E. apply Hne. by eapply (inv_touch_inj _ _ I). Qed.

Lemma batch_bytes_nonneg b : 0 ≤ batch_bytes b.
Proof. apply u64_clamp_nonneg, memory_size_nonneg. Qed.

Lemma demote_device_spec B m : spill_inv B m → turn_spec B Device_ m (demote_device m).
Proof.
  intros I. unfold demote_device.
  destruct (coldest Device_ m) as [v|] eqn:Ec; cbn.
  2: { split; [done|]. intros j f Hj. by eapply coldest_None. }
  apply coldest_Some in Ec as (e & He & Ht & Hmin).
  destruct (inv_entry _ _ I _ _ He) as (Hb & Hh & Hp & Hfit).
  rewrite He. destruct e as [tier db hb touch sch pl]. cbn in *. subst tier.
  unfold payload_ok in Hp. cbn in Hp. destruct pl as [r|b|p]; [|done|by destruct Hp].
  destruct Hp as [_ Hp]. destruct (dr_to_host r) as [b|err|] eqn:Er; [| |done].
  2: { split_and!; done. }
  specialize (Hfit b). cbn in Hfit. rewrite Er in Hfit. specialize (Hfit eq_refl).
  pose proof (batch_bytes_nonneg b). destruct Hfit as [Hfb Henc].
  set (e' := mkEntry Host_ _ _ _ _ _). set (m' := upd_hub _ _).
  split_and!.
  - eapply (inv_replace B m m' v _ e'); try done.
    + exact (inv_touch _ _ I v _ He).
    + intros j f Hne Hj. by apply (touch_distinct B m v _ j f I He).
    + intros t. apply (used_move B m v _ e' Device_ Host_ t I He); cbn; done || lia.
    + split; [cbn; lia|]. split; [cbn; lia|]. split; [done|]. by intros b' [= <-].
  - eapply (evolves_replace m m' v _ e'); try done. cbn. by rewrite Er.
  - exists v, (mkEntry Device_ db hb touch sch (PDevice r)), e'. done.
Qed.

Lemma inv_set_store B (m : manager) (s' : St) :
  spill_inv B m →
  (∀ j f, entries m !! j = Some f → logical s' (e_payload f) = logical (store m) (e_payload f)) →
  spill_inv B (set_store s' m) ∧ evolves m (set_store s' m).
Proof.
  intros I Hl. split.
  - destruct I as [Hent]. constructor; try done. intros id e He.
    destruct (Hent id e He) as (H1 & H2 & H3 & H4). split; [done|]. split; [done|].
    pose proof (Hl id e He) as Hl'. split.
    + unfold payload_ok in *. cbn [store set_store]. destruct (e_payload e); [done|done|].
      by rewrite Hl'.
    + intros b. cbn [store set_store]. rewrite Hl'. apply H4.
  - constructor; try done.
    + apply map_eq. intros j. rewrite !lookup_contents. cbn [entries store set_store].
      destruct (entries m !! j) as [f|] eqn:E; cbn; [|done]. by rewrite (Hl j f).
    + intros j f f' H1 H2. cbn in H2. by simplify_eq.
Qed.

Lemma write_spill_spec path b m :
  match write_spill path b m with
  | (Ok len, m') => ∃ s' bytes, m' = set_store s' m ∧ encode_batch b = Ok bytes ∧
      len = u64_clamp (Z.of_nat (length bytes)) ∧
      stored s' = <[path := bytes]> (stored (store m))
  | (Err _, m') => ∃ s', m' = set_store s' m ∧
      ∀ q, q ≠ path → stored s' !! q = stored (store m) !! q
  | (Panic, _) => False
  end.
Proof.
  unfold write_spill. pose proof (encode_total b).
  destruct (encode_batch b) as [bytes|e|] eqn:Eb; [| |done].
  2: { exists (store m). by destruct m. }
  pose proof (os_put_total path bytes (store m)).
  destruct (os_put path bytes (store m)) as [[[]|e|] s'] eqn:E; [| |done].
  - exists s', bytes. split_and!; [done..|]. by eapply os_put_ok.
  - exists s'. split; [done|]. intros q Hq. by eapply os_put_other.
Qed.

Lemma demote_host_spec B m : spill_inv B m → turn_spec B Host_ m (demote_host m).
Proof.
  intros I. unfold demote_host.
  destruct (coldest Host_ m) as [v|] eqn:Ec; cbn.
  2: { split; [done|]. intros j f Hj. by eapply coldest_None. }
  apply coldest_Some in Ec as (e & He & Ht & Hmin).
  destruct (inv_entry _ _ I _ _ He) as (Hb & Hh & Hp & Hfit).
  rewrite He. destruct e as [tier hb lb touch sch pl]. cbn in Ht, Hmin, Hb, Hh, Hfit. subst tier.
  unfold payload_ok in Hp. cbn in Hp. destruct pl as [r|b|p]; [by destruct Hp| |by destruct Hp].
  clear Hp. specialize (Hfit b eq_refl) as [Hfb Henc].
  pose proof (write_spill_spec (spill_path m v) b m) as Hw.
  destruct (write_spill (spill_path m v) b m) as [[len|err|] m1]; [| |done].
  - destruct Hw as (s' & bytes & -> & Hbytes & -> & Hst). pose proof (Henc _ Hbytes) as Hlen.
    pose proof (u64_clamp_nonneg (Z.of_nat (length bytes)) (Zle_0_nat _)).
    set (e' := mkEntry Disk_ _ _ _ _ _). set (m' := upd_hub _ _).
    assert (logical s' (PDisk (spill_path m v)) = Some b) as Hlog.
    { cbn. rewrite Hst, lookup_insert_eq. cbn. by rewrite (decode_encode _ _ Hbytes). }
    assert (∀ j f, j ≠ v → entries m !! j = Some f →
      logical s' (e_payload f) = logical (store m) (e_payload f)) as Hother.
    { intros j f Hne Hj. eapply logical_other; [done..|]. intros q Hq.
      by rewrite Hst, lookup_insert_ne. }
    split_and!.
    + eapply (inv_replace B m m' v _ e'); try done.
      * exact (inv_touch _ _ I v _ He).
      * intros j f Hne Hj. by apply (touch_distinct B m v _ j f I He).
      * intros t. apply (used_move B m v _ e' Host_ Disk_ t I He); cbn; done || lia.
      * split; [cbn; lia|]. split; [cbn; lia|]. split.
        -- split_and!; [done..|]. cbn [store m' upd_hub upd_state set_store]. by rewrite Hlog.
        -- cbn [e_payload e' store m' upd_hub upd_state set_store]. rewrite Hlog. by intros b' [= <-].
    + by eapply (evolves_replace m m' v _ e').
    + by exists v, (mkEntry Host_ hb lb touch sch (PHost b)), e'.
  - destruct Hw as (s' & -> & Hst).
    destruct (inv_set_store B m s' I) as [H1 H2]; [|done].
    intros j f Hj. destruct (decide (j = v)) as [->|Hne].
    + simplify_eq. done.
    + by eapply logical_other.
Qed.

(** *** The loops *)

(** The entries still in tier [t] were in it before, and every entry the
    loop took out was touched earlier than any that stayed. *)
Definition kept (t : Tier) (m m' : manager) : Prop :=
  ∀ j f, entries m' !! j = Some f → e_tier f = t → entries m !! j = Some f.
Definition lru (t : Tier) (m m' : manager) : Prop :=
  ∀ i e e' j f, entries m !! i = Some e → e_tier e = t →
    entries m' !! i = Some e' → e_tier e' ≠ t →
    entries m' !! j = Some f → e_tier f = t → e_last_touch e < e_last_touch f.

Definition loop_spec (B : Z) (t : Tier) (over : manager → bool) (m : manager)
    (r : result () * manager) : Prop :=
  match r with
  | (Ok _, m') => spill_inv B m' ∧ evolves m m' ∧ kept t m m' ∧ lru t m m' ∧
      (over m' = false ∨ ∀ j f, entries m' !! j = Some f → e_tier f ≠ t)
  | (Err _, m') => spill_inv B m' ∧ evolves m m'
  | (Panic, _) => False
  end.

Lemma turned_count t (m m' : manager) :
  turned t m m' → wsum (in_tier t) (entries m') = wsum (in_tier t) (entries m) - 1.
Proof.
  intros (v & e & e' & He & Ht & Ht' & -> & _). rewrite (wsum_update _ _ _ _ _ He).
  unfold in_tier at 2 3. rewrite decide_True, decide_False by done. lia.
Qed.

Lemma turned_kept t m m' : turned t m m' → kept t m m'.
Proof.
  intros (v & e & e' & He & Ht & Ht' & Hes & _) j f. rewrite Hes, lookup_insert.
  case_decide; [|done]. intros [= <-]. done.
Qed.

Lemma turned_lru B t m m1 m' :
  spill_inv B m → turned t m m1 → evolves m1 m' → kept t m1 m' → lru t m1 m' → lru t m m'.
Proof.
  intros I (v & e0 & e0' & He0 & Ht0 & Ht0' & Hes & Hmin) Ev K L i e e' j f Hi Ht Hi' Ht' Hj Hf.
  pose proof (K j f Hj Hf) as Hj1. rewrite Hes, lookup_insert in Hj1.
  case_decide; [by simplify_eq|].
  destruct (decide (i = v)) as [->|Hne].
  - assert (e = e0) as -> by congruence. specialize (Hmin j f Hj1 Hf).
    assert (e_last_touch f ≠ e_last_touch e0) by (eapply touch_distinct; done). lia.
  - eapply (L i e e' j f); try done. rewrite Hes, lookup_insert_ne; done.
Qed.

Lemma while_turns_spec B t over turn fuel m :
  (∀ m, spill_inv B m → turn_spec B t m (turn m)) →
  spill_inv B m → wsum (in_tier t) (entries m) < Z.of_nat fuel →
  loop_spec B t over m (while_turns over turn fuel m).
Proof.
  intros Hturn. revert m. induction fuel as [|fuel IH]; intros m I Hfuel.
  { assert (0 ≤ wsum (in_tier t) (entries m)); [|lia].
    apply wsum_nonneg. intros. unfold in_tier. case_decide; lia. }
  cbn [while_turns]. destruct (over m) eqn:Eo.
  2: { split_and!; [done|reflexivity|by intros j f| |by left]. intros i e e' j f ??????. by simplify_eq. }
  pose proof (Hturn m I) as Ht. destruct (turn m) as [[[[]|e|]|] m1]; cbn in Ht; [| |done|].
  - destruct Ht as (I1 & E1 & T1).
    assert (wsum (in_tier t) (entries m1) < Z.of_nat fuel) as Hf
      by (rewrite (turned_count _ _ _ T1); lia).
    specialize (IH m1 I1 Hf).
    destruct (while_turns over turn fuel m1) as [[[]|e|] m']; cbn in *; [| |done].
    + destruct IH as (I' & E' & K' & L' & D'). split_and!; try done.
      * by etrans.
      * intros j f Hj Ht. by apply (turned_kept t m m1 T1 j f (K' j f Hj Ht) Ht).
      * by eapply turned_lru.
    + destruct IH as [I' E']. split; [done|]. by etrans.
  - destruct Ht as (I1 & E1 & _). done.
  - destruct Ht as [-> Hnone]. split_and!; [done|reflexivity|by intros j f| |by right].
    intros i e e' j f ??????. by simplify_eq.
Qed.

Lemma in_tier_count_le t (m : manager) : wsum (in_tier t) (entries m) < Z.of_nat (S (size (entries m))).
Proof.
  assert (wsum (in_tier t) (entries m) ≤ Z.of_nat (size (entries m)) * 1); [|lia].
  apply wsum_le. intros. unfold in_tier. case_decide; lia.
Qed.

Lemma enforce_device_spec B m :
  spill_inv B m →
  loop_spec B Device_ (λ m, device_budget (budget m) <? u_device (used m)) m (enforce_device m).
Proof.
  intros I. apply while_turns_spec; [apply demote_device_spec|done|apply in_tier_count_le].
Qed.

Lemma enforce_host_spec B m :
  spill_inv B m →
  loop_spec B Host_ (λ m, host_budget (budget m) <? u_host (used m)) m (enforce_host m).
Proof.
  intros I. apply while_turns_spec; [apply demote_host_spec|done|apply in_tier_count_le].
Qed.

Lemma while_turns_ind (P : manager → Prop) over turn fuel m :
  (∀ m, P m → P (turn m).2) → P m → P (while_turns over turn fuel m).2.
Proof.
  intros Hturn. revert m. induction fuel as [|fuel IH]; intros m Hm; cbn.
  { by destruct (over m). }
  destruct (over m); [|done]. specialize (Hturn m Hm).
  destruct (turn m) as [[[[]|e|]|] m1]; cbn in *; auto.
Qed.

(** Host enforcement leaves the device tier alone. *)
Lemma enforce_host_device (m : manager) :
  u_device (used (enforce_host m).2) = u_device (used m).
Proof.
  unfold enforce_host. apply (while_turns_ind (λ m', u_device (used m') = u_device (used m))); [|done].
  intros m1 <-. unfold demote_host. destruct (coldest Host_ m1) as [v|]; [|done].
  destruct (entries m1 !! v) as [[? ? ? ? ? []]|]; [done| |done|done].
  unfold write_spill. destruct (encode_batch batch); [|done..].
  by destruct (os_put _ _ _) as [[[]| |] ?].
Qed.

(** A tier with no entries uses no bytes. *)
Lemma tier_empty_used B m t :
  spill_inv B m → (∀ j f, entries m !! j = Some f → e_tier f ≠ t) → used_at (used m) t = 0.
Proof.
  intros I H. rewrite (inv_used _ _ I). apply wsum_zero. intros j f Hj.
  apply tier_bytes_other. by eapply H.
Qed.

Lemma host_within_budget B m m' :
  loop_spec B Host_ (λ m, host_budget (budget m) <? u_host (used m)) m (Ok (), m') →
  u_host (used m') ≤ host_budget (budget m').
Proof.
  intros (I & _ & _ & _ & [H|H]); [by apply Z.ltb_ge in H|].
  pose proof (tier_empty_used B m' Host_ I H) as E. cbn in E. rewrite E. apply I.
Qed.

Lemma device_within_budget B m m' :
  loop_spec B Device_ (λ m, device_budget (budget m) <? u_device (used m)) m (Ok (), m') →
  u_device (used m') ≤ device_budget (budget m').
Proof.
  intros (I & _ & _ & _ & [H|H]); [by apply Z.ltb_ge in H|].
  pose proof (tier_empty_used B m' Device_ I H) as E. cbn in E. rewrite E. apply I.
Qed.

(** ** The operations *)

(** What an operation leaves: the invariant, the abstract contents [c], the
    next id [n] and the clock [k]; the budget never changes. *)
Record op_post (B : Z) (m : manager) (c : gmap Z (option RecordBatch)) (n k : Z)
    (m' : manager) : Prop := {
  post_inv : spill_inv B m';
  post_contents : contents m' = c;
  post_next : next_id m' = n;
  post_clock : clock m' = k;
  post_budget : budget m' = budget m;
}.

(** The published gauges agree with the accounting. *)
Definition published (m : manager) : Prop :=
  gauges_snapshot (tiers (telemetry m)) =
  mkTierSnapshot (u_device (used m)) (u_host (used m)) (u_disk (used m)).

(** The hub's gauge array has its three cells. *)
Definition hub_ok (m : manager) : Prop := length (gauge_bytes (tiers (telemetry m))) = 3%nat.

Lemma post_publish B m c n k m' :
  op_post B m c n k m' → op_post B m c n k (publish m').
Proof. intros [[] ? ? ? ?]. constructor; [|done..]. by constructor. Qed.

Lemma publish_published m : hub_ok m → published (publish m).
Proof.
  unfold hub_ok, published, publish. destruct m as [? ? ? [] ? ? hub ?]. cbn.
  destruct (tiers hub) as [g]. cbn. destruct g as [|x [|y [|z [|? ?]]]]; cbn; try done.
Qed.

Lemma evolves_post B m c n k m1 m2 :
  op_post B m c n k m1 → spill_inv B m2 → evolves m1 m2 → op_post B m c n k m2.
Proof. intros [] I []. constructor; congruence || done. Qed.

(** Registering a fresh entry. *)
Definition register (e : Entry) (t : Tier) (m : manager) : manager :=
  upd_state (insert (next_id m) e) (used_add t (e_bytes e)) (tick (fresh_id m).2).2.

(** Ids, clock and sizes stay inside 64 bits. *)
Definition room (B : Z) (m : manager) : Prop :=
  next_id m + 1 < U64 ∧ clock m + 1 < U64 ∧ (Z.of_nat (size (entries m)) + 1) * B < U64.

Lemma fresh_None B m : spill_inv B m → entries m !! next_id m = None.
Proof.
  intros I. destruct (entries m !! next_id m) as [e|] eqn:E; [|done].
  pose proof (inv_ids _ _ I _ _ E). lia.
Qed.

Lemma register_spec B m e t :
  spill_inv B m → room B m → e_tier e = t → e_last_touch e = clock m + 1 →
  entry_ok B (register e t m) (next_id m) e →
  op_post B m (<[next_id m := logical (store m) (e_payload e)]> (contents m))
    (next_id m + 1) (clock m + 1) (register e t m).
Proof.
  intros I (Hn & Hc & Hsz) Ht Htouch Hok. pose proof (fresh_None B m I) as Hfresh.
  pose proof (inv_clock _ _ I) as [Hc0 Hn0]. pose proof (inv_bound _ _ I) as [HB _].
  assert (wadd64 (next_id m) 1 = next_id m + 1) as En by (apply wadd64_small; unfold is_u64; lia).
  assert (wadd64 (clock m) 1 = clock m + 1) as Ec by (apply wadd64_small; unfold is_u64; lia).
  assert (∀ j f, <[next_id m := e]> (entries m) !! j = Some f →
    (j = next_id m ∧ f = e) ∨ (j ≠ next_id m ∧ entries m !! j = Some f)) as Hcase.
  { intros j f H. rewrite lookup_insert in H. case_decide as E; [left|right]; split; congruence. }
  destruct Hok as (Hb & Hrest).
  constructor; [|..].
  2: { apply map_eq. intros j. rewrite lookup_contents. cbn. rewrite !lookup_insert, lookup_contents.
       by case_decide. }
  2-4: cbn; congruence.
  constructor; cbn [entries used next_id clock budget prefix store register upd_state tick fresh_id snd].
  - intros j f [[-> ->]|[Hne Hj]]%Hcase; [done|]. exact (inv_entry _ _ I _ _ Hj).
  - intros u. rewrite wsum_insert_fresh, used_at_add, !(inv_used _ _ I) by done.
    case_decide as E; [|rewrite tier_bytes_other by congruence; lia].
    subst u. rewrite tier_bytes_same by done. rewrite wadd64_small; [lia|].
    assert (0 ≤ wsum (tier_bytes t) (entries m) ≤ Z.of_nat (size (entries m)) * B); [|unfold is_u64; lia].
    split; [apply wsum_nonneg|apply wsum_le]; intros j f Hj; by eapply tier_bytes_range.
  - rewrite map_size_insert_None by done. split; [done|]. lia.
  - rewrite En. intros j f [[-> _]|[_ Hj]]%Hcase; [lia|]. pose proof (inv_ids _ _ I _ _ Hj). lia.
  - rewrite Ec. intros j f [[_ ->]|[_ Hj]]%Hcase; [lia|]. pose proof (inv_touch _ _ I _ _ Hj). lia.
  - intros i j f g [[-> ->]|[Hi Hf]]%Hcase [[-> ->]|[Hj Hg]]%Hcase E; [done| | |].
    + pose proof (inv_touch _ _ I _ _ Hg). lia.
    + pose proof (inv_touch _ _ I _ _ Hf). lia.
    + by eapply (inv_touch_inj _ _ I).
  - rewrite En, Ec. lia.
  - apply I.
Qed.

(** Enforcing the host budget, publishing and returning. *)
Definition finish_spec {A} (B : Z) (m : manager) c n k (a : A) (r : result A * manager) : Prop :=
  match r with
  | (Ok a', m') => a' = a ∧ op_post B m c n k m' ∧ u_host (used m') ≤ host_budget (budget m')
  | (Err _, m') => op_post B m c n k m'
  | (Panic, _) => False
  end.

Lemma finish_host_spec {A} B m c n k (a : A) m1 :
  op_post B m c n k m1 → finish_spec B m c n k a (finish a (enforce_host m1)).
Proof.
  intros P. pose proof (enforce_host_spec B m1 (post_inv _ _ _ _ _ _ P)) as L.
  unfold finish. destruct (enforce_host m1) as [[[]|e|] m2]; [| |done].
  - pose proof (host_within_budget B m1 m2 L) as Hb. destruct L as (I & E & _).
    split; [done|]. split; [|done]. by eapply post_publish, evolves_post.
  - destruct L as [I E]. by eapply evolves_post.
Qed.

Lemma finish_spec_post {A} B m c n k (a : A) r :
  finish_spec B m c n k a r → op_post B m c n k r.2.
Proof. destruct r as [[?|?|] ?]; cbn; [|done|done]. by intros (_ & H & _). Qed.

Lemma insert_host_spec B m b :
  spill_inv B m → room B m → fits B b →
  finish_spec B m (<[next_id m := Some b]> (contents m)) (next_id m + 1) (clock m + 1)
    (next_id m) (insert_host b m).
Proof.
  intros I R Hf. unfold insert_host. cbn -[finish finish_spec enforce_host].
  apply (finish_host_spec B m _ _ _ (next_id m)
    (register (mkEntry Host_ (batch_bytes b) (batch_bytes b) (wadd64 (clock m) 1) (schema b) (PHost b)) Host_ m)).
  destruct R as (Hn & Hc & Hs). pose proof (inv_clock _ _ I). pose proof (batch_bytes_nonneg b).
  eapply (register_spec B m (mkEntry _ _ _ _ _ (PHost b)) Host_); [done|done|done| |].
  - cbn. apply wadd64_small. unfold is_u64. lia.
  - destruct Hf. split; [cbn; lia|]. split; [cbn; lia|]. split; [done|]. by intros b' [= <-].
Qed.

Lemma insert_device_spec B m r sch :
  spill_inv B m → room B m → 0 ≤ dr_bytes r ≤ B → dr_to_host r ≠ Panic →
  (∀ b, dr_to_host r = Ok b → fits B b) →
  finish_spec B m (<[next_id m := res_ok (dr_to_host r)]> (contents m))
    (next_id m + 1) (clock m + 1) (next_id m) (insert_device r sch m) ∧
  ∀ id m', insert_device r sch m = (Ok id, m') → u_device (used m') ≤ device_budget (budget m').
Proof.
  intros I R Hb Hp Hf. unfold insert_device. cbn -[finish finish_spec enforce_host enforce_device].
  set (m1 := upd_state _ _ _).
  assert (op_post B m (<[next_id m := res_ok (dr_to_host r)]> (contents m))
    (next_id m + 1) (clock m + 1) m1) as P1.
  { destruct R as (Hn & Hc & Hs). pose proof (inv_clock _ _ I). pose proof (inv_bound _ _ I) as [? _].
    apply (register_spec B m (mkEntry Device_ (dr_bytes r) 0 (wadd64 (clock m) 1) sch (PDevice r)) Device_);
      [done|done|done| |].
    - cbn. apply wadd64_small. unfold is_u64. lia.
    - split; [done|]. split; [cbn; lia|]. split; [done|]. cbn. intros b.
      destruct (dr_to_host r); cbn; [|done..]. intros [= <-]. by apply Hf. }
  pose proof (enforce_device_spec B m1 (post_inv _ _ _ _ _ _ P1)) as L.
  destruct (enforce_device m1) as [[[]|e|] m2]; [| |done].
  - pose proof (device_within_budget B m1 m2 L) as Hd. destruct L as (I2 & E2 & _).
    pose proof (evolves_post _ _ _ _ _ _ _ P1 I2 E2) as P2. split.
    + by apply finish_host_spec.
    + intros id m'. unfold finish. pose proof (enforce_host_spec B m2 I2) as L2.
      destruct (enforce_host m2) as [[[]|e|] m3] eqn:E3; [|done..]. intros [= <- <-].
      cbn [used budget publish upd_hub].
      assert (u_device (used m3) = u_device (used m2)) as ->
        by (pose proof (enforce_host_device m2) as E; by rewrite E3 in E).
      destruct L2 as (_ & Ev & _). by rewrite (ev_budget _ _ Ev).
  - destruct L as [I2 E2]. split; [by eapply evolves_post|done].
Qed.

Lemma inv_tick B m : spill_inv B m → clock m + 1 < U64 → spill_inv B (tick m).2.
Proof.
  intros I Hc. pose proof (inv_clock _ _ I) as [H1 H2].
  assert (wadd64 (clock m) 1 = clock m + 1) as Ec by (apply wadd64_small; unfold is_u64; lia).
  destruct I. constructor; cbn; rewrite ?Ec; try done; [|lia].
  intros id e He. specialize (inv_touch0 id e He). lia.
Qed.

(** The state after [get] has stamped the entry. *)
Definition touched (id : Z) (e : Entry) (m : manager) : manager :=
  upd_state (insert id (touch_entry (wadd64 (clock m) 1) e)) (λ u, u) (tick m).2.

Lemma touched_spec B m id e :
  spill_inv B m → clock m + 1 < U64 → entries m !! id = Some e →
  op_post B m (contents m) (next_id m) (clock m + 1) (touched id e m).
Proof.
  intros I Hc He. pose proof (inv_clock _ _ I) as [H1 H2].
  assert (wadd64 (clock m) 1 = clock m + 1) as Ec by (apply wadd64_small; unfold is_u64; lia).
  constructor; [| |done..].
  - eapply (inv_replace B (tick m).2 _ id e (touch_entry (clock m + 1) e));
      [by apply inv_tick|done|by cbn; rewrite Ec|done|done|done|done| | | | |done].
    + cbn. rewrite Ec. lia.
    + intros j f _ Hj. cbn. pose proof (inv_touch _ _ I _ _ Hj). lia.
    + intros t. cbn. rewrite (wsum_update _ _ _ _ _ He), (inv_used _ _ I).
      unfold tier_bytes. cbn. lia.
    + exact (inv_entry _ _ I _ _ He).
  - apply map_eq. intros j. rewrite !lookup_contents. cbn. rewrite lookup_insert.
    case_decide; subst; [by rewrite He|done].
Qed.

(** The state after a spilled batch was read back and moved to host memory. *)
Lemma promote_spec B m id e path b touch (s s' : St) hub :
  spill_inv B m → entries m !! id = Some e → e_payload e = PDisk path →
  touch = e_last_touch e → logical (store m) (e_payload e) = Some b →
  stored s = stored (store m) →
  (∀ q, q ≠ path → stored s' !! q = stored s !! q) →
  let host_bytes := if 0 <? e_host_bytes e then e_host_bytes e else batch_bytes b in
  let e' := mkEntry Host_ host_bytes (e_host_bytes e) touch (e_schema e) (PHost b) in
  let m' := mkManager (budget m) (prefix m) (<[id := e']> (entries m))
    (used_add Host_ host_bytes (used_sub Disk_ (e_bytes e) (used m)))
    (next_id m) (clock m) hub s' in
  spill_inv B m' ∧ contents m' = contents m.
Proof.
  intros I He Hpl -> Hlog Hs Hs' hb e' m'.
  destruct (inv_entry _ _ I _ _ He) as (Hb & Hh & Hp & Hfit).
  unfold payload_ok in Hp. rewrite Hpl in Hp. destruct Hp as (Ht & -> & _).
  specialize (Hfit b Hlog). pose proof (batch_bytes_nonneg b).
  assert (0 ≤ hb ≤ B) as Hhb.
  { destruct Hfit. unfold hb. destruct (Z.ltb_spec 0 (e_host_bytes e)); lia. }
  assert (∀ j f, j ≠ id → entries m !! j = Some f →
    logical s' (e_payload f) = logical (store m) (e_payload f)) as Hother.
  { intros j f Hne Hj. eapply logical_other; [done..|]. intros q Hq. by rewrite Hs', Hs. }
  split.
  - eapply (inv_replace B m m' id e e'); try done.
    + exact (inv_touch _ _ I id _ He).
    + intros j f Hne Hj. by apply (touch_distinct B m id _ j f I He).
    + intros t. by apply (used_move B m id e e' Disk_ Host_ t I He).
    + split; [done|]. split; [done|]. split; [done|]. by intros b' [= <-].
  - eapply (ev_contents m m'), (evolves_replace m m' id e e'); try done.
Qed.

Lemma read_spill_spec path m b :
  logical (store m) (PDisk path) = Some b →
  match read_spill path m with
  | (Ok b', m') => b' = b ∧ ∃ s, m' = set_store s m ∧ stored s = stored (store m)
  | (Err _, m') => ∃ s, m' = set_store s m ∧ stored s = stored (store m)
  | (Panic, _) => False
  end.
Proof.
  intros Hl. unfold read_spill.
  pose proof (os_get_total path (store m)). pose proof (os_get_state path (store m)) as Hst.
  destruct (os_get path (store m)) as [[bytes|e|] s] eqn:E; [| |done].
  - pose proof (os_get_ok _ _ _ _ E) as Hb. cbn in Hl. rewrite Hb in Hl. cbn in Hl.
    pose proof (decode_total bytes). destruct (decode_batch bytes); cbn in *; [|done..].
    injection Hl as ->. eauto.
  - eauto.
Qed.

Lemma spill_get_spec B m id :
  spill_inv B m → clock m + 1 < U64 →
  match spill_get id m with
  | (Ok b, m') =>
      contents m !! id = Some (Some b) ∧
      op_post B m (contents m) (next_id m) (clock m + 1) m' ∧
      (tier_of id m = Some Disk_ → u_host (used m') ≤ host_budget (budget m'))
  | (Err e, m') =>
      op_post B m (contents m) (next_id m) (clock m + 1) m' ∧
      (contents m !! id = None → e = Execution "spill: unknown batch id")
  | (Panic, _) => False
  end.
Proof.
  intros I Hc. unfold spill_get, tick. cbn [entries].
  rewrite lookup_contents. unfold tier_of.
  destruct (entries m !! id) as [e|] eqn:He; cbn [fmap option_fmap option_map].
  2: { split; [|done]. constructor; [by apply inv_tick|done|done| |done].
       apply wadd64_small. pose proof (inv_clock _ _ I). unfold is_u64; lia. }
  pose proof (touched_spec B m id e I Hc He) as P. set (m2 := upd_state _ _ _).
  change m2 with (touched id e m). clear m2.
  destruct (inv_entry _ _ I _ _ He) as (_ & _ & Hp & _). unfold payload_ok in Hp.
  destruct (e_payload e) as [r|b|path] eqn:Epl.
  - destruct Hp as [Ht Hnp]. rewrite Ht. cbn. by destruct (dr_to_host r).
  - rewrite Hp. done.
  - destruct Hp as (Ht & Hpath & [b Hlog]).
    pose proof (read_spill_spec path (touched id e m) b Hlog) as Hr.
    destruct (read_spill path (touched id e m)) as [[b'|err|] m3]; [| |done].
    + destruct Hr as (-> & s & -> & Hs).
      set (m4 := set_store (os_delete _ _).2 _).
      destruct (promote_spec B (touched id e m) id (touch_entry (wadd64 (clock m) 1) e) path b
        (wadd64 (clock m) 1) s (store m4) (telemetry m4)) as [I4 C4].
      { apply P. } { apply lookup_insert_eq. } { done. } { done. } { cbn. by rewrite Epl. } { done. }
      { intros q Hq. unfold m4. cbn.
        destruct (os_delete path s) as [r s'] eqn:Ed. by eapply os_delete_other. }
      change (spill_inv B m4) in I4. change (contents m4 = contents (touched id e m)) in C4.
      assert (op_post B m (contents m) (next_id m) (clock m + 1) m4) as P4.
      { destruct P as [_ Pc Pn Pk Pb]. constructor; [exact I4|congruence|done|done|done]. }
      pose proof (finish_host_spec B m _ _ _ b m4 P4) as F.
      destruct (finish b (enforce_host m4)) as [[b''|err|] m5]; [| |done].
      * destruct F as (-> & P5 & Hu). rewrite Hlog. done.
      * done.
    + destruct Hr as (s & -> & Hs). split; [|done].
      destruct (inv_set_store B (touched id e m) s) as [I3 E3]; [apply P| |by eapply evolves_post].
      intros j f Hj. destruct (e_payload f); [done|done|]. cbn. by rewrite Hs.
Qed.

Lemma delete_spec B m id e (s' : St) hub :
  spill_inv B m → entries m !! id = Some e →
  (∀ j f, j ≠ id → entries m !! j = Some f →
     logical s' (e_payload f) = logical (store m) (e_payload f)) →
  let m' := mkManager (budget m) (prefix m) (delete id (entries m))
    (used_sub (e_tier e) (e_bytes e) (used m)) (next_id m) (clock m) hub s' in
  op_post B m (delete id (contents m)) (next_id m) (clock m) m'.
Proof.
  intros I He Hother m'. constructor; [| |done..].
  2: { apply map_eq. intros j. rewrite lookup_contents. cbn. rewrite !lookup_delete, lookup_contents.
       case_decide; [done|]. destruct (entries m !! j) as [f|] eqn:Ej; cbn; [|done].
       by rewrite (Hother j f). }
  assert (∀ j f, delete id (entries m) !! j = Some f → j ≠ id ∧ entries m !! j = Some f) as Hcase.
  { intros j f [? ?]%lookup_delete_Some. done. }
  constructor; cbn [entries used next_id clock budget prefix store m'].
  - intros j f [Hne Hj]%Hcase. destruct (inv_entry _ _ I _ _ Hj) as (H1 & H2 & H3 & H4).
    pose proof (Hother j f Hne Hj) as Hl. split; [done|]. split; [done|]. split.
    + unfold payload_ok in *. change (store m') with s'. destruct (e_payload f); [done|done|]. by rewrite Hl.
    + intros b. change (store m') with s'. rewrite Hl. apply H4.
  - intros t. pose proof (wsum_delete (tier_bytes t) (entries m) id e He) as D.
    assert (0 ≤ wsum (tier_bytes t) (delete id (entries m))) as D2.
    { apply wsum_nonneg. intros j f [_ Hj]%Hcase. by eapply tier_bytes_range. }
    rewrite used_at_sub, !(inv_used _ _ I). case_decide as E.
    + subst t. rewrite tier_bytes_same in D by done. rewrite sat_sub_le; lia.
    + rewrite tier_bytes_other in D by congruence. lia.
  - rewrite map_size_delete_Some by by eexists. pose proof (inv_bound _ _ I). nia.
  - intros j f [_ Hj]%Hcase. by eapply (inv_ids _ _ I).
  - intros j f [_ Hj]%Hcase. by eapply (inv_touch _ _ I).
  - intros i j f g [_ Hi]%Hcase [_ Hj]%Hcase. by eapply (inv_touch_inj _ _ I).
  - apply I.
  - apply I.
Qed.

Lemma spill_remove_spec B m id :
  spill_inv B m →
  match spill_remove id m with
  | (Ok existed, m') =>
      existed = bool_decide (is_Some (contents m !! id)) ∧
      op_post B m (delete id (contents m)) (next_id m) (clock m) m'
  | (Err _, m') => op_post B m (delete id (contents m)) (next_id m) (clock m) m'
  | (Panic, _) => False
  end.
Proof.
  intros I. unfold spill_remove. rewrite lookup_contents.
  destruct (entries m !! id) as [e|] eqn:He; cbn [fmap option_fmap option_map].
  2: { split; [done|]. rewrite delete_id by (by rewrite lookup_contents, He).
       constructor; done. }
  pose proof (delete_spec B m id e) as D.
  destruct (inv_entry _ _ I _ _ He) as (_ & _ & Hp & _). unfold payload_ok in Hp.
  destruct (e_payload e) as [r|b|path] eqn:Epl.
  1-2: split; [by rewrite bool_decide_eq_true_2 by eauto|]; by apply post_publish, D.
  destruct Hp as (Ht & -> & _).
  set (m1 := upd_state _ _ _). pose proof (os_delete_total (spill_path m id) (store m1)).
  destruct (os_delete (spill_path m id) (store m1)) as [r s'] eqn:Ed.
  assert (∀ hub, op_post B m (delete id (contents m)) (next_id m) (clock m)
    (mkManager (budget m) (prefix m) (delete id (entries m))
       (used_sub (e_tier e) (e_bytes e) (used m)) (next_id m) (clock m) hub s')) as D'.
  { intros hub. apply D; [done..|]. intros j f Hne Hj. eapply logical_other; [done..|].
    intros q Hq. by eapply (os_delete_other _ (store m1)). }
  destruct r as [[]|[]|]; [| | |done].
  1-2: split; [by rewrite bool_decide_eq_true_2 by eauto|]; apply post_publish, D'.
  apply D'.
Qed.

(** inserting a host batch always registers it under the next id, next
    to all earlier batches, whether or not making room for it fails; on
    success that id is returned and the host tier is within its budget. *)
Theorem insert_host_correct B m b :
  spill_inv B m → room B m → fits B b →
  finish_spec B m (<[next_id m := Some b]> (contents m)) (next_id m + 1) (clock m + 1)
    (next_id m) (insert_host b m).
Proof. exact (insert_host_spec B m b). Qed.

(** inserting a device batch registers it under the next id next to all
    earlier batches, on success and on error; on success that id is returned
    and both bounded tiers are within their budgets. *)
Theorem insert_device_correct B m r sch :
  spill_inv B m → room B m → 0 ≤ dr_bytes r ≤ B → dr_to_host r ≠ Panic →
  (∀ b, dr_to_host r = Ok b → fits B b) →
  finish_spec B m (<[next_id m := res_ok (dr_to_host r)]> (contents m))
    (next_id m + 1) (clock m + 1) (next_id m) (insert_device r sch m) ∧
  ∀ id m', insert_device r sch m = (Ok id, m') → u_device (used m') ≤ device_budget (budget m').
Proof. exact (insert_device_spec B m r sch). Qed.

(** reading an id returns the batch registered under it, wherever it
    lives, and changes no batch; an unknown id is an execution error.  A
    failed read loses nothing, and reading a spilled batch leaves the host
    tier within its budget. *)
Theorem spill_get_correct B m id :
  spill_inv B m → clock m + 1 < U64 →
  match spill_get id m with
  | (Ok b, m') =>
      contents m !! id = Some (Some b) ∧
      op_post B m (contents m) (next_id m) (clock m + 1) m' ∧
      (tier_of id m = Some Disk_ → u_host (used m') ≤ host_budget (budget m'))
  | (Err e, m') =>
      op_post B m (contents m) (next_id m) (clock m + 1) m' ∧
      (contents m !! id = None → e = Execution "spill: unknown batch id")
  | (Panic, _) => False
  end.
Proof. exact (spill_get_spec B m id). Qed.

(** removing an id forgets exactly that batch and reports whether it
    existed; a spill file that cannot be deleted is an error but the batch
    is forgotten and every other batch is kept. *)
Theorem spill_remove_correct B m id :
  spill_inv B m →
  match spill_remove id m with
  | (Ok existed, m') =>
      existed = bool_decide (is_Some (contents m !! id)) ∧
      op_post B m (delete id (contents m)) (next_id m) (clock m) m'
  | (Err _, m') => op_post B m (delete id (contents m)) (next_id m) (clock m) m'
  | (Panic, _) => False
  end.
Proof. exact (spill_remove_spec B m id). Qed.

(** C32: host enforcement always finishes (within as many turns as there are
    entries), and on success the host tier is within its budget, every batch
    still readable, and every demoted batch was touched before every batch
    that stayed in host memory. *)
Theorem enforce_host_correct B m :
  spill_inv B m →
  match enforce_host m with
  | (Ok _, m') =>
      contents m' = contents m ∧ u_host (used m') ≤ host_budget (budget m') ∧
      (∀ i e e' j f, entries m !! i = Some e → e_tier e = Host_ →
         entries m' !! i = Some e' → e_tier e' = Disk_ →
         entries m' !! j = Some f → e_tier f = Host_ → e_last_touch e < e_last_touch f)
  | (Err _, m') => contents m' = contents m
  | (Panic, _) => False
  end.
Proof.
  intros I. pose proof (enforce_host_spec B m I) as L.
  destruct (enforce_host m) as [[[]|err|] m']; [| |done].
  - pose proof (host_within_budget B m m' L). destruct L as (_ & E & _ & Hlru & _).
    split; [apply E|]. split; [done|]. intros i e e' j f Hi Ht Hi' Ht'.
    apply (Hlru i e e'); try done. by rewrite Ht'.
  - apply L.
Qed.

Lemma spill_inv_new B bud (st : St) pre hub :
  0 ≤ B → 0 ≤ device_budget bud → 0 ≤ host_budget bud →
  spill_inv B (SpillManager_new bud st pre hub).
Proof. intros. constructor; cbn; try done. by intros []. Qed.

(** ** Whole runs *)

Inductive SpillOp :=
  | SInsertHost (b : RecordBatch)
  | SInsertDevice (r : DeviceResident) (sch : Schema)
  | SGet (id : Z)
  | SRemove (id : Z).

Definition spill_step (m : manager) (op : SpillOp) : manager :=
  match op with
  | SInsertHost b => (insert_host b m).2
  | SInsertDevice r sch => (insert_device r sch m).2
  | SGet id => (spill_get id m).2
  | SRemove id => (spill_remove id m).2
  end.

(** The specification: a map from ids handed out in order to batches. *)
Record Registry := mkRegistry { reg_next : Z; reg_map : gmap Z (option RecordBatch) }.
Definition registry_step (s : Registry) (op : SpillOp) : Registry :=
  match op with
  | SInsertHost b => mkRegistry (reg_next s + 1) (<[reg_next s := Some b]> (reg_map s))
  | SInsertDevice r _ =>
      mkRegistry (reg_next s + 1) (<[reg_next s := res_ok (dr_to_host r)]> (reg_map s))
  | SGet _ => s
  | SRemove id => mkRegistry (reg_next s) (delete id (reg_map s))
  end.

Definition op_fits (B : Z) (op : SpillOp) : Prop :=
  match op with
  | SInsertHost b => fits B b
  | SInsertDevice r _ => 0 ≤ dr_bytes r ≤ B ∧ dr_to_host r ≠ Panic ∧
                         ∀ b, dr_to_host r = Ok b → fits B b
  | _ => True
  end.

(** The run so far used at most [n] ids, ticks and entries. *)
Record run_rel (B n : Z) (m : manager) (s : Registry) : Prop := {
  rr_inv : spill_inv B m;
  rr_contents : contents m = reg_map s;
  rr_next : next_id m = reg_next s ∧ next_id m ≤ n + 1;
  rr_clock : clock m ≤ n;
  rr_size : Z.of_nat (size (entries m)) ≤ n;
}.

Lemma size_contents (m : manager) : size (entries m) = size (contents m).
Proof. symmetry. apply map_size_fmap. Qed.

Lemma run_rel_post B n m m' s' c k :
  op_post B m c (reg_next s') k m' → c = reg_map s' → k ≤ n + 1 → reg_next s' ≤ n + 2 →
  Z.of_nat (size c) ≤ n + 1 → run_rel B (n + 1) m' s'.
Proof.
  intros [I C N K _] -> ? ? ?. constructor; [done|done|lia|lia|]. by rewrite size_contents, C.
Qed.

Lemma run_rel_step B n m s op :
  run_rel B n m s → op_fits B op → n + 2 < U64 → (n + 1) * B < U64 →
  run_rel B (n + 1) (spill_step m op) (registry_step s op).
Proof.
  intros [I C [N1 N2] K S] Hop Hn HB. pose proof (inv_bound _ _ I) as [HB0 _].
  assert (room B m) as R by (split_and!; [lia|lia|nia]).
  assert (∀ v, Z.of_nat (size (<[next_id m := v]> (contents m))) ≤ n + 1) as Hsz.
  { intros v. rewrite map_size_insert_None; [rewrite <- size_contents; lia|].
    by rewrite lookup_contents, (fresh_None B m I). }
  destruct op as [b|r sch|id|id]; cbn [op_fits] in Hop; cbn [spill_step registry_step].
  - pose proof (insert_host_spec B m b I R Hop) as H.
    eapply (run_rel_post B n m _ _ (<[next_id m := Some b]> (contents m)) (clock m + 1));
      [|cbn; congruence|lia|cbn; lia|apply Hsz].
    cbn [reg_next]. rewrite <- N1. by eapply finish_spec_post.
  - destruct Hop as (H1 & H2 & H3).
    destruct (insert_device_spec B m r sch I R H1 H2 H3) as [H _].
    eapply (run_rel_post B n m _ _ (<[next_id m := res_ok (dr_to_host r)]> (contents m)) (clock m + 1));
      [|cbn; congruence|lia|cbn; lia|apply Hsz].
    cbn [reg_next]. rewrite <- N1. by eapply finish_spec_post.
  - assert (clock m + 1 < U64) as Hc by lia. pose proof (spill_get_spec B m id I Hc) as H.
    eapply (run_rel_post B n m _ _ (contents m) (clock m + 1));
      [|done|lia|lia|rewrite <- size_contents; lia].
    rewrite <- N1. destruct (spill_get id m) as [[?|?|] ?]; [|exact (proj1 H)|done].
    by destruct H as (_ & H & _).
  - pose proof (spill_remove_spec B m id I) as H.
    eapply (run_rel_post B n m _ _ (delete id (contents m)) (clock m));
      [|cbn; congruence|lia|cbn; lia|].
    + cbn [reg_next]. rewrite <- N1. destruct (spill_remove id m) as [[?|?|] ?]; [exact (proj2 H)|done|done].
    + rewrite map_size_delete, <- size_contents. destruct (contents m !! id); unfold Datatypes.id; lia.
Qed.

Lemma run_rel_run B n m s ops :
  Forall (op_fits B) ops → run_rel B n m s →
  n + Z.of_nat (length ops) + 1 < U64 → (n + Z.of_nat (length ops)) * B < U64 →
  run_rel B (n + Z.of_nat (length ops)) (foldl spill_step m ops) (foldl registry_step s ops).
Proof.
  intros Hops. revert n m s. induction Hops as [|op ops Hop _ IH]; intros n m s R Hn Hb.
  - cbn. by rewrite Z.add_0_r.
  - cbn [foldl length] in *. pose proof (inv_bound _ _ (rr_inv _ _ _ _ R)) as [HB _].
    replace (n + Z.of_nat (S (length ops))) with (n + 1 + Z.of_nat (length ops)) in * by lia.
    apply IH; [|lia|lia]. apply run_rel_step; [done|done|lia|nia].
Qed.

(** C1: refinement.  Run any sequence of inserts, reads and removals on a
    fresh manager, with any object store failing as it likes: as long as the
    ids and the bytes fit in 64 bits, the batches the manager stands for are
    exactly those of the plain registry, and the per-tier usage is exactly
    the sum of the sizes of the entries in that tier. *)
Theorem spill_run_refines B (bud : SpillBudget) (st : St) pre hub (ops : list SpillOp) :
  0 ≤ B → 0 ≤ device_budget bud → 0 ≤ host_budget bud →
  Forall (op_fits B) ops →
  Z.of_nat (length ops) + 1 < U64 → Z.of_nat (length ops) * B < U64 →
  let m := foldl spill_step (SpillManager_new bud st pre hub) ops in
  contents m = reg_map (foldl registry_step (mkRegistry 1 ∅) ops) ∧
  (∀ t, used_at (used m) t = wsum (tier_bytes t) (entries m)).
Proof.
  intros HB Hd Hh Hops Hlen Hbytes m.
  destruct (run_rel_run B 0 (SpillManager_new bud st pre hub) (mkRegistry 1 ∅) ops)
    as [R1 R2 _ _ _]; [done| |lia|lia|].
  - constructor; [by apply spill_inv_new|done|done|done|done].
  - split; [exact R2|exact (inv_used _ _ R1)].
Qed.
End Correct.

(** ** A concrete environment

    An in-memory object store that never fails and an IPC format that knows two
    batches: the laws assumed above hold of it, and the operations run. *)

Module SpillExample.
#[export] Instance mem_store : ObjectStore (gmap string (list Z)) := {
  os_put p b s := (Ok (), <[p := b]> s);
  os_get p s := (match s !! p with Some b => Ok b | None => Err StoreNotFound end, s);
  os_delete p s := (Ok (), delete p s);
  stored s := s;
}.

#[export] Instance mem_store_laws : ObjectStoreLaws (gmap string (list Z)).
Proof.
  constructor; cbn; try done.
  - by intros p b s s' [= <-].
  - intros p b s r s' q [= _ <-] Hq. by apply lookup_insert_ne.
  - intros p s b s'. by destruct (s !! p); intros; simplify_eq.
  - intros p s. by destruct (s !! p).
  - intros p s r s' q [= _ <-] Hq. by apply lookup_delete_ne.
Qed.

Definition batch (z : Z) : RecordBatch :=
  mkBatch (Schema_new [Field_new "k" Int64 true]) [Int64Array_of [Some z; None]] 2.

#[export] Instance two_batches : SpillEnv := {
  ipc_write b := if decide (b = batch 1) then Ok [1] else if decide (b = batch 2) then Ok [2; 2]
                 else Err (ArrowErr "unknown batch");
  ipc_open bytes :=
    if decide (bytes = [1]) then Ok (schema (batch 1), [Ok (batch 1)])
    else if decide (bytes = [2; 2]) then Ok (schema (batch 2), [Ok (batch 2)])
    else Err (ArrowErr "not an IPC file");
  concat_batches s bs := Err (ArrowErr "several batches");
  new_empty s := mkBatch s [] 0;
  get_array_memory_size b := 100;
  hash_iter := map_to_list;
  Path_from s := s;
}.

Lemma string_app_inv_tail s t u : s +:+ u = t +:+ u → s = t.
Proof.
  intros H. apply (f_equal String.list_ascii_of_string) in H.
  rewrite !list_ascii_app in H. apply app_inv_tail in H.
  by rewrite <- (String.string_of_list_ascii_of_string s), H,
    String.string_of_list_ascii_of_string.
Qed.

#[export] Instance two_batches_laws : SpillEnvLaws.
Proof.
  constructor; cbn; try done.
  - intros b bytes H. repeat case_decide; simplify_eq; reflexivity.
  - intros b. by repeat case_decide.
  - intros b. by repeat case_decide.
  - intros bytes sch items H. repeat case_decide; simplify_eq; set_solver.
  - intros pre a b H. apply (inj (String.append pre)), (inj (String.append "/batch-")) in H.
    by apply string_app_inv_tail, (inj pretty) in H.
Qed.

Lemma fits_batch z : fits 1000 (batch z).
Proof.
  split; [vm_compute; discriminate|]. intros bytes H. unfold encode_batch in H. cbn in H.
  repeat case_decide; cbn in H; simplify_eq; vm_compute; discriminate.
Qed.

(** Room for one batch in host memory. *)
Definition fresh : SpillManager :=
  SpillManager_new (mkBudget 0 150) (∅ : gmap string (list Z)) "spill" TelemetryHub_new.
Definition two_inserted : SpillManager := (insert_host (batch 2) (insert_host (batch 1) fresh).2).2.

(** The second insert spilled the first batch, and reading it back swaps the two. *)
Example second_insert_spills :
  tier_of 1 two_inserted = Some Disk_ ∧ tier_of 2 two_inserted = Some Host_ ∧
  (spill_get 1 two_inserted).1 = Ok (batch 1) ∧
  tier_of 2 (spill_get 1 two_inserted).2 = Some Disk_ ∧
  usage two_inserted = mkUsed 0 100 1.
Proof. vm_compute. done. Qed.

Lemma fresh_inv : spill_inv 1000 fresh.
Proof. apply spill_inv_new; done. Qed.
Lemma fresh_room : room 1000 fresh.
Proof. split_and!; done. Qed.

Lemma two_inserted_inv : spill_inv 1000 two_inserted.
Proof.
  pose proof (insert_host_spec 1000 fresh (batch 1) fresh_inv fresh_room (fits_batch 1)) as H1.
  apply finish_spec_post, post_inv in H1.
  assert (room 1000 (insert_host (batch 1) fresh).2) as R by by vm_compute.
  pose proof (insert_host_spec 1000 _ (batch 2) H1 R (fits_batch 2)) as H2.
  by apply finish_spec_post, post_inv in H2.
Qed.

Lemma insert_host_correct_witness :
  finish_spec 1000 fresh (<[1 := Some (batch 1)]> (contents fresh)) 2 1 1
    (insert_host (batch 1) fresh).
Proof. exact (insert_host_correct 1000 fresh (batch 1) fresh_inv fresh_room (fits_batch 1)). Defined.

Definition resident : DeviceResident := mkResident 64 (Ok (batch 1)).

Lemma insert_device_correct_witness :
  finish_spec 1000 fresh (<[1 := Some (batch 1)]> (contents fresh)) 2 1 1
    (insert_device resident (schema (batch 1)) fresh) ∧
  ∀ id m', insert_device resident (schema (batch 1)) fresh = (Ok id, m') →
    u_device (used m') ≤ device_budget (budget m').
Proof.
  apply (insert_device_correct 1000 fresh resident); [apply fresh_inv|apply fresh_room|cbn; lia|done|].
  intros b [= <-]. apply fits_batch.
Defined.

Lemma spill_get_correct_witness :
  match spill_get 1 two_inserted with
  | (Ok b, m') =>
      contents two_inserted !! 1 = Some (Some b) ∧
      op_post 1000 two_inserted (contents two_inserted) (next_id two_inserted)
        (clock two_inserted + 1) m' ∧
      (tier_of 1 two_inserted = Some Disk_ → u_host (used m') ≤ host_budget (budget m'))
  | (Err e, m') =>
      op_post 1000 two_inserted (contents two_inserted) (next_id two_inserted)
        (clock two_inserted + 1) m' ∧
      (contents two_inserted !! 1 = None → e = Execution "spill: unknown batch id")
  | (Panic, _) => False
  end.
Proof. apply (spill_get_correct 1000 two_inserted 1); [apply two_inserted_inv|by vm_compute]. Defined.

Lemma spill_remove_correct_witness :
  match spill_remove 1 two_inserted with
  | (Ok existed, m') =>
      existed = bool_decide (is_Some (contents two_inserted !! 1)) ∧
      op_post 1000 two_inserted (delete 1 (contents two_inserted)) (next_id two_inserted)
        (clock two_inserted) m'
  | (Err _, m') => op_post 1000 two_inserted (delete 1 (contents two_inserted))
        (next_id two_inserted) (clock two_inserted) m'
  | (Panic, _) => False
  end.
Proof. apply (spill_remove_correct 1000 two_inserted 1), two_inserted_inv. Defined.

Lemma enforce_host_correct_witness :
  match enforce_host two_inserted with
  | (Ok _, m') =>
      contents m' = contents two_inserted ∧ u_host (used m') ≤ host_budget (budget m') ∧
      (∀ i e e' j f, entries two_inserted !! i = Some e → e_tier e = Host_ →
         entries m' !! i = Some e' → e_tier e' = Disk_ →
         entries m' !! j = Some f → e_tier f = Host_ → e_last_touch e < e_last_touch f)
  | (Err _, m') => contents m' = contents two_inserted
  | (Panic, _) => False
  end.
Proof. apply (enforce_host_correct 1000), two_inserted_inv. Defined.

Definition demo_ops : list SpillOp :=
  [SInsertHost (batch 1); SInsertHost (batch 2); SGet 1; SInsertDevice resident (schema (batch 1));
   SRemove 2; SGet 7].

Lemma spill_run_refines_witness :
  let m := foldl spill_step (SpillManager_new (mkBudget 0 150) ∅ "spill" TelemetryHub_new) demo_ops in
  contents m = reg_map (foldl registry_step (mkRegistry 1 ∅) demo_ops) ∧
  (∀ t, used_at (used m) t = wsum (tier_bytes t) (entries m)).
Proof.
  apply (spill_run_refines 1000); try done.
  repeat apply Forall_cons_2; try apply fits_batch; try done.
  split; [cbn; lia|]. split; [done|]. intros b [= <-]. apply fits_batch.
Defined.
End SpillExample.
