(* ===== verification/Memory.v ===== *)
(** * oxidelake-memory: aligned, pinned and host buffers

    Models [src/crates/oxidelake-memory/src/{aligned,host,class,pinned}.rs].
    The global allocator and the CUDA driver are parameters ([Allocator],
    [CudaDriver]); a slice made of raw parts that reach past their allocation,
    which is undefined behaviour, is [Panic]. *)

From S2P Require Import Prelude Floats Arrow Core.

(** [std::alloc::alloc_zeroed]: an address, or null. *)
Class Allocator := alloc_zeroed : Z → Z → option Z.
Class AllocatorLaw `{Allocator} : Prop :=
  alloc_law size align p : 0 < align → alloc_zeroed size align = Some p → 0 < p ∧ (align | p).

(** ** Aligned buffers ([aligned.rs]) *)

(** [std::alloc::Layout]. *)
Record Layout := mkAllocLayout { lay_size : Z; lay_align : Z }.

(** [Layout::from_size_align]: the size rounded up to the alignment must not
    exceed [isize::MAX]. *)
Definition Layout_from_size_align (size align : Z) : option Layout :=
  if is_power_of_two align && (size <=? i64_max - (align - 1))
  then Some (mkAllocLayout size align) else None.

(** The allocation's bytes stand for the memory [ptr] owns. *)
Record AlignedBuf := mkAligned {
  ab_ptr : Z;
  ab_layout : Layout;
  ab_len : Z;
  ab_bytes : list Z;
}.

Definition ab_align (b : AlignedBuf) : Z := lay_align (ab_layout b).
Definition capacity (b : AlignedBuf) : Z := lay_size (ab_layout b).

Definition AlignedBuf_zeroed `{Allocator} (len align : Z) : result AlignedBuf :=
  wanted ← BufferLayout_new len align;
  let size := Z.max (padded_len wanted) align in
  layout ← ok_or (Layout_from_size_align size align) (Allocation len align "invalid layout");
  ptr ← ok_or (alloc_zeroed size align) (Allocation len align "allocator returned null");
  Ok (mkAligned ptr layout len (replicate (Z.to_nat size) 0)).

Definition AlignedBuf_host `{Allocator} (len : Z) : result AlignedBuf :=
  AlignedBuf_zeroed len HOST_ALIGN.
Definition AlignedBuf_device_staging `{Allocator} (len : Z) : result AlignedBuf :=
  AlignedBuf_zeroed len DEVICE_ALIGN.

(** [slice::from_raw_parts(ptr, len)]. *)
Definition ab_as_slice (b : AlignedBuf) : result (list Z) :=
  if ab_len b <=? capacity b then Ok (take (Z.to_nat (ab_len b)) (ab_bytes b)) else Panic.

(** [as_mut_slice()[..src.len()].copy_from_slice(src)]. *)
Definition ab_write_prefix (b : AlignedBuf) (src : list Z) : result AlignedBuf :=
  if (ab_len b <=? capacity b) && (Z.of_nat (length src) <=? ab_len b)
  then Ok (mkAligned (ab_ptr b) (ab_layout b) (ab_len b) (src ++ drop (length src) (ab_bytes b)))
  else Panic.

(** ** Pinned buffers ([pinned.rs]) *)

(** The driver calls a pinned buffer makes: allocation, and waiting for the
    device work that targets a slice. *)
Class CudaDriver := {
  ctx_alloc_pinned : Z → res string (list Z);
  pinned_wait : list Z → res string unit;
}.

Record PinnedBuf := mkPinned { pb_slice : list Z; pb_len : Z }.

Definition driver_error (e : string) : EngineError := Device Cuda e.

Definition PinnedBuf_alloc `{CudaDriver} (len : Z) : result PinnedBuf :=
  slice ← map_err (λ e, Allocation len HOST_ALIGN e) (ctx_alloc_pinned (Z.max len 1));
  _ ← map_err driver_error (pinned_wait slice);
  Ok (mkPinned (replicate (length slice) 0) len).

(** [&slice[..len]], after waiting. *)
Definition pb_as_slice `{CudaDriver} (b : PinnedBuf) : result (list Z) :=
  _ ← map_err driver_error (pinned_wait (pb_slice b));
  if pb_len b <=? Z.of_nat (length (pb_slice b))
  then Ok (take (Z.to_nat (pb_len b)) (pb_slice b)) else Panic.

Definition pb_write_prefix `{CudaDriver} (b : PinnedBuf) (src : list Z) : result PinnedBuf :=
  _ ← map_err driver_error (pinned_wait (pb_slice b));
  if (pb_len b <=? Z.of_nat (length (pb_slice b))) && (Z.of_nat (length src) <=? pb_len b)
  then Ok (mkPinned (src ++ drop (length src) (pb_slice b)) (pb_len b)) else Panic.

(** ** Host buffers ([class.rs], [host.rs]) *)

Inductive MemoryClass := Pinned | Pageable.

Definition MemoryClass_display (c : MemoryClass) : string :=
  match c with Pinned => "pinned" | Pageable => "pageable" end.

Inductive HostInner := InPageable (b : AlignedBuf) | InPinned (b : PinnedBuf).

Record HostAlloc := mkHost { ha_class : MemoryClass; ha_inner : HostInner }.

Definition HostAlloc_pageable `{Allocator} (len : Z) : result HostAlloc :=
  b ← AlignedBuf_host len;
  Ok (mkHost Pageable (InPageable b)).

Definition HostAlloc_from_pinned (b : PinnedBuf) : HostAlloc := mkHost Pinned (InPinned b).

(** [PinnedProvider::alloc_pinned] is the argument. *)
Definition pinned_or_pageable `{Allocator} (len : Z)
    (provider : option (Z → result HostAlloc)) : result HostAlloc :=
  match provider with
  | Some alloc_pinned =>
      match alloc_pinned len with
      | Ok buf => Ok buf
      | Err _ => HostAlloc_pageable len
      | Panic => Panic
      end
  | None => HostAlloc_pageable len
  end.

(** [CudaPinnedProvider]. *)
Definition cuda_provider `{CudaDriver} (len : Z) : result HostAlloc :=
  HostAlloc_from_pinned <$> PinnedBuf_alloc len.

Definition ha_len (h : HostAlloc) : Z :=
  match ha_inner h with InPageable b => ab_len b | InPinned b => pb_len b end.

Definition ha_is_empty (h : HostAlloc) : bool := ha_len h =? 0.

Definition ha_as_slice `{CudaDriver} (h : HostAlloc) : result (list Z) :=
  match ha_inner h with InPageable b => ab_as_slice b | InPinned b => pb_as_slice b end.

(** [as_mut_slice()?[..src.len()].copy_from_slice(src)]. *)
Definition ha_write_prefix `{CudaDriver} (h : HostAlloc) (src : list Z) : result HostAlloc :=
  match ha_inner h with
  | InPageable b => (λ b, mkHost (ha_class h) (InPageable b)) <$> ab_write_prefix b src
  | InPinned b => (λ b, mkHost (ha_class h) (InPinned b)) <$> pb_write_prefix b src
  end.

(** ** Properties *)

(** What every aligned buffer satisfies: the allocation holds the logical
    length, is a non-empty multiple of the alignment and starts aligned. *)
Record aligned_ok (b : AlignedBuf) : Prop := {
  ao_len : 0 ≤ ab_len b ≤ capacity b;
  ao_align : 0 < ab_align b ≤ capacity b;
  ao_multiple : (ab_align b | capacity b);
  ao_ptr : (ab_align b | ab_ptr b);
  ao_bytes : Z.of_nat (length (ab_bytes b)) = capacity b;
}.

Lemma zeroed_spec `{AllocatorLaw} len align b :
  0 ≤ len → len + align ≤ U64 → AlignedBuf_zeroed len align = Ok b →
  aligned_ok b ∧ ab_len b = len ∧ ab_align b = align ∧
  ab_bytes b = replicate (Z.to_nat (capacity b)) 0.
Proof.
  intros Hlen Hfit Hz. unfold AlignedBuf_zeroed in Hz.
  apply bind_Ok_inv in Hz as (w & [-> (k & Hk & ->)]%BufferLayout_new_Ok & Hz).
  assert (0 < 2 ^ k) by by apply Z.pow_pos_nonneg.
  destruct (padded_len_spec (mkLayout len (2 ^ k))) as [[Hlo _] [q Hq]];
    [done|cbn [bl_len bl_align] in *].
  apply bind_Ok_inv in Hz as (lay & Hl & Hz).
  apply bind_Ok_inv in Hz as (p & Hp & [= <-]).
  apply ok_or_Ok_inv in Hl, Hp. unfold Layout_from_size_align in Hl.
  destruct (_ && _); [|done]. injection Hl as <-.
  apply alloc_law in Hp as [? Hp]; [|done].
  split; [|done]. unfold capacity, ab_align. split; cbn; [lia|lia| |done|].
  - rewrite Hq. destruct (Z.max_spec (q * 2 ^ k) (2 ^ k)) as [[_ ->]|[_ ->]];
      [by exists 1; lia|by exists q].
  - rewrite length_replicate. lia.
Qed.

(** Reading and overwriting the front of a sound buffer. *)
Lemma ab_as_slice_ok b :
  aligned_ok b → ∃ cur, ab_as_slice b = Ok cur ∧ Z.of_nat (length cur) = ab_len b.
Proof.
  intros [Hlen _ _ _ Hbytes]. unfold ab_as_slice. rewrite (proj2 (Z.leb_le _ _)) by lia.
  eexists. split; [done|]. rewrite length_take. lia.
Qed.

Lemma ab_write_prefix_ok b cur src :
  aligned_ok b → ab_as_slice b = Ok cur → Z.of_nat (length src) ≤ ab_len b →
  ∃ b', ab_write_prefix b src = Ok b' ∧ aligned_ok b' ∧ ab_len b' = ab_len b ∧
    ab_as_slice b' = Ok (src ++ drop (length src) cur).
Proof.
  intros [Hlen Ha Hm Hp Hbytes] Hcur Hs. unfold ab_as_slice, ab_write_prefix in *.
  rewrite (proj2 (Z.leb_le (ab_len b) _)) in * by lia. injection Hcur as <-.
  rewrite (proj2 (Z.leb_le _ (ab_len b))) by lia. eexists. split; [done|]. split.
  { split; unfold capacity, ab_align in *; cbn; [done..|].
    rewrite length_app, length_drop. lia. }
  split; [done|]. cbn. unfold capacity in *. cbn. rewrite (proj2 (Z.leb_le _ _)) by lia.
  f_equal. rewrite take_app, (take_ge src) by lia. f_equal.
  rewrite skipn_firstn_comm. done.
Qed.

Lemma take_replicate_le n m (x : Z) : (n ≤ m)%nat → take n (replicate m x) = replicate n x.
Proof. intros. rewrite take_replicate. f_equal. lia. Qed.

(** an aligned buffer whose rounding stays within 64 bits owns at least
    its logical length, in a non-empty multiple of its alignment at an aligned
    address, and reads as zeros: every slice the type hands out lies inside
    the allocation. *)
Theorem aligned_buf_sound `{AllocatorLaw} len align b :
  0 ≤ len → len + align ≤ U64 → AlignedBuf_zeroed len align = Ok b →
  aligned_ok b ∧ ab_as_slice b = Ok (replicate (Z.to_nat len) 0) ∧
  ∀ src, Z.of_nat (length src) ≤ len →
    ∃ b', ab_write_prefix b src = Ok b' ∧ aligned_ok b' ∧
      ab_as_slice b' = Ok (src ++ replicate (Z.to_nat len - length src)%nat 0).
Proof.
  intros Hlen Hfit Hz. destruct (zeroed_spec _ _ _ Hlen Hfit Hz) as (Hok & Hl & Ha & Hb).
  pose proof Hok as [Hol Hoa Hom Hop Hob]. rewrite Hl in Hol.
  split; [done|].
  assert (ab_as_slice b = Ok (replicate (Z.to_nat len) 0)) as Hslice.
  { unfold ab_as_slice. rewrite Hl, Hb, (proj2 (Z.leb_le _ _)) by lia.
    by rewrite take_replicate_le by lia. }
  split; [done|]. intros src Hs.
  destruct (ab_write_prefix_ok b _ src Hok Hslice) as (b' & Hw & Hok' & _ & Hs'); [lia|].
  exists b'. split; [done|]. split; [done|]. by rewrite Hs', drop_replicate.
Qed.

(** The bound is needed: in a build without overflow checks the rounding of
    [usize::MAX] wraps to zero, and the buffer claims [usize::MAX] bytes of a
    64-byte allocation. *)
Lemma zeroed_wraps `{Allocator} p :
  alloc_zeroed 64 64 = Some p →
  ∃ b, AlignedBuf_zeroed (U64 - 1) 64 = Ok b ∧ capacity b = 64 ∧ ab_len b = U64 - 1 ∧
    ab_as_slice b = Panic.
Proof.
  intros Hp. unfold AlignedBuf_zeroed.
  change (BufferLayout_new (U64 - 1) 64) with (@Ok EngineError _ (mkLayout (U64 - 1) 64)).
  cbn [mbind res_bind]. replace (Z.max _ 64) with 64 by reflexivity.
  replace (Layout_from_size_align 64 64) with (Some (mkAllocLayout 64 64)) by reflexivity.
  cbn [ok_or mbind res_bind]. rewrite Hp. eexists. split; [reflexivity|]. done.
Qed.

Module MemoryExample.
#[local] Instance bump : Allocator := λ size align, Some (align * 16).
#[local] Instance bump_law : AllocatorLaw.
Proof. intros size align p Ha [= <-]. split; [lia|]. by exists 16; lia. Qed.

Lemma aligned_buf_sound_witness :
  ∃ b, AlignedBuf_zeroed 5 8 = Ok b ∧ aligned_ok b ∧
  ab_as_slice b = Ok (replicate 5 0) ∧
  ∀ src, Z.of_nat (length src) ≤ 5 →
    ∃ b', ab_write_prefix b src = Ok b' ∧ aligned_ok b' ∧
      ab_as_slice b' = Ok (src ++ replicate (5 - length src)%nat 0).
Proof.
  eexists. split; [reflexivity|].
  apply (aligned_buf_sound 5 8); [lia|vm_compute; discriminate|reflexivity].
Defined.
End MemoryExample.
