(* ===== verification/ArrowKernels.v ===== *)
(** * The Arrow functions the repository calls

    The [arrow] crate is not part of the repository, so its functions are the
    operations of a class and what the repository relies on is a second class
    of laws: the documented behaviour of the comparison, boolean, filter and
    take kernels and of the [RecordBatch] constructors.  [ReferenceArrow] is a
    concrete implementation that meets the laws; examples run on it. *)

From S2P Require Import Prelude Floats Arrow Core.

(** A [BooleanArray] is a list of nullable booleans. *)
Abbreviation mask := (list (option bool)).
Abbreviation arrow_result := (res ArrowError).

Class ArrowKernels := {
  cmp_eq : Array → Array → arrow_result mask;
  cmp_lt : Array → Array → arrow_result mask;
  cmp_lt_eq : Array → Array → arrow_result mask;
  cmp_gt : Array → Array → arrow_result mask;
  cmp_gt_eq : Array → Array → arrow_result mask;
  and_kleene : mask → mask → arrow_result mask;
  filter_record_batch : RecordBatch → mask → arrow_result RecordBatch;
  arrow_take : Array → list Z → arrow_result Array;
  (** [take] with an index column instead of a vector of positions *)
  arrow_take_at : Array → Array → arrow_result Array;
  batch_try_new : Schema → list Array → arrow_result RecordBatch;
  batch_project : RecordBatch → list nat → arrow_result RecordBatch;
  schema_project : Schema → list nat → arrow_result Schema;
  concat_batches : Schema → list RecordBatch → arrow_result RecordBatch;
}.

(** ** What the laws speak of *)

(** Three-valued conjunction: false wins over null. *)
Definition kleene_and (a b : option bool) : option bool :=
  match a, b with
  | Some false, _ | _, Some false => Some false
  | Some true, Some true => Some true
  | _, _ => None
  end.

(** The rows of [l] whose mask entry is true (a null entry drops the row). *)
Fixpoint mask_filter {A} (m : mask) (l : list A) : list A :=
  match m, l with
  | Some true :: m, x :: l => x :: mask_filter m l
  | _ :: m, _ :: l => mask_filter m l
  | _, _ => []
  end.

Definition mask_count (m : mask) : nat := length (filter (λ o, o = Some true) m).

(** The elements of [l] at the positions [idx]. *)
Definition gather {A} (l : list A) (idx : list Z) : list A :=
  omap (λ i, if i <? 0 then None else l !! Z.to_nat i) idx.

Definition in_bounds (n : nat) (idx : list Z) : Prop :=
  Forall (λ i, 0 ≤ i < Z.of_nat n) idx.

Definition array_take (a : Array) (idx : list Z) : Array :=
  mkArray (data_type a) (gather (values a) idx).
Definition array_filter (m : mask) (a : Array) : Array :=
  mkArray (data_type a) (mask_filter m (values a)).

(** The rows of several batches one after the other, under the schema [s]. *)
Definition column_values (b : RecordBatch) (i : nat) : list (option Value) :=
  match columns b !! i with Some a => values a | None => [] end.
Definition batches_concat (s : Schema) (bs : list RecordBatch) : RecordBatch :=
  mkBatch s (imap (λ i f, mkArray (field_type_of f) (bs ≫= λ b, column_values b i)) (fields s))
          (sum_list (num_rows <$> bs)).

(** [cmp::<op>] of a comparison outcome. *)
Definition ord_holds (op : Comparison) (c : comparison) : bool :=
  match op, c with
  | CEq, Datatypes.Eq | CLt, Datatypes.Lt | CGt, Datatypes.Gt
  | CLtEq, (Datatypes.Eq | Datatypes.Lt) | CGtEq, (Datatypes.Eq | Datatypes.Gt) => true
  | _, _ => false
  end.

(** The order of a value against a literal of its type: integers numerically,
    floats by the IEEE total order. *)
Definition value_cmp (v : Value) (l : Literal) : comparison :=
  match l with
  | LInt64 k => Z.compare (as_int v) k
  | LFloat64 f => f64_total_cmp (as_f64 v) f
  end.

(** The one-element array a literal is wrapped in. *)
Definition literal_scalar (l : Literal) : Array :=
  match l with
  | LInt64 v => Int64Array_of [Some v]
  | LFloat64 v => Float64Array_of [Some v]
  end.

Definition cmp_kernel `{ArrowKernels} (op : Comparison) : Array → Array → arrow_result mask :=
  match op with
  | CEq => cmp_eq | CLt => cmp_lt | CLtEq => cmp_lt_eq | CGt => cmp_gt | CGtEq => cmp_gt_eq
  end.

Class ArrowLaws `{ArrowKernels} : Prop := {
  cmp_law a op lit :
    data_type a = literal_data_type lit →
    cmp_kernel op a (literal_scalar lit)
    = Ok (option_map (λ v, ord_holds op (value_cmp v lit)) <$> values a);
  and_kleene_law m1 m2 :
    length m1 = length m2 → and_kleene m1 m2 = Ok (zip_with kleene_and m1 m2);
  filter_law b m :
    batch_ok b → length m = num_rows b →
    filter_record_batch b m
    = Ok (mkBatch (schema b) (array_filter m <$> columns b) (mask_count m));
  take_law a idx :
    in_bounds (array_len a) idx → arrow_take a idx = Ok (array_take a idx);
  take_at_law a idx :
    in_bounds (array_len a) idx →
    arrow_take_at a (Int64Array_of (Some <$> idx)) = Ok (array_take a idx);
  try_new_law s c cs :
    batch_ok (mkBatch s (c :: cs) (array_len c)) →
    batch_try_new s (c :: cs) = Ok (mkBatch s (c :: cs) (array_len c));
  (** without a row count, a batch needs a column to take it from *)
  try_new_empty_law s : ∃ e, batch_try_new s [] = Err e;
  project_law b idx fs cs :
    mapM (λ i, fields (schema b) !! i) idx = Some fs →
    mapM (λ i, columns b !! i) idx = Some cs →
    batch_project b idx = Ok (mkBatch (mkSchema fs (schema_metadata (schema b))) cs (num_rows b));
  project_range_law b idx i :
    i ∈ idx → (num_columns b ≤ i)%nat → ∃ e, batch_project b idx = Err e;
  schema_project_law s idx fs :
    mapM (λ i, fields s !! i) idx = Some fs →
    schema_project s idx = Ok (mkSchema fs (schema_metadata s));
  schema_project_range_law s idx i :
    i ∈ idx → (length (fields s) ≤ i)%nat → ∃ e, schema_project s idx = Err e;
  (** the schemas of the batches are ignored, their columns are not *)
  concat_law s bs :
    Forall (λ b, batch_ok (mkBatch s (columns b) (num_rows b))) bs →
    concat_batches s bs = Ok (batches_concat s bs);
}.

(** ** Lemmas on masks and gathers *)

Lemma mask_filter_fmap {A B} (f : A → B) m l :
  mask_filter m (f <$> l) = f <$> mask_filter m l.
Proof.
  revert l. induction m as [|[[]|] m IH]; intros [|x l]; cbn; rewrite ?IH; done.
Qed.

Lemma length_mask_filter {A} m (l : list A) :
  length m = length l → length (mask_filter m l) = mask_count m.
Proof.
  unfold mask_count. revert l.
  induction m as [|[[]|] m IH]; intros [|x l] [=]; cbn; rewrite ?IH; done.
Qed.

Lemma elem_of_mask_filter {A} m (l : list A) x : x ∈ mask_filter m l → x ∈ l.
Proof.
  revert l. induction m as [|[[]|] m IH]; intros [|y l]; cbn; set_solver.
Qed.

Lemma gather_nil {A} (l : list A) : gather l [] = [].
Proof. done. Qed.

Lemma gather_app {A} (l : list A) i j : gather l (i ++ j) = gather l i ++ gather l j.
Proof. apply omap_app. Qed.

Lemma gather_cons {A} (l : list A) i idx x :
  l !! i = Some x → gather l (Z.of_nat i :: idx) = x :: gather l idx.
Proof.
  intros H. unfold gather. cbn. destruct (Z.ltb_spec (Z.of_nat i) 0); [lia|].
  by rewrite Nat2Z.id, H.
Qed.

Lemma length_gather {A} (l : list A) idx :
  in_bounds (length l) idx → length (gather l idx) = length idx.
Proof.
  induction 1 as [|i idx Hi _ IH]; [done|]. unfold gather in *. cbn.
  destruct (Z.ltb_spec i 0); [lia|].
  destruct (lookup_lt_is_Some_2 l (Z.to_nat i)) as [x Hx]; [lia|].
  rewrite Hx. cbn. by rewrite IH.
Qed.

Lemma gather_lookup {A} (l : list A) idx k z :
  in_bounds (length l) idx → idx !! k = Some z → gather l idx !! k = l !! Z.to_nat z.
Proof.
  intros Hin. revert k. induction Hin as [|i idx Hi Hin IH]; intros k Hk; [done|].
  destruct (lookup_lt_is_Some_2 l (Z.to_nat i)) as [x Hx]; [lia|].
  rewrite <- (Z2Nat.id i) by lia. rewrite (gather_cons l _ idx x Hx).
  destruct k as [|k]; [injection Hk as <-; by rewrite Hx|]. by apply IH.
Qed.

Lemma elem_of_gather {A} (l : list A) idx x : x ∈ gather l idx → x ∈ l.
Proof.
  unfold gather. rewrite list_elem_of_omap. intros (i & _ & H).
  destruct (i <? 0); [done|]. by eapply list_elem_of_lookup_2.
Qed.

Lemma gather_fmap {A B} (f : A → B) l idx : gather (f <$> l) idx = f <$> gather l idx.
Proof.
  unfold gather. induction idx as [|i idx IH]; [done|]. cbn.
  destruct (i <? 0); [done|]. rewrite list_lookup_fmap.
  destruct (l !! Z.to_nat i); cbn; by rewrite IH.
Qed.

(** Filtering by a mask is gathering the positions where it is true. *)
Definition true_positions (m : mask) : list Z :=
  omap (λ '(i, o), if decide (o = Some true) then Some (Z.of_nat i) else None)
       (imap (λ i o, (i, o)) m).

Lemma mask_filter_gather_aux {A} m (l k : list A) :
  length m = length l →
  mask_filter m l =
  omap (λ '(i, o), if decide (o = Some true) then (k ++ l) !! i else None)
       (imap (λ i o, ((length k + i)%nat, o)) m).
Proof.
  revert l k. induction m as [|o m IH]; intros [|x l] k; try done. intros [= Hlen].
  assert (mask_filter m l =
    omap (λ '(i, o), if decide (o = Some true) then (k ++ x :: l) !! i else None)
       (imap (λ i o, ((length k + S i)%nat, o)) m)) as Hrest.
  { rewrite (IH l (k ++ [x])) by done. rewrite <- app_assoc. cbn. f_equal.
    apply imap_ext. intros i p _. f_equal. rewrite length_app. cbn. lia. }
  cbn [mask_filter imap omap list_omap].
  assert ((k ++ x :: l) !! (length k + 0)%nat = Some x) as Hx.
  { rewrite Nat.add_0_r. by apply list_lookup_middle. }
  destruct (decide (o = Some true)) as [->|Hne].
  - rewrite Hx. f_equal. exact Hrest.
  - destruct o as [[]|]; [done| |]; exact Hrest.
Qed.

Lemma mask_filter_gather {A} m (l : list A) :
  length m = length l → mask_filter m l = gather l (true_positions m).
Proof.
  intros Hlen. rewrite (mask_filter_gather_aux m l []) by done.
  unfold gather, true_positions.
  change (imap (λ i o, ((length (@nil A) + i)%nat, o)) m) with (imap (λ i o, (i, o)) m).
  generalize (imap (λ i o, (i, o)) m) as z.
  intros z. induction z as [|[i o] z IH]; [done|]. cbn.
  destruct (decide (o = Some true)); [|exact IH]. cbn.
  destruct (Z.ltb_spec (Z.of_nat i) 0); [lia|]. rewrite Nat2Z.id.
  destruct (l !! i); [f_equal; exact IH | exact IH].
Qed.

(** ** Columns stay well formed *)

Lemma column_ok_sub f a vs :
  column_ok f a = true → (∀ o, o ∈ vs → o ∈ values a) →
  column_ok f (mkArray (data_type a) vs) = true.
Proof.
  unfold column_ok, array_ok. rewrite !andb_true_iff, !orb_true_iff. cbn.
  rewrite !forallb_forall. setoid_rewrite list_elem_of_In.
  intros [[Ht Ha] Hn] Hsub. repeat split; [done| |].
  - intros o Ho. apply Ha. by apply Hsub.
  - destruct Hn as [Hn|Hn]; [by left|right]. intros o Ho. by apply Hn, Hsub.
Qed.

Lemma column_ok_take f a idx : column_ok f a = true → column_ok f (array_take a idx) = true.
Proof. intros H. apply column_ok_sub; [done|]. apply elem_of_gather. Qed.

Lemma column_ok_filter f a m : column_ok f a = true → column_ok f (array_filter m a) = true.
Proof. intros H. apply column_ok_sub; [done|]. apply elem_of_mask_filter. Qed.

Lemma batch_ok_filter b m :
  batch_ok b → length m = num_rows b →
  batch_ok (mkBatch (schema b) (array_filter m <$> columns b) (mask_count m)).
Proof.
  intros Hb Hm. unfold batch_ok. cbn [schema columns num_rows]. apply Forall2_fmap_r.
  eapply Forall2_impl; [exact Hb|]. intros f a [Hok Hlen]. split.
  - by apply column_ok_filter.
  - unfold array_len, array_filter. cbn. apply length_mask_filter.
    unfold array_len in Hlen. lia.
Qed.

(** ** A reference implementation *)

Definition scalar_of (a : Array) : option Literal :=
  match values a with
  | [Some (VInt v)] => if decide (data_type a = Int64) then Some (LInt64 v) else None
  | [Some (VF64 v)] => if decide (data_type a = Float64) then Some (LFloat64 v) else None
  | _ => None
  end.

Definition ref_cmp (op : Comparison) (a s : Array) : arrow_result mask :=
  match scalar_of s with
  | Some lit =>
      if decide (data_type a = literal_data_type lit)
      then Ok (option_map (λ v, ord_holds op (value_cmp v lit)) <$> values a)
      else Err (ArrowErr "cannot compare")
  | None => Err (ArrowErr "cannot compare")
  end.

Definition ref_try_new (s : Schema) (cs : list Array) : arrow_result RecordBatch :=
  match cs with
  | [] => Err (ArrowErr "must either specify a row count or at least one column")
  | c :: _ =>
      let b := mkBatch s cs (array_len c) in
      if decide (batch_ok b) then Ok b else Err (ArrowErr "columns do not match the schema")
  end.

#[export] Instance ReferenceArrow : ArrowKernels := {|
  cmp_eq := ref_cmp CEq; cmp_lt := ref_cmp CLt; cmp_lt_eq := ref_cmp CLtEq;
  cmp_gt := ref_cmp CGt; cmp_gt_eq := ref_cmp CGtEq;
  and_kleene m1 m2 :=
    if decide (length m1 = length m2) then Ok (zip_with kleene_and m1 m2)
    else Err (ArrowErr "length mismatch");
  filter_record_batch b m :=
    Ok (mkBatch (schema b) (array_filter m <$> columns b) (mask_count m));
  arrow_take a idx := Ok (array_take a idx);
  arrow_take_at a ids :=
    match downcast_int64 ids with
    | Some l => Ok (mkArray (data_type a)
                      ((λ o, match o with
                             | Some i => default None (values a !! Z.to_nat i)
                             | None => None end) <$> l))
    | None => Err (ArrowErr "index type not supported")
    end;
  batch_try_new := ref_try_new;
  batch_project b idx :=
    match mapM (λ i, fields (schema b) !! i) idx, mapM (λ i, columns b !! i) idx with
    | Some fs, Some cs =>
        Ok (mkBatch (mkSchema fs (schema_metadata (schema b))) cs (num_rows b))
    | _, _ => Err (ArrowErr "project index out of bounds")
    end;
  schema_project s idx :=
    match mapM (λ i, fields s !! i) idx with
    | Some fs => Ok (mkSchema fs (schema_metadata s))
    | None => Err (ArrowErr "project index out of bounds")
    end;
  concat_batches s bs := Ok (batches_concat s bs);
|}.

Lemma mapM_lookup_out {A} (l : list A) idx i :
  i ∈ idx → (length l ≤ i)%nat → mapM (λ j, l !! j) idx = None.
Proof.
  intros Hi Hlen. apply eq_None_not_Some. intros [k Hk].
  apply mapM_Some_1 in Hk. destruct (list_elem_of_lookup_1 _ _ Hi) as [p Hp].
  destruct (Forall2_lookup_l _ _ _ _ _ Hk Hp) as (x & _ & Hx).
  apply lookup_lt_Some in Hx. lia.
Qed.

Lemma downcast_int64_of l : downcast_int64 (Int64Array_of l) = Some l.
Proof.
  unfold downcast_int64. rewrite decide_True by done. cbn. f_equal.
  rewrite <- list_fmap_compose. induction l as [|[z|] l IH]; cbn; [done|f_equal; exact IH..].
Qed.

#[export] Instance ReferenceArrowLaws : ArrowLaws.
Proof.
  split; cbn.
  - intros a op [v|v] Ht; destruct op; cbn; unfold ref_cmp, scalar_of; cbn;
      rewrite (decide_True (P := _ = _)) by done; by rewrite decide_True.
  - intros m1 m2 H. by rewrite decide_True.
  - done.
  - done.
  - intros a idx Hidx. rewrite downcast_int64_of. unfold array_take. do 2 f_equal.
    rewrite <- list_fmap_compose. unfold array_len, gather in *.
    induction Hidx as [|i idx Hi _ IH]; [done|]. cbn.
    destruct (Z.ltb_spec i 0); [lia|].
    destruct (lookup_lt_is_Some_2 (values a) (Z.to_nat i)) as [x Hx]; [lia|].
    rewrite Hx. cbn. f_equal. exact IH.
  - intros s c cs H. unfold ref_try_new. by rewrite decide_True.
  - eauto.
  - intros b idx fs cs -> ->. done.
  - intros b idx i Hi Hr. rewrite (mapM_lookup_out (columns b) idx i) by done.
    destruct (mapM _ idx); eauto.
  - intros s idx fs ->. done.
  - intros s idx i Hi Hr. rewrite (mapM_lookup_out (fields s) idx i) by done. eauto.
  - done.
Qed.
