(* ===== verification/Kernels.v ===== *)
(** * The CPU reference kernels

    Models [src/crates/oxidelake-device/src/cpu/kernels.rs]: predicate
    evaluation and the fused filter, the hash-join table and its probe, the
    grouped aggregate and the vector distances.  The Arrow functions are those
    of [ArrowKernels]; the iteration order of a [HashMap], which the standard
    library leaves unspecified, is the operation of [HashOrder].  The
    properties are in [FilterCorrect], [JoinCorrect] and [AggregateCorrect]. *)

From S2P Require Import Prelude Floats Arrow Core ArrowKernels.

(** [for (k, v) in map]: some order of the entries. *)
Class HashOrder := hash_iter : gmap Z Z → list (Z * Z).
Class HashOrderLaw `{HashOrder} : Prop :=
  hash_iter_law m : hash_iter m ≡ₚ map_to_list m.

(** ** Access to columns *)

Definition column (b : RecordBatch) (i : nat) : result Array :=
  ok_or (columns b !! i) (Plan "column index out of range").

Definition int64_column (b : RecordBatch) (i : nat) : result (list (option Z)) :=
  col ← column b i;
  ok_or (downcast_int64 col) (Unsupported "cpu.int64_column" "v1 supports Int64").

Definition index_u32 (i : nat) : result Z :=
  if Z.of_nat i <=? u32_max then Ok (Z.of_nat i)
  else Err (Execution "batch exceeds u32::MAX rows").

(** [&v[a..b]]. *)
Definition slice {E A} (l : list A) (a b : Z) : res E (list A) :=
  if (0 <=? a) && (a <=? b) && (b <=? Z.of_nat (length l))
  then Ok (take (Z.to_nat (b - a)) (drop (Z.to_nat a) l)) else Panic.

(** ** Filter *)

Fixpoint evaluate_predicate `{ArrowKernels} (b : RecordBatch) (p : Predicate) : result mask :=
  match p with
  | Compare idx op literal =>
      col ← column b idx;
      if decide (data_type col = literal_data_type literal) then
        map_err ArrowE (cmp_kernel op col (literal_scalar literal))
      else Err (Unsupported "cpu.filter" "column and literal types differ")
  | And p1 p2 =>
      l ← evaluate_predicate b p1;
      r ← evaluate_predicate b p2;
      map_err ArrowE (and_kleene l r)
  end.

Definition filter_project `{ArrowKernels} (b : RecordBatch) (p : Predicate)
    (projection : list nat) : result RecordBatch :=
  m ← evaluate_predicate b p;
  projected ← map_err ArrowE (batch_project b projection);
  map_err ArrowE (filter_record_batch projected m).

(** ** The key hasher *)

Definition rotate_left (x n : Z) : Z :=
  Z.lor (wrap64 (Z.shiftl x n)) (Z.shiftr x (64 - n)).

Definition KeyHasher_finish (z : Z) : Z :=
  let z := wmul64 (Z.lxor z (Z.shiftr z 30)) 0xBF58476D1CE4E5B9 in
  let z := wmul64 (Z.lxor z (Z.shiftr z 27)) 0x94D049BB133111EB in
  Z.lxor z (Z.shiftr z 31).

(** [u64::from_le_bytes] of at most eight bytes, the missing ones zero. *)
Fixpoint from_le_bytes (bytes : list Z) : Z :=
  match bytes with [] => 0 | b :: bytes => b + 256 * from_le_bytes bytes end.

Definition KeyHasher_write_word (s w : Z) : Z := Z.lxor (rotate_left s 5) w.

(** [write] folds the chunks of eight bytes; the fuel is the byte count. *)
Fixpoint write_chunks (fuel : nat) (s : Z) (bytes : list Z) : Z :=
  match fuel, bytes with
  | S fuel, _ :: _ =>
      write_chunks fuel (KeyHasher_write_word s (from_le_bytes (take 8 bytes))) (drop 8 bytes)
  | _, _ => s
  end.
Definition KeyHasher_write (s : Z) (bytes : list Z) : Z := write_chunks (length bytes) s bytes.

(** [i as u64]. *)
Definition KeyHasher_write_i64 (s i : Z) : Z := KeyHasher_write_word s (wrap64 i).

(** The hash of an [i64] key under [BuildHasherDefault<KeyHasher>]. *)
Definition key_hash (k : Z) : Z := KeyHasher_finish (KeyHasher_write_i64 0 k).

(** ** The join table *)

Record JoinTable := mkTable { ranges : gmap Z (Z * Z); rows : list Z }.

(** Pass 1: [*counts.entry(key).or_insert(0) += 1] for every non-null key. *)
Definition count_key (m : gmap Z Z) (o : option Z) : gmap Z Z :=
  match o with
  | Some k => <[k := wrap32 (default 0 (m !! k) + 1)]> m
  | None => m
  end.
Definition count_keys (keys : list (option Z)) : gmap Z Z := foldl count_key ∅ keys.

(** Pass 2: prefix offsets in the map's iteration order. *)
Fixpoint assign_ranges (l : list (Z * Z)) (rs : gmap Z (Z * Z)) (next : Z) :
    result (gmap Z (Z * Z) * Z) :=
  match l with
  | [] => Ok (rs, next)
  | (k, c) :: l =>
      let rs := <[k := (next, c)]> rs in
      if next + c <=? u32_max then assign_ranges l rs (next + c)
      else Err (Execution "build side exceeds u32::MAX rows")
  end.

(** Pass 3: scatter the row numbers; [j] is the number of the next row. *)
Fixpoint scatter (keys : list (option Z)) (j : nat) (cursor : gmap Z Z) (rs : list Z) :
    result (list Z) :=
  match keys with
  | [] => Ok rs
  | None :: keys => scatter keys (S j) cursor rs
  | Some k :: keys =>
      match cursor !! k with
      | Some slot =>
          v ← index_u32 j;
          if slot <? Z.of_nat (length rs) then
            scatter keys (S j) (<[k := wrap32 (slot + 1)]> cursor) (<[Z.to_nat slot := v]> rs)
          else Panic
      | None => scatter keys (S j) cursor rs
      end
  end.

Definition JoinTable_build `{HashOrder} (build : RecordBatch) (key : nat) : result JoinTable :=
  keys ← int64_column build key;
  '(rs, next) ← assign_ranges (hash_iter (count_keys keys)) ∅ 0;
  rows ← scatter keys 0 (fst <$> rs) (replicate (Z.to_nat next) 0);
  Ok (mkTable rs rows).

Definition JoinTable_matches (t : JoinTable) (key : Z) : result (list Z) :=
  match ranges t !! key with
  | Some (start, len) => slice (rows t) start (wrap32 (start + len))
  | None => Ok []
  end.

Definition distinct_keys (t : JoinTable) : nat := size (ranges t).
Definition JoinTable_rows (t : JoinTable) : nat := length (rows t).

(** The probe loop of [hash_join_probe]: the matched row pairs, as two index
    vectors. *)
Fixpoint probe_rows (t : JoinTable) (i : nat) (lk : list (option Z)) (li ri : list Z) :
    result (list Z * list Z) :=
  match lk with
  | [] => Ok (li, ri)
  | None :: lk => probe_rows t (S i) lk li ri
  | Some k :: lk =>
      ms ← JoinTable_matches t k;
      if bool_decide (ms = []) then probe_rows t (S i) lk li ri
      else
        n ← index_u32 i;
        probe_rows t (S i) lk (li ++ replicate (length ms) n) (ri ++ ms)
  end.

(** One output column: column [i] of the concatenation of both sides, gathered
    at the matched rows of its side. *)
Definition join_cell `{ArrowKernels} (left right : RecordBatch) (left_idx right_idx : list Z)
    (i : nat) : result (Field * Array) :=
  let all_fields := fields (schema left) ++ fields (schema right) in
  let width := num_columns left in
  field ← ok_or (all_fields !! i) (Plan "join projection index out of range");
  array ← (if (i <? width)%nat
           then c ← index (columns left) i; map_err ArrowE (arrow_take c left_idx)
           else c ← index (columns right) (i - width); map_err ArrowE (arrow_take c right_idx));
  Ok (field, array).

Definition hash_join_probe `{ArrowKernels} (left : RecordBatch) (left_key : nat)
    (right : RecordBatch) (table : JoinTable) (projection : option (list nat)) :
    result RecordBatch :=
  lk ← int64_column left left_key;
  '(left_idx, right_idx) ← probe_rows table 0 lk [] [];
  let all_fields := fields (schema left) ++ fields (schema right) in
  let selected := match projection with
                  | Some indices => indices
                  | None => seq 0 (length all_fields)
                  end in
  cells ← mapM (join_cell left right left_idx right_idx) selected;
  map_err ArrowE (batch_try_new (Schema_new (fst <$> cells)) (snd <$> cells)).

Definition hash_join `{ArrowKernels, HashOrder} (left right : RecordBatch)
    (left_key right_key : nat) : result RecordBatch :=
  table ← JoinTable_build right right_key;
  hash_join_probe left left_key right table None.

(** ** Aggregate *)

Definition wrap_i64 (z : Z) : Z := (z + 2 ^ 63) mod 2 ^ 64 - 2 ^ 63.
Definition wrap_i128 (z : Z) : Z := (z + 2 ^ 127) mod 2 ^ 128 - 2 ^ 127.

Inductive Acc :=
  | AccI64 (count sum min max : Z)
  | AccF64 (count : Z) (sum min max : f64).

Definition Acc_for_type (dt : DataType) : result Acc :=
  match dt with
  | Int64 => Ok (AccI64 0 0 i64_max i64_min)
  | Float64 => Ok (AccF64 0 f64_zero f64_infinity f64_neg_infinity)
  | _ => Err (Unsupported "cpu.aggregate" "v1 supports Int64 and Float64")
  end.

Inductive Input := InI (l : list (option Z)) | InF (l : list (option f64)).

Definition agg_input (b : RecordBatch) (idx : nat) : result Input :=
  col ← column b idx;
  ok_or (match data_type col with
         | Int64 => InI <$> downcast_int64 col
         | Float64 => InF <$> downcast_float64 col
         | _ => None
         end) (Unsupported "cpu.aggregate" "v1 supports Int64 and Float64").

Definition input_type (i : Input) : DataType :=
  match i with InI _ => Int64 | InF _ => Float64 end.

(** One accumulator meets one row of its input. *)
Definition acc_update (a : Acc) (i : Input) (row : nat) : result Acc :=
  match a, i with
  | AccI64 count sum min max, InI arr =>
      o ← index arr row;
      Ok (match o with
          | Some v => AccI64 (wrap_i64 (count + 1)) (wrap_i128 (sum + v)) (Z.min min v) (Z.max max v)
          | None => a
          end)
  | AccF64 count sum min max, InF arr =>
      o ← index arr row;
      Ok (match o with
          | Some v => AccF64 (wrap_i64 (count + 1)) (f64_add sum v) (f64_min min v) (f64_max max v)
          | None => a
          end)
  | _, _ => Ok a
  end.

(** [accs[group].iter_mut().zip(&inputs)]. *)
Fixpoint update_accs (accs : list Acc) (inputs : list Input) (row : nat) : result (list Acc) :=
  match accs, inputs with
  | a :: accs, i :: inputs =>
      a ← acc_update a i row;
      accs ← update_accs accs inputs row;
      Ok (a :: accs)
  | _, _ => Ok accs
  end.

(** The loop state: group numbers by key, keys by group number, accumulators. *)
Record AggState := mkAgg {
  agg_index : gmap (option Z) nat;
  group_keys : list (option Z);
  agg_accs : list (list Acc);
}.

Definition group_of (s : AggState) (key : option Z) (inputs : list Input) :
    result (AggState * nat) :=
  match agg_index s !! key with
  | Some g => Ok (s, g)
  | None =>
      fresh ← mapM (λ i, Acc_for_type (input_type i)) inputs;
      let g := length (group_keys s) in
      Ok (mkAgg (<[key := g]> (agg_index s)) (group_keys s ++ [key]) (agg_accs s ++ [fresh]), g)
  end.

Fixpoint aggregate_rows (keys : list (option Z)) (inputs : list Input) (rws : list nat)
    (s : AggState) : result AggState :=
  match rws with
  | [] => Ok s
  | row :: rws =>
      key ← index keys row;
      '(s, g) ← group_of s key inputs;
      accs ← index (agg_accs s) g;
      accs ← update_accs accs inputs row;
      aggregate_rows keys inputs rws
        (mkAgg (agg_index s) (group_keys s) (<[g := accs]> (agg_accs s)))
  end.

(** The order of the output: by key, the null group last. *)
Definition key_le (a b : option Z) : Prop :=
  match a, b with
  | Some x, Some y => x ≤ y
  | None, Some _ => False
  | _, None => True
  end.
#[global] Instance key_le_dec : RelDecision key_le.
Proof. intros [x|] [y|]; cbn; apply _. Defined.

Definition group_le (gk : list (option Z)) (a b : nat) : Prop := key_le (gk !!! a) (gk !!! b).
#[global] Instance group_le_dec gk : RelDecision (group_le gk).
Proof. intros a b. apply key_le_dec. Defined.

Definition group_order (gk : list (option Z)) : list nat :=
  merge_sort (group_le gk) (seq 0 (length gk)).

Definition acc_count (a : Acc) : Z :=
  match a with AccI64 c _ _ _ | AccF64 c _ _ _ => c end.

(** The output cell of one group for one aggregate over an [Int64] input. *)
Definition int_cell (func : AggregateFunction) (a : Acc) : result (option Z) :=
  match func, a with
  | Count, _ => Ok (Some (acc_count a))
  | Sum, AccI64 c s _ _ =>
      if 0 <? c then
        if (i64_min <=? s) && (s <=? i64_max) then Ok (Some s)
        else Err (Execution "SUM overflowed Int64")
      else Ok None
  | Min, AccI64 c _ mn _ => Ok (if 0 <? c then Some mn else None)
  | Max, AccI64 c _ _ mx => Ok (if 0 <? c then Some mx else None)
  | _, AccF64 _ _ _ _ => Ok None
  end.

(** The output cell over a [Float64] input ([COUNT] excepted). *)
Definition float_cell (func : AggregateFunction) (a : Acc) : option f64 :=
  match func, a with
  | Sum, AccF64 c s _ _ => if 0 <? c then Some s else None
  | Min, AccF64 c _ mn _ => if 0 <? c then Some mn else None
  | Max, AccF64 c _ _ mx => if 0 <? c then Some mx else None
  | _, _ => None
  end.

(** The accumulators [accs[g][a]] for [g] in [order]. *)
Definition accs_in_order (accs : list (list Acc)) (order : list nat) (a : nat) :
    result (list Acc) :=
  mapM (λ g, row ← index accs g; index row a) order.

(** One output column: its field and its array. *)
Definition agg_column (b : RecordBatch) (inputs : list Input) (accs : list (list Acc))
    (order : list nat) (a : nat) (agg : AggregateFunction * nat) : result (Field * Array) :=
  let '(func, idx) := agg in
  f ← index (fields (schema b)) idx;
  let name := agg_name func +:+ "(" +:+ field_name f +:+ ")" in
  input ← index inputs a;
  cells ← accs_in_order accs order a;
  '(dt, array) ← match func, input with
    | Count, _ | _, InI _ =>
        out ← mapM (int_cell func) cells; Ok (Int64, Int64Array_of out)
    | _, InF _ => Ok (Float64, Float64Array_of (float_cell func <$> cells))
    end;
  Ok (Field_new name dt true, array).

(** The output columns, one per requested aggregate, from position [a] on. *)
Fixpoint agg_columns (b : RecordBatch) (inputs : list Input) (accs : list (list Acc))
    (order : list nat) (a : nat) (l : list (AggregateFunction * nat)) :
    result (list (Field * Array)) :=
  match l with
  | [] => Ok []
  | x :: l =>
      c ← agg_column b inputs accs order a x;
      cs ← agg_columns b inputs accs order (S a) l;
      Ok (c :: cs)
  end.

Definition aggregate `{ArrowKernels} (b : RecordBatch) (spec : AggregateSpec) :
    result RecordBatch :=
  keys ← int64_column b (group_by spec);
  inputs ← mapM (λ '(_, idx), agg_input b idx) (aggregates spec);
  s ← aggregate_rows keys inputs (seq 0 (num_rows b)) (mkAgg ∅ [] []);
  let order := group_order (group_keys s) in
  key_field ← index (fields (schema b)) (group_by spec);
  let key_col := Int64Array_of ((λ g, group_keys s !!! g) <$> order) in
  cols ← agg_columns b inputs (agg_accs s) order 0 (aggregates spec);
  map_err ArrowE
    (batch_try_new
       (Schema_new (Field_new (field_name key_field) Int64 true :: (fst <$> cols)))
       (key_col :: (snd <$> cols))).

(** ** Vector distance *)

Definition l2 (a b : list f32) : f32 :=
  f32_sqrt (f32_sum (zip_with (λ x y, f32_mul (f32_sub x y) (f32_sub x y)) a b)).

Definition cosine (a b : list f32) : f32 :=
  let dot := f32_sum (zip_with f32_mul a b) in
  let na := f32_sqrt (f32_sum ((λ x, f32_mul x x) <$> a)) in
  let nb := f32_sqrt (f32_sum ((λ y, f32_mul y y) <$> b)) in
  if f32_eqb na f32_zero || f32_eqb nb f32_zero then f32_nan
  else f32_sub f32_one (f32_div dot (f32_mul na nb)).

Definition distance (metric : DistanceMetric) (v query : list f32) : f32 :=
  match metric with L2 => l2 v query | Cosine => cosine v query end.

(** A row's vector is the [dim] child values from its offset on. *)
Definition row_distance (metric : DistanceMetric) (query : list f32) (dim : Z)
    (row : option Value) : result (option f32) :=
  match row with
  | None => Ok None
  | Some v =>
      raw ← slice (as_vec v) 0 dim;
      Ok (Some (distance metric raw query))
  end.

Definition vector_distance `{ArrowKernels} (b : RecordBatch) (column_index : nat)
    (query : list f32) (metric : DistanceMetric) (output_name : string) : result RecordBatch :=
  col ← column b column_index;
  '(item, dim) ← match data_type col with
    | FixedSizeList item n => Ok (item, n)
    | _ => Err (Unsupported "cpu.vector_distance" "expected FixedSizeList<Float32>")
    end;
  if negb (bool_decide (field_type_of item = Float32)) then
    Err (Unsupported "cpu.vector_distance" "expected Float32")
  else if dim <? 0 then Err (Plan "negative list size")
  else if negb (Z.of_nat (length query) =? dim) then
    Err (Plan "query vector and column dimensions differ")
  else
    distances ← mapM (λ row, o ← index (values col) row; row_distance metric query dim o)
                     (seq 0 (num_rows b));
    map_err ArrowE
      (batch_try_new
         (Schema_new (fields (schema b) ++ [Field_new output_name Float32 true]))
         (columns b ++ [Float32Array_of distances])).
