(* ===== verification/FilterCorrect.v ===== *)
(** * The fused filter keeps exactly the rows its predicate accepts

    Properties of [evaluate_predicate] and [filter_project] of [Kernels]: the
    mask is the row-wise three-valued meaning of the predicate, and the output
    is the projected batch restricted to the rows where it is true, in order;
    every error is the one of the leftmost ill-typed comparison. *)

From S2P Require Import Prelude Floats Arrow Core ArrowKernels Kernels.

(** ** The meaning of a predicate on one row *)

Fixpoint eval_row (b : RecordBatch) (p : Predicate) (i : nat) : option bool :=
  match p with
  | Compare c op lit =>
      col ← columns b !! c;
      cell ← values col !! i;
      v ← cell;
      Some (ord_holds op (value_cmp v lit))
  | And p1 p2 => kleene_and (eval_row b p1 i) (eval_row b p2 i)
  end.

(** The error of the leftmost comparison that the kernel does not accept. *)
Fixpoint pred_fault (b : RecordBatch) (p : Predicate) : option EngineError :=
  match p with
  | Compare c _ lit =>
      match columns b !! c with
      | None => Some (Plan "column index out of range")
      | Some col =>
          if decide (data_type col = literal_data_type lit) then None
          else Some (Unsupported "cpu.filter" "column and literal types differ")
      end
  | And p1 p2 =>
      match pred_fault b p1 with Some e => Some e | None => pred_fault b p2 end
  end.

(** The rows the predicate accepts, ascending. *)
Definition kept_rows (b : RecordBatch) (p : Predicate) : list nat :=
  filter (λ i, eval_row b p i = Some true) (seq 0 (num_rows b)).

Definition kept (b : RecordBatch) (p : Predicate) : list Z := Z.of_nat <$> kept_rows b p.

Lemma list_as_seq {A} (l : list A) : mapM (λ i, l !! i) (seq 0 (length l)) = Some l.
Proof.
  apply mapM_Some_2. apply Forall2_same_length_lookup_2; [by rewrite length_seq|].
  intros i x y Hx Hy. apply lookup_seq in Hx as [-> _]. done.
Qed.

Lemma fmap_lookup_seq {A B} (f : option A → B) (l : list A) :
  (λ i, f (l !! i)) <$> seq 0 (length l) = (λ x, f (Some x)) <$> l.
Proof.
  apply list_eq. intros i. rewrite !list_lookup_fmap.
  destruct (l !! i) eqn:Hi.
  - rewrite lookup_seq_lt by (by eapply lookup_lt_Some). cbn. by rewrite Hi.
  - rewrite lookup_seq_ge by (by apply lookup_ge_None). done.
Qed.

Lemma true_positions_eval (f : nat → option bool) n :
  true_positions (f <$> seq 0 n) = Z.of_nat <$> filter (λ i, f i = Some true) (seq 0 n).
Proof.
  unfold true_positions. rewrite imap_fmap.
  rewrite (imap_ext _ (λ j _, (j, f j))).
  2: { intros j x Hj. apply lookup_seq in Hj as [-> _]. done. }
  rewrite (imap_seq_0 (seq 0 n) (λ j, (j, f j))), length_seq.
  generalize (seq 0 n) as l. intros l. induction l as [|i l IH]; [done|].
  rewrite filter_cons. cbn. destruct (decide (f i = Some true)); cbn; [f_equal|]; done.
Qed.

Section Filter.
Context `{ArrowLaws}.

Lemma evaluate_predicate_spec b p :
  batch_ok b →
  evaluate_predicate b p
  = match pred_fault b p with
    | Some e => Err e
    | None => Ok (eval_row b p <$> seq 0 (num_rows b))
    end.
Proof.
  intros Hb. induction p as [c op lit|p1 IH1 p2 IH2]; cbn.
  - unfold column. destruct (columns b !! c) as [col|] eqn:Hc; [cbn|done].
    destruct (decide (data_type col = literal_data_type lit)) as [Ht|]; [|done].
    rewrite cmp_law by done. cbn. f_equal.
    rewrite <- (batch_ok_column_len _ _ _ Hb Hc). unfold array_len.
    rewrite (fmap_lookup_seq (λ o, cell ← o; v ← cell; Some (ord_holds op (value_cmp v lit)))).
    apply list_fmap_ext. intros i [v|] _; done.
  - rewrite IH1. destruct (pred_fault b p1); [done|]. cbn. rewrite IH2.
    destruct (pred_fault b p2); [done|]. cbn.
    rewrite and_kleene_law by (by rewrite !length_fmap). cbn.
    by rewrite zip_with_fmap_l, zip_with_fmap_r, zip_with_diag.
Qed.

Lemma mapM_lookup_in {A} (l : list A) idx :
  Forall (λ i, (i < length l)%nat) idx → ∃ xs, mapM (λ i, l !! i) idx = Some xs.
Proof.
  induction 1 as [|i idx Hi _ [xs IH]]; [by eexists|].
  destruct (lookup_lt_is_Some_2 _ _ Hi) as [x Hx].
  exists (x :: xs). cbn. by rewrite Hx, IH.
Qed.

Lemma batch_ok_project b idx fs cs :
  batch_ok b → mapM (λ i, fields (schema b) !! i) idx = Some fs →
  mapM (λ i, columns b !! i) idx = Some cs →
  batch_ok (mkBatch (mkSchema fs (schema_metadata (schema b))) cs (num_rows b)).
Proof.
  intros Hb Hf Hc. apply mapM_Some_1 in Hf, Hc. unfold batch_ok. cbn.
  apply Forall2_same_length_lookup_2.
  { by rewrite <- (Forall2_length _ _ _ Hf), <- (Forall2_length _ _ _ Hc). }
  intros i f a Hi Ha.
  destruct (Forall2_lookup_r _ _ _ _ _ Hf Hi) as (k & Hk & Hfk).
  destruct (Forall2_lookup_r _ _ _ _ _ Hc Ha) as (k' & Hk' & Hck).
  simplify_eq. by eapply batch_ok_column.
Qed.

Lemma filter_batch_spec b p fs cs idx :
  batch_ok b → pred_fault b p = None →
  mapM (λ i, fields (schema b) !! i) idx = Some fs →
  mapM (λ i, columns b !! i) idx = Some cs →
  filter_project b p idx
  = Ok (mkBatch (mkSchema fs (schema_metadata (schema b)))
                ((λ a, array_take a (kept b p)) <$> cs) (length (kept_rows b p))).
Proof.
  intros Hb Hp Hf Hc. unfold filter_project. rewrite evaluate_predicate_spec, Hp by done. cbn.
  rewrite (project_law _ _ _ _ Hf Hc). cbn.
  set (m := eval_row b p <$> seq 0 (num_rows b)).
  assert (length m = num_rows b) as Hm by (unfold m; by rewrite length_fmap, length_seq).
  pose proof (batch_ok_project _ _ _ _ Hb Hf Hc) as Hpb.
  rewrite filter_law by done. cbn. do 2 f_equal.
  - apply list_fmap_ext. intros i a Ha. unfold array_filter, array_take. f_equal.
    rewrite mask_filter_gather.
    + unfold m. by rewrite true_positions_eval.
    + rewrite Hm. symmetry. by apply (batch_ok_column_len _ i _ Hpb).
  - unfold mask_count, kept_rows, m. generalize (seq 0 (num_rows b)) as l. intros l.
    induction l as [|i l IH]; [done|]. rewrite fmap_cons, !filter_cons.
    destruct (decide (eval_row b p i = Some true)); cbn; by rewrite IH.
Qed.

(** Rows taken from the projected columns make a batch. *)
Lemma taken_batch_ok b fs cs idx (rows : list nat) :
  batch_ok b → Forall (λ i, (i < num_rows b)%nat) rows →
  mapM (λ i, fields (schema b) !! i) idx = Some fs →
  mapM (λ i, columns b !! i) idx = Some cs →
  batch_ok (mkBatch (mkSchema fs (schema_metadata (schema b)))
                    ((λ a, array_take a (Z.of_nat <$> rows)) <$> cs) (length rows)).
Proof.
  intros Hb Hrows Hf Hc. pose proof (batch_ok_project _ _ _ _ Hb Hf Hc) as Hpb.
  unfold batch_ok in *. cbn in *.
  apply Forall2_fmap_r. eapply Forall2_impl; [exact Hpb|]. intros f a [Hok Hlen].
  split; [by apply column_ok_take|]. unfold array_len, array_take. cbn.
  rewrite length_gather; [by rewrite length_fmap|].
  unfold array_len in Hlen. rewrite Hlen. unfold in_bounds.
  apply Forall_fmap. eapply Forall_impl; [exact Hrows|]. intros i Hi. cbn in Hi |- *. lia.
Qed.

Lemma kept_batch_ok b p fs cs idx :
  batch_ok b →
  mapM (λ i, fields (schema b) !! i) idx = Some fs →
  mapM (λ i, columns b !! i) idx = Some cs →
  batch_ok (mkBatch (mkSchema fs (schema_metadata (schema b)))
                    ((λ a, array_take a (kept b p)) <$> cs) (length (kept_rows b p))).
Proof.
  intros Hb Hf Hc. apply (taken_batch_ok b fs cs idx); [done| |done..].
  apply Forall_forall. intros i [_ Hi]%list_elem_of_filter. apply elem_of_seq in Hi. cbn. lia.
Qed.

(** C4: the fused filter on every branch: an ill-typed predicate gives the error of
    its leftmost faulty comparison; otherwise a projection out of range is an
    Arrow error, and a projection in range yields a well-formed batch with the
    projected columns restricted to the accepted rows, in their order. *)
Theorem filter_project_correct b p projection :
  batch_ok b →
  match pred_fault b p with
  | Some e => filter_project b p projection = Err e
  | None =>
      if decide (Forall (λ i, (i < num_columns b)%nat) projection) then
        ∃ out, filter_project b p projection = Ok out ∧ batch_ok out ∧
          mapM (λ i, fields (schema b) !! i) projection = Some (fields (schema out)) ∧
          num_rows out = length (kept_rows b p) ∧
          Forall2 (λ i a, ∃ c, columns b !! i = Some c ∧ a = array_take c (kept b p))
                  projection (columns out)
      else ∃ e, filter_project b p projection = Err (ArrowE e)
  end.
Proof.
  intros Hb. pose proof (evaluate_predicate_spec b p Hb) as Hev.
  destruct (pred_fault b p) as [e|] eqn:Hp.
  { unfold filter_project. by rewrite Hev. }
  case_decide as Hr.
  - destruct (mapM_lookup_in (fields (schema b)) projection) as [fs Hf].
    { by rewrite (batch_ok_num_columns _ Hb). }
    destruct (mapM_lookup_in (columns b) projection) as [cs Hc]; [done|].
    eexists. split; [by apply filter_batch_spec|].
    split; [by eapply kept_batch_ok|].
    split; [done|]. split; [done|]. cbn. apply Forall2_fmap_r.
    apply mapM_Some_1 in Hc. eapply Forall2_impl; [exact Hc|]. cbn. eauto.
  - apply not_Forall_Exists in Hr; [|apply _]. apply Exists_exists in Hr as (i & Hi & Hge).
    destruct (project_range_law b projection i) as [e He]; [done|cbn in Hge; lia|].
    exists e. unfold filter_project. rewrite Hev. cbn. by rewrite He.
Qed.
End Filter.

(** ** A concrete batch *)

Module FilterExample.

(** Two nullable columns: an [Int64] key and a [Float64] price. *)
Definition demo : RecordBatch :=
  mkBatch (Schema_new [Field_new "k" Int64 true; Field_new "x" Float64 true])
          [Int64Array_of [Some 3; None; Some 7; Some 9];
           Float64Array_of [Some (F64 0x4008000000000000); Some f64_zero; None;
                            Some (F64 0x4022000000000000)]] 4.

(** [k > 2 AND x <= 9.0]: a null on either side drops the row. *)
Definition demo_pred : Predicate :=
  And (Compare 0 CGt (LInt64 2)) (Compare 1 CLtEq (LFloat64 (F64 0x4022000000000000))).

Lemma filter_project_correct_witness :
  kept_rows demo demo_pred = [0; 3]%nat ∧
  ∃ out, filter_project demo demo_pred [1]%nat = Ok out ∧ batch_ok out ∧
    mapM (λ i, fields (schema demo) !! i) [1]%nat = Some (fields (schema out)) ∧
    num_rows out = length (kept_rows demo demo_pred) ∧
    Forall2 (λ i a, ∃ c, columns demo !! i = Some c ∧ a = array_take c (kept demo demo_pred))
            [1]%nat (columns out).
Proof.
  split; [vm_compute; reflexivity|].
  assert (batch_ok demo) as Hb by (apply (bool_decide_unpack _); vm_compute; exact I).
  exact (filter_project_correct demo demo_pred [1]%nat Hb).
Defined.

End FilterExample.
