(* ===== verification/JoinCorrect.v ===== *)
(** * The hash join equals the nested-loop join

    Properties of [JoinTable] and the probe of [Kernels]: a built table lists,
    for every key, exactly the rows that carry it in build order, whatever
    order the hash maps iterate in; the probe's row pairs are those of the
    nested loop; the key hash is injective on [i64]. *)

From S2P Require Import Prelude Floats Arrow Core ArrowKernels Kernels FilterCorrect.

(** ** The key hash *)

Lemma lxor_shiftr_range z k : 0 ≤ k → is_u64 z → is_u64 (Z.lxor z (Z.shiftr z k)).
Proof.
  intros Hk [H0 H1]. assert (0 ≤ Z.shiftr z k) by (by apply Z.shiftr_nonneg).
  assert (0 ≤ Z.lxor z (Z.shiftr z k)) as Hn by (by apply Z.lxor_nonneg).
  split; [done|]. destruct (decide (Z.lxor z (Z.shiftr z k) = 0)) as [->|]; [done|].
  unfold U64 in *. apply Z.log2_lt_pow2; [lia|].
  destruct (decide (z = 0)) as [->|].
  { by rewrite Z.shiftr_0_l, Z.lxor_0_l in *. }
  eapply Z.le_lt_trans; [by apply Z.log2_lxor|]. rewrite Z.log2_shiftr by lia.
  assert (Z.log2 z < 64) by (apply Z.log2_lt_pow2; lia).
  pose proof (Z.log2_nonneg z). lia.
Qed.

(** [x ^ (x >> k)] loses nothing: the difference of two preimages is its own
    shift, hence zero. *)
Lemma lxor_shiftr_inj a b k :
  0 < k → 0 ≤ a → 0 ≤ b →
  Z.lxor a (Z.shiftr a k) = Z.lxor b (Z.shiftr b k) → a = b.
Proof.
  intros Hk Ha Hb H. apply Z.lxor_eq.
  assert (Z.lxor a b = Z.shiftr (Z.lxor a b) k) as Hd.
  { rewrite Z.shiftr_lxor. apply Z.lxor_eq.
    rewrite <- Z.lxor_assoc, (Z.lxor_assoc a b), (Z.lxor_comm b), <- (Z.lxor_assoc a), H.
    rewrite (Z.lxor_assoc b), (Z.lxor_comm (Z.shiftr b k)), <- (Z.lxor_assoc b).
    rewrite Z.lxor_nilpotent, Z.lxor_0_l. apply Z.lxor_nilpotent. }
  assert (0 ≤ Z.lxor a b) as Hn by (by apply Z.lxor_nonneg).
  rewrite Z.shiftr_div_pow2 in Hd by lia.
  destruct (decide (Z.lxor a b = 0)) as [|Hne]; [done|].
  assert (1 < 2 ^ k) by (apply Z.pow_gt_1; lia).
  pose proof (Z.div_lt (Z.lxor a b) (2 ^ k)). lia.
Qed.

(** Multiplication by a constant with an inverse modulo [2^64]. *)
Lemma wmul64_inj c c' a b :
  wmul64 c c' = 1 → is_u64 a → is_u64 b → wmul64 a c = wmul64 b c → a = b.
Proof.
  unfold wmul64. intros Hc Ha Hb H.
  assert (∀ x, is_u64 x → wrap64 (wrap64 (x * c) * c') = x) as Hinv.
  { intros x Hx. unfold wrap64 in *. rewrite Z.mul_mod_idemp_l, <- Z.mul_assoc by done.
    rewrite <- Z.mul_mod_idemp_r, Hc, Z.mul_1_r by done. by apply Z.mod_small. }
  rewrite <- (Hinv a Ha), H. by apply Hinv.
Qed.

Lemma KeyHasher_finish_inj a b :
  is_u64 a → is_u64 b → KeyHasher_finish a = KeyHasher_finish b → a = b.
Proof.
  intros Ha Hb H. unfold KeyHasher_finish in H.
  apply lxor_shiftr_inj in H; [|done|apply wrap64_range..].
  apply (wmul64_inj _ 0x319642b2d24d8ec3) in H;
    [|vm_compute; done|apply lxor_shiftr_range; [done|apply wrap64_range]..].
  apply lxor_shiftr_inj in H; [|done|apply wrap64_range..].
  apply (wmul64_inj _ 0x96de1b173f119089) in H;
    [|vm_compute; done|by apply lxor_shiftr_range..].
  apply lxor_shiftr_inj in H; [done|done|apply Ha|apply Hb].
Qed.

Lemma key_hash_eq k : key_hash k = KeyHasher_finish (wrap64 k).
Proof.
  unfold key_hash, KeyHasher_write_i64, KeyHasher_write_word.
  change (rotate_left 0 5) with 0. by rewrite Z.lxor_0_l.
Qed.

Lemma wrap64_i64_inj a b : is_i64 a → is_i64 b → wrap64 a = wrap64 b → a = b.
Proof.
  unfold is_i64, i64_min, i64_max, wrap64, U64. intros Ha Hb H.
  pose proof (Z.div_mod a (2 ^ 64) ltac:(done)) as Hqa.
  pose proof (Z.div_mod b (2 ^ 64) ltac:(done)) as Hqb.
  rewrite H in Hqa. set (qa := a / 2 ^ 64) in *. set (qb := b / 2 ^ 64) in *.
  assert (qa = qb) by lia. lia.
Qed.

(** the 64-bit key hash is injective on [i64] keys: two distinct join keys
    never share a hash, although the hasher is a single multiply-xorshift
    round. *)
Theorem key_hash_injective k1 k2 :
  is_i64 k1 → is_i64 k2 → key_hash k1 = key_hash k2 → k1 = k2.
Proof.
  intros H1 H2. rewrite !key_hash_eq. intros H.
  apply wrap64_i64_inj; [done..|]. apply KeyHasher_finish_inj; auto using wrap64_range.
Qed.

Lemma key_hash_injective_witness :
  key_hash (-1) = 13029008266876403067 ∧ ¬ key_hash i64_min = key_hash i64_max.
Proof.
  split; [vm_compute; reflexivity|]. intros H.
  assert (i64_min = i64_max) as E; [|discriminate E].
  apply (key_hash_injective i64_min i64_max); [split; vm_compute; discriminate..|exact H].
Defined.

(** ** Rows of a key *)

(** The positions that hold key [k], ascending. *)
Definition positions (k : Z) (keys : list (option Z)) : list Z :=
  Z.of_nat <$> filter (λ j, keys !! j = Some (Some k)) (seq 0 (length keys)).

Definition occ (k : Z) (keys : list (option Z)) : Z := Z.of_nat (length (positions k keys)).

Lemma positions_snoc k ks o :
  positions k (ks ++ [o])
  = positions k ks ++ (if decide (o = Some k) then [Z.of_nat (length ks)] else []).
Proof.
  unfold positions. rewrite length_app, Nat.add_1_r, seq_S, filter_app, fmap_app. f_equal.
  - f_equal. apply filter_ext_in. intros j Hj. apply elem_of_seq in Hj.
    by rewrite lookup_app_l by lia.
  - rewrite filter_cons, filter_nil. cbn. rewrite list_lookup_middle by done.
    destruct (decide (o = Some k)) as [->|Hne].
    + by rewrite decide_True.
    + rewrite decide_False by congruence. done.
Qed.

Lemma occ_snoc k ks o : occ k (ks ++ [o]) = occ k ks + (if decide (o = Some k) then 1 else 0).
Proof.
  unfold occ. rewrite positions_snoc, length_app. case_decide; cbn; lia.
Qed.

Lemma occ_nonneg k ks : 0 ≤ occ k ks.
Proof. unfold occ. lia. Qed.

Lemma occ_le_length k ks : occ k ks ≤ Z.of_nat (length ks).
Proof.
  unfold occ, positions. rewrite length_fmap. pose proof (length_filter
    (λ j, ks !! j = Some (Some k)) (seq 0 (length ks))) as H.
  rewrite length_seq in H. lia.
Qed.

Lemma elem_of_positions k keys j :
  Z.of_nat j ∈ positions k keys ↔ keys !! j = Some (Some k).
Proof.
  unfold positions. rewrite list_elem_of_fmap. split.
  - intros (i & ->%Nat2Z.inj & [Hi _]%list_elem_of_filter). done.
  - intros H. exists j. split; [done|]. apply list_elem_of_filter. split; [done|].
    apply elem_of_seq. apply lookup_lt_Some in H. lia.
Qed.

Lemma seq_StronglySorted i n : StronglySorted lt (seq i n).
Proof.
  revert i. induction n as [|n IH]; intros i; cbn; constructor; [done|].
  apply Forall_forall. intros j Hj%elem_of_seq. lia.
Qed.

Lemma positions_sorted k keys : StronglySorted Z.lt (positions k keys).
Proof.
  unfold positions. generalize (seq_StronglySorted 0 (length keys)).
  generalize (seq 0 (length keys)) as l. intros l Hl.
  induction Hl as [|x l Hl IH Hx]; [constructor|]. rewrite filter_cons. case_decide; [|done].
  cbn. constructor; [done|]. apply Forall_fmap, Forall_forall.
  intros y [_ Hy]%list_elem_of_filter. rewrite Forall_forall in Hx. specialize (Hx _ Hy). cbn. lia.
Qed.

Lemma positions_range k keys : in_bounds (length keys) (positions k keys).
Proof.
  unfold in_bounds, positions. apply Forall_fmap, Forall_forall.
  intros i [_ Hi]%list_elem_of_filter. apply elem_of_seq in Hi. cbn. lia.
Qed.

Lemma occ_pos k keys : Some k ∈ keys ↔ 0 < occ k keys.
Proof.
  unfold occ. split.
  - intros [j Hj]%list_elem_of_lookup_1. apply elem_of_positions in Hj.
    destruct (positions k keys); [set_solver|cbn; lia].
  - intros H. destruct (positions k keys) as [|z l] eqn:E; [cbn in H; lia|].
    pose proof (positions_range k keys) as Hr. rewrite E in Hr.
    apply Forall_cons in Hr as [Hz _]. rewrite <- (Z2Nat.id z) in E by lia.
    assert (Z.of_nat (Z.to_nat z) ∈ positions k keys) as Hin by (rewrite E; set_solver).
    apply elem_of_positions in Hin. by eapply list_elem_of_lookup_2.
Qed.

(** ** Pass 1: the counts *)

Lemma count_keys_snoc ks o : count_keys (ks ++ [o]) = count_key (count_keys ks) o.
Proof. unfold count_keys. by rewrite foldl_app. Qed.

Lemma count_keys_lookup ks k :
  Z.of_nat (length ks) ≤ u32_max →
  count_keys ks !! k = if decide (0 < occ k ks) then Some (occ k ks) else None.
Proof.
  induction ks as [|o ks IH] using rev_ind; [done|].
  rewrite length_app. cbn. intros Hlen. specialize (IH ltac:(lia)).
  rewrite count_keys_snoc, occ_snoc. pose proof (occ_nonneg k ks).
  pose proof (occ_le_length k ks). destruct o as [k'|]; cbn.
  - destruct (decide (k' = k)) as [->|Hne].
    + rewrite lookup_insert_eq, IH, (decide_True (P := Some k = Some k)) by done.
      rewrite (decide_True (P := 0 < occ k ks + 1)) by lia. f_equal.
      assert (default 0 (if decide (0 < occ k ks) then Some (occ k ks) else None) = occ k ks)
        as -> by (case_decide; cbn; lia).
      apply Z.mod_small. unfold u32_max in Hlen. lia.
    + rewrite lookup_insert_ne, IH, (decide_False (P := Some k' = Some k)) by congruence.
      by rewrite Z.add_0_r.
  - by rewrite IH, Z.add_0_r.
Qed.

Lemma sumZ_map_insert (m : gmap Z Z) k v :
  sumZ snd (map_to_list (<[k := v]> m)) = sumZ snd (map_to_list m) - default 0 (m !! k) + v.
Proof.
  rewrite <- insert_delete_eq.
  rewrite (sumZ_perm _ _ _ (map_to_list_insert _ k v (lookup_delete_eq m k))).
  destruct (m !! k) as [w|] eqn:E; cbn.
  - rewrite (sumZ_perm snd (map_to_list m) _ (symmetry (map_to_list_delete m k w E))). cbn. lia.
  - rewrite delete_id by done. lia.
Qed.

Lemma count_keys_sum ks :
  Z.of_nat (length ks) ≤ u32_max →
  sumZ snd (map_to_list (count_keys ks)) ≤ Z.of_nat (length ks).
Proof.
  induction ks as [|o ks IH] using rev_ind; [done|].
  rewrite length_app. cbn. intros Hlen. specialize (IH ltac:(lia)).
  rewrite count_keys_snoc. destruct o as [k|]; cbn; [|lia].
  rewrite sumZ_map_insert, count_keys_lookup by lia. pose proof (occ_nonneg k ks).
  pose proof (occ_le_length k ks).
  assert (default 0 (if decide (0 < occ k ks) then Some (occ k ks) else None) = occ k ks)
    as -> by (case_decide; cbn; lia).
  unfold wrap32. rewrite Z.mod_small by (unfold u32_max in Hlen; lia). lia.
Qed.

(** ** Pass 2: the ranges *)

Definition disjoint_ranges (r1 r2 : Z * Z) : Prop :=
  r1.1 + r1.2 ≤ r2.1 ∨ r2.1 + r2.2 ≤ r1.1.

Lemma assign_ranges_spec l rs next :
  NoDup (l.*1) → Forall (λ kc, 0 ≤ kc.2) l → next + sumZ snd l ≤ u32_max →
  ∃ rs', assign_ranges l rs next = Ok (rs', next + sumZ snd l) ∧
    (∀ k, k ∉ l.*1 → rs' !! k = rs !! k) ∧
    (∀ k c, (k, c) ∈ l → ∃ s, rs' !! k = Some (s, c) ∧ next ≤ s ∧ s + c ≤ next + sumZ snd l) ∧
    (∀ k1 k2 r1 r2, k1 ∈ l.*1 → k2 ∈ l.*1 → k1 ≠ k2 →
       rs' !! k1 = Some r1 → rs' !! k2 = Some r2 → disjoint_ranges r1 r2).
Proof.
  revert rs next. induction l as [|[k c] l IH]; intros rs next; cbn.
  { intros _ _ _. exists rs. rewrite Z.add_0_r. set_solver. }
  rewrite NoDup_cons, Forall_cons. cbn. intros [Hk Hnd] [Hc Hcs] Hfit.
  assert (0 ≤ sumZ snd l).
  { apply sumZ_nonneg. by apply Forall_forall. }
  rewrite (proj2 (Z.leb_le _ _)) by lia.
  destruct (IH (<[k:=(next, c)]> rs) (next + c)) as (rs' & -> & Hout & Hin & Hdis);
    [done|done|lia|].
  assert (rs' !! k = Some (next, c)) as Hrk by (rewrite Hout by done; apply lookup_insert_eq).
  exists rs'. split; [by rewrite Z.add_assoc|]. split_and!.
  - intros k' Hk'. rewrite Hout by set_solver. apply lookup_insert_ne. set_solver.
  - intros k' c' [[= -> ->]|Hin']%elem_of_cons; [exists next; split_and!; [done|lia..]|].
    destruct (Hin k' c' Hin') as (s & ? & ? & ?). exists s. split_and!; [done|lia..].
  - assert (∀ k' r', k' ∈ l.*1 → rs' !! k' = Some r' → next + c ≤ r'.1) as Hlow.
    { intros k' r' ([k'' c'] & -> & Hel)%list_elem_of_fmap Hr'. cbn in Hr'.
      destruct (Hin _ _ Hel) as (s & E & Hs & _). rewrite E in Hr'. by injection Hr' as <-. }
    intros k1 k2 r1 r2 [->|H1]%elem_of_cons [->|H2]%elem_of_cons Hne E1 E2;
      [done| | |exact (Hdis k1 k2 r1 r2 H1 H2 Hne E1 E2)].
    + left. rewrite Hrk in E1. injection E1 as <-. cbn. eauto.
    + right. rewrite Hrk in E2. injection E2 as <-. cbn. eauto.
Qed.

(** ** Pass 3: the scatter *)

(** What the first two passes establish about the key column [all]. *)
Record layout_ok (all : list (option Z)) (rs : gmap Z (Z * Z)) (n : Z) : Prop := {
  lay_total : n ≤ u32_max;
  lay_absent k : Some k ∉ all → rs !! k = None;
  lay_range k : Some k ∈ all → ∃ s, rs !! k = Some (s, occ k all) ∧ 0 ≤ s ∧ s + occ k all ≤ n;
  lay_disjoint k1 k2 r1 r2 : k1 ≠ k2 → rs !! k1 = Some r1 → rs !! k2 = Some r2 →
    disjoint_ranges r1 r2;
}.

(** The rows placed so far: those of the prefix [don]. *)
Definition placed (rs : gmap Z (Z * Z)) (don : list (option Z)) (rws : list Z) : Prop :=
  ∀ k s c i p, rs !! k = Some (s, c) → positions k don !! i = Some p →
    rws !! (Z.to_nat s + i)%nat = Some p.

Lemma occ_prefix k don keys : occ k don ≤ occ k (don ++ keys).
Proof.
  revert don. induction keys as [|o keys IH]; intros don; [by rewrite app_nil_r|].
  rewrite cons_middle, app_assoc. etransitivity; [|apply IH]. rewrite occ_snoc.
  case_decide; lia.
Qed.

Lemma placed_step all rs n don keys k s rws :
  layout_ok all rs n → all = don ++ Some k :: keys → rs !! k = Some (s, occ k all) → 0 ≤ s →
  Z.of_nat (length rws) = n → s + occ k all ≤ n →
  placed rs don rws →
  placed rs (don ++ [Some k]) (<[Z.to_nat (s + occ k don) := Z.of_nat (length don)]> rws).
Proof.
  intros Hlay Hall Hk Hs Hlen Hfit Hpl k' s' c' i p Hk' Hi.
  assert (occ k don + 1 ≤ occ k all) as Hroom.
  { rewrite Hall, cons_middle, app_assoc.
    pose proof (occ_prefix k (don ++ [Some k]) keys) as Hp.
    rewrite occ_snoc, decide_True in Hp by done. lia. }
  pose proof (occ_nonneg k don). rewrite positions_snoc in Hi.
  destruct (decide (k = k')) as [<-|Hne].
  - simplify_eq. rewrite decide_True in Hi by done.
    apply lookup_app_Some in Hi as [Hi|[Hge Hi]].
    + rewrite list_lookup_insert_ne.
      * by eapply Hpl.
      * apply lookup_lt_Some in Hi. unfold occ. lia.
    + apply list_lookup_singleton_Some in Hi as [Hi0 <-].
      replace (Z.to_nat (s + occ k don)) with (Z.to_nat s + i)%nat by (unfold occ; lia).
      apply list_lookup_insert_eq. unfold occ in *. lia.
  - rewrite decide_False, app_nil_r in Hi by congruence.
    pose proof (lay_disjoint _ _ _ Hlay _ _ _ _ Hne Hk Hk') as Hd.
    rewrite list_lookup_insert_ne; [by eapply Hpl|].
    apply lookup_lt_Some in Hi as Hlt. assert (Some k' ∈ all) as Hin.
    { destruct (decide (Some k' ∈ all)); [done|].
      by rewrite (lay_absent _ _ _ Hlay) in Hk'. }
    destruct (lay_range _ _ _ Hlay _ Hin) as (s2 & E2 & ? & ?). simplify_eq.
    pose proof (occ_prefix k' don (Some k :: keys)) as Hp.
    unfold disjoint_ranges, occ in *. cbn in Hd. lia.
Qed.

Lemma scatter_spec all rs n : layout_ok all rs n → Z.of_nat (length all) ≤ u32_max →
  ∀ keys don cursor rws, all = don ++ keys → Z.of_nat (length rws) = n →
  (∀ k s c, rs !! k = Some (s, c) → cursor !! k = Some (s + occ k don)) →
  placed rs don rws →
  ∃ rws', scatter keys (length don) cursor rws = Ok rws' ∧ Z.of_nat (length rws') = n ∧
    placed rs all rws'.
Proof.
  intros Hlay Hsmall. induction keys as [|o keys IH]; intros don cursor rws Hall Hlen Hcur Hpl.
  { rewrite app_nil_r in Hall. subst don. by exists rws. }
  assert (all = (don ++ [o]) ++ keys) as Hall' by (by rewrite <- app_assoc).
  assert (S (length don) = length (don ++ [o])) as Hlen' by (rewrite length_app; cbn; lia).
  destruct o as [k|]; cbn [scatter].
  - assert (Some k ∈ all) as Hin by (rewrite Hall; set_solver).
    destruct (lay_range _ _ _ Hlay _ Hin) as (s & Hk & Hs & Hfit).
    assert (occ k don + 1 ≤ occ k all) as Hroom.
    { rewrite Hall'. pose proof (occ_prefix k (don ++ [Some k]) keys) as Hp.
      rewrite occ_snoc, decide_True in Hp by done. lia. }
    pose proof (occ_nonneg k don). pose proof (lay_total _ _ _ Hlay).
    rewrite (Hcur _ _ _ Hk). unfold index_u32.
    rewrite (proj2 (Z.leb_le _ _)) by (rewrite Hall, length_app in Hsmall; cbn in Hsmall; lia).
    cbn. rewrite (proj2 (Z.ltb_lt _ _)) by lia. rewrite Hlen'.
    apply IH; [done|by rewrite length_insert| |by eapply placed_step].
    intros k' s' c' Hk'. rewrite occ_snoc. destruct (decide (k = k')) as [<-|Hne].
    + simplify_eq. rewrite lookup_insert_eq, decide_True by done. f_equal.
      unfold wrap32. rewrite Z.mod_small; [lia|]. unfold u32_max in *. lia.
    + rewrite lookup_insert_ne, decide_False by congruence. rewrite (Hcur _ _ _ Hk').
      f_equal. lia.
  - rewrite Hlen'. apply IH; [done|done| |].
    + intros k s c Hk. rewrite occ_snoc, decide_False, Z.add_0_r by done. eauto.
    + intros k s c i p Hk Hi. rewrite positions_snoc, decide_False, app_nil_r in Hi by done.
      by eapply Hpl.
Qed.

(** ** The built table *)

Lemma slice_placed (rws l : list Z) s :
  0 ≤ s → (∀ i p, l !! i = Some p → rws !! (Z.to_nat s + i)%nat = Some p) →
  s + Z.of_nat (length l) ≤ Z.of_nat (length rws) →
  slice (E := EngineError) rws s (s + Z.of_nat (length l)) = Ok l.
Proof.
  intros Hs Hl Hfit. unfold slice.
  rewrite !(proj2 (Z.leb_le _ _)) by lia. cbn. f_equal.
  replace (Z.to_nat (s + Z.of_nat (length l) - s)) with (length l) by lia.
  apply list_eq_same_length with (length l); [done|by rewrite length_take, length_drop; lia|].
  intros i x y Hi Hx Hy. rewrite lookup_take_lt, lookup_drop in Hx by done.
  rewrite (Hl _ _ Hy) in Hx. congruence.
Qed.

Section Join.
Context `{HashOrderLaw}.

Lemma count_layout keys :
  Z.of_nat (length keys) ≤ u32_max →
  ∃ rs n, assign_ranges (hash_iter (count_keys keys)) ∅ 0 = Ok (rs, n) ∧
    0 ≤ n ∧ layout_ok keys rs n.
Proof.
  intros Hlen. pose proof (hash_iter_law (count_keys keys)) as Hperm.
  set (l := hash_iter (count_keys keys)) in *.
  assert (∀ k c, (k, c) ∈ l ↔ count_keys keys !! k = Some c) as Hel.
  { intros k c. rewrite Hperm. apply elem_of_map_to_list. }
  assert (∀ k, k ∈ l.*1 ↔ Some k ∈ keys) as Hdom.
  { intros k. rewrite occ_pos, list_elem_of_fmap. split.
    - intros ([k' c] & -> & Hkc%Hel). rewrite count_keys_lookup in Hkc by done.
      by case_decide.
    - intros Ho. exists (k, occ k keys). split; [done|]. apply Hel.
      by rewrite count_keys_lookup, decide_True. }
  pose proof (count_keys_sum keys Hlen) as Hsum. rewrite <- (sumZ_perm _ _ _ Hperm) in Hsum.
  destruct (assign_ranges_spec l ∅ 0) as (rs & Hrs & Hout & Hin & Hdis).
  - rewrite Hperm. apply NoDup_fst_map_to_list.
  - apply Forall_forall. intros [k c] Hkc%Hel. rewrite count_keys_lookup in Hkc by done.
    cbn. case_decide; [by simplify_eq; lia|done].
  - lia.
  - exists rs, (0 + sumZ snd l). split; [done|]. split.
    { apply sumZ_nonneg. intros [k c] Hkc%Hel. rewrite count_keys_lookup in Hkc by done.
      cbn. case_decide; [by simplify_eq; lia|done]. }
    split; [lia| | |].
    + intros k Hk. rewrite Hout; [apply lookup_empty|]. by rewrite Hdom.
    + intros k Hk. destruct (Hin k (occ k keys)) as (s & ? & ? & ?); [|eauto].
      apply Hel. rewrite count_keys_lookup by done. apply occ_pos in Hk.
      by rewrite decide_True.
    + assert (∀ k r, rs !! k = Some r → k ∈ l.*1) as Hdef.
      { intros k r Hr. destruct (decide (k ∈ l.*1)) as [|Hn]; [done|].
        by rewrite (Hout _ Hn), lookup_empty in Hr. }
      intros k1 k2 r1 r2 Hne E1 E2. apply (Hdis k1 k2 r1 r2); eauto.
Qed.

(** What a built table knows of its key column: the rows of every key, each
    key once. *)
Lemma JoinTable_build_spec b key keys :
  int64_column b key = Ok keys → Z.of_nat (length keys) ≤ u32_max →
  ∃ t, JoinTable_build b key = Ok t ∧
    (∀ k, JoinTable_matches t k = Ok (positions k keys)) ∧
    (∀ k, k ∈ dom (ranges t) ↔ Some k ∈ keys).
Proof.
  intros Hkeys Hlen. destruct (count_layout keys Hlen) as (rs & n & Hrs & Hn & Hlay).
  unfold JoinTable_build. rewrite Hkeys. cbn. rewrite Hrs. cbn.
  destruct (scatter_spec keys rs n Hlay Hlen keys [] (fst <$> rs) (replicate (Z.to_nat n) 0))
    as (rws & Hrws & Hlen' & Hpl); [done|rewrite length_replicate; lia| |done|].
  { intros k s c Hk. rewrite lookup_fmap, Hk. cbn. f_equal. unfold occ. cbn. lia. }
  cbn in Hrws. rewrite Hrws. cbn. eexists. split; [done|]. split.
  - intros k. unfold JoinTable_matches. cbn.
    destruct (decide (Some k ∈ keys)) as [Hin|Hout].
    + destruct (lay_range _ _ _ Hlay _ Hin) as (s & Hk & Hs & Hfit). rewrite Hk.
      pose proof (lay_total _ _ _ Hlay). pose proof (occ_nonneg k keys).
      unfold wrap32. rewrite Z.mod_small by (unfold u32_max in *; lia).
      apply slice_placed; [done| |unfold occ in *; lia]. intros i p Hi. by eapply Hpl.
    + rewrite (lay_absent _ _ _ Hlay _ Hout). f_equal.
      rewrite occ_pos in Hout. unfold occ in Hout.
      destruct (positions k keys); [done|cbn in Hout; lia].
  - intros k. cbn. rewrite elem_of_dom. split.
    + intros [r Hr]. destruct (decide (Some k ∈ keys)); [done|].
      by rewrite (lay_absent _ _ _ Hlay) in Hr.
    + intros Hin. destruct (lay_range _ _ _ Hlay _ Hin) as (s & Hk & _). eauto.
Qed.

End Join.

(** ** The nested-loop join *)

Definition keys_match (a b : option (option Z)) : Prop :=
  match a, b with Some (Some x), Some (Some y) => x = y | _, _ => False end.
#[local] Instance keys_match_dec a b : Decision (keys_match a b).
Proof. destruct a as [[]|], b as [[]|]; cbn; apply _. Defined.

(** The matches of row [i] of the left side. *)
Definition row_pairs (lk rk : list (option Z)) (i : nat) : list (Z * Z) :=
  j ← seq 0 (length rk);
  if decide (keys_match (lk !! i) (rk !! j)) then [(Z.of_nat i, Z.of_nat j)] else [].

Definition join_pairs (lk rk : list (option Z)) : list (Z * Z) :=
  i ← seq 0 (length lk); row_pairs lk rk i.

Lemma row_pairs_positions lk rk i :
  row_pairs lk rk i =
  match lk !! i with
  | Some (Some k) => (λ j, (Z.of_nat i, j)) <$> positions k rk
  | _ => []
  end.
Proof.
  unfold row_pairs, positions. generalize (seq 0 (length rk)) as l. intros l.
  induction l as [|j l IH]; [by destruct (lk !! i) as [[]|]|].
  rewrite bind_cons, IH. destruct (lk !! i) as [[k|]|]; [|by rewrite decide_False by (cbn; tauto)..].
  rewrite filter_cons.
  destruct (decide (keys_match (Some (Some k)) (rk !! j))) as [Hm|Hm].
  - rewrite decide_True; [done|].
    destruct (rk !! j) as [[k'|]|]; cbn in Hm; [by subst|done..].
  - rewrite decide_False; [done|]. intros E. rewrite E in Hm. by apply Hm.
Qed.

Lemma elem_of_join_pairs lk rk i j :
  (Z.of_nat i, Z.of_nat j) ∈ join_pairs lk rk ↔
  ∃ k, lk !! i = Some (Some k) ∧ rk !! j = Some (Some k).
Proof.
  unfold join_pairs. rewrite list_elem_of_bind. split.
  - intros (i' & Hp & _). rewrite row_pairs_positions in Hp.
    destruct (lk !! i') as [[k|]|] eqn:E; [|set_solver..].
    apply list_elem_of_fmap in Hp as (j' & [= Hi ->%eq_sym] & Hj). apply Nat2Z.inj in Hi as ->.
    apply elem_of_positions in Hj. eauto.
  - intros (k & Hi & Hj). exists i. split.
    + rewrite row_pairs_positions, Hi. apply list_elem_of_fmap.
      eexists. split; [done|]. by apply elem_of_positions.
    + apply elem_of_seq. apply lookup_lt_Some in Hi. lia.
Qed.

Lemma fst_row (n : Z) (l : list Z) : ((λ j, (n, j)) <$> l).*1 = replicate (length l) n.
Proof. induction l; cbn; [done|]. by f_equal. Qed.

Lemma snd_row (n : Z) (l : list Z) : ((λ j, (n, j)) <$> l).*2 = l.
Proof. rewrite <- list_fmap_compose. apply list_fmap_id. Qed.

Lemma probe_rows_spec t lk rk :
  (∀ k, JoinTable_matches t k = Ok (positions k rk)) → Z.of_nat (length lk) ≤ U32 →
  ∀ ks don li ri, lk = don ++ ks →
  probe_rows t (length don) ks li ri
  = Ok (li ++ (seq (length don) (length ks) ≫= row_pairs lk rk).*1,
        ri ++ (seq (length don) (length ks) ≫= row_pairs lk rk).*2).
Proof.
  intros Ht Hlen. induction ks as [|o ks IH]; intros don li ri Hlk.
  { cbn. by rewrite !app_nil_r. }
  assert (lk !! length don = Some o) as Ho by (rewrite Hlk; by apply list_lookup_middle).
  assert (lk = (don ++ [o]) ++ ks) as Hlk' by (by rewrite <- app_assoc).
  assert (S (length don) = length (don ++ [o])) as Hl by (rewrite length_app; cbn; lia).
  cbn [length seq]. rewrite bind_cons, !fmap_app, row_pairs_positions, Ho, !app_assoc.
  destruct o as [k|]; cbn [probe_rows].
  - rewrite Ht. cbn. rewrite fst_row, snd_row. case_bool_decide as Hp.
    + rewrite Hp, !app_nil_r, Hl. by apply IH.
    + unfold index_u32.
      rewrite (proj2 (Z.leb_le _ _)) by (rewrite Hlk, length_app in Hlen; cbn in Hlen;
        unfold u32_max; lia).
      cbn. rewrite Hl. by apply IH.
  - rewrite !app_nil_r, Hl. by apply IH.
Qed.

Lemma join_pairs_in_bounds lk rk :
  in_bounds (length lk) (join_pairs lk rk).*1 ∧ in_bounds (length rk) (join_pairs lk rk).*2.
Proof.
  unfold in_bounds. rewrite !Forall_fmap, !Forall_forall.
  assert (∀ p, p ∈ join_pairs lk rk →
    (0 ≤ p.1 < Z.of_nat (length lk)) ∧ 0 ≤ p.2 < Z.of_nat (length rk)) as Hp.
  { intros p (i & Hp & Hi)%list_elem_of_bind. apply elem_of_seq in Hi.
    rewrite row_pairs_positions in Hp. destruct (lk !! i) as [[k|]|]; [|set_solver..].
    apply list_elem_of_fmap in Hp as (j & -> & Hj). cbn.
    pose proof (positions_range k rk) as Hr. unfold in_bounds in Hr.
    rewrite Forall_forall in Hr. specialize (Hr _ Hj). lia. }
  split; intros p Hin; apply Hp in Hin; cbn; lia.
Qed.
Section Tables.
Context `{HashOrderLaw}.

(** a table built from a key column of at most [u32::MAX] rows lists, for
    every key, exactly the rows that hold it, ascending, and has an entry for
    exactly the non-null keys.  None of this depends on the iteration order of
    the hash maps it was built with. *)
Theorem join_table_correct b key keys :
  int64_column b key = Ok keys → Z.of_nat (length keys) ≤ u32_max →
  ∃ t, JoinTable_build b key = Ok t ∧
    (∀ k, ∃ l, JoinTable_matches t k = Ok l ∧ StronglySorted Z.lt l ∧
       ∀ j, Z.of_nat j ∈ l ↔ keys !! j = Some (Some k)) ∧
    (∀ k, k ∈ dom (ranges t) ↔ Some k ∈ keys).
Proof.
  intros Hkeys Hlen. destruct (JoinTable_build_spec b key keys Hkeys Hlen) as (t & Ht & Hm & Hd).
  exists t. split; [done|]. split; [|done]. intros k. exists (positions k keys).
  split; [apply Hm|]. split; [apply positions_sorted|]. apply elem_of_positions.
Qed.

Context `{!ArrowKernels, !ArrowLaws}.

Lemma int64_column_length b i keys :
  batch_ok b → int64_column b i = Ok keys → length keys = num_rows b.
Proof.
  intros Hb [col [Hc Hk]]%bind_Ok_inv. unfold column in Hc. apply ok_or_Ok_inv in Hc, Hk.
  unfold downcast_int64 in Hk. case_decide; [|done]. injection Hk as <-.
  rewrite length_fmap. by eapply batch_ok_column_len.
Qed.

(** Column [i] of the concatenation of both sides, gathered at the pairs. *)
Definition join_column (l r : RecordBatch) (pairs : list (Z * Z)) (i : nat) : option Array :=
  if (i <? num_columns l)%nat
  then (λ c, array_take c pairs.*1) <$> columns l !! i
  else (λ c, array_take c pairs.*2) <$> columns r !! (i - num_columns l)%nat.

Definition join_fields (l r : RecordBatch) : list Field :=
  fields (schema l) ++ fields (schema r).

Lemma join_column_lookup l r (lk rk : list (option Z)) (pairs : list (Z * Z)) i f :
  batch_ok l → batch_ok r → length lk = num_rows l → length rk = num_rows r →
  in_bounds (length lk) pairs.*1 → in_bounds (length rk) pairs.*2 →
  join_fields l r !! i = Some f →
  ∃ a, join_column l r pairs i = Some a ∧ column_ok f a = true ∧ array_len a = length pairs ∧
    join_cell l r pairs.*1 pairs.*2 i = Ok (f, a).
Proof.
  intros Hl Hr Hlk Hrk Hb1 Hb2 Hf. unfold join_cell. fold (join_fields l r). rewrite Hf.
  cbn [ok_or mbind res_bind]. unfold join_fields, join_column in *.
  pose proof (batch_ok_num_columns _ Hl) as Hn.
  apply lookup_app_Some in Hf as [Hf|[Hge Hf]].
  - apply lookup_lt_Some in Hf as Hlt. rewrite (proj2 (Nat.ltb_lt _ _)) by lia.
    destruct (batch_ok_lookup _ _ _ Hl Hf) as (c & Hc & Hok & Hlen).
    unfold index. rewrite Hc. cbn. eexists. split; [done|].
    split; [by apply column_ok_take|]. unfold array_len in *.
    rewrite take_law by (unfold array_len; rewrite Hlen, <- Hlk; done).
    split; [|done]. cbn. rewrite length_gather by (rewrite Hlen, <- Hlk; done).
    apply length_fmap.
  - rewrite (proj2 (Nat.ltb_ge _ _)) by lia. rewrite Hn in Hf.
    destruct (batch_ok_lookup _ _ _ Hr Hf) as (c & Hc & Hok & Hlen).
    unfold index. rewrite Hc. cbn. eexists. split; [done|].
    split; [by apply column_ok_take|]. unfold array_len in *.
    rewrite take_law by (unfold array_len; rewrite Hlen, <- Hrk; done).
    split; [|done]. cbn. rewrite length_gather by (rewrite Hlen, <- Hrk; done).
    apply length_fmap.
Qed.

Definition selected_columns (l r : RecordBatch) (projection : option (list nat)) : list nat :=
  match projection with Some ix => ix | None => seq 0 (length (join_fields l r)) end.

(** Every selected column is gathered. *)
Lemma join_cells_spec l r (pairs : list (Z * Z)) sel fs :
  (∀ i f, join_fields l r !! i = Some f →
     ∃ a, join_column l r pairs i = Some a ∧ column_ok f a = true ∧ array_len a = length pairs ∧
       join_cell l r pairs.*1 pairs.*2 i = Ok (f, a)) →
  mapM (λ i, join_fields l r !! i) sel = Some fs →
  ∃ cs, mapM (join_column l r pairs) sel = Some cs ∧
    Forall2 (λ f a, column_ok f a = true ∧ array_len a = length pairs) fs cs ∧
    mapM (join_cell l r pairs.*1 pairs.*2) sel = Ok (zip fs cs).
Proof.
  intros Hcol Hfs. apply mapM_Some_1 in Hfs.
  induction Hfs as [|i f sel fs Hf Hfs (cs & Hcs & Hok & IH)]; [by exists []|].
  destruct (Hcol i f Hf) as (a & Ha & Hca & Hla & Hstep).
  exists (a :: cs). split; [cbn; by rewrite Ha, Hcs|]. split; [by constructor|].
  cbn [mapM]. rewrite Hstep. cbn [mbind res_bind]. by rewrite IH.
Qed.

(** The probe, column by column, against the nested-loop pairs. *)
Lemma hash_join_probe_spec l r lkey lk rk t projection :
  batch_ok l → batch_ok r →
  int64_column l lkey = Ok lk → length rk = num_rows r → Z.of_nat (num_rows l) ≤ U32 →
  (∀ k, JoinTable_matches t k = Ok (positions k rk)) →
  let sel := selected_columns l r projection in
  if decide (Forall (λ i, (i < length (join_fields l r))%nat) sel) then
    if decide (sel = []) then
      ∃ e, hash_join_probe l lkey r t projection = Err (ArrowE e)
    else
      ∃ fs cs, let out := mkBatch (Schema_new fs) cs (length (join_pairs lk rk)) in
        mapM (λ i, join_fields l r !! i) sel = Some fs ∧
        mapM (join_column l r (join_pairs lk rk)) sel = Some cs ∧
        hash_join_probe l lkey r t projection = Ok out ∧ batch_ok out
  else hash_join_probe l lkey r t projection
       = Err (Plan "join projection index out of range").
Proof.
  intros Hl Hr Hlk Hrk Hlen Ht sel. pose proof (int64_column_length _ _ _ Hl Hlk) as Hlkl.
  destruct (join_pairs_in_bounds lk rk) as [Hb1 Hb2].
  pose proof (probe_rows_spec t lk rk Ht ltac:(by rewrite Hlkl) lk [] [] [] eq_refl) as Hp.
  cbn in Hp. change (seq 0 (length lk) ≫= row_pairs lk rk) with (join_pairs lk rk) in Hp.
  unfold hash_join_probe. rewrite Hlk. cbn [mbind res_bind]. rewrite Hp.
  cbn [mbind res_bind]. fold (join_fields l r). fold (selected_columns l r projection). fold sel.
  pose proof (λ i f, join_column_lookup l r lk rk (join_pairs lk rk) i f Hl Hr Hlkl Hrk Hb1 Hb2)
    as Hcol.
  case_decide as Hrange.
  - destruct (mapM_lookup_in _ _ Hrange) as [fs Hfs].
    destruct (join_cells_spec l r (join_pairs lk rk) sel fs Hcol Hfs) as (cs & Hcs & Hok & ->).
    cbn. rewrite fst_zip, snd_zip by (by rewrite (Forall2_length _ _ _ Hok)).
    case_decide as Hnil.
    + rewrite Hnil in Hfs, Hcs. injection Hfs as <-. injection Hcs as <-.
      destruct (try_new_empty_law (Schema_new [])) as [e He]. exists e. by rewrite He.
    + destruct cs as [|c cs].
      { destruct sel; [done|]. apply mapM_Some_1 in Hcs. inversion Hcs. }
      assert (array_len c = length (join_pairs lk rk)) as Hc.
      { inversion Hok as [|??????]; subst. tauto. }
      rewrite try_new_law by (unfold batch_ok; cbn; rewrite Hc; exact Hok). cbn. rewrite Hc.
      exists fs, (c :: cs). done.
  - apply not_Forall_Exists in Hrange; [|apply _].
    erewrite mapM_res_Err; [done| |].
    + intros i _. destruct (join_fields l r !! i) as [f|] eqn:Hf.
      * left. destruct (Hcol i f Hf) as (a & _ & _ & _ & Ha). eauto.
      * right. unfold join_cell. fold (join_fields l r). by rewrite Hf.
    + apply Exists_exists in Hrange as (i & Hi & Hge). exists i. split; [done|].
      unfold join_cell. fold (join_fields l r).
      by rewrite (lookup_ge_None_2 (join_fields l r)) by (cbn in Hge; lia).
Qed.
(** probing with a projection, on every branch: an index outside both
    sides is a plan error, an empty projection is refused by Arrow, and any
    other projection yields the selected columns of the nested-loop join, in
    projection order. *)
Theorem hash_join_probe_correct l r lkey rkey lk rk projection :
  batch_ok l → batch_ok r →
  int64_column l lkey = Ok lk → int64_column r rkey = Ok rk →
  Z.of_nat (num_rows l) ≤ U32 → Z.of_nat (num_rows r) ≤ u32_max →
  ∃ t, JoinTable_build r rkey = Ok t ∧
  let sel := selected_columns l r projection in
  if decide (Forall (λ i, (i < length (join_fields l r))%nat) sel) then
    if decide (sel = []) then
      ∃ e, hash_join_probe l lkey r t projection = Err (ArrowE e)
    else
      ∃ fs cs, let out := mkBatch (Schema_new fs) cs (length (join_pairs lk rk)) in
        mapM (λ i, join_fields l r !! i) sel = Some fs ∧
        mapM (join_column l r (join_pairs lk rk)) sel = Some cs ∧
        hash_join_probe l lkey r t projection = Ok out ∧ batch_ok out
  else hash_join_probe l lkey r t projection
       = Err (Plan "join projection index out of range").
Proof.
  intros Hl Hr Hlk Hrk Hll Hrl. pose proof (int64_column_length _ _ _ Hr Hrk) as Hlen.
  destruct (JoinTable_build_spec r rkey rk Hrk) as (t & Ht & Hm & _); [by rewrite Hlen|].
  exists t. split; [done|]. by apply hash_join_probe_spec.
Qed.

Lemma join_columns_all l r (pairs : list (Z * Z)) :
  mapM (join_column l r pairs) (seq 0 (num_columns l + num_columns r))
  = Some (((λ c, array_take c pairs.*1) <$> columns l)
          ++ ((λ c, array_take c pairs.*2) <$> columns r)).
Proof.
  rewrite seq_app. apply mapM_Some_2, Forall2_app.
  - apply Forall2_same_length_lookup_2; [by rewrite length_seq, length_fmap|].
    intros i x y [-> Hx]%lookup_seq Hy. unfold join_column. rewrite Nat.add_0_l.
    rewrite (proj2 (Nat.ltb_lt _ _)) by done. rewrite list_lookup_fmap in Hy.
    destruct (columns l !! i); done.
  - apply Forall2_same_length_lookup_2; [by rewrite length_seq, length_fmap|].
    intros i x y [-> Hx]%lookup_seq Hy. unfold join_column. rewrite Nat.add_0_l.
    rewrite (proj2 (Nat.ltb_ge _ _)) by lia. rewrite list_lookup_fmap in Hy.
    replace (num_columns l + i - num_columns l)%nat with i by lia.
    destruct (columns r !! i); done.
Qed.

(** The whole join. *)
Lemma hash_join_spec l r lkey rkey lk rk :
  batch_ok l → batch_ok r →
  int64_column l lkey = Ok lk → int64_column r rkey = Ok rk →
  Z.of_nat (num_rows l) ≤ U32 → Z.of_nat (num_rows r) ≤ u32_max →
  let pairs := join_pairs lk rk in
  hash_join l r lkey rkey
  = Ok (mkBatch (Schema_new (fields (schema l) ++ fields (schema r)))
          (((λ c, array_take c pairs.*1) <$> columns l)
           ++ ((λ c, array_take c pairs.*2) <$> columns r)) (length pairs)).
Proof.
  intros Hl Hr Hlk Hrk Hll Hrl pairs.
  pose proof (int64_column_length _ _ _ Hr Hrk) as Hlen.
  destruct (JoinTable_build_spec r rkey rk Hrk) as (t & Ht & Hm & _); [by rewrite Hlen|].
  unfold hash_join. rewrite Ht. cbn [mbind res_bind].
  pose proof (hash_join_probe_spec l r lkey lk rk t None Hl Hr Hlk Hlen Hll Hm) as Hp.
  cbv zeta in Hp. cbn [selected_columns] in Hp.
  assert (length (join_fields l r) = (num_columns l + num_columns r)%nat) as Hw.
  { unfold join_fields. by rewrite length_app, !batch_ok_num_columns. }
  assert (0 < num_columns l)%nat.
  { apply bind_Ok_inv in Hlk as (col & Hc & _). unfold column in Hc.
    apply ok_or_Ok_inv, lookup_lt_Some in Hc. unfold num_columns. lia. }
  rewrite decide_True in Hp by (apply Forall_forall; intros i Hi%elem_of_seq; lia).
  rewrite decide_False in Hp by (rewrite Hw; destruct (num_columns l); [lia|done]).
  rewrite list_as_seq, Hw, join_columns_all in Hp.
  destruct Hp as (fs & cs & [= <-] & [= <-] & -> & _). done.
Qed.

(** C2: the hash join is the nested-loop join: a well-formed batch with the
    left columns then the right columns, whose rows are the pairs of rows with
    equal non-null keys, in left-major order. *)
Theorem hash_join_correct l r lkey rkey lk rk :
  batch_ok l → batch_ok r →
  int64_column l lkey = Ok lk → int64_column r rkey = Ok rk →
  Z.of_nat (num_rows l) ≤ U32 → Z.of_nat (num_rows r) ≤ u32_max →
  let pairs := join_pairs lk rk in
  hash_join l r lkey rkey
  = Ok (mkBatch (Schema_new (fields (schema l) ++ fields (schema r)))
          (((λ c, array_take c pairs.*1) <$> columns l)
           ++ ((λ c, array_take c pairs.*2) <$> columns r)) (length pairs)) ∧
  ∀ i j, (Z.of_nat i, Z.of_nat j) ∈ pairs ↔
    ∃ k, lk !! i = Some (Some k) ∧ rk !! j = Some (Some k).
Proof.
  intros Hl Hr Hlk Hrk Hll Hrl pairs. split; [by apply hash_join_spec|apply elem_of_join_pairs].
Qed.
End Tables.

(** ** A concrete join *)

Module JoinExample.

Definition orders : RecordBatch :=
  mkBatch (Schema_new [Field_new "cust" Int64 true; Field_new "amount" Int64 true])
          [Int64Array_of [Some 7; None; Some 3; Some 7]; Int64Array_of [Some 10; Some 20; None; Some 40]] 4.
Definition customers : RecordBatch :=
  mkBatch (Schema_new [Field_new "id" Int64 true])
          [Int64Array_of [Some 3; Some 7; None; Some 7]] 4.

Definition orders_keys : list (option Z) := [Some 7; None; Some 3; Some 7].
Definition customers_keys : list (option Z) := [Some 3; Some 7; None; Some 7].

(** Two iteration orders of the same maps. *)
Definition forward : HashOrder := map_to_list.
Definition backward : HashOrder := λ m, reverse (map_to_list m).

#[local] Instance forward_law : @HashOrderLaw forward.
Proof. intros m. reflexivity. Qed.
#[local] Instance backward_law : @HashOrderLaw backward.
Proof. intros m. apply reverse_Permutation. Qed.

Lemma demo_ok : batch_ok orders ∧ batch_ok customers.
Proof. split; apply (bool_decide_unpack _); vm_compute; exact I. Qed.

Lemma join_table_correct_witness :
  ∃ t, @JoinTable_build backward customers 0 = Ok t ∧
    (∀ k, ∃ l, JoinTable_matches t k = Ok l ∧ StronglySorted Z.lt l ∧
       ∀ j, Z.of_nat j ∈ l ↔ customers_keys !! j = Some (Some k)) ∧
    (∀ k, k ∈ dom (ranges t) ↔ Some k ∈ customers_keys).
Proof.
  apply (@join_table_correct backward backward_law customers 0);
    [vm_compute; reflexivity | vm_compute; discriminate].
Defined.

Lemma hash_join_probe_correct_witness :
  join_pairs orders_keys customers_keys = [(0, 1); (0, 3); (2, 0); (3, 1); (3, 3)] ∧
  ∃ t, @JoinTable_build forward customers 0 = Ok t ∧
  ∃ fs cs, let out := mkBatch (Schema_new fs) cs 5 in
    mapM (λ i, join_fields orders customers !! i) [2; 1]%nat = Some fs ∧
    mapM (join_column orders customers (join_pairs orders_keys customers_keys)) [2; 1]%nat
      = Some cs ∧
    hash_join_probe orders 0 customers t (Some [2; 1]%nat) = Ok out ∧ batch_ok out.
Proof.
  split; [vm_compute; reflexivity|]. destruct demo_ok as [Ho Hc].
  exact (@hash_join_probe_correct forward forward_law _ _ orders customers 0 0 orders_keys
           customers_keys (Some [2; 1]%nat) Ho Hc eq_refl eq_refl
           ltac:(vm_compute; discriminate) ltac:(vm_compute; discriminate)).
Defined.

Lemma hash_join_correct_witness :
  @hash_join _ backward orders customers 0 0 = @hash_join _ forward orders customers 0 0 ∧
  is_ok (@hash_join _ forward orders customers 0 0) = true.
Proof.
  destruct demo_ok as [Ho Hc].
  pose proof (@hash_join_correct backward backward_law _ _ orders customers 0 0 orders_keys
    customers_keys Ho Hc eq_refl eq_refl ltac:(vm_compute; discriminate)
    ltac:(vm_compute; discriminate)) as [-> _].
  pose proof (@hash_join_correct forward forward_law _ _ orders customers 0 0 orders_keys
    customers_keys Ho Hc eq_refl eq_refl ltac:(vm_compute; discriminate)
    ltac:(vm_compute; discriminate)) as [-> _].
  split; reflexivity.
Defined.

End JoinExample.
