(* ===== verification/AggregateCorrect.v ===== *)
(** * The grouped aggregate computes the SQL aggregates

    Properties of [aggregate] of [Kernels]: one output row per distinct key,
    keys ascending with the null group last, and in every column the aggregate
    of the group's non-null values in row order; an [Int64] sum outside the
    type is an error. *)

From S2P Require Import Prelude Floats Arrow Core ArrowKernels Kernels FilterCorrect JoinCorrect.

(** ** The reference *)

(** The rows of the group with key [k] (a null key is a key). *)
Definition group_rows (keys : list (option Z)) (k : option Z) : list nat :=
  filter (λ i, keys !! i = Some k) (seq 0 (length keys)).

(** The non-null values of a column at some rows. *)
Definition values_at {A} (arr : list (option A)) (rws : list nat) : list A :=
  omap (λ r, mjoin (arr !! r)) rws.

(** The keys of the output: each once, ascending, null last. *)
Definition sorted_keys (keys : list (option Z)) : list (option Z) :=
  merge_sort key_le (remove_dups keys).

Definition in_i64 (z : Z) : bool := (i64_min <=? z) && (z <=? i64_max).

(** SQL aggregates of the non-null values of one group. *)
Definition sql_int (func : AggregateFunction) (vs : list Z) : result (option Z) :=
  match func, vs with
  | Count, _ => Ok (Some (Z.of_nat (length vs)))
  | _, [] => Ok None
  | Sum, _ => if in_i64 (sumZ id vs) then Ok (Some (sumZ id vs))
              else Err (Execution "SUM overflowed Int64")
  | Min, v :: vs => Ok (Some (foldl Z.min v vs))
  | Max, v :: vs => Ok (Some (foldl Z.max v vs))
  end.

Definition sql_float (func : AggregateFunction) (vs : list f64) : option f64 :=
  match func, vs with
  | _, [] => None
  | Sum, _ => Some (foldl f64_add f64_zero vs)
  | Min, _ => Some (foldl f64_min f64_infinity vs)
  | Max, _ => Some (foldl f64_max f64_neg_infinity vs)
  | Count, _ => None
  end.

(** One output column of the reference. *)
Definition sql_column (keys : list (option Z)) (func : AggregateFunction) (input : Input) :
    result (DataType * Array) :=
  let ks := sorted_keys keys in
  match func, input with
  | Count, InF arr =>
      Ok (Int64, Int64Array_of
            ((λ k, Some (Z.of_nat (length (values_at arr (group_rows keys k))))) <$> ks))
  | _, InI arr =>
      out ← mapM (λ k, sql_int func (values_at arr (group_rows keys k))) ks;
      Ok (Int64, Int64Array_of out)
  | _, InF arr =>
      Ok (Float64, Float64Array_of ((λ k, sql_float func (values_at arr (group_rows keys k))) <$> ks))
  end.

Definition agg_field_name (b : RecordBatch) (agg : AggregateFunction * nat) : string :=
  agg_name agg.1 +:+ "(" +:+
  (match fields (schema b) !! agg.2 with Some f => field_name f | None => "" end) +:+ ")".

Definition aggregate_reference (b : RecordBatch) (spec : AggregateSpec)
    (keys : list (option Z)) (inputs : list Input) : result RecordBatch :=
  cols ← mapM (λ '(agg, input),
           '(dt, array) ← sql_column keys agg.1 input;
           Ok (Field_new (agg_field_name b agg) dt true, array)) (zip (aggregates spec) inputs);
  let key_name := match fields (schema b) !! group_by spec with
                  | Some f => field_name f | None => "" end in
  Ok (mkBatch (Schema_new (Field_new key_name Int64 true :: (fst <$> cols)))
        (Int64Array_of (sorted_keys keys) :: (snd <$> cols)) (length (sorted_keys keys))).

(** ** Groups of a growing prefix *)

Lemma group_rows_snoc ks o k :
  group_rows (ks ++ [o]) k = group_rows ks k ++ (if decide (o = k) then [length ks] else []).
Proof.
  unfold group_rows. rewrite length_app, Nat.add_1_r, seq_S, filter_app. f_equal.
  - apply filter_ext_in. intros j Hj%elem_of_seq. by rewrite lookup_app_l by lia.
  - rewrite filter_cons, filter_nil. cbn. rewrite list_lookup_middle by done.
    destruct (decide (o = k)) as [->|Hne]; [by rewrite decide_True|].
    by rewrite decide_False by congruence.
Qed.

Lemma group_rows_nil ks k : k ∉ ks → group_rows ks k = [].
Proof.
  intros Hk.
  induction ks as [|o ks IH] using rev_ind; [done|].
  rewrite group_rows_snoc, decide_False by set_solver.
  rewrite app_nil_r. apply IH. set_solver.
Qed.

Lemma length_group_rows ks k : (length (group_rows ks k) ≤ length ks)%nat.
Proof.
  unfold group_rows. etransitivity; [apply length_filter|]. by rewrite length_seq.
Qed.

Lemma values_at_snoc {A} (arr : list (option A)) rws r :
  values_at arr (rws ++ [r]) =
  values_at arr rws ++ (match mjoin (arr !! r) with Some v => [v] | None => [] end).
Proof. unfold values_at. rewrite omap_app. cbn. by destruct (mjoin (arr !! r)). Qed.

Lemma length_values_at {A} (arr : list (option A)) rws :
  (length (values_at arr rws) ≤ length rws)%nat.
Proof. unfold values_at. induction rws; cbn; [lia|]. destruct (mjoin _); cbn; lia. Qed.

(** ** Accumulators *)

(** The accumulator after the rows [rws] of a group. *)
Definition acc_of (i : Input) (rws : list nat) : Acc :=
  match i with
  | InI arr => let vs := values_at arr rws in
      AccI64 (Z.of_nat (length vs)) (sumZ id vs) (foldl Z.min i64_max vs) (foldl Z.max i64_min vs)
  | InF arr => let vs := values_at arr rws in
      AccF64 (Z.of_nat (length vs)) (foldl f64_add f64_zero vs)
             (foldl f64_min f64_infinity vs) (foldl f64_max f64_neg_infinity vs)
  end.

(** An input has a cell for each of [n] rows and its integers fit [i64]. *)
Definition input_ok (n : nat) (i : Input) : Prop :=
  match i with
  | InI arr => length arr = n ∧ Forall (λ o, match o with Some v => is_i64 v | None => True end) arr
  | InF arr => length arr = n
  end.

Lemma values_at_i64 arr rws :
  Forall (λ o, match o with Some v => is_i64 v | None => True end) arr →
  Forall is_i64 (values_at arr rws).
Proof.
  intros H. apply Forall_forall. intros v (r & _ & Hr)%list_elem_of_omap.
  destruct (arr !! r) as [[w|]|] eqn:E; cbn in Hr; [|done..]. injection Hr as ->.
  by apply (Forall_lookup_1 _ _ _ _ H E).
Qed.

Lemma sumZ_i64_bound vs :
  Forall is_i64 vs → - (2 ^ 63 * Z.of_nat (length vs)) ≤ sumZ id vs ≤ 2 ^ 63 * Z.of_nat (length vs).
Proof.
  induction 1 as [|v vs Hv _ IH]; cbn -[Z.mul Z.of_nat]; [lia|].
  unfold is_i64, i64_min, i64_max, id in *. lia.
Qed.

Lemma acc_update_spec i rws n r :
  input_ok n i → (r < n)%nat → Z.of_nat (length rws) + 1 < 2 ^ 63 →
  acc_update (acc_of i rws) i r = Ok (acc_of i (rws ++ [r])).
Proof.
  intros Hi Hr Hlen. destruct i as [arr|arr]; cbn [acc_update acc_of].
  - destruct Hi as [Hn Hv]. destruct (lookup_lt_is_Some_2 arr r) as [o Ho]; [lia|].
    unfold index. rewrite Ho. cbn [mbind res_bind]. f_equal.
    rewrite values_at_snoc, Ho. cbn [mjoin option_join].
    destruct o as [v|]; [|by rewrite app_nil_r].
    rewrite length_app, sumZ_app, !foldl_app. cbn -[Z.of_nat Z.pow].
    pose proof (values_at_i64 arr rws Hv) as Hvs. pose proof (length_values_at arr rws).
    pose proof (sumZ_i64_bound _ Hvs).
    assert (is_i64 v) as Hv64 by (by apply (Forall_lookup_1 _ _ _ _ Hv Ho)).
    unfold is_i64, i64_min, i64_max in Hv64. unfold wrap_i64, wrap_i128, id in *.
    rewrite !Z.mod_small by nia. f_equal; lia.
  - cbn in Hi. destruct (lookup_lt_is_Some_2 arr r) as [o Ho]; [lia|].
    unfold index. rewrite Ho. cbn [mbind res_bind]. f_equal.
    rewrite values_at_snoc, Ho. cbn [mjoin option_join].
    destruct o as [v|]; [|by rewrite app_nil_r].
    rewrite length_app, !foldl_app. cbn -[Z.of_nat Z.pow].
    pose proof (length_values_at arr rws). unfold wrap_i64.
    rewrite Z.mod_small by lia. f_equal; lia.
Qed.

Lemma update_accs_spec n inputs rws r :
  Forall (input_ok n) inputs → (r < n)%nat → Z.of_nat (length rws) + 1 < 2 ^ 63 →
  update_accs ((λ i, acc_of i rws) <$> inputs) inputs r
  = Ok ((λ i, acc_of i (rws ++ [r])) <$> inputs).
Proof.
  intros Hin Hr Hlen. induction Hin as [|i inputs Hi _ IH]; [done|].
  cbn [fmap list_fmap update_accs]. erewrite acc_update_spec by done. cbn [mbind res_bind].
  change (list_fmap Input Acc (λ i, acc_of i rws) inputs) with ((λ i, acc_of i rws) <$> inputs).
  by rewrite IH.
Qed.

Lemma fresh_accs_spec inputs :
  mapM (λ i, Acc_for_type (input_type i)) inputs = Ok ((λ i, acc_of i []) <$> inputs).
Proof. apply mapM_res_fmap. by intros [arr|arr] _. Qed.

(** ** The row loop *)

(** The loop state after the keys [ks]: groups in order of first appearance,
    each with the accumulators of its rows so far. *)
Record agg_inv (inputs : list Input) (ks : list (option Z)) (s : AggState) : Prop := {
  inv_nodup : NoDup (group_keys s);
  inv_keys k : k ∈ group_keys s ↔ k ∈ ks;
  inv_index k g : agg_index s !! k = Some g ↔ group_keys s !! g = Some k;
  inv_accs : agg_accs s =
    (λ k, (λ i, acc_of i (group_rows ks k)) <$> inputs) <$> group_keys s;
}.

(** Replacing the image of one element of a duplicate-free list. *)
Lemma insert_fmap_NoDup {A B} (f f' : A → B) l g x :
  NoDup l → l !! g = Some x → (∀ y, y ≠ x → f y = f' y) →
  <[g := f' x]> (f <$> l) = f' <$> l.
Proof.
  intros Hnd Hg Hff. apply list_eq. intros i. rewrite list_lookup_fmap.
  destruct (decide (i = g)) as [->|Hne].
  - rewrite list_lookup_insert_eq, Hg; [done|]. rewrite length_fmap. by eapply lookup_lt_Some.
  - rewrite list_lookup_insert_ne, list_lookup_fmap by done.
    destruct (l !! i) as [y|] eqn:Hi; [|done]. cbn. f_equal. apply Hff. intros ->.
    apply Hne. by eapply NoDup_lookup.
Qed.

Lemma group_of_spec inputs ks s k :
  agg_inv inputs ks s →
  ∃ s' g, group_of s k inputs = Ok (s', g) ∧ group_keys s' !! g = Some k ∧
    NoDup (group_keys s') ∧ (∀ k', k' ∈ group_keys s' ↔ k' ∈ ks ++ [k]) ∧
    (∀ k' g', agg_index s' !! k' = Some g' ↔ group_keys s' !! g' = Some k') ∧
    agg_accs s' = (λ k, (λ i, acc_of i (group_rows ks k)) <$> inputs) <$> group_keys s'.
Proof.
  intros [Hnd Hk Hix Hacc]. unfold group_of. destruct (agg_index s !! k) as [g|] eqn:E.
  - exists s, g. apply Hix in E as Hg. split_and!; [done..| |done|done].
    intros k'. rewrite Hk, elem_of_app, list_elem_of_singleton.
    assert (k ∈ ks) by (apply Hk; by eapply list_elem_of_lookup_2). naive_solver.
  - assert (k ∉ group_keys s) as Hnew.
    { intros [g Hg]%list_elem_of_lookup_1. apply Hix in Hg. congruence. }
    rewrite fresh_accs_spec. cbn. eexists _, _. split; [done|]. cbn. split_and!.
    + by apply list_lookup_middle.
    + apply NoDup_app. split_and!; [done|set_solver|apply NoDup_singleton].
    + intros k'. rewrite !elem_of_app, !list_elem_of_singleton, Hk. done.
    + intros k' g'. destruct (decide (k = k')) as [<-|Hne].
      * rewrite lookup_insert_eq, lookup_app_Some, list_lookup_singleton_Some. split.
        -- intros [= <-]. right. split_and!; [lia..|done].
        -- intros [Hg|(? & ? & _)]; [|f_equal; lia].
           exfalso. apply Hnew. by eapply list_elem_of_lookup_2.
      * rewrite lookup_insert_ne, Hix by done.
        rewrite lookup_app_Some, list_lookup_singleton_Some. naive_solver.
    + rewrite fmap_app, Hacc. cbn. by rewrite (group_rows_nil ks k) by (by rewrite <- Hk).
Qed.

Lemma aggregate_rows_spec inputs keys :
  Forall (input_ok (length keys)) inputs → Z.of_nat (length keys) < 2 ^ 63 →
  ∀ n m s, (n + m = length keys)%nat → agg_inv inputs (take n keys) s →
  ∃ s', aggregate_rows keys inputs (seq n m) s = Ok s' ∧ agg_inv inputs keys s'.
Proof.
  intros Hin Hsmall n m. revert n. induction m as [|m IH]; intros n s Hnm Hinv.
  { exists s. split; [done|]. by rewrite take_ge in Hinv by lia. }
  destruct (lookup_lt_is_Some_2 keys n) as [k Hk]; [lia|].
  cbn [seq aggregate_rows]. rewrite (index_Some _ _ _ Hk). cbn [mbind res_bind].
  destruct (group_of_spec _ _ _ k Hinv) as (s1 & g & -> & Hg & Hnd & Hks & Hix & Hacc).
  cbn [mbind res_bind].
  erewrite index_Some; [|by rewrite Hacc, list_lookup_fmap, Hg]. cbn [mbind res_bind].
  pose proof (length_group_rows (take n keys) k) as Hgr. rewrite length_take in Hgr.
  rewrite (update_accs_spec (length keys)); [|done|lia|lia]. cbn [mbind res_bind].
  apply IH; [lia|]. rewrite (take_S_r _ _ _ Hk). split; cbn; [done|done|done|].
  assert (∀ k', group_rows (take n keys ++ [k]) k'
    = group_rows (take n keys) k' ++ (if decide (k = k') then [n] else [])) as Hrows.
  { intros k'. rewrite group_rows_snoc, length_take. by replace (n `min` length keys)%nat with n by lia. }
  rewrite <- (insert_fmap_NoDup
    (λ k, (λ i, acc_of i (group_rows (take n keys) k)) <$> inputs) _ _ g k Hnd Hg).
  - by rewrite Hacc, Hrows, decide_True.
  - intros k' Hne. by rewrite Hrows, decide_False, app_nil_r.
Qed.

(** ** The output order *)

#[local] Instance key_le_trans : Transitive key_le.
Proof. intros [x|] [y|] [z|]; cbn; lia || done. Qed.
#[local] Instance key_le_total : Total key_le.
Proof. intros [x|] [y|]; cbn; lia || tauto. Qed.
#[local] Instance key_le_antisymm : AntiSymm (=) key_le.
Proof. intros [x|] [y|]; cbn; intros; f_equal; lia || done. Qed.

Lemma group_order_keys gk ks :
  NoDup gk → (∀ k, k ∈ gk ↔ k ∈ ks) →
  (λ g, gk !!! g) <$> group_order gk = sorted_keys ks.
Proof.
  intros Hnd Hk. unfold group_order, sorted_keys.
  assert (Transitive (group_le gk)) by (intros a b c; apply key_le_trans).
  assert (Total (group_le gk)) by (intros a b; apply key_le_total).
  apply (StronglySorted_unique key_le).
  - pose proof (StronglySorted_merge_sort (group_le gk) (seq 0 (length gk))) as Hs.
    induction Hs as [|a l _ IH Ha]; cbn; constructor; [done|].
    apply Forall_fmap. exact Ha.
  - by apply (StronglySorted_merge_sort _).
  - rewrite !merge_sort_Permutation.
    assert ((λ g, gk !!! g) <$> seq 0 (length gk) = gk) as ->.
    { apply list_eq. intros i. rewrite list_lookup_fmap.
      destruct (gk !! i) eqn:E.
      - rewrite lookup_seq_lt by (by eapply lookup_lt_Some). cbn. f_equal.
        by apply list_lookup_total_correct.
      - by rewrite lookup_seq_ge by (by apply lookup_ge_None). }
    apply NoDup_Permutation; [done|apply NoDup_remove_dups|].
    intros k. by rewrite elem_of_remove_dups.
Qed.

(** ** Output cells *)

Lemma accs_in_order_spec inputs keys s a i :
  agg_inv inputs keys s → inputs !! a = Some i →
  accs_in_order (agg_accs s) (group_order (group_keys s)) a
  = Ok ((λ k, acc_of i (group_rows keys k)) <$> sorted_keys keys).
Proof.
  intros [Hnd Hk _ Hacc] Hi. rewrite <- (group_order_keys (group_keys s) keys Hnd Hk).
  rewrite <- list_fmap_compose. apply mapM_res_fmap. intros g Hg.
  assert (g < length (group_keys s))%nat as Hlt.
  { unfold group_order in Hg. rewrite merge_sort_Permutation in Hg. apply elem_of_seq in Hg. lia. }
  destruct (lookup_lt_is_Some_2 _ _ Hlt) as [k Hgk]. cbn.
  erewrite index_Some; [|by rewrite Hacc, list_lookup_fmap, Hgk]. cbn.
  rewrite (list_lookup_total_correct _ _ _ Hgk).
  apply index_Some. by rewrite list_lookup_fmap, Hi.
Qed.

Lemma int_cell_spec func arr rws :
  Forall (λ o, match o with Some v => is_i64 v | None => True end) arr →
  int_cell func (acc_of (InI arr) rws) = sql_int func (values_at arr rws).
Proof.
  intros Harr. pose proof (values_at_i64 arr rws Harr) as Hv. cbn [acc_of].
  destruct (values_at arr rws) as [|v vs]; [by destruct func|].
  apply Forall_cons in Hv as [[Hv1 Hv2] _]. cbn [length].
  assert (0 <? Z.of_nat (S (length vs)) = true) as Hc by (apply Z.ltb_lt; lia).
  destruct func; cbn [int_cell sql_int acc_count]; rewrite ?Hc; [done|done| |]; do 2 f_equal; cbn.
  - by rewrite Z.min_r.
  - by rewrite Z.max_r.
Qed.

Lemma count_cell_spec i rws :
  int_cell Count (acc_of i rws) =
  Ok (Some (Z.of_nat (match i with InI arr => length (values_at arr rws)
                                 | InF arr => length (values_at arr rws) end))).
Proof. by destruct i. Qed.

Lemma float_cell_spec func arr rws :
  func ≠ Count → float_cell func (acc_of (InF arr) rws) = sql_float func (values_at arr rws).
Proof.
  intros Hf. cbn [acc_of]. destruct (values_at arr rws) as [|v vs]; [by destruct func|].
  cbn [length]. assert (0 <? Z.of_nat (S (length vs)) = true) as Hc by (apply Z.ltb_lt; lia).
  destruct func; [..|done|done]; cbn [float_cell sql_float]; rewrite ?Hc; done.
Qed.

Lemma agg_column_spec b inputs keys s a i func idx f n :
  agg_inv inputs keys s → Forall (input_ok n) inputs → inputs !! a = Some i →
  fields (schema b) !! idx = Some f →
  agg_column b inputs (agg_accs s) (group_order (group_keys s)) a (func, idx)
  = ('(dt, array) ← sql_column keys func i;
     Ok (Field_new (agg_field_name b (func, idx)) dt true, array)).
Proof.
  intros Hinv Hin Hi Hf. unfold agg_column, agg_field_name. cbn [fst snd].
  rewrite (index_Some _ _ _ Hf), Hf. cbn [mbind res_bind].
  rewrite (index_Some _ _ _ Hi). cbn [mbind res_bind].
  rewrite (accs_in_order_spec _ _ _ _ _ Hinv Hi). cbn [mbind res_bind].
  pose proof (Forall_lookup_1 _ _ _ _ Hin Hi) as Hok. destruct i as [arr|arr].
  - destruct Hok as [_ Harr].
    assert (mapM (int_cell func) ((λ k, acc_of (InI arr) (group_rows keys k)) <$> sorted_keys keys)
      = mapM (λ k, sql_int func (values_at arr (group_rows keys k))) (sorted_keys keys)) as Hm.
    { apply mapM_fmap_ext. intros k _. by apply int_cell_spec. }
    destruct func; cbn [sql_column]; by rewrite Hm.
  - assert (func ≠ Count →
      float_cell func <$> ((λ k, acc_of (InF arr) (group_rows keys k)) <$> sorted_keys keys)
      = (λ k, sql_float func (values_at arr (group_rows keys k))) <$> sorted_keys keys) as Hm.
    { intros Hne. rewrite <- list_fmap_compose. apply list_fmap_ext. intros ? k _.
      by apply float_cell_spec. }
    destruct func; cbn [sql_column]; [by rewrite Hm| |by rewrite Hm..].
    rewrite (mapM_fmap_ext _ (λ k, Ok (Some (Z.of_nat (length (values_at arr (group_rows keys k)))))))
      by done.
    by rewrite (mapM_res_fmap _ (λ k, Some (Z.of_nat (length (values_at arr (group_rows keys k)))))).
Qed.

Lemma agg_columns_spec b inputs keys s n :
  agg_inv inputs keys s → Forall (input_ok n) inputs →
  ∀ aggs pre suf, inputs = pre ++ suf →
  Forall2 (λ agg i, agg_input b agg.2 = Ok i) aggs suf → batch_ok b →
  agg_columns b inputs (agg_accs s) (group_order (group_keys s)) (length pre) aggs
  = mapM (λ '(agg, input),
           '(dt, array) ← sql_column keys agg.1 input;
           Ok (Field_new (agg_field_name b agg) dt true, array)) (zip aggs suf).
Proof.
  intros Hinv Hin aggs pre suf Hsplit Hagg Hb. revert pre Hsplit.
  induction Hagg as [|[func idx] i aggs suf Hi _ IH]; intros pre Hsplit; [done|].
  cbn [agg_columns zip zip_with mapM].
  assert (∃ f, fields (schema b) !! idx = Some f) as [f Hf].
  { apply bind_Ok_inv in Hi as (col & Hc & _). unfold column in Hc.
    apply ok_or_Ok_inv, lookup_lt_Some in Hc. apply lookup_lt_is_Some_2.
    by rewrite (batch_ok_num_columns _ Hb). }
  rewrite (agg_column_spec b inputs keys s (length pre) i func idx f n);
    [|done|done|rewrite Hsplit; by apply list_lookup_middle|done].
  replace (S (length pre)) with (length (pre ++ [i])) by (rewrite length_app; cbn; lia).
  rewrite IH by (by rewrite <- app_assoc). cbn [fst]. reflexivity.
Qed.

(** ** The output is a well-formed batch *)

Lemma Int64Array_ok name l :
  Forall (λ o, match o with Some v => is_i64 v | None => True end) l →
  column_ok (Field_new name Int64 true) (Int64Array_of l) = true.
Proof.
  intros Hl. unfold column_ok, array_ok, Int64Array_of. cbn. rewrite bool_decide_true by done.
  rewrite andb_true_r. cbn. induction Hl as [|[v|] l Hv _ IH]; cbn; [done| |done].
  rewrite IH, andb_true_r. by apply bool_decide_eq_true.
Qed.

Lemma Float64Array_ok name l :
  column_ok (Field_new name Float64 true) (Float64Array_of l) = true.
Proof.
  unfold column_ok, array_ok, Float64Array_of. cbn. rewrite bool_decide_true by done.
  rewrite andb_true_r. cbn. by induction l as [|[v|] l IH].
Qed.

Lemma foldl_Zmin_in v vs : foldl Z.min v vs ∈ v :: vs.
Proof.
  revert v. induction vs as [|w vs IH]; intros v; cbn; [set_solver|].
  specialize (IH (Z.min v w)). destruct (Z.min_spec v w) as [[_ E]|[_ E]]; rewrite E in *; set_solver.
Qed.

Lemma foldl_Zmax_in v vs : foldl Z.max v vs ∈ v :: vs.
Proof.
  revert v. induction vs as [|w vs IH]; intros v; cbn; [set_solver|].
  specialize (IH (Z.max v w)). destruct (Z.max_spec v w) as [[_ E]|[_ E]]; rewrite E in *; set_solver.
Qed.

Lemma sql_int_i64 func vs o :
  Forall is_i64 vs → Z.of_nat (length vs) < 2 ^ 63 → sql_int func vs = Ok o →
  match o with Some v => is_i64 v | None => True end.
Proof.
  intros Hvs Hlen. rewrite Forall_forall in Hvs. destruct func; cbn [sql_int].
  - destruct vs as [|v vs]; [by intros [= <-]|]. destruct (in_i64 _) eqn:E; [|done].
    intros [= <-]. apply andb_true_iff in E as [? ?]. split; by apply Z.leb_le.
  - intros [= <-]. unfold is_i64, i64_min, i64_max. lia.
  - destruct vs as [|v vs]; intros [= <-]; [done|]. apply Hvs, foldl_Zmin_in.
  - destruct vs as [|v vs]; intros [= <-]; [done|]. apply Hvs, foldl_Zmax_in.
Qed.

Lemma sql_column_ok keys func i dt array name :
  input_ok (length keys) i → Z.of_nat (length keys) < 2 ^ 63 →
  sql_column keys func i = Ok (dt, array) →
  column_ok (Field_new name dt true) array = true ∧
  array_len array = length (sorted_keys keys).
Proof.
  intros Hi Hsmall. destruct i as [arr|arr].
  - destruct Hi as [_ Harr]. intros Hs.
    assert (∃ out, mapM (λ k, sql_int func (values_at arr (group_rows keys k)))
      (sorted_keys keys) = Ok out ∧ dt = Int64 ∧ array = Int64Array_of out) as (out & Hm & -> & ->).
    { destruct func; apply bind_Ok_inv in Hs as (out & ? & [= <- <-]); eauto. }
    apply mapM_res_Ok in Hm. unfold array_len, Int64Array_of. cbn [values]. rewrite length_fmap.
    split; [|by rewrite (Forall2_length _ _ _ Hm)]. apply Int64Array_ok.
    apply Forall_forall. intros o [j Hj]%list_elem_of_lookup_1.
    destruct (Forall2_lookup_r _ _ _ _ _ Hm Hj) as (k & _ & Hk).
    eapply sql_int_i64; [by apply values_at_i64| |exact Hk].
    pose proof (length_values_at arr (group_rows keys k)).
    pose proof (length_group_rows keys k). lia.
  - assert (∀ l : list (option Z), array_len (Int64Array_of l) = length l) as Hl1
      by (intros; apply length_fmap).
    assert (∀ l : list (option f64), array_len (Float64Array_of l) = length l) as Hl2
      by (intros; apply length_fmap).
    destruct func; intros [= <- <-]; rewrite ?Hl1, ?Hl2, length_fmap;
      (split; [|done]); try apply Float64Array_ok.
    apply Int64Array_ok, Forall_fmap, Forall_forall. intros k _. cbn.
    pose proof (length_values_at arr (group_rows keys k)).
    pose proof (length_group_rows keys k). unfold is_i64, i64_min, i64_max. lia.
Qed.

Lemma downcast_int64_ok f a l :
  column_ok f a = true → downcast_int64 a = Some l →
  Forall (λ o, match o with Some v => is_i64 v | None => True end) l.
Proof.
  unfold downcast_int64, column_ok, array_ok. case_decide as Ht; [|done].
  rewrite !andb_true_iff. intros [[_ Ha] _] [= <-]. apply Forall_fmap.
  rewrite Ht, forallb_forall in Ha. apply Forall_forall. intros [v|] Ho; cbn; [|done].
  apply list_elem_of_In in Ho. specialize (Ha _ Ho). cbn in Ha.
  destruct v; try done. by apply bool_decide_eq_true in Ha.
Qed.

Lemma int64_column_i64 b i keys :
  batch_ok b → int64_column b i = Ok keys →
  Forall (λ o, match o with Some v => is_i64 v | None => True end) keys.
Proof.
  intros Hb [col [Hc Hk]]%bind_Ok_inv. unfold column in Hc. apply ok_or_Ok_inv in Hc, Hk.
  destruct (Forall2_lookup_r _ _ _ _ _ Hb Hc) as (f & _ & Hok & _).
  by eapply downcast_int64_ok.
Qed.

Lemma agg_input_ok b idx i : batch_ok b → agg_input b idx = Ok i → input_ok (num_rows b) i.
Proof.
  intros Hb [col [Hc Hk]]%bind_Ok_inv. unfold column in Hc. apply ok_or_Ok_inv in Hc, Hk.
  destruct (Forall2_lookup_r _ _ _ _ _ Hb Hc) as (f & _ & Hok & Hlen). unfold array_len in Hlen.
  destruct (data_type col) eqn:Ht; try done.
  - destruct (downcast_int64 col) as [l|] eqn:E; [|done]. injection Hk as <-. split.
    + unfold downcast_int64 in E. case_decide; [|done]. injection E as <-. by rewrite length_fmap.
    + by eapply downcast_int64_ok.
  - destruct (downcast_float64 col) as [l|] eqn:E; [|done]. injection Hk as <-. cbn.
    unfold downcast_float64 in E. case_decide; [|done]. injection E as <-. by rewrite length_fmap.
Qed.

Section Aggregate.
Context `{ArrowLaws}.

Lemma sorted_keys_i64 keys :
  Forall (λ o, match o with Some v => is_i64 v | None => True end) keys →
  Forall (λ o, match o with Some v => is_i64 v | None => True end) (sorted_keys keys).
Proof.
  rewrite !Forall_forall. intros Hk o Ho. apply Hk. unfold sorted_keys in Ho.
  by rewrite merge_sort_Permutation, elem_of_remove_dups in Ho.
Qed.

Lemma aggregate_reference_ok b spec keys inputs ref :
  Forall (input_ok (length keys)) inputs → Z.of_nat (length keys) < 2 ^ 63 →
  Forall (λ o, match o with Some v => is_i64 v | None => True end) keys →
  aggregate_reference b spec keys inputs = Ok ref → batch_ok ref.
Proof.
  intros Hin Hn Hk (cols & Hm & [= <-])%bind_Ok_inv. unfold batch_ok. cbn. constructor.
  { split; [by apply Int64Array_ok, sorted_keys_i64|apply length_fmap]. }
  apply mapM_res_Ok in Hm. apply Forall2_fmap, Forall_Forall2_diag, Forall_forall.
  intros [fd a] [j Hj]%list_elem_of_lookup_1.
  destruct (Forall2_lookup_r _ _ _ _ _ Hm Hj) as ([agg i] & Hz & Hcol).
  apply bind_Ok_inv in Hcol as ([dt array] & Hsql & [= <- <-]). cbn.
  apply (sql_column_ok keys agg.1 i); [|done..].
  apply lookup_zip_with_Some in Hz as (agg' & i' & [= <- <-] & _ & Hi).
  by apply (Forall_lookup_1 _ _ _ _ Hin Hi).
Qed.

Lemma aggregate_inputs_ok b spec keys inputs :
  batch_ok b → int64_column b (group_by spec) = Ok keys →
  Forall2 (λ agg i, agg_input b agg.2 = Ok i) (aggregates spec) inputs →
  Forall (input_ok (length keys)) inputs.
Proof.
  intros Hb Hkeys Hinputs. rewrite (int64_column_length _ _ _ Hb Hkeys).
  apply Forall_forall. intros i [j Hj]%list_elem_of_lookup_1.
  destruct (Forall2_lookup_r _ _ _ _ _ Hinputs Hj) as (agg & _ & Hi).
  by eapply agg_input_ok.
Qed.

Lemma aggregate_spec b spec keys inputs :
  batch_ok b → int64_column b (group_by spec) = Ok keys →
  Forall2 (λ agg i, agg_input b agg.2 = Ok i) (aggregates spec) inputs →
  Z.of_nat (num_rows b) < 2 ^ 63 →
  aggregate b spec = aggregate_reference b spec keys inputs.
Proof.
  intros Hb Hkeys Hinputs Hsmall. pose proof (int64_column_length _ _ _ Hb Hkeys) as Hlen.
  pose proof (aggregate_inputs_ok b spec keys inputs Hb Hkeys Hinputs) as Hin.
  unfold aggregate. rewrite Hkeys. cbn [mbind res_bind].
  assert (mapM (λ '(_, idx), agg_input b idx) (aggregates spec) = Ok inputs) as ->.
  { apply mapM_res_Ok. eapply Forall2_impl; [exact Hinputs|]. by intros [func idx] i. }
  cbn [mbind res_bind]. rewrite <- Hlen in Hsmall.
  destruct (aggregate_rows_spec inputs keys Hin Hsmall 0 (num_rows b) (mkAgg ∅ [] []))
    as (s & -> & Hinv); [by rewrite Hlen| |].
  { split; cbn; [constructor|set_solver|done|done]. }
  cbn [mbind res_bind].
  assert (∃ f, fields (schema b) !! group_by spec = Some f) as [f Hf].
  { apply bind_Ok_inv in Hkeys as (col & Hc & _). unfold column in Hc.
    apply ok_or_Ok_inv, lookup_lt_Some in Hc. apply lookup_lt_is_Some_2.
    by rewrite (batch_ok_num_columns _ Hb). }
  rewrite (index_Some _ _ _ Hf). cbn [mbind res_bind]. unfold aggregate_reference. rewrite Hf.
  pose proof (agg_columns_spec b inputs keys s _ Hinv Hin (aggregates spec) [] inputs
    eq_refl Hinputs Hb) as Hcols. cbn [length] in Hcols. rewrite Hcols.
  pose proof (aggregate_reference_ok b spec keys inputs) as Hrok.
  unfold aggregate_reference in Hrok. rewrite Hf in Hrok.
  destruct (mapM _ (zip (aggregates spec) inputs)) as [cols|e|] eqn:Hm; [|done..].
  cbn [mbind res_bind] in *.
  rewrite (group_order_keys _ keys (inv_nodup _ _ _ Hinv) (inv_keys _ _ _ Hinv)).
  assert (array_len (Int64Array_of (sorted_keys keys)) = length (sorted_keys keys)) as Hkl
    by apply length_fmap.
  rewrite try_new_law; [cbn [map_err]; by rewrite Hkl|]. rewrite Hkl.
  apply (Hrok _ Hin Hsmall); [|done]. by eapply int64_column_i64.
Qed.
(** C3: on a well-formed batch with an [Int64] key and [Int64] or [Float64]
    inputs the aggregate is the SQL one: the output keys are the distinct keys
    of the batch, ascending with null last, every cell is [COUNT], [SUM], [MIN]
    or [MAX] of its group's non-null values in row order (null for an empty
    group, [COUNT] excepted), and the only failure is an [Int64] sum outside
    the type. *)
Theorem aggregate_correct b spec keys inputs :
  batch_ok b → int64_column b (group_by spec) = Ok keys →
  Forall2 (λ agg i, agg_input b agg.2 = Ok i) (aggregates spec) inputs →
  Z.of_nat (num_rows b) < 2 ^ 63 →
  aggregate b spec = aggregate_reference b spec keys inputs ∧
  NoDup (sorted_keys keys) ∧ StronglySorted key_le (sorted_keys keys) ∧
  ∀ k, k ∈ sorted_keys keys ↔ k ∈ keys.
Proof.
  intros Hb Hk Hi Hn. split; [by apply aggregate_spec|]. unfold sorted_keys. split_and!.
  - rewrite merge_sort_Permutation. apply NoDup_remove_dups.
  - apply (StronglySorted_merge_sort _).
  - intros k. by rewrite merge_sort_Permutation, elem_of_remove_dups.
Qed.
End Aggregate.

(** ** A concrete aggregate *)

Module AggregateExample.

Definition sales : RecordBatch :=
  mkBatch (Schema_new [Field_new "k" Int64 true; Field_new "v" Int64 true])
          [Int64Array_of [Some 2; None; Some 1; Some 2; None];
           Int64Array_of [Some 5; Some 9; None; Some (-7); Some 1]] 5.
Definition sales_keys : list (option Z) := [Some 2; None; Some 1; Some 2; None].
Definition sales_input : Input := InI [Some 5; Some 9; None; Some (-7); Some 1].
Definition sales_spec : AggregateSpec := mkSpec 0 [(Sum, 1%nat); (Count, 1%nat); (Min, 1%nat)].

Lemma aggregate_correct_witness :
  (aggregate sales sales_spec
   = aggregate_reference sales sales_spec sales_keys [sales_input; sales_input; sales_input] ∧
   NoDup (sorted_keys sales_keys) ∧ StronglySorted key_le (sorted_keys sales_keys) ∧
   ∀ k, k ∈ sorted_keys sales_keys ↔ k ∈ sales_keys) ∧
  columns <$> aggregate sales sales_spec
  = Ok [Int64Array_of [Some 1; Some 2; None]; Int64Array_of [None; Some (-2); Some 10];
        Int64Array_of [Some 0; Some 2; Some 2]; Int64Array_of [None; Some (-7); Some 1]].
Proof.
  split; [|vm_compute; reflexivity].
  apply (aggregate_correct sales sales_spec sales_keys).
  - apply (bool_decide_unpack _). vm_compute. exact I.
  - reflexivity.
  - repeat constructor.
  - reflexivity.
Defined.

(** The sum is kept at 128 bits: two maximal values overflow the column type. *)
Definition huge : RecordBatch :=
  mkBatch (Schema_new [Field_new "k" Int64 true; Field_new "v" Int64 true])
          [Int64Array_of [Some 1; Some 1]; Int64Array_of [Some i64_max; Some 1]] 2.

Example sum_overflow_is_an_error :
  aggregate huge (mkSpec 0 [(Sum, 1%nat)]) = Err (Execution "SUM overflowed Int64").
Proof. vm_compute. reflexivity. Qed.

End AggregateExample.
