(* ===== verification/VectorCorrect.v ===== *)
(** * The vector distance appends one distance per row

    Properties of [vector_distance] of [Kernels]: the whole behaviour by column
    type and query length, and the appended column cell by cell. *)

From S2P Require Import Prelude Floats Arrow Core ArrowKernels Kernels JoinCorrect.

(** The distance of a cell: null for a null vector. *)
Definition cell_distance (metric : DistanceMetric) (query : list f32) (o : option Value) :
    option f32 :=
  option_map (λ v, distance metric (as_vec v) query) o.

Lemma row_distance_spec metric query item o :
  field_type_of item = Float32 →
  match o with
  | Some v => value_has_type (FixedSizeList item (Z.of_nat (length query))) v = true
  | None => True
  end →
  row_distance metric query (Z.of_nat (length query)) o = Ok (cell_distance metric query o).
Proof.
  intros Hitem. destruct o as [v|]; [|done]. cbn.
  destruct v; try done; [|by intros ?%bool_decide_eq_true].
  rewrite andb_true_iff, !bool_decide_eq_true. intros [_ Hlen]. cbn. unfold slice.
  rewrite !(proj2 (Z.leb_le _ _)) by lia. cbn.
  rewrite drop_0, take_ge by lia. done.
Qed.

Lemma Float32Array_ok name l :
  column_ok (Field_new name Float32 true) (Float32Array_of l) = true.
Proof.
  unfold column_ok, array_ok, Float32Array_of. cbn. rewrite bool_decide_true by done.
  rewrite andb_true_r. cbn. by induction l as [|[v|] l IH].
Qed.

Section Vector.
Context `{ArrowLaws}.

(** The kernel by the type of its column. *)
Lemma vector_distance_cases b ci col query metric name :
  batch_ok b → columns b !! ci = Some col →
  match data_type col with
  | FixedSizeList item n =>
      if decide (field_type_of item = Float32) then
        if decide (n = Z.of_nat (length query)) then
          let out := mkBatch (Schema_new (fields (schema b) ++ [Field_new name Float32 true]))
                       (columns b ++ [Float32Array_of (cell_distance metric query <$> values col)])
                       (num_rows b) in
          vector_distance b ci query metric name = Ok out ∧ batch_ok out
        else ∃ m, vector_distance b ci query metric name = Err (Plan m)
      else ∃ m, vector_distance b ci query metric name = Err (Unsupported "cpu.vector_distance" m)
  | _ => ∃ m, vector_distance b ci query metric name = Err (Unsupported "cpu.vector_distance" m)
  end.
Proof.
  intros Hb Hc. unfold vector_distance, column. rewrite Hc. cbn [ok_or mbind res_bind].
  destruct (data_type col) as [| | | | |item n|] eqn:Ht; try by eexists. cbn [mbind res_bind].
  case_decide as Hitem; [|rewrite bool_decide_false by done; by eexists].
  rewrite bool_decide_true by done. cbn [negb].
  case_decide as Hn.
  2: { destruct (n <? 0); [by eexists|]. rewrite (proj2 (Z.eqb_neq _ _)) by done. by eexists. }
  rewrite Hn, (proj2 (Z.ltb_ge _ _)), Z.eqb_refl by lia. cbn [negb].
  destruct (Forall2_lookup_r _ _ _ _ _ Hb Hc) as (f & _ & Hok & Hlen). unfold array_len in Hlen.
  assert (Forall (λ o, match o with
     | Some v => value_has_type (FixedSizeList item (Z.of_nat (length query))) v = true
     | None => True end) (values col)) as Hvals.
  { unfold column_ok, array_ok in Hok. rewrite !andb_true_iff, forallb_forall in Hok.
    destruct Hok as [[_ Hv] _]. apply Forall_forall. intros [v|] Ho; [|done].
    apply list_elem_of_In in Ho. specialize (Hv _ Ho). by rewrite Ht, Hn in Hv. }
  assert (mapM (λ row, o ← index (values col) row;
            row_distance metric query (Z.of_nat (length query)) o) (seq 0 (num_rows b))
          = Ok (cell_distance metric query <$> values col)) as ->.
  { apply mapM_res_Ok, Forall2_same_length_lookup_2; [by rewrite length_seq, length_fmap|].
    intros i x y [-> Hx]%lookup_seq Hy. apply list_lookup_fmap_Some in Hy as (o & -> & Ho).
    cbn [Nat.add]. rewrite (index_Some _ _ _ Ho). cbn [mbind res_bind].
    eapply row_distance_spec; [done|]. by apply (Forall_lookup_1 _ _ _ _ Hvals Ho). }
  cbn [mbind res_bind]. set (new := Float32Array_of _).
  assert (array_len new = num_rows b) as Hnew.
  { unfold array_len, new, Float32Array_of. cbn. by rewrite !length_fmap. }
  set (out := mkBatch _ (columns b ++ [new]) (num_rows b)).
  assert (batch_ok out) as Hout.
  { unfold batch_ok, out. cbn. apply Forall2_app; [exact Hb|]. constructor; [|done].
    split; [apply Float32Array_ok|done]. }
  split; [|done]. destruct (columns b) as [|c0 cs] eqn:Hcs; [done|].
  assert (array_len c0 = num_rows b) as Hc0.
  { apply (batch_ok_column_len b 0); [done|]. by rewrite Hcs. }
  cbn [app]. rewrite try_new_law; [|by rewrite Hc0]. unfold out. cbn [map_err app]. by rewrite Hc0.
Qed.

(** A successful call: the column was a vector column of the query's dimension,
    and the result is the input with the distances appended. *)
Lemma vector_distance_Ok_inv b ci query metric name r :
  batch_ok b → vector_distance b ci query metric name = Ok r →
  ∃ col item, columns b !! ci = Some col ∧
    data_type col = FixedSizeList item (Z.of_nat (length query)) ∧ field_type_of item = Float32 ∧
    r = mkBatch (Schema_new (fields (schema b) ++ [Field_new name Float32 true]))
          (columns b ++ [Float32Array_of (cell_distance metric query <$> values col)])
          (num_rows b) ∧ batch_ok r.
Proof.
  intros Hb Hr. destruct (columns b !! ci) as [col|] eqn:Hc.
  2: { unfold vector_distance, column in Hr. by rewrite Hc in Hr. }
  pose proof (vector_distance_cases b ci col query metric name Hb Hc) as Hcases.
  destruct (data_type col) as [| | | | |item n|] eqn:Ht;
    try by destruct Hcases as [m Hm]; rewrite Hr in Hm.
  case_decide as Hi; [|by destruct Hcases as [m Hm]; rewrite Hr in Hm].
  case_decide as Hn; [|by destruct Hcases as [m Hm]; rewrite Hr in Hm]. subst n.
  destruct Hcases as [Hok Hb']. rewrite Hr in Hok. injection Hok as ->. exists col, item. done.
Qed.

(** on a well-formed batch, a vector column of the query's dimension gets
    one more [Float32] column, null where the vector is null and the metric's
    distance to the query elsewhere, and every other column is unchanged; a
    column of another type is unsupported and another dimension a plan error. *)
Theorem vector_distance_correct b ci col query metric name :
  batch_ok b → columns b !! ci = Some col →
  match data_type col with
  | FixedSizeList item n =>
      if decide (field_type_of item = Float32) then
        if decide (n = Z.of_nat (length query)) then
          let out := mkBatch (Schema_new (fields (schema b) ++ [Field_new name Float32 true]))
                       (columns b ++ [Float32Array_of (cell_distance metric query <$> values col)])
                       (num_rows b) in
          vector_distance b ci query metric name = Ok out ∧ batch_ok out
        else ∃ m, vector_distance b ci query metric name = Err (Plan m)
      else ∃ m, vector_distance b ci query metric name = Err (Unsupported "cpu.vector_distance" m)
  | _ => ∃ m, vector_distance b ci query metric name = Err (Unsupported "cpu.vector_distance" m)
  end.
Proof. apply vector_distance_cases. Qed.
End Vector.

Module VectorExample.

Definition points : RecordBatch :=
  mkBatch (Schema_new [Field_new "e" (FixedSizeList (Field_new "item" Float32 true) 2) true])
          [mkArray (FixedSizeList (Field_new "item" Float32 true) 2)
             [Some (VVec [F32 0x40400000; F32 0x40800000]); None]] 2.

Lemma vector_distance_correct_witness :
  let out := mkBatch (Schema_new (fields (schema points) ++ [Field_new "d" Float32 true]))
               (columns points ++ [Float32Array_of [Some (F32 0x40a00000); None]]) 2 in
  vector_distance points 0 [f32_zero; f32_zero] L2 "d" = Ok out ∧ batch_ok out.
Proof.
  assert (batch_ok points) as Hb by (apply (bool_decide_unpack _); vm_compute; exact I).
  pose proof (vector_distance_correct points 0 _ [f32_zero; f32_zero] L2 "d" Hb eq_refl) as Hw.
  cbn [data_type] in Hw. rewrite !decide_True in Hw by done. cbv zeta in Hw.
  destruct Hw as [Hw1 Hw2]. split; [rewrite Hw1; vm_compute; reflexivity|].
  apply (bool_decide_unpack _). vm_compute. exact I.
Defined.

End VectorExample.
