(* ===== verification/ConcatCorrect.v ===== *)
(** * Batch boundaries are invisible

    A plan node sees its input as a stream of batches.  Concatenating the
    outputs of the filter, or of the join probe, over the batches of a stream
    gives the output on the concatenated stream. *)

From S2P Require Import Prelude Floats Arrow Core ArrowKernels Kernels FilterCorrect JoinCorrect.

(** A batch of a stream with schema [s]. *)
Definition typed (s : Schema) (b : RecordBatch) : Prop :=
  batch_ok b ∧ fields (schema b) = fields s.

Definition concat_values (bs : list RecordBatch) (i : nat) : list (option Value) :=
  bs ≫= λ b, column_values b i.

Lemma batches_concat_lookup s bs i :
  columns (batches_concat s bs) !! i
  = (λ f, mkArray (field_type_of f) (concat_values bs i)) <$> fields s !! i.
Proof. cbn. by rewrite list_lookup_imap. Qed.

Lemma typed_column s b i f :
  typed s b → fields s !! i = Some f →
  columns b !! i = Some (mkArray (field_type_of f) (column_values b i)) ∧
  column_ok f (mkArray (field_type_of f) (column_values b i)) = true ∧
  length (column_values b i) = num_rows b.
Proof.
  intros [Hb Hf] Hi. rewrite <- Hf in Hi.
  destruct (batch_ok_lookup b i f Hb Hi) as (a & Ha & Hok & Hlen).
  unfold column_values. rewrite Ha. pose proof (column_ok_type _ _ Hok) as Ht.
  destruct a as [dt vs]. cbn in *. subst dt. done.
Qed.

Lemma concat_values_ok s bs i f :
  Forall (typed s) bs → fields s !! i = Some f →
  column_ok f (mkArray (field_type_of f) (concat_values bs i)) = true ∧
  length (concat_values bs i) = sum_list (num_rows <$> bs).
Proof.
  intros Hbs Hi. induction Hbs as [|b bs Hb _ [IHok IHlen]].
  - split; [|done]. unfold column_ok, array_ok. cbn.
    by rewrite bool_decide_eq_true_2, orb_true_r.
  - destruct (typed_column s b i f Hb Hi) as (_ & Hok & Hlen).
    unfold concat_values in *. cbn [mbind list_bind]. split; [|by rewrite length_app, Hlen, IHlen].
    revert Hok IHok. unfold column_ok, array_ok. cbn.
    rewrite !andb_true_iff, !orb_true_iff, !forallb_app, !andb_true_iff. tauto.
Qed.

Lemma batches_concat_ok s bs : Forall (typed s) bs → batch_ok (batches_concat s bs).
Proof.
  intros Hbs. unfold batch_ok. cbn. apply Forall2_same_length_lookup_2; [by rewrite length_imap|].
  intros i f a Hi Ha. rewrite list_lookup_imap, Hi in Ha. injection Ha as <-.
  destruct (concat_values_ok s bs i f Hbs Hi) as [Hok Hlen]. done.
Qed.

Lemma typed_concat_pre s bs :
  Forall (typed s) bs → Forall (λ b, batch_ok (mkBatch s (columns b) (num_rows b))) bs.
Proof.
  intros H. eapply Forall_impl; [exact H|]. intros b [Hb Hf]. unfold batch_ok in *. cbn.
  by rewrite <- Hf.
Qed.

(** ** The filter *)

(** The mask of a predicate, from the values of its columns. *)
Fixpoint pred_mask (cols : nat → list (option Value)) (p : Predicate) : mask :=
  match p with
  | Compare c op lit => option_map (λ v, ord_holds op (value_cmp v lit)) <$> cols c
  | And p1 p2 => zip_with kleene_and (pred_mask cols p1) (pred_mask cols p2)
  end.

(** Every comparison is of a column of the schema with a literal of its type. *)
Fixpoint pred_typed (s : Schema) (p : Predicate) : Prop :=
  match p with
  | Compare c _ lit => ∃ f, fields s !! c = Some f ∧ field_type_of f = literal_data_type lit
  | And l r => pred_typed s l ∧ pred_typed s r
  end.

Lemma pred_typed_fault s b p : typed s b → pred_typed s p → pred_fault b p = None.
Proof.
  intros Hb. induction p as [c op lit|p1 IH1 p2 IH2]; cbn.
  - intros (f & Hf & Ht). destruct (typed_column s b c f Hb Hf) as (-> & _). cbn.
    by rewrite decide_True.
  - intros [Hp1 Hp2]. by rewrite IH1, IH2.
Qed.

Lemma length_pred_mask s b p :
  typed s b → pred_typed s p → length (pred_mask (column_values b) p) = num_rows b.
Proof.
  intros Hb. induction p as [c op lit|p1 IH1 p2 IH2]; cbn.
  - intros (f & Hf & _). destruct (typed_column s b c f Hb Hf) as (_ & _ & Hl).
    by rewrite length_fmap.
  - intros [Hp1 Hp2]. rewrite length_zip_with, IH1, IH2 by done. lia.
Qed.

Section Concat.
Context `{!ArrowKernels, !ArrowLaws, !HashOrder, !HashOrderLaw}.

Lemma evaluate_predicate_mask s b p :
  typed s b → pred_typed s p → evaluate_predicate b p = Ok (pred_mask (column_values b) p).
Proof.
  intros Hb. induction p as [c op lit|p1 IH1 p2 IH2]; cbn.
  - intros (f & Hf & Ht). destruct (typed_column s b c f Hb Hf) as (Hc & _).
    unfold column. rewrite Hc. cbn. rewrite decide_True by done. by rewrite cmp_law.
  - intros [Hp1 Hp2]. rewrite IH1, IH2 by done. cbn.
    by rewrite and_kleene_law by (by rewrite !(length_pred_mask s b)).
Qed.

(** The batch a filter yields, from the mask. *)
Definition masked (b : RecordBatch) (m : mask) (fs : list Field) (projection : list nat) :
    RecordBatch :=
  mkBatch (mkSchema fs (schema_metadata (schema b)))
          (zip_with (λ f i, mkArray (field_type_of f) (mask_filter m (column_values b i)))
                    fs projection) (mask_count m).

Lemma filter_project_mask s b p projection fs :
  typed s b → pred_typed s p → mapM (λ i, fields s !! i) projection = Some fs →
  filter_project b p projection = Ok (masked b (pred_mask (column_values b) p) fs projection) ∧
  typed (mkSchema fs []) (masked b (pred_mask (column_values b) p) fs projection).
Proof.
  intros Hb Hp Hfs. set (m := pred_mask _ p). pose proof (length_pred_mask s b p Hb Hp) as Hm.
  pose proof Hb as [Hbo Hbf].
  assert (mapM (λ i, columns b !! i) projection
    = Some (zip_with (λ f i, mkArray (field_type_of f) (column_values b i)) fs projection)) as Hcs.
  { apply mapM_Some_1 in Hfs. apply mapM_Some_2.
    induction Hfs as [|i f idx fs Hf _ IH]; cbn; [done|]. constructor; [|done].
    by destruct (typed_column s b i f Hb Hf) as (-> & _). }
  pose proof Hfs as Hfs'. rewrite <- Hbf in Hfs'.
  pose proof (batch_ok_project _ _ _ _ Hbo Hfs' Hcs) as Hpo.
  assert (filter_project b p projection = Ok (masked b m fs projection)) as Hf.
  { unfold filter_project. rewrite (evaluate_predicate_mask s) by done. fold m. cbn.
    rewrite (project_law _ _ _ _ Hfs' Hcs). cbn. rewrite filter_law by done. cbn.
    unfold masked. do 2 f_equal. generalize projection as l. clear.
    induction fs as [|f fs IH]; intros [|i l]; cbn; [done..|]. by rewrite IH. }
  split; [done|]. split; [|done].
  pose proof (batch_ok_filter _ m Hpo Hm) as Hok.
  unfold masked, batch_ok in *. cbn in *.
  replace (zip_with _ fs projection) with
    (array_filter m <$> zip_with (λ f i, mkArray (field_type_of f) (column_values b i)) fs projection);
    [done|].
  generalize projection as l. clear.
  induction fs as [|f fs IH]; intros [|i l]; cbn; [done..|]. by rewrite IH.
Qed.

Lemma mask_filter_app {A} m1 m2 (l1 l2 : list A) :
  length m1 = length l1 → mask_filter (m1 ++ m2) (l1 ++ l2) = mask_filter m1 l1 ++ mask_filter m2 l2.
Proof.
  revert l1. induction m1 as [|[[]|] m1 IH]; intros [|x l1] Hl; try done; injection Hl as Hl;
    cbn; by rewrite IH.
Qed.

Lemma mask_count_app m1 m2 : mask_count (m1 ++ m2) = (mask_count m1 + mask_count m2)%nat.
Proof. unfold mask_count. by rewrite filter_app, length_app. Qed.

Lemma pred_mask_app s (c1 c2 : nat → list (option Value)) n p :
  pred_typed s p → (∀ i f, fields s !! i = Some f → length (c1 i) = n) →
  pred_mask (λ i, c1 i ++ c2 i) p = pred_mask c1 p ++ pred_mask c2 p ∧
  length (pred_mask c1 p) = n.
Proof.
  intros Hp Hn. induction p as [c op lit|p1 IH1 p2 IH2]; cbn in *.
  - destruct Hp as (f & Hf & _). rewrite fmap_app, length_fmap. split; [done|]. by eapply Hn.
  - destruct Hp as [Hp1 Hp2]. destruct (IH1 Hp1) as [-> Hl1]. destruct (IH2 Hp2) as [-> Hl2].
    rewrite zip_with_app by congruence. split; [done|]. rewrite length_zip_with. lia.
Qed.

Lemma pred_mask_concat s bs p :
  Forall (typed s) bs → pred_typed s p →
  pred_mask (concat_values bs) p = bs ≫= λ b, pred_mask (column_values b) p.
Proof.
  intros Hbs Hp. induction Hbs as [|b bs Hb Hbs IH].
  - clear Hp. cbn. induction p as [|p1 IH1 p2 IH2]; cbn; [done|]. by rewrite IH1.
  - cbn [mbind list_bind] in *. rewrite <- IH.
    apply (pred_mask_app s (column_values b) (concat_values bs) (num_rows b) p Hp).
    intros j g Hg. by apply (typed_column s b j g).
Qed.

Lemma mask_filter_concat s bs p i f :
  Forall (typed s) bs → pred_typed s p → fields s !! i = Some f →
  mask_filter (pred_mask (concat_values bs) p) (concat_values bs i)
  = bs ≫= λ b, mask_filter (pred_mask (column_values b) p) (column_values b i).
Proof.
  intros Hbs Hp Hf. rewrite (pred_mask_concat s) by done.
  induction Hbs as [|b bs Hb Hbs IH]; [done|].
  unfold concat_values in *. cbn [mbind list_bind]. rewrite mask_filter_app; [by rewrite <- IH|].
  rewrite (length_pred_mask s) by done. symmetry. by apply (typed_column s b i f).
Qed.

(** Filtering the concatenation is concatenating the filtered batches. *)
Lemma filter_concat s bs p projection fs :
  Forall (typed s) bs → pred_typed s p → mapM (λ i, fields s !! i) projection = Some fs →
  let outs := (λ b, masked b (pred_mask (column_values b) p) fs projection) <$> bs in
  filter_project (batches_concat s bs) p projection
  = Ok (mkBatch (mkSchema fs (schema_metadata s)) (columns (batches_concat (mkSchema fs []) outs))
                (sum_list (num_rows <$> outs))).
Proof.
  intros Hbs Hp Hfs outs.
  assert (typed s (batches_concat s bs)) as Hs by (split; [by apply batches_concat_ok|done]).
  destruct (filter_project_mask s _ p projection fs Hs Hp Hfs) as [-> _].
  assert (∀ i f, fields s !! i = Some f → column_values (batches_concat s bs) i = concat_values bs i)
    as Hcv.
  { intros i f Hf. unfold column_values at 1. by rewrite batches_concat_lookup, Hf. }
  assert (pred_mask (column_values (batches_concat s bs)) p = pred_mask (concat_values bs) p) as ->.
  { revert Hp. clear -Hcv. induction p as [c op lit|p1 IH1 p2 IH2]; cbn.
    - intros (f & Hf & _). by rewrite (Hcv c f).
    - intros [Hp1 Hp2]. by rewrite IH1, IH2. }
  unfold masked. do 2 f_equal.
  - apply list_eq. intros k. rewrite batches_concat_lookup. cbn [fields]. rewrite lookup_zip_with.
    apply mapM_Some_1 in Hfs. destruct (fs !! k) as [f|] eqn:Hk; [|done]. cbn.
    destruct (Forall2_lookup_r _ _ _ _ _ Hfs Hk) as (i & Hi & Hf). rewrite Hi. cbn.
    rewrite (Hcv i f), (mask_filter_concat s bs p i f) by done. do 2 f_equal.
    unfold outs, concat_values. clear -Hk Hi. induction bs as [|b bs IH]; cbn; [done|].
    rewrite IH. f_equal. unfold column_values at 3. cbn. by rewrite lookup_zip_with, Hk, Hi.
  - rewrite (pred_mask_concat s) by done. unfold outs. clear.
    induction bs as [|b bs IH]; [done|].
    cbn [mbind list_bind fmap list_fmap sum_list masked num_rows]. by rewrite mask_count_app, IH.
Qed.

(** ** The join probe *)

Definition key_list (vs : list (option Value)) : list (option Z) := option_map as_int <$> vs.

Lemma int64_column_typed s b i f :
  typed s b → fields s !! i = Some f → field_type_of f = Int64 →
  int64_column b i = Ok (key_list (column_values b i)).
Proof.
  intros Hb Hf Ht. destruct (typed_column s b i f Hb Hf) as (Hc & _).
  unfold int64_column, column. rewrite Hc. cbn. unfold downcast_int64. cbn.
  by rewrite decide_True.
Qed.

Lemma bind_ext_in {A B} (f g : A → list B) l : (∀ x, x ∈ l → f x = g x) → l ≫= f = l ≫= g.
Proof.
  intros Hfg. induction l as [|x l IH]; [done|]. cbn. rewrite Hfg, IH by set_solver. done.
Qed.

Definition shift_pairs (n : nat) (ps : list (Z * Z)) : list (Z * Z) :=
  (λ '(i, j), (i + Z.of_nat n, j)) <$> ps.

Lemma shift_pairs_fst n ps : (shift_pairs n ps).*1 = (λ i, i + Z.of_nat n) <$> ps.*1.
Proof. induction ps as [|[i j] ps IH]; [done|]. cbn. f_equal. exact IH. Qed.

Lemma shift_pairs_snd n ps : (shift_pairs n ps).*2 = ps.*2.
Proof. induction ps as [|[i j] ps IH]; [done|]. cbn. f_equal. exact IH. Qed.

Lemma join_pairs_app l1 l2 rk :
  join_pairs (l1 ++ l2) rk = join_pairs l1 rk ++ shift_pairs (length l1) (join_pairs l2 rk).
Proof.
  unfold join_pairs. rewrite length_app, seq_app, bind_app. f_equal.
  - apply bind_ext_in. intros i Hi. apply elem_of_seq in Hi.
    unfold row_pairs. apply bind_ext_in. intros j _. rewrite lookup_app_l by lia. done.
  - rewrite (Nat.add_comm 0), <- fmap_add_seq. generalize (seq 0 (length l2)) as rws. intros rws.
    induction rws as [|i rws IH]; [done|]. cbn [fmap list_fmap mbind list_bind].
    unfold shift_pairs in *. rewrite fmap_app, IH. f_equal. clear IH.
    unfold row_pairs. rewrite lookup_app_r by lia.
    replace (length l1 + i - length l1)%nat with i by lia.
    generalize (seq 0 (length rk)) as js. intros js.
    induction js as [|j js IH]; [done|]. cbn [mbind list_bind].
    rewrite fmap_app, IH. f_equal. destruct (decide _); [|done]. cbn. do 2 f_equal. lia.
Qed.

Lemma gather_app_l {A} (l k : list A) idx :
  in_bounds (length l) idx → gather (l ++ k) idx = gather l idx.
Proof.
  intros Hb. unfold gather, in_bounds in *. induction Hb as [|i idx Hi _ IH]; [done|]. cbn.
  destruct (Z.ltb_spec i 0); [lia|]. rewrite lookup_app_l by lia. by rewrite IH.
Qed.

Lemma gather_app_r {A} (l k : list A) idx :
  Forall (λ i, 0 ≤ i) idx →
  gather (l ++ k) ((λ i, i + Z.of_nat (length l)) <$> idx) = gather k idx.
Proof.
  intros Hb. unfold gather. induction Hb as [|i idx Hi _ IH]; [done|]. cbn.
  destruct (Z.ltb_spec (i + Z.of_nat (length l)) 0); [lia|]. destruct (Z.ltb_spec i 0); [lia|].
  rewrite lookup_app_r by lia. replace (Z.to_nat (i + Z.of_nat (length l)) - length l)%nat with (Z.to_nat i) by lia.
  by rewrite IH.
Qed.

(** The values of column [i] of a join of a probe side of [w] columns. *)
Definition joined_values (w : nat) (cols rcols : nat → list (option Value))
    (pairs : list (Z * Z)) (i : nat) : list (option Value) :=
  if (i <? w)%nat then gather (cols i) pairs.*1 else gather (rcols (i - w)%nat) pairs.*2.

Lemma joined_values_concat s bs rcols rk lkey kf i :
  Forall (typed s) bs → fields s !! lkey = Some kf →
  let w := length (fields s) in
  joined_values w (concat_values bs) rcols (join_pairs (key_list (concat_values bs lkey)) rk) i
  = bs ≫= λ b, joined_values w (column_values b) rcols
                 (join_pairs (key_list (column_values b lkey)) rk) i.
Proof.
  intros Hbs Hk w. induction Hbs as [|b bs Hb Hbs IH].
  { unfold joined_values. by case_match. }
  destruct (typed_column s b lkey kf Hb Hk) as (_ & _ & Hkl).
  unfold concat_values in *. cbn [mbind list_bind]. rewrite <- IH. clear IH.
  set (k1 := key_list (column_values b lkey)).
  assert (length k1 = num_rows b) as Hk1 by (unfold k1, key_list; by rewrite length_fmap).
  unfold key_list at 1. rewrite fmap_app. fold (key_list (column_values b lkey)). fold k1.
  rewrite join_pairs_app, Hk1. unfold joined_values.
  destruct (join_pairs_in_bounds k1 rk) as [Hb1 _]. rewrite Hk1 in Hb1.
  destruct (join_pairs_in_bounds (key_list (bs ≫= λ b, column_values b lkey)) rk) as [Hb2 _].
  destruct (Nat.ltb_spec i w) as [Hi|Hi]; rewrite !fmap_app, gather_app; f_equal.
  - destruct (lookup_lt_is_Some_2 (fields s) i Hi) as [f Hf].
    destruct (typed_column s b i f Hb Hf) as (_ & _ & Hl). apply gather_app_l. by rewrite Hl.
  - destruct (lookup_lt_is_Some_2 (fields s) i Hi) as [f Hf].
    destruct (typed_column s b i f Hb Hf) as (_ & _ & Hl). rewrite <- Hl.
    rewrite shift_pairs_fst. apply gather_app_r. eapply Forall_impl; [exact Hb2|]. cbn. lia.
  - by rewrite shift_pairs_snd.
Qed.

Lemma join_pairs_concat_length bs rk lkey :
  length (join_pairs (key_list (concat_values bs lkey)) rk)
  = sum_list ((λ b, length (join_pairs (key_list (column_values b lkey)) rk)) <$> bs).
Proof.
  induction bs as [|b bs IH]; [done|]. unfold concat_values, key_list in *. cbn [mbind list_bind].
  rewrite fmap_app, join_pairs_app, length_app. unfold shift_pairs. rewrite length_fmap, IH. done.
Qed.

(** The batch a probe yields, from the key columns. *)
Definition probe_output (w : nat) (b r : RecordBatch) (pairs : list (Z * Z)) (fs : list Field)
    (sel : list nat) : RecordBatch :=
  mkBatch (Schema_new fs)
          (zip_with (λ f i, mkArray (field_type_of f)
             (joined_values w (column_values b) (column_values r) pairs i)) fs sel) (length pairs).

Lemma join_column_values l r pairs i f a :
  batch_ok l → batch_ok r → join_fields l r !! i = Some f → join_column l r pairs i = Some a →
  a = mkArray (field_type_of f)
        (joined_values (length (fields (schema l))) (column_values l) (column_values r) pairs i).
Proof.
  intros Hl Hr Hf Ha. unfold join_fields, join_column, joined_values in *.
  rewrite (batch_ok_num_columns _ Hl).
  destruct (Nat.ltb_spec i (num_columns l)) as [Hi|Hi].
  - rewrite lookup_app_l in Hf by (by rewrite (batch_ok_num_columns _ Hl)).
    destruct (batch_ok_lookup l i f Hl Hf) as (c & Hc & Hok & _).
    unfold column_values. rewrite Hc in *. injection Ha as <-. unfold array_take.
    by rewrite (column_ok_type _ _ Hok).
  - rewrite lookup_app_r in Hf by (by rewrite (batch_ok_num_columns _ Hl)).
    rewrite (batch_ok_num_columns _ Hl) in Hf.
    destruct (batch_ok_lookup r _ f Hr Hf) as (c & Hc & Hok & _).
    unfold column_values. rewrite Hc in *. injection Ha as <-. unfold array_take.
    by rewrite (column_ok_type _ _ Hok).
Qed.

Definition join_selection (s : Schema) (r : RecordBatch) (projection : option (list nat)) : list nat :=
  match projection with
  | Some ix => ix
  | None => seq 0 (length (fields s ++ fields (schema r)))
  end.

Lemma probe_typed s b r lkey kf rk t projection fs :
  typed s b → batch_ok r → fields s !! lkey = Some kf → field_type_of kf = Int64 →
  length rk = num_rows r → Z.of_nat (num_rows b) ≤ U32 →
  (∀ k, JoinTable_matches t k = Ok (positions k rk)) →
  let sel := join_selection s r projection in
  sel ≠ [] → mapM (λ i, (fields s ++ fields (schema r)) !! i) sel = Some fs →
  let out := probe_output (length (fields s)) b r
               (join_pairs (key_list (column_values b lkey)) rk) fs sel in
  hash_join_probe b lkey r t projection = Ok out ∧ batch_ok out.
Proof.
  intros [Hb Hbf] Hr Hk Ht Hrk Hn Htab sel Hne Hfs out.
  pose proof (int64_column_typed s b lkey kf (conj Hb Hbf) Hk Ht) as Hlk.
  pose proof (hash_join_probe_spec b r lkey _ rk t projection Hb Hr Hlk Hrk Hn Htab) as Hp.
  assert (selected_columns b r projection = sel) as Hsel
    by (unfold selected_columns, sel, join_selection, join_fields; by rewrite Hbf).
  assert (join_fields b r = fields s ++ fields (schema r)) as Hjf
    by (unfold join_fields; by rewrite Hbf).
  cbv zeta in Hp. rewrite Hsel, Hjf in Hp.
  rewrite decide_True in Hp.
  2: { apply mapM_Some_1 in Hfs. apply Forall_forall. intros i [j Hj]%list_elem_of_lookup_1.
       destruct (Forall2_lookup_l _ _ _ _ _ Hfs Hj) as (f & _ & Hf). by eapply lookup_lt_Some. }
  rewrite decide_False in Hp by done. destruct Hp as (fs' & cs & Hfs' & Hcs & Hp & Hok).
  rewrite Hfs in Hfs'. injection Hfs' as <-.
  assert (mkBatch (Schema_new fs) cs
    (length (join_pairs (key_list (column_values b lkey)) rk)) = out) as Hout.
  { unfold out, probe_output. f_equal. apply mapM_Some_1 in Hcs, Hfs. apply list_eq. intros j.
    rewrite lookup_zip_with. destruct (sel !! j) as [i|] eqn:Hj.
    - destruct (Forall2_lookup_l _ _ _ _ _ Hcs Hj) as (a & -> & Ha).
      destruct (Forall2_lookup_l _ _ _ _ _ Hfs Hj) as (f & -> & Hf). cbn. f_equal.
      rewrite <- Hbf. apply (join_column_values b r _ i f a Hb Hr); [by rewrite Hjf|done].
    - assert (cs !! j = None) as ->.
      { apply lookup_ge_None. rewrite <- (Forall2_length _ _ _ Hcs). by apply lookup_ge_None. }
      destruct (fs !! j); done. }
  rewrite Hout in Hp, Hok. done.
Qed.

(** Joining the concatenation is concatenating the joined batches. *)
Lemma joined_concat s bs r lkey kf rk fs sel :
  Forall (typed s) bs → fields s !! lkey = Some kf →
  mapM (λ i, (fields s ++ fields (schema r)) !! i) sel = Some fs →
  let w := length (fields s) in
  probe_output w (batches_concat s bs) r (join_pairs (key_list (concat_values bs lkey)) rk) fs sel
  = batches_concat (Schema_new fs)
      ((λ b, probe_output w b r (join_pairs (key_list (column_values b lkey)) rk) fs sel) <$> bs).
Proof.
  intros Hbs Hk Hfs w. unfold batches_concat at 2, probe_output at 1. f_equal.
  - apply mapM_Some_1 in Hfs. apply list_eq. intros j. rewrite lookup_zip_with, list_lookup_imap.
    cbn [fields Schema_new]. destruct (fs !! j) as [f|] eqn:Hj; [|done]. cbn.
    destruct (Forall2_lookup_r _ _ _ _ _ Hfs Hj) as (i & Hi & Hf). rewrite Hi. cbn. do 2 f_equal.
    transitivity (joined_values w (concat_values bs) (column_values r)
      (join_pairs (key_list (concat_values bs lkey)) rk) i).
    + unfold joined_values. destruct (Nat.ltb_spec i w) as [Hlt|]; [|done]. f_equal.
      destruct (lookup_lt_is_Some_2 (fields s) i Hlt) as [g Hg].
      unfold column_values at 1. by rewrite batches_concat_lookup, Hg.
    + unfold w. rewrite (joined_values_concat s bs _ rk lkey kf) by done.
      clear -Hj Hi. induction bs as [|b bs IH]; cbn; [done|]. rewrite IH. f_equal.
      unfold column_values at 4. unfold probe_output. cbn. by rewrite lookup_zip_with, Hj, Hi.
  - rewrite join_pairs_concat_length, <- list_fmap_compose. done.
Qed.
End Concat.
