(* ===== verification/Device.v ===== *)
(** * oxidelake-device: handles, the backend trait, the CPU backend, detection

    Models [src/crates/oxidelake-device/src/{handles,args,backend,detector}.rs]
    and [cpu/mod.rs].  The trait is a record of operations ([GpuBackend]); what
    the operators rely on is the class [BackendContract], which the CPU backend
    discharges.  CUDA buffers and batches carry their device memory (the CUDA
    backend is [Cuda]), Metal buffers and batches refer to shared storage (the
    Metal backend is [Metal]); streams are opaque handles. *)

From Stdlib Require Import Ascii.
From S2P Require Import Prelude Floats Arrow Core Memory ArrowKernels Kernels.

(** ** Handles ([handles.rs]) *)

(** A Metal buffer in shared storage: the allocation and the logical length. *)
Record MetalSharedBuffer := mkShared { ms_buffer : nat; ms_len : nat }.

Inductive DeviceBufferInner :=
  | BufHost (b : AlignedBuf) | BufCuda (slice : list Z) | BufMetal (b : MetalSharedBuffer).

Record DeviceBuffer := mkDeviceBuffer {
  dbuf_backend : BackendKind;
  dbuf_len : Z;
  dbuf_inner : DeviceBufferInner;
}.

Definition dbuf_as_host (b : DeviceBuffer) : option AlignedBuf :=
  match dbuf_inner b with BufHost a => Some a | _ => None end.

Inductive StreamInner := StreamHost | StreamCuda (h : nat) | StreamMetal (h : nat).

Record DeviceStream := mkStream { ds_backend : BackendKind; ds_inner : StreamInner }.

(** A column and a batch in CUDA device memory ([cuda/mod.rs]): the bytes of the
    value buffer, of which [cc_values_len] count, and of the validity bitmap. *)
Record CudaColumn := mkCudaColumn {
  cc_type : DataType;
  cc_len : nat;
  cc_child_len : nat;
  cc_values_len : nat;
  cc_values : list Z;
  cc_validity : option (list Z);
}.
Record CudaBatch := mkCudaBatch { cbt_rows : nat; cbt_columns : list CudaColumn }.

(** A column and a batch in shared memory ([metal.rs]). *)
Record MetalColumn := mkMetalColumn {
  mc_type : DataType;
  mc_len : nat;
  mc_child_len : nat;
  mc_values_len : nat;
  mc_values : MetalSharedBuffer;
  mc_validity : option MetalSharedBuffer;
}.
Record MetalBatch := mkMetalBatch { mbt_rows : nat; mbt_columns : list MetalColumn }.

Inductive BatchInner := BatchHost (b : RecordBatch) | BatchCuda (b : CudaBatch) | BatchMetal (b : MetalBatch).

Record DeviceBatch := mkDeviceBatch {
  db_backend : BackendKind;
  db_schema : Schema;
  db_num_rows : nat;
  db_inner : BatchInner;
}.

Definition DeviceBatch_from_host (b : RecordBatch) : DeviceBatch :=
  mkDeviceBatch CpuSimd (schema b) (num_rows b) (BatchHost b).

Definition db_as_host (d : DeviceBatch) : option RecordBatch :=
  match db_inner d with BatchHost b => Some b | _ => None end.

(** ** Arguments ([args.rs]) *)

Record FilterProjectArgs := mkFilterArgs {
  fp_input : DeviceBatch; fp_predicate : Predicate; fp_projection : list nat }.
Record HashJoinArgs := mkJoinArgs {
  hj_left : DeviceBatch; hj_right : DeviceBatch; hj_left_key : nat; hj_right_key : nat }.
Record AggregateArgs := mkAggArgs { ag_input : DeviceBatch; ag_spec : AggregateSpec }.
Record VectorDistanceArgs := mkVecArgs {
  vd_input : DeviceBatch; vd_column : nat; vd_query : list f32;
  vd_metric : DistanceMetric; vd_output_name : string }.

(** ** The backend trait ([backend.rs]) *)

Record MemoryInfo := mkMemoryInfo { total_bytes : Z; free_bytes : Z; pinned_supported : bool }.
Definition used_bytes (i : MemoryInfo) : Z := sat_sub (total_bytes i) (free_bytes i).

Record GpuBackend := mkBackend {
  gb_kind : BackendKind;
  gb_device_id : DeviceId;
  gb_memory_info : result MemoryInfo;
  gb_alloc_device : Z → result DeviceBuffer;
  gb_alloc_pinned_host : Z → result HostAlloc;
  gb_create_stream : result DeviceStream;
  gb_copy_h2d : DeviceStream → HostAlloc → DeviceBuffer → result DeviceBuffer;
  gb_copy_d2h : DeviceStream → DeviceBuffer → HostAlloc → result HostAlloc;
  gb_synchronize : DeviceStream → result unit;
  gb_upload : DeviceStream → RecordBatch → result DeviceBatch;
  gb_download : DeviceStream → DeviceBatch → result RecordBatch;
  gb_filter_project : DeviceStream → FilterProjectArgs → result DeviceBatch;
  gb_hash_join : DeviceStream → HashJoinArgs → result DeviceBatch;
  gb_aggregate : DeviceStream → AggregateArgs → result DeviceBatch;
  gb_vector_distance : DeviceStream → VectorDistanceArgs → result DeviceBatch;
  gb_supports_predicate : Predicate → bool;
  gb_supports_hash_join : bool;
  gb_supports_aggregate : bool;
}.

(** ** The CPU backend ([cpu/mod.rs]) *)

Definition foreign (what : string) (backend : BackendKind) : EngineError :=
  Device CpuSimd (what +:+ " belongs to the " +:+ as_str backend
                  +:+ " backend, not the CPU backend").

Definition check_stream (s : DeviceStream) : result unit :=
  match ds_inner s with
  | StreamHost => Ok tt
  | _ => Err (foreign "stream" (ds_backend s))
  end.

Definition host_batch (d : DeviceBatch) : result RecordBatch :=
  ok_or (db_as_host d) (foreign "batch" (db_backend d)).

(** [str::lines]: the pieces between line feeds, a trailing carriage return
    dropped (an unterminated last line counts, an empty one does not). *)
Fixpoint lines_of (cur : list ascii) (l : list ascii) : list (list ascii) :=
  let strip c := match c with "013"%char :: c => rev c | _ => rev c end in
  match l with
  | [] => match cur with [] => [] | _ => [rev cur] end
  | c :: l => if byte_is c 10 then strip cur :: lines_of [] l else lines_of (c :: cur) l
  end.

(** [str::split_whitespace]: the maximal runs without Unicode white space. *)
Fixpoint split_ws (cur : list ascii) (l : list ascii) : list (list ascii) :=
  let flush := match cur with [] => [] | _ => [rev cur] end in
  match l with
  | [] => flush
  | c1 :: l1 =>
      if ascii_ws c1 then flush ++ split_ws [] l1
      else match l1 with
           | c2 :: l2 =>
               if ws2 c1 c2 then flush ++ split_ws [] l2
               else match l2 with
                    | c3 :: l3 =>
                        if ws3 c1 c2 c3 then flush ++ split_ws [] l3 else split_ws (c1 :: cur) l1
                    | [] => split_ws (c1 :: cur) l1
                    end
           | [] => split_ws (c1 :: cur) l1
           end
  end.

Fixpoint digits_value (acc : Z) (l : list ascii) : option Z :=
  match l with
  | [] => Some acc
  | c :: l =>
      let n := Z.of_nat (nat_of_ascii c) in
      if (48 <=? n) && (n <=? 57) then
        let acc := acc * 10 + (n - 48) in
        if acc <=? u64_max then digits_value acc l else None
      else None
  end.

(** [str::parse::<u64>]: an optional plus sign, then at least one digit. *)
Definition parse_u64 (l : list ascii) : option Z :=
  match l with
  | c :: (_ :: _) as ds => if byte_is c 43 then digits_value 0 (tail ds) else digits_value 0 l
  | [c] => digits_value 0 l
  | [] => None
  end.

Fixpoint starts_with (key l : list ascii) : bool :=
  match key, l with
  | [], _ => true
  | k :: key, c :: l => Ascii.eqb k c && starts_with key l
  | _, [] => false
  end.

(** The value in bytes of one [/proc/meminfo] line. *)
Definition meminfo_field (text : list ascii) (key : string) : Z :=
  match List.find (starts_with (String.list_ascii_of_string key)) (lines_of [] text) with
  | Some l =>
      match (w ← split_ws [] l !! 1%nat; parse_u64 w) with
      | Some kb => wmul64 kb 1024
      | None => 0
      end
  | None => 0
  end.

(** [host_memory]; [None] is an unreadable [/proc/meminfo]. *)
Definition host_memory (meminfo : option string) : Z * Z :=
  match meminfo with
  | None => (0, 0)
  | Some text =>
      let t := String.list_ascii_of_string text in
      (meminfo_field t "MemTotal:", meminfo_field t "MemAvailable:")
  end.

Section Cpu.
Context `{Allocator, CudaDriver, ArrowKernels, HashOrder} (meminfo : option string).

Definition cpu_memory_info : result MemoryInfo :=
  let '(total, free) := host_memory meminfo in Ok (mkMemoryInfo total free false).

Definition cpu_alloc_device (bytes : Z) : result DeviceBuffer :=
  b ← AlignedBuf_device_staging bytes;
  Ok (mkDeviceBuffer CpuSimd bytes (BufHost b)).

Definition cpu_create_stream : result DeviceStream := Ok (mkStream CpuSimd StreamHost).

(** The destination is returned; on an error it is untouched. *)
Definition cpu_copy_h2d (s : DeviceStream) (src : HostAlloc) (dst : DeviceBuffer) :
    result DeviceBuffer :=
  _ ← check_stream s;
  d ← ok_or (dbuf_as_host dst) (foreign "buffer" (dbuf_backend dst));
  bytes ← ha_as_slice src;
  if ab_len d <? Z.of_nat (length bytes) then
    Err (Execution "copy_h2d: destination too small")
  else
    d ← ab_write_prefix d bytes;
    Ok (mkDeviceBuffer (dbuf_backend dst) (dbuf_len dst) (BufHost d)).

Definition cpu_copy_d2h (s : DeviceStream) (src : DeviceBuffer) (dst : HostAlloc) :
    result HostAlloc :=
  _ ← check_stream s;
  b ← ok_or (dbuf_as_host src) (foreign "buffer" (dbuf_backend src));
  cur ← ha_as_slice dst;
  if Z.of_nat (length cur) <? ab_len b then
    Err (Execution "copy_d2h: destination too small")
  else
    bytes ← ab_as_slice b;
    ha_write_prefix dst bytes.

Definition cpu_upload (s : DeviceStream) (b : RecordBatch) : result DeviceBatch :=
  _ ← check_stream s; Ok (DeviceBatch_from_host b).

Definition cpu_download (s : DeviceStream) (d : DeviceBatch) : result RecordBatch :=
  _ ← check_stream s; host_batch d.

Definition cpu_filter_project (s : DeviceStream) (a : FilterProjectArgs) : result DeviceBatch :=
  _ ← check_stream s;
  b ← host_batch (fp_input a);
  out ← filter_project b (fp_predicate a) (fp_projection a);
  Ok (DeviceBatch_from_host out).

Definition cpu_hash_join (s : DeviceStream) (a : HashJoinArgs) : result DeviceBatch :=
  _ ← check_stream s;
  l ← host_batch (hj_left a);
  r ← host_batch (hj_right a);
  out ← hash_join l r (hj_left_key a) (hj_right_key a);
  Ok (DeviceBatch_from_host out).

Definition cpu_aggregate (s : DeviceStream) (a : AggregateArgs) : result DeviceBatch :=
  _ ← check_stream s;
  b ← host_batch (ag_input a);
  out ← aggregate b (ag_spec a);
  Ok (DeviceBatch_from_host out).

Definition cpu_vector_distance (s : DeviceStream) (a : VectorDistanceArgs) : result DeviceBatch :=
  _ ← check_stream s;
  b ← host_batch (vd_input a);
  out ← vector_distance b (vd_column a) (vd_query a) (vd_metric a) (vd_output_name a);
  Ok (DeviceBatch_from_host out).

Definition CpuBackend : GpuBackend := {|
  gb_kind := CpuSimd;
  gb_device_id := DeviceId_CPU;
  gb_memory_info := cpu_memory_info;
  gb_alloc_device := cpu_alloc_device;
  gb_alloc_pinned_host := HostAlloc_pageable;
  gb_create_stream := cpu_create_stream;
  gb_copy_h2d := cpu_copy_h2d;
  gb_copy_d2h := cpu_copy_d2h;
  gb_synchronize := check_stream;
  gb_upload := cpu_upload;
  gb_download := cpu_download;
  gb_filter_project := cpu_filter_project;
  gb_hash_join := cpu_hash_join;
  gb_aggregate := cpu_aggregate;
  gb_vector_distance := cpu_vector_distance;
  gb_supports_predicate := λ _, true;
  gb_supports_hash_join := true;
  gb_supports_aggregate := true;
|}.
End Cpu.

(** ** Detection ([detector.rs]) *)

Record Availability := mkAvailability { av_cuda : bool; av_metal : bool }.

Definition best (a : Availability) : BackendKind :=
  if av_cuda a then Cuda else if av_metal a then Metal else CpuSimd.

(** The build's features, the drivers' answers and constructors. *)
Class Hardware := {
  feature_cuda : bool;
  feature_metal : bool;
  cuda_probe : bool;
  metal_probe : bool;
  cuda_new : result GpuBackend;
  metal_new : result GpuBackend;
  (** the text of [/proc/meminfo], if it is readable *)
  meminfo_text : option string;
}.

Section Detector.
Context `{Hardware, Allocator, CudaDriver, ArrowKernels, HashOrder}.

Definition cuda_available : bool := feature_cuda && cuda_probe.
Definition metal_available : bool := feature_metal && metal_probe.

Definition availability : Availability := mkAvailability cuda_available metal_available.

Definition unavailable (kind : BackendKind) (compiled_in : bool) : EngineError :=
  Device kind (if compiled_in then "explicitly requested but no device or driver is present"
               else "explicitly requested but built without the feature").

Definition instantiate_cuda : result GpuBackend :=
  if feature_cuda then cuda_new else Err (unavailable Cuda false).
Definition instantiate_metal : result GpuBackend :=
  if feature_metal then metal_new else Err (unavailable Metal false).

Definition instantiate (kind : BackendKind) (a : Availability) : result GpuBackend :=
  match kind with
  | CpuSimd => Ok (CpuBackend meminfo_text)
  | Cuda => if negb (av_cuda a) then Err (unavailable kind feature_cuda) else instantiate_cuda
  | Metal => if negb (av_metal a) then Err (unavailable kind feature_metal) else instantiate_metal
  end.

Definition detected_kind : BackendKind := best availability.

Definition select_with (requested : option string) : result GpuBackend :=
  let a := availability in
  let name := match requested with
              | Some s => if bool_decide (str_trim s = "") then None else Some (str_trim s)
              | None => None
              end in
  kind ← match name with Some n => BackendKind_from_str n | None => Ok (best a) end;
  instantiate kind a.
End Detector.

Example meminfo_reads :
  host_memory (Some ("MemTotal:       16 kB" +:+ String "010" "MemAvailable:   4 kB"))
  = (16384, 4096).
Proof. vm_compute. reflexivity. Qed.
