(* ===== verification/DeviceCorrect.v ===== *)
(** * What a backend promises, and that the CPU backend keeps it

    [BackendContract] is the interface between the operators and a backend: a
    device batch stands for a host batch, transfers preserve it and every kernel
    returns what the CPU reference kernel returns.  The CPU backend meets it;
    its buffer copies round-trip; the detector never substitutes another
    backend for a requested one. *)

From S2P Require Import Prelude Floats Arrow Core Memory ArrowKernels Kernels Device.

(** ** The contract *)

Class BackendContract `{ArrowKernels, HashOrder} (g : GpuBackend) := {
  (** the device batch stands for the host batch *)
  holds : DeviceBatch → RecordBatch → Prop;
  upload_holds s b d : gb_upload g s b = Ok d → holds d b;
  download_holds s d b b' : holds d b → gb_download g s d = Ok b' → b' = b;
  filter_holds s a b d :
    holds (fp_input a) b → gb_filter_project g s a = Ok d →
    ∃ b', filter_project b (fp_predicate a) (fp_projection a) = Ok b' ∧ holds d b';
  join_holds s a l r d :
    holds (hj_left a) l → holds (hj_right a) r → gb_hash_join g s a = Ok d →
    ∃ b', hash_join l r (hj_left_key a) (hj_right_key a) = Ok b' ∧ holds d b';
  aggregate_holds s a b d :
    holds (ag_input a) b → gb_aggregate g s a = Ok d →
    ∃ b', aggregate b (ag_spec a) = Ok b' ∧ holds d b';
  vector_holds s a b d :
    holds (vd_input a) b → gb_vector_distance g s a = Ok d →
    ∃ b', vector_distance b (vd_column a) (vd_query a) (vd_metric a) (vd_output_name a) = Ok b' ∧
      holds d b';
}.

Section CpuContract.
Context `{Allocator, CudaDriver, ArrowKernels, HashOrder} (meminfo : option string).

(** A CPU device batch is a host batch. *)
Definition cpu_holds (d : DeviceBatch) (b : RecordBatch) : Prop := db_as_host d = Some b.

Ltac cpu_step :=
  repeat match goal with
  | H : (_ ← check_stream _; _) = Ok _ |- _ =>
      let u := fresh "u" in apply bind_Ok_inv in H as (u & _ & H)
  | H : (_ ← host_batch _; _) = Ok _ |- _ =>
      let b := fresh "hb" in let Hb := fresh "Hb" in
      apply bind_Ok_inv in H as (b & Hb & H);
      unfold host_batch in Hb; apply ok_or_Ok_inv in Hb
  end.

#[export] Instance CpuBackend_contract : BackendContract (CpuBackend meminfo).
Proof.
  refine {| holds := cpu_holds |}; cbn; unfold cpu_holds.
  - intros s b d H'. unfold cpu_upload in H'. cpu_step. by injection H' as <-.
  - intros s d b b' Hh H'. unfold cpu_download in H'. cpu_step.
    apply ok_or_Ok_inv in H'. congruence.
  - intros s a b d Hh H'. unfold cpu_filter_project in H'. cpu_step.
    apply bind_Ok_inv in H' as (out & Ho & [= <-]). simplify_eq. eauto.
  - intros s a l r d Hl Hr H'. unfold cpu_hash_join in H'. cpu_step.
    apply bind_Ok_inv in H' as (out & Ho & [= <-]). simplify_eq. eauto.
  - intros s a b d Hh H'. unfold cpu_aggregate in H'. cpu_step.
    apply bind_Ok_inv in H' as (out & Ho & [= <-]). simplify_eq. eauto.
  - intros s a b d Hh H'. unfold cpu_vector_distance in H'. cpu_step.
    apply bind_Ok_inv in H' as (out & Ho & [= <-]). simplify_eq. eauto.
Defined.

(** ** Buffer copies *)

(** A pageable host buffer and a host-backed device buffer, both sound. *)
Definition host_ok (h : HostAlloc) : Prop := ∃ b, ha_inner h = InPageable b ∧ aligned_ok b.
Definition dev_ok (d : DeviceBuffer) : Prop := ∃ b, dbuf_inner d = BufHost b ∧ aligned_ok b.

(** The logical contents of a host-backed device buffer. *)
Definition dev_slice (d : DeviceBuffer) : result (list Z) :=
  match dbuf_inner d with BufHost b => ab_as_slice b | _ => Panic end.

Lemma cpu_copy_h2d_spec s src dst bytes old :
  check_stream s = Ok tt → dev_ok dst → ha_as_slice src = Ok bytes → dev_slice dst = Ok old →
  if (length bytes <=? length old)%nat then
    ∃ dst', cpu_copy_h2d s src dst = Ok dst' ∧ dev_ok dst' ∧
      dev_slice dst' = Ok (bytes ++ drop (length bytes) old)
  else ∃ m, cpu_copy_h2d s src dst = Err (Execution m).
Proof.
  intros Hs (b & Hb & Hok) Hsrc Hold. unfold dev_slice in Hold. rewrite Hb in Hold.
  destruct (ab_as_slice_ok b Hok) as (cur & Hcur & Hlen). rewrite Hold in Hcur. simplify_eq.
  unfold cpu_copy_h2d, dbuf_as_host. rewrite Hs, Hb, Hsrc. cbn [mbind res_bind ok_or].
  destruct (Nat.leb_spec (length bytes) (length cur)) as [Hle|Hgt].
  - rewrite (proj2 (Z.ltb_ge _ _)) by lia.
    destruct (ab_write_prefix_ok b cur bytes Hok Hold) as (b' & -> & Hok' & _ & Hs'); [lia|].
    eexists. split; [reflexivity|]. split; [by exists b'|]. done.
  - rewrite (proj2 (Z.ltb_lt _ _)) by lia. eauto.
Qed.

Lemma cpu_copy_d2h_spec s src dst bytes old :
  check_stream s = Ok tt → dev_ok src → host_ok dst →
  dev_slice src = Ok bytes → ha_as_slice dst = Ok old →
  if (length bytes <=? length old)%nat then
    ∃ dst', cpu_copy_d2h s src dst = Ok dst' ∧ host_ok dst' ∧
      ha_as_slice dst' = Ok (bytes ++ drop (length bytes) old)
  else ∃ m, cpu_copy_d2h s src dst = Err (Execution m).
Proof.
  intros Hs (b & Hb & Hok) (h & Hh & Hhok) Hsrc Hold. unfold dev_slice in Hsrc. rewrite Hb in Hsrc.
  destruct (ab_as_slice_ok b Hok) as (cur & Hcur & Hlen). rewrite Hsrc in Hcur. simplify_eq.
  unfold cpu_copy_d2h, dbuf_as_host. rewrite Hs, Hb, Hold. cbn [mbind res_bind ok_or].
  rewrite Hsrc. cbn [mbind res_bind].
  unfold ha_as_slice in Hold. rewrite Hh in Hold.
  destruct (ab_as_slice_ok h Hhok) as (hcur & Hhcur & Hhlen). rewrite Hold in Hhcur. simplify_eq.
  destruct (Nat.leb_spec (length cur) (length hcur)) as [Hle|Hgt].
  - rewrite (proj2 (Z.ltb_ge _ _)) by lia. unfold ha_write_prefix. rewrite Hh.
    destruct (ab_write_prefix_ok h hcur cur Hhok Hold) as (h' & -> & Hok' & _ & Hs'); [lia|].
    eexists. split; [reflexivity|]. split; [by exists h'|]. done.
  - rewrite (proj2 (Z.ltb_lt _ _)) by lia. eauto.
Qed.

(** bytes copied to a CPU device buffer and back are the same bytes: a
    destination that is too small is an error, otherwise the source's bytes are
    the front of the destination and what lay behind them is unchanged, in both
    directions. *)
Theorem cpu_copy_roundtrip s src dst back bytes old_dst old_back :
  check_stream s = Ok tt → dev_ok dst → host_ok back →
  ha_as_slice src = Ok bytes → dev_slice dst = Ok old_dst → ha_as_slice back = Ok old_back →
  if (length bytes <=? length old_dst)%nat then
    ∃ dst', cpu_copy_h2d s src dst = Ok dst' ∧
    if (length old_dst <=? length old_back)%nat then
      ∃ back', cpu_copy_d2h s dst' back = Ok back' ∧
        ha_as_slice back' = Ok (bytes ++ drop (length bytes) old_dst
                                      ++ drop (length old_dst) old_back)
    else ∃ m, cpu_copy_d2h s dst' back = Err (Execution m)
  else ∃ m, cpu_copy_h2d s src dst = Err (Execution m).
Proof.
  intros Hs Hd Hb Hsrc Hdst Hback. pose proof (cpu_copy_h2d_spec s src dst _ _ Hs Hd Hsrc Hdst) as Hc1.
  destruct (Nat.leb_spec (length bytes) (length old_dst)) as [Hle|]; [|done].
  destruct Hc1 as (dst' & Hc1 & Hd' & Hs'). exists dst'. split; [done|].
  pose proof (cpu_copy_d2h_spec s dst' back _ _ Hs Hd' Hb Hs' Hback) as Hc2.
  assert (length (bytes ++ drop (length bytes) old_dst) = length old_dst) as Hlen
    by (rewrite length_app, length_drop; lia).
  rewrite Hlen in Hc2. destruct (length old_dst <=? length old_back)%nat; [|done].
  destruct Hc2 as (back' & Hc2 & _ & Hc3). exists back'. split; [done|]. by rewrite Hc3, <- app_assoc.
Qed.
End CpuContract.

(** ** Detection *)

Class HardwareLaws `{Hardware} : Prop := {
  cuda_new_kind g : cuda_new = Ok g → gb_kind g = Cuda;
  metal_new_kind g : metal_new = Ok g → gb_kind g = Metal;
}.

Definition kind_available `{Hardware} (k : BackendKind) : bool :=
  match k with CpuSimd => true | Cuda => cuda_available | Metal => metal_available end.

Section Kinds.
Context `{HardwareLaws, Allocator, CudaDriver, ArrowKernels, HashOrder}.

Lemma instantiate_kind k g : instantiate k availability = Ok g → gb_kind g = k.
Proof.
  unfold instantiate, instantiate_cuda, instantiate_metal.
  destruct k; [by intros [= <-]| |].
  - destruct (negb _); [done|]. destruct feature_cuda; [apply cuda_new_kind|done].
  - destruct (negb _); [done|]. destruct feature_metal; [apply metal_new_kind|done].
Qed.

(** A kind asked for by its name is the kind one gets. *)
Lemma select_named k g : select_with (Some (as_str k)) = Ok g → gb_kind g = k.
Proof.
  unfold select_with. rewrite bool_decide_eq_false_2 by by destruct k.
  replace (BackendKind_from_str (str_trim (as_str k))) with (Ok (E := EngineError) k) by (by destruct k).
  apply instantiate_kind.
Qed.
End Kinds.

(** a requested backend is never replaced: whatever [select_with] returns
    has the requested kind, a kind that is not available is an error naming it
    and an unknown name is a plan error; with no request (or a blank one) the
    kind is the best available one, the CPU when there is no GPU. *)
Theorem select_with_correct `{HardwareLaws, Allocator, CudaDriver, ArrowKernels, HashOrder}
    (requested : option string) :
  match requested with
  | Some s =>
      if bool_decide (str_trim s = "") then
        (∀ g, select_with requested = Ok g → gb_kind g = detected_kind) ∧
        (cuda_available = false → metal_available = false → select_with requested = Ok (CpuBackend meminfo_text))
      else
        match BackendKind_from_str (str_trim s) with
        | Ok k =>
            (∀ g, select_with requested = Ok g → gb_kind g = k) ∧
            (kind_available k = false → ∃ m, select_with requested = Err (Device k m)) ∧
            (k = CpuSimd → select_with requested = Ok (CpuBackend meminfo_text))
        | Err e => select_with requested = Err e
        | Panic => False
        end
  | None =>
      (∀ g, select_with requested = Ok g → gb_kind g = detected_kind) ∧
      (cuda_available = false → metal_available = false → select_with requested = Ok (CpuBackend meminfo_text))
  end.
Proof.
  pose proof instantiate_kind as Hkind.
  assert ((∀ g, instantiate (best availability) availability = Ok g → gb_kind g = detected_kind) ∧
    (cuda_available = false → metal_available = false →
     instantiate (best availability) availability = Ok (CpuBackend meminfo_text))) as Hbest.
  { split; [apply Hkind|]. intros Hc Hm. unfold best, availability. cbn. by rewrite Hc, Hm. }
  unfold select_with. destruct requested as [s|]; [|exact Hbest].
  destruct (bool_decide (str_trim s = "")); [exact Hbest|].
  destruct (BackendKind_from_str (str_trim s)) as [k|e|] eqn:Hp; [|done|].
  - cbn [mbind res_bind]. split; [apply Hkind|]. split.
    + unfold instantiate. destruct k; cbn; [done| |]; intros ->; cbn; eexists; reflexivity.
    + by intros ->.
  - unfold BackendKind_from_str in Hp. repeat case_match; discriminate.
Qed.

Module DeviceExample.
#[local] Instance bump : Allocator := λ size align, Some (align * 16).
#[local] Instance no_driver : CudaDriver := {|
  ctx_alloc_pinned := λ _, Err "no driver"; pinned_wait := λ _, Err "no driver" |}.
#[local] Instance order : HashOrder := map_to_list.

Definition buf (bytes : list Z) (align : Z) : AlignedBuf :=
  mkAligned (align * 16) (mkAllocLayout align align) (Z.of_nat (length bytes))
    (bytes ++ replicate (Z.to_nat align - length bytes) 0).
Definition host_buf (bytes : list Z) : HostAlloc := mkHost Pageable (InPageable (buf bytes 64)).
Definition dev_buf (bytes : list Z) : DeviceBuffer :=
  mkDeviceBuffer CpuSimd (Z.of_nat (length bytes)) (BufHost (buf bytes 128)).

Lemma buf_ok bytes align :
  0 < align → Z.of_nat (length bytes) ≤ align → aligned_ok (buf bytes align).
Proof.
  intros Ha Hl. split; unfold capacity, ab_align; cbn.
  - lia.
  - lia.
  - by exists 1; lia.
  - by exists 16; lia.
  - rewrite length_app, length_replicate. lia.
Qed.

Lemma cpu_copy_roundtrip_witness :
  ∃ dst' back',
    cpu_copy_h2d (mkStream CpuSimd StreamHost) (host_buf [7; 8]) (dev_buf [1; 2; 3]) = Ok dst' ∧
    cpu_copy_d2h (mkStream CpuSimd StreamHost) dst' (host_buf [0; 0; 0; 9]) = Ok back' ∧
    ha_as_slice back' = Ok [7; 8; 3; 9].
Proof.
  destruct (cpu_copy_roundtrip (mkStream CpuSimd StreamHost) (host_buf [7; 8])
    (dev_buf [1; 2; 3]) (host_buf [0; 0; 0; 9]) [7; 8] [1; 2; 3] [0; 0; 0; 9])
    as (dst' & Hh & back' & Hb & Hs); [reflexivity| | |reflexivity..|].
  - exists (buf [1; 2; 3] 128). split; [reflexivity|]. apply buf_ok; cbn; lia.
  - exists (buf [0; 0; 0; 9] 64). split; [reflexivity|]. apply buf_ok; cbn; lia.
  - exists dst', back'. split; [exact Hh|]. split; [exact Hb|exact Hs].
Defined.

(** A machine without GPUs. *)
#[local] Instance cpu_only : Hardware := {|
  feature_cuda := false; feature_metal := false; cuda_probe := false; metal_probe := false;
  cuda_new := Err (Execution "no driver"); metal_new := Err (Execution "no driver");
  meminfo_text := None |}.
#[local] Instance cpu_only_laws : HardwareLaws.
Proof. split; done. Qed.

Lemma select_with_correct_witness :
  (∃ m, select_with (Some " CUDA") = Err (Device Cuda m)) ∧
  select_with None = Ok (CpuBackend None).
Proof.
  split.
  - destruct (select_with_correct (Some " CUDA")) as (_ & Hu & _). exact (Hu eq_refl).
  - destruct (select_with_correct None) as [_ Hc]. exact (Hc eq_refl eq_refl).
Defined.
End DeviceExample.
