(* ===== verification/Operator.v ===== *)
(** * oxidelake-compute: the operator that runs batches on a backend

    Models [src/crates/oxidelake-compute/src/operator.rs]: the column plumbing
    around a device kernel, the per-batch fallback to the CPU reference and its
    telemetry, and the build side uploaded once per operator.  The operator's
    interior state (the stream counter, the shared statistics, the cached build,
    the warning flag) is passed explicitly. *)

From S2P Require Import Prelude Floats Arrow Core Telemetry Memory ArrowKernels Kernels Device.

Definition ROW_ID : string := "__oxide_row".

(** [RecordBatch::get_array_memory_size]. *)
Class BatchSize := array_memory_size : RecordBatch → Z.

Definition device_eligible (dt : DataType) : bool :=
  match dt with
  | Int64 | Float64 | Float32 => true
  | _ => bool_decide (is_Some (vector_dimension dt))
  end.

Definition push_unique (cols : list nat) (i : nat) : list nat :=
  if bool_decide (i ∈ cols) then cols else cols ++ [i].

Definition schema_field (s : Schema) (i : nat) : result Field :=
  ok_or (fields s !! i) (Plan "column index out of range").

(** [Vec::dedup]: drop consecutive repetitions. *)
Fixpoint dedup (l : list nat) : list nat :=
  match l with
  | [] => []
  | x :: l' =>
      match l' with
      | y :: _ => if bool_decide (x = y) then dedup l' else x :: dedup l'
      | [] => [x]
      end
  end.

(** ** Side plans *)

Record SidePlan := mkPlan { device_cols : list nat; row_ids : bool }.
#[global] Instance SidePlan_EqDecision : EqDecision SidePlan.
Proof. solve_decision. Defined.

(** [iter().position(|&c| c == original)]. *)
Fixpoint position_in (l : list nat) (x : nat) : option nat :=
  match l with
  | [] => None
  | y :: l => if bool_decide (y = x) then Some 0%nat else S <$> position_in l x
  end.
Definition plan_position (p : SidePlan) (original : nat) : option nat :=
  position_in (device_cols p) original.

Definition row_id_position (p : SidePlan) : option nat :=
  if row_ids p then Some (length (device_cols p)) else None.

(** The row ids [0..n]. *)
Definition row_id_column (n : nat) : Array :=
  Int64Array_of (Some <$> (Z.of_nat <$> seq 0 n)).

Section Ops.
Context `{ArrowKernels, HashOrder, BatchSize}.

Definition sub_batch (p : SidePlan) (b : RecordBatch) : result RecordBatch :=
  cells ← mapM (λ i, f ← schema_field (schema b) i; c ← index (columns b) i; Ok (f, c))
               (device_cols p);
  ids ← (if row_ids p then
           if Z.of_nat (num_rows b) <=? i64_max
           then Ok [(Field_new ROW_ID Int64 false, row_id_column (num_rows b))]
           else Err (Execution "batch exceeds i64::MAX rows")
         else Ok []);
  let cells := cells ++ ids in
  map_err ArrowE (batch_try_new (Schema_new (fst <$> cells)) (snd <$> cells)).

Fixpoint remap_predicate (pr : Predicate) (p : SidePlan) : result Predicate :=
  match pr with
  | Compare c op lit =>
      i ← ok_or (plan_position p c) (Plan "predicate column missing from device plan");
      Ok (Compare i op lit)
  | And l r =>
      l ← remap_predicate l p;
      r ← remap_predicate r p;
      Ok (And l r)
  end.

Definition take_rows (c ids : Array) : result Array := map_err ArrowE (arrow_take_at c ids).

(** ** The build side of a join *)

Record JoinBuild := mkJoinBuild { jb_batch : RecordBatch; jb_key : nat; jb_table : JoinTable }.

Definition JoinBuild_new (b : RecordBatch) (key : nat) : result JoinBuild :=
  table ← JoinTable_build b key;
  Ok (mkJoinBuild b key table).

Record DeviceBuild := mkDeviceBuild { dvb_plan : SidePlan; dvb_batch : DeviceBatch }.

(** ** The operator *)

Record GpuOperator := mkOperator {
  op_backend : GpuBackend;
  op_streams : list DeviceStream;
  op_next_stream : Z;
  op_stats : option OperatorStats;
  op_device_build : option DeviceBuild;
  op_warned_fallback : bool;
}.

Definition with_next (n : Z) (o : GpuOperator) : GpuOperator :=
  mkOperator (op_backend o) (op_streams o) n (op_stats o) (op_device_build o)
             (op_warned_fallback o).
Definition with_op_stats (f : OperatorStats → OperatorStats) (o : GpuOperator) : GpuOperator :=
  mkOperator (op_backend o) (op_streams o) (op_next_stream o) (f <$> op_stats o)
             (op_device_build o) (op_warned_fallback o).
Definition with_build (d : DeviceBuild) (o : GpuOperator) : GpuOperator :=
  mkOperator (op_backend o) (op_streams o) (op_next_stream o) (op_stats o) (Some d)
             (op_warned_fallback o).
Definition set_warned (o : GpuOperator) : GpuOperator :=
  mkOperator (op_backend o) (op_streams o) (op_next_stream o) (op_stats o) (op_device_build o)
             true.

Inductive DeviceOutcome :=
  | Ran (b : RecordBatch) (moved : Z * Z)
  | Declined (why : EngineError).

(** A step of the operator: the state survives an error. *)
Definition OpM (A : Type) : Type := GpuOperator → GpuOperator * result A.

Definition op_ret {A} (a : A) : OpM A := λ o, (o, Ok a).
Definition op_lift {A} (r : result A) : OpM A := λ o, (o, r).
Definition op_bind {A B} (m : OpM A) (f : A → OpM B) : OpM B := λ o,
  match m o with
  | (o, Ok a) => f a o
  | (o, Err e) => (o, Err e)
  | (o, Panic) => (o, Panic)
  end.
Local Notation "'let!' x ':=' m 'in' k" := (op_bind m (λ x, k))
  (at level 200, x pattern, m at level 100, k at level 200, only parsing).

Definition GpuOperator_new (g : GpuBackend) (stats : option OperatorStats) : result GpuOperator :=
  streams ← (if is_gpu (gb_kind g)
             then s1 ← gb_create_stream g; s2 ← gb_create_stream g; Ok [s1; s2]
             else s ← gb_create_stream g; Ok [s]);
  Ok (mkOperator g streams 0 stats None false).

(** [stream]: round robin over the operator's streams. *)
Definition op_stream : OpM DeviceStream := λ o,
  (with_next (wadd64 (op_next_stream o) 1) o,
   index (op_streams o) (Z.to_nat (op_next_stream o mod Z.of_nat (length (op_streams o))))).

Definition record (rows_in : nat) (out : RecordBatch) (elapsed : Z) (moved : option (Z * Z))
    (o : GpuOperator) : GpuOperator :=
  with_op_stats (λ s,
    let s := record_batch (Z.of_nat rows_in) (Z.of_nat (num_rows out)) elapsed s in
    match moved with
    | Some (h2d, d2h) => record_transfer h2d d2h s
    | None => s
    end) o.

Definition try_device (gpu : DeviceStream → OpM (RecordBatch * Z)) : OpM DeviceOutcome := λ o,
  match op_bind op_stream gpu o with
  | (o, Ok (b, h2d)) => (o, Ok (Ran b (h2d, array_memory_size b)))
  | (o, Err e) => if is_unsupported e then (o, Ok (Declined e)) else (o, Err e)
  | (o, Panic) => (o, Panic)
  end.

Definition no_device_path (supported : bool) (what : string) (o : GpuOperator) :
    option EngineError :=
  if negb (is_gpu (gb_kind (op_backend o))) then
    Some (Unsupported "backend.device" "an operator placed on a device runs the CPU reference")
  else if negb supported then
    Some (Unsupported "backend.operation" ("the backend does not support " +:+ what))
  else None.

Definition fell_back (o : GpuOperator) : GpuOperator := set_warned (with_op_stats record_fallback o).

Definition round_trip (s : DeviceStream) (sub : RecordBatch)
    (kernel : DeviceStream → DeviceBatch → result DeviceBatch) : OpM (RecordBatch * Z) := λ o,
  let g := op_backend o in
  (o, dev ← gb_upload g s sub;
      out ← kernel s dev;
      host ← gb_download g s out;
      _ ← gb_synchronize g s;
      Ok (host, array_memory_size sub)).

(** The tail every operator shares: run the reference on a declined batch,
    count it, and record what the batch did. *)
Definition finish (rows_in : nat) (elapsed : Z) (outcome : DeviceOutcome)
    (reference : result RecordBatch) : OpM RecordBatch :=
  let! r := match outcome with
            | Ran out moved => op_ret (out, Some moved)
            | Declined _ => λ o, (fell_back o, out ← reference; Ok (out, None))
            end in
  λ o, (record rows_in r.1 elapsed r.2 o, Ok r.1).

(** *** Filter *)

(** Reassembly in projection order: a device output for an eligible column, a
    host gather for another. *)
Fixpoint reassemble (b dev_out : RecordBatch) (ids : option Array) (l : list (nat * bool))
    (next_device : nat) : result (list (Field * Array)) :=
  match l with
  | [] => Ok []
  | (i, ok) :: l =>
      f ← schema_field (schema b) i;
      if (ok : bool) then
        c ← index (columns dev_out) next_device;
        rest ← reassemble b dev_out ids l (S next_device);
        Ok ((f, c) :: rest)
      else
        ids' ← ok_or ids (Execution "row ids missing for host gather");
        c ← index (columns b) i;
        c ← take_rows c ids';
        rest ← reassemble b dev_out ids l next_device;
        Ok ((f, c) :: rest)
  end.

Definition eligible_flags (b : RecordBatch) (projection : list nat) : result (list bool) :=
  mapM (λ i, f ← schema_field (schema b) i; Ok (device_eligible (field_type_of f))) projection.

(** The projected columns the device can hold, in order. *)
Definition eligible_of (projection : list nat) (eligible : list bool) : list nat :=
  (zip projection eligible) ≫= (λ '(i, ok), if (ok : bool) then [i] else []).

Definition filter_plan (p : Predicate) (projection : list nat) (eligible : list bool) : SidePlan :=
  let unique := foldl push_unique [] (dedup (pred_columns p)) in
  mkPlan (foldl push_unique unique (eligible_of projection eligible))
         (existsb negb eligible).

Definition dev_projection (plan : SidePlan) (projection : list nat) (eligible : list bool) :
    result (list nat) :=
  ps ← mapM (λ i, ok_or (plan_position plan i) (Plan "projected column missing from device plan"))
            (eligible_of projection eligible);
  Ok (ps ++ match row_id_position plan with Some pos => [pos] | None => [] end).

Definition filter_project_on_device (b : RecordBatch) (p : Predicate) (projection : list nat) :
    OpM DeviceOutcome :=
  let! eligible := op_lift (eligible_flags b projection) in
  let plan := filter_plan p projection eligible in
  let! sub := op_lift (sub_batch plan b) in
  let! remapped := op_lift (remap_predicate p plan) in
  let! dp := op_lift (dev_projection plan projection eligible) in
  let! outcome := try_device (λ s o,
    round_trip s sub (λ s dev,
      gb_filter_project (op_backend o) s (mkFilterArgs dev remapped dp)) o) in
  match outcome with
  | Declined why => op_ret (Declined why)
  | Ran dev_out moved =>
      let! ids := op_lift (if row_ids plan
                           then Some <$> index (columns dev_out) (num_columns dev_out - 1)
                           else Ok None) in
      let! cells := op_lift (reassemble b dev_out ids (zip projection eligible) 0) in
      let! out := op_lift (map_err ArrowE
                    (batch_try_new (Schema_new (fst <$> cells)) (snd <$> cells))) in
      op_ret (Ran out moved)
  end.

Definition op_filter_project (b : RecordBatch) (p : Predicate) (projection : list nat)
    (elapsed : Z) : OpM RecordBatch := λ o,
  op_bind (match no_device_path (gb_supports_predicate (op_backend o) p) "this predicate" o with
           | Some why => op_ret (Declined why)
           | None => filter_project_on_device b p projection
           end)
    (λ outcome, finish (num_rows b) elapsed outcome (filter_project b p projection)) o.

(** *** Hash join *)

Definition side_plan (s : Schema) (key : nat) (selected : list nat) : result SidePlan :=
  flags ← mapM (λ i, f ← schema_field s i; Ok (i, device_eligible (field_type_of f))) selected;
  Ok (mkPlan (foldl (λ cols '(i, ok), if (ok : bool) then push_unique cols i else cols) [key] flags)
             (existsb (λ '(_, ok), negb ok) flags)).

(** The cached build when it was cut by the same plan; otherwise a fresh
    upload, offered to a cache that keeps its first value. *)
Definition device_build (s : DeviceStream) (build : JoinBuild) (plan : SidePlan) :
    OpM DeviceBuild := λ o,
  let fresh :=
    op_bind (op_lift (sub ← sub_batch plan (jb_batch build);
                      d ← gb_upload (op_backend o) s sub;
                      _ ← gb_synchronize (op_backend o) s;
                      Ok (mkDeviceBuild plan d)))
      (λ fresh o, match op_device_build o with
                  | Some cached => (o, Ok cached)
                  | None => (with_build fresh o, Ok fresh)
                  end) o in
  match op_device_build o with
  | Some cached => if bool_decide (dvb_plan cached = plan) then (o, Ok cached) else fresh
  | None => fresh
  end.

(** One output column of the join: the device's copy when its plan has the
    column, a gather on the host otherwise. *)
Definition join_output (left : RecordBatch) (build : RecordBatch) (dev_out : RecordBatch)
    (left_plan right_plan : SidePlan) (left_ids right_ids : option Array) (i : nat) :
    result (Field * Array) :=
  let width := length (fields (schema left)) in
  let left_width := (length (device_cols left_plan) + if row_ids left_plan then 1 else 0)%nat in
  let '(b, plan, ids, offset, local) :=
    if (i <? width)%nat then (left, left_plan, left_ids, 0%nat, i)
    else (build, right_plan, right_ids, left_width, (i - width)%nat) in
  f ← schema_field (schema b) local;
  match plan_position plan local with
  | Some pos => c ← index (columns dev_out) (offset + pos); Ok (f, c)
  | None =>
      ids ← ok_or ids (Execution "row ids missing for host gather");
      c ← index (columns b) local;
      c ← take_rows c ids;
      Ok (f, c)
  end.

Definition hash_join_on_device (left : RecordBatch) (build : JoinBuild) (left_key : nat)
    (projection : option (list nat)) : OpM DeviceOutcome :=
  let ls := schema left in
  let rs := schema (jb_batch build) in
  let width := length (fields ls) in
  let total := (width + length (fields rs))%nat in
  let selected := match projection with Some p => p | None => seq 0 total end in
  if negb (forallb (λ i, (i <? total)%nat) selected) then
    op_lift (Err (Plan "join projection index out of range"))
  else
    let! left_plan := op_lift (side_plan ls left_key (filter (λ i, (i < width)%nat) selected)) in
    let! right_plan := op_lift (side_plan rs (jb_key build)
        ((λ i, (i - width)%nat) <$> filter (λ i, (width ≤ i)%nat) selected)) in
    let! left_sub := op_lift (sub_batch left_plan left) in
    let left_key_pos := default 0%nat (plan_position left_plan left_key) in
    let right_key_pos := default 0%nat (plan_position right_plan (jb_key build)) in
    let! outcome := try_device (λ s,
      let! dev_build := device_build s build right_plan in
      λ o, round_trip s left_sub (λ s dev_left,
        gb_hash_join (op_backend o) s
          (mkJoinArgs dev_left (dvb_batch dev_build) left_key_pos right_key_pos)) o) in
    match outcome with
    | Declined why => op_ret (Declined why)
    | Ran dev_out moved =>
        let left_width :=
          (length (device_cols left_plan) + if row_ids left_plan then 1 else 0)%nat in
        let! left_ids := op_lift (match row_id_position left_plan with
                          | Some pos => Some <$> index (columns dev_out) pos
                          | None => Ok None end) in
        let! right_ids := op_lift (match row_id_position right_plan with
                           | Some pos => Some <$> index (columns dev_out) (left_width + pos)
                           | None => Ok None end) in
        let! cells := op_lift (mapM (join_output left (jb_batch build) dev_out left_plan right_plan
                                       left_ids right_ids) selected) in
        let! out := op_lift (map_err ArrowE
                      (batch_try_new (Schema_new (fst <$> cells)) (snd <$> cells))) in
        op_ret (Ran out moved)
    end.

Definition op_hash_join (left : RecordBatch) (build : JoinBuild) (left_key : nat)
    (projection : option (list nat)) (elapsed : Z) : OpM RecordBatch := λ o,
  op_bind (match no_device_path (gb_supports_hash_join (op_backend o)) "hash joins" o with
           | Some why => op_ret (Declined why)
           | None => hash_join_on_device left build left_key projection
           end)
    (λ outcome, finish (num_rows left) elapsed outcome
       (hash_join_probe left left_key (jb_batch build) (jb_table build) projection)) o.

(** *** Aggregate *)

Definition aggregate_plan (spec : AggregateSpec) : SidePlan :=
  mkPlan (foldl push_unique [group_by spec] (snd <$> aggregates spec)) false.

Definition remap_spec (spec : AggregateSpec) (plan : SidePlan) : AggregateSpec :=
  mkSpec (default 0%nat (plan_position plan (group_by spec)))
         ((λ '(func, i), (func, default 0%nat (plan_position plan i))) <$> aggregates spec).

Definition aggregate_on_device (b : RecordBatch) (spec : AggregateSpec) : OpM DeviceOutcome :=
  let plan := aggregate_plan spec in
  let! sub := op_lift (sub_batch plan b) in
  try_device (λ s o, round_trip s sub (λ s dev,
    gb_aggregate (op_backend o) s (mkAggArgs dev (remap_spec spec plan))) o).

Definition op_aggregate (b : RecordBatch) (spec : AggregateSpec) (elapsed : Z) :
    OpM RecordBatch := λ o,
  op_bind (match no_device_path (gb_supports_aggregate (op_backend o)) "aggregation" o with
           | Some why => op_ret (Declined why)
           | None => aggregate_on_device b spec
           end)
    (λ outcome, finish (num_rows b) elapsed outcome (aggregate b spec)) o.

(** *** Vector distance *)

Definition vector_distance_on_device (b : RecordBatch) (column : nat) (query : list f32)
    (metric : DistanceMetric) (name : string) : OpM DeviceOutcome :=
  let plan := mkPlan [column] false in
  let! sub := op_lift (sub_batch plan b) in
  let! outcome := try_device (λ s o, round_trip s sub (λ s dev,
    gb_vector_distance (op_backend o) s (mkVecArgs dev 0 query metric name)) o) in
  match outcome with
  | Declined why => op_ret (Declined why)
  | Ran dev_out moved =>
      let! distance := op_lift (index (columns dev_out) (num_columns dev_out - 1)) in
      let! out := op_lift (map_err ArrowE
        (batch_try_new (Schema_new (fields (schema b) ++ [Field_new name Float32 true]))
                       (columns b ++ [distance]))) in
      op_ret (Ran out moved)
  end.

Definition op_vector_distance (b : RecordBatch) (column : nat) (query : list f32)
    (metric : DistanceMetric) (name : string) (elapsed : Z) : OpM RecordBatch := λ o,
  op_bind (match no_device_path true "vector distance" o with
           | Some why => op_ret (Declined why)
           | None => vector_distance_on_device b column query metric name
           end)
    (λ outcome, finish (num_rows b) elapsed outcome
       (vector_distance b column query metric name)) o.
End Ops.
