(* ===== verification/OperatorCorrect.v ===== *)
(** * Operators compute the reference on any backend

    Properties of [Operator]: for every backend that meets [BackendContract],
    what an operator returns is what the CPU reference kernel returns (the
    schema's metadata apart), however the columns travelled; a declined batch
    runs the reference and is counted exactly once. *)

From S2P Require Import Prelude Floats Arrow Core Telemetry Memory ArrowKernels Kernels.
From S2P Require Import FilterCorrect JoinCorrect AggregateCorrect VectorCorrect Device.
From S2P Require Import DeviceCorrect Operator.

(** Equality of batches up to schema metadata. *)
Record same_rows (a b : RecordBatch) : Prop := {
  sr_fields : fields (schema a) = fields (schema b);
  sr_columns : columns a = columns b;
  sr_rows : num_rows a = num_rows b;
}.

Lemma same_rows_refl b : same_rows b b.
Proof. done. Qed.

(** ** Plans *)

Lemma elem_of_push_unique cols i x : x ∈ push_unique cols i ↔ x ∈ cols ∨ x = i.
Proof. unfold push_unique. case_bool_decide; set_solver. Qed.

Lemma elem_of_push_uniques l cols x : x ∈ foldl push_unique cols l ↔ x ∈ cols ∨ x ∈ l.
Proof.
  revert cols. induction l as [|i l IH]; intros cols; cbn; [set_solver|].
  rewrite IH, elem_of_push_unique. set_solver.
Qed.

Lemma elem_of_dedup l x : x ∈ dedup l ↔ x ∈ l.
Proof.
  induction l as [|a [|b l] IH]; [done|done|].
  change (dedup (a :: b :: l))
    with (if bool_decide (a = b) then dedup (b :: l) else a :: dedup (b :: l)).
  case_bool_decide as Hab; [subst|]; rewrite ?elem_of_cons, IH; set_solver.
Qed.

Lemma position_in_Some l x i : position_in l x = Some i → l !! i = Some x.
Proof.
  revert i. induction l as [|y l IH]; intros i; cbn; [done|]. case_bool_decide as Hy.
  - intros [= <-]. cbn. congruence.
  - destruct (position_in l x); cbn; [|done]. intros [= <-]. cbn. by apply IH.
Qed.

Lemma position_in_is_Some l x : x ∈ l → is_Some (position_in l x).
Proof.
  induction l as [|y l IH]; [set_solver|]. cbn. case_bool_decide; [by eexists|].
  intros [->|Hx]%elem_of_cons; [done|]. destruct (IH Hx) as [i ->]. by eexists.
Qed.

(** The positions a plan gives to columns show the same columns in the
    sub-batch. *)
Definition agrees (plan : SidePlan) (b sub : RecordBatch) : Prop :=
  num_rows sub = num_rows b ∧
  ∀ c pos, plan_position plan c = Some pos →
    columns sub !! pos = columns b !! c ∧
    fields (schema sub) !! pos = fields (schema b) !! c.

Section Ops.
Context `{ArrowLaws, HashOrderLaw, BatchSize}.

(** The cells of the planned columns. *)
Lemma plan_cells b l fs cs :
  mapM (λ i, fields (schema b) !! i) l = Some fs → mapM (λ i, columns b !! i) l = Some cs →
  mapM (λ i, f ← schema_field (schema b) i; c ← index (columns b) i; Ok (f, c)) l
  = Ok (zip fs cs).
Proof.
  intros Hf Hc. apply mapM_Some_1 in Hf, Hc. apply mapM_res_Ok. revert cs Hc.
  induction Hf as [|i f l fs Hf _ IH]; intros cs Hc; inversion Hc as [|? c ? cs' Hci Hcs]; subst;
    cbn; constructor; [|by apply IH].
  unfold schema_field. rewrite Hf. cbn. by rewrite (index_Some _ _ _ Hci).
Qed.

Lemma plan_cells_Ok_inv b l cells :
  mapM (λ i, f ← schema_field (schema b) i; c ← index (columns b) i; Ok (f, c)) l = Ok cells →
  mapM (λ i, fields (schema b) !! i) l = Some cells.*1 ∧
  mapM (λ i, columns b !! i) l = Some cells.*2.
Proof.
  intros Hm. apply mapM_res_Ok in Hm. induction Hm as [|i [f c] l cells Hi _ [IH1 IH2]]; [done|].
  apply bind_Ok_inv in Hi as (f' & Hf & Hi). apply bind_Ok_inv in Hi as (c' & Hc & [= <- <-]).
  unfold schema_field in Hf. apply ok_or_Ok_inv in Hf. apply index_Ok_inv in Hc.
  cbn. by rewrite Hf, Hc, IH1, IH2.
Qed.

Lemma row_id_column_ok n :
  Z.of_nat n ≤ i64_max → column_ok (Field_new ROW_ID Int64 false) (row_id_column n) = true.
Proof.
  intros Hn. unfold column_ok, array_ok, row_id_column, Int64Array_of. cbn.
  rewrite bool_decide_true by done. cbn. rewrite andb_true_iff, !forallb_forall.
  setoid_rewrite <- list_elem_of_In. split.
  - intros o Ho. apply list_elem_of_fmap in Ho as (o' & -> & Ho').
    apply list_elem_of_fmap in Ho' as (z & -> & Hz). apply list_elem_of_fmap in Hz as (i & -> & Hi).
    apply elem_of_seq in Hi. cbn. apply bool_decide_eq_true. unfold i64_min in *. lia.
  - intros o Ho. apply list_elem_of_fmap in Ho as (o' & -> & Ho').
    apply list_elem_of_fmap in Ho' as (z & -> & _). by apply bool_decide_eq_true.
Qed.

(** The columns and fields of the sub-batch. *)
Definition id_cells (plan : SidePlan) (b : RecordBatch) : list (Field * Array) :=
  if row_ids plan then [(Field_new ROW_ID Int64 false, row_id_column (num_rows b))] else [].

Lemma sub_batch_spec plan b fs cs :
  batch_ok b → Z.of_nat (num_rows b) ≤ i64_max →
  (device_cols plan ≠ [] ∨ row_ids plan = true) →
  mapM (λ i, fields (schema b) !! i) (device_cols plan) = Some fs →
  mapM (λ i, columns b !! i) (device_cols plan) = Some cs →
  let sub := mkBatch (Schema_new (fs ++ (id_cells plan b).*1)) (cs ++ (id_cells plan b).*2)
                     (num_rows b) in
  sub_batch plan b = Ok sub ∧ batch_ok sub ∧ agrees plan b sub.
Proof.
  intros Hb Hn Hne Hf Hc sub.
  assert (batch_ok sub) as Hsub.
  { unfold batch_ok, sub. cbn. apply Forall2_app.
    - exact (batch_ok_project _ _ _ _ Hb Hf Hc).
    - unfold id_cells. destruct (row_ids plan); cbn; constructor; [|done].
      split; [by apply row_id_column_ok|].
      unfold array_len, row_id_column, Int64Array_of. cbn. by rewrite !length_fmap, length_seq. }
  assert (length fs = length cs) as Hlen.
  { apply mapM_Some_1 in Hf, Hc. by rewrite <- (Forall2_length _ _ _ Hf), (Forall2_length _ _ _ Hc). }
  split; [|split; [done|]].
  - unfold sub_batch. rewrite (plan_cells _ _ _ _ Hf Hc). cbn [mbind res_bind].
    assert ((if row_ids plan
             then if Z.of_nat (num_rows b) <=? i64_max
                  then Ok [(Field_new ROW_ID Int64 false, row_id_column (num_rows b))]
                  else Err (Execution "batch exceeds i64::MAX rows")
             else Ok []) = Ok (id_cells plan b)) as ->.
    { unfold id_cells. destruct (row_ids plan); [|done]. by rewrite (proj2 (Z.leb_le _ _)). }
    cbn [mbind res_bind]. rewrite !fmap_app, fst_zip, snd_zip by lia.
    unfold batch_ok in Hsub. cbn in Hsub.
    destruct (cs ++ (id_cells plan b).*2) as [|c cs'] eqn:Ecs.
    { exfalso. apply app_eq_nil in Ecs as [-> Eid]. apply mapM_Some_1 in Hc.
      inversion Hc as [E|]; subst. rewrite <- E in Hne. unfold id_cells in Eid.
      destruct Hne as [|Hr]; [done|]. by rewrite Hr in Eid. }
    assert (array_len c = num_rows b) as Hc0.
    { inversion Hsub as [|? ? ? ? [_ ?]]; subst. done. }
    rewrite try_new_law by (unfold batch_ok; cbn; by rewrite Hc0). cbn. by rewrite Hc0.
  - split; [done|]. intros c pos Hpos. unfold plan_position in Hpos. apply position_in_Some in Hpos.
    apply mapM_Some_1 in Hf, Hc. unfold sub. cbn.
    destruct (Forall2_lookup_l _ _ _ _ _ Hf Hpos) as (f & Hfp & Hfc).
    destruct (Forall2_lookup_l _ _ _ _ _ Hc Hpos) as (a & Hap & Hac).
    rewrite Hfc, Hac. split; by apply lookup_app_l_Some.
Qed.

(** A sub-batch that was cut had its columns in range. *)
Lemma sub_batch_Ok_inv plan b sub :
  sub_batch plan b = Ok sub →
  ∃ fs cs, mapM (λ i, fields (schema b) !! i) (device_cols plan) = Some fs ∧
    mapM (λ i, columns b !! i) (device_cols plan) = Some cs ∧
    (device_cols plan ≠ [] ∨ row_ids plan = true).
Proof.
  intros Hs. unfold sub_batch in Hs. apply bind_Ok_inv in Hs as (cells & Hcells & Hs).
  apply plan_cells_Ok_inv in Hcells as [Hf Hc]. eexists _, _. split; [exact Hf|].
  split; [exact Hc|]. apply bind_Ok_inv in Hs as (ids & Hids & Hs).
  destruct (device_cols plan); [|by left]. destruct (row_ids plan); [by right|].
  injection Hids as <-. cbn in Hc. injection Hc as Hc. rewrite app_nil_r in Hs.
  destruct cells; [|done]. destruct (try_new_empty_law (Schema_new [])) as [e He].
  cbn in Hs. by rewrite He in Hs.
Qed.
Lemma sub_batch_agrees plan b sub :
  batch_ok b → Z.of_nat (num_rows b) ≤ i64_max → sub_batch plan b = Ok sub →
  batch_ok sub ∧ agrees plan b sub ∧
  columns sub !! length (device_cols plan)
  = (if row_ids plan then Some (row_id_column (num_rows b)) else None) ∧
  num_columns sub = (length (device_cols plan) + if row_ids plan then 1 else 0)%nat.
Proof.
  intros Hb Hn Hsub.
  destruct (sub_batch_Ok_inv _ _ _ Hsub) as (fs & cs & Hfs & Hcs & Hne).
  destruct (sub_batch_spec plan b fs cs Hb Hn Hne Hfs Hcs) as (Hsub' & Hok & Hag).
  assert (sub = mkBatch (Schema_new (fs ++ (id_cells plan b).*1)) (cs ++ (id_cells plan b).*2)
                        (num_rows b)) as -> by congruence.
  split; [done|]. split; [done|]. unfold num_columns. cbn.
  apply mapM_Some_1, Forall2_length in Hcs. rewrite Hcs, lookup_app_r, Nat.sub_diag by lia.
  rewrite length_app. unfold id_cells. by destruct (row_ids plan).
Qed.

(** ** Predicates over a sub-batch *)

Lemma remap_eval plan b sub p p' i :
  agrees plan b sub → remap_predicate p plan = Ok p' → eval_row sub p' i = eval_row b p i.
Proof.
  intros [_ Hag]. revert p'. induction p as [c op lit|p1 IH1 p2 IH2]; intros p' Hr; cbn in Hr.
  - apply bind_Ok_inv in Hr as (pos & Hp & [= <-]). apply ok_or_Ok_inv in Hp.
    cbn. by rewrite (proj1 (Hag _ _ Hp)).
  - apply bind_Ok_inv in Hr as (q1 & H1' & Hr). apply bind_Ok_inv in Hr as (q2 & H2' & [= <-]).
    cbn. by rewrite (IH1 _ H1'), (IH2 _ H2').
Qed.

Lemma remap_fault plan b sub p p' :
  agrees plan b sub → remap_predicate p plan = Ok p' → pred_fault sub p' = pred_fault b p.
Proof.
  intros [_ Hag]. revert p'. induction p as [c op lit|p1 IH1 p2 IH2]; intros p' Hr; cbn in Hr.
  - apply bind_Ok_inv in Hr as (pos & Hp & [= <-]). apply ok_or_Ok_inv in Hp.
    cbn. by rewrite (proj1 (Hag _ _ Hp)).
  - apply bind_Ok_inv in Hr as (q1 & H1' & Hr). apply bind_Ok_inv in Hr as (q2 & H2' & [= <-]).
    cbn. by rewrite (IH1 _ H1'), (IH2 _ H2').
Qed.

Lemma remap_kept plan b sub p p' :
  agrees plan b sub → remap_predicate p plan = Ok p' →
  kept_rows sub p' = kept_rows b p ∧ kept sub p' = kept b p.
Proof.
  intros Hag Hr. assert (kept_rows sub p' = kept_rows b p) as Hk.
  { unfold kept_rows. rewrite (proj1 Hag). apply filter_ext_in. intros i _.
    by rewrite (remap_eval _ _ _ _ _ i Hag Hr). }
  split; [done|]. unfold kept. by rewrite Hk.
Qed.

(** A successful filter: its predicate was typed and its projection in range. *)
Lemma filter_project_Ok_inv b p projection out :
  batch_ok b → filter_project b p projection = Ok out →
  pred_fault b p = None ∧
  ∃ fs cs, mapM (λ i, fields (schema b) !! i) projection = Some fs ∧
    mapM (λ i, columns b !! i) projection = Some cs ∧
    out = mkBatch (mkSchema fs (schema_metadata (schema b)))
                  ((λ a, array_take a (kept b p)) <$> cs) (length (kept_rows b p)).
Proof.
  intros Hb Hf. assert (pred_fault b p = None) as Hp.
  { unfold filter_project in Hf. rewrite evaluate_predicate_spec in Hf by done.
    by destruct (pred_fault b p). }
  split; [done|].
  destruct (decide (Forall (λ i, (i < num_columns b)%nat) projection)) as [Hr|Hr].
  - destruct (mapM_lookup_in (fields (schema b)) projection) as [fs Hfs].
    { by rewrite (batch_ok_num_columns _ Hb). }
    destruct (mapM_lookup_in (columns b) projection) as [cs Hcs]; [done|].
    exists fs, cs. split; [done|]. split; [done|].
    rewrite (filter_batch_spec b p fs cs projection) in Hf by done. congruence.
  - exfalso. apply not_Forall_Exists in Hr; [|apply _]. apply Exists_exists in Hr as (i & Hi & Hge).
    destruct (project_range_law b projection i) as [e He]; [done|cbn in Hge; lia|].
    unfold filter_project in Hf. rewrite evaluate_predicate_spec, Hp in Hf by done. cbn in Hf.
    by rewrite He in Hf.
Qed.

(** ** Filter on the device *)

Lemma eligible_flags_spec b projection eligible :
  eligible_flags b projection = Ok eligible ↔
  Forall2 (λ i ok, ∃ f, fields (schema b) !! i = Some f ∧ ok = device_eligible (field_type_of f))
          projection eligible.
Proof.
  unfold eligible_flags. rewrite mapM_res_Ok. split; intros Hf; (eapply Forall2_impl; [exact Hf|]).
  - intros i ok Hi. apply bind_Ok_inv in Hi as (f & Hi & [= <-]).
    unfold schema_field in Hi. apply ok_or_Ok_inv in Hi. eauto.
  - intros i ok (f & Hi & ->). unfold schema_field. by rewrite Hi.
Qed.

(** Row ids taken at some rows are those rows. *)
Lemma row_ids_take n idx :
  in_bounds n idx → array_take (row_id_column n) idx = Int64Array_of (Some <$> idx).
Proof.
  intros Hidx. unfold array_take, row_id_column, Int64Array_of. cbn. f_equal.
  rewrite !gather_fmap. do 2 f_equal.
  induction Hidx as [|i idx Hi _ IH]; [done|]. rewrite <- (Z2Nat.id i) by lia.
  rewrite (gather_cons _ (Z.to_nat i) _ (Z.to_nat i)) by (rewrite lookup_seq_lt by lia; done).
  cbn [fmap list_fmap]. f_equal. exact IH.
Qed.

Lemma kept_bounds b p : in_bounds (num_rows b) (kept b p).
Proof.
  unfold in_bounds, kept. apply Forall_fmap, Forall_forall.
  intros j [_ Hj]%list_elem_of_filter. apply elem_of_seq in Hj. cbn. lia.
Qed.

Lemma kept_in_bounds b p c i :
  batch_ok b → columns b !! i = Some c → in_bounds (array_len c) (kept b p).
Proof.
  intros Hb Hc. rewrite (batch_ok_column_len _ _ _ Hb Hc). apply kept_bounds.
Qed.

(** Reassembly yields every projected column at the kept rows. *)
Lemma reassemble_spec b dev_out ids p projection eligible :
  batch_ok b →
  Forall2 (λ i ok, ∃ f, fields (schema b) !! i = Some f ∧ ok = device_eligible (field_type_of f))
          projection eligible →
  (existsb negb eligible = true → ids = Some (Int64Array_of (Some <$> kept b p))) →
  ∀ pre xs ys, columns dev_out = pre ++ xs ++ ys →
  Forall2 (λ i a, ∃ c, columns b !! i = Some c ∧ a = array_take c (kept b p))
          (eligible_of projection eligible) xs →
  ∃ fs cs, mapM (λ i, fields (schema b) !! i) projection = Some fs ∧
    mapM (λ i, columns b !! i) projection = Some cs ∧
    reassemble b dev_out ids (zip projection eligible) (length pre)
    = Ok (zip fs ((λ a, array_take a (kept b p)) <$> cs)).
Proof.
  intros Hb Hel. induction Hel as [|i ok projection eligible (f & Hf & Hok) _ IH];
    intros Hids pre xs ys Hcols Hxs.
  { by exists [], []. }
  destruct (batch_ok_lookup _ _ _ Hb Hf) as (c & Hc & _).
  assert (existsb negb eligible = true → ids = Some (Int64Array_of (Some <$> kept b p))) as Hids'.
  { intros He. apply Hids. cbn. rewrite He. apply orb_true_r. }
  change (zip (i :: projection) (ok :: eligible)) with ((i, ok) :: zip projection eligible).
  cbn [reassemble]. unfold schema_field at 1. rewrite Hf. cbn [ok_or mbind res_bind].
  change (eligible_of (i :: projection) (ok :: eligible))
    with ((if ok then [i] else []) ++ eligible_of projection eligible) in Hxs.
  clear Hok. destruct ok.
  - cbn [app] in Hxs. inversion Hxs as [|? a ? xs' (c' & Hc' & ->) Hxs']; subst.
    assert (c' = c) as -> by congruence.
    erewrite (index_Some (columns dev_out)); [|rewrite Hcols; cbn; by apply list_lookup_middle].
    cbn [mbind res_bind].
    destruct (IH Hids' (pre ++ [array_take c (kept b p)]) xs' ys) as (fs & cs & Hfs & Hcs & Hre);
      [rewrite Hcols; cbn; by rewrite <- app_assoc|done|].
    rewrite length_app, Nat.add_1_r in Hre. rewrite Hre. cbn.
    exists (f :: fs), (c :: cs). cbn. by rewrite Hf, Hc, Hfs, Hcs.
  - rewrite Hids by done. cbn [ok_or mbind res_bind]. rewrite (index_Some _ _ _ Hc).
    cbn [mbind res_bind]. unfold take_rows.
    rewrite take_at_law by (by eapply kept_in_bounds). cbn [map_err mbind res_bind].
    destruct (IH Hids' pre xs ys Hcols Hxs) as (fs & cs & Hfs & Hcs & Hre).
    rewrite Hids in Hre by done. rewrite Hre. cbn.
    exists (f :: fs), (c :: cs). cbn. by rewrite Hf, Hc, Hfs, Hcs.
Qed.
(** What the device's result contains: the eligible columns at the kept rows,
    then the kept rows themselves when some column stays on the host. *)
Lemma filter_device_columns b p projection eligible sub p' dp dev_out :
  let plan := filter_plan p projection eligible in
  batch_ok b → Z.of_nat (num_rows b) ≤ i64_max →
  sub_batch plan b = Ok sub → remap_predicate p plan = Ok p' →
  dev_projection plan projection eligible = Ok dp → filter_project sub p' dp = Ok dev_out →
  pred_fault b p = None ∧
  ∃ xs, columns dev_out
        = xs ++ (if row_ids plan then [Int64Array_of (Some <$> kept b p)] else []) ∧
    Forall2 (λ i a, ∃ c, columns b !! i = Some c ∧ a = array_take c (kept b p))
            (eligible_of projection eligible) xs.
Proof.
  intros plan Hb Hn Hsub Hre Hdp Hf. clearbody plan.
  destruct (sub_batch_agrees _ _ _ Hb Hn Hsub) as (Hsubok & Hag & Hid & _).
  destruct (filter_project_Ok_inv _ _ _ _ Hsubok Hf) as (Hfault & fs & cs & _ & Hcs & ->).
  rewrite (remap_fault _ _ _ _ _ Hag Hre) in Hfault. split; [done|].
  destruct (remap_kept _ _ _ _ _ Hag Hre) as [_ ->]. cbn [columns].
  unfold dev_projection in Hdp. apply bind_Ok_inv in Hdp as (ps & Hps & [= <-]).
  apply mapM_res_Ok in Hps. apply mapM_Some_1 in Hcs.
  apply Forall2_app_inv_l in Hcs as (cs1 & cs2 & Hcs1 & Hcs2 & ->). rewrite fmap_app.
  exists ((λ a, array_take a (kept b p)) <$> cs1). split.
  - f_equal. unfold row_id_position in Hcs2. unfold agrees in Hag.
    destruct (row_ids plan) eqn:Hids; [|by inversion Hcs2; subst].
    inversion Hcs2 as [|? c ? ? Hc Hnil]; subst. inversion Hnil; subst. cbn.
    rewrite Hid in Hc. injection Hc as <-.
    by rewrite (row_ids_take _ _ (kept_bounds b p)).
  - apply Forall2_fmap_r. clear Hcs2 Hf. revert cs1 Hcs1.
    induction Hps as [|i pos l ps Hpos _ IH]; intros cs1 Hcs1; inversion Hcs1; subst; constructor.
    + apply ok_or_Ok_inv in Hpos. rewrite <- (proj1 (proj2 Hag _ _ Hpos)). eauto.
    + by apply IH.
Qed.

(** The batch assembled from the device's result is the reference's. *)
Lemma filter_device_spec b p projection eligible sub p' dp dev_out ids cells out :
  let plan := filter_plan p projection eligible in
  batch_ok b → Z.of_nat (num_rows b) ≤ i64_max →
  eligible_flags b projection = Ok eligible →
  sub_batch plan b = Ok sub → remap_predicate p plan = Ok p' →
  dev_projection plan projection eligible = Ok dp → filter_project sub p' dp = Ok dev_out →
  (if row_ids plan then Some <$> index (columns dev_out) (num_columns dev_out - 1) else Ok None)
    = Ok (E := EngineError) ids →
  reassemble b dev_out ids (zip projection eligible) 0 = Ok cells →
  map_err ArrowE (batch_try_new (Schema_new (fst <$> cells)) (snd <$> cells)) = Ok out →
  ∃ ref, filter_project b p projection = Ok ref ∧ same_rows out ref.
Proof.
  intros plan Hb Hn Hel Hsub Hre Hdp Hf Hids Hcells Hout. apply eligible_flags_spec in Hel.
  destruct (filter_device_columns _ _ _ _ _ _ _ _ Hb Hn Hsub Hre Hdp Hf)
    as (Hfault & xs & Hcols & Hxs).
  assert (existsb negb eligible = true → ids = Some (Int64Array_of (Some <$> kept b p))) as Hids'.
  { intros He. clear Hsub Hre Hdp. unfold plan, filter_plan in Hids, Hcols.
    cbn [row_ids] in Hids, Hcols. rewrite He in Hids, Hcols.
    apply fmap_Ok_inv in Hids as (a & Ha & <-). apply index_Ok_inv in Ha.
    unfold num_columns in Ha. rewrite Hcols, length_app in Ha. cbn in Ha.
    rewrite Nat.add_sub, list_lookup_middle in Ha by done. congruence. }
  destruct (reassemble_spec b dev_out ids p projection eligible Hb Hel Hids' [] xs _ Hcols Hxs)
    as (fs & cs & Hfs & Hcs & Hr).
  cbn [length] in Hr. rewrite Hr in Hcells. injection Hcells as <-.
  assert (length fs = length cs) as Hlen.
  { apply mapM_Some_1 in Hfs, Hcs. by rewrite <- (Forall2_length _ _ _ Hfs), (Forall2_length _ _ _ Hcs). }
  rewrite fst_zip, snd_zip in Hout by (rewrite length_fmap; lia).
  exists (mkBatch (mkSchema fs (schema_metadata (schema b)))
           ((λ a, array_take a (kept b p)) <$> cs) (length (kept_rows b p))).
  split; [by apply filter_batch_spec|].
  pose proof (kept_batch_ok b p _ _ _ Hb Hfs Hcs) as Hok. unfold batch_ok in Hok. cbn in Hok.
  destruct cs as [|c cs].
  { destruct fs; [|done]. destruct (try_new_empty_law (Schema_new [])) as [e He].
    cbn in Hout. by rewrite He in Hout. }
  assert (array_len (array_take c (kept b p)) = length (kept_rows b p)) as Hl.
  { destruct fs; [done|]. inversion Hok as [|? ? ? ? [_ ?]]; subst. done. }
  rewrite fmap_cons, try_new_law in Hout by (unfold batch_ok; rewrite Hl; exact Hok).
  injection Hout as <-. split; [done|done|exact Hl].
Qed.
(** ** The operator's state *)

(** Only the stream counter and the build cache moved. *)
Record same_operator (o o' : GpuOperator) : Prop := {
  so_backend : op_backend o' = op_backend o;
  so_streams : op_streams o' = op_streams o;
  so_stats : op_stats o' = op_stats o;
  so_warned : op_warned_fallback o' = op_warned_fallback o;
}.

#[local] Instance same_operator_preorder : PreOrder same_operator.
Proof.
  split; [by intros o; split|]. intros o1 o2 o3 [] []. split; etransitivity; done.
Qed.

Create HintDb hard discriminated.

(** The error, if any, is not one that makes a batch fall back. *)
Definition hard {A} (r : result A) : Prop := ∀ e, r = Err e → is_unsupported e = false.

Lemma hard_Ok {A} (a : A) : hard (Ok a).
Proof. done. Qed.
Lemma hard_Err {A} e : is_unsupported e = false → hard (A := A) (Err e).
Proof. by intros He ? [= <-]. Qed.
Lemma hard_bind {A B} (m : result A) (f : A → result B) :
  hard m → (∀ a, hard (f a)) → hard (m ≫= f).
Proof. intros Hm Hf. destruct m as [a|e|]; cbn; [apply Hf| |done]. intros ? [= <-]. by apply Hm. Qed.
Lemma hard_ok_or {A} (o : option A) e : is_unsupported e = false → hard (ok_or o e).
Proof. intros He. destruct o; [done|]. by apply hard_Err. Qed.
Lemma hard_index {A} (l : list A) i : hard (index l i).
Proof. unfold index. by destruct (l !! i). Qed.
Lemma hard_arrow {A} (m : arrow_result A) : hard (map_err ArrowE m).
Proof. destruct m; cbn; [done| |done]. by apply hard_Err. Qed.
Lemma hard_mapM {A B} (f : A → result B) l : (∀ a, hard (f a)) → hard (mapM f l).
Proof.
  intros Hf. induction l as [|a l IH]; [done|]. cbn. apply hard_bind; [done|]. intros b.
  by apply hard_bind.
Qed.
#[local] Hint Resolve hard_Ok hard_Err hard_bind hard_ok_or hard_index hard_arrow hard_mapM : hard.

Lemma hard_schema_field s i : hard (schema_field s i).
Proof. by apply hard_ok_or. Qed.
#[local] Hint Resolve hard_schema_field : hard.

Lemma hard_sub_batch plan b : hard (sub_batch plan b).
Proof.
  unfold sub_batch. apply hard_bind; [|intros cells; apply hard_bind; [|auto with hard]].
  - apply hard_mapM. intros i. apply hard_bind; [auto with hard|]. intros f. auto with hard.
  - destruct (row_ids plan); [|done]. destruct (_ <=? _); [done|]. by apply hard_Err.
Qed.

Lemma hard_remap p plan : hard (remap_predicate p plan).
Proof.
  induction p as [c op lit|p1 IH1 p2 IH2]; cbn; apply hard_bind; auto with hard.
Qed.

Lemma hard_eligible b projection : hard (eligible_flags b projection).
Proof. apply hard_mapM. intros i. apply hard_bind; auto with hard. Qed.

Lemma hard_dev_projection plan projection eligible : hard (dev_projection plan projection eligible).
Proof.
  apply hard_bind; [|auto with hard]. apply hard_mapM. intros i. by apply hard_ok_or.
Qed.

Lemma hard_reassemble b dev_out ids l n : hard (reassemble b dev_out ids l n).
Proof.
  revert n. induction l as [|[i ok] l IH]; intros n; cbn; [done|].
  apply hard_bind; [auto with hard|]. intros f. destruct ok.
  - apply hard_bind; [auto with hard|]. intros c. apply hard_bind; auto with hard.
  - apply hard_bind; [by apply hard_ok_or|]. intros a. apply hard_bind; [auto with hard|]. intros c.
    apply hard_bind; [apply hard_arrow|]. intros c'. apply hard_bind; auto with hard.
Qed.
#[local] Hint Resolve hard_sub_batch hard_remap hard_eligible hard_dev_projection hard_reassemble : hard.

(** The three ways a batch can go.  [reference] is what the CPU kernel gives. *)
Inductive op_outcome (o : GpuOperator) (n : nat) (elapsed : Z) (reference : result RecordBatch) :
    GpuOperator * result RecordBatch → Prop :=
  (** declined: the reference runs and the batch is counted as a fallback *)
  | OutFallback o1 :
      same_operator o o1 →
      op_outcome o n elapsed reference
        (match reference with
         | Ok out => record n out elapsed None (fell_back o1)
         | _ => fell_back o1
         end, reference)
  (** the device ran and its rows are the reference's *)
  | OutDevice o1 out ref moved :
      same_operator o o1 → reference = Ok ref → same_rows out ref →
      op_outcome o n elapsed reference (record n out elapsed (Some moved) o1, Ok out)
  (** the device path failed for another reason than being unsupported *)
  | OutFailed o1 r :
      same_operator o o1 → is_ok r = false → hard r →
      op_outcome o n elapsed reference (o1, r).

Lemma op_bind_inv {A B} (m : OpM A) (f : A → OpM B) o o' r :
  op_bind m f o = (o', r) →
  (∃ o1 a, m o = (o1, Ok a) ∧ f a o1 = (o', r)) ∨
  (∃ e, m o = (o', Err e) ∧ r = Err e) ∨ (m o = (o', Panic) ∧ r = Panic).
Proof.
  unfold op_bind. destruct (m o) as [o1 [a|e|]] eqn:E; intros Hm; [left; eauto|..];
    injection Hm as -> <-; eauto.
Qed.

Definition ticked (o : GpuOperator) : GpuOperator :=
  with_next (wadd64 (op_next_stream o) 1) o.

Lemma ticked_same o : same_operator o (ticked o).
Proof. done. Qed.

(** A device attempt without a cached build. *)
Lemma try_round_trip kern sub o o' r :
  try_device (λ s o, round_trip s sub (kern (op_backend o)) o) o = (o', r) →
  o' = ticked o ∧
  match r with
  | Ok (Ran host moved) =>
      ∃ s dev out, gb_upload (op_backend o) s sub = Ok dev ∧
        kern (op_backend o) s dev = Ok out ∧ gb_download (op_backend o) s out = Ok host
  | Ok (Declined e) => is_unsupported e = true
  | Err e => is_unsupported e = false
  | Panic => True
  end.
Proof.
  unfold try_device, op_bind, op_stream, round_trip.
  destruct (index (op_streams o) _) as [s|e|] eqn:Hs.
  - cbn [op_backend with_next].
    destruct (gb_upload (op_backend o) s sub) as [dev|e|] eqn:Hu; cbn.
    2: { destruct (is_unsupported e) eqn:Eu; intros [= <- <-]; done. }
    2: { by intros [= <- <-]. }
    destruct (kern (op_backend o) s dev) as [out|e|] eqn:Hk; cbn.
    2: { destruct (is_unsupported e) eqn:Eu; intros [= <- <-]; done. }
    2: { by intros [= <- <-]. }
    destruct (gb_download (op_backend o) s out) as [host|e|] eqn:Hd; cbn.
    2: { destruct (is_unsupported e) eqn:Eu; intros [= <- <-]; done. }
    2: { by intros [= <- <-]. }
    destruct (gb_synchronize (op_backend o) s) as [u|e|] eqn:Hy; cbn.
    + intros [= <- <-]. split; [done|]. eauto 10.
    + destruct (is_unsupported e) eqn:Eu; intros [= <- <-]; done.
    + by intros [= <- <-].
  - unfold index in Hs. by destruct (_ !! _).
  - by intros [= <- <-].
Qed.

(** The shared tail, on each outcome. *)
Lemma finish_outcome o o1 n elapsed outcome reference :
  same_operator o o1 →
  match outcome with
  | Ran out _ => ∃ ref, reference = Ok ref ∧ same_rows out ref
  | Declined _ => True
  end →
  op_outcome o n elapsed reference (finish n elapsed outcome reference o1).
Proof.
  intros Hs Hout. destruct outcome as [out moved|why]; unfold finish, op_bind; cbn.
  - destruct Hout as (ref & Href & Hsame). by eapply OutDevice.
  - pose proof (OutFallback o n elapsed reference o1 Hs) as Hf. by destruct reference.
Qed.

(** A pure step either fails hard or goes on in the same state. *)
Lemma op_lift_outcome {A} (r : result A) (f : A → OpM DeviceOutcome) o o1 n elapsed reference :
  same_operator o o1 → hard r →
  (∀ a, r = Ok a →
     op_outcome o n elapsed reference
       (op_bind (f a) (λ outcome, finish n elapsed outcome reference) o1)) →
  op_outcome o n elapsed reference
    (op_bind (op_bind (op_lift r) f) (λ outcome, finish n elapsed outcome reference) o1).
Proof.
  intros Hs Hh Hk. destruct r as [a|e|]; [by apply Hk|..]; cbn; apply OutFailed; try done.
  intros ? [= <-]. by apply Hh.
Qed.

(** A device attempt either declines, fails hard, or goes on with what the
    device returned. *)
Lemma try_device_step kern sub (K : DeviceOutcome → OpM RecordBatch) o o1 n elapsed reference :
  same_operator o o1 →
  (∀ why, op_outcome o n elapsed reference (K (Declined why) (ticked o1))) →
  (∀ host moved, (∃ s dev out, gb_upload (op_backend o) s sub = Ok dev ∧
      kern (op_backend o) s dev = Ok out ∧ gb_download (op_backend o) s out = Ok host) →
     op_outcome o n elapsed reference (K (Ran host moved) (ticked o1))) →
  op_outcome o n elapsed reference
    (op_bind (try_device (λ s o, round_trip s sub (kern (op_backend o)) o)) K o1).
Proof.
  intros Hs Hdec Hran.
  destruct (try_device (λ s o, round_trip s sub (kern (op_backend o)) o) o1) as [o' r] eqn:Ht.
  unfold op_bind. rewrite Ht. apply try_round_trip in Ht as [-> Hr].
  rewrite (so_backend _ _ Hs) in Hr.
  assert (same_operator o (ticked o1)) as Hs' by (etransitivity; [done|apply ticked_same]).
  destruct r as [[host moved|why]|e|].
  - by apply Hran.
  - apply Hdec.
  - apply OutFailed; [done|done|]. by intros ? [= <-].
  - by apply OutFailed.
Qed.

Lemma op_bind_assoc {A B C} (m : OpM A) (f : A → OpM B) (k : B → OpM C) o :
  op_bind (op_bind m f) k o = op_bind m (λ a, op_bind (f a) k) o.
Proof. unfold op_bind. by destruct (m o) as [o1 [a|e|]]. Qed.

Lemma try_device_outcome kern sub (k : RecordBatch → Z * Z → OpM DeviceOutcome)
    o o1 n elapsed reference :
  same_operator o o1 →
  (∀ host moved, (∃ s dev out, gb_upload (op_backend o) s sub = Ok dev ∧
      kern (op_backend o) s dev = Ok out ∧ gb_download (op_backend o) s out = Ok host) →
     op_outcome o n elapsed reference
       (op_bind (k host moved) (λ outcome, finish n elapsed outcome reference) (ticked o1))) →
  op_outcome o n elapsed reference
    (op_bind (op_bind (try_device (λ s o, round_trip s sub (kern (op_backend o)) o))
                (λ outcome, match outcome with
                            | Declined why => op_ret (Declined why)
                            | Ran host moved => k host moved
                            end))
       (λ outcome, finish n elapsed outcome reference) o1).
Proof.
  intros Hs Hk. rewrite op_bind_assoc. apply try_device_step; [done| |done].
  intros why. apply (finish_outcome o (ticked o1) n elapsed (Declined why) reference); [|done].
  etransitivity; [done|apply ticked_same].
Qed.

Lemma op_filter_outcome `{!BackendContract g} b p projection elapsed o :
  op_backend o = g → batch_ok b → Z.of_nat (num_rows b) ≤ i64_max →
  op_outcome o (num_rows b) elapsed (filter_project b p projection)
    (op_filter_project b p projection elapsed o).
Proof.
  intros Hg Hb Hn. unfold op_filter_project. set (reference := filter_project b p projection).
  destruct (no_device_path _ _ o) as [why|].
  { by apply (finish_outcome o o (num_rows b) elapsed (Declined why) reference). }
  unfold filter_project_on_device.
  apply op_lift_outcome; [done|auto with hard|]. intros eligible Hel. cbv zeta.
  apply op_lift_outcome; [done|auto with hard|]. intros sub Hsub.
  apply op_lift_outcome; [done|auto with hard|]. intros p' Hp'.
  apply op_lift_outcome; [done|auto with hard|]. intros dp Hdp.
  apply (try_device_outcome (λ g s dev, gb_filter_project g s (mkFilterArgs dev p' dp)) sub);
    [done|]. intros dev_out moved (s & dev & out & Hu & Hk & Hd). rewrite Hg in Hu, Hk, Hd.
  apply upload_holds in Hu. destruct (filter_holds s (mkFilterArgs dev p' dp) sub out Hu Hk) as (ref' & Hf & Hh).
  pose proof (download_holds _ _ _ _ Hh Hd) as ->. cbn in Hf.
  assert (same_operator o (ticked o)) as Hs by apply ticked_same.
  apply op_lift_outcome; [done| |].
  { destruct (row_ids _); [|done]. intros e. by destruct (index _ _) eqn:Ei; intros [=];
      unfold index in Ei; destruct (_ !! _). }
  intros ids Hids. apply op_lift_outcome; [done|auto with hard|]. intros cells Hcells.
  apply op_lift_outcome; [done|auto with hard|]. intros res Hres. cbn.
  apply (finish_outcome o (ticked o) _ _ (Ran res moved) reference); [done|].
  by eapply filter_device_spec.
Qed.

(** ** Aggregate on the device *)

Lemma column_agrees plan b sub c pos :
  agrees plan b sub → plan_position plan c = Some pos → column sub pos = column b c.
Proof. intros [_ Hag] Hp. unfold column. by rewrite (proj1 (Hag _ _ Hp)). Qed.

Lemma field_agrees {E} plan b sub c pos :
  agrees plan b sub → plan_position plan c = Some pos →
  index (E := E) (fields (schema sub)) pos = index (fields (schema b)) c.
Proof. intros [_ Hag] Hp. unfold index. by rewrite (proj2 (Hag _ _ Hp)). Qed.

Lemma agg_columns_agree plan b sub inputs accs order l a :
  agrees plan b sub → (∀ func i, (func, i) ∈ l → is_Some (plan_position plan i)) →
  agg_columns sub inputs accs order a
    ((λ '(func, i), (func, default 0%nat (plan_position plan i))) <$> l)
  = agg_columns b inputs accs order a l.
Proof.
  intros Hag. revert a. induction l as [|[func i] l IH]; intros a Hl; [done|]. cbn.
  destruct (Hl func i) as [pos Hpos]; [set_solver|]. rewrite Hpos. cbn.
  rewrite (field_agrees plan b sub i pos) by done.
  rewrite IH by set_solver. done.
Qed.

Lemma aggregate_remap plan b sub spec :
  agrees plan b sub → is_Some (plan_position plan (group_by spec)) →
  (∀ func i, (func, i) ∈ aggregates spec → is_Some (plan_position plan i)) →
  aggregate sub (remap_spec spec plan) = aggregate b spec.
Proof.
  intros Hag [pos Hpos] Hl. unfold aggregate, int64_column. cbn [group_by aggregates remap_spec].
  rewrite Hpos. cbn [default from_option id].
  rewrite (column_agrees plan b sub _ pos Hag Hpos), (field_agrees plan b sub _ pos Hag Hpos).
  rewrite (mapM_fmap_ext _ (λ '(_, idx), agg_input b idx)).
  2: { intros [func i] Hi. destruct (Hl _ _ Hi) as [q Hq]. rewrite Hq. cbn.
       unfold agg_input. by rewrite (column_agrees plan b sub i q). }
  rewrite (proj1 Hag). apply bind_ext. intros keys _. apply bind_ext. intros inputs _.
  apply bind_ext. intros st _. apply bind_ext. intros kf _.
  by rewrite (agg_columns_agree plan b sub).
Qed.

Lemma op_aggregate_outcome `{!BackendContract g} b spec elapsed o :
  op_backend o = g → batch_ok b → Z.of_nat (num_rows b) ≤ i64_max →
  op_outcome o (num_rows b) elapsed (aggregate b spec) (op_aggregate b spec elapsed o).
Proof.
  intros Hg Hb Hn. unfold op_aggregate. set (reference := aggregate b spec).
  destruct (no_device_path _ _ o) as [why|].
  { by apply (finish_outcome o o (num_rows b) elapsed (Declined why) reference). }
  unfold aggregate_on_device. set (plan := aggregate_plan spec).
  apply op_lift_outcome; [done|auto with hard|]. intros sub Hsub.
  destruct (sub_batch_agrees _ _ _ Hb Hn Hsub) as (_ & Hag & _ & _).
  assert (same_operator o (ticked o)) as Hs by apply ticked_same.
  apply (try_device_step (λ g s dev, gb_aggregate g s (mkAggArgs dev (remap_spec spec plan))) sub);
    [done| |].
  { intros why. by apply (finish_outcome o (ticked o) _ _ (Declined why) reference). }
  intros host moved (s & dev & out & Hu & Hk & Hd). rewrite Hg in Hu, Hk, Hd.
  apply upload_holds in Hu.
  destruct (aggregate_holds s (mkAggArgs dev (remap_spec spec plan)) sub out Hu Hk)
    as (ref' & Hf & Hh).
  pose proof (download_holds _ _ _ _ Hh Hd) as ->. cbn in Hf.
  apply (finish_outcome o (ticked o) _ _ (Ran ref' moved) reference); [done|].
  exists ref'. split; [|apply same_rows_refl]. unfold reference. rewrite <- Hf. symmetry.
  apply aggregate_remap; [done| |].
  - apply position_in_is_Some, elem_of_push_uniques. left. set_solver.
  - intros func i Hi. apply position_in_is_Some, elem_of_push_uniques. right.
    apply list_elem_of_fmap. by exists (func, i).
Qed.

(** ** Vector distance on the device *)

Lemma op_vector_outcome `{!BackendContract g} b ci query metric name elapsed o :
  op_backend o = g → batch_ok b → Z.of_nat (num_rows b) ≤ i64_max →
  op_outcome o (num_rows b) elapsed (vector_distance b ci query metric name)
    (op_vector_distance b ci query metric name elapsed o).
Proof.
  intros Hg Hb Hn. unfold op_vector_distance.
  set (reference := vector_distance b ci query metric name).
  destruct (no_device_path _ _ o) as [why|].
  { by apply (finish_outcome o o (num_rows b) elapsed (Declined why) reference). }
  unfold vector_distance_on_device. set (plan := mkPlan [ci] false).
  apply op_lift_outcome; [done|auto with hard|]. intros sub Hsub.
  destruct (sub_batch_agrees _ _ _ Hb Hn Hsub) as (Hsubok & Hag & _ & _).
  apply (try_device_outcome
    (λ g s dev, gb_vector_distance g s (mkVecArgs dev 0 query metric name)) sub); [done|].
  intros dev_out moved (s & dev & out & Hu & Hk & Hd). rewrite Hg in Hu, Hk, Hd.
  apply upload_holds in Hu.
  destruct (vector_holds s (mkVecArgs dev 0 query metric name) sub out Hu Hk) as (ref' & Hf & Hh).
  pose proof (download_holds _ _ _ _ Hh Hd) as ->. cbn in Hf.
  assert (same_operator o (ticked o)) as Hs by apply ticked_same.
  apply op_lift_outcome; [done|auto with hard|]. intros dcol Hdcol.
  apply op_lift_outcome; [done|auto with hard|]. intros res Hres. cbn.
  apply (finish_outcome o (ticked o) _ _ (Ran res moved) reference); [done|].
  destruct (vector_distance_Ok_inv _ _ _ _ _ _ Hsubok Hf) as (col & item & Hc & Ht & Hitem & -> & _).
  assert (columns b !! ci = Some col) as Hcb.
  { rewrite <- Hc. symmetry. apply (proj2 Hag). unfold plan_position. cbn.
    by rewrite bool_decide_true. }
  pose proof (vector_distance_cases b ci col query metric name Hb Hcb) as Hcases.
  rewrite Ht, (decide_True (P := field_type_of item = _)), decide_True in Hcases by done.
  destruct Hcases as [Href Hrok]. eexists. split; [exact Href|].
  apply index_Ok_inv in Hdcol. unfold num_columns in Hdcol. cbn [columns] in Hdcol.
  rewrite length_app in Hdcol. cbn [length] in Hdcol.
  rewrite Nat.add_sub, list_lookup_middle in Hdcol by done. injection Hdcol as <-.
  unfold batch_ok in Hrok. cbn [columns schema num_rows] in Hrok.
  destruct (columns b) as [|c0 cs] eqn:Hcs; [done|].
  assert (array_len c0 = num_rows b) as Hc0 by (apply (batch_ok_column_len b 0); [done|by rewrite Hcs]).
  cbn [app] in Hres, Hrok.
  rewrite try_new_law in Hres by (unfold batch_ok; rewrite Hc0; exact Hrok).
  injection Hres as <-. split; [done|done|exact Hc0].
Qed.
(** ** Hash join on the device *)

(** The rows of the device's output, side by side. *)
Definition joined (lsub rsub : RecordBatch) (pairs : list (Z * Z)) : list Array :=
  ((λ c, array_take c pairs.*1) <$> columns lsub) ++ ((λ c, array_take c pairs.*2) <$> columns rsub).

(** Row ids come back as the matched rows of their side. *)
Lemma joined_ids lsub rsub plan b pairs (side : bool) ids idx :
  (if side then columns rsub else columns lsub) !! length (device_cols plan)
    = (if row_ids plan then Some (row_id_column (num_rows b)) else None) →
  idx = (if side then pairs.*2 else pairs.*1) → in_bounds (num_rows b) idx →
  match row_id_position plan with
  | Some pos => Some <$> index (joined lsub rsub pairs)
                           ((if side then num_columns lsub else 0%nat) + pos)
  | None => Ok None
  end = Ok (E := EngineError) ids →
  ids = None ∨ ids = Some (Int64Array_of (Some <$> idx)).
Proof.
  intros Hid Hidx Hb. unfold row_id_position. destruct (row_ids plan); [|by intros [= <-]; left].
  intros Hi. apply fmap_Ok_inv in Hi as (a & Ha & <-). right. apply index_Ok_inv in Ha.
  unfold joined in Ha. rewrite <- (row_ids_take (num_rows b) idx Hb). f_equal. subst idx.
  destruct side.
  - rewrite lookup_app_r in Ha by (rewrite length_fmap; unfold num_columns; lia).
    rewrite length_fmap in Ha. unfold num_columns in Ha.
    replace (length (columns lsub) + length (device_cols plan) - length (columns lsub))%nat
      with (length (device_cols plan)) in Ha by lia.
    rewrite list_lookup_fmap, Hid in Ha. by injection Ha as <-.
  - rewrite Nat.add_0_l in Ha. apply lookup_lt_Some in Hid as Hlt.
    rewrite lookup_app_l in Ha by (rewrite length_fmap; lia).
    rewrite list_lookup_fmap, Hid in Ha. by injection Ha as <-.
Qed.

(** One output column, on the left or on the right. *)
Lemma joined_output b lsub rsub plan pairs (side : bool) ids idx local f a :
  batch_ok b → agrees plan b (if side then rsub else lsub) →
  idx = (if side then pairs.*2 else pairs.*1) → in_bounds (num_rows b) idx →
  (ids = None ∨ ids = Some (Int64Array_of (Some <$> idx))) →
  (f ← schema_field (schema b) local;
   match plan_position plan local with
   | Some pos => c ← index (joined lsub rsub pairs)
                        ((if side then num_columns lsub else 0%nat) + pos); Ok (f, c)
   | None =>
       ids ← ok_or ids (Execution "row ids missing for host gather");
       c ← index (columns b) local;
       c ← take_rows c ids;
       Ok (f, c)
   end) = Ok (f, a) →
  fields (schema b) !! local = Some f ∧
  ∃ c, columns b !! local = Some c ∧ a = array_take c idx.
Proof.
  intros Hb Hag Hidx Hin Hids Hout. apply bind_Ok_inv in Hout as (f' & Hf & Hout).
  unfold schema_field in Hf. apply ok_or_Ok_inv in Hf.
  destruct (plan_position plan local) as [pos|] eqn:Hp.
  - apply bind_Ok_inv in Hout as (c & Hc & [= <- <-]). split; [done|].
    apply index_Ok_inv in Hc. destruct (batch_ok_lookup _ _ _ Hb Hf) as (cb & Hcb & _).
    exists cb. split; [done|]. pose proof (proj1 (proj2 Hag _ _ Hp)) as Hsub. subst idx.
    unfold joined in Hc. rewrite Hcb in Hsub. destruct side.
    + rewrite lookup_app_r in Hc by (rewrite length_fmap; unfold num_columns; lia).
      rewrite length_fmap in Hc. unfold num_columns in Hc.
      replace (length (columns lsub) + pos - length (columns lsub))%nat with pos in Hc by lia.
      rewrite list_lookup_fmap, Hsub in Hc. by injection Hc as <-.
    + rewrite Nat.add_0_l in Hc. apply lookup_lt_Some in Hsub as Hlt.
      rewrite lookup_app_l in Hc by (rewrite length_fmap; lia).
      rewrite list_lookup_fmap, Hsub in Hc. by injection Hc as <-.
  - apply bind_Ok_inv in Hout as (ids' & Hi & Hout). apply ok_or_Ok_inv in Hi.
    apply bind_Ok_inv in Hout as (c & Hc & Hout). apply index_Ok_inv in Hc.
    apply bind_Ok_inv in Hout as (c' & Ht & [= <- <-]). split; [done|]. exists c. split; [done|].
    destruct Hids as [->| ->]; [done|]. injection Hi as <-. unfold take_rows in Ht.
    rewrite take_at_law in Ht; [by injection Ht as <-|].
    by rewrite (batch_ok_column_len _ _ _ Hb Hc).
Qed.
(** A prepared build side: its table lists the rows of every key. *)
Record join_build_ok (build : JoinBuild) (rk : list (option Z)) : Prop := {
  jbo_batch : batch_ok (jb_batch build);
  jbo_keys : int64_column (jb_batch build) (jb_key build) = Ok rk;
  jbo_rows : Z.of_nat (num_rows (jb_batch build)) ≤ u32_max;
  jbo_table k : JoinTable_matches (jb_table build) k = Ok (positions k rk);
}.

Lemma JoinBuild_new_ok b key rk :
  batch_ok b → int64_column b key = Ok rk → Z.of_nat (num_rows b) ≤ u32_max →
  ∃ build, JoinBuild_new b key = Ok build ∧ jb_batch build = b ∧ jb_key build = key ∧
    join_build_ok build rk.
Proof.
  intros Hb Hk Hn. pose proof (int64_column_length _ _ _ Hb Hk) as Hlen.
  destruct (JoinTable_build_spec b key rk Hk) as (t & Ht & Hm & _); [by rewrite Hlen|].
  unfold JoinBuild_new. rewrite Ht. cbn. eexists. split; [done|]. by split_and!; split.
Qed.

Lemma int64_column_agrees plan b sub c pos :
  agrees plan b sub → plan_position plan c = Some pos → int64_column sub pos = int64_column b c.
Proof. intros Hag Hp. unfold int64_column. by rewrite (column_agrees plan b sub c pos). Qed.

(** The device's join of two sub-batches, and the keys it read. *)
Lemma device_join_columns left lkey build rk lplan rplan lsub rsub lpos rpos dev_out :
  join_build_ok build rk → batch_ok left → Z.of_nat (num_rows left) ≤ U32 →
  sub_batch lplan left = Ok lsub → sub_batch rplan (jb_batch build) = Ok rsub →
  plan_position lplan lkey = Some lpos → plan_position rplan (jb_key build) = Some rpos →
  hash_join lsub rsub lpos rpos = Ok dev_out →
  ∃ lk, int64_column left lkey = Ok lk ∧
    columns dev_out = joined lsub rsub (join_pairs lk rk) ∧
    in_bounds (num_rows left) (join_pairs lk rk).*1 ∧
    in_bounds (num_rows (jb_batch build)) (join_pairs lk rk).*2.
Proof.
  intros [Hrb Hrk Hrn Ht] Hl Hln Hls Hrs Hlp Hrp Hj.
  destruct (sub_batch_agrees _ _ _ Hl ltac:(unfold U32, i64_max in *; lia) Hls)
    as (Hlok & Hlag & _ & _).
  destruct (sub_batch_agrees _ _ _ Hrb ltac:(unfold u32_max, U32, i64_max in *; lia) Hrs)
    as (Hrok & Hrag & _ & _).
  pose proof (int64_column_agrees _ _ _ _ _ Hrag Hrp) as Hrk'. rewrite Hrk in Hrk'.
  pose proof (int64_column_agrees _ _ _ _ _ Hlag Hlp) as Hlk'.
  destruct (int64_column left lkey) as [lk|e|] eqn:Hlk.
  2-3: exfalso; unfold hash_join in Hj; apply bind_Ok_inv in Hj as (t & _ & Hj);
       unfold hash_join_probe in Hj; by rewrite Hlk' in Hj.
  exists lk. split; [done|].
  rewrite (hash_join_spec lsub rsub lpos rpos lk rk) in Hj;
    [|done..|by rewrite (proj1 Hlag)|by rewrite (proj1 Hrag)].
  injection Hj as <-. split; [done|].
  rewrite <- (int64_column_length _ _ _ Hl Hlk), <- (int64_column_length _ _ _ Hrb Hrk).
  apply join_pairs_in_bounds.
Qed.

(** The assembled join is the reference's probe. *)
(** Cells that are the joined columns, field by field, assemble to the batch
    the reference gives. *)
Lemma joined_assembled left lkey lk build rk projection cells out :
  let selected := selected_columns left (jb_batch build) projection in
  let pairs := join_pairs lk rk in
  join_build_ok build rk → batch_ok left → int64_column left lkey = Ok lk → Z.of_nat (num_rows left) ≤ U32 →
  Forall2 (λ i fa, join_fields left (jb_batch build) !! i = Some fa.1 ∧
    join_column left (jb_batch build) pairs i = Some fa.2) selected cells →
  map_err ArrowE (batch_try_new (Schema_new (fst <$> cells)) (snd <$> cells)) = Ok out →
  ∃ ref, hash_join_probe left lkey (jb_batch build) (jb_table build) projection = Ok ref ∧ same_rows out ref.
Proof.
  intros selected pairs [Hrb Hrk Hrn Ht] Hl Hlk Hln Hsel Hout.
  assert (mapM (λ i, join_fields left (jb_batch build) !! i) selected = Some cells.*1 ∧
    mapM (join_column left (jb_batch build) pairs) selected = Some cells.*2) as [Hfs Hcs].
  { clear -Hsel. induction Hsel as [|i [f a] sel cells [Hf Ha] _ [IH1 IH2]]; [done|].
    cbn in *. by rewrite Hf, Ha, IH1, IH2. }
  pose proof (hash_join_probe_spec left (jb_batch build) lkey lk rk (jb_table build) projection Hl Hrb
    Hlk (int64_column_length _ _ _ Hrb Hrk) Hln Ht) as Hprobe. cbv zeta in Hprobe.
  fold selected pairs in Hprobe.
  rewrite decide_True in Hprobe.
  2: { apply Forall_forall. intros i [j Hij]%list_elem_of_lookup_1.
       destruct (Forall2_lookup_l _ _ _ _ _ Hsel Hij) as (fa & _ & Hf & _).
       by eapply lookup_lt_Some. }
  case_decide as Hnil.
  { rewrite Hnil in Hsel. inversion Hsel; subst.
    destruct (try_new_empty_law (Schema_new [])) as [e He]. cbn in Hout. by rewrite He in Hout. }
  destruct Hprobe as (fs & cs & Hfs' & Hcs' & Href & Hok). rewrite Hfs in Hfs'. rewrite Hcs in Hcs'.
  injection Hfs' as <-. injection Hcs' as <-. eexists. split; [exact Href|].
  destruct cells as [|[f a] cells]; [by inversion Hsel; subst|].
  assert (array_len a = length pairs) as Ha.
  { unfold batch_ok in Hok. cbn in Hok. inversion Hok as [|? ? ? ? [_ ?]]; subst. done. }
  change ((λ p : Field * Array, p.2) <$> (f, a) :: cells) with (a :: cells.*2) in Hout.
  rewrite !fmap_cons, try_new_law in Hout by (unfold batch_ok; cbn [snd]; rewrite Ha; exact Hok).
  injection Hout as <-. split; [done|done|exact Ha].
Qed.

Lemma join_device_spec left lkey build rk lplan rplan lsub rsub lpos rpos dev_out lids rids
    cells out projection :
  let selected := selected_columns left (jb_batch build) projection in
  join_build_ok build rk → batch_ok left → Z.of_nat (num_rows left) ≤ U32 →
  sub_batch lplan left = Ok lsub → sub_batch rplan (jb_batch build) = Ok rsub →
  plan_position lplan lkey = Some lpos → plan_position rplan (jb_key build) = Some rpos →
  hash_join lsub rsub lpos rpos = Ok dev_out →
  match row_id_position lplan with
  | Some pos => Some <$> index (columns dev_out) pos
  | None => Ok None end = Ok (E := EngineError) lids →
  match row_id_position rplan with
  | Some pos => Some <$> index (columns dev_out)
      ((length (device_cols lplan) + if row_ids lplan then 1 else 0) + pos)
  | None => Ok None end = Ok (E := EngineError) rids →
  mapM (join_output left (jb_batch build) dev_out lplan rplan lids rids) selected = Ok cells →
  map_err ArrowE (batch_try_new (Schema_new (fst <$> cells)) (snd <$> cells)) = Ok out →
  ∃ ref, hash_join_probe left lkey (jb_batch build) (jb_table build) projection = Ok ref ∧
    same_rows out ref.
Proof.
  intros selected Hbuild Hl Hln Hls Hrs Hlp Hrp Hj Hlids Hrids Hcells Hout.
  destruct (device_join_columns left lkey build rk lplan rplan lsub rsub lpos rpos dev_out)
    as (lk & Hlk & Hcols & Hb1 & Hb2); [done..|].
  pose proof Hbuild as [Hrb Hrk Hrn Ht].
  destruct (sub_batch_agrees _ _ _ Hl ltac:(unfold U32, i64_max in *; lia) Hls)
    as (Hlok & Hlag & Hlid & Hlw).
  destruct (sub_batch_agrees _ _ _ Hrb ltac:(unfold u32_max, U32, i64_max in *; lia) Hrs)
    as (Hrok & Hrag & Hrid & _).
  set (pairs := join_pairs lk rk) in *. rewrite Hcols in Hlids, Hrids. rewrite <- Hlw in Hrids.
  pose proof (joined_ids lsub rsub lplan left pairs false lids _ Hlid eq_refl Hb1 Hlids) as Hl'.
  pose proof (joined_ids lsub rsub rplan (jb_batch build) pairs true rids _ Hrid eq_refl Hb2 Hrids)
    as Hr'.
  pose proof (batch_ok_num_columns _ Hl) as Hwl.
  assert (Forall2 (λ i fa, join_fields left (jb_batch build) !! i = Some fa.1 ∧
    join_column left (jb_batch build) pairs i = Some fa.2) selected cells) as Hsel.
  { apply mapM_res_Ok in Hcells. eapply Forall2_impl; [exact Hcells|].
    intros i [f a] Hi. unfold join_output in Hi. rewrite Hcols in Hi. cbn [fst snd].
    unfold join_fields, join_column. rewrite Hwl in Hi.
    destruct (Nat.ltb_spec i (num_columns left)) as [Hlt|Hge].
    - destruct (joined_output left lsub rsub lplan pairs false lids _ i f a Hl Hlag eq_refl Hb1 Hl' Hi)
        as (Hf & c & Hc & ->).
      rewrite lookup_app_l by lia. by rewrite Hc.
    - rewrite <- Hlw in Hi.
      destruct (joined_output (jb_batch build) lsub rsub rplan pairs true rids _ _ f a Hrb Hrag
        eq_refl Hb2 Hr' Hi) as (Hf & c & Hc & ->).
      rewrite lookup_app_r by lia. by rewrite Hwl, Hf, Hc. }
  by apply (joined_assembled left lkey lk build rk projection cells out).
Qed.
(** *** The build cache *)

(** The plan of the build side: the same for every probe batch of a join. *)
Definition right_plan_of (width : nat) (build : JoinBuild) (projection : option (list nat)) :
    result SidePlan :=
  let rs := schema (jb_batch build) in
  let selected := match projection with
                  | Some p => p
                  | None => seq 0 (width + length (fields rs))
                  end in
  side_plan rs (jb_key build) ((λ i, (i - width)%nat) <$> filter (λ i, (width ≤ i)%nat) selected).

Section Cache.
Context `{!BackendContract g} (build : JoinBuild) (width : nat) (projection : option (list nat)).

(** The cached build, if any, is this join's build side cut by its plan. *)
Definition build_cached (o : GpuOperator) : Prop :=
  op_backend o = g ∧
  match op_device_build o with
  | None => True
  | Some c => right_plan_of width build projection = Ok (dvb_plan c) ∧
      ∃ sub, sub_batch (dvb_plan c) (jb_batch build) = Ok sub ∧ holds (dvb_batch c) sub
  end.

Lemma device_build_spec s plan o o' r :
  build_cached o → right_plan_of width build projection = Ok plan →
  device_build s build plan o = (o', r) →
  same_operator o o' ∧ build_cached o' ∧ (∀ c, op_device_build o = Some c → o' = o ∧ r = Ok c) ∧
  match r with
  | Ok db => op_device_build o' = Some db ∧
      ∃ sub, sub_batch plan (jb_batch build) = Ok sub ∧ holds (dvb_batch db) sub
  | _ => True
  end.
Proof.
  intros [Hg Hc] Hplan. unfold device_build.
  destruct (op_device_build o) as [c|] eqn:Hcache.
  - destruct Hc as (Hp & sub & Hsub & Hh). rewrite Hplan in Hp. injection Hp as ->.
    rewrite bool_decide_true by done. intros [= <- <-]. split; [done|]. split; [|split].
    + split; [done|]. rewrite Hcache. split; [done|]. by exists sub.
    + by intros ? [= <-].
    + split; [done|]. by exists sub.
  - unfold op_bind, op_lift. rewrite Hg.
    destruct (sub_batch plan (jb_batch build)) as [sub|e|] eqn:Hsub; cbn.
    2-3: intros [= <- <-]; split; [done|]; split; [|done]; split; [done|]; by rewrite Hcache.
    destruct (gb_upload g s sub) as [d|e|] eqn:Hu; cbn.
    2-3: intros [= <- <-]; split; [done|]; split; [|done]; split; [done|]; by rewrite Hcache.
    destruct (gb_synchronize g s) as [u|e|]; cbn.
    2-3: intros [= <- <-]; split; [done|]; split; [|done]; split; [done|]; by rewrite Hcache.
    rewrite Hcache. apply upload_holds in Hu. intros [= <- <-]. split; [done|].
    split; [|split; [done|]; split; [done|]; by exists sub]. split; [done|]. cbn. split; [done|]. by exists sub.
Qed.

Lemma join_attempt plan lsub lpos rpos o o' r :
  build_cached o → right_plan_of width build projection = Ok plan →
  try_device (λ s, op_bind (device_build s build plan) (λ db o,
    round_trip s lsub (λ s dev,
      gb_hash_join (op_backend o) s (mkJoinArgs dev (dvb_batch db) lpos rpos)) o)) o = (o', r) →
  same_operator o o' ∧
  match r with
  | Ok (Ran host _) => is_Some (op_device_build o') ∧
      ∃ s dev out db rsub, sub_batch plan (jb_batch build) = Ok rsub ∧ holds db rsub ∧
        gb_upload g s lsub = Ok dev ∧ gb_hash_join g s (mkJoinArgs dev db lpos rpos) = Ok out ∧
        gb_download g s out = Ok host
  | Ok (Declined e) => is_unsupported e = true
  | Err e => is_unsupported e = false
  | Panic => True
  end.
Proof.
  intros Hc Hplan. unfold try_device. set (gpu := λ s : DeviceStream, _).
  destruct (op_bind op_stream gpu o) as [o1 r1] eqn:Hb.
  assert (same_operator o o1 ∧ match r1 with
    | Ok (host, _) => is_Some (op_device_build o1) ∧
        ∃ s dev out db rsub, sub_batch plan (jb_batch build) = Ok rsub ∧ holds db rsub ∧ gb_upload g s lsub = Ok dev ∧
        gb_hash_join g s (mkJoinArgs dev db lpos rpos) = Ok out ∧ gb_download g s out = Ok host
    | _ => True end) as [Hs Hr1].
  { apply op_bind_inv in Hb as [(o2 & s & Hs & Hb)|[(e & Hs & ->)|[Hs ->]]];
      injection Hs as <- Hs; [|done..].
    unfold gpu in Hb. apply op_bind_inv in Hb.
    assert (build_cached (ticked o)) as Hct by exact Hc.
    destruct Hb as [(o3 & db & Hdb & Hb)|[(e & Hdb & ->)|[Hdb ->]]].
    - destruct (device_build_spec _ _ _ _ _ Hct Hplan Hdb) as (Hs3 & Hc3 & _ & Hfill & rsub & Hrsub & Hh).
      unfold round_trip in Hb. injection Hb as <- Hb.
      split; [etransitivity; [apply ticked_same|exact Hs3]|].
      destruct Hc3 as [Hg3 _]. rewrite Hg3 in Hb. destruct r1 as [[host n]|e|]; [|done..].
      apply bind_Ok_inv in Hb as (dev & Hu & Hb). apply bind_Ok_inv in Hb as (out & Hk & Hb).
      apply bind_Ok_inv in Hb as (h & Hd & Hb). apply bind_Ok_inv in Hb as (u & _ & [= <- _]).
      split; [by eexists|]. by exists s, dev, out, (dvb_batch db), rsub.
    - destruct (device_build_spec _ _ _ _ _ Hct Hplan Hdb) as (Hs3 & _). split; [etransitivity; [apply ticked_same|exact Hs3]|done].
    - destruct (device_build_spec _ _ _ _ _ Hct Hplan Hdb) as (Hs3 & _). split; [etransitivity; [apply ticked_same|exact Hs3]|done]. }
  destruct r1 as [[host n]|e|].
  - by intros [= <- <-].
  - destruct (is_unsupported e) eqn:Eu; by intros [= <- <-].
  - by intros [= <- <-].
Qed.
End Cache.
Lemma side_plan_key sch key l plan : side_plan sch key l = Ok plan → is_Some (plan_position plan key).
Proof.
  intros Hp. apply bind_Ok_inv in Hp as (flags & _ & [= <-]).
  apply position_in_is_Some. cbn.
  assert (∀ cols, key ∈ cols → key ∈ foldl (λ cols '(i, ok), if (ok : bool) then push_unique cols i
    else cols) cols flags) as Hk; [|apply Hk; set_solver].
  induction flags as [|[i ok] flags IH]; intros cols Hin; [done|]. cbn. apply IH.
  destruct ok; [|done]. apply elem_of_push_unique. by left.
Qed.

Lemma hard_side_plan sch key l : hard (side_plan sch key l).
Proof.
  apply hard_bind; [|auto with hard]. apply hard_mapM. intros i. apply hard_bind; auto with hard.
Qed.

Lemma hard_fmap_index {A} (l : list A) i : hard (Some <$> index l i).
Proof. unfold index. by destruct (l !! i). Qed.

Lemma hard_join_output left b dev_out lplan rplan lids rids i :
  hard (join_output left b dev_out lplan rplan lids rids i).
Proof.
  unfold join_output. destruct (if (_ <? _)%nat then _ else _) as [[[[? ?] ?] ?] ?].
  apply hard_bind; [auto with hard|]. intros f. destruct (plan_position _ _).
  - apply hard_bind; auto with hard.
  - apply hard_bind; [by apply hard_ok_or|]. intros ids. apply hard_bind; [auto with hard|].
    intros c. apply hard_bind; [apply hard_arrow|]. auto with hard.
Qed.
#[local] Hint Resolve hard_side_plan hard_fmap_index hard_join_output : hard.

Lemma op_hash_join_outcome `{!BackendContract g} left build rk lkey projection elapsed o :
  join_build_ok build rk → batch_ok left → Z.of_nat (num_rows left) ≤ U32 →
  build_cached build (length (fields (schema left))) projection o →
  op_outcome o (num_rows left) elapsed
    (hash_join_probe left lkey (jb_batch build) (jb_table build) projection)
    (op_hash_join left build lkey projection elapsed o).
Proof.
  intros Hbuild Hl Hln Hc. unfold op_hash_join. set (reference := hash_join_probe _ _ _ _ _).
  destruct (no_device_path _ _ o) as [why|].
  { by apply (finish_outcome o o (num_rows left) elapsed (Declined why) reference). }
  unfold hash_join_on_device. destruct (negb _).
  { by apply OutFailed; [done|done|apply hard_Err]. }
  apply op_lift_outcome; [done|auto with hard|]. intros lplan Hlp.
  apply op_lift_outcome; [done|auto with hard|]. intros rplan Hrp.
  apply op_lift_outcome; [done|auto with hard|]. intros lsub Hls.
  destruct (side_plan_key _ _ _ _ Hlp) as [lpos Hlpos].
  destruct (side_plan_key _ _ _ _ Hrp) as [rpos Hrpos].
  rewrite Hlpos, Hrpos. cbn [default from_option id]. rewrite op_bind_assoc.
  match goal with |- context [op_bind (try_device ?gpu) _ o] =>
    destruct (try_device gpu o) as [o1 r1] eqn:Ht end.
  unfold op_bind at 1. rewrite Ht.
  apply (join_attempt build (length (fields (schema left))) projection) in Ht as [Hs Hr1]; [|done..].
  destruct r1 as [[dev_out moved|why]|e|].
  2: { by apply (finish_outcome o o1 _ _ (Declined why) reference). }
  2: { apply OutFailed; [done|done|]. by apply hard_Err. }
  2: { by apply OutFailed. }
  destruct Hr1 as (_ & s & dev & out & db & rsub & Hrs & Hh & Hu & Hk & Hd).
  apply upload_holds in Hu.
  destruct (join_holds s (mkJoinArgs dev db lpos rpos) lsub rsub out Hu Hh Hk) as (ref' & Hj & Hh').
  pose proof (download_holds _ _ _ _ Hh' Hd) as ->. cbn in Hj.
  apply op_lift_outcome; [done|destruct (row_id_position lplan); auto with hard|]. intros lids Hlids.
  apply op_lift_outcome; [done|destruct (row_id_position rplan); auto with hard|]. intros rids Hrids.
  apply op_lift_outcome; [done|auto with hard|]. intros cells Hcells.
  apply op_lift_outcome; [done|auto with hard|]. intros res Hres. cbn.
  apply (finish_outcome o o1 _ _ (Ran res moved) reference); [done|].
  eapply (join_device_spec left lkey build rk lplan rplan lsub rsub); try done.
  unfold selected_columns, join_fields. rewrite length_app. exact Hcells.
Qed.

(** *** What the join keeps of the cache *)

(** A step of the operator keeps an invariant of its backend and its cache. *)
Section Keeps.
Context (I : GpuOperator → Prop).
Context (HI : ∀ o o', op_backend o = op_backend o' → op_device_build o = op_device_build o' → I o → I o').

Definition keeps {A} (m : OpM A) : Prop := ∀ o, I o → I (m o).1.

Lemma keeps_pure {A} (m : OpM A) :
  (∀ o, op_backend (m o).1 = op_backend o ∧ op_device_build (m o).1 = op_device_build o) → keeps m.
Proof. intros Hm o. destruct (Hm o) as [E1 E2]. by apply HI. Qed.

Lemma keeps_bind {A B} (m : OpM A) (f : A → OpM B) :
  keeps m → (∀ a, keeps (f a)) → keeps (op_bind m f).
Proof.
  intros Hm Hf o Ho. specialize (Hm o Ho). unfold op_bind.
  destruct (m o) as [o1 [a|e|]]; [by apply Hf|done|done].
Qed.

Lemma keeps_lift {A B} (r : result A) (f : A → OpM B) :
  (∀ a, r = Ok a → keeps (f a)) → keeps (op_bind (op_lift r) f).
Proof. intros Hf o Ho. destruct r as [a|e|]; cbn; [by apply Hf|done|done]. Qed.

Lemma keeps_try_device gpu : (∀ s, keeps (gpu s)) → keeps (try_device gpu).
Proof.
  intros Hgpu. assert (keeps (op_bind op_stream gpu)) as Hb.
  { apply keeps_bind; [|done]. by apply keeps_pure. }
  intros o Ho. specialize (Hb o Ho). unfold try_device.
  destruct (op_bind op_stream gpu o) as [o1 [[b h]|e|]]; [done| |done].
  by destruct (is_unsupported e).
Qed.

Lemma keeps_finish n elapsed outcome reference : keeps (finish n elapsed outcome reference).
Proof. apply keeps_bind; [|intros [out m]; by apply keeps_pure]. destruct outcome; by apply keeps_pure. Qed.

(** The join touches the cache through [device_build] alone. *)
Lemma op_hash_join_keeps_inv left build lkey projection elapsed :
  (∀ s plan, right_plan_of (length (fields (schema left))) build projection = Ok plan → keeps (device_build s build plan)) →
  keeps (op_hash_join left build lkey projection elapsed).
Proof.
  intros Hdb o Ho. unfold op_hash_join. apply keeps_bind; [|intros; apply keeps_finish|done].
  destruct (no_device_path _ _ o); [by apply keeps_pure|].
  unfold hash_join_on_device. destruct (negb _); [by apply keeps_pure|].
  apply keeps_lift. intros lplan _. apply keeps_lift. intros rplan Hrp.
  apply keeps_lift. intros lsub _. apply keeps_bind.
  - apply keeps_try_device. intros s. apply keeps_bind; [by apply Hdb|intros db; by apply keeps_pure].
  - intros [dev_out moved|why]; [|by apply keeps_pure].
    do 4 (apply keeps_lift; intros ? _). by apply keeps_pure.
Qed.
End Keeps.

Section Resident.
Context `{!BackendContract g} (left : RecordBatch) (build : JoinBuild) (rk : list (option Z)) (lkey : nat)
  (projection : option (list nat)) (elapsed : Z).
Let width := length (fields (schema left)).

Lemma op_hash_join_keeps : keeps (build_cached build width projection) (op_hash_join left build lkey projection elapsed).
Proof.
  apply op_hash_join_keeps_inv.
  - intros o o' Hb Hc. unfold build_cached. by rewrite Hb, Hc.
  - intros s plan Hplan o Ho. destruct (device_build s build plan o) as [o' r] eqn:Hdb. by eapply device_build_spec.
Qed.

(** What is cached stays cached. *)
Lemma op_hash_join_keeps_build o c :
  build_cached build width projection o → op_device_build o = Some c →
  op_device_build (op_hash_join left build lkey projection elapsed o).1 = Some c.
Proof.
  intros Ho Hc. assert (keeps (λ o, build_cached build width projection o ∧ op_device_build o = Some c)
    (op_hash_join left build lkey projection elapsed)) as Hk; [|by apply Hk].
  apply op_hash_join_keeps_inv.
  - intros o1 o2 Hb Hd. unfold build_cached. by rewrite Hb, Hd.
  - intros s plan Hplan o1 [Ho1 Hc1]. destruct (device_build s build plan o1) as [o2 r] eqn:Hdb.
    destruct (device_build_spec build width projection s plan o1 o2 r Ho1 Hplan Hdb) as (_ & _ & Hsame & _).
    destruct (Hsame c Hc1) as [-> _]. done.
Qed.

(** A batch that succeeds and leaves the cache empty fell back. *)
Lemma op_hash_join_fills o o' out :
  build_cached build width projection o →
  op_hash_join left build lkey projection elapsed o = (o', Ok out) → op_device_build o' = None →
  ∃ o1, same_operator o o1 ∧ o' = record (num_rows left) out elapsed None (fell_back o1).
Proof.
  intros Hc Hop Hnone. unfold op_hash_join in Hop. set (reference := hash_join_probe _ _ _ _ _) in *.
  assert (∀ o1 why, same_operator o o1 → finish (num_rows left) elapsed (Declined why) reference o1 = (o', Ok out) →
    ∃ o1, same_operator o o1 ∧ o' = record (num_rows left) out elapsed None (fell_back o1)) as Hfin.
  { intros o1 why Hs. unfold finish, op_bind. cbn. destruct reference; cbn; [|done..]. intros [= <- <-]. by exists o1. }
  apply op_bind_inv in Hop as [(o1 & outcome & Hdev & Hop)|[(e & _ & ?)|[_ ?]]]; [|done..].
  destruct (no_device_path _ _ o) as [why|]; [by injection Hdev as <- <-; eapply Hfin|].
  unfold hash_join_on_device in Hdev. destruct (negb _) in Hdev; [done|].
  apply op_bind_inv in Hdev as [(o2 & lplan & Hl & Hdev)|[(e & _ & ?)|[_ ?]]]; [|done..]. injection Hl as <- Hlp.
  apply op_bind_inv in Hdev as [(o2 & rplan & Hl & Hdev)|[(e & _ & ?)|[_ ?]]]; [|done..]. injection Hl as <- Hrp.
  apply op_bind_inv in Hdev as [(o2 & lsub & Hl & Hdev)|[(e & _ & ?)|[_ ?]]]; [|done..]. injection Hl as <- Hls.
  apply op_bind_inv in Hdev as [(o2 & attempt & Ht & Hdev)|[(e & _ & ?)|[_ ?]]]; [|done..].
  apply (join_attempt build width projection) in Ht as [Hs Hr]; [|done..].
  destruct attempt as [dev_out moved|why]; [|by injection Hdev as <- <-; eapply Hfin].
  exfalso. destruct Hr as [[c Hfill] _].
  assert (op_device_build o1 = Some c) as Hc1.
  { revert Hdev. match goal with |- ?m o2 = _ → _ => intros Hdev; assert (keeps (λ o, op_device_build o = Some c) m) as Hk end.
    { do 4 (apply keeps_lift; intros ? _). apply keeps_pure; [intros ? ? _ E; cbn; congruence|done]. }
    specialize (Hk o2 Hfill). by rewrite Hdev in Hk. }
  pose proof (keeps_finish (λ o, op_device_build o = Some c) ltac:(intros ? ? _ E; cbn; congruence) (num_rows left) elapsed outcome reference o1 Hc1) as Hk.
  rewrite Hop in Hk. cbn in Hk. congruence.
Qed.
End Resident.
End Ops.
