(* ===== verification/OperatorClaims.v ===== *)
(** * The operator's guarantees

    The theorems a query engine relies on, stated over [Operator] and proved
    from [OperatorCorrect]: every operator returns the reference's rows on any
    backend that meets its contract, a device that accepts what the reference
    accepts is really used, every batch is accounted for, and one build side
    serves a whole run of probe batches.  [FakeGpu] is the backend of the
    repository's own tests: the CPU kernels under a GPU's name. *)

From S2P Require Import Prelude Floats Arrow Core Telemetry Memory ArrowKernels Kernels.
From S2P Require Import FilterCorrect JoinCorrect AggregateCorrect VectorCorrect Device.
From S2P Require Import DeviceCorrect Operator OperatorCorrect.

(** ** A device that accepts what the reference accepts *)

Class BackendTotal `{ArrowKernels, HashOrder} (g : GpuBackend) `{!BackendContract g} := {
  stream_ok : DeviceStream → Prop;
  upload_total s b : stream_ok s → ∃ d, gb_upload g s b = Ok d;
  download_total s d b : stream_ok s → holds d b → gb_download g s d = Ok b;
  synchronize_total s : stream_ok s → gb_synchronize g s = Ok tt;
  filter_total s a b b' :
    stream_ok s → holds (fp_input a) b →
    filter_project b (fp_predicate a) (fp_projection a) = Ok b' →
    ∃ d, gb_filter_project g s a = Ok d;
}.

Lemma pred_columns_in_range b p c :
  pred_fault b p = None → c ∈ pred_columns p → (c < num_columns b)%nat.
Proof.
  induction p as [c' op lit|p1 IH1 p2 IH2]; cbn [pred_fault].
  - destruct (columns b !! c') eqn:E; [|done]. intros _ Hc. apply list_elem_of_singleton in Hc as ->.
    by eapply lookup_lt_Some.
  - destruct (pred_fault b p1); [done|]. intros Hf.
    rewrite pred_columns_And, elem_of_app. intros [?|?]; [by apply IH1|by apply IH2].
Qed.

Lemma pred_columns_nonempty p : pred_columns p ≠ [].
Proof.
  induction p as [c op lit|p1 IH1 p2 IH2]; [done|].
  rewrite pred_columns_And. intros [? _]%app_eq_nil. done.
Qed.

Lemma remap_total p plan :
  (∀ c, c ∈ pred_columns p → c ∈ device_cols plan) → ∃ p', remap_predicate p plan = Ok p'.
Proof.
  induction p as [c op lit|p1 IH1 p2 IH2]; intros Hin; cbn.
  - destruct (position_in_is_Some (device_cols plan) c) as [i Hi]; [apply Hin; cbn; set_solver|].
    unfold plan_position. rewrite Hi. by eexists.
  - rewrite pred_columns_And in Hin.
    destruct IH1 as [q1 ->]; [set_solver|]. destruct IH2 as [q2 ->]; [set_solver|]. by eexists.
Qed.

Lemma elem_of_eligible projection eligible i :
  i ∈ eligible_of projection eligible → i ∈ projection.
Proof.
  unfold eligible_of. rewrite list_elem_of_bind. intros ([j ok] & Hi & Hz).
  destruct ok; [|set_solver]. apply list_elem_of_singleton in Hi as ->.
  by apply elem_of_zip_l in Hz.
Qed.

Section Claims.
Context `{ArrowLaws, HashOrderLaw, BatchSize}.

(** The columns a plan sends are those of the batch. *)
Lemma filter_plan_range b p projection eligible c :
  pred_fault b p = None → Forall (λ i, (i < num_columns b)%nat) projection →
  c ∈ device_cols (filter_plan p projection eligible) → (c < num_columns b)%nat.
Proof.
  intros Hfault Hproj. unfold filter_plan. cbn [device_cols]. rewrite !elem_of_push_uniques.
  intros [[?|Hc]|Hc]; [set_solver| |].
  - rewrite elem_of_dedup in Hc. by apply (pred_columns_in_range b p).
  - apply elem_of_eligible in Hc. rewrite Forall_forall in Hproj. by apply Hproj.
Qed.

Lemma filter_plan_pred p projection eligible c :
  c ∈ pred_columns p → c ∈ device_cols (filter_plan p projection eligible).
Proof.
  intros Hc. unfold filter_plan. cbn [device_cols]. rewrite !elem_of_push_uniques.
  left. right. by apply elem_of_dedup.
Qed.

Lemma dev_projection_total p projection eligible :
  let plan := filter_plan p projection eligible in
  ∃ dp, dev_projection plan projection eligible = Ok dp ∧
    ∀ pos, pos ∈ dp →
      (∃ c, plan_position plan c = Some pos) ∨ row_id_position plan = Some pos.
Proof.
  intros plan. unfold dev_projection.
  set (pos_of := λ i, default 0%nat (plan_position plan i)).
  assert (∀ i, i ∈ eligible_of projection eligible → plan_position plan i = Some (pos_of i)) as Hpos.
  { intros i Hi. unfold pos_of. destruct (position_in_is_Some (device_cols plan) i) as [q Hq].
    - unfold plan, filter_plan. cbn [device_cols]. apply elem_of_push_uniques. by right.
    - unfold plan_position. by rewrite Hq. }
  rewrite (mapM_res_fmap _ pos_of).
  2: { intros i Hi. by rewrite (Hpos i Hi). }
  cbn [mbind res_bind]. eexists. split; [done|].
  intros pos [Hp|Hp]%elem_of_app.
  - apply list_elem_of_fmap in Hp as (i & -> & Hi). left. exists i. by apply Hpos.
  - right. destruct (row_id_position plan); set_solver.
Qed.

(** Everything up to the kernel succeeds, and so does the kernel. *)
Lemma filter_prepare_total b p projection ref :
  batch_ok b → Z.of_nat (num_rows b) ≤ i64_max → filter_project b p projection = Ok ref →
  ∃ eligible sub p' dp dev_out, let plan := filter_plan p projection eligible in
    eligible_flags b projection = Ok eligible ∧ sub_batch plan b = Ok sub ∧
    remap_predicate p plan = Ok p' ∧ dev_projection plan projection eligible = Ok dp ∧
    filter_project sub p' dp = Ok dev_out.
Proof.
  intros Hb Hn Href.
  destruct (filter_project_Ok_inv _ _ _ _ Hb Href) as (Hfault & fs & cs & Hfs & Hcs & _).
  set (eligible := (λ f, device_eligible (field_type_of f)) <$> fs).
  set (plan := filter_plan p projection eligible).
  assert (Forall (λ i, (i < num_columns b)%nat) projection) as Hproj.
  { apply Forall_forall. intros c [j Hj]%list_elem_of_lookup_1. apply mapM_Some_1 in Hcs.
    destruct (Forall2_lookup_l _ _ _ _ _ Hcs Hj) as (a & _ & Ha). by eapply lookup_lt_Some. }
  assert (Forall (λ c, (c < num_columns b)%nat) (device_cols plan)) as Hrange.
  { apply Forall_forall. intros c. by apply filter_plan_range. }
  destruct (mapM_lookup_in (fields (schema b)) (device_cols plan)) as [fs0 Hfs0].
  { by rewrite (batch_ok_num_columns _ Hb). }
  destruct (mapM_lookup_in (columns b) (device_cols plan) Hrange) as [cs0 Hcs0].
  assert (device_cols plan ≠ []) as Hdc.
  { intros E. destruct (pred_columns p) as [|c l] eqn:Ep; [by eapply pred_columns_nonempty|].
    pose proof (filter_plan_pred p projection eligible c) as Hc. fold plan in Hc.
    rewrite E, Ep in Hc. set_solver. }
  destruct (sub_batch_spec plan b fs0 cs0 Hb Hn (or_introl Hdc) Hfs0 Hcs0) as (Hsub & Hsubok & _).
  destruct (sub_batch_agrees _ _ _ Hb Hn Hsub) as (_ & Hag & _ & Hw).
  destruct (remap_total p plan (filter_plan_pred p projection eligible)) as [p' Hp'].
  destruct (dev_projection_total p projection eligible) as (dp & Hdp & Hdpr).
  set (sub := mkBatch _ _ _) in *. exists eligible, sub, p', dp.
  assert (Forall (λ i, (i < num_columns sub)%nat) dp) as Hdr.
  { apply Forall_forall. intros pos Hpos. fold plan in Hdpr. rewrite Hw.
    destruct (Hdpr pos Hpos) as [[c Hc]|Hid].
    - apply position_in_Some, lookup_lt_Some in Hc. lia.
    - unfold row_id_position in Hid. case_match; [|done]. simplify_eq. lia. }
  destruct (mapM_lookup_in (fields (schema sub)) dp) as [fs1 Hfs1].
  { by rewrite (batch_ok_num_columns _ Hsubok). }
  destruct (mapM_lookup_in (columns sub) dp Hdr) as [cs1 Hcs1].
  eexists. split; [|split; [exact Hsub|split; [exact Hp'|split; [exact Hdp|]]]].
  - apply eligible_flags_spec. unfold eligible. apply Forall2_fmap_r. apply mapM_Some_1 in Hfs.
    eapply Forall2_impl; [exact Hfs|]. eauto.
  - apply filter_batch_spec; [done| |exact Hfs1|exact Hcs1].
    by rewrite (remap_fault plan b sub p p').
Qed.

(** Everything after the kernel succeeds. *)
Lemma filter_finish_total b p projection eligible sub p' dp dev_out :
  let plan := filter_plan p projection eligible in
  batch_ok b → Z.of_nat (num_rows b) ≤ i64_max → projection ≠ [] →
  eligible_flags b projection = Ok eligible →
  sub_batch plan b = Ok sub → remap_predicate p plan = Ok p' →
  dev_projection plan projection eligible = Ok dp → filter_project sub p' dp = Ok dev_out →
  ∃ ids cells out,
    (if row_ids plan then Some <$> index (columns dev_out) (num_columns dev_out - 1) else Ok None)
      = Ok (E := EngineError) ids ∧
    reassemble b dev_out ids (zip projection eligible) 0 = Ok cells ∧
    map_err ArrowE (batch_try_new (Schema_new (fst <$> cells)) (snd <$> cells)) = Ok out.
Proof.
  intros plan Hb Hn Hne Hel Hsub Hre Hdp Hf. apply eligible_flags_spec in Hel.
  destruct (filter_device_columns _ _ _ _ _ _ _ _ Hb Hn Hsub Hre Hdp Hf)
    as (Hfault & xs & Hcols & Hxs).
  assert (∃ ids, (if row_ids plan
      then Some <$> index (columns dev_out) (num_columns dev_out - 1) else Ok None)
      = Ok (E := EngineError) ids ∧
    (existsb negb eligible = true → ids = Some (Int64Array_of (Some <$> kept b p))))
    as (ids & Hids & Hids').
  { unfold num_columns. rewrite Hcols, length_app. fold plan.
    change (existsb negb eligible) with (row_ids plan). destruct (row_ids plan); [|by eexists].
    cbn [length]. rewrite Nat.add_sub. erewrite index_Some by (by apply list_lookup_middle).
    by eexists. }
  destruct (reassemble_spec b dev_out ids p projection eligible Hb Hel Hids' [] xs _ Hcols Hxs)
    as (fs & cs & Hfs & Hcs & Hr).
  exists ids, (zip fs ((λ a, array_take a (kept b p)) <$> cs)). 
  pose proof (kept_batch_ok b p _ _ _ Hb Hfs Hcs) as Hok. unfold batch_ok in Hok. cbn in Hok.
  rewrite fst_zip, snd_zip by (by rewrite (Forall2_length _ _ _ Hok)).
  destruct cs as [|c cs].
  { apply mapM_Some_1 in Hcs. destruct projection; [done|]. inversion Hcs. }
  assert (array_len (array_take c (kept b p)) = length (kept_rows b p)) as Hl.
  { inversion Hok as [|? ? ? ? [_ ?]]; subst. done. }
  rewrite fmap_cons, try_new_law by (unfold batch_ok; rewrite Hl; exact Hok).
  by eexists.
Qed.

(** ** The claims *)

(** C10: one batch through the filter operator on any backend that meets its
    contract: either the batch was declined, the reference's own result comes
    back and the batch is counted as a fallback, or the device ran and its rows
    are the reference's (schema metadata apart), or the device failed with an
    error that is not [Unsupported]. *)
Theorem operator_filter_correct `{!BackendContract g} b p projection elapsed o :
  op_backend o = g → batch_ok b → Z.of_nat (num_rows b) ≤ i64_max →
  op_outcome o (num_rows b) elapsed (filter_project b p projection)
    (op_filter_project b p projection elapsed o).
Proof. apply op_filter_outcome. Qed.

(** C35: the same for the aggregate operator, although only the key and the
    aggregated columns travel. *)
Theorem operator_aggregate_correct `{!BackendContract g} b spec elapsed o :
  op_backend o = g → batch_ok b → Z.of_nat (num_rows b) ≤ i64_max →
  op_outcome o (num_rows b) elapsed (aggregate b spec) (op_aggregate b spec elapsed o).
Proof. apply op_aggregate_outcome. Qed.

(** the same for the vector-distance operator, although only the vector
    column travels and the distances are appended on the host. *)
Theorem operator_vector_correct `{!BackendContract g} b ci query metric name elapsed o :
  op_backend o = g → batch_ok b → Z.of_nat (num_rows b) ≤ i64_max →
  op_outcome o (num_rows b) elapsed (vector_distance b ci query metric name)
    (op_vector_distance b ci query metric name elapsed o).
Proof. apply op_vector_outcome. Qed.

Lemma op_bind_Ok {A B} (m : OpM A) (f : A → OpM B) o o1 a :
  m o = (o1, Ok a) → op_bind m f o = f a o1.
Proof. unfold op_bind. by intros ->. Qed.

Lemma op_bind_lift {A B} (r : result A) (f : A → OpM B) o a :
  r = Ok a → op_bind (op_lift r) f o = f a o.
Proof. intros ->. done. Qed.

(** A device attempt on a total backend. *)
Lemma filter_attempt_total `{!BackendContract g, !BackendTotal g} sub p dp dev_ref o :
  op_backend o = g → op_streams o ≠ [] → Forall stream_ok (op_streams o) →
  filter_project sub p dp = Ok dev_ref →
  try_device (λ s o, round_trip s sub (λ s dev,
      gb_filter_project (op_backend o) s (mkFilterArgs dev p dp)) o) o
  = (ticked o, Ok (Ran dev_ref (array_memory_size sub, array_memory_size dev_ref))).
Proof.
  intros Hg Hne Hstreams Hf.
  set (pos := Z.to_nat (op_next_stream o mod Z.of_nat (length (op_streams o)))).
  assert (∃ s, op_streams o !! pos = Some s ∧ stream_ok s) as (s & Hs & Hsok).
  { assert (pos < length (op_streams o))%nat as Hlt.
    { destruct (op_streams o); [done|]. unfold pos. cbn [length].
      pose proof (Z.mod_pos_bound (op_next_stream o) (Z.of_nat (S (length l)))). lia. }
    destruct (lookup_lt_is_Some_2 _ _ Hlt) as [s Hs]. exists s. split; [done|].
    by apply (Forall_lookup_1 _ _ _ _ Hstreams Hs). }
  destruct (upload_total s sub Hsok) as [dev Hu]. pose proof (upload_holds _ _ _ Hu) as Hh.
  destruct (filter_total s (mkFilterArgs dev p dp) sub dev_ref Hsok Hh Hf) as [d Hd].
  destruct (filter_holds s (mkFilterArgs dev p dp) sub d Hh Hd) as (dev_ref' & Hf' & Hh').
  cbn [fp_predicate fp_projection] in Hf'. rewrite Hf in Hf'. injection Hf' as <-.
  unfold try_device, op_bind, op_stream. fold pos. rewrite (index_Some _ _ _ Hs).
  unfold round_trip. cbn [op_backend with_next]. rewrite Hg, Hu. cbn [mbind res_bind].
  rewrite Hd. cbn [mbind res_bind]. rewrite (download_total s d dev_ref Hsok Hh').
  cbn [mbind res_bind]. by rewrite (synchronize_total s Hsok).
Qed.

(** a GPU that supports the predicate and accepts what the reference
    accepts is used: for a non-empty projection the operator returns the
    reference's rows from the device, with the transfer recorded, no fallback
    counted and nothing else of the operator's state changed. *)
Theorem operator_filter_on_device `{!BackendContract g, !BackendTotal g} b p projection elapsed ref o :
  op_backend o = g → is_gpu (gb_kind g) = true → gb_supports_predicate g p = true →
  op_streams o ≠ [] → Forall stream_ok (op_streams o) →
  batch_ok b → Z.of_nat (num_rows b) ≤ i64_max → projection ≠ [] →
  filter_project b p projection = Ok ref →
  ∃ out moved, same_rows out ref ∧
    op_filter_project b p projection elapsed o
    = (record (num_rows b) out elapsed (Some moved) (ticked o), Ok out).
Proof.
  intros Hg Hgpu Hsup Hne Hstreams Hb Hn Hproj Href.
  destruct (filter_prepare_total b p projection ref Hb Hn Href)
    as (eligible & sub & p' & dp & dev_ref & Hel & Hsub & Hp' & Hdp & Hf).
  destruct (filter_finish_total b p projection eligible sub p' dp dev_ref)
    as (ids & cells & out & Hids & Hcells & Hout); [done..|].
  destruct (filter_device_spec b p projection eligible sub p' dp dev_ref ids cells out)
    as (ref' & Href' & Hsame); [done..|]. rewrite Href in Href'. injection Href' as <-.
  set (moved := (array_memory_size sub, array_memory_size dev_ref)).
  exists out, moved. split; [done|].
  assert (filter_project_on_device b p projection o = (ticked o, Ok (Ran out moved))) as Hdev.
  { unfold filter_project_on_device. rewrite (op_bind_lift _ _ _ _ Hel). cbv zeta.
    rewrite (op_bind_lift _ _ _ _ Hsub), (op_bind_lift _ _ _ _ Hp'), (op_bind_lift _ _ _ _ Hdp).
    rewrite (op_bind_Ok _ _ _ _ _ (filter_attempt_total sub p' dp dev_ref o Hg Hne Hstreams Hf)).
    rewrite (op_bind_lift _ _ _ _ Hids), (op_bind_lift _ _ _ _ Hcells), (op_bind_lift _ _ _ _ Hout).
    done. }
  unfold op_filter_project, no_device_path. rewrite Hg, Hgpu, Hsup. cbn [negb].
  by rewrite (op_bind_Ok _ _ _ _ _ Hdev).
Qed.

(** every batch is accounted for: a batch the filter operator returns adds
    one to the batch counter and its rows to the row counters, and either counts
    one fallback, moves no bytes and is the reference's batch, or counts none and
    adds the bytes that travelled. *)
Theorem operator_accounting `{!BackendContract g} b p projection elapsed o o' out s :
  op_backend o = g → batch_ok b → Z.of_nat (num_rows b) ≤ i64_max →
  op_stats o = Some s → op_filter_project b p projection elapsed o = (o', Ok out) →
  ∃ s', op_stats o' = Some s' ∧
    batches s' = wadd64 (batches s) 1 ∧
    rows_in s' = wadd64 (rows_in s) (Z.of_nat (num_rows b)) ∧
    rows_out s' = wadd64 (rows_out s) (Z.of_nat (num_rows out)) ∧
    ((fallback_batches s' = wadd64 (fallback_batches s) 1 ∧ bytes_h2d s' = bytes_h2d s ∧
      bytes_d2h s' = bytes_d2h s ∧ op_warned_fallback o' = true ∧
      filter_project b p projection = Ok out) ∨
     (fallback_batches s' = fallback_batches s ∧
      op_warned_fallback o' = op_warned_fallback o ∧
      ∃ h2d d2h, bytes_h2d s' = wadd64 (bytes_h2d s) h2d ∧ bytes_d2h s' = wadd64 (bytes_d2h s) d2h)).
Proof.
  intros Hg Hb Hn Hs Hop. pose proof (op_filter_outcome b p projection elapsed o Hg Hb Hn) as Ho.
  rewrite Hop in Ho. remember (o', Ok out) as res eqn:Hres.
  destruct Ho as [o1 Hso|o1 out' ref moved Hso Hr Hsame|o1 r Hso Hbad Hh].
  - destruct (filter_project b p projection) as [ref|e|]; [|discriminate..].
    injection Hres as <- <-. unfold record, fell_back. cbn. rewrite (so_stats _ _ Hso), Hs. cbn.
    eexists. split; [done|]. destruct s. cbn. split_and!; [done..|]. left. done.
  - injection Hres as <- <-. unfold record. destruct moved as [h2d d2h].
    cbn. rewrite (so_stats _ _ Hso), Hs. cbn. eexists. split; [done|].
    destruct s. cbn. split_and!; [done..|]. right.
    split; [done|]. split; [apply Hso|]. by exists h2d, d2h.
  - by injection Hres as _ ->.
Qed.

(** *** A run of probe batches *)

(** The operator's calls for the probe batches of one join: before each call
    the state, then the call's outcome. *)
Fixpoint join_run (build : JoinBuild) (lkey : nat) (projection : option (list nat))
    (bs : list (RecordBatch * Z)) (o : GpuOperator) :
    list (GpuOperator * (GpuOperator * result RecordBatch)) :=
  match bs with
  | [] => []
  | (b, elapsed) :: bs =>
      let out := op_hash_join b build lkey projection elapsed o in
      (o, out) :: join_run build lkey projection bs out.1
  end.

(** The operator with another backend, and a backend with another upload. *)
Definition with_backend (g : GpuBackend) (o : GpuOperator) : GpuOperator :=
  mkOperator g (op_streams o) (op_next_stream o) (op_stats o) (op_device_build o) (op_warned_fallback o).
Definition with_upload (upload : DeviceStream → RecordBatch → result DeviceBatch) (g : GpuBackend) : GpuBackend :=
  mkBackend (gb_kind g) (gb_device_id g) (gb_memory_info g) (gb_alloc_device g) (gb_alloc_pinned_host g)
    (gb_create_stream g) (gb_copy_h2d g) (gb_copy_d2h g) (gb_synchronize g) upload (gb_download g)
    (gb_filter_project g) (gb_hash_join g) (gb_aggregate g) (gb_vector_distance g) (gb_supports_predicate g)
    (gb_supports_hash_join g) (gb_supports_aggregate g).

(** What the probe side sends: the columns the join takes of its batch. *)
Definition probe_sent (left : RecordBatch) (build : JoinBuild) (lkey : nat) (projection : option (list nat)) (sub : RecordBatch) : Prop :=
  let width := length (fields (schema left)) in
  let selected := match projection with
                  | Some p => p
                  | None => seq 0 (width + length (fields (schema (jb_batch build))))
                  end in
  ∃ plan, side_plan (schema left) lkey (filter (λ i, (i < width)%nat) selected) = Ok plan ∧ sub_batch plan left = Ok sub.

(** *** Steps that do not look at the upload *)

Section Blind.
Context (g : GpuBackend) (c : DeviceBuild) (upload : DeviceStream → RecordBatch → result DeviceBatch).

Definition settled_on (o : GpuOperator) : Prop := op_backend o = g ∧ op_device_build o = Some c.

(** A step that runs the same with the other upload. *)
Definition blind {A} (m : OpM A) : Prop := ∀ o, settled_on o →
  m (with_backend (with_upload upload g) o) = (with_backend (with_upload upload g) (m o).1, (m o).2) ∧ settled_on (m o).1.

Lemma blind_lift {A} (r : result A) : blind (op_lift r).
Proof. by intros o Ho. Qed.

Lemma blind_bind {A B} (m : OpM A) (f : A → OpM B) : blind m → (∀ o a, settled_on o → (m o).2 = Ok a → blind (f a)) → blind (op_bind m f).
Proof.
  intros Hm Hf o Ho. destruct (Hm o Ho) as [Heq Ho1]. specialize (Hf o). unfold op_bind. rewrite Heq.
  destruct (m o) as [o1 [a|e|]]; cbn in *; [|done|done]. by apply (Hf a Ho eq_refl).
Qed.

Lemma blind_lift_bind {A B} (r : result A) (f : A → OpM B) : (∀ a, r = Ok a → blind (f a)) → blind (op_bind (op_lift r) f).
Proof. intros Hf. apply blind_bind; [apply blind_lift|]. intros o a _. apply Hf. Qed.

Lemma blind_try_device gpu : (∀ s, blind (gpu s)) → blind (try_device gpu).
Proof.
  intros Hgpu. assert (blind (op_bind op_stream gpu)) as Hb.
  { apply blind_bind; [by intros o Ho|]. intros o s _ _. apply Hgpu. }
  intros o Ho. destruct (Hb o Ho) as [Heq Ho1]. unfold try_device. rewrite Heq.
  destruct (op_bind op_stream gpu o) as [o1 [[b h]|e|]]; cbn in *; [done| |done]. by destruct (is_unsupported e).
Qed.

Lemma blind_finish n elapsed outcome reference : blind (finish n elapsed outcome reference).
Proof.
  apply blind_bind; [destruct outcome; by intros o Ho|]. intros o [out m] _ _ o1 Ho1. done.
Qed.

Lemma blind_device_build s build plan : dvb_plan c = plan → blind (device_build s build plan).
Proof.
  intros Hplan o Ho. unfold device_build. cbn [op_device_build with_backend].
  rewrite (proj2 Ho), bool_decide_eq_true_2 by done. done.
Qed.

Lemma blind_round_trip s sub k k' :
  upload s sub = gb_upload g s sub →
  (∀ o, op_backend o = g → k o = k' g) → (∀ o, op_backend o = with_upload upload g → k o = k' g) →
  blind (λ o, round_trip s sub (k o) o).
Proof.
  intros Hu Hk Hk' o Ho. unfold round_trip. rewrite (Hk' (with_backend (with_upload upload g) o)), (Hk o) by (done || apply Ho).
  cbn [op_backend with_backend gb_upload gb_download gb_synchronize with_upload fst snd]. rewrite Hu, (proj1 Ho). done.
Qed.

(** With the build side in place, a batch uploads the probe's columns alone. *)
Lemma op_hash_join_blind left build lkey projection elapsed :
  right_plan_of (length (fields (schema left))) build projection = Ok (dvb_plan c) →
  (∀ s sub, probe_sent left build lkey projection sub → upload s sub = gb_upload g s sub) →
  blind (op_hash_join left build lkey projection elapsed).
Proof.
  intros Hplan Hup o Ho. unfold op_hash_join, no_device_path. cbn [op_backend with_backend gb_kind gb_supports_hash_join with_upload].
  rewrite (proj1 Ho).
  apply blind_bind; [| |exact Ho]; [|intros; apply blind_finish].
  destruct (negb (is_gpu _)); [by intros ? ?|]. destruct (negb (gb_supports_hash_join _)); [by intros ? ?|].
  unfold hash_join_on_device. destruct (negb (forallb _ _)); [apply blind_lift|].
  apply blind_lift_bind. intros lplan Hl. apply blind_lift_bind. intros rplan Hr. apply blind_lift_bind. intros lsub Hls.
  apply blind_bind.
  - apply blind_try_device. intros s. apply blind_bind.
    + apply blind_device_build. unfold right_plan_of in Hplan. rewrite Hplan in Hr. by injection Hr.
    + intros o1 db _ _.
      apply (blind_round_trip s lsub _ (λ g s dev_left, gb_hash_join g s (mkJoinArgs dev_left (dvb_batch db)
        (default 0%nat (plan_position lplan lkey)) (default 0%nat (plan_position rplan (jb_key build)))))).
      * apply Hup. by exists lplan.
      * by intros o2 ->.
      * by intros o2 ->.
  - intros o1 [dev_out moved|why] _ _; [|by intros ? ?].
    do 4 (apply blind_lift_bind; intros ? _). by intros ? ?.
Qed.
End Blind.

(** What a probe batch does to the build side on the device.  One that is there
    stays, and the batch is run with it and no other upload than that of the
    probe's own columns: whatever the backend's upload did with anything else,
    the operator would end the same.  And it is there unless the batch failed or
    was computed by the reference as a counted fallback. *)
Record build_resident (left : RecordBatch) (build : JoinBuild) (lkey : nat) (projection : option (list nat)) (elapsed : Z)
    (before : GpuOperator) (out : GpuOperator * result RecordBatch) : Prop := {
  br_stays c : op_device_build before = Some c → op_device_build out.1 = Some c;
  br_no_upload c upload :
    op_device_build before = Some c →
    (∀ s sub, probe_sent left build lkey projection sub → upload s sub = gb_upload (op_backend before) s sub) →
    let g := with_upload upload (op_backend before) in
    op_hash_join left build lkey projection elapsed (with_backend g before) = (with_backend g out.1, out.2);
  br_filled b :
    op_device_build out.1 = None → out.2 = Ok b →
    ∃ o1, same_operator before o1 ∧ out.1 = record (num_rows left) b elapsed None (fell_back o1);
}.

Lemma op_hash_join_resident `{!BackendContract g} left build lkey projection elapsed o :
  build_cached build (length (fields (schema left))) projection o →
  build_resident left build lkey projection elapsed o (op_hash_join left build lkey projection elapsed o).
Proof.
  intros Hc. split.
  - intros c. by apply op_hash_join_keeps_build.
  - intros c upload Hsome Hup g'. destruct Hc as [Hg Hcached]. rewrite Hsome in Hcached. destruct Hcached as [Hplan _].
    subst g'. rewrite Hg in Hup |- *. by apply (op_hash_join_blind g c upload left build lkey projection elapsed Hplan Hup o).
  - intros out Hnone Hok. destruct (op_hash_join left build lkey projection elapsed o) as [o' r] eqn:Hop.
    cbn in Hnone, Hok |- *. subst r. by eapply op_hash_join_fills.
Qed.

(** C9: one operator joins a whole run of probe batches against one prepared
    build side, on any backend that meets its contract.  Every batch comes out
    as the reference's probe of that batch, or as the reference's own result
    counted as a fallback, or as a device failure, whatever happened to the
    batches before.  The build side is uploaded until it has reached the device,
    and then never again: it stays in the operator's cache, a later batch
    uploads nothing but its own columns, and after a batch that the device
    computed it is there. *)
Theorem operator_join_run_correct `{!BackendContract g} stats build rk lkey projection width bs o :
  GpuOperator_new g stats = Ok o → join_build_ok build rk →
  Forall (λ '(b, _), batch_ok b ∧ Z.of_nat (num_rows b) ≤ U32 ∧
                     length (fields (schema b)) = width) bs →
  Forall2 (λ '(b, elapsed) '(before, out),
             op_outcome before (num_rows b) elapsed
               (hash_join_probe b lkey (jb_batch build) (jb_table build) projection) out ∧
             build_resident b build lkey projection elapsed before out)
          bs (join_run build lkey projection bs o).
Proof.
  intros Hnew Hbuild Hbs. assert (build_cached build width projection o) as Hc.
  { apply bind_Ok_inv in Hnew as (streams & _ & [= <-]). done. }
  clear Hnew. revert o Hc. induction Hbs as [|[b el] bs (Hb & Hn & Hw) _ IH]; intros o Hc; [done|].
  cbn [join_run]. constructor.
  - split; [|apply op_hash_join_resident; by rewrite Hw]. apply (op_hash_join_outcome b build rk); [done..|]. by rewrite Hw.
  - apply IH. subst width. by apply op_hash_join_keeps.
Qed.
End Claims.

(** ** Examples on the test backend *)

Module OperatorExample.
#[local] Instance bump : Allocator := λ size align, Some (align * 16).
#[local] Instance no_driver : CudaDriver := {|
  ctx_alloc_pinned := λ _, Err "no driver"; pinned_wait := λ _, Err "no driver" |}.
#[local] Instance order : HashOrder := map_to_list.
#[local] Instance order_law : HashOrderLaw.
Proof. intros m. reflexivity. Qed.
#[local] Instance size : BatchSize := λ b, Z.of_nat (num_rows b).

(** The CPU kernels under a GPU's name. *)
Definition FakeGpu : GpuBackend :=
  let cpu := CpuBackend None in
  mkBackend Cuda (mkDeviceId Cuda 0) (gb_memory_info cpu) (gb_alloc_device cpu)
    (gb_alloc_pinned_host cpu) (gb_create_stream cpu) (gb_copy_h2d cpu) (gb_copy_d2h cpu)
    (gb_synchronize cpu) (gb_upload cpu) (gb_download cpu) (gb_filter_project cpu)
    (gb_hash_join cpu) (gb_aggregate cpu) (gb_vector_distance cpu) (gb_supports_predicate cpu)
    (gb_supports_hash_join cpu) (gb_supports_aggregate cpu).

#[local] Instance fake_contract : BackendContract FakeGpu.
Proof.
  refine {| holds := cpu_holds |}; cbn.
  - exact (upload_holds (g := CpuBackend None)).
  - exact (download_holds (g := CpuBackend None)).
  - exact (filter_holds (g := CpuBackend None)).
  - exact (join_holds (g := CpuBackend None)).
  - exact (aggregate_holds (g := CpuBackend None)).
  - exact (vector_holds (g := CpuBackend None)).
Defined.

#[local] Instance fake_total : BackendTotal FakeGpu.
Proof.
  refine {| stream_ok := λ s, check_stream s = Ok tt |}; cbn; unfold cpu_holds.
  - intros s b Hs. unfold cpu_upload. rewrite Hs. by eexists.
  - intros s d b Hs Hd. unfold cpu_download, host_batch. by rewrite Hs, Hd.
  - done.
  - intros s a b b' Hs Hh Hf. unfold cpu_filter_project, host_batch. rewrite Hs, Hh. cbn [ok_or mbind res_bind].
    rewrite Hf. by eexists.
Defined.

(** A batch whose projection mixes a device column and a string column. *)
Definition people : RecordBatch :=
  mkBatch (Schema_new [Field_new "age" Int64 true; Field_new "name" Utf8 true])
          [Int64Array_of [Some 30; Some 12; None; Some 41];
           mkArray Utf8 [Some (VStr "ann"); Some (VStr "bob"); Some (VStr "eve"); None]] 4.
Definition adults : Predicate := Compare 0 CGtEq (LInt64 18).

Definition gpu_op : GpuOperator :=
  mkOperator FakeGpu [mkStream CpuSimd StreamHost; mkStream CpuSimd StreamHost] 0
    (Some (OperatorStats_new 1 "filter" Cuda)) None false.

Lemma people_ok : batch_ok people.
Proof. apply (bool_decide_unpack _). vm_compute. exact I. Qed.

Lemma operator_filter_correct_witness :
  op_outcome gpu_op 4 9 (filter_project people adults [1; 0]%nat)
    (op_filter_project people adults [1; 0]%nat 9 gpu_op).
Proof.
  apply (operator_filter_correct (g := FakeGpu) people adults [1; 0]%nat 9 gpu_op);
    [reflexivity|exact people_ok|vm_compute; discriminate].
Defined.

Lemma operator_aggregate_correct_witness :
  op_outcome gpu_op 4 9 (aggregate people (mkSpec 0 [(Count, 0%nat)]))
    (op_aggregate people (mkSpec 0 [(Count, 0%nat)]) 9 gpu_op).
Proof.
  apply (operator_aggregate_correct (g := FakeGpu) people (mkSpec 0 [(Count, 0%nat)]) 9 gpu_op);
    [reflexivity|exact people_ok|vm_compute; discriminate].
Defined.

Lemma operator_vector_correct_witness :
  op_outcome gpu_op 2 9 (vector_distance VectorExample.points 0 [f32_zero; f32_zero] L2 "d")
    (op_vector_distance VectorExample.points 0 [f32_zero; f32_zero] L2 "d" 9 gpu_op).
Proof.
  apply (operator_vector_correct (g := FakeGpu) VectorExample.points 0 [f32_zero; f32_zero] L2 "d"
    9 gpu_op);
    [reflexivity|apply (bool_decide_unpack _); vm_compute; exact I|vm_compute; discriminate].
Defined.

Lemma operator_filter_on_device_witness :
  ∃ out moved,
    op_filter_project people adults [1; 0]%nat 9 gpu_op
    = (record 4 out 9 (Some moved) (ticked gpu_op), Ok out) ∧
    columns out = [mkArray Utf8 [Some (VStr "ann"); None]; Int64Array_of [Some 30; Some 41]].
Proof.
  assert (∃ ref, filter_project people adults [1; 0]%nat = Ok ref ∧
    columns ref = [mkArray Utf8 [Some (VStr "ann"); None]; Int64Array_of [Some 30; Some 41]])
    as (ref & Href & Hcols).
  { eexists. split; [vm_compute; reflexivity|reflexivity]. }
  destruct (operator_filter_on_device (g := FakeGpu) people adults [1; 0]%nat 9 ref gpu_op)
    as (out & moved & Hsame & Hop);
    [reflexivity|reflexivity|reflexivity|discriminate|repeat constructor|exact people_ok
    |vm_compute; discriminate|discriminate|exact Href|].
  exists out, moved. split; [exact Hop|]. rewrite (sr_columns _ _ Hsame). exact Hcols.
Defined.

Lemma operator_accounting_witness :
  ∃ o' out s', op_filter_project people adults [1; 0]%nat 9 gpu_op = (o', Ok out) ∧
    op_stats o' = Some s' ∧ batches s' = 1 ∧ rows_in s' = 4 ∧ fallback_batches s' = 0.
Proof.
  assert (is_ok (op_filter_project people adults [1; 0]%nat 9 gpu_op).2 = true) as Hok
    by (vm_compute; reflexivity).
  assert (fallback_batches <$> op_stats (op_filter_project people adults [1; 0]%nat 9 gpu_op).1
    = Some 0) as Hfb by (vm_compute; reflexivity).
  destruct (op_filter_project people adults [1; 0]%nat 9 gpu_op) as [o' r] eqn:Hop.
  destruct r as [out|e|]; [|discriminate Hok..].
  destruct (operator_accounting (g := FakeGpu) people adults [1; 0]%nat 9 gpu_op o' out
    (OperatorStats_new 1 "filter" Cuda)) as (s' & Hs' & Hb & Hr & _);
    [reflexivity|exact people_ok|vm_compute; discriminate|reflexivity|exact Hop|].
  exists o', out, s'. split; [reflexivity|]. split; [exact Hs'|].
  split; [exact Hb|]. split; [exact Hr|].
  cbn [fst] in Hfb. rewrite Hs' in Hfb. by injection Hfb.
Defined.

(** The join of [JoinExample] in two batches, through the device. *)
Definition build_side : JoinBuild :=
  mkJoinBuild JoinExample.customers 0
    (mkTable {[3 := (2, 1); 7 := (0, 2)]} [1; 3; 0]).

Definition new_op : GpuOperator :=
  mkOperator FakeGpu [mkStream CpuSimd StreamHost; mkStream CpuSimd StreamHost] 0 None None false.

Lemma build_side_new : JoinBuild_new JoinExample.customers 0 = Ok build_side.
Proof. vm_compute. reflexivity. Qed.

Lemma operator_join_run_correct_witness :
  Forall2 (λ '(b, elapsed) '(before, out),
             op_outcome before (num_rows b) elapsed
               (hash_join_probe b 0 (jb_batch build_side) (jb_table build_side) (Some [2; 1]%nat))
               out ∧
             build_resident b build_side 0 (Some [2; 1]%nat) elapsed before out)
    [(JoinExample.orders, 5); (JoinExample.orders, 6)]
    (join_run build_side 0 (Some [2; 1]%nat)
       [(JoinExample.orders, 5); (JoinExample.orders, 6)] new_op).
Proof.
  destruct (JoinBuild_new_ok JoinExample.customers 0 JoinExample.customers_keys)
    as (build & Hnew & _ & _ & Hok).
  { apply (bool_decide_unpack _). vm_compute. exact I. }
  { reflexivity. }
  { vm_compute. discriminate. }
  rewrite build_side_new in Hnew. injection Hnew as <-.
  apply (operator_join_run_correct (g := FakeGpu) None build_side JoinExample.customers_keys 0
    (Some [2; 1]%nat) 2); [reflexivity|exact Hok|].
  repeat constructor; try (apply (bool_decide_unpack _); vm_compute; exact I);
    vm_compute; discriminate.
Defined.

(** *** Two divergences between the device path and the reference *)

(** A filter that keeps no column (the input of [COUNT( * )]) succeeds on the
    reference and fails on a device: the assembled batch has no column to take
    its row count from.  [GpuFilterExec] refuses such a projection, so only a
    direct caller of the operator sees it. *)
Example empty_projection_fails_on_device :
  is_ok (filter_project people adults []) = true ∧
  (op_filter_project people adults [] 9 gpu_op).2
  = Err (ArrowE (ArrowErr "must either specify a row count or at least one column")).
Proof. split; vm_compute; reflexivity. Qed.

(** The build cache keeps its first value: a second join through the same
    operator that needs other build columns probes the columns of the first. *)
Definition dims : RecordBatch :=
  mkBatch (Schema_new [Field_new "id" Int64 true; Field_new "x" Int64 true; Field_new "y" Int64 true])
          [Int64Array_of [Some 7]; Int64Array_of [Some 100]; Int64Array_of [Some 200]] 1.
Definition dims_build : JoinBuild := mkJoinBuild dims 0 (mkTable {[7 := (0, 1)]} [0]).

Example stale_build_cache :
  JoinBuild_new dims 0 = Ok dims_build ∧
  (let o1 := (op_hash_join JoinExample.orders dims_build 0 (Some [3]%nat) 1 new_op).1 in
   columns <$> (op_hash_join JoinExample.orders dims_build 0 (Some [4]%nat) 1 o1).2
   = Ok [Int64Array_of [Some 100; Some 100]]) ∧
  columns <$> hash_join_probe JoinExample.orders 0 dims (jb_table dims_build) (Some [4]%nat)
  = Ok [Int64Array_of [Some 200; Some 200]].
Proof. split_and!; vm_compute; reflexivity. Qed.
End OperatorExample.
