(* ===== verification/Execs.v ===== *)
(** * oxidelake-compute: the process backend and the four [Gpu*Exec] plan nodes

    Models [src/crates/oxidelake-compute/src/backend.rs] and
    [src/crates/oxidelake-compute/src/exec/{mod,filter,join,aggregate,vector}.rs].
    A node sees its children through DataFusion's [ExecutionPlan] trait, the
    class [PlanNode] here.  A stream is the list of the items it yields when it
    is polled to the end; the time stamp a batch's processing takes travels with
    the item.  DataFusion's own per-node metrics and the tracing spans are left
    out.  The properties are in [ExecsCorrect]. *)

From S2P Require Import Prelude Floats Arrow Core Telemetry Memory ArrowKernels Kernels.
From S2P Require Import Device Operator.

(** ** The process backend ([backend.rs]) *)

(** The process state the nodes share: the [LOCAL] cell and the telemetry hubs
    (an [Arc<TelemetryHub>] is an index of [w_hubs]). *)
Record World := mkWorld {
  w_local : option (res EngineError GpuBackend);
  w_hubs : list TelemetryHub;
}.
Abbreviation HubRef := nat (only parsing).

Section Local.
Context `{Hardware, Allocator, CudaDriver, ArrowKernels, HashOrder}.
(** [OXIDE_BACKEND], read by [HardwareDetector::select]. *)
Context (env : option string).

(** The stored failure is its message. *)
Definition local_answer (r : res EngineError GpuBackend) : result GpuBackend :=
  match r with
  | Ok g => Ok g
  | Err _ => Err (Execution "backend selection failed")
  | Panic => Panic
  end.

Definition local_backend (w : World) : World * result GpuBackend :=
  match w_local w with
  | Some r => (w, local_answer r)
  | None => let r := select_with env in (mkWorld (Some r) (w_hubs w), local_answer r)
  end.

Definition init_local_backend (requested : option string) (w : World) : World * result GpuBackend :=
  let selected := select_with requested in
  match w_local w with
  | Some _ => (w, Err (Execution "the process backend was already selected"))
  | None => local_backend (mkWorld (Some selected) (w_hubs w))
  end.
End Local.

(** ** Shared plumbing ([exec/mod.rs]) *)

Definition MAX_PREDICATE_LEAVES : nat := 64.

Record ExecConfig := mkConfig {
  cfg_target : BackendKind;
  cfg_backend : option GpuBackend;
  cfg_telemetry : option HubRef;
  (** the hub registration, made on first execution: a handle of the hub's heap *)
  cfg_stats : option nat;
}.

Definition ExecConfig_new (target : BackendKind) : ExecConfig := mkConfig target None None None.
Definition config_with_backend (g : GpuBackend) (c : ExecConfig) : ExecConfig :=
  mkConfig (cfg_target c) (Some g) (cfg_telemetry c) (cfg_stats c).
Definition config_with_telemetry (h : HubRef) (c : ExecConfig) : ExecConfig :=
  mkConfig (cfg_target c) (cfg_backend c) (Some h) (cfg_stats c).

(** The statistics behind a handle. *)
Definition stats_of (w : World) (h : HubRef) (i : nat) : option OperatorStats :=
  hub ← w_hubs w !! h; hub_heap hub !! i.

Section Config.
Context `{Hardware, Allocator, CudaDriver, ArrowKernels, HashOrder} (env : option string).

(** [ExecConfig::operator]: the backend, then one registration per node. *)
Definition config_operator (c : ExecConfig) (name : string) (w : World) :
    World * ExecConfig * df_result GpuOperator :=
  let '(w, g) := match cfg_backend c with
                 | Some g => (w, Ok g)
                 | None => local_backend env w
                 end in
  match g with
  | Err e => (w, c, Err (to_datafusion e))
  | Panic => (w, c, Panic)
  | Ok g =>
      let '(w, c) :=
        match cfg_telemetry c, cfg_stats c with
        | Some h, None =>
            match w_hubs w !! h with
            | Some hub =>
                let '(i, hub) := register_operator name (cfg_target c) hub in
                (mkWorld (w_local w) (<[h := hub]> (w_hubs w)),
                 mkConfig (cfg_target c) (cfg_backend c) (Some h) (Some i))
            | None => (w, c)
            end
        | _, _ => (w, c)
        end in
      let stats := h ← cfg_telemetry c; i ← cfg_stats c; stats_of w h i in
      (w, c, map_err to_datafusion (GpuOperator_new g stats))
  end.
End Config.

(** The counters the operator moved, back in the hub they are shared through. *)
Definition store_stats (c : ExecConfig) (o : GpuOperator) (w : World) : World :=
  match cfg_telemetry c, cfg_stats c, op_stats o with
  | Some h, Some i, Some s => mkWorld (w_local w) (alter (with_stats i (λ _, s)) h (w_hubs w))
  | _, _, _ => w
  end.

Inductive Partitioning :=
  | UnknownPartitioning (n : nat)
  (** a scheme DataFusion knows the keys of *)
  | KnownPartitioning (scheme : string) (n : nat).
#[global] Instance Partitioning_EqDecision : EqDecision Partitioning.
Proof. solve_decision. Defined.
Definition partition_count (p : Partitioning) : nat :=
  match p with UnknownPartitioning n | KnownPartitioning _ n => n end.

Inductive EmissionType := Incremental | Final | Both.

Record PlanProperties := mkProperties {
  pp_schema : Schema; pp_partitioning : Partitioning; pp_emission : EmissionType }.

Definition plan_properties (s : Schema) (p : Partitioning) (e : EmissionType) : PlanProperties :=
  mkProperties s p e.

Definition plan_err {A} (msg : string) : df_result A := Err (DFPlan msg).

Definition field_type (s : Schema) (i : nat) (what : string) : df_result DataType :=
  ok_or (field_type_of <$> fields s !! i) (DFPlan (what +:+ ": column index out of range")).

Fixpoint validate_predicate_leaves (s : Schema) (p : Predicate) : df_result unit :=
  match p with
  | Compare c _ lit =>
      dt ← field_type s c "GpuFilterExec predicate";
      if bool_decide (dt = literal_data_type lit) then Ok tt
      else plan_err "GpuFilterExec predicate: column and literal types differ"
  | And l r =>
      _ ← validate_predicate_leaves s l;
      validate_predicate_leaves s r
  end.

Definition validate_predicate (s : Schema) (p : Predicate) : df_result unit :=
  if (MAX_PREDICATE_LEAVES <? leaf_count p)%nat
  then plan_err "GpuFilterExec predicate has too many comparisons"
  else validate_predicate_leaves s p.

(** What a node asks of its children. *)
Class PlanNode (P : Type) := {
  node_schema : P → Schema;
  node_partitioning : P → Partitioning;
}.

(** An item of a stream and the time its processing takes. *)
Abbreviation item := (df_result RecordBatch * Z)%type.

(** [input.map(…)]: one operator call per batch, an error item passes through. *)
Fixpoint map_stream (f : RecordBatch → Z → OpM RecordBatch) (items : list item) (o : GpuOperator) :
    GpuOperator * list (df_result RecordBatch) :=
  match items with
  | [] => (o, [])
  | (Ok b, elapsed) :: items =>
      let '(o, r) := f b elapsed o in
      let '(o, out) := map_stream f items o in
      (o, map_err to_datafusion r :: out)
  | (r, _) :: items =>
      let '(o, out) := map_stream f items o in (o, r :: out)
  end.

Section Execs.
Context `{Hardware, Allocator, CudaDriver, ArrowKernels, HashOrder, BatchSize} (env : option string).
Context {P : Type} `{!PlanNode P}.

(** A partition whose items go through the operator one by one. *)
Definition run_stream (name : string) (c : ExecConfig) (input : df_result (list item))
    (f : RecordBatch → Z → OpM RecordBatch) (w : World) :
    World * ExecConfig * df_result (list (df_result RecordBatch)) :=
  match input with
  | Err e => (w, c, Err e)
  | Panic => (w, c, Panic)
  | Ok items =>
      match config_operator env c name w with
      | (w, c, Err e) => (w, c, Err e)
      | (w, c, Panic) => (w, c, Panic)
      | (w, c, Ok o) => let '(o, out) := map_stream f items o in (store_stats c o w, c, Ok out)
      end
  end.

(** ** [GpuFilterExec] ([exec/filter.rs]) *)

Record GpuFilterExec := mkFilterExec {
  gf_input : P;
  gf_predicate : Predicate;
  gf_projection : list nat;
  gf_schema : Schema;
  gf_properties : PlanProperties;
  gf_config : ExecConfig;
}.

Definition GpuFilterExec_try_new (input : P) (predicate : Predicate) (projection : list nat)
    (target : BackendKind) : df_result GpuFilterExec :=
  let input_schema := node_schema input in
  _ ← validate_predicate input_schema predicate;
  if bool_decide (projection = [])
  then plan_err "GpuFilterExec: projection must select at least one column"
  else
    s ← map_err DFArrow (schema_project input_schema projection);
    Ok (mkFilterExec input predicate projection s
          (plan_properties s (node_partitioning input) Incremental) (ExecConfig_new target)).

Definition gf_with_config (f : ExecConfig → ExecConfig) (e : GpuFilterExec) : GpuFilterExec :=
  mkFilterExec (gf_input e) (gf_predicate e) (gf_projection e) (gf_schema e) (gf_properties e)
               (f (gf_config e)).

Definition gf_rebuild (e : GpuFilterExec) (input : P) : df_result GpuFilterExec :=
  exec ← GpuFilterExec_try_new input (gf_predicate e) (gf_projection e) (cfg_target (gf_config e));
  Ok (gf_with_config (λ _, gf_config e) exec).

Definition gf_with_new_children (e : GpuFilterExec) (children : list P) : df_result GpuFilterExec :=
  match children with
  | [input] => gf_rebuild e input
  | _ => Err (DFPlan "GpuFilterExec expects 1 child")
  end.

Definition gf_execute (e : GpuFilterExec) (input : df_result (list item)) (w : World) :
    World * GpuFilterExec * df_result (list (df_result RecordBatch)) :=
  let '(w, c, r) :=
    run_stream "GpuFilterExec" (gf_config e) input
      (λ b elapsed, op_filter_project b (gf_predicate e) (gf_projection e) elapsed) w in
  (w, gf_with_config (λ _, c) e, r).

(** ** [GpuHashJoinExec] ([exec/join.rs]) *)

Record GpuHashJoinExec := mkJoinExec {
  gj_left : P;
  gj_right : P;
  gj_left_key : nat;
  gj_right_key : nat;
  gj_projection : option (list nat);
  gj_schema : Schema;
  gj_properties : PlanProperties;
  gj_config : ExecConfig;
  (** [BuildOnce]: the collected build side, once a partition has started it *)
  gj_build : option (df_result JoinBuild);
}.

Definition joined_schema (left right : P) : Schema :=
  Schema_new (fields (node_schema left) ++ fields (node_schema right)).

Definition check_join_key (s : Schema) (key : nat) : df_result unit :=
  dt ← field_type s key "GpuHashJoinExec";
  if bool_decide (dt = Int64) then Ok tt
  else plan_err "GpuHashJoinExec: key column is not Int64".

Definition GpuHashJoinExec_try_new (left right : P) (left_key right_key : nat)
    (target : BackendKind) : df_result GpuHashJoinExec :=
  _ ← check_join_key (node_schema left) left_key;
  _ ← check_join_key (node_schema right) right_key;
  let s := joined_schema left right in
  Ok (mkJoinExec left right left_key right_key None s
        (plan_properties s (node_partitioning left) Incremental) (ExecConfig_new target) None).

Definition gj_with_projection (e : GpuHashJoinExec) (projection : option (list nat)) :
    df_result GpuHashJoinExec :=
  let full := joined_schema (gj_left e) (gj_right e) in
  s ← match projection with
      | Some [] => plan_err "GpuHashJoinExec: projection must select at least one column"
      | Some indices => map_err DFArrow (schema_project full indices)
      | None => Ok full
      end;
  Ok (mkJoinExec (gj_left e) (gj_right e) (gj_left_key e) (gj_right_key e) projection s
        (plan_properties s (node_partitioning (gj_left e)) Incremental) (gj_config e) (gj_build e)).

Definition gj_with_config (f : ExecConfig → ExecConfig) (e : GpuHashJoinExec) : GpuHashJoinExec :=
  mkJoinExec (gj_left e) (gj_right e) (gj_left_key e) (gj_right_key e) (gj_projection e)
    (gj_schema e) (gj_properties e) (f (gj_config e)) (gj_build e).
Definition gj_with_build (r : df_result JoinBuild) (e : GpuHashJoinExec) : GpuHashJoinExec :=
  mkJoinExec (gj_left e) (gj_right e) (gj_left_key e) (gj_right_key e) (gj_projection e)
    (gj_schema e) (gj_properties e) (gj_config e) (Some r).

Definition gj_with_new_children (e : GpuHashJoinExec) (children : list P) :
    df_result GpuHashJoinExec :=
  match children with
  | [l; r] =>
      exec ← GpuHashJoinExec_try_new l r (gj_left_key e) (gj_right_key e)
               (cfg_target (gj_config e));
      exec ← gj_with_projection exec (gj_projection e);
      Ok (gj_with_config (λ _, gj_config e) exec)
  | _ => Err (DFPlan "GpuHashJoinExec expects 2 children")
  end.

(** The build future: the collected batches, concatenated and hashed. *)
Definition build_side (e : GpuHashJoinExec) (collected : df_result (list RecordBatch)) :
    df_result JoinBuild :=
  bs ← collected;
  b ← map_err DFArrow (concat_batches (node_schema (gj_right e)) bs);
  map_err to_datafusion (JoinBuild_new b (gj_right_key e)).

(** [BuildOnce::get_or_init]; [collected] is what collecting the build child
    would give if it were collected now. *)
Definition BuildOnce_get_or_init (e : GpuHashJoinExec) (collected : df_result (list RecordBatch)) :
    GpuHashJoinExec * df_result JoinBuild :=
  match gj_build e with
  | Some r => (e, r)
  | None => let r := build_side e collected in (gj_with_build r e, r)
  end.

(** One partition: its probe stream, and the build child's batches. *)
Definition gj_execute (e : GpuHashJoinExec) (left : df_result (list item))
    (collected : df_result (list RecordBatch)) (w : World) :
    World * GpuHashJoinExec * df_result (list (df_result RecordBatch)) :=
  match left with
  | Err err => (w, e, Err err)
  | Panic => (w, e, Panic)
  | Ok items =>
      match config_operator env (gj_config e) "GpuHashJoinExec" w with
      | (w, c, Err err) => (w, gj_with_config (λ _, c) e, Err err)
      | (w, c, Panic) => (w, gj_with_config (λ _, c) e, Panic)
      | (w, c, Ok o) =>
          let '(e, build) := BuildOnce_get_or_init (gj_with_config (λ _, c) e) collected in
          match build with
          | Err err => (w, e, Ok [Err (DFShared err)])
          | Panic => (w, e, Ok [Panic])
          | Ok build =>
              let '(o, out) :=
                map_stream (λ b elapsed,
                  op_hash_join b build (gj_left_key e) (gj_projection e) elapsed) items o in
              (store_stats c o w, e, Ok out)
          end
      end
  end.

(** ** [GpuAggregateExec] ([exec/aggregate.rs]) *)

(** One aggregate's output field. *)
Definition aggregate_output_field (input : Schema) (agg : AggregateFunction * nat) :
    df_result Field :=
  let '(func, idx) := agg in
  dt ← field_type input idx "GpuAggregateExec aggregate input";
  if negb (bool_decide (dt = Int64) || bool_decide (dt = Float64))
  then plan_err "GpuAggregateExec: v1 supports Int64 and Float64"
  else
    let out_type := match func with Count => Int64 | Sum | Min | Max => dt end in
    f ← index (fields input) idx;
    Ok (Field_new (agg_name func +:+ "(" +:+ field_name f +:+ ")") out_type true).

Definition aggregate_output_schema (input : Schema) (spec : AggregateSpec) : df_result Schema :=
  key_type ← field_type input (group_by spec) "GpuAggregateExec group key";
  if negb (bool_decide (key_type = Int64))
  then plan_err "GpuAggregateExec: group key column is not Int64"
  else
    key ← index (fields input) (group_by spec);
    fs ← mapM (aggregate_output_field input) (aggregates spec);
    Ok (Schema_new (Field_new (field_name key) Int64 true :: fs)).

Record GpuAggregateExec := mkAggExec {
  ga_input : P;
  ga_spec : AggregateSpec;
  ga_schema : Schema;
  ga_properties : PlanProperties;
  ga_config : ExecConfig;
}.

Definition GpuAggregateExec_try_new (input : P) (spec : AggregateSpec) (target : BackendKind) :
    df_result GpuAggregateExec :=
  s ← aggregate_output_schema (node_schema input) spec;
  Ok (mkAggExec input spec s (plan_properties s (UnknownPartitioning 1) Final)
        (ExecConfig_new target)).

Definition ga_with_output_schema (e : GpuAggregateExec) (s : Schema) : df_result GpuAggregateExec :=
  if negb (length (fields s) =? length (fields (ga_schema e)))%nat
  then plan_err "GpuAggregateExec: planned schema has another number of fields"
  else if negb (forallb (λ '(planned, ours),
                  bool_decide (field_type_of planned = field_type_of ours))
                  (zip (fields s) (fields (ga_schema e))))
  then plan_err "GpuAggregateExec: planned field has another type"
  else Ok (mkAggExec (ga_input e) (ga_spec e) s (plan_properties s (UnknownPartitioning 1) Final)
             (ga_config e)).

Definition ga_with_config (f : ExecConfig → ExecConfig) (e : GpuAggregateExec) : GpuAggregateExec :=
  mkAggExec (ga_input e) (ga_spec e) (ga_schema e) (ga_properties e) (f (ga_config e)).

Definition ga_with_new_children (e : GpuAggregateExec) (children : list P) :
    df_result GpuAggregateExec :=
  match children with
  | [input] =>
      exec ← GpuAggregateExec_try_new input (ga_spec e) (cfg_target (ga_config e));
      exec ← ga_with_output_schema exec (ga_schema e);
      Ok (ga_with_config (λ _, ga_config e) exec)
  | _ => Err (DFPlan "GpuAggregateExec expects 1 child")
  end.

(** The body of the one-item stream, after the operator is built. *)
Definition aggregate_item (e : GpuAggregateExec) (collected : df_result (list RecordBatch))
    (elapsed : Z) (o : GpuOperator) : GpuOperator * df_result RecordBatch :=
  match (bs ← collected; map_err DFArrow (concat_batches (node_schema (ga_input e)) bs)) with
  | Err err => (o, Err err)
  | Panic => (o, Panic)
  | Ok all =>
      let '(o, r) := op_aggregate all (ga_spec e) elapsed o in
      (o, out ← map_err to_datafusion r;
          map_err DFArrow (batch_try_new (ga_schema e) (columns out)))
  end.

Definition ga_execute (e : GpuAggregateExec) (partition : nat)
    (collected : df_result (list RecordBatch)) (elapsed : Z) (w : World) :
    World * GpuAggregateExec * df_result (list (df_result RecordBatch)) :=
  if negb (partition =? 0)%nat
  then (w, e, Err (DFInternal "GpuAggregateExec has a single output partition"))
  else
    match config_operator env (ga_config e) "GpuAggregateExec" w with
    | (w, c, Err err) => (w, ga_with_config (λ _, c) e, Err err)
    | (w, c, Panic) => (w, ga_with_config (λ _, c) e, Panic)
    | (w, c, Ok o) =>
        let '(o, r) := aggregate_item e collected elapsed o in
        (store_stats c o w, ga_with_config (λ _, c) e, Ok [r])
    end.

(** ** [GpuVectorDistanceExec] ([exec/vector.rs]) *)

Record GpuVectorDistanceExec := mkVectorExec {
  gv_input : P;
  gv_column : nat;
  gv_query : list f32;
  gv_metric : DistanceMetric;
  gv_output_name : string;
  gv_schema : Schema;
  gv_properties : PlanProperties;
  gv_config : ExecConfig;
}.

Definition GpuVectorDistanceExec_try_new (input : P) (column : nat) (query : list f32)
    (metric : DistanceMetric) (output_name : string) (target : BackendKind) :
    df_result GpuVectorDistanceExec :=
  let input_schema := node_schema input in
  dt ← field_type input_schema column "GpuVectorDistanceExec";
  dim ← ok_or (vector_dimension dt) (DFPlan "GpuVectorDistanceExec: expected FixedSizeList<Float32>");
  if negb (Z.of_nat (length query) =? dim)
  then plan_err "GpuVectorDistanceExec: query and column dimensions differ"
  else
    let s := Schema_new (fields input_schema ++ [Field_new output_name Float32 true]) in
    Ok (mkVectorExec input column query metric output_name s
          (plan_properties s (node_partitioning input) Incremental) (ExecConfig_new target)).

Definition gv_with_config (f : ExecConfig → ExecConfig) (e : GpuVectorDistanceExec) :
    GpuVectorDistanceExec :=
  mkVectorExec (gv_input e) (gv_column e) (gv_query e) (gv_metric e) (gv_output_name e)
    (gv_schema e) (gv_properties e) (f (gv_config e)).

Definition gv_with_new_children (e : GpuVectorDistanceExec) (children : list P) :
    df_result GpuVectorDistanceExec :=
  match children with
  | [input] =>
      exec ← GpuVectorDistanceExec_try_new input (gv_column e) (gv_query e) (gv_metric e)
               (gv_output_name e) (cfg_target (gv_config e));
      Ok (gv_with_config (λ _, gv_config e) exec)
  | _ => Err (DFPlan "GpuVectorDistanceExec expects 1 child")
  end.

Definition gv_execute (e : GpuVectorDistanceExec) (input : df_result (list item)) (w : World) :
    World * GpuVectorDistanceExec * df_result (list (df_result RecordBatch)) :=
  let '(w, c, r) :=
    run_stream "GpuVectorDistanceExec" (gv_config e) input
      (λ b elapsed, op_vector_distance b (gv_column e) (gv_query e) (gv_metric e)
         (gv_output_name e) elapsed) w in
  (w, gv_with_config (λ _, c) e, r).
End Execs.
Arguments GpuFilterExec P : clear implicits.
Arguments GpuHashJoinExec P : clear implicits.
Arguments GpuAggregateExec P : clear implicits.
Arguments GpuVectorDistanceExec P : clear implicits.
