(* ===== verification/ExecsCorrect.v ===== *)
(** * The plan nodes deliver the rows of the whole query

    Properties of [Execs]: the process backend is decided once; a node that
    [try_new] accepts never meets an ill-typed batch and its streams deliver,
    batch by batch, the filter, join, aggregate or distance of the whole input;
    a node's telemetry is one registration that counts exactly what its
    partitions delivered. *)

From S2P Require Import Prelude Floats Arrow Core Telemetry Memory ArrowKernels Kernels.
From S2P Require Import FilterCorrect JoinCorrect AggregateCorrect VectorCorrect.
From S2P Require Import ConcatCorrect Device DeviceCorrect Operator OperatorCorrect Execs.

(** ** The process backend *)

Inductive BackendCall := CallLocal | CallInit (requested : option string).

Section LocalBackend.
Context `{Hardware, Allocator, CudaDriver, ArrowKernels, HashOrder} (env : option string).

Definition backend_call (c : BackendCall) (w : World) : World * result GpuBackend :=
  match c with
  | CallLocal => local_backend env w
  | CallInit r => init_local_backend env r w
  end.

Fixpoint backend_calls (cs : list BackendCall) (w : World) : list (result GpuBackend) :=
  match cs with
  | [] => []
  | c :: cs => let '(w, r) := backend_call c w in r :: backend_calls cs w
  end.

Lemma backend_calls_decided cs w r :
  w_local w = Some r →
  backend_calls cs w
  = (λ c, match c with
          | CallLocal => local_answer r
          | CallInit _ => Err (Execution "the process backend was already selected")
          end) <$> cs.
Proof.
  intros Hw. induction cs as [|c cs IH]; [done|]. cbn.
  destruct c as [|q]; cbn; unfold local_backend, init_local_backend; rewrite Hw;
    rewrite IH; done.
Qed.

(** the backend of a process is decided by its first call and never again:
    an explicit choice made first wins over the environment, every later
    [local_backend] gives the same answer (a failed selection stays a failure,
    it never becomes another backend), and a later explicit choice is refused. *)
Theorem local_backend_once hubs c cs :
  let selected := match c with
                  | CallLocal => select_with env
                  | CallInit requested => select_with requested
                  end in
  backend_calls (c :: cs) (mkWorld None hubs)
  = local_answer selected ::
    ((λ c, match c with
           | CallLocal => local_answer selected
           | CallInit _ => Err (Execution "the process backend was already selected")
           end) <$> cs) ∧
  ∀ g, local_answer selected = Ok g ↔ selected = Ok g.
Proof.
  intros selected. split.
  - destruct c as [|q]; cbn; by rewrite (backend_calls_decided _ _ selected).
  - intros g. destruct selected; cbn; split; congruence.
Qed.
End LocalBackend.

(** ** What a stream delivers *)

(** A batch's outcome against the batch it should be: the rows, or, on a GPU
    only, a failure of the device that is not a refusal. *)
Definition delivers (g : GpuBackend) (ref : RecordBatch) (r : df_result RecordBatch) : Prop :=
  match r with
  | Ok out => same_rows out ref
  | Err e => is_gpu (gb_kind g) = true ∧ ∃ x, e = to_datafusion x ∧ is_unsupported x = false
  | Panic => is_gpu (gb_kind g) = true
  end.

Definition ok_item (be : RecordBatch * Z) : item := (Ok be.1, be.2).

Lemma map_stream_spec f (I : GpuOperator → Prop) (R : RecordBatch → df_result RecordBatch → Prop) bes o :
  I o →
  Forall (λ be, ∀ o, I o → I (f be.1 be.2 o).1 ∧ R be.1 (map_err to_datafusion (f be.1 be.2 o).2)) bes →
  I (map_stream f (ok_item <$> bes) o).1 ∧
  Forall2 (λ be r, R be.1 r) bes (map_stream f (ok_item <$> bes) o).2.
Proof.
  intros Ho Hf. revert o Ho. induction Hf as [|[b el] bes Hb _ IH]; intros o Ho; [done|]. cbn in *.
  destruct (Hb o Ho) as [Ho' HR]. destruct (f b el o) as [o1 r1]. cbn in *.
  specialize (IH o1 Ho'). destruct (map_stream f (ok_item <$> bes) o1) as [o2 outs]. cbn in *.
  destruct IH. split; [done|]. by constructor.
Qed.

Lemma op_outcome_backend o n el ref res :
  op_outcome o n el ref res → op_backend res.1 = op_backend o.
Proof.
  intros [o1 Hs|o1 out ref' moved Hs _ _|o1 r Hs _ _]; cbn.
  - rewrite <- (so_backend _ _ Hs). by destruct ref.
  - apply (so_backend _ _ Hs).
  - apply (so_backend _ _ Hs).
Qed.

Lemma op_outcome_delivers g o n el ref res :
  op_outcome o n el (Ok ref) res → op_backend o = g →
  (is_gpu (gb_kind g) = false → res.2 = Ok ref) →
  delivers g ref (map_err to_datafusion res.2).
Proof.
  intros Hout Hg Hcpu. destruct (is_gpu (gb_kind g)) eqn:Egpu.
  2: { by rewrite Hcpu. }
  destruct Hout as [o1 Hs|o1 out ref' moved Hs [= <-] Hsame|o1 r Hs Hbad Hh]; cbn; [done|done|].
  destruct r as [a|e|]; cbn; [done| |done]. split; [done|]. exists e. split; [done|by apply Hh].
Qed.

(** The parts of a node's outcome that the hub sees. *)
Lemma op_outcome_stats o n el ref res s :
  op_outcome o n el ref res → op_stats o = Some s →
  ∃ s', op_stats res.1 = Some s' ∧
    os_id s' = os_id s ∧ os_name s' = os_name s ∧ os_backend s' = os_backend s ∧
    match res.2 with
    | Ok out => batches s' = wadd64 (batches s) 1 ∧ rows_in s' = wadd64 (rows_in s) (Z.of_nat n) ∧
                rows_out s' = wadd64 (rows_out s) (Z.of_nat (num_rows out))
    | _ => batches s' = batches s ∧ rows_in s' = rows_in s ∧ rows_out s' = rows_out s
    end.
Proof.
  intros Hout Hs. destruct s.
  destruct Hout as [o1 Hso|o1 out ref' moved Hso _ _|o1 r Hso Hbad Hh]; cbn.
  - destruct ref as [out|e|]; unfold record, fell_back; cbn; rewrite (so_stats _ _ Hso), Hs; cbn;
      eexists; split_and!; done.
  - unfold record. destruct moved. cbn. rewrite (so_stats _ _ Hso), Hs. cbn.
    eexists; split_and!; done.
  - rewrite (so_stats _ _ Hso). eexists. split; [done|]. destruct r; [done|..]; split_and!; done.
Qed.

(** ** Construction *)

Lemma field_type_Ok s i what dt :
  field_type s i what = Ok dt ↔ ∃ f, fields s !! i = Some f ∧ field_type_of f = dt.
Proof.
  unfold field_type. destruct (fields s !! i) as [f|]; cbn; split; try done.
  - intros [= <-]. by exists f.
  - intros (g & [= <-] & <-). done.
  - by intros (g & ? & _).
Qed.

Lemma validate_leaves_Ok s p : validate_predicate_leaves s p = Ok tt ↔ pred_typed s p.
Proof.
  induction p as [c op lit|p1 IH1 p2 IH2]; cbn.
  - split.
    + intros (dt & (f & Hf & <-)%field_type_Ok & Hd)%bind_Ok_inv.
      case_bool_decide as E; [|done]. by exists f.
    + intros (f & Hf & Ht). rewrite (proj2 (field_type_Ok _ _ _ (literal_data_type lit)))
        by (by exists f). cbn. by rewrite bool_decide_eq_true_2.
  - rewrite <- IH1, <- IH2. destruct (validate_predicate_leaves s p1) as [[]|e|]; cbn; intuition done.
Qed.

Lemma validate_predicate_Ok s p :
  validate_predicate s p = Ok tt ↔ pred_typed s p ∧ (leaf_count p ≤ MAX_PREDICATE_LEAVES)%nat.
Proof.
  unfold validate_predicate. rewrite <- validate_leaves_Ok.
  destruct (Nat.ltb_spec MAX_PREDICATE_LEAVES (leaf_count p)); split; try done.
  - intros [_ ?]. lia.
  - by intros [? _].
Qed.

Section Execs.
Context `{Hardware, Allocator, CudaDriver, !ArrowKernels, !ArrowLaws, !HashOrder, !HashOrderLaw,
  !BatchSize} (env : option string).
Context {P : Type} `{!PlanNode P}.

Lemma schema_project_Ok s idx s' :
  schema_project s idx = Ok s' ↔
  ∃ fs, mapM (λ i, fields s !! i) idx = Some fs ∧ s' = mkSchema fs (schema_metadata s).
Proof.
  split.
  - intros Hs. destruct (mapM (λ i, fields s !! i) idx) as [fs|] eqn:Hm.
    + rewrite (schema_project_law _ _ _ Hm) in Hs. injection Hs as <-. by exists fs.
    + apply mapM_None_1, Exists_exists in Hm as (i & Hi & Hn).
      apply lookup_ge_None in Hn. by destruct (schema_project_range_law s idx i Hi Hn) as [e He]; rewrite He in Hs.
  - intros (fs & Hm & ->). by apply schema_project_law.
Qed.

Lemma filter_try_new_Ok (input : P) p projection target e :
  GpuFilterExec_try_new input p projection target = Ok e ↔
  pred_typed (node_schema input) p ∧ (leaf_count p ≤ MAX_PREDICATE_LEAVES)%nat ∧
  projection ≠ [] ∧ ∃ fs, mapM (λ i, fields (node_schema input) !! i) projection = Some fs ∧
  let s := mkSchema fs (schema_metadata (node_schema input)) in
  e = mkFilterExec input p projection s
        (plan_properties s (node_partitioning input) Incremental) (ExecConfig_new target).
Proof.
  unfold GpuFilterExec_try_new. split.
  - intros ([] & [Hp Hl]%validate_predicate_Ok & Hk)%bind_Ok_inv.
    case_bool_decide as Hne; [done|]. apply bind_Ok_inv in Hk as (s & Hs & [= <-]).
    destruct (schema_project _ _) as [s'|?|] eqn:Hs'; [|done..]. injection Hs as ->.
    apply schema_project_Ok in Hs' as (fs & Hm & ->). eauto 10.
  - intros (Hp & Hl & Hne & fs & Hm & ->).
    rewrite (proj2 (validate_predicate_Ok _ _)) by done. cbn.
    rewrite bool_decide_eq_false_2 by done. by rewrite (schema_project_law _ _ _ Hm).
Qed.

(** *** The filter *)

Lemma op_filter_cpu b p projection el o ref :
  is_gpu (gb_kind (op_backend o)) = false → filter_project b p projection = Ok ref →
  (op_filter_project b p projection el o).2 = Ok ref.
Proof. intros Hg Hr. unfold op_filter_project, no_device_path. by rewrite Hg, Hr. Qed.

Lemma run_stream_Ok name c items f w w1 c1 o :
  config_operator env c name w = (w1, c1, Ok o) →
  run_stream env name c (Ok items) f w
  = (store_stats c1 (map_stream f items o).1 w1, c1, Ok (map_stream f items o).2).
Proof. intros Hc. unfold run_stream. rewrite Hc. by destruct (map_stream f items o). Qed.

Lemma same_rows_concat s outs refs :
  Forall2 same_rows outs refs → batches_concat s outs = batches_concat s refs.
Proof.
  intros Hs. unfold batches_concat. f_equal.
  - apply imap_ext. intros i f _. f_equal.
    induction Hs as [|a b outs refs Hab _ IH]; [done|]. cbn. rewrite IH. f_equal.
    unfold column_values. by rewrite (sr_columns _ _ Hab).
  - induction Hs as [|a b outs refs Hab _ IH]; [done|]. cbn. by rewrite IH, (sr_rows _ _ Hab).
Qed.

(** C34: a filter node that [try_new] accepts, on any backend that meets its
    contract: no batch of its input's schema is ever refused, every batch comes
    out as its accepted rows under the node's schema (or as a device failure,
    on a GPU only), and when all of them do, the output stream is the filter of
    the whole input, wherever its batch boundaries are. *)
Theorem filter_exec_correct g `{!BackendContract g} (input : P) p projection target e0 c w w1 c1 o bes :
  GpuFilterExec_try_new input p projection target = Ok e0 →
  let e := gf_with_config (λ _, c) e0 in
  config_operator env c "GpuFilterExec" w = (w1, c1, Ok o) → op_backend o = g →
  Forall (typed (node_schema input)) bes.*1 →
  Forall (λ b, Z.of_nat (num_rows b) ≤ i64_max) bes.*1 →
  ∃ refs outs, (gf_execute env e (Ok (ok_item <$> bes)) w).2 = Ok outs ∧
    Forall2 (λ b ref, filter_project b p projection = Ok ref ∧ typed (gf_schema e) ref) bes.*1 refs ∧
    Forall2 (delivers g) refs outs ∧
    ∀ outs', outs = Ok <$> outs' →
      ∃ whole, filter_project (batches_concat (node_schema input) bes.*1) p projection = Ok whole ∧
        same_rows (batches_concat (gf_schema e) outs') whole.
Proof.
  intros (Hp & _ & Hne & fs & Hfs & ->)%filter_try_new_Ok e Hc Hg Hbs Hrows.
  set (ref b := masked b (pred_mask (column_values b) p) fs projection).
  set (f := λ b elapsed, op_filter_project b p projection elapsed).
  destruct (map_stream_spec f (λ o, op_backend o = g) (λ b r, delivers g (ref b) r) bes o Hg)
    as [_ Hdel].
  { apply Forall_forall. intros [b el] Hin. cbn. intros o' Ho'.
    assert (b ∈ bes.*1) as Hb by (apply list_elem_of_fmap; by exists (b, el)).
    rewrite Forall_forall in Hbs, Hrows.
    destruct (filter_project_mask _ b p projection fs (Hbs b Hb) Hp Hfs) as [Href _].
    pose proof (op_filter_outcome b p projection el o' Ho' (proj1 (Hbs b Hb)) (Hrows b Hb)) as Hout.
    split; [by etransitivity; [exact (op_outcome_backend _ _ _ _ _ Hout)|]|]. rewrite Href in Hout.
    eapply op_outcome_delivers; [exact Hout|done|]. intros Hcpu. apply op_filter_cpu; [by rewrite Ho'|done]. }
  set (outs := (map_stream f (ok_item <$> bes) o).2) in *.
  exists (ref <$> bes.*1), outs. split_and!.
  - unfold gf_execute, e. cbn [gf_config gf_with_config].
    by rewrite (run_stream_Ok _ _ _ _ _ _ _ _ Hc).
  - apply Forall2_fmap_r, Forall_Forall2_diag. eapply Forall_impl; [exact Hbs|]. intros b Hb.
    apply (filter_project_mask _ b p projection fs Hb Hp Hfs).
  - rewrite <- list_fmap_compose. apply Forall2_fmap_l. exact Hdel.
  - intros outs' Hok. rewrite (filter_concat (node_schema input) bes.*1 p projection fs Hbs Hp Hfs).
    eexists. split; [done|]. rewrite Hok in Hdel. apply Forall2_fmap_r in Hdel.
    assert (Forall2 same_rows outs' (ref <$> bes.*1)) as Hsame.
    { rewrite <- list_fmap_compose. apply Forall2_fmap_r. apply Forall2_flip. exact Hdel. }
    cbn [gf_schema e gf_with_config].
    rewrite (same_rows_concat _ _ _ Hsame). split; reflexivity.
Qed.

(** *** What the hub records *)

(** The batches that came out. *)
Definition delivered (outs : list (df_result RecordBatch)) : list RecordBatch := omap res_ok outs.
Definition delivered_rows (outs : list (df_result RecordBatch)) : Z :=
  sumZ (λ b, Z.of_nat (num_rows b)) (delivered outs).

(** [s'] is [s] after [outs] were recorded. *)
Record recorded (s s' : OperatorStats) (outs : list (df_result RecordBatch)) : Prop := {
  rec_id : os_id s' = os_id s;
  rec_name : os_name s' = os_name s;
  rec_backend : os_backend s' = os_backend s;
  rec_batches : batches s' = wadd64 (batches s) (Z.of_nat (length (delivered outs)));
  rec_rows : rows_out s' = wadd64 (rows_out s) (delivered_rows outs);
}.

Definition counters_ok (s : OperatorStats) : Prop := is_u64 (batches s) ∧ is_u64 (rows_out s).

Lemma recorded_nil s : counters_ok s → recorded s s [].
Proof.
  intros [Hb Hr]. split; try done; rewrite wadd64_small; cbn; unfold is_u64 in *; lia.
Qed.

Lemma recorded_app s s1 s2 outs1 outs2 :
  recorded s s1 outs1 → recorded s1 s2 outs2 → recorded s s2 (outs1 ++ outs2).
Proof.
  intros [] []. split; try congruence; unfold delivered_rows, delivered in *.
  - rewrite omap_app, length_app, Nat2Z.inj_add. rewrite rec_batches1, rec_batches0.
    by rewrite wadd64_wadd64.
  - rewrite omap_app, sumZ_app. rewrite rec_rows1, rec_rows0. by rewrite wadd64_wadd64.
Qed.

Lemma recorded_counters s s' outs : recorded s s' outs → counters_ok s'.
Proof.
  intros []. split; [rewrite rec_batches0|rewrite rec_rows0]; apply wrap64_range.
Qed.

Lemma op_outcome_recorded o n el ref res s :
  op_outcome o n el ref res → op_stats o = Some s → counters_ok s →
  ∃ s', op_stats res.1 = Some s' ∧ recorded s s' [map_err to_datafusion res.2].
Proof.
  intros Hout Hs [Hb Hr]. destruct (op_outcome_stats _ _ _ _ _ _ Hout Hs)
    as (s' & Hs' & Hid & Hname & Hbk & Hcnt).
  exists s'. split; [done|]. unfold is_u64 in *.
  destruct (res.2) as [out|e|]; cbn in *; destruct Hcnt as (Hcb & _ & Hcr);
    split; try done; unfold delivered_rows; cbn; rewrite ?Z.add_0_r; try done;
    rewrite wadd64_small; unfold is_u64; lia.
Qed.

Lemma map_stream_recorded f g bes o s :
  op_backend o = g → op_stats o = Some s → counters_ok s →
  Forall (λ be, ∀ o, op_backend o = g →
    ∃ ref, op_outcome o (num_rows be.1) be.2 ref (f be.1 be.2 o)) bes →
  ∃ s', op_stats (map_stream f (ok_item <$> bes) o).1 = Some s' ∧
    recorded s s' (map_stream f (ok_item <$> bes) o).2.
Proof.
  intros Hg Hs Hc Hf. revert o s Hg Hs Hc. induction Hf as [|[b el] bes Hb _ IH]; intros o s Hg Hs Hc.
  { exists s. split; [done|]. by apply recorded_nil. }
  cbn in *. destruct (Hb o Hg) as [ref Hout].
  destruct (op_outcome_recorded _ _ _ _ _ _ Hout Hs Hc) as (s1 & Hs1 & Hr1).
  pose proof (op_outcome_backend _ _ _ _ _ Hout) as Hg1. destruct (f b el o) as [o1 r1]. cbn in *.
  destruct (IH o1 s1 ltac:(congruence) Hs1 (recorded_counters _ _ _ Hr1)) as (s2 & Hs2 & Hr2).
  destruct (map_stream f (ok_item <$> bes) o1) as [o2 outs]. cbn in *. exists s2. split; [done|].
  exact (recorded_app _ _ _ _ _ Hr1 Hr2).
Qed.

(** The hub holds the node's registration as the last entry of its heap. *)
Definition registered (w : World) (h : nat) (old : list OperatorStats) (s : OperatorStats) : Prop :=
  ∃ hub, w_hubs w !! h = Some hub ∧ hub_heap hub = old ++ [s].

Lemma GpuOperator_new_stats g st o :
  GpuOperator_new g None = Ok o →
  GpuOperator_new g st = Ok (mkOperator g (op_streams o) 0 st None false).
Proof.
  unfold GpuOperator_new. intros (ss & Hss & [= <-])%bind_Ok_inv. by rewrite Hss.
Qed.

Lemma config_operator_first c name w g h hub o :
  cfg_backend c = Some g → cfg_telemetry c = Some h → cfg_stats c = None →
  w_hubs w !! h = Some hub → GpuOperator_new g None = Ok o →
  let s := OperatorStats_new (next_operator_id hub) name (cfg_target c) in
  ∃ w1, config_operator env c name w
    = (w1, mkConfig (cfg_target c) (Some g) (Some h) (Some (length (hub_heap hub))),
       Ok (mkOperator g (op_streams o) 0 (Some s) None false)) ∧
    registered w1 h (hub_heap hub) s.
Proof.
  intros Hb Ht Hst Hh Ho s. unfold config_operator. rewrite Hb, Ht, Hst, Hh. cbn.
  unfold stats_of. cbn. rewrite (list_lookup_insert_eq (w_hubs w) h).
  2: { by eapply lookup_lt_Some. }
  cbn. rewrite list_lookup_middle by done.
  rewrite (GpuOperator_new_stats g _ o Ho). cbn. eexists. split; [done|].
  unfold registered. cbn. rewrite (list_lookup_insert_eq (w_hubs w) h).
  - eexists. split; [done|]. done.
  - by eapply lookup_lt_Some.
Qed.

Lemma config_operator_again c name w g h old s o :
  cfg_backend c = Some g → cfg_telemetry c = Some h → cfg_stats c = Some (length old) →
  registered w h old s → GpuOperator_new g None = Ok o →
  config_operator env c name w
  = (w, c, Ok (mkOperator g (op_streams o) 0 (Some s) None false)).
Proof.
  intros Hb Ht Hst (hub & Hh & Hheap) Ho. unfold config_operator. rewrite Hb, Ht, Hst. cbn.
  rewrite Ht, Hst. cbn. unfold stats_of. rewrite Hh. cbn. rewrite Hheap, list_lookup_middle by done.
  by rewrite (GpuOperator_new_stats g _ o Ho).
Qed.

Lemma store_stats_registered c o w h old s s' :
  cfg_telemetry c = Some h → cfg_stats c = Some (length old) → op_stats o = Some s' →
  registered w h old s → registered (store_stats c o w) h old s'.
Proof.
  intros Ht Hst Hs (hub & Hh & Hheap). unfold store_stats. rewrite Ht, Hst, Hs.
  exists (with_stats (length old) (λ _, s') hub). cbn. rewrite list_lookup_alter_eq, Hh.
  split; [done|]. cbn. rewrite Hheap. rewrite alter_app_r_alt, Nat.sub_diag by done. done.
Qed.

(** The partitions of one filter node, executed one after the other. *)
Fixpoint gf_run (e : GpuFilterExec P) (parts : list (list (RecordBatch * Z))) (w : World) :
    World * GpuFilterExec P * list (df_result RecordBatch) :=
  match parts with
  | [] => (w, e, [])
  | bes :: parts =>
      let '(w, e, r) := gf_execute env e (Ok (ok_item <$> bes)) w in
      let '(w, e, rest) := gf_run e parts w in
      (w, e, match r with Ok outs => outs | _ => [] end ++ rest)
  end.

Lemma gf_run_registered g `{!BackendContract g} parts e w h old s o :
  cfg_backend (gf_config e) = Some g → cfg_telemetry (gf_config e) = Some h →
  cfg_stats (gf_config e) = Some (length old) →
  registered w h old s → counters_ok s → GpuOperator_new g None = Ok o →
  Forall (Forall (λ be, batch_ok be.1 ∧ Z.of_nat (num_rows be.1) ≤ i64_max)) parts →
  ∃ w' e' outs s', gf_run e parts w = (w', e', outs) ∧ registered w' h old s' ∧ recorded s s' outs.
Proof.
  intros Hb Ht Hst Hreg Hs Ho Hparts. revert e w s Hb Ht Hst Hreg Hs.
  induction Hparts as [|bes parts Hbes _ IH]; intros e w s Hb Ht Hst Hreg Hs.
  { exists w, e, [], s. split; [done|]. split; [done|]. by apply recorded_nil. }
  set (f := λ b elapsed, op_filter_project b (gf_predicate e) (gf_projection e) elapsed).
  pose proof (config_operator_again _ "GpuFilterExec" _ _ _ _ _ _ Hb Ht Hst Hreg Ho) as Hc.
  set (o1 := mkOperator _ _ _ _ _ _) in Hc.
  destruct (map_stream_recorded f g bes o1 s) as (s1 & Hs1 & Hr1); [done..| |].
  { eapply Forall_impl; [exact Hbes|]. intros [b el] [Hbo Hn] o2 Ho2. eexists.
    by apply op_filter_outcome. }
  cbn [gf_run]. unfold gf_execute. fold f. rewrite (run_stream_Ok _ _ _ _ _ _ _ _ Hc).
  destruct (IH (gf_with_config (λ _, gf_config e) e)
    (store_stats (gf_config e) (map_stream f (ok_item <$> bes) o1).1 w) s1)
    as (w' & e' & outs & s' & -> & Hreg' & Hrec'); [done..| |by eapply recorded_counters|].
  { by eapply store_stats_registered. }
  do 4 eexists. split; [done|]. split; [done|]. by eapply recorded_app.
Qed.

(** one filter node executed over any number of partitions registers in
    its hub once, under its own name and planned target, leaves every other
    registration alone, and its counters end as the number of batches and rows
    its partitions delivered (modulo [2^64]). *)
Theorem exec_telemetry g `{!BackendContract g} (e : GpuFilterExec P) h hub w o bes parts :
  cfg_backend (gf_config e) = Some g → cfg_telemetry (gf_config e) = Some h →
  cfg_stats (gf_config e) = None → w_hubs w !! h = Some hub → GpuOperator_new g None = Ok o →
  Forall (Forall (λ be, batch_ok be.1 ∧ Z.of_nat (num_rows be.1) ≤ i64_max)) (bes :: parts) →
  ∃ w' e' outs hub' s, gf_run e (bes :: parts) w = (w', e', outs) ∧
    w_hubs w' !! h = Some hub' ∧ hub_heap hub' = hub_heap hub ++ [s] ∧
    os_id s = next_operator_id hub ∧ os_name s = "GpuFilterExec" ∧
    os_backend s = cfg_target (gf_config e) ∧
    batches s = wrap64 (Z.of_nat (length (delivered outs))) ∧
    rows_out s = wrap64 (delivered_rows outs).
Proof.
  intros Hb Ht Hst Hh Ho Hparts.
  destruct (config_operator_first _ "GpuFilterExec" w g h hub o Hb Ht Hst Hh Ho) as (w1 & Hc & Hreg).
  set (c1 := mkConfig _ _ _ _) in Hc. set (s0 := OperatorStats_new _ _ _) in *.
  assert (counters_ok s0) as Hs0 by (split; cbn; unfold is_u64, U64; lia).
  destruct (gf_run_registered g (bes :: parts) (gf_with_config (λ _, c1) e) w1 h (hub_heap hub) s0 o)
    as (w' & e' & outs & s' & Hrun & (hub' & Hhub & Hheap) & Hrec); [done..|].
  assert (gf_run e (bes :: parts) w = gf_run (gf_with_config (λ _, c1) e) (bes :: parts) w1) as Heq.
  { cbn [gf_run]. unfold gf_execute. cbn [gf_config gf_with_config gf_predicate gf_projection].
    rewrite (run_stream_Ok _ _ _ _ _ _ _ _ Hc).
    pose proof (config_operator_again c1 "GpuFilterExec" w1 g h (hub_heap hub) s0 o) as Hc1.
    rewrite (run_stream_Ok _ _ _ _ _ _ _ _ (Hc1 eq_refl eq_refl eq_refl Hreg Ho)). done. }
  exists w', e', outs, hub', s'. rewrite Heq. destruct Hrec. split_and!; try done.
Qed.

(** *** The join *)

Lemma check_join_key_Ok s key :
  check_join_key s key = Ok tt ↔ ∃ f, fields s !! key = Some f ∧ field_type_of f = Int64.
Proof.
  unfold check_join_key. split.
  - intros (dt & (f & Hf & <-)%field_type_Ok & Hd)%bind_Ok_inv.
    case_bool_decide; [|done]. by exists f.
  - intros (f & Hf & Ht). rewrite (proj2 (field_type_Ok _ _ _ Int64)) by (by exists f). cbn.
    by rewrite bool_decide_eq_true_2.
Qed.

Lemma join_new_Ok (l r : P) lkey rkey target projection e0 e :
  GpuHashJoinExec_try_new l r lkey rkey target = Ok e0 → gj_with_projection e0 projection = Ok e →
  (∃ f, fields (node_schema l) !! lkey = Some f ∧ field_type_of f = Int64) ∧
  (∃ f, fields (node_schema r) !! rkey = Some f ∧ field_type_of f = Int64) ∧
  ∃ fs, let sel := match projection with
                   | Some ix => ix
                   | None => seq 0 (length (fields (node_schema l) ++ fields (node_schema r)))
                   end in
    sel ≠ [] ∧
    mapM (λ i, (fields (node_schema l) ++ fields (node_schema r)) !! i) sel = Some fs ∧
    e = mkJoinExec l r lkey rkey projection (Schema_new fs)
          (plan_properties (Schema_new fs) (node_partitioning l) Incremental)
          (ExecConfig_new target) None.
Proof.
  unfold GpuHashJoinExec_try_new. intros ([] & Hl & Hk)%bind_Ok_inv Hp.
  apply bind_Ok_inv in Hk as ([] & Hr & [= <-]).
  apply check_join_key_Ok in Hl, Hr. split; [done|]. split; [done|].
  unfold gj_with_projection in Hp. apply bind_Ok_inv in Hp as (s & Hs & [= <-]). cbn in *.
  destruct projection as [[|i ix]|].
  - done.
  - destruct (schema_project _ _) as [s'|?|] eqn:Hs'; [|done..]. injection Hs as ->.
    apply schema_project_Ok in Hs' as (fs & Hm & ->). by exists fs.
  - injection Hs as <-. eexists. split; [|split; [apply list_as_seq|done]].
    destruct Hl as (f & Hf & _). destruct (fields (node_schema l)); done.
Qed.

Lemma op_join_cpu b build lkey projection el o ref :
  is_gpu (gb_kind (op_backend o)) = false →
  hash_join_probe b lkey (jb_batch build) (jb_table build) projection = Ok ref →
  (op_hash_join b build lkey projection el o).2 = Ok ref.
Proof. intros Hg Hr. unfold op_hash_join, no_device_path. by rewrite Hg, Hr. Qed.

(** The partitions of one join node, executed one after the other: the probe
    batches of each, and what collecting the build child would give then. *)
Fixpoint gj_run (e : GpuHashJoinExec P)
    (parts : list (list (RecordBatch * Z) * df_result (list RecordBatch))) (w : World) :
    World * GpuHashJoinExec P * list (df_result RecordBatch) :=
  match parts with
  | [] => (w, e, [])
  | (bes, collected) :: parts =>
      let '(w, e, r) := gj_execute env e (Ok (ok_item <$> bes)) collected w in
      let '(w, e, rest) := gj_run e parts w in
      (w, e, match r with Ok outs => outs | _ => [] end ++ rest)
  end.

(** One partition against a prepared build side. *)
Lemma join_stream_delivers g `{!BackendContract g} s build rk lkey kf projection fs bes o :
  op_backend o = g → op_device_build o = None → join_build_ok build rk →
  fields s !! lkey = Some kf → field_type_of kf = Int64 →
  let sel := join_selection s (jb_batch build) projection in
  sel ≠ [] → mapM (λ i, (fields s ++ fields (schema (jb_batch build))) !! i) sel = Some fs →
  Forall (typed s) bes.*1 → Forall (λ b, Z.of_nat (num_rows b) ≤ U32) bes.*1 →
  Forall2 (λ be r, delivers g
      (probe_output (length (fields s)) be.1 (jb_batch build)
         (join_pairs (key_list (column_values be.1 lkey)) rk) fs sel) r)
    bes (map_stream (λ b el, op_hash_join b build lkey projection el) (ok_item <$> bes) o).2.
Proof.
  intros Hg Hnone Hbuild Hk Ht sel Hne Hfs Hbs Hrows.
  apply (map_stream_spec _ (λ o, op_backend o = g ∧
    build_cached build (length (fields s)) projection o)
    (λ b r, delivers g (probe_output (length (fields s)) b (jb_batch build)
         (join_pairs (key_list (column_values b lkey)) rk) fs sel) r)).
  { split; [done|]. unfold build_cached. by rewrite Hnone. }
  apply Forall_forall. intros [b el] Hin. cbn. intros o' [Ho' Hcache].
  assert (b ∈ bes.*1) as Hb by (apply list_elem_of_fmap; by exists (b, el)).
  rewrite Forall_forall in Hbs, Hrows. pose proof (Hbs b Hb) as [Hbo Hbf].
  destruct (probe_typed s b (jb_batch build) lkey kf rk (jb_table build) projection fs)
    as [Href _]; [by apply Hbs|apply Hbuild|done|done| |by apply Hrows|apply Hbuild|done|done|].
  { apply (int64_column_length _ (jb_key build)); apply Hbuild. }
  rewrite <- Hbf in Hcache.
  pose proof (op_hash_join_outcome b build rk lkey projection el o' Hbuild Hbo (Hrows b Hb) Hcache)
    as Hout.
  split_and!.
  - by etransitivity; [exact (op_outcome_backend _ _ _ _ _ Hout)|].
  - rewrite <- Hbf. by apply (op_hash_join_keeps (g := g)).
  - rewrite Href in Hout. eapply op_outcome_delivers; [exact Hout|done|].
    intros Hcpu. apply op_join_cpu; [by rewrite Ho'|done].
Qed.

Lemma config_operator_backend c name w g o0 :
  cfg_backend c = Some g → GpuOperator_new g None = Ok o0 →
  ∃ w1 c1 o, config_operator env c name w = (w1, c1, Ok o) ∧ cfg_backend c1 = Some g ∧
    op_backend o = g ∧ op_device_build o = None.
Proof.
  intros Hb Ho. unfold config_operator. rewrite Hb.
  destruct (cfg_telemetry c) as [h|] eqn:Ht, (cfg_stats c) as [i|] eqn:Hst;
    [|destruct (w_hubs w !! h) as [hub|]|..]; cbn [register_operator];
    rewrite ?(GpuOperator_new_stats g _ o0 Ho); do 3 eexists; split_and!; done.
Qed.

(** Later partitions use the build side the first one collected. *)
Lemma gj_run_built g `{!BackendContract g} s build rk kf fs parts e w o0 :
  gj_build e = Some (Ok build) → cfg_backend (gj_config e) = Some g →
  GpuOperator_new g None = Ok o0 → join_build_ok build rk →
  fields s !! gj_left_key e = Some kf → field_type_of kf = Int64 →
  let sel := join_selection s (jb_batch build) (gj_projection e) in
  sel ≠ [] → mapM (λ i, (fields s ++ fields (schema (jb_batch build))) !! i) sel = Some fs →
  Forall (λ part, Forall (typed s) part.1.*1 ∧
                  Forall (λ b, Z.of_nat (num_rows b) ≤ U32) part.1.*1) parts →
  Forall2 (delivers g)
    ((λ b, probe_output (length (fields s)) b (jb_batch build)
             (join_pairs (key_list (column_values b (gj_left_key e))) rk) fs sel)
       <$> (parts ≫= λ part, part.1.*1))
    (gj_run e parts w).2.
Proof.
  intros Hbd Hb Ho Hbuild Hk Ht sel Hne Hfs Hparts. revert w e Hbd Hb Hk sel Hne Hfs.
  induction Hparts as [|[bes collected] parts [Hbs Hrows] _ IH];
    intros w e Hbd Hb Hk sel Hne Hfs; [done|].
  cbn [gj_run]. unfold gj_execute.
  destruct (config_operator_backend _ "GpuHashJoinExec" w g o0 Hb Ho)
    as (w1 & c1 & o & Hc & Hb1 & Hog & Hnone). rewrite Hc.
  unfold BuildOnce_get_or_init. cbn [gj_build gj_with_config]. rewrite Hbd.
  cbn [gj_left_key gj_projection gj_with_config].
  pose proof (join_stream_delivers g s build rk (gj_left_key e) kf (gj_projection e) fs bes o
    Hog Hnone Hbuild Hk Ht Hne Hfs Hbs Hrows) as Hdel.
  destruct (map_stream _ (ok_item <$> bes) o) as [o' outs]. cbn [fst snd] in *.
  specialize (IH (store_stats c1 o' w1) (gj_with_config (λ _, c1) e) Hbd Hb1 Hk Hne Hfs).
  cbn [gj_left_key gj_projection gj_with_config] in IH.
  destruct (gj_run _ parts _) as [[w2 e2] rest]. cbn [snd] in *.
  cbn [mbind list_bind fst]. rewrite fmap_app. apply Forall2_app; [|exact IH].
  rewrite <- list_fmap_compose. apply Forall2_fmap_l. exact Hdel.
Qed.

(** C11: a join node that [try_new] and [with_projection] accept, over any
    number of partitions and on any backend that meets its contract: the build
    side collected when the first partition starts serves all of them, whatever
    collecting it again would give; every probe batch comes out as its join
    with that whole build side under the node's schema (or as a device failure,
    on a GPU only); and when all of them do, the partitions together deliver
    the nested-loop join of the whole probe side with the whole build side. *)
Theorem join_exec_correct g `{!BackendContract g} (l r : P) lkey rkey target projection e0 e1 c w o0
    build_batches bes parts :
  GpuHashJoinExec_try_new l r lkey rkey target = Ok e0 → gj_with_projection e0 projection = Ok e1 →
  cfg_backend c = Some g → GpuOperator_new g None = Ok o0 →
  Forall (typed (node_schema r)) build_batches →
  Z.of_nat (sum_list (num_rows <$> build_batches)) ≤ u32_max →
  let all_parts := (bes, Ok build_batches) :: parts in
  Forall (λ part, Forall (typed (node_schema l)) part.1.*1 ∧
                  Forall (λ b, Z.of_nat (num_rows b) ≤ U32) part.1.*1) all_parts →
  let e := gj_with_config (λ _, c) e1 in
  let width := length (fields (node_schema l)) in
  let build := batches_concat (node_schema r) build_batches in
  let rk := key_list (concat_values build_batches rkey) in
  let probe := all_parts ≫= λ part, part.1.*1 in
  ∃ sel fs, gj_schema e = Schema_new fs ∧ sel = join_selection (node_schema l) build projection ∧
    Forall2 (delivers g)
      ((λ b, probe_output width b build (join_pairs (key_list (column_values b lkey)) rk) fs sel)
         <$> probe)
      (gj_run e all_parts w).2 ∧
    ∀ outs, (gj_run e all_parts w).2 = Ok <$> outs →
      batches_concat (gj_schema e) outs
      = probe_output width (batches_concat (node_schema l) probe) build
          (join_pairs (key_list (concat_values probe lkey)) rk) fs sel.
Proof.
  intros Hnew Hproj Hb Ho Hbuild Hsize all_parts Hparts e width build rk probe.
  destruct (join_new_Ok _ _ _ _ _ _ _ _ Hnew Hproj)
    as ((lf & Hlf & Hlt) & (rf & Hrf & Hrt) & fs & Hne & Hfs & He1).
  assert (typed (node_schema r) build) as Hbt by (split; [by apply batches_concat_ok|done]).
  assert (column_values build rkey = concat_values build_batches rkey) as Hcv.
  { unfold column_values, build. by rewrite batches_concat_lookup, Hrf. }
  pose proof (int64_column_typed _ build rkey rf Hbt Hrf Hrt) as Hkeys. rewrite Hcv in Hkeys.
  destruct (JoinBuild_new_ok build rkey rk) as (jb & Hjb & Hjbb & Hjbk & Hjbok);
    [apply Hbt|done|done|].
  set (sel := join_selection (node_schema l) build projection). exists sel, fs.
  assert (Forall2 (delivers g)
    ((λ b, probe_output width b build (join_pairs (key_list (column_values b lkey)) rk) fs sel)
       <$> probe) (gj_run e all_parts w).2) as Hdel.
  { pose proof (gj_run_built g (node_schema l) jb rk lf fs all_parts (gj_with_build (Ok jb) e) w o0)
      as Hrun. subst e1. rewrite Hjbb in Hrun.
    specialize (Hrun eq_refl Hb Ho Hjbok Hlf Hlt Hne Hfs Hparts).
    assert (gj_run e all_parts w = gj_run (gj_with_build (Ok jb) e) all_parts w) as ->; [|exact Hrun].
    unfold all_parts. cbn [gj_run]. unfold gj_execute. cbn [gj_config gj_with_build].
    destruct (config_operator_backend c "GpuHashJoinExec" w g o0 Hb Ho) as (w1 & c1 & o & Hc & _).
    cbn [gj_config gj_with_config e]. rewrite Hc. unfold BuildOnce_get_or_init. cbn [gj_build gj_with_config gj_with_build e].
    assert (build_side e (Ok build_batches) = Ok jb) as Hside.
    { unfold build_side. cbn. rewrite concat_law by (by apply typed_concat_pre). cbn.
      fold build. by rewrite Hjb. }
    unfold build_side in *. cbn in Hside |- *. rewrite Hside. done. }
  split; [by subst e1|]. split; [done|]. split; [exact Hdel|].
  intros outs Hok. rewrite Hok in Hdel. apply (Forall2_fmap_r (@Ok DataFusionError RecordBatch)) in Hdel.
  unfold width. rewrite (joined_concat (node_schema l) probe build lkey lf rk fs sel); [|..|done|].
  - subst e1. cbn [gj_schema gj_with_config e]. apply same_rows_concat. apply Forall2_flip.
    exact Hdel.
  - unfold probe. apply Forall_bind. eapply Forall_impl; [exact Hparts|]. by intros [? ?] [? _].
  - exact Hfs.
Qed.
End Execs.
