(* ===== verification/ExecsMore.v ===== *)
(** * The aggregate and vector-distance nodes

    Properties of [GpuAggregateExec] and [GpuVectorDistanceExec] of [Execs], and
    examples that run all four nodes on the test backend. *)

From S2P Require Import Prelude Floats Arrow Core Telemetry Memory ArrowKernels Kernels.
From S2P Require Import FilterCorrect JoinCorrect AggregateCorrect VectorCorrect.
From S2P Require Import ConcatCorrect Device DeviceCorrect Operator OperatorCorrect.
From S2P Require Import OperatorClaims Execs ExecsCorrect.

(** The input of one aggregate, from the field's type and the column's values. *)
Definition typed_input (f : Field) (vs : list (option Value)) : Input :=
  match field_type_of f with
  | Float64 => InF (option_map as_f64 <$> vs)
  | _ => InI (key_list vs)
  end.

(** The type of an aggregate's output column. *)
Definition output_type (func : AggregateFunction) (f : Field) : DataType :=
  match func with Count => Int64 | _ => field_type_of f end.

Definition aggregate_field (agg : AggregateFunction * nat) (f : Field) : Field :=
  Field_new (agg_name agg.1 +:+ "(" +:+ field_name f +:+ ")") (output_type agg.1 f) true.

Definition numeric (f : Field) : Prop := field_type_of f = Int64 ∨ field_type_of f = Float64.

Lemma aggregate_output_schema_Ok s spec s' :
  aggregate_output_schema s spec = Ok s' →
  ∃ kf afs, fields s !! group_by spec = Some kf ∧ field_type_of kf = Int64 ∧
    Forall2 (λ agg f, fields s !! agg.2 = Some f ∧ numeric f) (aggregates spec) afs ∧
    s' = Schema_new (Field_new (field_name kf) Int64 true ::
                     zip_with aggregate_field (aggregates spec) afs).
Proof.
  unfold aggregate_output_schema. intros (dt & (kf & Hkf & <-)%field_type_Ok & Hk)%bind_Ok_inv.
  case_bool_decide as Ht; cbn [negb] in Hk; [|done].
  apply bind_Ok_inv in Hk as (kf' & Hkf' & Hk). apply index_Ok_inv in Hkf'. simplify_eq.
  apply bind_Ok_inv in Hk as (fs & Hfs & [= <-]). apply mapM_res_Ok in Hfs.
  assert (∃ afs, Forall2 (λ agg f, fields s !! agg.2 = Some f ∧ numeric f) (aggregates spec) afs ∧
    fs = zip_with aggregate_field (aggregates spec) afs) as (afs & Hafs & ->).
  { induction Hfs as [|[func idx] f aggs fs Hf _ (afs & Hafs & ->)]; [by exists []|].
    apply bind_Ok_inv in Hf as (dt & (g & Hg & <-)%field_type_Ok & Hf).
    destruct (bool_decide (field_type_of g = Int64) || bool_decide (field_type_of g = Float64))
      eqn:Hn; cbn [negb] in Hf; [|done].
    apply bind_Ok_inv in Hf as (g' & Hg' & [= <-]). apply index_Ok_inv in Hg'. simplify_eq.
    exists (g :: afs). split; [|by destruct func]. constructor; [|done]. split; [done|].
    apply orb_true_iff in Hn as [Hn|Hn]; apply bool_decide_eq_true in Hn; [by left|by right]. }
  by exists kf, afs.
Qed.

Lemma agg_input_typed s b idx f :
  typed s b → fields s !! idx = Some f → numeric f →
  agg_input b idx = Ok (typed_input f (column_values b idx)).
Proof.
  intros Hb Hf Hn. destruct (typed_column s b idx f Hb Hf) as (Hc & _).
  unfold agg_input, column. rewrite Hc. cbn [mbind res_bind ok_or]. unfold typed_input.
  destruct Hn as [Hn|Hn]; rewrite Hn; cbn; unfold downcast_int64, downcast_float64; cbn;
    by rewrite decide_True.
Qed.

(** *** The reference's batch *)

Lemma sql_column_cases keys func f vs :
  numeric f →
  (∃ array, sql_column keys func (typed_input f vs) = Ok (output_type func f, array)) ∨
  sql_column keys func (typed_input f vs) = Err (Execution "SUM overflowed Int64").
Proof.
  intros Hn. unfold sql_column, typed_input, output_type.
  assert (∀ arr, (∃ array, (out ← mapM (λ k, sql_int func (values_at arr (group_rows keys k)))
      (sorted_keys keys); Ok (Int64, Int64Array_of out)) = Ok (Int64, array)) ∨
    (out ← mapM (λ k, sql_int func (values_at arr (group_rows keys k))) (sorted_keys keys);
     Ok (Int64, Int64Array_of out)) = Err (Execution "SUM overflowed Int64")) as Hint.
  { intros arr. destruct (mapM _ (sorted_keys keys)) as [out|e|] eqn:Hm; cbn; [left; eauto|right|].
    - apply mapM_Err_inv in Hm as (k & _ & Hk). unfold sql_int in Hk.
      repeat case_match; simplify_eq; done.
    - apply mapM_Panic_inv in Hm as (k & _ & Hk). unfold sql_int in Hk.
      repeat case_match; simplify_eq. }
  destruct Hn as [Hn|Hn]; rewrite Hn.
  - destruct func; apply Hint.
  - destruct func; left; eauto.
Qed.

Lemma aggregate_reference_cases s b spec kf afs keys :
  fields (schema b) = fields s → fields s !! group_by spec = Some kf →
  Forall2 (λ agg f, fields s !! agg.2 = Some f ∧ numeric f) (aggregates spec) afs →
  let inputs := zip_with (λ agg f, typed_input f (column_values b agg.2)) (aggregates spec) afs in
  (∃ ref, aggregate_reference b spec keys inputs = Ok ref ∧
     fields (schema ref) = Field_new (field_name kf) Int64 true ::
                           zip_with aggregate_field (aggregates spec) afs) ∨
  aggregate_reference b spec keys inputs = Err (Execution "SUM overflowed Int64").
Proof.
  intros Hbf Hkf Hafs inputs. unfold aggregate_reference. rewrite Hbf, Hkf.
  assert ((∃ cols, mapM (λ '(agg, input),
      '(dt, array) ← sql_column keys agg.1 input;
      Ok (Field_new (agg_field_name b agg) dt true, array)) (zip (aggregates spec) inputs) = Ok cols ∧
      cols.*1 = zip_with aggregate_field (aggregates spec) afs) ∨
    mapM (λ '(agg, input),
      '(dt, array) ← sql_column keys agg.1 input;
      Ok (Field_new (agg_field_name b agg) dt true, array)) (zip (aggregates spec) inputs)
    = Err (Execution "SUM overflowed Int64")) as [(cols & -> & Hcols)|He].
  - unfold inputs. clear inputs. induction Hafs as [|agg f aggs afs [Hf Hn] _ IH].
    { left. by exists []. }
    cbn [zip zip_with mapM].
    destruct (sql_column_cases keys agg.1 f (column_values b agg.2) Hn) as [[array Ha]|He].
    + rewrite Ha. cbn [mbind res_bind].
      destruct IH as [(cols & Hm & Hc)|Hm].
      * left. eexists. cbn. rewrite Hm. split; [done|]. cbn. f_equal; [|done].
        unfold aggregate_field, agg_field_name. by rewrite Hbf, Hf.
      * right. cbn. by rewrite Hm.
    + right. by rewrite He.
  - left. eexists. split; [done|]. cbn. by rewrite Hcols.
  - right. by rewrite He.
Qed.

(** *** The planned schema *)

(** The planned nullability promises no more than the input does: a
    non-nullable key needs a non-nullable key column, any other non-nullable
    column must be a [COUNT]. *)
Definition planned_ok (input planned : Schema) (spec : AggregateSpec) : Prop :=
  (∀ f kf, fields planned !! 0%nat = Some f → fields input !! group_by spec = Some kf →
     field_nullable f = true ∨ field_nullable kf = false) ∧
  (∀ k f agg, fields planned !! S k = Some f → aggregates spec !! k = Some agg →
     field_nullable f = true ∨ agg.1 = Count).

Lemma column_ok_retype f f' a :
  column_ok f a = true → field_type_of f' = field_type_of f →
  field_nullable f' = true ∨ Forall is_Some (values a) → column_ok f' a = true.
Proof.
  unfold column_ok. rewrite !andb_true_iff, !bool_decide_eq_true. intros [[Ht Ha] _] Hty Hn.
  rewrite Hty. split_and!; [done..|]. apply orb_true_iff.
  destruct Hn as [Hn|Hn]; [by left|right]. apply forallb_forall. intros o Ho.
  apply bool_decide_eq_true. rewrite Forall_forall in Hn. apply Hn. by apply list_elem_of_In.
Qed.

Lemma column_ok_nonnull f a :
  column_ok f a = true → field_nullable f = false → Forall is_Some (values a).
Proof.
  unfold column_ok. rewrite !andb_true_iff, orb_true_iff. intros [_ [Hn|Hn]] Hf; [congruence|].
  rewrite forallb_forall in Hn. apply Forall_forall. intros o Ho.
  apply (bool_decide_eq_true (is_Some o)), Hn. by apply list_elem_of_In.
Qed.

Lemma sorted_keys_nonnull keys : Forall is_Some keys → Forall is_Some (sorted_keys keys).
Proof.
  rewrite !Forall_forall. intros Hk o Ho. apply Hk. unfold sorted_keys in Ho.
  by rewrite merge_sort_Permutation, elem_of_remove_dups in Ho.
Qed.

Lemma count_column_nonnull keys f vs dt array :
  numeric f → sql_column keys Count (typed_input f vs) = Ok (dt, array) →
  Forall is_Some (values array).
Proof.
  intros Hn. unfold sql_column, typed_input. destruct Hn as [Hn|Hn]; rewrite Hn; cbn.
  - intros (out & Hm & [= _ <-])%bind_Ok_inv. cbn. apply Forall_fmap. apply mapM_res_Ok in Hm.
    apply Forall_forall. intros o [j Hj]%list_elem_of_lookup_1.
    destruct (Forall2_lookup_r _ _ _ _ _ Hm Hj) as (k & _ & Hk). cbn in Hk.
    assert (o = Some (Z.of_nat (length (values_at (key_list vs) (group_rows keys k))))) as ->.
    { by destruct (values_at _ _); injection Hk as <-. }
    by eexists.
  - intros [= _ <-]. cbn. apply Forall_fmap, Forall_fmap, Forall_true. intros k. by eexists.
Qed.

(** The reference's columns fit the planned schema. *)
Lemma reference_fits_planned s b spec kf afs keys planned ref :
  fields (schema b) = fields s → fields s !! group_by spec = Some kf →
  Forall2 (λ agg f, fields s !! agg.2 = Some f ∧ numeric f) (aggregates spec) afs →
  (field_nullable kf = false → Forall is_Some keys) → planned_ok s planned spec →
  aggregate_reference b spec keys
    (zip_with (λ agg f, typed_input f (column_values b agg.2)) (aggregates spec) afs) = Ok ref →
  batch_ok ref → field_type_of <$> fields planned = field_type_of <$> fields (schema ref) →
  batch_ok (mkBatch planned (columns ref) (num_rows ref)).
Proof.
  intros Hbf Hkf Hafs Hnull [Hp0 HpS] Href Hok Hty.
  apply bind_Ok_inv in Href as (cols & Hm & [= <-]). apply mapM_res_Ok in Hm.
  unfold batch_ok in *. cbn [schema fields columns num_rows Schema_new] in Hok, Hty |- *.
  apply Forall2_same_length_lookup_2.
  { apply (f_equal length) in Hty. rewrite !length_fmap in Hty. cbn in Hty |- *.
    by rewrite Hty, !length_fmap. }
  intros j f a Hj Ha.
  destruct (Forall2_lookup_r _ _ _ _ _ Hok Ha) as (f0 & Hf0 & Hca & Hlen). split; [|done].
  apply (column_ok_retype f0); [done| |].
  { apply (f_equal (λ l, l !! j)) in Hty. rewrite list_lookup_fmap, Hj in Hty.
    rewrite list_lookup_fmap, Hf0 in Hty. by injection Hty. }
  destruct j as [|k]; [|change (cols.*2 !! k = Some a) in Ha].
  - injection Ha as <-. destruct (Hp0 f kf Hj Hkf) as [?|Hn]; [by left|right].
    apply Forall_fmap. eapply Forall_impl; [exact (sorted_keys_nonnull _ (Hnull Hn))|].
    intros o [x ->]. by eexists.
  - rewrite list_lookup_fmap in Ha. destruct (cols !! k) as [[fk ak]|] eqn:Hk; [|done].
    injection Ha as <-. destruct (Forall2_lookup_r _ _ _ _ _ Hm Hk) as ([agg i] & Hz & Hcol).
    apply lookup_zip_with_Some in Hz as (agg' & i' & [= <- <-] & Hagg & Hi).
    destruct (HpS k f agg Hj Hagg) as [?|Hcount]; [by left|right].
    apply lookup_zip_with_Some in Hi as (agg' & fi & -> & Hagg' & Hfi). simplify_eq.
    destruct (Forall2_lookup_lr _ _ _ _ _ _ Hafs Hagg Hfi) as [_ Hnum].
    apply bind_Ok_inv in Hcol as ([dt array] & Hsql & [= _ <-]). rewrite Hcount in Hsql.
    by eapply count_column_nonnull.
Qed.

Section Nodes.
Context `{Hardware, Allocator, CudaDriver, !ArrowKernels, !ArrowLaws, !HashOrder, !HashOrderLaw,
  !BatchSize} (env : option string).
Context {P : Type} `{!PlanNode P}.

Lemma with_output_schema_Ok (e : GpuAggregateExec P) s e' :
  ga_with_output_schema e s = Ok e' →
  field_type_of <$> fields s = field_type_of <$> fields (ga_schema e) ∧
  e' = mkAggExec (ga_input e) (ga_spec e) s (plan_properties s (UnknownPartitioning 1) Final)
         (ga_config e).
Proof.
  unfold ga_with_output_schema. destruct (Nat.eqb_spec (length (fields s)) (length (fields (ga_schema e))))
    as [Hlen|]; cbn [negb]; [|done].
  destruct (forallb _ _) eqn:Hall; cbn [negb]; [|done]. intros [= <-]. split; [|done].
  revert Hlen Hall. generalize (fields (ga_schema e)) as l. generalize (fields s) as k.
  induction k as [|f k IH]; intros [|f' l] [=] Hall; [done|].
  cbn in Hall. apply andb_true_iff in Hall as [Hf Hall]. apply bool_decide_eq_true in Hf.
  cbn. by rewrite Hf, (IH l).
Qed.

Lemma op_aggregate_cpu b spec el o :
  is_gpu (gb_kind (op_backend o)) = false → (op_aggregate b spec el o).2 = aggregate b spec.
Proof.
  intros Hg. unfold op_aggregate, no_device_path. rewrite Hg. cbn. unfold op_bind.
  by destruct (aggregate b spec).
Qed.

(** An error of the reference is the node's error, or the device failed first. *)
Lemma op_outcome_error g o n el x res :
  op_outcome o n el (Err x) res → op_backend o = g →
  (is_gpu (gb_kind g) = false → res.2 = Err x) →
  res.2 = Err x ∨ (is_gpu (gb_kind g) = true ∧ is_ok res.2 = false).
Proof.
  intros Hout Hg Hcpu. destruct (is_gpu (gb_kind g)) eqn:Egpu; [|left; by apply Hcpu].
  destruct Hout as [o1 Hs|o1 out ref' moved Hs Hbad _|o1 r Hs Hbad Hh]; [by left|done|by right].
Qed.

(** The whole input of an aggregate node, its keys and its inputs. *)
Section WholeInput.
Context (s : Schema) (bs : list RecordBatch) (spec : AggregateSpec) (kf : Field) (afs : list Field).
Context (Hkf : fields s !! group_by spec = Some kf) (Hkt : field_type_of kf = Int64).
Context (Hafs : Forall2 (λ agg f, fields s !! agg.2 = Some f ∧ numeric f) (aggregates spec) afs).
Context (Hbs : Forall (typed s) bs) (Hrows : Z.of_nat (sum_list (num_rows <$> bs)) ≤ i64_max).

Let all := batches_concat s bs.
Let keys := key_list (concat_values bs (group_by spec)).
Let inputs := zip_with (λ agg f, typed_input f (concat_values bs agg.2)) (aggregates spec) afs.

Lemma whole_typed : typed s all.
Proof. split; [by apply batches_concat_ok|done]. Qed.

Lemma whole_values i f : fields s !! i = Some f → column_values all i = concat_values bs i.
Proof. intros Hf. unfold column_values, all. by rewrite batches_concat_lookup, Hf. Qed.

Lemma whole_keys : int64_column all (group_by spec) = Ok keys.
Proof.
  rewrite (int64_column_typed _ _ _ kf whole_typed Hkf Hkt). by rewrite (whole_values _ _ Hkf).
Qed.

Lemma whole_inputs_eq :
  inputs = zip_with (λ agg f, typed_input f (column_values all agg.2)) (aggregates spec) afs.
Proof.
  unfold inputs. generalize Hafs. generalize (aggregates spec) as aggs, afs as fs.
  induction 1 as [|agg f aggs fs [Hf _] _ IH]; [done|]. cbn. by rewrite IH, (whole_values _ _ Hf).
Qed.

Lemma whole_inputs : Forall2 (λ agg i, agg_input all agg.2 = Ok i) (aggregates spec) inputs.
Proof.
  rewrite whole_inputs_eq. generalize Hafs. generalize (aggregates spec) as aggs, afs as fs.
  induction 1 as [|agg f aggs fs [Hf Hn] _ IH]; [done|]. cbn.
  constructor; [|done]. by eapply agg_input_typed; [apply whole_typed|..].
Qed.

Lemma whole_small : Z.of_nat (num_rows all) < 2 ^ 63.
Proof. cbn. unfold i64_max in Hrows. lia. Qed.

Lemma whole_aggregate : aggregate all spec = aggregate_reference all spec keys inputs.
Proof.
  apply aggregate_spec; [apply whole_typed|apply whole_keys|apply whole_inputs|apply whole_small].
Qed.

(** The reference succeeds or a sum overflows; its fields are the node's own. *)
Lemma whole_cases :
  (∃ ref, aggregate_reference all spec keys inputs = Ok ref ∧ batch_ok ref ∧
     fields (schema ref) = Field_new (field_name kf) Int64 true ::
                           zip_with aggregate_field (aggregates spec) afs) ∨
  aggregate_reference all spec keys inputs = Err (Execution "SUM overflowed Int64").
Proof.
  destruct (aggregate_reference_cases s all spec kf afs keys eq_refl Hkf Hafs)
    as [(ref & Href & Hfs)|Herr]; rewrite <- whole_inputs_eq in *; [left|by right].
  exists ref. split; [done|]. split; [|done].
  eapply aggregate_reference_ok; [| | |exact Href].
  - apply (aggregate_inputs_ok all spec); [apply whole_typed|apply whole_keys|apply whole_inputs].
  - rewrite (int64_column_length all (group_by spec) _ (proj1 whole_typed) whole_keys).
    apply whole_small.
  - eapply int64_column_i64; [apply whole_typed|apply whole_keys].
Qed.

(** The reference's columns can be wrapped in the planned schema. *)
Lemma whole_rewrap planned ref out :
  planned_ok s planned spec → aggregate_reference all spec keys inputs = Ok ref → batch_ok ref →
  field_type_of <$> fields planned = field_type_of <$> fields (schema ref) → same_rows out ref →
  batch_try_new planned (columns out) = Ok (mkBatch planned (columns ref) (num_rows ref)).
Proof.
  intros Hpok Href Hok Hty Hsame.
  assert (batch_ok (mkBatch planned (columns ref) (num_rows ref))) as Hfit.
  { rewrite whole_inputs_eq in Href.
    apply (reference_fits_planned s all spec kf afs keys); try done.
    intros Hnn. unfold keys, key_list. apply Forall_fmap.
    destruct (typed_column _ all _ kf whole_typed Hkf) as (_ & Hcol & _).
    pose proof (column_ok_nonnull _ _ Hcol Hnn) as Hsome. cbn in Hsome.
    rewrite (whole_values _ _ Hkf) in Hsome. eapply Forall_impl; [exact Hsome|].
    intros x [y ->]. by eexists. }
  rewrite (sr_columns _ _ Hsame).
  assert (∃ a cs, columns ref = a :: cs ∧ array_len a = num_rows ref) as (a & cs & Hcols & Hlen).
  { apply bind_Ok_inv in Href as (cols & _ & [= <-]). cbn. eexists _, _. split; [done|].
    apply length_fmap. }
  rewrite Hcols in Hfit |- *. rewrite try_new_law by (by rewrite Hlen). by rewrite Hlen.
Qed.
End WholeInput.


(** *** The vector distance *)

Lemma vector_dimension_Some dt n :
  vector_dimension dt = Some n →
  ∃ item, dt = FixedSizeList item n ∧ field_type_of item = Float32 ∧ 0 < n.
Proof.
  unfold vector_dimension. destruct dt as [| | | | |item m|]; try done.
  destruct (bool_decide _) eqn:Hf; cbn; [|done]. destruct (Z.ltb_spec 0 m); [|done].
  intros [= ->]. apply bool_decide_eq_true in Hf. by exists item.
Qed.

Lemma op_vector_cpu b column query metric name el o ref :
  is_gpu (gb_kind (op_backend o)) = false →
  vector_distance b column query metric name = Ok ref →
  (op_vector_distance b column query metric name el o).2 = Ok ref.
Proof. intros Hg Hr. unfold op_vector_distance, no_device_path. by rewrite Hg, Hr. Qed.

(** A batch with its distances. *)
Definition with_distances (s : Schema) (b : RecordBatch) (column : nat) (query : list f32)
    (metric : DistanceMetric) : RecordBatch :=
  mkBatch s (columns b ++ [Float32Array_of (cell_distance metric query <$> column_values b column)])
          (num_rows b).

Lemma vector_distance_typed s b column f item query metric name :
  typed s b → fields s !! column = Some f →
  field_type_of f = FixedSizeList item (Z.of_nat (length query)) → field_type_of item = Float32 →
  let s' := Schema_new (fields s ++ [Field_new name Float32 true]) in
  vector_distance b column query metric name = Ok (with_distances s' b column query metric) ∧
  typed s' (with_distances s' b column query metric).
Proof.
  intros Hb Hf Ht Hi s'. destruct (typed_column s b column f Hb Hf) as (Hc & _).
  pose proof (vector_distance_cases b column _ query metric name (proj1 Hb) Hc) as Hv.
  cbn [data_type] in Hv. rewrite Ht in Hv. rewrite !decide_True in Hv by done.
  cbv zeta in Hv. rewrite (proj2 Hb) in Hv. destruct Hv as [Hv Hok]. split; [exact Hv|].
  by split.
Qed.

(** a vector-distance node that [try_new] accepts never refuses a batch of
    its input's schema: every batch comes out with its columns unchanged and one
    distance per row appended, null where the vector is null, under the node's
    schema (or as a device failure, on a GPU only). *)
Theorem vector_exec_correct g `{!BackendContract g} (input : P) column query metric name target e0 c
    w w1 c1 o bes :
  GpuVectorDistanceExec_try_new input column query metric name target = Ok e0 →
  let e := gv_with_config (λ _, c) e0 in
  config_operator env c "GpuVectorDistanceExec" w = (w1, c1, Ok o) → op_backend o = g →
  Forall (typed (node_schema input)) bes.*1 →
  Forall (λ b, Z.of_nat (num_rows b) ≤ i64_max) bes.*1 →
  gv_schema e = Schema_new (fields (node_schema input) ++ [Field_new name Float32 true]) ∧
  ∃ outs, (gv_execute env e (Ok (ok_item <$> bes)) w).2 = Ok outs ∧
    Forall (typed (gv_schema e))
      ((λ b, with_distances (gv_schema e) b column query metric) <$> bes.*1) ∧
    Forall2 (delivers g)
      ((λ b, with_distances (gv_schema e) b column query metric) <$> bes.*1) outs.
Proof.
  intros Hnew e Hc Hg Hbs Hrows. unfold GpuVectorDistanceExec_try_new in Hnew.
  apply bind_Ok_inv in Hnew as (dt & (f & Hf & <-)%field_type_Ok & Hnew).
  apply bind_Ok_inv in Hnew as (dim & Hdim & Hnew). apply ok_or_Ok_inv in Hdim.
  apply vector_dimension_Some in Hdim as (item & Ht & Hi & _).
  destruct (Z.eqb_spec (Z.of_nat (length query)) dim) as [<-|]; cbn [negb] in Hnew; [|done].
  injection Hnew as <-. cbn [gv_schema e gv_with_config].
  set (s := Schema_new _). set (ref b := with_distances s b column query metric).
  pose proof (λ b Hb, vector_distance_typed (node_schema input) b column f item query metric name
    Hb Hf Ht Hi) as Hv. cbv zeta in Hv. fold s in Hv.
  set (fn := λ b el, op_vector_distance b column query metric name el).
  destruct (map_stream_spec fn (λ o, op_backend o = g) (λ b r, delivers g (ref b) r) bes o Hg)
    as [_ Hdel].
  { apply Forall_forall. intros [b el] Hin. cbn. intros o' Ho'.
    assert (b ∈ bes.*1) as Hb by (apply list_elem_of_fmap; by exists (b, el)).
    rewrite Forall_forall in Hbs, Hrows. destruct (Hv b (Hbs b Hb)) as [Href _].
    pose proof (op_vector_outcome b column query metric name el o' Ho' (proj1 (Hbs b Hb))
      (Hrows b Hb)) as Hout.
    split; [by etransitivity; [exact (op_outcome_backend _ _ _ _ _ Hout)|]|]. rewrite Href in Hout.
    eapply op_outcome_delivers; [exact Hout|done|]. intros Hcpu.
    apply op_vector_cpu; [by rewrite Ho'|done]. }
  split; [done|]. exists (map_stream fn (ok_item <$> bes) o).2. split_and!.
  - unfold gv_execute, e. cbn [gv_config gv_with_config].
    by rewrite (run_stream_Ok _ _ _ _ _ _ _ _ _ Hc).
  - apply Forall_fmap. eapply Forall_impl; [exact Hbs|]. intros b Hb. by apply Hv.
  - rewrite <- list_fmap_compose. apply Forall2_fmap_l. exact Hdel.
Qed.
End Nodes.

(** ** The nodes on the test backend *)

Module ExecsExample.
Import OperatorExample.
#[local] Existing Instances bump no_driver order order_law size fake_contract.
#[local] Instance cpu_only : Hardware := {|
  feature_cuda := false; feature_metal := false; cuda_probe := false; metal_probe := false;
  cuda_new := Err (Execution "no driver"); metal_new := Err (Execution "no driver");
  meminfo_text := None |}.

(** A scan: a plan node that is only its schema and partitioning. *)
Record Scan := mkScan { scan_schema : Schema; scan_partitions : nat }.
#[local] Instance scan_node : PlanNode Scan := {|
  node_schema := scan_schema; node_partitioning := λ s, UnknownPartitioning (scan_partitions s) |}.

Definition on_fake (telemetry : option nat) : ExecConfig := mkConfig Cuda (Some FakeGpu) telemetry None.
Definition world : World := mkWorld None [TelemetryHub_new].

Definition people_scan : Scan := mkScan (schema people) 1.
Definition adult_names : GpuFilterExec Scan :=
  let s := Schema_new [Field_new "name" Utf8 true; Field_new "age" Int64 true] in
  mkFilterExec people_scan adults [1; 0]%nat s
    (plan_properties s (UnknownPartitioning 1) Incremental) (ExecConfig_new Cuda).

Lemma people_typed : Forall (typed (schema people)) [people; people].
Proof. repeat constructor; apply people_ok. Qed.

Lemma filter_exec_correct_witness :
  ∃ refs outs, (gf_execute None (gf_with_config (λ _, on_fake None) adult_names)
      (Ok (ok_item <$> [(people, 3); (people, 4)])) world).2 = Ok outs ∧
    Forall2 (delivers FakeGpu) refs outs ∧ length refs = 2%nat.
Proof.
  destruct (filter_exec_correct None FakeGpu people_scan adults [1; 0]%nat Cuda adult_names
    (on_fake None) world world (on_fake None) (mkOperator FakeGpu (op_streams new_op) 0 None None false)
    [(people, 3); (people, 4)]) as (refs & outs & Hrun & Hrefs & Hdel & _);
    [reflexivity|reflexivity|reflexivity|exact people_typed|repeat constructor; vm_compute; discriminate|].
  exists refs, outs. split; [exact Hrun|]. split; [exact Hdel|].
  symmetry. exact (Forall2_length _ _ _ Hrefs).
Defined.

Lemma exec_telemetry_witness :
  ∃ w' e' outs hub' s,
    gf_run None (gf_with_config (λ _, on_fake (Some 0%nat)) adult_names)
      [[(people, 3); (people, 4)]; [(people, 5)]] world = (w', e', outs) ∧
    w_hubs w' !! 0%nat = Some hub' ∧ hub_heap hub' = [s] ∧ os_name s = "GpuFilterExec" ∧
    batches s = wrap64 (Z.of_nat (length (delivered outs))).
Proof.
  destruct (exec_telemetry None FakeGpu (gf_with_config (λ _, on_fake (Some 0%nat)) adult_names)
    0 TelemetryHub_new world new_op [(people, 3); (people, 4)] [[(people, 5)]])
    as (w' & e' & outs & hub' & s & Hrun & Hh & Hheap & _ & Hname & _ & Hb & _);
    [reflexivity|reflexivity|reflexivity|reflexivity|reflexivity| |].
  - repeat constructor; try apply people_ok; vm_compute; discriminate.
  - exists w', e', outs, hub', s. split; [exact Hrun|]. split; [exact Hh|]. split; [exact Hheap|].
    split; [exact Hname|exact Hb].
Defined.

(** The orders of [JoinExample] in two partitions against its customers; the
    second partition would collect nothing. *)
Definition orders_scan : Scan := mkScan (schema JoinExample.orders) 2.
Definition customers_scan : Scan := mkScan (schema JoinExample.customers) 1.
Definition join_parts : list (list (RecordBatch * Z) * df_result (list RecordBatch)) :=
  [([(JoinExample.orders, 3)], Ok [JoinExample.customers]); ([(JoinExample.orders, 4)], Ok [])].
Definition orders_join (projection : option (list nat)) (fs : list Field) : GpuHashJoinExec Scan :=
  mkJoinExec orders_scan customers_scan 0 0 projection (Schema_new fs)
    (plan_properties (Schema_new fs) (UnknownPartitioning 2) Incremental) (ExecConfig_new Cuda) None.
Definition joined_fields : list Field :=
  fields (schema JoinExample.orders) ++ fields (schema JoinExample.customers).

Lemma join_exec_correct_witness :
  ∃ sel fs,
    gj_schema (orders_join (Some [2; 1]%nat) (omap (joined_fields !!.) [2; 1]%nat)) = Schema_new fs ∧
    Forall2 (delivers FakeGpu)
      ((λ b, probe_output 2 b (batches_concat (schema JoinExample.customers) [JoinExample.customers])
               (join_pairs (key_list (column_values b 0))
                  (key_list (concat_values [JoinExample.customers] 0))) fs sel)
         <$> [JoinExample.orders; JoinExample.orders])
      (gj_run None (gj_with_config (λ _, on_fake None)
         (orders_join (Some [2; 1]%nat) (omap (joined_fields !!.) [2; 1]%nat))) join_parts world).2.
Proof.
  destruct (join_exec_correct None FakeGpu orders_scan customers_scan 0 0 Cuda (Some [2; 1]%nat)
    (orders_join None joined_fields) (orders_join (Some [2; 1]%nat) (omap (joined_fields !!.) [2; 1]%nat))
    (on_fake None) world new_op [JoinExample.customers] [(JoinExample.orders, 3)]
    [([(JoinExample.orders, 4)], Ok [])])
    as (sel & fs & Hs & _ & Hdel & _);
    [reflexivity|reflexivity|reflexivity|reflexivity| | | |].
  - repeat constructor; apply JoinExample.demo_ok.
  - vm_compute. discriminate.
  - repeat constructor; try apply JoinExample.demo_ok; vm_compute; discriminate.
  - exists sel, fs. split; [exact Hs|exact Hdel].
Defined.

(** The sales of [AggregateExample] in two batches, under planned names. *)
Definition sales_scan : Scan := mkScan (schema AggregateExample.sales) 1.
Definition sales_planned : Schema :=
  Schema_new [Field_new "k" Int64 true; Field_new "total" Int64 true; Field_new "n" Int64 false;
              Field_new "least" Int64 true].
Definition sales_exec (s : Schema) : GpuAggregateExec Scan :=
  mkAggExec sales_scan AggregateExample.sales_spec s (plan_properties s (UnknownPartitioning 1) Final)
    (ExecConfig_new Cuda).

Lemma sales_planned_ok :
  planned_ok (schema AggregateExample.sales) sales_planned AggregateExample.sales_spec.
Proof.
  split.
  - intros f kf [= <-] [= <-]. by left.
  - intros [|[|[|k]]] f agg [= <-] [= <-]; (by left) || (by right).
Qed.


Definition points_scan : Scan := mkScan (schema VectorExample.points) 1.
Definition points_exec : GpuVectorDistanceExec Scan :=
  let s := Schema_new (fields (schema VectorExample.points) ++ [Field_new "d" Float32 true]) in
  mkVectorExec points_scan 0 [f32_zero; f32_zero] L2 "d" s
    (plan_properties s (UnknownPartitioning 1) Incremental) (ExecConfig_new Cuda).

Lemma vector_exec_correct_witness :
  ∃ outs, (gv_execute None (gv_with_config (λ _, on_fake None) points_exec)
             (Ok (ok_item <$> [(VectorExample.points, 2)])) world).2 = Ok outs ∧
    Forall2 (delivers FakeGpu)
      [with_distances (gv_schema points_exec) VectorExample.points 0 [f32_zero; f32_zero] L2] outs.
Proof.
  destruct (vector_exec_correct None FakeGpu points_scan 0 [f32_zero; f32_zero] L2 "d" Cuda
    points_exec (on_fake None) world world (on_fake None)
    (mkOperator FakeGpu (op_streams new_op) 0 None None false) [(VectorExample.points, 2)])
    as (_ & outs & Hrun & _ & Hdel);
    [reflexivity|reflexivity|reflexivity| | |].
  - repeat constructor; apply (bool_decide_unpack _); vm_compute; exact I.
  - repeat constructor; vm_compute; discriminate.
  - exists outs. split; [exact Hrun|exact Hdel].
Defined.
End ExecsExample.
