(* ===== verification/Planner.v ===== *)
(** * oxidelake-planner: the placement rules

    Models [src/crates/oxidelake-planner/src/rule.rs] and [target.rs], and the
    two helpers of [src/crates/oxidelake-compute/src/udf.rs] the rules call.
    DataFusion's expressions and plan nodes are data here, with the attributes
    the rules read; what its [with_new_children] does is an operation of
    [DataFusionPlan].  A rule's telemetry hub is the state of [PlanM], so that
    the recorded skip reasons survive an error.  The properties are in
    [PlannerCorrect] and [PlacementCorrect]. *)

From S2P Require Import Prelude Floats Arrow Core Telemetry Memory ArrowKernels Kernels.
From S2P Require Import Device Operator Execs.

(** ** Expressions *)

(** An Arrow [FixedSizeListArray] of floats: its rows' validity and the child
    values. *)
Record FixedSizeListArray := mkFsl {
  fsl_item : DataType; fsl_size : Z; fsl_valid : list bool; fsl_values : list (option f32) }.

Inductive ScalarValue :=
  | SvInt64 (v : option Z)
  | SvFloat64 (v : option f64)
  | SvFixedSizeList (l : FixedSizeListArray)
  | SvOther (repr : string).

Inductive DfOperator := OpAnd | OpEq | OpNotEq | OpLt | OpLtEq | OpGt | OpGtEq | OpOther (name : string).

Inductive PhysicalExpr :=
  | EColumn (name : string) (index : nat)
  | ELiteral (v : ScalarValue)
  | EBinary (l : PhysicalExpr) (op : DfOperator) (r : PhysicalExpr)
  | EScalarFunction (name : string) (args : list PhysicalExpr)
  | EOther (repr : string).

(** *** From [udf.rs] *)

Definition L2_DISTANCE : string := "l2_distance".
Definition COSINE_DISTANCE : string := "cosine_distance".

Definition distance_udf_name (m : DistanceMetric) : string :=
  match m with L2 => L2_DISTANCE | Cosine => COSINE_DISTANCE end.

Definition distance_metric_for (name : string) : option DistanceMetric :=
  if bool_decide (name = L2_DISTANCE) then Some L2
  else if bool_decide (name = COSINE_DISTANCE) then Some Cosine
  else None.

Definition i32_max : Z := 2 ^ 31 - 1.

(** One row; Arrow gives a list of size 0 no row. *)
Definition query_literal (query : list f32) : ScalarValue :=
  let n := Z.of_nat (length query) in
  SvFixedSizeList (mkFsl Float32 (if n <=? i32_max then n else i32_max)
                         (match query with [] => [] | _ => [true] end) (Some <$> query)).

(** One non-null row of non-null [Float32]s; the row starts at the child offset
    [0 * size]. *)
Definition literal_query (v : ScalarValue) : df_result (option (list f32)) :=
  match v with
  | SvFixedSizeList l =>
      match fsl_valid l with
      | [true] =>
          if negb (bool_decide (fsl_item l = Float32)) then Ok None
          else if negb (forallb (λ o, bool_decide (is_Some o)) (fsl_values l)) then Ok None
          else if fsl_size l <? 0 then Ok None
          else Some <$> slice (default f32_zero <$> fsl_values l) 0 (fsl_size l)
      | _ => Ok None
      end
  | _ => Ok None
  end.

(** ** Plans *)

Inductive JoinType := Inner | OtherJoin (name : string).
#[global] Instance JoinType_EqDecision : EqDecision JoinType.
Proof. solve_decision. Defined.
Inductive NullEquality := NullEqualsNothing | NullEqualsNull.
#[global] Instance NullEquality_EqDecision : EqDecision NullEquality.
Proof. solve_decision. Defined.
Inductive AggregateMode := Partial | FinalMode | FinalPartitioned | Single | SinglePartitioned
  | OtherMode.
#[global] Instance AggregateMode_EqDecision : EqDecision AggregateMode.
Proof. solve_decision. Defined.

Record JoinNode := mkJoinNode {
  jn_on : list (PhysicalExpr * PhysicalExpr);
  jn_has_filter : bool;
  jn_type : JoinType;
  jn_null_equality : NullEquality;
  (** [HashJoinExec]'s own projection over [build ++ probe], private to
      DataFusion: the source only asks whether there is one *)
  jn_projection : option (list nat);
}.
(** [HashJoinExec::contains_projection]. *)
Definition jn_contains_projection (node : JoinNode) : bool :=
  match jn_projection node with Some _ => true | None => false end.

Record AggrExpr := mkAggrExpr { ae_fun : string; ae_distinct : bool; ae_args : list PhysicalExpr }.

Record AggregateNode := mkAggNode {
  an_mode : AggregateMode;
  an_group : list (PhysicalExpr * string);
  an_null_expr : list (PhysicalExpr * string);
  (** [PhysicalGroupBy::is_single] *)
  an_is_single : bool;
  an_aggr : list AggrExpr;
  an_filter : list (option PhysicalExpr);
}.

Inductive ExecutionPlan :=
  | FilterExec (input : ExecutionPlan) (predicate : PhysicalExpr) (projection : option (list nat))
               (props : PlanProperties)
  | ProjectionExec (input : ExecutionPlan) (exprs : list (PhysicalExpr * string))
                   (props : PlanProperties)
  | HashJoinExec (l r : ExecutionPlan) (node : JoinNode) (props : PlanProperties)
  | SortMergeJoinExec (l r : ExecutionPlan) (node : JoinNode) (props : PlanProperties)
  | SortExec (input : ExecutionPlan) (fetch : option nat) (props : PlanProperties)
  | AggregateExec (input : ExecutionPlan) (node : AggregateNode) (props : PlanProperties)
  | RepartitionExec (input : ExecutionPlan) (props : PlanProperties)
  | CoalescePartitionsExec (input : ExecutionPlan) (props : PlanProperties)
  | GpuFilter (e : GpuFilterExec ExecutionPlan)
  | GpuJoin (e : GpuHashJoinExec ExecutionPlan)
  | GpuAggregate (e : GpuAggregateExec ExecutionPlan)
  | GpuVector (e : GpuVectorDistanceExec ExecutionPlan)
  | OtherExec (name : string) (children : list ExecutionPlan) (props : PlanProperties).

Definition plan_props (p : ExecutionPlan) : PlanProperties :=
  match p with
  | FilterExec _ _ _ props | ProjectionExec _ _ props | HashJoinExec _ _ _ props
  | SortMergeJoinExec _ _ _ props | SortExec _ _ props | AggregateExec _ _ props
  | RepartitionExec _ props | CoalescePartitionsExec _ props | OtherExec _ _ props => props
  | GpuFilter e => gf_properties e
  | GpuJoin e => gj_properties e
  | GpuAggregate e => ga_properties e
  | GpuVector e => gv_properties e
  end.

#[global] Instance plan_node : PlanNode ExecutionPlan := {|
  node_schema p := pp_schema (plan_props p);
  node_partitioning p := pp_partitioning (plan_props p);
|}.

Definition plan_children (p : ExecutionPlan) : list ExecutionPlan :=
  match p with
  | FilterExec i _ _ _ | ProjectionExec i _ _ | SortExec i _ _ | AggregateExec i _ _
  | RepartitionExec i _ | CoalescePartitionsExec i _ => [i]
  | HashJoinExec l r _ _ | SortMergeJoinExec l r _ _ => [l; r]
  | GpuFilter e => [gf_input e]
  | GpuJoin e => [gj_left e; gj_right e]
  | GpuAggregate e => [ga_input e]
  | GpuVector e => [gv_input e]
  | OtherExec _ cs _ => cs
  end.

(** What DataFusion's own nodes do with new children, and the properties
    [CoalescePartitionsExec::new] computes. *)
Class DataFusionPlan := {
  df_with_new_children : ExecutionPlan → list ExecutionPlan → df_result ExecutionPlan;
  coalesce_properties : ExecutionPlan → PlanProperties;
}.

(** ** The rule *)

Record HardwarePlacementRule := mkRule {
  hr_target : BackendKind;
  hr_telemetry : option nat;
}.

(** A rule's step: the hub its telemetry points to survives an error. *)
Definition PlanM (A : Type) : Type := TelemetryHub → TelemetryHub * df_result A.
Definition pm_ret {A} (a : A) : PlanM A := λ h, (h, Ok a).
Definition pm_lift {A} (r : df_result A) : PlanM A := λ h, (h, r).
Definition pm_bind {A B} (m : PlanM A) (f : A → PlanM B) : PlanM B := λ h,
  match m h with
  | (h, Ok a) => f a h
  | (h, Err e) => (h, Err e)
  | (h, Panic) => (h, Panic)
  end.
Notation "'plan!' x ':=' m 'in' k" := (pm_bind m (λ x, k))
  (at level 200, x pattern, m at level 100, k at level 200, only parsing).

Definition HardwarePlacementRule_new (target : BackendKind) : HardwarePlacementRule :=
  mkRule target None.
Definition rule_with_telemetry (r : HardwarePlacementRule) (h : nat) : HardwarePlacementRule :=
  mkRule (hr_target r) (Some h).

Definition rule_skip (r : HardwarePlacementRule) (node reason : string) : PlanM unit := λ h,
  (match hr_telemetry r with Some _ => record_skip node reason h | None => h end, Ok tt).

(** [instrument]: attach the rule's hub to a freshly built node. *)
Definition instrument {A} (r : HardwarePlacementRule) (with_config : (ExecConfig → ExecConfig) → A → A)
    (exec : A) : A :=
  match hr_telemetry r with
  | Some h => with_config (config_with_telemetry h) exec
  | None => exec
  end.

(** *** Expressions the rule recognizes *)

Definition column_index (e : PhysicalExpr) : option nat :=
  match e with EColumn _ i => Some i | _ => None end.

Definition flip (op : Comparison) : Comparison :=
  match op with CEq => CEq | CLt => CGt | CLtEq => CGtEq | CGt => CLt | CGtEq => CLtEq end.

Definition to_comparison (op : DfOperator) : option Comparison :=
  match op with
  | OpEq => Some CEq | OpLt => Some CLt | OpLtEq => Some CLtEq | OpGt => Some CGt
  | OpGtEq => Some CGtEq | _ => None
  end.

Definition literal (e : PhysicalExpr) : option Literal :=
  match e with
  | ELiteral (SvInt64 (Some v)) => Some (LInt64 v)
  | ELiteral (SvFloat64 (Some v)) => Some (LFloat64 v)
  | _ => None
  end.

(** The refusal is its reason. *)
Fixpoint try_lower_predicate (e : PhysicalExpr) (s : Schema) : res string Predicate :=
  match e with
  | EBinary l op r =>
      match op with
      | OpAnd =>
          l ← try_lower_predicate l s;
          r ← try_lower_predicate r s;
          Ok (And l r)
      | _ =>
          op ← ok_or (to_comparison op) "not one of the comparisons the device kernels implement";
          '(c, lit, op) ← match column_index l, literal r with
            | Some c, Some lit => Ok (c, lit, op)
            | _, _ =>
                match literal l, column_index r with
                | Some lit, Some c => Ok (c, lit, flip op)
                | _, _ => Err "does not compare a column against an Int64 or Float64 literal"
                end
            end;
          f ← ok_or (fields s !! c) "column is out of range for the input schema";
          if bool_decide (field_type_of f = literal_data_type lit) then Ok (Compare c op lit)
          else Err "the kernels compare a column against a literal of its own type"
      end
  | _ => Err "not a binary comparison"
  end.

Definition lower_predicate (e : PhysicalExpr) (s : Schema) : option Predicate :=
  res_ok (try_lower_predicate e s).

Section Rule.
Context `{ArrowKernels, DataFusionPlan}.

Definition lower_filter (r : HardwarePlacementRule) (input : ExecutionPlan)
    (predicate : PhysicalExpr) (projection : option (list nat)) (props : PlanProperties) :
    PlanM (option (GpuFilterExec ExecutionPlan)) :=
  let s := node_schema input in
  match try_lower_predicate predicate s with
  | Err why => plan! _ := rule_skip r "FilterExec" why in pm_ret None
  | Panic => pm_lift Panic
  | Ok p =>
      let projection := match projection with
                        | Some ix => ix
                        | None => seq 0 (length (fields s))
                        end in
      plan! exec := pm_lift (GpuFilterExec_try_new input p projection (hr_target r)) in
      if bool_decide (pp_schema (gf_properties exec) = pp_schema props)
      then pm_ret (Some (instrument r gf_with_config exec))
      else plan! _ := rule_skip r "FilterExec" "the fused schema differs from the original" in
           pm_ret None
  end.

(** The columns a projection over a [GpuFilterExec] selects of it, [None] as
    soon as an expression is not a column under its own name. *)
Fixpoint fused_columns (filter_schema : Schema) (filter_projection : list nat)
    (exprs : list (PhysicalExpr * string)) : df_result (option (list nat)) :=
  match exprs with
  | [] => Ok (Some [])
  | (e, alias) :: exprs =>
      match column_index e with
      | None => Ok None
      | Some i =>
          f ← index (fields filter_schema) i;
          if negb (bool_decide (field_name f = alias)) then Ok None
          else
            c ← index filter_projection i;
            rest ← fused_columns filter_schema filter_projection exprs;
            Ok (match rest with Some l => Some (c :: l) | None => None end)
      end
  end.

Definition fuse_projection (r : HardwarePlacementRule) (input : ExecutionPlan)
    (exprs : list (PhysicalExpr * string)) (props : PlanProperties) :
    PlanM (option (GpuFilterExec ExecutionPlan)) :=
  match input with
  | GpuFilter filter =>
      plan! fused := pm_lift (fused_columns (node_schema input) (gf_projection filter) exprs) in
      match fused with
      | None => pm_ret None
      | Some fused =>
          plan! exec := pm_lift (GpuFilterExec_try_new (gf_input filter) (gf_predicate filter) fused
                                   (hr_target r)) in
          if bool_decide (pp_schema (gf_properties exec) = pp_schema props)
          then pm_ret (Some (instrument r gf_with_config exec))
          else pm_ret None
      end
  | _ => pm_ret None
  end.

(** Every input column under its own name, in order. *)
Definition passes_through (s : Schema) (exprs : list (PhysicalExpr * string)) : bool :=
  (length exprs =? length (fields s))%nat &&
  forallb (λ '(position, (e, alias)),
    match column_index e with
    | Some i => (i =? position)%nat &&
                bool_decide (field_name <$> fields s !! position = Some alias)
    | None => false
    end) (imap (λ i x, (i, x)) exprs).

(** [split_last]. *)
Definition split_last {A} (l : list A) : option (A * list A) :=
  match rev l with [] => None | x :: k => Some (x, rev k) end.

(** The column and the literal of a two-argument distance call. *)
Definition distance_args (args : list PhysicalExpr) : option (nat * ScalarValue) :=
  match args with
  | [EColumn _ c; ELiteral v] | [ELiteral v; EColumn _ c] => Some (c, v)
  | _ => None
  end.

Definition lower_vector_distance (r : HardwarePlacementRule) (input : ExecutionPlan)
    (exprs : list (PhysicalExpr * string)) (props : PlanProperties) :
    PlanM (option (GpuVectorDistanceExec ExecutionPlan)) :=
  match split_last exprs with
  | Some ((EScalarFunction name args, alias), passthrough) =>
      if negb (passes_through (node_schema input) passthrough) then pm_ret None
      else
        match distance_metric_for name, distance_args args with
        | Some metric, Some (column, lit) =>
            plan! query := pm_lift (literal_query lit) in
            match query with
            | None => pm_ret None
            | Some query =>
                match GpuVectorDistanceExec_try_new input column query metric alias (hr_target r) with
                | Ok exec =>
                    if bool_decide (pp_schema (gv_properties exec) = pp_schema props)
                    then pm_ret (Some (instrument r gv_with_config exec))
                    else pm_ret None
                | Err _ =>
                    plan! _ := rule_skip r "ProjectionExec" "the distance call is not representable" in
                    pm_ret None
                | Panic => pm_lift Panic
                end
            end
        | _, _ => pm_ret None
        end
  | _ => pm_ret None
  end.

(** *** Joins *)

Definition plain_inner (node : JoinNode) : option (PhysicalExpr * PhysicalExpr) :=
  if bool_decide (jn_type node = Inner) && negb (jn_has_filter node) &&
     bool_decide (jn_null_equality node = NullEqualsNothing)
  then match jn_on node with [on] => Some on | _ => None end
  else None.

(** The positions of [f] among [full]. *)
Definition matches_of (full : list Field) (f : Field) : list nat :=
  filter (λ i, full !! i = Some f) (seq 0 (length full)).

(** DataFusion's output column indices over [build ++ probe]; [None] when a
    projected field is ambiguous. *)
Fixpoint projected_indices (full out : list Field) : option (list nat) :=
  match out with
  | [] => Some []
  | f :: out =>
      match matches_of full f with
      | [only] => cons only <$> projected_indices full out
      | _ => None
      end
  end.

(** An index over [build ++ probe], re-expressed over [probe ++ build]. *)
Definition swap_side (bl pl i : nat) : nat := if (i <? bl)%nat then (pl + i)%nat else (i - bl)%nat.

Definition lower_join (r : HardwarePlacementRule) (build probe : ExecutionPlan) (node : JoinNode)
    (props : PlanProperties) : PlanM (option (GpuHashJoinExec ExecutionPlan)) :=
  let bs := node_schema build in
  let ps := node_schema probe in
  match plain_inner node with
  | None => pm_ret None
  | Some (b, p) =>
      match column_index b, column_index p with
      | Some build_key, Some probe_key =>
          plan! bf := pm_lift (index (fields bs) build_key) in
          if negb (bool_decide (field_type_of bf = Int64)) then pm_ret None
          else
          plan! pf := pm_lift (index (fields ps) probe_key) in
          if negb (bool_decide (field_type_of pf = Int64)) then pm_ret None
          else
            let bl := length (fields bs) in
            let pl := length (fields ps) in
            let df_projection :=
              if jn_contains_projection node
              then projected_indices (fields bs ++ fields ps) (fields (pp_schema props))
              else Some (seq 0 (bl + pl)) in
            match df_projection with
            | None =>
                plan! _ := rule_skip r "HashJoinExec" "the projected field is ambiguous" in
                pm_ret None
            | Some df_projection =>
                let ours := swap_side bl pl <$> df_projection in
                plan! exec := pm_lift (GpuHashJoinExec_try_new probe build probe_key build_key
                                         (hr_target r)) in
                plan! exec := pm_lift (gj_with_projection exec (Some ours)) in
                if bool_decide (pp_schema (gj_properties exec) = pp_schema props)
                then pm_ret (Some (instrument r gj_with_config exec))
                else
                  plan! _ := rule_skip r "HashJoinExec"
                               "the rewritten schema differs from the original" in
                  pm_ret None
            end
      | _, _ => pm_ret None
      end
  end.

Definition strip_sort (p : ExecutionPlan) : ExecutionPlan :=
  match p with SortExec input None _ => input | _ => p end.

Definition lower_sort_merge_join (r : HardwarePlacementRule) (left right : ExecutionPlan)
    (node : JoinNode) (props : PlanProperties) : PlanM (option (GpuHashJoinExec ExecutionPlan)) :=
  match plain_inner node with
  | None => pm_ret None
  | Some (lx, rx) =>
      let left := strip_sort left in
      let right := strip_sort right in
      let ls := node_schema left in
      let rs := node_schema right in
      if negb (length (fields (pp_schema props)) =? length (fields ls) + length (fields rs))%nat
      then pm_ret None
      else
        match column_index lx, column_index rx with
        | Some lk, Some rk =>
            plan! lf := pm_lift (index (fields ls) lk) in
            if negb (bool_decide (field_type_of lf = Int64)) then pm_ret None
            else
            plan! rf := pm_lift (index (fields rs) rk) in
            if negb (bool_decide (field_type_of rf = Int64)) then pm_ret None
            else
              plan! exec := pm_lift (GpuHashJoinExec_try_new left right lk rk (hr_target r)) in
              if bool_decide (pp_schema (gj_properties exec) = pp_schema props)
              then pm_ret (Some (instrument r gj_with_config exec))
              else
                plan! _ := rule_skip r "SortMergeJoinExec"
                             "the rewritten schema differs from the original" in
                pm_ret None
        | _, _ => pm_ret None
        end
  end.

(** *** Aggregates *)

Definition aggregate_function (name : string) : option AggregateFunction :=
  if bool_decide (name = "sum") then Some Sum
  else if bool_decide (name = "count") then Some Count
  else if bool_decide (name = "min") then Some Min
  else if bool_decide (name = "max") then Some Max
  else None.

Definition lower_aggr_expr (s : Schema) (x : AggrExpr) : res string (AggregateFunction * nat) :=
  func ← ok_or (aggregate_function (ae_fun x)) "not one of the aggregates the device kernels implement";
  if ae_distinct x then Err "DISTINCT is not implemented"
  else
    arg ← match ae_args x with [a] => Ok a | _ => Err "the device kernels take one argument" end;
    column ← ok_or (column_index arg) "aggregates an expression, not a plain column";
    f ← index (fields s) column;
    if bool_decide (field_type_of f = Int64) || bool_decide (field_type_of f = Float64)
    then Ok (func, column)
    else Err "the device kernels aggregate Int64 and Float64".

Definition try_lower_aggregate_spec (input : ExecutionPlan) (node : AggregateNode) :
    res string AggregateSpec :=
  match an_is_single node, an_group node, an_null_expr node with
  | true, [(g, _)], [] =>
      group_by ← ok_or (column_index g) "the grouping key is an expression, not a plain column";
      f ← index (fields (node_schema input)) group_by;
      if negb (bool_decide (field_type_of f = Int64))
      then Err "the device kernel groups on Int64"
      else if existsb (λ o, bool_decide (is_Some o)) (an_filter node)
      then Err "a FILTER clause on an aggregate has no device kernel"
      else
        aggs ← mapM (lower_aggr_expr (node_schema input)) (an_aggr node);
        Ok (mkSpec group_by aggs)
  | _, _, _ => Err "the device kernel groups by exactly one column"
  end.

Definition lower_aggregate_spec (input : ExecutionPlan) (node : AggregateNode) : option AggregateSpec :=
  res_ok (try_lower_aggregate_spec input node).

(** The first node below the exchanges between the two halves of an
    aggregate. *)
Fixpoint through_exchanges (p : ExecutionPlan) : ExecutionPlan :=
  match p with
  | RepartitionExec i _ | CoalescePartitionsExec i _ => through_exchanges i
  | _ => p
  end.

(** The source and the specification of an aggregate, [None] when the node
    stays on the CPU. *)
Definition aggregate_source (r : HardwarePlacementRule) (input : ExecutionPlan)
    (node : AggregateNode) : PlanM (option (ExecutionPlan * AggregateSpec)) :=
  let lowered input node :=
    match try_lower_aggregate_spec input node with
    | Ok spec => pm_ret (Some (input, spec))
    | Err why => plan! _ := rule_skip r "AggregateExec" why in pm_ret None
    | Panic => pm_lift Panic
    end in
  match an_mode node with
  | Single | SinglePartitioned => lowered input node
  | FinalMode | FinalPartitioned =>
      match through_exchanges input with
      | AggregateExec source partial _ =>
          if negb (bool_decide (an_mode partial = Partial)) ||
             negb (length (an_aggr partial) =? length (an_aggr node))%nat ||
             negb (length (an_group partial) =? length (an_group node))%nat
          then pm_ret None
          else lowered source partial
      | _ => pm_ret None
      end
  | _ => pm_ret None
  end.

Definition lower_aggregate (r : HardwarePlacementRule) (input : ExecutionPlan)
    (node : AggregateNode) (props : PlanProperties) :
    PlanM (option (GpuAggregateExec ExecutionPlan)) :=
  plan! src := aggregate_source r input node in
  match src with
  | None => pm_ret None
  | Some (source, spec) =>
      let source := if (1 <? partition_count (node_partitioning source))%nat
                    then CoalescePartitionsExec source (coalesce_properties source)
                    else source in
      plan! exec := pm_lift (GpuAggregateExec_try_new source spec (hr_target r)) in
      match ga_with_output_schema exec (pp_schema props) with
      | Ok exec => pm_ret (Some (instrument r ga_with_config exec))
      | Err _ =>
          plan! _ := rule_skip r "AggregateExec" "the output schema is not representable" in
          pm_ret None
      | Panic => pm_lift Panic
      end
  end.

(** *** The rewrite *)

(** [Transformed::yes] is [Some]. *)
Definition rewrite_node (r : HardwarePlacementRule) (node : ExecutionPlan) :
    PlanM (option ExecutionPlan) :=
  match node with
  | FilterExec input predicate projection props =>
      plan! gpu := lower_filter r input predicate projection props in
      pm_ret (GpuFilter <$> gpu)
  | ProjectionExec input exprs props =>
      plan! gpu := fuse_projection r input exprs props in
      match gpu with
      | Some gpu => pm_ret (Some (GpuFilter gpu))
      | None =>
          plan! gpu := lower_vector_distance r input exprs props in
          pm_ret (GpuVector <$> gpu)
      end
  | HashJoinExec build probe join props =>
      plan! gpu := lower_join r build probe join props in
      pm_ret (GpuJoin <$> gpu)
  | SortMergeJoinExec l rt join props =>
      plan! gpu := lower_sort_merge_join r l rt join props in
      pm_ret (GpuJoin <$> gpu)
  | AggregateExec input agg props =>
      plan! gpu := lower_aggregate r input agg props in
      pm_ret (GpuAggregate <$> gpu)
  | _ => pm_ret None
  end.

(** [with_new_children] of any node. *)
Definition with_new_children (p : ExecutionPlan) (cs : list ExecutionPlan) : df_result ExecutionPlan :=
  match p with
  | GpuFilter e => GpuFilter <$> gf_with_new_children e cs
  | GpuJoin e => GpuJoin <$> gj_with_new_children e cs
  | GpuAggregate e => GpuAggregate <$> ga_with_new_children e cs
  | GpuVector e => GpuVector <$> gv_with_new_children e cs
  | _ => df_with_new_children p cs
  end.

(** [TreeNode::transform_up]: the children first, the node rebuilt when one of
    them changed, then the node itself.  [None] is an unchanged subtree. *)
Fixpoint transform_up (f : ExecutionPlan → PlanM (option ExecutionPlan)) (p : ExecutionPlan) :
    PlanM (option ExecutionPlan) :=
  let walk_list := fix walk_list (cs : list ExecutionPlan) : PlanM (list (option ExecutionPlan)) :=
    match cs with
    | [] => pm_ret []
    | c :: cs =>
        plan! c' := transform_up f c in
        plan! rest := walk_list cs in
        pm_ret (c' :: rest)
    end in
  let one i := plan! i' := transform_up f i in pm_ret [i'] in
  let two l r := plan! l' := transform_up f l in plan! r' := transform_up f r in pm_ret [l'; r'] in
  plan! kids := match p with
    | FilterExec i _ _ _ | ProjectionExec i _ _ | SortExec i _ _ | AggregateExec i _ _
    | RepartitionExec i _ | CoalescePartitionsExec i _ => one i
    | HashJoinExec l r _ _ | SortMergeJoinExec l r _ _ => two l r
    | GpuFilter e => one (gf_input e)
    | GpuJoin e => two (gj_left e) (gj_right e)
    | GpuAggregate e => one (ga_input e)
    | GpuVector e => one (gv_input e)
    | OtherExec _ cs _ => walk_list cs
    end in
  plan! rebuilt :=
    (if existsb (λ o, bool_decide (is_Some o)) kids
     then plan! node := pm_lift (with_new_children p
                          (zip_with (λ old new, default old new) (plan_children p) kids)) in
          pm_ret (Some node)
     else pm_ret None) in
  plan! out := f (default p rebuilt) in
  pm_ret (match out with Some n => Some n | None => rebuilt end).

(** [HardwarePlacementRule::optimize]. *)
Definition optimize (r : HardwarePlacementRule) (p : ExecutionPlan) : PlanM ExecutionPlan :=
  if negb (is_gpu (hr_target r)) then pm_ret p
  else
    plan! t := transform_up (rewrite_node r) p in
    pm_ret (default p t).

Definition rewrite_vector (r : HardwarePlacementRule) (node : ExecutionPlan) :
    PlanM (option ExecutionPlan) :=
  match node with
  | ProjectionExec input exprs props =>
      plan! gpu := lower_vector_distance r input exprs props in
      pm_ret (GpuVector <$> gpu)
  | _ => pm_ret None
  end.

(** [VectorDistancePlacementRule::optimize]. *)
Definition optimize_vector (r : HardwarePlacementRule) (p : ExecutionPlan) : PlanM ExecutionPlan :=
  if negb (is_gpu (hr_target r)) then pm_ret p
  else
    plan! t := transform_up (rewrite_vector r) p in
    pm_ret (default p t).
End Rule.

(** ** The list of rules *)

Inductive OptimizerRule :=
  | DataFusionRule (name : string)
  | VectorDistancePlacement (r : HardwarePlacementRule)
  | HardwarePlacement (r : HardwarePlacementRule).

Definition rule_name (r : OptimizerRule) : string :=
  match r with
  | DataFusionRule n => n
  | VectorDistancePlacement _ => "VectorDistancePlacementRule"
  | HardwarePlacement _ => "HardwarePlacementRule"
  end.

Fixpoint position_of (name : string) (l : list OptimizerRule) : option nat :=
  match l with
  | [] => None
  | r :: l => if bool_decide (rule_name r = name) then Some 0%nat else S <$> position_of name l
  end.

(** [rules] is DataFusion's default list. *)
Definition physical_optimizer_rules (rules : list OptimizerRule) (rule : HardwarePlacementRule) :
    list OptimizerRule :=
  let before_pushdown := default (length rules) (position_of "ProjectionPushdown" rules) in
  (take before_pushdown rules ++ [VectorDistancePlacement rule] ++ drop before_pushdown rules)
  ++ [HardwarePlacement rule].

(** ** The cluster target ([target.rs]) *)

Definition resolve_cluster_target (value : option string) : result BackendKind :=
  match value with
  | None => Ok CpuSimd
  | Some s => if bool_decide (str_trim s = "") then Ok CpuSimd
              else BackendKind_from_str (str_trim s)
  end.

Definition CLUSTER_TARGET_ENV : string := "OXIDE_CLUSTER_BACKEND".

(** [HardwarePlacementRule::from_env]; [value] is what [CLUSTER_TARGET_ENV] holds. *)
Definition rule_from_env (value : option string) : result HardwarePlacementRule :=
  target ← resolve_cluster_target value;
  Ok (HardwarePlacementRule_new target).

(** [HardwarePlacementRule::local]. *)
Definition rule_local `{Hardware, Allocator, CudaDriver, ArrowKernels, HashOrder}
    (env : option string) (w : World) : World * df_result HardwarePlacementRule :=
  let '(w, g) := local_backend env w in
  (w, g ← map_err to_datafusion g; Ok (HardwarePlacementRule_new (gb_kind g))).
