(* ===== verification/PlannerCorrect.v ===== *)
(** * Lowering keeps the meaning of predicates, aggregates and joins

    Properties of the lowering functions of [Planner]: a lowered predicate has
    the SQL meaning of the expression it came from and exactly the expressions
    of the v1 grammar are lowered; an aggregate is lowered exactly when the
    device kernels implement it; the re-expressed join projection delivers
    DataFusion's rows although the two sides are swapped. *)

From S2P Require Import Prelude Floats Arrow Core Telemetry Memory ArrowKernels Kernels.
From S2P Require Import FilterCorrect JoinCorrect ConcatCorrect Device Operator Execs.
From S2P Require Import ExecsCorrect Planner.

(** ** The SQL meaning of an expression on one row *)

Definition row_value (b : RecordBatch) (i c : nat) : option Value :=
  col ← columns b !! c; cell ← values col !! i; cell.

Definition expr_value (b : RecordBatch) (i : nat) (e : PhysicalExpr) : option Value :=
  match e with
  | EColumn _ c => row_value b i c
  | ELiteral (SvInt64 v) => VInt <$> v
  | ELiteral (SvFloat64 v) => VF64 <$> v
  | _ => None
  end.

(** Integers numerically, floats in the IEEE total order, as Arrow's comparison
    kernels do. *)
Definition value_compare (x y : Value) : option comparison :=
  match x, y with
  | VInt a, VInt b => Some (Z.compare a b)
  | VF64 a, VF64 b => Some (f64_total_cmp a b)
  | _, _ => None
  end.

Definition operator_holds (op : DfOperator) (c : comparison) : option bool :=
  match op with
  | OpNotEq => Some (negb (ord_holds CEq c))
  | _ => (λ o, ord_holds o c) <$> to_comparison op
  end.

(** Three-valued: a null operand gives null, [AND] is Kleene's. *)
Fixpoint sql_holds (b : RecordBatch) (i : nat) (e : PhysicalExpr) : option bool :=
  match e with
  | EBinary l OpAnd r => kleene_and (sql_holds b i l) (sql_holds b i r)
  | EBinary l op r =>
      x ← expr_value b i l; y ← expr_value b i r; c ← value_compare x y; operator_holds op c
  | _ => None
  end.

(** The v1 grammar: comparisons of a column with a literal of its type, either
    way round, conjoined with [AND]. *)
Inductive lowerable (s : Schema) : PhysicalExpr → Prop :=
  | LowAnd l r : lowerable s l → lowerable s r → lowerable s (EBinary l OpAnd r)
  | LowColLit n c op x lit f :
      is_Some (to_comparison op) → literal x = Some lit → fields s !! c = Some f →
      field_type_of f = literal_data_type lit → lowerable s (EBinary (EColumn n c) op x)
  | LowLitCol n c op x lit f :
      is_Some (to_comparison op) → literal x = Some lit → fields s !! c = Some f →
      field_type_of f = literal_data_type lit → lowerable s (EBinary x op (EColumn n c)).

Lemma ord_holds_flip op c : ord_holds (flip op) (CompOpp c) = ord_holds op c.
Proof. by destruct op, c. Qed.

(** A typed cell against a literal of its type. *)
Lemma typed_compare s b c f lit i v :
  typed s b → fields s !! c = Some f → field_type_of f = literal_data_type lit →
  row_value b i c = Some v →
  let y := match lit with LInt64 k => VInt k | LFloat64 k => VF64 k end in
  value_compare v y = Some (value_cmp v lit) ∧ value_compare y v = Some (CompOpp (value_cmp v lit)).
Proof.
  intros Hb Hf Ht Hv y. destruct (typed_column s b c f Hb Hf) as (Hc & Hok & _).
  unfold row_value in Hv. rewrite Hc in Hv. cbn in Hv.
  destruct (column_values b c !! i) as [[x|]|] eqn:Hx; cbn in Hv; [|done..]. injection Hv as ->.
  assert (value_has_type (field_type_of f) v = true) as Hty.
  { unfold column_ok, array_ok in Hok. rewrite !andb_true_iff, forallb_forall in Hok.
    destruct Hok as [[_ Hok] _]. apply (Hok (Some v)). apply list_elem_of_In.
    by eapply list_elem_of_lookup_2. }
  rewrite Ht in Hty. unfold y. destruct lit as [k|k]; destruct v; try done; cbn.
  - split; [done|]. by rewrite Z.compare_antisym.
  - split; [done|]. unfold f64_total_cmp. by rewrite Z.compare_antisym.
Qed.

Lemma literal_value b i x lit :
  literal x = Some lit →
  expr_value b i x = Some match lit with LInt64 k => VInt k | LFloat64 k => VF64 k end ∧
  column_index x = None.
Proof.
  destruct x as [| [[v|]|[v|]|l|r] | | |]; try done; by intros [= <-].
Qed.

Lemma sql_comparison b i l op r o :
  to_comparison op = Some o →
  sql_holds b i (EBinary l op r)
  = (x ← expr_value b i l; y ← expr_value b i r; c ← value_compare x y; Some (ord_holds o c)).
Proof. destruct op; intros [= <-]; done. Qed.

Lemma eval_row_compare b i c o lit :
  eval_row b (Compare c o lit) i = (v ← row_value b i c; Some (ord_holds o (value_cmp v lit))).
Proof. cbn. unfold row_value. destruct (columns b !! c) as [col|]; cbn; [|done]. by destruct (values col !! i) as [[v|]|]. Qed.

(** One comparison, whichever side the column is on. *)
(** A comparison that is lowered has a column on one side, and a literal of the
    column's type on the other. *)
Lemma comparison_sides s l op r o p :
  to_comparison op = Some o → try_lower_predicate (EBinary l op r) s = Ok p →
  ∃ c lit o' f, fields s !! c = Some f ∧ field_type_of f = literal_data_type lit ∧ p = Compare c o' lit ∧
    ((∃ n, l = EColumn n c ∧ literal r = Some lit ∧ o' = o) ∨
     (∃ n, r = EColumn n c ∧ literal l = Some lit ∧ o' = flip o)).
Proof.
  intros Ho Hp.
  assert (try_lower_predicate (EBinary l op r) s =
    ('(c, lit, op) ← match column_index l, literal r with
          | Some c, Some lit => Ok (c, lit, o)
          | _, _ =>
              match literal l, column_index r with
              | Some lit, Some c => Ok (c, lit, flip o)
              | _, _ => Err "does not compare a column against an Int64 or Float64 literal"
              end
          end;
     f ← ok_or (fields s !! c) "column is out of range for the input schema";
     if bool_decide (field_type_of f = literal_data_type lit) then Ok (Compare c op lit)
     else Err "the kernels compare a column against a literal of its own type")) as Heq.
  { cbn. by destruct op; cbn in Ho; try done; injection Ho as <-. }
  rewrite Heq in Hp. apply bind_Ok_inv in Hp as ([[c lit] o'] & Hside & Hp).
  apply bind_Ok_inv in Hp as (f & Hf & Hp). apply ok_or_Ok_inv in Hf.
  case_bool_decide as Ht; [|done]. injection Hp as <-. exists c, lit, o', f.
  split; [done|]. split; [done|]. split; [done|].
  assert (∀ e k, column_index e = Some k → ∃ n, e = EColumn n k) as Hcol.
  { intros e k. destruct e; try done. intros [= <-]. by eexists. }
  destruct (column_index l) as [cl|] eqn:Hl, (literal r) as [lr|] eqn:Hr.
  - injection Hside as -> -> ->. destruct (Hcol _ _ Hl) as [n ->]. left. by exists n.
  - destruct (literal l) eqn:Hll; [|done]. by destruct (literal_value (mkBatch s [] 0) 0 _ _ Hll); congruence.
  - destruct (literal l) eqn:Hll, (column_index r) eqn:Hcr; try done.
    destruct (literal_value (mkBatch s [] 0) 0 _ _ Hr); congruence.
  - destruct (literal l) as [ll|] eqn:Hll, (column_index r) as [cr|] eqn:Hcr; try done.
    injection Hside as -> -> ->. destruct (Hcol _ _ Hcr) as [n ->]. right. by exists n.
Qed.

Lemma lower_comparison s l op r o p :
  to_comparison op = Some o → try_lower_predicate (EBinary l op r) s = Ok p →
  lowerable s (EBinary l op r) ∧ pred_typed s p ∧
  ∀ b i, typed s b → eval_row b p i = sql_holds b i (EBinary l op r).
Proof.
  intros Ho Hp.
  destruct (comparison_sides s l op r o p Ho Hp) as (c & lit & o' & f & Hf & Ht & -> & Hside).
  split_and!.
  - destruct Hside as [(n & -> & Hlit & _)|(n & -> & Hlit & _)];
      [eapply LowColLit|eapply LowLitCol]; try done; by eexists.
  - by exists f.
  - intros b i Hb. rewrite eval_row_compare, (sql_comparison _ _ _ _ _ _ Ho).
    destruct Hside as [(n & -> & Hlit & ->)|(n & -> & Hlit & ->)];
      destruct (literal_value b i _ _ Hlit) as [-> _]; cbn [expr_value mbind option_bind];
      destruct (row_value b i c) as [v|] eqn:Hv; cbn; try done;
      destruct (typed_compare s b c f lit i v Hb Hf Ht Hv) as [H1 H2].
    + by rewrite H1.
    + rewrite H2. cbn. by rewrite <- (ord_holds_flip o (CompOpp _)), CompOpp_involutive.
Qed.

Lemma lowered_predicate_forward s e p :
  try_lower_predicate e s = Ok p →
  lowerable s e ∧ pred_typed s p ∧ ∀ b i, typed s b → eval_row b p i = sql_holds b i e.
Proof.
  revert p. induction e as [| |l IHl op r IHr| |]; intros p Hp; try done.
  destruct (to_comparison op) as [o|] eqn:Ho; [by eapply lower_comparison|].
  destruct op; try done. cbn in Hp. apply bind_Ok_inv in Hp as (p1 & H1 & Hp).
  apply bind_Ok_inv in Hp as (p2 & H2 & [= <-]).
  destruct (IHl _ H1) as (Hl1 & Ht1 & He1), (IHr _ H2) as (Hl2 & Ht2 & He2).
  split; [by constructor|]. split; [done|]. intros b i Hb. cbn. by rewrite He1, He2.
Qed.

(** C13: a predicate is lowered exactly when it is in the v1 grammar; the
    lowered predicate is well typed for the schema, and on every row of every
    batch of that schema it has the three-valued SQL meaning of the expression,
    also when the literal is on the left. *)
Theorem lowered_predicate_meaning (s : Schema) (e : PhysicalExpr) :
  (is_Some (lower_predicate e s) ↔ lowerable s e) ∧
  ∀ p, lower_predicate e s = Some p →
    pred_typed s p ∧ ∀ b i, typed s b → eval_row b p i = sql_holds b i e.
Proof.
  assert (∀ p, lower_predicate e s = Some p ↔ try_lower_predicate e s = Ok p) as Hlow.
  { intros p. unfold lower_predicate. destruct (try_lower_predicate e s); cbn; split; congruence. }
  split; [split|].
  - intros [p Hp%Hlow]. by eapply lowered_predicate_forward.
  - intros Hl. assert (∃ p, try_lower_predicate e s = Ok p) as [p Hp]; [|exists p; by apply Hlow].
    clear Hlow. induction Hl as [l r _ [p1 H1] _ [p2 H2]|n c op x lit f [o Ho] Hx Hf Ht
                                     |n c op x lit f [o Ho] Hx Hf Ht].
    + cbn. rewrite H1, H2. by eexists.
    + exists (Compare c o lit). destruct op; try done; injection Ho as <-;
        cbn [try_lower_predicate to_comparison ok_or mbind res_bind column_index]; rewrite Hx;
        cbn [mbind res_bind]; rewrite Hf; cbn [ok_or mbind res_bind];
        by rewrite bool_decide_eq_true_2.
    + exists (Compare c (flip o) lit).
      destruct (literal_value (mkBatch s [] 0) 0 _ _ Hx) as [_ Hci].
      destruct op; try done; injection Ho as <-;
        cbn [try_lower_predicate to_comparison ok_or mbind res_bind column_index]; rewrite Hci, Hx;
        cbn [mbind res_bind]; rewrite Hf; cbn [ok_or mbind res_bind];
        by rewrite bool_decide_eq_true_2.
  - intros p Hp%Hlow. split; by eapply lowered_predicate_forward.
Qed.

(** ** Joins *)

(** The columns [sel] of the concatenation of row [p.1] of one side, of [w]
    columns, and row [p.2] of the other. *)
Definition joined_row (w : nat) (lcols rcols : nat → list (option Value)) (sel : list nat)
    (p : Z * Z) : list (option (option Value)) :=
  (λ i, if (i <? w)%nat then lcols i !! Z.to_nat p.1 else rcols (i - w)%nat !! Z.to_nat p.2) <$> sel.

(** What DataFusion's inner hash join of [build] and [probe] on one key each
    yields, in some order: the selected columns of [build ++ probe] for every
    pair of rows with equal non-null keys. *)
Definition df_join_rows (build probe : RecordBatch) (build_key probe_key : nat) (sel : list nat) :
    list (list (option (option Value))) :=
  joined_row (length (fields (schema build))) (column_values build) (column_values probe) sel
    <$> join_pairs (key_list (column_values build build_key)) (key_list (column_values probe probe_key)).

Definition swap_pair (p : Z * Z) : Z * Z := (p.2, p.1).

Lemma join_pairs_NoDup lk rk : NoDup (join_pairs lk rk).
Proof.
  unfold join_pairs. apply NoDup_bind; [| |apply NoDup_seq].
  - intros i1 i2 p _ _. unfold row_pairs. rewrite !list_elem_of_bind.
    intros (j1 & Hp1 & _) (j2 & Hp2 & _). do 2 case_decide; set_solver.
  - intros i _. unfold row_pairs. apply NoDup_bind; [| |apply NoDup_seq].
    + intros j1 j2 p _ _. do 2 case_decide; set_solver.
    + intros j _. case_decide; [apply NoDup_singleton|constructor].
Qed.

Lemma join_pairs_nonneg lk rk p : p ∈ join_pairs lk rk → 0 ≤ p.1 ∧ 0 ≤ p.2.
Proof.
  unfold join_pairs, row_pairs. rewrite list_elem_of_bind. intros (i & Hp & _).
  apply list_elem_of_bind in Hp as (j & Hp & _). case_decide; [|set_solver].
  apply list_elem_of_singleton in Hp as ->. cbn. lia.
Qed.

(** The pairs of a join are those of the join with its sides swapped. *)
Lemma join_pairs_swap lk rk : swap_pair <$> join_pairs lk rk ≡ₚ join_pairs rk lk.
Proof.
  apply NoDup_Permutation; [|apply join_pairs_NoDup|].
  - apply NoDup_fmap_2; [|apply join_pairs_NoDup]. intros [a b] [c d] [=]. by subst.
  - assert (∀ l1 l2 p, p ∈ join_pairs l1 l2 → swap_pair p ∈ join_pairs l2 l1) as Hsym.
    { intros l1 l2 [a b] Hp. pose proof (join_pairs_nonneg _ _ _ Hp) as [Ha Hb]. cbn in Ha, Hb.
      rewrite <- (Z2Nat.id a), <- (Z2Nat.id b) in Hp by done.
      apply elem_of_join_pairs in Hp as (k & H1 & H2). unfold swap_pair. cbn.
      rewrite <- (Z2Nat.id a), <- (Z2Nat.id b) by done. apply elem_of_join_pairs. eauto. }
    intros p. rewrite list_elem_of_fmap. split.
    + intros (q & -> & Hq). by apply Hsym.
    + intros Hp. exists (swap_pair p). split; [by destruct p|]. by apply Hsym.
Qed.

(** The columns of a probe, row by row. *)
Lemma probe_output_rows w b r lk rk fs sel :
  length fs = length sel →
  (∀ i, i ∈ sel → (i < w)%nat → length (column_values b i) = length lk) →
  (∀ i, i ∈ sel → (w ≤ i)%nat → length (column_values r (i - w)) = length rk) →
  batch_rows (probe_output w b r (join_pairs lk rk) fs sel)
  = joined_row w (column_values b) (column_values r) sel <$> join_pairs lk rk.
Proof.
  intros Hlen Hl Hr. unfold batch_rows. cbn [num_rows probe_output].
  set (pairs := join_pairs lk rk).
  assert (∀ p, p ∈ pairs → 0 ≤ p.1 < Z.of_nat (length lk) ∧ 0 ≤ p.2 < Z.of_nat (length rk)) as Hb.
  { intros [a c] Hp. pose proof (join_pairs_nonneg _ _ _ Hp) as [Ha Hc]. cbn in *.
    unfold pairs in Hp. rewrite <- (Z2Nat.id a), <- (Z2Nat.id c) in Hp by done.
    apply elem_of_join_pairs in Hp as (k & H1%lookup_lt_Some & H2%lookup_lt_Some). lia. }
  apply list_eq. intros k. rewrite !list_lookup_fmap.
  destruct (decide (k < length pairs)%nat) as [Hk|Hk].
  2: { rewrite (lookup_ge_None_2 pairs) by lia. by rewrite lookup_seq_ge by lia. }
  rewrite lookup_seq_lt by done. destruct (lookup_lt_is_Some_2 _ _ Hk) as [p Hp]. rewrite Hp. cbn.
  f_equal. unfold batch_row, joined_row. cbn [columns probe_output].
  assert (in_bounds (length lk) pairs.*1 ∧ in_bounds (length rk) pairs.*2) as [Hb1 Hb2].
  { split; apply Forall_fmap, Forall_forall; intros q Hq; apply (Hb q Hq). }
  apply list_eq. intros j. rewrite !list_lookup_fmap, lookup_zip_with.
  destruct (sel !! j) as [i|] eqn:Hj.
  2: { cbn. by destruct (fs !! j). }
  destruct (lookup_lt_is_Some_2 fs j) as [f ->].
  { rewrite Hlen. by eapply lookup_lt_Some. }
  pose proof (list_elem_of_lookup_2 _ _ _ Hj) as Hi.
  cbn [fmap option_fmap option_map mbind option_bind values]. f_equal. unfold joined_values.
  destruct (Nat.ltb_spec i w).
  - apply gather_lookup; [by rewrite Hl|]. by rewrite list_lookup_fmap, Hp.
  - apply gather_lookup; [by rewrite Hr|]. by rewrite list_lookup_fmap, Hp.
Qed.

Lemma projected_indices_spec full out ix :
  projected_indices full out = Some ix → mapM (λ i, full !! i) ix = Some out.
Proof.
  revert ix. induction out as [|f out IH]; intros ix; cbn; [by intros [= <-]|].
  destruct (matches_of full f) as [|only [|]] eqn:Hm; [done| |done].
  destruct (projected_indices full out) as [ix'|]; [|done]. intros [= <-]. cbn.
  assert (only ∈ matches_of full f) as Ho by (rewrite Hm; set_solver).
  apply list_elem_of_filter in Ho as [-> _]. cbn. by rewrite IH.
Qed.

Lemma swap_side_lookup {A} (l k : list A) i :
  (i < length l + length k)%nat →
  (k ++ l) !! swap_side (length l) (length k) i = (l ++ k) !! i.
Proof.
  intros Hi. unfold swap_side. destruct (Nat.ltb_spec i (length l)).
  - rewrite lookup_app_r, lookup_app_l by lia. f_equal. lia.
  - rewrite lookup_app_l, lookup_app_r by lia. done.
Qed.

Lemma swap_side_mapM {A} (l k : list A) ix :
  Forall (λ i, (i < length l + length k)%nat) ix →
  mapM (λ i, (k ++ l) !! i) (swap_side (length l) (length k) <$> ix) = mapM (λ i, (l ++ k) !! i) ix.
Proof.
  induction 1 as [|i ix Hi _ IH]; [done|]. cbn [fmap list_fmap mapM].
  rewrite swap_side_lookup by done. by rewrite IH.
Qed.

Section Lowering.
Context `{!ArrowKernels, !ArrowLaws, !DataFusionPlan}.

Lemma pm_bind_Ok {A B} (m : PlanM A) (f : A → PlanM B) h h' b :
  pm_bind m f h = (h', Ok b) → ∃ h1 a, m h = (h1, Ok a) ∧ f a h1 = (h', Ok b).
Proof. unfold pm_bind. destruct (m h) as [h1 [a|e|]]; [|done..]. eauto. Qed.

Lemma pm_lift_Ok {A} (r : df_result A) h h' a : pm_lift r h = (h', Ok a) → h' = h ∧ r = Ok a.
Proof. by intros [= <- <-]. Qed.

(** The node, but for the hub it reports to. *)
Lemma instrument_cases {A} r (wc : (ExecConfig → ExecConfig) → A → A) x :
  (∀ y, wc (λ c, c) y = y) → ∃ f, instrument r wc x = wc f x ∧ ∀ c, cfg_target (f c) = cfg_target c.
Proof.
  intros Hid. unfold instrument. destruct (hr_telemetry r) as [h|].
  - by exists (config_with_telemetry h).
  - exists (λ c, c). by rewrite Hid.
Qed.

(** The columns DataFusion's join selects of [build ++ probe], in order. *)
Definition df_projection (build probe : ExecutionPlan) (node : JoinNode) : list nat :=
  default (seq 0 (length (fields (node_schema build)) + length (fields (node_schema probe)))) (jn_projection node).

(** A join with a projection has the schema of the columns it selects. *)
Definition join_schema_ok (build probe : ExecutionPlan) (node : JoinNode) (props : PlanProperties) : Prop :=
  ∀ sel, jn_projection node = Some sel →
    mapM (λ i, (fields (node_schema build) ++ fields (node_schema probe)) !! i) sel = Some (fields (pp_schema props)).

(** Fields that occur once name their positions. *)
Lemma projected_indices_unique full out sel real :
  projected_indices full out = Some sel → mapM (λ i, full !! i) real = Some out → real = sel.
Proof.
  revert sel out. induction real as [|i real IH]; intros sel out Hsel Hreal; cbn in Hreal.
  { injection Hreal as <-. by injection Hsel as <-. }
  destruct (full !! i) as [f|] eqn:Hf; [|done]. cbn in Hreal. destruct (mapM _ real) as [fs|] eqn:Hfs; [|done].
  injection Hreal as <-. cbn in Hsel. destruct (matches_of full f) as [|only [|]] eqn:Hm; [done| |done].
  destruct (projected_indices full fs) as [sel'|] eqn:Hs; [|done]. injection Hsel as <-.
  rewrite (IH sel' fs) by done. f_equal. apply list_elem_of_singleton. rewrite <- Hm.
  apply list_elem_of_filter. split; [done|]. apply elem_of_seq. apply lookup_lt_Some in Hf. lia.
Qed.

(** A lowered join, spelled out. *)
Record lowered_join (r : HardwarePlacementRule) (build probe : ExecutionPlan) (node : JoinNode)
    (props : PlanProperties) (e : GpuHashJoinExec ExecutionPlan) (df_sel : list nat) : Prop := {
  lj_on : ∃ nb np, jn_on node = [(EColumn nb (gj_right_key e), EColumn np (gj_left_key e))];
  lj_type : jn_type node = Inner ∧ jn_has_filter node = false ∧
            jn_null_equality node = NullEqualsNothing;
  lj_left : gj_left e = probe;
  lj_right : gj_right e = build;
  lj_schema : gj_schema e = pp_schema props ∧ gj_properties e = plan_properties (pp_schema props)
                (node_partitioning probe) Incremental;
  lj_new : ∃ e0 e1, GpuHashJoinExec_try_new probe build (gj_left_key e) (gj_right_key e) (hr_target r)
             = Ok e0 ∧ gj_with_projection e0 (gj_projection e) = Ok e1 ∧
             ∃ f, e = gj_with_config f e1 ∧ ∀ c, cfg_target (f c) = cfg_target c;
  lj_ours : gj_projection e
            = Some (swap_side (length (fields (node_schema build)))
                              (length (fields (node_schema probe))) <$> df_sel);
  lj_fields : mapM (λ i, (fields (node_schema build) ++ fields (node_schema probe)) !! i) df_sel
              = Some (fields (pp_schema props));
  (** the selected columns are those of DataFusion's join *)
  lj_sel : join_schema_ok build probe node props → df_sel = df_projection build probe node;
}.

Lemma plain_inner_Some node on :
  plain_inner node = Some on →
  jn_on node = [on] ∧ jn_type node = Inner ∧ jn_has_filter node = false ∧
  jn_null_equality node = NullEqualsNothing.
Proof.
  unfold plain_inner. destruct (bool_decide (jn_type node = Inner)) eqn:Ht1; cbn; [|done].
  destruct (jn_has_filter node) eqn:Hf2; cbn; [done|].
  destruct (bool_decide (jn_null_equality node = NullEqualsNothing)) eqn:Hn3; cbn; [|done].
  apply bool_decide_eq_true in Ht1, Hn3. destruct (jn_on node) as [|x [|]]; [done| |done].
  by intros [= ->].
Qed.

Lemma column_index_Some e i : column_index e = Some i → ∃ n, e = EColumn n i.
Proof. destruct e; try done. intros [= <-]. by eexists. Qed.

Lemma lower_join_inv r build probe node props h h' e :
  lower_join r build probe node props h = (h', Ok (Some e)) →
  ∃ df_sel, lowered_join r build probe node props e df_sel.
Proof.
  unfold lower_join. destruct (plain_inner node) as [[b p]|] eqn:Hin; [|done].
  apply plain_inner_Some in Hin as (Hon & Htype).
  destruct (column_index b) as [bk|] eqn:Hb; [|done]. destruct (column_index p) as [pk|] eqn:Hp; [|done].
  apply column_index_Some in Hb as [nb ->]. apply column_index_Some in Hp as [np ->].
  intros (h1 & bf & Hbf & Hk)%pm_bind_Ok. apply pm_lift_Ok in Hbf as [-> _].
  destruct (negb _) in Hk; [done|].
  apply pm_bind_Ok in Hk as (h2 & pf & Hpf & Hk). apply pm_lift_Ok in Hpf as [-> _].
  destruct (negb _) in Hk; [done|].
  destruct (if jn_contains_projection node then _ else _) as [df_sel|] eqn:Hsel.
  2: { apply pm_bind_Ok in Hk as (? & ? & _ & Hk). done. }
  apply pm_bind_Ok in Hk as (h3 & e0 & He0 & Hk). apply pm_lift_Ok in He0 as [-> He0].
  apply pm_bind_Ok in Hk as (h4 & e1 & He1 & Hk). apply pm_lift_Ok in He1 as [-> He1].
  case_bool_decide as Hs; [|apply pm_bind_Ok in Hk as (? & ? & _ & Hk); done].
  injection Hk as _ <-. exists df_sel.
  destruct (instrument_cases r gj_with_config e1) as (f & -> & Hf); [by intros []|].
  destruct (join_new_Ok _ _ _ _ _ _ _ _ He0 He1) as (_ & _ & fs & _ & Hfs & He1').
  rewrite He1' in Hs. cbn in Hs.
  assert (mapM (λ i, (fields (node_schema build) ++ fields (node_schema probe)) !! i) df_sel
    = Some (fields (pp_schema props))) as Hfields.
  { rewrite <- Hs. cbn [fields Schema_new]. destruct (jn_contains_projection node) eqn:Hcp.
    - apply projected_indices_spec in Hsel. rewrite <- Hs in Hsel. exact Hsel.
    - injection Hsel as <-. rewrite swap_side_mapM in Hfs; [by rewrite <- Hfs|].
      apply Forall_forall. intros i Hi%elem_of_seq. exact (proj2 Hi). }
  subst e1. split; cbn; try done.
  - by exists nb, np.
  - by rewrite <- Hs.
  - eexists _, _. split; [exact He0|]. split; [exact He1|]. by exists f.
  - unfold join_schema_ok, df_projection, jn_contains_projection in *. destruct (jn_projection node) as [real|]; cbn.
    + intros Hok. symmetry. by eapply projected_indices_unique; [exact Hsel|apply Hok].
    + intros _. by injection Hsel as <-.
Qed.

(** C12: a hash join the rule lowers is an inner join on one plain [Int64]
    column per side, whose schema is that of the columns it selects; the node
    streams DataFusion's probe side against its build side, keeps the join's
    output schema field for field, and on every pair of inputs its output has
    exactly the rows of DataFusion's join over the join's own projection, each
    as often, although the sides are swapped and the projection, which the rule
    cannot see, is recovered from the fields and re-expressed. *)
Theorem lower_join_sound r build probe node props h h' e :
  lower_join r build probe node props h = (h', Ok (Some e)) → join_schema_ok build probe node props →
  lowered_join r build probe node props e (df_projection build probe node) ∧
  ∀ b p, typed (node_schema build) b → typed (node_schema probe) p →
    let bk := key_list (column_values b (gj_right_key e)) in
    let pk := key_list (column_values p (gj_left_key e)) in
    batch_rows (probe_output (length (fields (node_schema probe))) p b (join_pairs pk bk)
                  (fields (gj_schema e)) (default [] (gj_projection e)))
    ≡ₚ df_join_rows b p (gj_right_key e) (gj_left_key e) (df_projection build probe node).
Proof.
  intros (df_sel & Hlow)%lower_join_inv Hschema.
  pose proof (lj_sel _ _ _ _ _ _ _ Hlow Hschema) as Hsel. rewrite <- Hsel. split; [done|]. clear Hsel.
  intros b p Hb Hp bk pk. destruct (lj_new _ _ _ _ _ _ _ Hlow) as (e0 & e1 & He0 & He1 & _).
  destruct (join_new_Ok _ _ _ _ _ _ _ _ He0 He1) as ((pf & Hpf & _) & (bf & Hbf & _) & _).
  rewrite (lj_ours _ _ _ _ _ _ _ Hlow), (proj1 (lj_schema _ _ _ _ _ _ _ Hlow)).
  pose proof (lj_fields _ _ _ _ _ _ _ Hlow) as Hfs. apply mapM_Some_1 in Hfs.
  set (bl := length (fields (node_schema build))) in *. set (pl := length (fields (node_schema probe))) in *.
  assert (∀ i, i ∈ df_sel → (i < bl + pl)%nat) as Hrange.
  { intros i [j Hj]%list_elem_of_lookup_1.
    destruct (Forall2_lookup_l _ _ _ _ _ Hfs Hj) as (f & _ & Hf%lookup_lt_Some).
    by rewrite length_app in Hf. }
  assert (∀ s x i, typed s x → (i < length (fields s))%nat →
    length (column_values x i) = num_rows x) as Hlen.
  { intros s x i Hx Hi. destruct (lookup_lt_is_Some_2 _ _ Hi) as [f Hf].
    by apply (typed_column s x i f). }
  assert (length pk = num_rows p ∧ length bk = num_rows b) as [Hpk Hbk].
  { unfold pk, bk, key_list. rewrite !length_fmap.
    split; eapply Hlen; [exact Hp| |exact Hb|]; by eapply lookup_lt_Some. }
  cbn [default from_option id]. rewrite probe_output_rows.
  - unfold df_join_rows. fold bk pk. rewrite (proj2 Hb). fold bl.
    rewrite <- (join_pairs_swap pk bk), <- list_fmap_compose.
    apply Permutation_refl', list_fmap_ext. intros _ q _. unfold joined_row, compose. cbn [fst snd swap_pair].
    rewrite <- list_fmap_compose. apply list_fmap_ext. intros j i Hj. unfold compose, swap_side.
    pose proof (Hrange i (list_elem_of_lookup_2 _ _ _ Hj)).
    destruct (Nat.ltb_spec i bl).
    + destruct (Nat.ltb_spec (pl + i) pl); [lia|]. by replace (pl + i - pl)%nat with i by lia.
    + destruct (Nat.ltb_spec (i - bl) pl); [done|lia].
  - rewrite length_fmap. symmetry. by eapply Forall2_length.
  - intros i (i0 & -> & Hi)%list_elem_of_fmap Hlt. rewrite Hpk. by eapply Hlen.
  - intros i (i0 & -> & Hi)%list_elem_of_fmap Hge. rewrite Hbk. eapply Hlen; [exact Hb|].
    pose proof (Hrange i0 Hi). unfold swap_side in *. fold bl. destruct (Nat.ltb_spec i0 bl); lia.
Qed.
End Lowering.
