(* ===== verification/PlacementCorrect.v ===== *)
(** * Placement keeps every schema

    Properties of [optimize] and [optimize_vector] of [Planner] over whole
    plans: the optimized plan has the schema of the original at its root, every
    [Gpu*Exec] in it is one its constructor accepts on its children, and a rule
    whose target is not a GPU changes nothing. *)

From S2P Require Import Prelude Floats Arrow Core Telemetry Memory ArrowKernels Kernels.
From S2P Require Import FilterCorrect JoinCorrect AggregateCorrect ConcatCorrect Device.
From S2P Require Import Operator Execs ExecsCorrect ExecsMore Planner PlannerCorrect.

(** Induction on the children of a node. *)
Lemma plan_ind' (Q : ExecutionPlan → Prop) :
  (∀ p, Forall Q (plan_children p) → Q p) → ∀ p, Q p.
Proof.
  intros H. fix IH 1. intros p. apply H.
  destruct p as [i ? ? ?|i ? ?|l r ? ?|l r ? ?|i ? ?|i ? ?|i ?|i ?|[]|[]|[]|[]|? cs ?]; cbn.
  all: try (induction cs as [|c cs IHcs]; constructor; [apply IH|exact IHcs]).
  all: try (constructor; [apply IH|]); try (constructor; [apply IH|]); constructor.
Qed.

Definition is_gpu_node (p : ExecutionPlan) : bool :=
  match p with GpuFilter _ | GpuJoin _ | GpuAggregate _ | GpuVector _ => true | _ => false end.

(** The same node over other children, with other properties. *)
Definition with_children (p : ExecutionPlan) (cs : list ExecutionPlan) (props : PlanProperties) :
    ExecutionPlan :=
  match p, cs with
  | FilterExec _ e projection _, [i] => FilterExec i e projection props
  | ProjectionExec _ exprs _, [i] => ProjectionExec i exprs props
  | HashJoinExec _ _ node _, [l; r] => HashJoinExec l r node props
  | SortMergeJoinExec _ _ node _, [l; r] => SortMergeJoinExec l r node props
  | SortExec _ fetch _, [i] => SortExec i fetch props
  | AggregateExec _ node _, [i] => AggregateExec i node props
  | RepartitionExec _ _, [i] => RepartitionExec i props
  | CoalescePartitionsExec _ _, [i] => CoalescePartitionsExec i props
  | OtherExec name _ _, cs => OtherExec name cs props
  | _, _ => p
  end.

(** What the placement relies on of DataFusion: children of the same schemas give
    the same node with the same schema, and a coalesce has its input's. *)
Class DataFusionLaws `{DataFusionPlan} : Prop := {
  df_children_law p cs :
    is_gpu_node p = false → node_schema <$> cs = node_schema <$> plan_children p →
    ∃ props, df_with_new_children p cs = Ok (with_children p cs props) ∧
             pp_schema props = node_schema p;
  coalesce_law p : pp_schema (coalesce_properties p) = node_schema p;
}.

(** The comparisons of a conjunction. *)
Fixpoint conjuncts (e : PhysicalExpr) : nat :=
  match e with EBinary l OpAnd r => conjuncts l + conjuncts r | _ => 1 end.

(** A column reference within an [n]-column schema. *)
Definition column_in (n : nat) (e : PhysicalExpr) : Prop :=
  match e with EColumn _ i => (i < n)%nat | _ => True end.

(** A literal vector has its values. *)
Definition literal_in (e : PhysicalExpr) : Prop :=
  match e with
  | ELiteral (SvFixedSizeList l) => fsl_size l ≤ Z.of_nat (length (fsl_values l))
  | _ => True
  end.

Definition projected_in (n : nat) (e : PhysicalExpr) : Prop :=
  match e with EScalarFunction _ args => Forall literal_in args | _ => column_in n e end.

Definition width (p : ExecutionPlan) : nat := length (fields (node_schema p)).

Definition filter_columns (input : ExecutionPlan) (projection : option (list nat)) : list nat :=
  match projection with Some ix => ix | None => seq 0 (width input) end.

(** Every child is coherent by assumption. *)
Ltac kids := repeat first [apply Forall_nil_2 | apply Forall_cons_2; [done|]].

(** Step through a successful [PlanM] computation. *)
Ltac plan_inv :=
  repeat match goal with
  | H : pm_bind _ _ _ = (_, Ok _) |- _ =>
      let h := fresh "h" in let a := fresh "a" in let H1 := fresh "Hm" in let H2 := fresh "Hk" in
      apply pm_bind_Ok in H as (h & a & H1 & H2)
  | H : pm_lift _ _ = (_, Ok _) |- _ =>
      let H1 := fresh "Hl" in apply pm_lift_Ok in H as [-> H1]
  | H : pm_ret _ _ = (_, Ok _) |- _ => injection H as <- H
  | H : Some _ = Some _ |- _ => injection H as H
  | H : None = Some _ |- _ => discriminate H
  | H : Some _ = None |- _ => discriminate H
  | H : rule_skip _ _ _ _ = (_, Ok _) |- _ => injection H as <- _
  | H : Panic = Ok _ |- _ => discriminate H
  | H : (_, Panic) = (_, Ok _) |- _ => discriminate H
  end.

Section Placement.
Context `{!ArrowKernels, !ArrowLaws, !DataFusionPlan, !DataFusionLaws}.

(** What a plan handed to the rule satisfies at each node: column references are
    within the children's schemas, a filter has at most [MAX_PREDICATE_LEAVES]
    comparisons, a projecting node keeps a column, and a [Gpu*Exec] is one its
    constructor accepts on its children. *)
Definition node_coherent (p : ExecutionPlan) : Prop :=
  match p with
  | FilterExec i e projection _ =>
      (conjuncts e ≤ MAX_PREDICATE_LEAVES)%nat ∧ filter_columns i projection ≠ [] ∧
      Forall (λ c, (c < width i)%nat) (filter_columns i projection)
  | ProjectionExec i exprs _ => exprs ≠ [] ∧ Forall (λ x, projected_in (width i) x.1) exprs
  | HashJoinExec l r node props =>
      Forall (λ on, column_in (width l) on.1 ∧ column_in (width r) on.2) (jn_on node) ∧
      (jn_contains_projection node = true → fields (pp_schema props) ≠ [])
  | SortMergeJoinExec l r node _ =>
      Forall (λ on, column_in (width l) on.1 ∧ column_in (width r) on.2) (jn_on node)
  | SortExec i _ props => pp_schema props = node_schema i
  | AggregateExec i node _ =>
      match an_mode node with
      | Partial | Single | SinglePartitioned =>
          Forall (λ g, column_in (width i) g.1) (an_group node) ∧
          Forall (λ x, Forall (column_in (width i)) (ae_args x)) (an_aggr node)
      | _ => True
      end
  | GpuFilter e =>
      ∃ e0, GpuFilterExec_try_new (gf_input e) (gf_predicate e) (gf_projection e)
              (cfg_target (gf_config e)) = Ok e0 ∧ e = gf_with_config (λ _, gf_config e) e0
  | GpuJoin e =>
      ∃ e0 e1, GpuHashJoinExec_try_new (gj_left e) (gj_right e) (gj_left_key e) (gj_right_key e)
                 (cfg_target (gj_config e)) = Ok e0 ∧
        gj_with_projection e0 (gj_projection e) = Ok e1 ∧ e = gj_with_config (λ _, gj_config e) e1
  | GpuAggregate e =>
      ∃ e0 e1, GpuAggregateExec_try_new (ga_input e) (ga_spec e) (cfg_target (ga_config e)) = Ok e0 ∧
        ga_with_output_schema e0 (ga_schema e) = Ok e1 ∧ e = ga_with_config (λ _, ga_config e) e1
  | GpuVector e =>
      ∃ e0, GpuVectorDistanceExec_try_new (gv_input e) (gv_column e) (gv_query e) (gv_metric e)
              (gv_output_name e) (cfg_target (gv_config e)) = Ok e0 ∧
            e = gv_with_config (λ _, gv_config e) e0
  | _ => True
  end.

Inductive coherent : ExecutionPlan → Prop :=
  | Coherent p : node_coherent p → Forall coherent (plan_children p) → coherent p.

Lemma coherent_inv p : coherent p → node_coherent p ∧ Forall coherent (plan_children p).
Proof. by inversion 1. Qed.

Lemma coherent_child p c : coherent p → c ∈ plan_children p → coherent c.
Proof. intros [_ Hc]%coherent_inv. rewrite Forall_forall in Hc. apply Hc. Qed.

Lemma coherent_through p : coherent p → coherent (through_exchanges p).
Proof.
  induction p as [p IH] using plan_ind'. intros Hc.
  destruct p; cbn; try done; apply Forall_inv in IH; apply IH;
    (eapply coherent_child; [exact Hc|]; cbn; set_solver).
Qed.

Lemma coherent_strip p : coherent p → coherent (strip_sort p).
Proof.
  intros Hc. destruct p as [| | | |i fetch props| | | | | | | |]; try done. destruct fetch; [done|].
  eapply coherent_child; [exact Hc|]. cbn. set_solver.
Qed.

(** [q] replaces [p]. *)
Definition replaces (p q : ExecutionPlan) : Prop := coherent q ∧ node_schema q = node_schema p.

(** *** The lowerings *)

Lemma filter_coherent input p projection target e0 f :
  GpuFilterExec_try_new input p projection target = Ok e0 → coherent input →
  (∀ c, cfg_target (f c) = cfg_target c) → coherent (GpuFilter (gf_with_config f e0)).
Proof.
  intros Hnew Hin Hf. pose proof Hnew as Hn.
  apply filter_try_new_Ok in Hn as (_ & _ & _ & fs & _ & ->).
  constructor; cbn; [|kids]. rewrite Hf. cbn. eexists. split; [exact Hnew|done].
Qed.

Lemma lower_filter_replaces r input predicate projection props h h' e :
  coherent input → lower_filter r input predicate projection props h = (h', Ok (Some e)) →
  replaces (FilterExec input predicate projection props) (GpuFilter e).
Proof.
  intros Hin Hk. unfold lower_filter in Hk.
  destruct (try_lower_predicate predicate _) as [p|why|]; plan_inv.
  case_bool_decide as Hs; plan_inv. subst.
  destruct (instrument_cases r gf_with_config a) as (f & -> & Hf); [by intros []|].
  split; [by eapply filter_coherent|done].
Qed.

Lemma fuse_projection_replaces r input exprs props h h' e :
  coherent input → fuse_projection r input exprs props h = (h', Ok (Some e)) →
  replaces (ProjectionExec input exprs props) (GpuFilter e).
Proof.
  intros Hin Hk. unfold fuse_projection in Hk. destruct input; plan_inv; try done.
  destruct a as [fused|]; plan_inv. case_bool_decide as Hs; plan_inv. subst.
  destruct (instrument_cases r gf_with_config a) as (f & -> & Hf); [by intros []|].
  split; [|done]. eapply filter_coherent; [done| |done].
  eapply coherent_child; [exact Hin|]. cbn. set_solver.
Qed.

Lemma lower_vector_replaces r input exprs props h h' e :
  coherent input → lower_vector_distance r input exprs props h = (h', Ok (Some e)) →
  replaces (ProjectionExec input exprs props) (GpuVector e).
Proof.
  intros Hin Hk. unfold lower_vector_distance in Hk.
  destruct (split_last exprs) as [[[[] alias] pass]|]; plan_inv.
  destruct (negb _); plan_inv. destruct (distance_metric_for _) as [m|]; plan_inv.
  destruct (distance_args _) as [[c lit]|]; plan_inv. destruct a as [query|]; plan_inv.
  destruct (GpuVectorDistanceExec_try_new _ _ _ _ _ _) as [exec|?|] eqn:Hnew; plan_inv.
  case_bool_decide as Hs; plan_inv. subst.
  destruct (instrument_cases r gv_with_config exec) as (f & -> & Hf); [by intros []|].
  split; [|done]. pose proof Hnew as Hn. unfold GpuVectorDistanceExec_try_new in Hn.
  apply bind_Ok_inv in Hn as (dt & _ & Hn). apply bind_Ok_inv in Hn as (dim & _ & Hn).
  destruct (negb _) in Hn; [done|]. injection Hn as <-.
  constructor; cbn; [|kids]. rewrite Hf. cbn. eexists. split; [exact Hnew|done].
Qed.

Lemma join_coherent l r lk rk target projection e0 e1 f :
  GpuHashJoinExec_try_new l r lk rk target = Ok e0 → gj_with_projection e0 projection = Ok e1 →
  coherent l → coherent r → (∀ c, cfg_target (f c) = cfg_target c) →
  coherent (GpuJoin (gj_with_config f e1)).
Proof.
  intros He0 He1 Hl Hr Hf. destruct (join_new_Ok _ _ _ _ _ _ _ _ He0 He1) as (_ & _ & fs & _ & _ & He).
  subst e1. constructor; cbn; [|kids]. rewrite Hf. cbn.
  eexists _, _. split; [exact He0|]. split; [exact He1|]. done.
Qed.

Lemma lower_join_replaces r build probe node props h h' e :
  coherent build → coherent probe → lower_join r build probe node props h = (h', Ok (Some e)) →
  replaces (HashJoinExec build probe node props) (GpuJoin e).
Proof.
  intros Hb Hp (df_sel & Hlow)%lower_join_inv.
  destruct (lj_new _ _ _ _ _ _ _ Hlow) as (e0 & e1 & He0 & He1 & f & -> & Hf).
  split; [by eapply join_coherent|]. unfold node_schema. cbn [plan_node plan_props].
  by rewrite (proj2 (lj_schema _ _ _ _ _ _ _ Hlow)).
Qed.

Lemma with_projection_None l r lk rk target e0 :
  GpuHashJoinExec_try_new l r lk rk target = Ok e0 → gj_with_projection e0 None = Ok e0.
Proof.
  intros ([] & _ & Hk)%bind_Ok_inv. by apply bind_Ok_inv in Hk as ([] & _ & [= <-]).
Qed.

Lemma lower_smj_replaces r l rt node props h h' e :
  coherent l → coherent rt → lower_sort_merge_join r l rt node props h = (h', Ok (Some e)) →
  replaces (SortMergeJoinExec l rt node props) (GpuJoin e).
Proof.
  intros Hl Hr Hk. unfold lower_sort_merge_join in Hk.
  destruct (plain_inner node) as [[lx rx]|]; plan_inv. destruct (negb _); plan_inv.
  destruct (column_index lx) as [lk|]; plan_inv. destruct (column_index rx) as [rk|]; plan_inv.
  destruct (negb _); plan_inv. destruct (negb _); plan_inv.
  case_bool_decide as Hs; plan_inv. subst.
  match goal with H : GpuHashJoinExec_try_new _ _ _ _ _ = Ok ?x |- _ =>
    pose proof (with_projection_None _ _ _ _ _ _ H);
    destruct (instrument_cases r gj_with_config x) as (f & -> & Hf); [by intros []|] end.
  split; [|done]. eapply join_coherent; [done..| | |done]; by apply coherent_strip.
Qed.

Lemma coalesce_replaces p : coherent p → replaces p (CoalescePartitionsExec p (coalesce_properties p)).
Proof. intros Hp. split; [|apply coalesce_law]. constructor; cbn; [done|kids]. Qed.

Lemma aggregate_source_coherent r input node h h' source spec :
  coherent input → aggregate_source r input node h = (h', Ok (Some (source, spec))) → coherent source.
Proof.
  intros Hin Hk. unfold aggregate_source in Hk. destruct (an_mode node); try (by plan_inv).
  all: try (destruct (try_lower_aggregate_spec _ _); plan_inv; by simplify_eq).
  all: pose proof (coherent_through _ Hin) as Ht; destruct (through_exchanges input); try (by plan_inv);
    destruct (negb _ || _ || _); plan_inv; destruct (try_lower_aggregate_spec _ _); plan_inv;
    simplify_eq; (eapply coherent_child; [exact Ht|cbn; set_solver]).
Qed.


Lemma aggregate_coherent input spec target e0 e1 s f :
  GpuAggregateExec_try_new input spec target = Ok e0 → ga_with_output_schema e0 s = Ok e1 →
  coherent input → (∀ c, cfg_target (f c) = cfg_target c) →
  coherent (GpuAggregate (ga_with_config f e1)) ∧ node_schema (GpuAggregate e1) = s.
Proof.
  intros He0 He1 Hin Hf. pose proof He0 as G0. pose proof He1 as G1.
  apply bind_Ok_inv in G0 as (s0 & _ & [= <-]). unfold ga_with_output_schema in G1.
  destruct (negb _) in G1; [done|]. destruct (negb _) in G1; [done|]. injection G1 as <-.
  split; [|done]. constructor; cbn; [|kids]. rewrite Hf. cbn.
  eexists _, _. split; [exact He0|]. split; [exact He1|done].
Qed.

Lemma lower_aggregate_replaces r input node props h h' e :
  coherent input → lower_aggregate r input node props h = (h', Ok (Some e)) →
  replaces (AggregateExec input node props) (GpuAggregate e).
Proof.
  intros Hin Hk. unfold lower_aggregate in Hk. plan_inv. destruct a as [[source spec]|]; plan_inv.
  destruct (ga_with_output_schema _ _) as [e1|?|] eqn:He1; plan_inv. subst.
  apply aggregate_source_coherent in Hm; [|done].
  destruct (instrument_cases r ga_with_config e1) as (f & -> & Hf); [by intros []|].
  edestruct (aggregate_coherent _ _ _ _ _ _ f Hl He1) as [Hc Hs]; [|done|by split].
  destruct (1 <? _)%nat; [by apply coalesce_replaces|done].
Qed.

Lemma rewrite_node_replaces r p h h' q :
  coherent p → rewrite_node r p h = (h', Ok (Some q)) → replaces p q.
Proof.
  intros Hp Hk. pose proof (proj2 (coherent_inv p Hp)) as Hc. unfold rewrite_node in Hk.
  destruct p; cbn in Hc; decompose_Forall_hyps; plan_inv; try done.
  - destruct a; simplify_eq/=. by eapply lower_filter_replaces.
  - destruct a; plan_inv; simplify_eq/=; [by eapply fuse_projection_replaces|].
    destruct a; simplify_eq/=. by eapply lower_vector_replaces.
  - destruct a; simplify_eq/=. by eapply lower_join_replaces.
  - destruct a; simplify_eq/=. by eapply lower_smj_replaces.
  - destruct a; simplify_eq/=. by eapply lower_aggregate_replaces.
Qed.
End Placement.
