(* ===== verification/PlacementTotal.v ===== *)
(** * Placement succeeds and keeps every schema

    On a coherent plan every lowering returns, so [optimize] and
    [optimize_vector] of [Planner] return a coherent plan of the same schema;
    and what they do with the plans that are not coherent. *)

From S2P Require Import Prelude Floats Arrow Core Telemetry Memory ArrowKernels Kernels.
From S2P Require Import FilterCorrect JoinCorrect AggregateCorrect ConcatCorrect Device.
From S2P Require Import Operator Execs ExecsCorrect ExecsMore Planner PlannerCorrect.
From S2P Require Import PlacementCorrect.

(** ** Computations that return *)

Definition returns {A} (m : PlanM A) (Q : A → Prop) : Prop := ∀ h, ∃ h' a, m h = (h', Ok a) ∧ Q a.

Lemma returns_ret {A} (a : A) (Q : A → Prop) : Q a → returns (pm_ret a) Q.
Proof. intros Ha h. by exists h, a. Qed.

Lemma returns_lift {A} (r : df_result A) a (Q : A → Prop) : r = Ok a → Q a → returns (pm_lift r) Q.
Proof. intros -> Ha h. by exists h, a. Qed.

Lemma returns_bind {A B} (m : PlanM A) (f : A → PlanM B) (Q : A → Prop) (R : B → Prop) :
  returns m Q → (∀ a, Q a → returns (f a) R) → returns (pm_bind m f) R.
Proof.
  intros Hm Hf h. destruct (Hm h) as (h1 & a & Ha & HQ). destruct (Hf a HQ h1) as (h2 & b & Hb & HR).
  exists h2, b. unfold pm_bind. by rewrite Ha.
Qed.

Lemma returns_skip {B} r node why (b : B) (R : B → Prop) :
  R b → returns (plan! _ := rule_skip r node why in pm_ret b) R.
Proof. intros Hb h. eexists _, b. by split. Qed.

Lemma returns_partial {A} (m : PlanM A) (Q : A → Prop) :
  returns m (λ _, True) → (∀ h h' a, m h = (h', Ok a) → Q a) → returns m Q.
Proof. intros Hm Hp h. destruct (Hm h) as (h' & a & Ha & _). exists h', a. split; [done|by eapply Hp]. Qed.

Create HintDb placement.
#[export] Hint Resolve returns_ret returns_skip : placement.

Definition no_panic {E A} (r : res E A) : Prop := r ≠ Panic.

Lemma no_panic_bind {E A B} (m : res E A) (f : A → res E B) :
  no_panic m → (∀ a, no_panic (f a)) → no_panic (m ≫= f).
Proof. destruct m; [by eauto|done..]. Qed.

Lemma no_panic_ok_or {E A} (o : option A) (e : E) : no_panic (ok_or o e).
Proof. by destruct o. Qed.

Lemma try_lower_predicate_no_panic e s : no_panic (try_lower_predicate e s).
Proof.
  induction e as [| |l IHl op r IHr| |]; try done. cbn.
  destruct op; try (apply no_panic_bind; [apply no_panic_ok_or|intros o; apply no_panic_bind]).
  all: try by repeat case_match.
  all: try (intros [[c lit] o']; apply no_panic_bind; [apply no_panic_ok_or|intros f; by case_match]).
  apply no_panic_bind; [done|]. intros p1. by apply no_panic_bind.
Qed.

Lemma lowered_leaves e s p : try_lower_predicate e s = Ok p → leaf_count p = conjuncts e.
Proof.
  revert p. induction e as [| |l IHl op r IHr| |]; intros p Hp; try done.
  destruct (to_comparison op) as [o|] eqn:Ho.
  - cbn in Hp. destruct op; try done; cbn in *.
    all: apply bind_Ok_inv in Hp as ([[c lit] o'] & _ & Hp); apply bind_Ok_inv in Hp as (f & _ & Hp);
      case_bool_decide; [|done]; by injection Hp as <-.
  - destruct op; try done. cbn in Hp. apply bind_Ok_inv in Hp as (p1 & H1 & Hp).
    apply bind_Ok_inv in Hp as (p2 & H2 & [= <-]). cbn. by rewrite (IHl _ H1), (IHr _ H2).
Qed.

Lemma lookups_Some {A} (l : list A) ix :
  Forall (λ i, (i < length l)%nat) ix → ∃ xs, mapM (λ i, l !! i) ix = Some xs.
Proof.
  intros Hix. destruct (mapM _ ix) as [xs|] eqn:Hm; [by exists xs|].
  apply mapM_None_1, Exists_exists in Hm as (i & Hi & Hn). apply lookup_ge_None in Hn.
  rewrite Forall_forall in Hix. specialize (Hix i Hi). lia.
Qed.

Lemma index_lt {E A} (l : list A) i : (i < length l)%nat → ∃ a, index (E:=E) l i = Ok a ∧ l !! i = Some a.
Proof. intros [a Ha]%lookup_lt_is_Some_2. exists a. unfold index. by rewrite Ha. Qed.

Section Total.
Context `{!ArrowKernels, !ArrowLaws, !DataFusionPlan, !DataFusionLaws}.

Lemma filter_try_new_total input p ix target :
  pred_typed (node_schema input) p → (leaf_count p ≤ MAX_PREDICATE_LEAVES)%nat → ix ≠ [] →
  Forall (λ c, (c < width input)%nat) ix →
  ∃ e, GpuFilterExec_try_new input p ix target = Ok e.
Proof.
  intros Hp Hl Hne Hix. destruct (lookups_Some _ _ Hix) as [fs Hfs].
  eexists. apply filter_try_new_Ok. split_and!; [done..|]. by exists fs.
Qed.

Lemma lower_filter_returns r i e projection props :
  node_coherent (FilterExec i e projection props) →
  returns (lower_filter r i e projection props) (λ _, True).
Proof.
  intros (Hc & Hne & Hix). unfold lower_filter.
  destruct (try_lower_predicate e (node_schema i)) as [p|why|] eqn:Hp.
  - destruct (lowered_predicate_forward _ _ _ Hp) as (_ & Ht & _). apply lowered_leaves in Hp as Hl.
    destruct (filter_try_new_total i p (filter_columns i projection) (hr_target r)) as [x Hx];
      [done|lia|done..|].
    eapply (returns_bind _ _ (λ _, True)); [by eapply returns_lift|]. intros a _.
    case_bool_decide; auto with placement.
  - auto with placement.
  - by destruct (try_lower_predicate_no_panic e (node_schema i)).
Qed.

Lemma fused_columns_total (s : Schema) ix exprs :
  length ix = length (fields s) → Forall (λ x, projected_in (length (fields s)) x.1) exprs →
  ∃ o, fused_columns s ix exprs = Ok o ∧
       ∀ l, o = Some l → length l = length exprs ∧ Forall (λ c, c ∈ ix) l.
Proof.
  intros Hlen. induction 1 as [|[e alias] exprs He _ (o & Ho & Hl)]; cbn.
  { exists (Some []). split; [done|]. by intros l [= <-]. }
  destruct (column_index e) as [i|] eqn:Hi; [|by exists None].
  apply column_index_Some in Hi as [n ->]. cbn in He.
  destruct (index_lt (E:=DataFusionError) (fields s) i He) as (f & Hf & _). rewrite Hf. cbn.
  case_bool_decide; cbn; [|by exists None].
  destruct (index_lt (E:=DataFusionError) ix i) as (c & Hc & Hc'); [lia|]. rewrite Hc. cbn.
  rewrite Ho. cbn. eexists. split; [done|]. destruct o as [k|]; [|done]. intros l [= <-].
  destruct (Hl k eq_refl) as [Hk1 Hk2]. split; [cbn; by rewrite Hk1|]. constructor; [|done].
  by eapply list_elem_of_lookup_2.
Qed.

Lemma fuse_projection_returns r i exprs props :
  node_coherent (ProjectionExec i exprs props) → coherent i →
  returns (fuse_projection r i exprs props) (λ _, True).
Proof.
  intros [Hne Hin] [Hi _]%coherent_inv. unfold fuse_projection.
  destruct i as [| | | | | | | |filter| | | |]; auto with placement.
  destruct Hi as (e0 & He0 & He). apply filter_try_new_Ok in He0 as (Hp & Hl & _ & fs & Hfs & He0).
  pose proof (mapM_Some_1 _ _ _ Hfs) as Hfs2.
  assert (node_schema (GpuFilter filter) = mkSchema fs (schema_metadata (node_schema (gf_input filter))))
    as Hs by (rewrite He, He0; done).
  unfold width in Hin. rewrite Hs in *.
  edestruct (fused_columns_total (mkSchema fs (schema_metadata (node_schema (gf_input filter))))
    (gf_projection filter) exprs) as (o & Ho & Hcols); [by eapply Forall2_length|done|].
  eapply returns_bind; [eapply (returns_lift _ _ (λ a, a = o) Ho); done|]. intros ? ->.
  destruct o as [fused|]; auto with placement. destruct (Hcols fused eq_refl) as [Hlen Hsub].
  destruct (filter_try_new_total (gf_input filter) (gf_predicate filter) fused (hr_target r))
    as [x Hx]; [done|done|..].
  - by destruct fused, exprs.
  - apply (Forall_impl _ _ _ Hsub). intros c [j Hj]%list_elem_of_lookup_1.
    destruct (Forall2_lookup_l _ _ _ _ _ Hfs2 Hj) as (f & _ & Hf). by eapply lookup_lt_Some.
  - eapply (returns_bind _ _ (λ _, True)); [by eapply returns_lift|]. intros a _.
    case_bool_decide; auto with placement.
Qed.

Lemma literal_query_total v : literal_in (ELiteral v) → ∃ q, literal_query v = Ok q.
Proof.
  destruct v as [| |l|]; cbn; intros Hl; try by eexists.
  destruct (fsl_valid l) as [|[] [|]]; try by eexists.
  destruct (negb _); [by eexists|]. destruct (negb _); [by eexists|].
  destruct (Z.ltb_spec (fsl_size l) 0); [by eexists|]. unfold slice. rewrite length_fmap.
  rewrite (proj2 (Z.leb_le 0 (fsl_size l))), (proj2 (Z.leb_le (fsl_size l) _)) by lia. by eexists.
Qed.

Lemma distance_args_literal args c v :
  Forall literal_in args → distance_args args = Some (c, v) → literal_in (ELiteral v).
Proof.
  intros Ha Hd. destruct args as [|[] [|[] [|]]]; try done; cbn in Hd; injection Hd as <- <-;
    by decompose_Forall_hyps.
Qed.

Lemma vector_try_new_no_panic (input : ExecutionPlan) c q m n t :
  no_panic (GpuVectorDistanceExec_try_new input c q m n t).
Proof.
  apply no_panic_bind; [apply no_panic_ok_or|]. intros dt. apply no_panic_bind; [apply no_panic_ok_or|].
  intros dim. by case_match.
Qed.

Lemma split_last_in {A} (l : list A) x k : split_last l = Some (x, k) → x ∈ l.
Proof.
  unfold split_last. destruct (rev l) as [|y ys] eqn:Hr; [done|]. intros [= -> _].
  apply list_elem_of_In, in_rev. rewrite Hr. by left.
Qed.

Lemma lower_vector_returns r i exprs props :
  node_coherent (ProjectionExec i exprs props) →
  returns (lower_vector_distance r i exprs props) (λ _, True).
Proof.
  intros [_ Hin]. unfold lower_vector_distance.
  destruct (split_last exprs) as [[[[] alias] pass]|] eqn:Hl; auto with placement.
  apply split_last_in in Hl. rewrite Forall_forall in Hin. specialize (Hin _ Hl). cbn in Hin.
  destruct (negb _); auto with placement.
  destruct (distance_metric_for name) as [m|]; auto with placement.
  destruct (distance_args args) as [[c v]|] eqn:Hd; auto with placement.
  destruct (literal_query_total v) as [q Hq]; [by eapply distance_args_literal|].
  eapply returns_bind; [eapply (returns_lift _ _ (λ a, a = q) Hq); done|]. intros ? ->.
  destruct q as [q|]; auto with placement.
  destruct (GpuVectorDistanceExec_try_new i c q m alias (hr_target r)) eqn:Hn; auto with placement.
  - case_bool_decide; auto with placement.
  - by destruct (vector_try_new_no_panic _ _ _ _ _ _ Hn).
Qed.

Definition int64_at (p : ExecutionPlan) (k : nat) : Prop :=
  ∃ f, fields (node_schema p) !! k = Some f ∧ field_type_of f = Int64.

Lemma join_try_new_total l r lk rk target :
  int64_at l lk → int64_at r rk → ∃ e, GpuHashJoinExec_try_new l r lk rk target = Ok e ∧
    gj_left e = l ∧ gj_right e = r.
Proof.
  intros Hl%check_join_key_Ok Hr%check_join_key_Ok. unfold GpuHashJoinExec_try_new.
  rewrite Hl, Hr. by eexists.
Qed.

Lemma join_with_projection_total (e : GpuHashJoinExec ExecutionPlan) ix :
  ix ≠ [] → Forall (λ i, (i < width (gj_left e) + width (gj_right e))%nat) ix →
  ∃ e', gj_with_projection e (Some ix) = Ok e'.
Proof.
  intros Hne Hix. unfold width in Hix. rewrite <- length_app in Hix.
  destruct (lookups_Some _ _ Hix) as [fs Hfs]. unfold gj_with_projection.
  destruct ix as [|i ix]; [done|]. unfold joined_schema.
  rewrite (schema_project_law (Schema_new _) _ fs Hfs). by eexists.
Qed.

(** A key column the rule has read and found to be [Int64]. *)
Lemma returns_key {B} (p : ExecutionPlan) k (f : Field → PlanM (option B)) :
  (k < width p)%nat →
  (int64_at p k → ∀ x, field_type_of x = Int64 → returns (f x) (λ _, True)) →
  returns (plan! x := pm_lift (index (fields (node_schema p)) k) in
           if negb (bool_decide (field_type_of x = Int64)) then pm_ret None else f x) (λ _, True).
Proof.
  intros Hk Hf. destruct (index_lt (E:=DataFusionError) _ _ Hk) as (x & Hx & Hx').
  eapply returns_bind; [eapply (returns_lift _ _ (λ a, a = x) Hx); done|]. intros ? ->.
  case_bool_decide as Ht; cbn; [|auto with placement]. apply Hf; [by exists x|done].
Qed.

Lemma swap_side_range bl pl ix :
  Forall (λ i, (i < bl + pl)%nat) ix → Forall (λ i, (i < pl + bl)%nat) (swap_side bl pl <$> ix).
Proof.
  intros Hix. apply Forall_fmap. apply (Forall_impl _ _ _ Hix). intros i Hi. cbn in *. unfold swap_side.
  destruct (Nat.ltb_spec i bl); lia.
Qed.

Lemma projected_indices_range full out ix :
  projected_indices full out = Some ix →
  length ix = length out ∧ Forall (λ i, (i < length full)%nat) ix.
Proof.
  intros Hm%projected_indices_spec%mapM_Some_1. split; [by eapply Forall2_length|].
  apply Forall_forall. intros i [j Hj]%list_elem_of_lookup_1.
  destruct (Forall2_lookup_l _ _ _ _ _ Hm Hj) as (f & _ & Hf). by eapply lookup_lt_Some.
Qed.

Lemma lower_join_returns r build probe node props :
  node_coherent (HashJoinExec build probe node props) →
  returns (lower_join r build probe node props) (λ _, True).
Proof.
  intros [Hon Hout]. unfold lower_join.
  destruct (plain_inner node) as [[b p]|] eqn:Hin; auto with placement.
  apply plain_inner_Some in Hin as [Heq _]. rewrite Heq in Hon. apply Forall_singleton in Hon as [Hb Hp].
  destruct (column_index b) as [bk|] eqn:Hbk; auto with placement.
  destruct (column_index p) as [pk|] eqn:Hpk; auto with placement.
  apply column_index_Some in Hbk as [nb ->]. apply column_index_Some in Hpk as [np ->]. cbn [column_in fst snd] in Hb, Hp.
  apply returns_key; [done|]. intros Hbt _ _. apply returns_key; [done|]. intros Hpt _ _.
  destruct (if jn_contains_projection node then _ else _) as [sel|] eqn:Hsel; [|auto with placement].
  assert (sel ≠ [] ∧ Forall (λ i, (i < width build + width probe)%nat) sel) as [Hne Hrange].
  { destruct (jn_contains_projection node).
    - apply projected_indices_range in Hsel as [Hlen Hr]. rewrite length_app in Hr. split; [|exact Hr].
      intros ->. by destruct (fields (pp_schema props)); [destruct (Hout eq_refl)|].
    - injection Hsel as <-. split; [|apply Forall_forall; intros i Hi%elem_of_seq; exact (proj2 Hi)].
      intros Hseq%(f_equal length). rewrite length_seq in Hseq. cbn [length] in Hseq. unfold width in Hb. cbn in Hb. lia. }
  destruct (join_try_new_total probe build pk bk (hr_target r)) as (e & He & Hl & Hr); [done..|].
  eapply returns_bind; [eapply (returns_lift _ _ (λ a, a = e) He); done|]. intros ? ->.
  destruct (join_with_projection_total e
    (swap_side (width build) (width probe) <$> sel)) as [e' He'].
  { by destruct sel. }
  { rewrite Hl, Hr. by apply swap_side_range. }
  eapply (returns_bind _ _ (λ _, True)); [by eapply returns_lift|]. intros a _.
  case_bool_decide; auto with placement.
Qed.

Lemma strip_sort_schema p : coherent p → node_schema (strip_sort p) = node_schema p.
Proof.
  intros [Hp _]%coherent_inv. destruct p as [| | | |i [|] props| | | | | | | |]; done.
Qed.

Lemma lower_smj_returns r left right node props :
  node_coherent (SortMergeJoinExec left right node props) → coherent left → coherent right →
  returns (lower_sort_merge_join r left right node props) (λ _, True).
Proof.
  intros Hon Hl Hr. unfold lower_sort_merge_join. cbn in Hon.
  destruct (plain_inner node) as [[lx rx]|] eqn:Hin; auto with placement.
  apply plain_inner_Some in Hin as [Heq _]. rewrite Heq in Hon. apply Forall_singleton in Hon as [Hb Hp].
  unfold width in Hb, Hp. rewrite <- (strip_sort_schema _ Hl) in Hb. rewrite <- (strip_sort_schema _ Hr) in Hp.
  destruct (negb _); auto with placement.
  destruct (column_index lx) as [lk|] eqn:Hlk; auto with placement.
  destruct (column_index rx) as [rk|] eqn:Hrk; auto with placement.
  apply column_index_Some in Hlk as [nl ->]. apply column_index_Some in Hrk as [nr ->].
  apply returns_key; [done|]. intros Hlt _ _. apply returns_key; [done|]. intros Hrt _ _.
  destruct (join_try_new_total (strip_sort left) (strip_sort right) lk rk (hr_target r))
    as (e & He & _); [done..|].
  eapply (returns_bind _ _ (λ _, True)); [by eapply returns_lift|]. intros a _.
  case_bool_decide; auto with placement.
Qed.

Lemma no_panic_index {E A} (l : list A) i : (i < length l)%nat → no_panic (index (E:=E) l i).
Proof. intros (a & -> & _)%(index_lt (E:=E)). done. Qed.

Lemma no_panic_mapM {E A B} (f : A → res E B) l : Forall (λ x, no_panic (f x)) l → no_panic (mapM f l).
Proof. intros Hf Hm. apply mapM_Panic_inv in Hm as (x & Hx & Hp). rewrite Forall_forall in Hf. by eapply Hf. Qed.

Definition aggregate_columns_in (i : ExecutionPlan) (node : AggregateNode) : Prop :=
  Forall (λ g, column_in (width i) g.1) (an_group node) ∧
  Forall (λ x, Forall (column_in (width i)) (ae_args x)) (an_aggr node).

Lemma lower_aggr_expr_no_panic (i : ExecutionPlan) x :
  Forall (column_in (width i)) (ae_args x) → no_panic (lower_aggr_expr (node_schema i) x).
Proof.
  intros Hx. apply no_panic_bind; [apply no_panic_ok_or|]. intros func.
  destruct (ae_distinct x); [done|]. destruct (ae_args x) as [|arg [|]]; [done| |done]. cbn [mbind res_bind].
  apply Forall_inv in Hx. destruct (column_index arg) as [c|] eqn:Hc; [|done].
  apply column_index_Some in Hc as [n ->]. cbn [ok_or mbind res_bind].
  apply no_panic_bind; [apply no_panic_index; exact Hx|]. intros f. by case_match.
Qed.

Lemma lower_aggregate_spec_no_panic i node :
  aggregate_columns_in i node → no_panic (try_lower_aggregate_spec i node).
Proof.
  intros [Hg Ha]. unfold try_lower_aggregate_spec. destruct (an_is_single node); [|done].
  destruct (an_group node) as [|[g n] [|]]; [done| |done]. destruct (an_null_expr node); [|done].
  apply Forall_inv in Hg. destruct (column_index g) as [c|] eqn:Hc; [|done].
  apply column_index_Some in Hc as [m ->]. cbn [ok_or mbind res_bind].
  apply no_panic_bind; [apply no_panic_index; exact Hg|]. intros f.
  destruct (negb _); [done|]. destruct (existsb _ _); [done|].
  apply no_panic_bind; [|done]. apply no_panic_mapM. apply (Forall_impl _ _ _ Ha).
  intros x. apply lower_aggr_expr_no_panic.
Qed.

Lemma lowered_spec_accepted i node spec :
  try_lower_aggregate_spec i node = Ok spec →
  ∃ s, aggregate_output_schema (node_schema i) spec = Ok s.
Proof.
  unfold try_lower_aggregate_spec. destruct (an_is_single node); [|done].
  destruct (an_group node) as [|[g n] [|]]; [done| |done]. destruct (an_null_expr node); [|done].
  intros (k & _ & (f & Hf & Hk)%bind_Ok_inv)%bind_Ok_inv.
  case_bool_decide as Ht; cbn [negb] in Hk; [|done]. destruct (existsb _ _); [done|].
  apply bind_Ok_inv in Hk as (aggs & Haggs & [= <-]). apply mapM_res_Ok in Haggs.
  apply index_Ok_inv in Hf as Hf'.
  assert (∃ fs, mapM (aggregate_output_field (node_schema i)) aggs = Ok fs) as [fs Hfs].
  { induction Haggs as [|x [func c] xs aggs Hx _ [fs Hfs]]; [by eexists|].
    apply bind_Ok_inv in Hx as (fu & _ & Hx). destruct (ae_distinct x); [done|].
    apply bind_Ok_inv in Hx as (arg & _ & Hx). apply bind_Ok_inv in Hx as (c' & _ & Hx).
    apply bind_Ok_inv in Hx as (g' & Hg & Hx). apply index_Ok_inv in Hg as Hg'.
    destruct (_ || _) eqn:Hn in Hx; [|done]. injection Hx as -> ->.
    assert (∃ y, aggregate_output_field (node_schema i) (func, c) = Ok y) as [y Hy].
    { unfold aggregate_output_field, field_type. rewrite Hg'.
      cbn [fmap option_fmap option_map ok_or mbind res_bind]. rewrite Hn.
      unfold index. rewrite Hg'. by eexists. }
    exists (y :: fs). apply mapM_res_Ok. constructor; [done|by apply mapM_res_Ok]. }
  unfold aggregate_output_schema, field_type. cbn [group_by aggregates].
  rewrite Hf'. cbn [fmap option_fmap option_map ok_or mbind res_bind].
  rewrite bool_decide_eq_true_2 by done. cbn [negb]. unfold index. rewrite Hf'. cbn [mbind res_bind].
  rewrite Hfs. by eexists.
Qed.

(** The source of a lowered aggregate, with a specification its node accepts. *)
Lemma aggregate_source_returns r i node props :
  node_coherent (AggregateExec i node props) → coherent i →
  returns (aggregate_source r i node)
    (λ o, ∀ source spec, o = Some (source, spec) →
       ∃ s, aggregate_output_schema (node_schema source) spec = Ok s).
Proof.
  intros Hnode Hi. unfold aggregate_source. cbn in Hnode.
  assert (∀ j n, aggregate_columns_in j n →
    returns match try_lower_aggregate_spec j n with
            | Ok spec => pm_ret (Some (j, spec))
            | Err why => plan! _ := rule_skip r "AggregateExec" why in pm_ret None
            | Panic => pm_lift Panic
            end (λ o, ∀ source spec, o = Some (source, spec) →
                 ∃ s, aggregate_output_schema (node_schema source) spec = Ok s)) as Hlow.
  { intros j n Hj. destruct (try_lower_aggregate_spec j n) as [spec|why|] eqn:Hs.
    - apply returns_ret. intros ? ? [= <- <-]. by eapply lowered_spec_accepted.
    - by apply returns_skip.
    - by destruct (lower_aggregate_spec_no_panic j n Hj). }
  destruct (an_mode node); try (by apply returns_ret); try (by apply Hlow).
  all: destruct (coherent_inv _ (coherent_through _ Hi)) as [Ht _];
    destruct (through_exchanges i) as [| | | | |source partial ?| | | | | | |]; try (by apply returns_ret);
    case_bool_decide as Hm; try (by apply returns_ret); cbn in Ht; rewrite Hm in Ht;
    cbn [negb orb]; destruct (_ || _); [by apply returns_ret|by apply Hlow].
Qed.

Lemma aggregate_try_new_schema (i : ExecutionPlan) spec target s :
  aggregate_output_schema (node_schema i) spec = Ok s →
  ∃ e, GpuAggregateExec_try_new i spec target = Ok e.
Proof. intros Hs. unfold GpuAggregateExec_try_new. rewrite Hs. by eexists. Qed.

Lemma lower_aggregate_returns r i node props :
  node_coherent (AggregateExec i node props) → coherent i →
  returns (lower_aggregate r i node props) (λ _, True).
Proof.
  intros Hnode Hi. unfold lower_aggregate. eapply returns_bind; [by eapply aggregate_source_returns|].
  intros [[source spec]|] Hspec; [|auto with placement]. destruct (Hspec _ _ eq_refl) as [s Hs].
  set (source' := if (1 <? _)%nat then _ else _).
  assert (node_schema source' = node_schema source) as Hsource.
  { unfold source'. destruct (1 <? _)%nat; [apply coalesce_law|done]. }
  rewrite <- Hsource in Hs. destruct (aggregate_try_new_schema source' spec (hr_target r) s Hs) as [e He].
  eapply (returns_bind _ _ (λ _, True)); [by eapply returns_lift|]. intros a _.
  destruct (ga_with_output_schema a (pp_schema props)) eqn:Ho; [auto with placement..|].
  unfold ga_with_output_schema in Ho. destruct (negb _) in Ho; [done|]. by destruct (negb _) in Ho.
Qed.

Lemma rewrite_node_returns r p :
  coherent p → returns (rewrite_node r p) (λ o, ∀ q, o = Some q → replaces p q).
Proof.
  intros Hp. apply returns_partial.
  2: { intros h h' o Ho q ->. by eapply rewrite_node_replaces. }
  destruct (coherent_inv _ Hp) as [Hn Hc]. destruct p; cbn in Hc; decompose_Forall_hyps;
    cbn [rewrite_node]; try (by apply returns_ret).
  - eapply returns_bind; [by apply lower_filter_returns|auto with placement].
  - eapply returns_bind; [by apply fuse_projection_returns|]. intros [gpu|] _; [auto with placement|].
    eapply returns_bind; [by apply lower_vector_returns|auto with placement].
  - eapply returns_bind; [by apply lower_join_returns|auto with placement].
  - eapply returns_bind; [by apply lower_smj_returns|auto with placement].
  - eapply returns_bind; [by apply lower_aggregate_returns|auto with placement].
Qed.

Lemma rewrite_vector_returns r p :
  coherent p → returns (rewrite_vector r p) (λ o, ∀ q, o = Some q → replaces p q).
Proof.
  intros Hp. destruct (coherent_inv _ Hp) as [Hn Hc]. apply returns_partial.
  - destruct p; try (by apply returns_ret).
    eapply returns_bind; [by apply lower_vector_returns|auto with placement].
  - intros h h' o Ho q ->. destruct p; try done. cbn in Hc. decompose_Forall_hyps. cbn in Ho.
    apply pm_bind_Ok in Ho as (h1 & [e|] & He & Ho); [|done]. injection Ho as _ <-.
    by eapply lower_vector_replaces.
Qed.

(** ** New children *)

(** As many new children as old ones, each with the old one's schema. *)
Ltac children cs Hcs :=
  destruct cs as [|? [|? [|]]]; try discriminate Hcs; injection Hcs; intros; clear Hcs;
  repeat match goal with
  | H : pp_schema (plan_props ?a) = pp_schema (plan_props ?b) |- _ =>
      change (node_schema a = node_schema b) in H
  end.

Lemma with_children_coherent p cs props :
  is_gpu_node p = false → coherent p → Forall coherent cs →
  node_schema <$> cs = node_schema <$> plan_children p → pp_schema props = node_schema p →
  replaces p (with_children p cs props).
Proof.
  intros Hg Hp Hc Hcs Hs. destruct (coherent_inv _ Hp) as [Hn _].
  assert (plan_children (with_children p cs props) = cs ∧ plan_props (with_children p cs props) = props)
    as [Hk Hprops].
  { destruct p; try done; children cs Hcs; done. }
  split; [|unfold node_schema; cbn [plan_node]; by rewrite Hprops].
  constructor; [|by rewrite Hk].
  destruct p; try done; children cs Hcs; cbn [with_children node_coherent] in *;
    unfold filter_columns, width in *;
    repeat match goal with H : node_schema ?a = node_schema _ |- context[node_schema ?a] => rewrite H end;
    first [exact Hn | congruence | by rewrite Hs].
Qed.

Lemma filter_rebuilt e i :
  node_coherent (GpuFilter e) → coherent i → node_schema i = node_schema (gf_input e) →
  ∃ e', gf_with_new_children e [i] = Ok e' ∧ replaces (GpuFilter e) (GpuFilter e').
Proof.
  intros (e0 & He0 & He) Hi Hs. apply filter_try_new_Ok in He0 as (Hp & Hl & Hne & fs & Hfs & He0).
  assert (∃ x, GpuFilterExec_try_new i (gf_predicate e) (gf_projection e) (cfg_target (gf_config e)) = Ok x
    ∧ pp_schema (gf_properties x) = node_schema (GpuFilter e)) as (x & Hx & Hxs).
  { eexists. split; [apply filter_try_new_Ok; rewrite Hs; split_and!; [done..|by exists fs]|].
    rewrite He, He0. done. }
  unfold gf_with_new_children, gf_rebuild. rewrite Hx. cbn [mbind res_bind]. eexists. split; [done|].
  split; [|exact Hxs]. apply filter_try_new_Ok in Hx as Hx'. destruct Hx' as (_ & _ & _ & ? & _ & Hx').
  constructor; [|rewrite Hx'; cbn; kids]. exists x. rewrite Hx' in *. done.
Qed.

Lemma join_rebuilt e l r :
  node_coherent (GpuJoin e) → coherent l → coherent r →
  node_schema l = node_schema (gj_left e) → node_schema r = node_schema (gj_right e) →
  ∃ e', gj_with_new_children e [l; r] = Ok e' ∧ replaces (GpuJoin e) (GpuJoin e').
Proof.
  intros (e0 & e1 & He0 & He1 & He) Hl Hr Hls Hrs.
  destruct (join_new_Ok _ _ _ _ _ _ _ _ He0 He1) as (Hlk & Hrk & fs & Hne & Hfs & He1').
  destruct (join_try_new_total l r (gj_left_key e) (gj_right_key e) (cfg_target (gj_config e)))
    as (x0 & Hx0 & Hxl & Hxr); [unfold int64_at; by rewrite ?Hls, ?Hrs..|].
  assert (∃ x1, gj_with_projection x0 (gj_projection e) = Ok x1) as [x1 Hx1].
  { destruct (gj_projection e) as [ix|]; [|by eexists]. apply join_with_projection_total; [done|].
    unfold width. rewrite Hxl, Hxr, Hls, Hrs. apply mapM_Some_1 in Hfs. apply Forall_forall.
    intros i [j Hj]%list_elem_of_lookup_1.
    destruct (Forall2_lookup_l _ _ _ _ _ Hfs Hj) as (f & _ & Hf%lookup_lt_Some).
    by rewrite length_app in Hf. }
  destruct (join_new_Ok _ _ _ _ _ _ _ _ Hx0 Hx1) as (_ & _ & gs & _ & Hgs & Hx1').
  rewrite Hls, Hrs, Hfs in Hgs. injection Hgs as <-.
  unfold gj_with_new_children. rewrite Hx0. cbn [mbind res_bind]. rewrite Hx1. cbn [mbind res_bind].
  eexists. split; [done|]. split.
  - constructor; [|rewrite Hx1'; cbn; kids]. exists x0, x1. rewrite Hx1' in *. done.
  - unfold node_schema. cbn [plan_node plan_props]. rewrite Hx1', He, He1'. done.
Qed.

Lemma aggregate_rebuilt e i :
  node_coherent (GpuAggregate e) → coherent i → node_schema i = node_schema (ga_input e) →
  ∃ e', ga_with_new_children e [i] = Ok e' ∧ replaces (GpuAggregate e) (GpuAggregate e').
Proof.
  intros (e0 & e1 & He0 & He1 & He) Hi Hs. unfold GpuAggregateExec_try_new in He0.
  apply bind_Ok_inv in He0 as (s & Hsch & [= <-]). rewrite <- Hs in Hsch.
  set (x0 := mkAggExec i (ga_spec e) s (plan_properties s (UnknownPartitioning 1) Final)
               (ExecConfig_new (cfg_target (ga_config e)))).
  assert (GpuAggregateExec_try_new i (ga_spec e) (cfg_target (ga_config e)) = Ok x0) as Hx0
    by (unfold GpuAggregateExec_try_new; by rewrite Hsch).
  unfold ga_with_output_schema in He1. cbn [ga_schema] in He1.
  destruct (negb _) eqn:Hn1 in He1; [done|]. destruct (negb _) eqn:Hn2 in He1; [done|].
  injection He1 as <-.
  set (x1 := mkAggExec i (ga_spec e) (ga_schema e)
               (plan_properties (ga_schema e) (UnknownPartitioning 1) Final) (ga_config x0)).
  assert (ga_with_output_schema x0 (ga_schema e) = Ok x1) as Hx1.
  { unfold ga_with_output_schema. cbn [ga_schema x0]. by rewrite Hn1, Hn2. }
  unfold ga_with_new_children. rewrite Hx0. cbn [mbind res_bind]. rewrite Hx1. cbn [mbind res_bind].
  eexists. split; [done|]. split.
  - constructor; [by exists x0, x1|cbn; kids].
  - rewrite He. done.
Qed.

Lemma vector_rebuilt e i :
  node_coherent (GpuVector e) → coherent i → node_schema i = node_schema (gv_input e) →
  ∃ e', gv_with_new_children e [i] = Ok e' ∧ replaces (GpuVector e) (GpuVector e').
Proof.
  intros (e0 & He0 & He) Hi Hs. unfold GpuVectorDistanceExec_try_new in He0.
  apply bind_Ok_inv in He0 as (dt & Hdt & He0). apply bind_Ok_inv in He0 as (dim & Hdim & He0).
  destruct (negb _) eqn:Hn in He0; [done|]. injection He0 as <-.
  unfold gv_with_new_children.
  assert (∃ x, GpuVectorDistanceExec_try_new i (gv_column e) (gv_query e) (gv_metric e)
    (gv_output_name e) (cfg_target (gv_config e)) = Ok x) as [x Hx].
  { unfold GpuVectorDistanceExec_try_new. rewrite Hs, Hdt. cbn [mbind res_bind].
    rewrite Hdim. cbn [mbind res_bind]. rewrite Hn. by eexists. }
  rewrite Hx. cbn [mbind res_bind]. eexists. split; [done|]. pose proof Hx as Hx'.
  unfold GpuVectorDistanceExec_try_new in Hx'. rewrite Hs, Hdt in Hx'. cbn [mbind res_bind] in Hx'.
  rewrite Hdim in Hx'. cbn [mbind res_bind] in Hx'. rewrite Hn in Hx'. injection Hx' as Hx'. subst x.
  split; [constructor; [by eexists|cbn; kids]|]. rewrite He. done.
Qed.

Lemma with_new_children_replaces p cs :
  coherent p → Forall coherent cs → node_schema <$> cs = node_schema <$> plan_children p →
  ∃ p', with_new_children p cs = Ok p' ∧ replaces p p'.
Proof.
  intros Hp Hc Hcs. destruct (is_gpu_node p) eqn:Hg.
  - destruct (coherent_inv _ Hp) as [Hn _].
    destruct p; try done; children cs Hcs; rewrite ?Forall_cons in Hc; destruct_and? Hc;
      unfold with_new_children.
    + match goal with |- context[gf_with_new_children ?a [?b]] =>
        destruct (filter_rebuilt a b) as (e' & -> & Hr); [done..|] end. by exists (GpuFilter e').
    + match goal with |- context[gj_with_new_children ?a [?b; ?c]] =>
        destruct (join_rebuilt a b c) as (e' & -> & Hr); [done..|] end. by exists (GpuJoin e').
    + match goal with |- context[ga_with_new_children ?a [?b]] =>
        destruct (aggregate_rebuilt a b) as (e' & -> & Hr); [done..|] end. by exists (GpuAggregate e').
    + match goal with |- context[gv_with_new_children ?a [?b]] =>
        destruct (vector_rebuilt a b) as (e' & -> & Hr); [done..|] end. by exists (GpuVector e').
  - destruct (df_children_law p cs Hg Hcs) as (props & Hw & Hs).
    exists (with_children p cs props). split; [by destruct p|by apply with_children_coherent].
Qed.

(** ** The walk *)

(** The children of a node, transformed one after the other. *)
Fixpoint walk (f : ExecutionPlan → PlanM (option ExecutionPlan)) (cs : list ExecutionPlan) :
    PlanM (list (option ExecutionPlan)) :=
  match cs with
  | [] => pm_ret []
  | c :: cs =>
      plan! c' := transform_up f c in
      plan! rest := walk f cs in
      pm_ret (c' :: rest)
  end.

Definition rebuild_and_rewrite (f : ExecutionPlan → PlanM (option ExecutionPlan)) (p : ExecutionPlan)
    (kids : list (option ExecutionPlan)) : PlanM (option ExecutionPlan) :=
  plan! rebuilt :=
    (if existsb (λ o, bool_decide (is_Some o)) kids
     then plan! node := pm_lift (with_new_children p
                          (zip_with (λ old new, default old new) (plan_children p) kids)) in
          pm_ret (Some node)
     else pm_ret None) in
  plan! out := f (default p rebuilt) in
  pm_ret (match out with Some n => Some n | None => rebuilt end).

Lemma transform_up_unfold f p h :
  transform_up f p h = pm_bind (walk f (plan_children p)) (rebuild_and_rewrite f p) h.
Proof.
  assert (∀ i, walk f [i] h = pm_bind (transform_up f i) (λ i', pm_ret [i']) h) as E1.
  { intros i. cbn [walk]. unfold pm_bind, pm_ret. by destruct (transform_up f i h) as [? []]. }
  assert (∀ l r, walk f [l; r] h = pm_bind (transform_up f l) (λ l',
            pm_bind (transform_up f r) (λ r', pm_ret [l'; r'])) h) as E2.
  { intros l r. cbn [walk]. unfold pm_bind, pm_ret. destruct (transform_up f l h) as [h1 []]; [|done..].
    by destruct (transform_up f r h1) as [? []]. }
  unfold pm_bind at 1.
  destruct p; cbn [plan_children]; try (rewrite E1; reflexivity); try (rewrite E2; reflexivity).
  clear E1 E2. cbn [transform_up]. unfold pm_bind at 1.
  match goal with |- (let (_, _) := ?F children h in _) = _ =>
    assert (∀ cs h, F cs h = walk f cs h) as -> end; [|done].
  intros cs. induction cs as [|c cs IH]; intros h'; [done|]. cbn [walk]. unfold pm_bind.
  destruct (transform_up f c h') as [h1 []]; [|done..]. by rewrite IH.
Qed.

Section Walk.
Context (f : ExecutionPlan → PlanM (option ExecutionPlan)).
Hypothesis Hf : ∀ p, coherent p → returns (f p) (λ o, ∀ q, o = Some q → replaces p q).

Definition replaced (p : ExecutionPlan) (o : option ExecutionPlan) : Prop := replaces p (default p o).

Lemma walk_returns cs :
  Forall (λ c, coherent c → returns (transform_up f c) (replaced c)) cs → Forall coherent cs →
  returns (walk f cs) (λ kids, Forall2 replaced cs kids).
Proof.
  induction 1 as [|c cs Hc _ IH]; intros Hcs; cbn [walk]; [by apply returns_ret|].
  apply Forall_cons in Hcs as [Hcc Hcs].
  eapply returns_bind; [by apply Hc|]. intros o Ho. eapply returns_bind; [by apply IH|].
  intros kids Hk. apply returns_ret. by constructor.
Qed.

Lemma replaces_trans p q r : replaces p q → replaces q r → replaces p r.
Proof. intros [_ E1] [Hr E2]. split; [done|congruence]. Qed.

Lemma rebuild_returns p kids :
  coherent p → Forall2 replaced (plan_children p) kids →
  returns (rebuild_and_rewrite f p kids) (replaced p).
Proof.
  intros Hp Hk. unfold rebuild_and_rewrite.
  set (cs := zip_with (λ old new, default old new) (plan_children p) kids).
  assert (Forall coherent cs ∧ node_schema <$> cs = node_schema <$> plan_children p) as [Hcs Hss].
  { unfold cs. clear -Hk. induction Hk as [|c o l k [Hc Hs] _ [IH1 IH2]]; [done|]. cbn [zip_with].
    split; [by constructor|]. rewrite !fmap_cons. by rewrite Hs, IH2. }
  eapply (returns_bind _ _ (replaced p)).
  - destruct (existsb _ kids); [|by apply returns_ret].
    destruct (with_new_children_replaces p cs Hp Hcs Hss) as (p' & Hw & Hr).
    eapply returns_bind; [eapply (returns_lift _ _ (λ a, a = p') Hw); done|]. intros ? ->.
    by apply returns_ret.
  - intros rebuilt Hr. eapply returns_bind; [apply Hf; apply Hr|]. intros [n|] Hn; apply returns_ret.
    + eapply replaces_trans; [exact Hr|]. by apply Hn.
    + exact Hr.
Qed.

Lemma transform_up_returns p : coherent p → returns (transform_up f p) (replaced p).
Proof.
  induction p as [p IH] using plan_ind'. intros Hp.
  assert (returns (pm_bind (walk f (plan_children p)) (rebuild_and_rewrite f p)) (replaced p)) as Hr.
  { eapply returns_bind; [apply walk_returns; [done|by apply coherent_inv]|].
    intros kids Hk. by apply rebuild_returns. }
  intros h. rewrite transform_up_unfold. apply Hr.
Qed.
End Walk.

(** C14: on a coherent plan the placement rule returns a plan, and so does the
    vector-distance rule: every node of it is again one its constructor accepts
    on its children, the root has the schema of the original (DataFusion's
    [schema_check] holds), and a rule whose target is not a GPU returns the very
    plan and records no skip. *)
Theorem optimize_keeps_schema (r : HardwarePlacementRule) (p : ExecutionPlan) (h : TelemetryHub) :
  coherent p →
  (∃ h' p', optimize r p h = (h', Ok p') ∧ coherent p' ∧ node_schema p' = node_schema p) ∧
  (∃ h' p', optimize_vector r p h = (h', Ok p') ∧ coherent p' ∧ node_schema p' = node_schema p) ∧
  (is_gpu (hr_target r) = false → optimize r p h = (h, Ok p) ∧ optimize_vector r p h = (h, Ok p)).
Proof.
  intros Hp.
  assert (∀ f, (∀ q, coherent q → returns (f q) (λ o, ∀ q', o = Some q' → replaces q q')) →
    ∃ h' p', (if negb (is_gpu (hr_target r)) then pm_ret p
              else plan! t := transform_up f p in pm_ret (default p t)) h = (h', Ok p') ∧
             coherent p' ∧ node_schema p' = node_schema p) as Hopt.
  { intros f Hf. destruct (is_gpu (hr_target r)); cbn [negb]; [|by exists h, p].
    destruct (transform_up_returns f Hf p Hp h) as (h' & o & Ho & Hc & Hs).
    exists h', (default p o). split; [|done]. unfold pm_bind. by rewrite Ho. }
  split; [|split].
  - apply Hopt. apply rewrite_node_returns.
  - apply Hopt. apply rewrite_vector_returns.
  - intros Hg. unfold optimize, optimize_vector. by rewrite Hg.
Qed.
End Total.

(** ** Examples *)

Module PlacementExample.

(** Nodes that keep their properties. *)
#[local] Instance simple_plan : DataFusionPlan := {|
  df_with_new_children p cs := Ok (with_children p cs (plan_props p));
  coalesce_properties p := plan_properties (node_schema p) (UnknownPartitioning 1) Incremental |}.
#[local] Instance simple_plan_laws : DataFusionLaws.
Proof. split; [|done]. intros p cs _ _. by exists (plan_props p). Qed.

Definition props (s : Schema) : PlanProperties := plan_properties s (UnknownPartitioning 1) Incremental.
Definition scan (b : RecordBatch) : ExecutionPlan := OtherExec "DataSourceExec" [] (props (schema b)).
Definition on_gpu : HardwarePlacementRule := rule_with_telemetry (HardwarePlacementRule_new Cuda) 0.

(** [amount > 15] *)
Definition big_amount (column : nat) : PhysicalExpr :=
  EBinary (ELiteral (SvInt64 (Some 15))) OpLt (EColumn "amount" column).

(** [SELECT orders.amount, customers.id .. ON customers.id = orders.cust] *)
Definition join_node : JoinNode :=
  mkJoinNode [(EColumn "id" 0, EColumn "cust" 0)] false Inner NullEqualsNothing (Some [2; 0]%nat).
Definition join_schema : Schema :=
  Schema_new [Field_new "amount" Int64 true; Field_new "id" Int64 true].
Definition join_plan : ExecutionPlan :=
  HashJoinExec (scan JoinExample.customers) (scan JoinExample.orders) join_node (props join_schema).
Definition query : ExecutionPlan :=
  ProjectionExec (FilterExec join_plan (big_amount 0) None (props join_schema))
    [(EColumn "id" 1, "id")] (props (Schema_new [Field_new "id" Int64 true])).

Lemma query_coherent : coherent query.
Proof.
  repeat match goal with
  | |- coherent _ => constructor
  | |- Forall _ _ => constructor
  | |- node_coherent _ => cbn [node_coherent query join_plan]
  | |- _ ∧ _ => split
  | |- _ ≠ [] => discriminate
  | |- _ = true → _ => intros _
  end; try done; vm_compute; try lia; repeat constructor.
Qed.

(** The filter and the projection end up in one node over the lowered join. *)
Example query_lowered :
  match (optimize on_gpu query TelemetryHub_new).2 with
  | Ok (GpuFilter e) =>
      gf_projection e = [1]%nat ∧ gf_predicate e = Compare 0 CGt (LInt64 15) ∧
      match gf_input e with GpuJoin j => gj_projection j = Some [1; 2]%nat | _ => False end
  | _ => False
  end.
Proof. vm_compute. done. Qed.

Lemma optimize_keeps_schema_witness :
  ∃ h' p', optimize on_gpu query TelemetryHub_new = (h', Ok p') ∧ coherent p' ∧
    node_schema p' = Schema_new [Field_new "id" Int64 true].
Proof. exact (proj1 (optimize_keeps_schema on_gpu query TelemetryHub_new query_coherent)). Defined.

Lemma lowered_predicate_meaning_witness :
  sql_holds JoinExample.orders 1 (big_amount 1) = Some true ∧
  eval_row JoinExample.orders (Compare 1 CGt (LInt64 15)) 1 = Some true.
Proof.
  split; [vm_compute; reflexivity|].
  destruct (lowered_predicate_meaning (schema JoinExample.orders) (big_amount 1)) as [_ Hm].
  destruct (Hm (Compare 1 CGt (LInt64 15)) eq_refl) as [_ He].
  rewrite He; [vm_compute; reflexivity|]. split; [apply JoinExample.demo_ok|reflexivity].
Defined.

Definition lowered : option (GpuHashJoinExec ExecutionPlan) :=
  match (lower_join on_gpu (scan JoinExample.customers) (scan JoinExample.orders) join_node
           (props join_schema) TelemetryHub_new).2 with
  | Ok o => o
  | _ => None
  end.

Lemma lower_join_sound_witness :
  ∃ e, lowered = Some e ∧
    batch_rows (probe_output 2 JoinExample.orders JoinExample.customers
                  (join_pairs JoinExample.orders_keys JoinExample.customers_keys)
                  (fields (gj_schema e)) (default [] (gj_projection e)))
    ≡ₚ df_join_rows JoinExample.customers JoinExample.orders 0 0 [2; 0]%nat.
Proof.
  destruct (lower_join_sound on_gpu (scan JoinExample.customers) (scan JoinExample.orders) join_node
    (props join_schema) TelemetryHub_new TelemetryHub_new (default (mkJoinExec (scan JoinExample.orders)
      (scan JoinExample.customers) 0 0 None join_schema (props join_schema) (ExecConfig_new Cuda) None)
      lowered)) as (_ & Hrows); [vm_compute; reflexivity|intros sel [= <-]; vm_compute; reflexivity|].
  eexists. split; [vm_compute; reflexivity|].
  apply (Hrows JoinExample.customers JoinExample.orders);
    (split; [apply JoinExample.demo_ok|reflexivity]).
Defined.

(** A self-join without a projection: the sides have the same fields, and only
    the swap tells them apart. *)
Example self_join_swapped :
  match (lower_join on_gpu (scan JoinExample.orders) (scan JoinExample.orders)
           (mkJoinNode [(EColumn "cust" 0, EColumn "cust" 0)] false Inner NullEqualsNothing None)
           (props (Schema_new (fields (schema JoinExample.orders) ++ fields (schema JoinExample.orders)))) TelemetryHub_new).2 with
  | Ok (Some e) => gj_projection e = Some [2; 3; 0; 1]%nat
  | _ => False
  end.
Proof. vm_compute. reflexivity. Qed.

(** *** Plans that are not coherent *)

(** A filter that keeps no column, as below a [COUNT] over all rows. *)
Definition count_input : ExecutionPlan :=
  FilterExec (scan JoinExample.orders) (big_amount 1) (Some []) (props (Schema_new [])).

(** Planning fails on a GPU target, and succeeds on the CPU. *)
Example empty_projection_fails_planning :
  (optimize on_gpu count_input TelemetryHub_new).2
    = Err (DFPlan "GpuFilterExec: projection must select at least one column") ∧
  (optimize (HardwarePlacementRule_new CpuSimd) count_input TelemetryHub_new).2 = Ok count_input.
Proof. vm_compute. done. Qed.

(** A conjunction of [n + 1] comparisons. *)
Fixpoint big_conjunction (n : nat) : PhysicalExpr :=
  match n with O => big_amount 1 | S n => EBinary (big_conjunction n) OpAnd (big_amount 1) end.

(** The sixty-fifth comparison makes planning fail too. *)
Example wide_predicate_fails_planning :
  let filter n := FilterExec (scan JoinExample.orders) (big_conjunction n) None
                    (props (schema JoinExample.orders)) in
  is_Some (res_ok (optimize on_gpu (filter 63%nat) TelemetryHub_new).2) ∧
  ∃ e, (optimize on_gpu (filter 64%nat) TelemetryHub_new).2 = Err e.
Proof. vm_compute. split; by eexists. Qed.

(** A merge join over sorted inputs: both sorts are gone from the lowered plan,
    and with them the order of its output. *)
Definition sorted (p : ExecutionPlan) : ExecutionPlan := SortExec p None (plan_props p).
Definition merge_join : ExecutionPlan :=
  SortMergeJoinExec (sorted (scan JoinExample.customers)) (sorted (scan JoinExample.orders))
    (mkJoinNode [(EColumn "id" 0, EColumn "cust" 0)] false Inner NullEqualsNothing None)
    (props (Schema_new (fields (schema JoinExample.customers) ++ fields (schema JoinExample.orders)))).

Example merge_join_drops_sorts :
  match (optimize on_gpu merge_join TelemetryHub_new).2 with
  | Ok (GpuJoin e) => gj_left e = scan JoinExample.customers ∧ gj_right e = scan JoinExample.orders
  | _ => False
  end.
Proof. vm_compute. done. Qed.
End PlacementExample.
