(* ===== verification/Bytes.v ===== *)
(** * Little-endian bytes

    [to_le_bytes] of Rust's integers and its inverse [from_le_bytes] (declared
    in [Kernels]), shared by the plan codec and the column buffers. *)

From S2P Require Import Prelude Floats Arrow Core ArrowKernels Kernels.

Definition is_byte (b : Z) : Prop := 0 ≤ b < 256.

(** The [n] low bytes of [z], lowest first. *)
Fixpoint to_le_bytes (n : nat) (z : Z) : list Z :=
  match n with O => [] | S n => z mod 256 :: to_le_bytes n (z / 256) end.

Lemma length_to_le_bytes n z : length (to_le_bytes n z) = n.
Proof. revert z. induction n as [|n IH]; intros z; cbn; [done|]. by rewrite IH. Qed.

Lemma to_le_bytes_range n z : Forall is_byte (to_le_bytes n z).
Proof.
  revert z. induction n as [|n IH]; intros z; cbn; constructor; [|apply IH].
  apply Z.mod_pos_bound. lia.
Qed.

Lemma from_to_le_bytes n z : from_le_bytes (to_le_bytes n z) = z mod 2 ^ (8 * Z.of_nat n).
Proof.
  revert z. induction n as [|n IH]; intros z; cbn [to_le_bytes from_le_bytes].
  { by rewrite Z.mod_1_r. }
  rewrite IH. replace (8 * Z.of_nat (S n)) with (8 + 8 * Z.of_nat n) by lia.
  rewrite Z.pow_add_r by lia. change (2 ^ 8) with 256.
  by rewrite Z.rem_mul_r by lia.
Qed.

Lemma to_from_le_bytes l : Forall is_byte l → to_le_bytes (length l) (from_le_bytes l) = l.
Proof.
  induction 1 as [|b l Hb _ IH]; [done|]. cbn [length to_le_bytes from_le_bytes]. unfold is_byte in Hb.
  rewrite (Z.mul_comm 256), Z.mod_add, Z.div_add by lia. rewrite Z.mod_small, Z.div_small by lia.
  by rewrite Z.add_0_l, IH.
Qed.

Lemma from_le_bytes_range l :
  Forall is_byte l → 0 ≤ from_le_bytes l < 2 ^ (8 * Z.of_nat (length l)).
Proof.
  induction 1 as [|b l Hb _ IH]; cbn [length from_le_bytes]; [lia|]. unfold is_byte in Hb.
  replace (8 * Z.of_nat (S (length l))) with (8 + 8 * Z.of_nat (length l)) by lia.
  rewrite Z.pow_add_r by lia. change (2 ^ 8) with 256. lia.
Qed.
