(* ===== verification/Columns.v ===== *)
(** * oxidelake-device: column buffers

    Models [src/crates/oxidelake-device/src/columns.rs] at the level it works
    on: an Arrow array is its buffers, a window into them (offset and length)
    and a validity bitmap.  [data_values] is what the buffers mean, so that the
    properties connect to the [Array]s of the other files.  Packing a validity
    bitmap and [ArrayDataBuilder::build] are Arrow's and operations of
    [ArrowBuffers]. *)

From S2P Require Import Prelude Floats Arrow Core ArrowKernels Kernels Bytes.

(** [ArrayData]. Validity is the [NullBuffer]'s bits, already at the window. *)
Inductive ArrayData := mkData {
  ad_type : DataType;
  ad_len : Z;
  ad_offset : Z;
  ad_nulls : option (list bool);
  ad_buffers : list (list Z);
  ad_children : list ArrayData;
}.

Record ColumnBytes := mkColumnBytes {
  cb_type : DataType;
  cb_len : Z;
  cb_values : list Z;
  cb_validity : option (list Z);
  cb_child_len : Z;
}.

(** The bytes a bitmap of [n] bits takes. *)
Definition bitmap_len (n : nat) : nat := (n + 7) / 8.
Definition bit_at (bytes : list Z) (i : nat) : bool :=
  match bytes !! (i / 8)%nat with Some b => Z.testbit b (Z.of_nat (i mod 8)) | None => false end.

Class ArrowBuffers := {
  (** [BooleanBuffer::sliced] of the validity bits *)
  sliced : list bool → list Z;
  (** [ArrayDataBuilder::build] *)
  data_build : ArrayData → arrow_result ArrayData;
}.

Definition total_bytes (c : ColumnBytes) : Z :=
  let v := match cb_validity c with Some b => Z.of_nat (length b) | None => 0 end in
  let n := wadd64 (Z.of_nat (length (cb_values c))) v in
  if n <=? u64_max then n else u64_max.

Definition primitive_width (dt : DataType) : option Z :=
  match dt with Int64 | Float64 => Some 8 | Float32 => Some 4 | _ => None end.

Definition is_device_eligible (dt : DataType) : bool :=
  bool_decide (is_Some (primitive_width dt)) || bool_decide (is_Some (vector_dimension dt)).

Definition not_resident {A} : result A :=
  Err (Unsupported "device.column_type" "columns of this type are not device-resident in v1").

Definition row_width (dt : DataType) : result Z :=
  match primitive_width dt with
  | Some w => Ok w
  | None => match vector_dimension dt with
            | Some dim => Ok (wmul64 dim 4)
            | None => not_resident
            end
  end.

Definition slice_checked (buffer : list Z) (start len : Z) (what : string) : result (list Z) :=
  let stop := start + len in
  if u64_max <? stop then Err (Execution (what +:+ ": buffer range overflows"))
  else if Z.of_nat (length buffer) <? stop
  then Err (Format (what +:+ ": array needs more bytes than its buffer holds"))
  else Ok (take (Z.to_nat len) (drop (Z.to_nat start) buffer)).

Section Columns.
Context `{ArrowBuffers}.

Definition validity_bytes (nulls : list bool) : list Z := sliced nulls.

Definition extract (data : ArrayData) : result ColumnBytes :=
  let len := ad_len data in
  let offset := ad_offset data in
  let validity := validity_bytes <$> ad_nulls data in
  match ad_type data with
  | (Int64 | Float64 | Float32) as dt =>
      let width := default 8 (primitive_width dt) in
      buffer ← ok_or (head (ad_buffers data)) (Format "primitive array without a value buffer");
      values ← slice_checked buffer (wmul64 offset width) (wmul64 len width) "primitive column";
      Ok (mkColumnBytes dt len values validity 0)
  | FixedSizeList item size as dt =>
      if negb (bool_decide (field_type_of item = Float32)) then not_resident
      else if size <? 0 then Err (Plan "negative FixedSizeList size")
      else
        child ← ok_or (head (ad_children data)) (Format "FixedSizeList array without child data");
        buffer ← ok_or (head (ad_buffers child)) (Format "FixedSizeList child without a value buffer");
        let start := wmul64 (wadd64 (ad_offset child) (wmul64 offset size)) 4 in
        values ← slice_checked buffer start (wmul64 (wmul64 len size) 4) "vector column";
        Ok (mkColumnBytes dt len values validity (wmul64 len size))
  | _ => not_resident
  end.

(** [BooleanBuffer::new] asserts that the bits are there. *)
Definition null_buffer (bytes : list Z) (len : Z) : result (list bool) :=
  if 8 * Z.of_nat (length bytes) <? len then Panic
  else Ok (bit_at bytes <$> seq 0 (Z.to_nat len)).

Definition rebuild (c : ColumnBytes) : result ArrayData :=
  nulls ← match cb_validity c with
          | Some bytes => Some <$> null_buffer bytes (cb_len c)
          | None => Ok None
          end;
  match cb_type c with
  | Int64 | Float64 | Float32 =>
      map_err ArrowE (data_build (mkData (cb_type c) (cb_len c) 0 nulls [cb_values c] []))
  | FixedSizeList item _ =>
      child ← map_err ArrowE
        (data_build (mkData (field_type_of item) (cb_child_len c) 0 None [cb_values c] []));
      map_err ArrowE (data_build (mkData (cb_type c) (cb_len c) 0 nulls [] [child]))
  | _ => Err (Unsupported "device.column_type" "cannot rebuild columns of this type")
  end.

Definition extract_batch (columns : list ArrayData) : result (list ColumnBytes) := mapM extract columns.

Definition rebuild_columns (columns : list ColumnBytes) : result (list ArrayData) := mapM rebuild columns.
End Columns.

(** ** What the buffers mean *)

(** Bytes [w * i .. w * i + w]. *)
Definition cell (w : nat) (bytes : list Z) (i : nat) : list Z := take w (drop (w * i) bytes).

Definition i64_of_bits (z : Z) : Z := if z <? 2 ^ 63 then z else z - 2 ^ 64.

Definition decode_value (dt : DataType) (bytes : list Z) (i : nat) : Value :=
  match dt with
  | Int64 => VInt (i64_of_bits (from_le_bytes (cell 8 bytes i)))
  | Float64 => VF64 (F64 (from_le_bytes (cell 8 bytes i)))
  | _ => VF32 (F32 (from_le_bytes (cell 4 bytes i)))
  end.

(** The values of a window, given its validity. *)
Definition masked {A} (nulls : option (list bool)) (f : nat → A) (len : Z) : list (option A) :=
  (λ i, match nulls with
        | Some bits => if default false (bits !! i) then Some (f i) else None
        | None => Some (f i)
        end) <$> seq 0 (Z.to_nat len).

(** A vector's child values; the bytes under a null child count as a value. *)
Definition vector_at (child : ArrayData) (size : nat) (row : nat) : list f32 :=
  (λ j, F32 (from_le_bytes (cell 4 (default [] (head (ad_buffers child)))
                                 (Z.to_nat (ad_offset child) + (row * size + j))))) <$> seq 0 size.

Definition data_values (d : ArrayData) : list (option Value) :=
  match ad_type d with
  | (Int64 | Float64 | Float32) as dt =>
      masked (ad_nulls d)
        (λ i, decode_value dt (default [] (head (ad_buffers d))) (Z.to_nat (ad_offset d) + i)) (ad_len d)
  | FixedSizeList _ size =>
      masked (ad_nulls d)
        (λ i, VVec (match ad_children d with
                    | child :: _ => vector_at child (Z.to_nat size) (Z.to_nat (ad_offset d) + i)
                    | [] => []
                    end)) (ad_len d)
  | _ => []
  end.

Definition to_array (d : ArrayData) : Array := mkArray (ad_type d) (data_values d).

(** [rebuild_batch]: [RecordBatch::try_new] over the rebuilt arrays. *)
Definition rebuild_batch `{ArrowBuffers, ArrowKernels} (s : Schema) (columns : list ColumnBytes) :
    result RecordBatch :=
  arrays ← rebuild_columns columns;
  map_err ArrowE (batch_try_new s (to_array <$> arrays)).
