(* ===== verification/ColumnsCorrect.v ===== *)
(** * Column buffers survive the trip to a device

    Properties of [Columns]: extracting a column and rebuilding it from the
    bytes gives back its values, wherever the array's window starts, and the
    bytes that travel are the packed values and one bit per row. *)

From S2P Require Import Prelude Floats Arrow Core ArrowKernels Kernels FilterCorrect Bytes Columns.

(** A window of [len] cells of [w] bytes from cell [offset] on. *)
Definition window_ok (buf : list Z) (w offset len : Z) : Prop :=
  0 ≤ offset ∧ 0 ≤ len ∧ (offset + len) * w ≤ Z.of_nat (length buf) ∧ Z.of_nat (length buf) < 2 ^ 63.

Definition nulls_ok (d : ArrayData) : Prop :=
  ∀ bits, ad_nulls d = Some bits → Z.of_nat (length bits) = ad_len d.

Definition primitive_ok (d : ArrayData) (w : Z) : Prop :=
  ∃ buf, ad_buffers d = [buf] ∧ ad_children d = [] ∧ window_ok buf w (ad_offset d) (ad_len d).

(** What [ArrayDataBuilder::build] accepts of the device-resident types. *)
Definition data_ok (d : ArrayData) : Prop :=
  nulls_ok d ∧
  match ad_type d with
  | Int64 | Float64 => primitive_ok d 8
  | Float32 => primitive_ok d 4
  | FixedSizeList item size =>
      field_type_of item = Float32 ∧ 0 ≤ size < 2 ^ 31 ∧ ad_buffers d = [] ∧
      0 ≤ ad_offset d ∧ 0 ≤ ad_len d < 2 ^ 62 ∧
      ∃ child, ad_children d = [child] ∧ ad_type child = Float32 ∧ nulls_ok child ∧
        primitive_ok child 4 ∧ (ad_offset d + ad_len d) * size ≤ ad_len child
  | _ => False
  end.

(** What the columns rely on of Arrow. *)
Class ArrowBuffersLaws `{ArrowBuffers} : Prop := {
  sliced_law bits :
    length (sliced bits) = bitmap_len (length bits) ∧
    ∀ i b, bits !! i = Some b → bit_at (sliced bits) i = b;
  data_build_law d : data_ok d → data_build d = Ok d;
}.

(** ** Windows *)

Lemma cell_window w (buf : list Z) (offset len i : nat) :
  (i < len)%nat → cell w (take (len * w) (drop (offset * w) buf)) i = cell w buf (offset + i).
Proof.
  intros Hi. unfold cell. rewrite List.skipn_firstn_comm, drop_drop, take_take.
  f_equal; [nia|]. f_equal. lia.
Qed.

Lemma masked_ext {A} nulls (f g : nat → A) len :
  (∀ i, (i < Z.to_nat len)%nat → f i = g i) → masked nulls f len = masked nulls g len.
Proof.
  intros Hfg. unfold masked. apply list_fmap_ext. intros j i Hj%lookup_seq. cbn.
  destruct Hj as [-> Hj]. cbn. rewrite Hfg by lia. done.
Qed.

Lemma slice_checked_Ok buf start len what :
  0 ≤ start → 0 ≤ len → start + len ≤ Z.of_nat (length buf) → Z.of_nat (length buf) < 2 ^ 63 →
  slice_checked buf start len what = Ok (take (Z.to_nat len) (drop (Z.to_nat start) buf)).
Proof.
  intros Hs Hl Hb Hm. unfold slice_checked, u64_max, U64.
  destruct (Z.ltb_spec (2 ^ 64 - 1) (start + len)); [lia|].
  destruct (Z.ltb_spec (Z.of_nat (length buf)) (start + len)); [lia|done].
Qed.

Lemma wmul64_exact a b : 0 ≤ a * b < 2 ^ 64 → wmul64 a b = a * b.
Proof. apply wrap64_small. Qed.

(** ** The components of vectors *)

(** A component of a vector, with the child's own validity. *)
Definition component (child : ArrayData) (k : nat) : option Value :=
  let v := VF32 (F32 (from_le_bytes (cell 4 (default [] (head (ad_buffers child))) (Z.to_nat (ad_offset child) + k)))) in
  match ad_nulls child with
  | Some bits => if default false (bits !! k) then Some v else None
  | None => Some v
  end.

(** What a column holds, down to the components: [to_array] reads the bytes under
    a null component as a value, this does not. *)
Definition elements (d : ArrayData) : list (option (list (option Value))) :=
  match ad_type d with
  | FixedSizeList _ size =>
      masked (ad_nulls d)
        (λ i, match ad_children d with
              | child :: _ => (λ j, component child ((Z.to_nat (ad_offset d) + i) * Z.to_nat size + j)) <$> seq 0 (Z.to_nat size)
              | [] => []
              end) (ad_len d)
  | _ => (λ v : option Value, (λ x, [Some x]) <$> v) <$> data_values d
  end.

(** No vector that is not null has a null component. *)
Definition whole_vectors (d : ArrayData) : Prop :=
  Forall (λ row, ∀ components, row = Some components → Forall is_Some components) (elements d).

Definition no_child_nulls (d : ArrayData) : Prop := Forall (λ child, ad_nulls child = None) (ad_children d).

Definition whole_value (v : Value) : list (option Value) :=
  match v with VVec l => (λ x, Some (VF32 x)) <$> l | _ => [Some v] end.

Lemma fmap_masked {A B} (h : A → B) nulls (f : nat → A) len :
  (λ v : option A, h <$> v) <$> masked nulls f len = masked nulls (h ∘ f) len.
Proof.
  unfold masked. rewrite <- list_fmap_compose. apply list_fmap_ext. intros k i _. cbn.
  destruct nulls as [bits|]; [|done]. by destruct (default false (bits !! i)).
Qed.

Lemma masked_ext_valid {A} nulls (f g : nat → A) len :
  (∀ i, Some (f i) ∈ masked nulls f len → f i = g i) → masked nulls f len = masked nulls g len.
Proof.
  intros Hfg. unfold masked in *. apply list_fmap_ext. intros k i Hk.
  destruct nulls as [bits|]; [destruct (default false (bits !! i)) eqn:Hb; [|done]|]; f_equal; apply Hfg;
    apply list_elem_of_fmap; exists i; (split; [by rewrite ?Hb|by eapply list_elem_of_lookup_2]).
Qed.

(** Where no component is null, the components are the values of the array. *)
Lemma elements_whole d : whole_vectors d → elements d = (λ v : option Value, whole_value <$> v) <$> data_values d.
Proof.
  unfold whole_vectors, elements, data_values. destruct (ad_type d) as [| | | | |item size|]; intros Hw; try done;
    rewrite ?fmap_masked; [by apply masked_ext..|]. rewrite Forall_forall in Hw. apply masked_ext_valid.
  intros i Hi. specialize (Hw _ Hi _ eq_refl). cbn. destruct (ad_children d) as [|child ?]; [done|].
  unfold vector_at. rewrite <- list_fmap_compose. apply list_fmap_ext. intros k j Hj.
  rewrite Forall_forall in Hw. specialize (Hw (component child ((Z.to_nat (ad_offset d) + i) * Z.to_nat size + j))).
  destruct Hw as [v Hv]; [apply list_elem_of_fmap; exists j; split; [done|by eapply list_elem_of_lookup_2]|].
  revert Hv. unfold component. cbn. destruct (ad_nulls child) as [bits|]; [|done]. by destruct (default false _).
Qed.

Lemma no_child_nulls_whole d : no_child_nulls d → whole_vectors d.
Proof.
  unfold no_child_nulls, whole_vectors, elements. intros Hn. apply Forall_forall. intros row Hrow components ->.
  destruct (ad_type d); try (apply list_elem_of_fmap in Hrow as ([v|] & [= ->] & _); by repeat constructor).
  unfold masked in Hrow. apply list_elem_of_fmap in Hrow as (i & Hi & _).
  assert (components = match ad_children d with
    | child :: _ => (λ j, component child ((Z.to_nat (ad_offset d) + i) * Z.to_nat size + j)) <$> seq 0 (Z.to_nat size)
    | [] => [] end) as ->.
  { destruct (ad_nulls d) as [bits|]; [destruct (default false (bits !! i)); [|done]|]; by injection Hi. }
  destruct (ad_children d) as [|child ?]; [constructor|]. apply Forall_cons in Hn as [Hn _]. apply Forall_fmap, Forall_true.
  intros j. cbn. unfold component. rewrite Hn. by eexists.
Qed.

Section Columns.
Context `{!ArrowBuffers, !ArrowBuffersLaws}.

Lemma null_buffer_sliced bits len :
  Z.of_nat (length bits) = len → null_buffer (sliced bits) len = Ok bits.
Proof.
  intros Hlen. destruct (sliced_law bits) as [Hs Hb]. unfold null_buffer, bitmap_len in *.
  destruct (Z.ltb_spec (8 * Z.of_nat (length (sliced bits))) len).
  { pose proof (Nat.div_mod_eq (length bits + 7) 8). pose proof (Nat.mod_upper_bound (length bits + 7) 8). lia. }
  f_equal. apply list_eq. intros i. rewrite list_lookup_fmap. rewrite <- Hlen, Nat2Z.id.
  destruct (decide (i < length bits)%nat) as [Hi|Hi].
  - rewrite lookup_seq_lt by done. destruct (lookup_lt_is_Some_2 _ _ Hi) as [b Hb']. rewrite Hb'. cbn.
    f_equal. by apply Hb.
  - rewrite lookup_seq_ge, lookup_ge_None_2 by lia. done.
Qed.

(** The validity of a rebuilt column is that of the extracted one. *)
Lemma rebuilt_nulls (d : ArrayData) :
  nulls_ok d →
  match validity_bytes <$> ad_nulls d with
  | Some bytes => Some <$> null_buffer bytes (ad_len d)
  | None => Ok None
  end = Ok (ad_nulls d).
Proof.
  intros Hn. destruct (ad_nulls d) as [bits|] eqn:Hd; cbn; [|done].
  unfold validity_bytes. by rewrite (null_buffer_sliced bits (ad_len d) (Hn bits Hd)).
Qed.

(** The bytes of a column of [len] rows of [w] bytes. *)
Definition child_items (dt : DataType) (len : Z) : Z :=
  match dt with FixedSizeList _ size => len * size | _ => 0 end.
Definition packed (d : ArrayData) (w : Z) (c : ColumnBytes) : Prop :=
  cb_type c = ad_type d ∧ cb_len c = ad_len d ∧
  cb_child_len c = child_items (ad_type d) (ad_len d) ∧ cb_validity c = (sliced <$> ad_nulls d) ∧
  Z.of_nat (length (cb_values c)) = ad_len d * w.

Lemma primitive_roundtrip d w buf :
  (ad_type d = Int64 ∧ w = 8 ∨ ad_type d = Float64 ∧ w = 8 ∨ ad_type d = Float32 ∧ w = 4) →
  nulls_ok d → ad_buffers d = [buf] → window_ok buf w (ad_offset d) (ad_len d) →
  ∃ c d', extract d = Ok c ∧ packed d w c ∧ rebuild c = Ok d' ∧ to_array d' = to_array d ∧ no_child_nulls d'.
Proof.
  intros Ht Hn Hb (Ho & Hl & Hw & Hm).
  assert (0 < w) as Hw0 by (destruct Ht as [[_ ->]|[[_ ->]|[_ ->]]]; lia).
  set (vals := take (Z.to_nat (ad_len d * w)) (drop (Z.to_nat (ad_offset d * w)) buf)).
  assert (length vals = Z.to_nat (ad_len d * w)) as Hvals.
  { unfold vals. rewrite length_take, length_drop. nia. }
  set (c := mkColumnBytes (ad_type d) (ad_len d) vals (validity_bytes <$> ad_nulls d) 0).
  assert (extract d = Ok c) as Hx.
  { assert (slice_checked buf (wmul64 (ad_offset d) w) (wmul64 (ad_len d) w) "primitive column" = Ok vals)
      as Hs by (rewrite !wmul64_exact by nia; apply slice_checked_Ok; nia).
    unfold extract. destruct Ht as [[Ht ->]|[[Ht ->]|[Ht ->]]]; unfold c; rewrite Ht, Hb; cbn;
      by rewrite Hs. }
  set (d' := mkData (ad_type d) (ad_len d) 0 (ad_nulls d) [vals] []).
  assert (data_ok d') as Hok.
  { split; [exact Hn|]. unfold primitive_ok, window_ok.
    assert (∃ buf0, ad_buffers d' = [buf0] ∧ ad_children d' = [] ∧
      0 ≤ ad_offset d' ∧ 0 ≤ ad_len d' ∧
      (ad_offset d' + ad_len d') * w ≤ Z.of_nat (length buf0) ∧ Z.of_nat (length buf0) < 2 ^ 63) as Hp.
    { exists vals. cbn. rewrite Hvals. split_and!; [done..|lia|lia|nia|nia]. }
    cbn [ad_type d']. destruct Ht as [[-> ->]|[[-> ->]|[-> ->]]]; exact Hp. }
  exists c, d'. split; [done|]. split; [|split; [|split; [|constructor]]].
  - unfold packed, c. cbn. split_and!; [done|done| |done|rewrite Hvals; nia].
    by destruct Ht as [[-> _]|[[-> _]|[-> _]]].
  - unfold rebuild, c. cbn [cb_validity cb_len cb_type cb_values]. rewrite (rebuilt_nulls d Hn).
    cbn [mbind res_bind]. destruct Ht as [[Ht _]|[[Ht _]|[Ht _]]]; rewrite Ht;
      (rewrite data_build_law; [unfold d'; by rewrite Ht|unfold d' in Hok; by rewrite Ht in Hok]).
  - unfold to_array, data_values. cbn [ad_type d' ad_nulls ad_len ad_offset ad_buffers]. rewrite Hb.
    cbn [head default from_option id]. f_equal.
    assert (∀ i k, (i < Z.to_nat (ad_len d))%nat → Z.of_nat k = w →
      cell k vals i = cell k buf (Z.to_nat (ad_offset d) + i)) as Hcell.
    { intros i k Hi Hk. rewrite <- (cell_window k buf _ (Z.to_nat (ad_len d)) i Hi). unfold vals.
      repeat f_equal; nia. }
    destruct Ht as [[-> ->]|[[-> ->]|[-> ->]]]; apply masked_ext; intros i Hi;
      unfold decode_value; change (Z.to_nat 0 + i)%nat with i; by rewrite Hcell by (done || lia).
Qed.

(** The child values of a window of rows. *)
Lemma vector_window child buf size offset len row vals :
  ad_buffers child = [buf] → (row < len)%nat →
  vals = take (len * size * 4) (drop ((Z.to_nat (ad_offset child) + offset * size) * 4) buf) →
  vector_at (mkData Float32 (Z.of_nat (len * size)) 0 None [vals] []) size row
  = vector_at child size (offset + row).
Proof.
  intros Hb Hr ->. unfold vector_at. cbn [ad_buffers ad_offset head]. rewrite Hb. cbn [head].
  apply list_fmap_ext. intros k j [-> Hj]%lookup_seq. cbn [default from_option id]. f_equal. f_equal.
  change (Z.to_nat 0 + (row * size + (0 + k)))%nat with (row * size + (0 + k))%nat.
  rewrite cell_window by nia. f_equal. nia.
Qed.

Lemma vector_roundtrip d item size :
  ad_type d = FixedSizeList item size → data_ok d →
  ∃ c d', extract d = Ok c ∧ packed d (size * 4) c ∧ rebuild c = Ok d' ∧ to_array d' = to_array d ∧ no_child_nulls d'.
Proof.
  intros Ht [Hn Hd]. rewrite Ht in Hd.
  destruct Hd as (Hi & Hsz & _ & Ho & Hl & child & Hch & Hct & _ & (buf & Hb & _ & Hco & Hcl & Hw & Hm) & Hfit).
  assert (0 ≤ ad_offset d * size ≤ ad_len child ∧ 0 ≤ ad_len d * size ≤ ad_len child) as [Hos Hls] by nia.
  set (vals := take (Z.to_nat (ad_len d * size * 4))
                 (drop (Z.to_nat ((ad_offset child + ad_offset d * size) * 4)) buf)).
  assert (length vals = Z.to_nat (ad_len d * size * 4)) as Hvals.
  { unfold vals. rewrite length_take, length_drop. lia. }
  set (c := mkColumnBytes (ad_type d) (ad_len d) vals (validity_bytes <$> ad_nulls d) (ad_len d * size)).
  set (child' := mkData Float32 (ad_len d * size) 0 None [vals] []).
  set (d' := mkData (ad_type d) (ad_len d) 0 (ad_nulls d) [] [child']).
  exists c, d'. split; [|split; [|split; [|split; [|by constructor]]]].
  - unfold extract. rewrite Ht, bool_decide_eq_true_2 by done. cbn [negb].
    destruct (Z.ltb_spec size 0); [lia|]. rewrite Hch. cbn [head ok_or mbind res_bind].
    rewrite Hb. cbn [head ok_or mbind res_bind].
    rewrite (wmul64_exact (ad_offset d)), (wmul64_exact (ad_len d)), wadd64_small, !wmul64_exact,
      slice_checked_Ok by (unfold is_u64, U64; lia).
    cbn [mbind res_bind]. unfold c. by rewrite Ht.
  - unfold packed, c. cbn. rewrite Ht. split_and!; [done..|]. rewrite Hvals. lia.
  - assert (primitive_ok child' 4) as Hpc.
    { exists vals. unfold window_ok. cbn. rewrite Hvals. split_and!; [done..|lia|lia|lia|lia]. }
    unfold rebuild, c. cbn [cb_validity cb_len cb_type cb_values cb_child_len].
    rewrite (rebuilt_nulls d Hn). cbn [mbind res_bind]. rewrite Ht, Hi. fold child'.
    rewrite (data_build_law child'); [|split; [done|exact Hpc]]. cbn [map_err mbind res_bind].
    rewrite data_build_law; [unfold d'; by rewrite Ht|].
    split; [exact Hn|]. cbn. split_and!; [done|lia|lia|done|lia|lia|lia|].
    exists child'. split_and!; [done|done|done|exact Hpc|cbn; lia].
  - unfold to_array, data_values. cbn [ad_type d' ad_nulls ad_len ad_offset ad_children]. rewrite Ht, Hch.
    f_equal. apply masked_ext. intros i Hil. f_equal.
    change (Z.to_nat 0 + i)%nat with i. unfold child'.
    rewrite <- (vector_window child buf (Z.to_nat size) (Z.to_nat (ad_offset d)) (Z.to_nat (ad_len d)) i
      vals Hb Hil); [|unfold vals; f_equal; [|f_equal]; nia].
    repeat f_equal.
Qed.

(** The bytes of a row of a device-resident type. *)
Definition row_bytes (dt : DataType) : Z :=
  match dt with Int64 | Float64 => 8 | Float32 => 4 | FixedSizeList _ size => size * 4 | _ => 0 end.

Lemma column_roundtrip d :
  data_ok d →
  ∃ c d', extract d = Ok c ∧ packed d (row_bytes (ad_type d)) c ∧ rebuild c = Ok d' ∧
          to_array d' = to_array d ∧ no_child_nulls d'.
Proof.
  intros Hd. pose proof Hd as [Hn Hm]. destruct (ad_type d) as [| | | | |item size|] eqn:Ht; try done.
  1-3: destruct Hm as (buf & Hb & _ & Hw); eapply primitive_roundtrip; [|done..]; rewrite Ht; tauto.
  by eapply vector_roundtrip.
Qed.

(** The values, and one bit per row when there are nulls. *)
Definition transfer_bytes (d : ArrayData) : Z :=
  ad_len d * row_bytes (ad_type d) +
  match ad_nulls d with Some bits => Z.of_nat (bitmap_len (length bits)) | None => 0 end.

Lemma total_bytes_packed d c :
  data_ok d → packed d (row_bytes (ad_type d)) c → transfer_bytes d < U64 →
  total_bytes c = transfer_bytes d.
Proof.
  intros Hd (_ & _ & _ & Hv & Hlen) Ht. unfold total_bytes, transfer_bytes in *. rewrite Hv, Hlen.
  assert (0 ≤ ad_len d * row_bytes (ad_type d)) by lia.
  destruct (ad_nulls d) as [bits|]; cbn [fmap option_fmap option_map].
  - rewrite (proj1 (sliced_law bits)). rewrite wadd64_small by (unfold is_u64; lia).
    unfold u64_max. destruct (Z.leb_spec (ad_len d * row_bytes (ad_type d) + Z.of_nat (bitmap_len (length bits))) (U64 - 1)); lia.
  - rewrite wadd64_small by (unfold is_u64; lia). unfold u64_max.
    destruct (Z.leb_spec (ad_len d * row_bytes (ad_type d) + 0) (U64 - 1)); lia.
Qed.

Lemma columns_roundtrip ds :
  Forall data_ok ds →
  ∃ cs ds', extract_batch ds = Ok cs ∧ Forall2 (λ d c, packed d (row_bytes (ad_type d)) c) ds cs ∧
            rebuild_columns cs = Ok ds' ∧
            Forall2 (λ d d', to_array d' = to_array d ∧ no_child_nulls d') ds ds'.
Proof.
  induction 1 as [|d ds Hd _ (cs & ds' & Hx & Hp & Hr & Ha)]; [by exists [], []|].
  destruct (column_roundtrip d Hd) as (c & d' & Hxd & Hpd & Hrd & Had).
  exists (c :: cs), (d' :: ds'). unfold extract_batch, rebuild_columns in *. cbn.
  rewrite Hxd, Hrd. cbn. rewrite Hx, Hr. split_and!; [done|by constructor|done|by constructor].
Qed.
End Columns.

(** C37: a batch of device-resident columns, sliced anywhere, survives the trip
    through its bytes: every column is packed to its rows' values and, when it
    has nulls, one validity bit per row, [total_bytes] is exactly that, and the
    batch rebuilt from those bytes is the batch, rows, values and nulls of the
    rows.  A vector column comes back with the same components too, as long as
    no component of a vector is null: the validity inside a vector does not
    travel, and a null component would come back as the value under it.  A
    column of any other type is an [Unsupported] error, which sends the batch to
    the CPU. *)
Theorem column_bytes_roundtrip `{!ArrowBuffers, !ArrowBuffersLaws, !ArrowKernels, !ArrowLaws} ds b :
  batch_ok b → columns b = to_array <$> ds → ds ≠ [] → Forall data_ok ds →
  Forall (λ d, transfer_bytes d < U64) ds →
  (∃ cs ds', extract_batch ds = Ok cs ∧
     Forall2 (λ d c, total_bytes c = transfer_bytes d ∧ cb_len c = Z.of_nat (num_rows b)) ds cs ∧
     rebuild_columns cs = Ok ds' ∧ rebuild_batch (schema b) cs = Ok b ∧
     Forall2 (λ d d', to_array d' = to_array d ∧ (whole_vectors d → elements d' = elements d)) ds ds') ∧
  (∀ d, is_device_eligible (ad_type d) = false →
     (∀ item size, ad_type d = FixedSizeList item size → field_type_of item ≠ Float32) →
     ∃ e, extract d = Err e ∧ is_unsupported e = true).
Proof.
  intros Hb Hcols Hne Hds Hbytes. split.
  - destruct (columns_roundtrip ds Hds) as (cs & ds' & Hx & Hp & Hr & Ha). exists cs, ds'.
    split; [done|]. split; [|split; [done|split]].
    + assert (Forall (λ d, ad_len d = Z.of_nat (num_rows b)) ds) as Hrows.
      { apply Forall_forall. intros d Hd. apply list_elem_of_lookup_1 in Hd as [k Hk].
        pose proof (batch_ok_column_len b k (to_array d) Hb) as Hlen.
        rewrite Hcols, list_lookup_fmap, Hk in Hlen. specialize (Hlen eq_refl).
        rewrite Forall_forall in Hds. pose proof (Hds d (list_elem_of_lookup_2 _ _ _ Hk)) as [_ Hd].
        rewrite <- Hlen. unfold array_len, to_array, data_values. cbn [values].
        destruct (ad_type d); try done; unfold masked; rewrite length_fmap, length_seq;
          [destruct Hd as (? & _ & _ & _ & ? & _)..|destruct Hd as (_ & _ & _ & _ & ? & _)]; lia. }
      clear Hcols Hne Hx Hr Ha. revert Hds Hbytes Hrows.
      induction Hp as [|d c ds cs Hdc _ IH]; intros; [constructor|]. decompose_Forall_hyps.
      constructor; [|by apply IH]. split; [by apply total_bytes_packed|].
      destruct Hdc as (_ & -> & _). done.
    + assert (to_array <$> ds' = to_array <$> ds) as Ha'.
      { clear -Ha. induction Ha as [|d d' ds ds' [Hd _] _ IH]; [done|]. cbn. by rewrite Hd, IH. }
      unfold rebuild_batch. rewrite Hr. cbn [mbind res_bind]. rewrite Ha', <- Hcols.
      destruct b as [s cols n]. cbn in *. destruct cols as [|a cols]; [by destruct ds|].
      assert (array_len a = n) as <- by (by eapply (batch_ok_column_len _ 0 a Hb)).
      by rewrite try_new_law.
    + eapply Forall2_impl; [exact Ha|]. intros d d' [Hd Hn]. split; [done|]. intros Hw.
      rewrite (elements_whole d Hw), (elements_whole d') by (by apply no_child_nulls_whole).
      unfold to_array in Hd. by injection Hd as _ ->.
  - intros d He Hf. unfold extract, is_device_eligible in *.
    destruct (ad_type d) as [| | | | |item size|]; try done; try by eexists.
    rewrite bool_decide_eq_false_2 by (by eapply Hf). by eexists.
Qed.

(** ** Examples *)

Module ColumnsExample.

(** Bits packed lowest first. *)
Definition pack_byte (bits : list bool) : Z := foldr (λ b z, Z.b2z b + 2 * z) 0 bits.
Definition pack (bits : list bool) : list Z :=
  (λ k, pack_byte (take 8 (drop (8 * k) bits))) <$> seq 0 (bitmap_len (length bits)).

Lemma pack_byte_bit bits i : Z.testbit (pack_byte bits) (Z.of_nat i) = default false (bits !! i).
Proof.
  revert i. induction bits as [|b bits IH]; intros i; [by rewrite Z.testbit_0_l|]. cbn [pack_byte foldr].
  fold (pack_byte bits). rewrite Z.add_comm. destruct i as [|i].
  - change (Z.of_nat 0) with 0. by rewrite Z.testbit_0_r.
  - rewrite Nat2Z.inj_succ, Z.testbit_succ_r by lia. apply IH.
Qed.

#[local] Instance packed_buffers : ArrowBuffers := {| sliced := pack; data_build d := Ok d |}.
#[local] Instance packed_buffers_laws : ArrowBuffersLaws.
Proof.
  split; [|done]. intros bits. cbn. unfold pack. split; [by rewrite length_fmap, length_seq|].
  intros i b Hb. apply lookup_lt_Some in Hb as Hi. unfold bit_at, bitmap_len.
  pose proof (Nat.div_mod_eq i 8) as Hdm. pose proof (Nat.mod_upper_bound i 8 ltac:(lia)) as Hm.
  assert (i / 8 < (length bits + 7) / 8)%nat.
  { apply (Nat.mul_lt_mono_pos_l 8); [lia|].
    pose proof (Nat.div_mod_eq (length bits + 7) 8). pose proof (Nat.mod_upper_bound (length bits + 7) 8). lia. }
  rewrite list_lookup_fmap, lookup_seq_lt by done. cbn [fmap option_fmap option_map].
  rewrite pack_byte_bit, lookup_take_lt, lookup_drop by lia.
  match goal with |- context[bits !! ?k] => replace k with i by lia end. by rewrite Hb.
Qed.

(** Rows 1 and 2 of an [Int64] array [5, 7, null], and a two-dimensional vector
    column of as many rows. *)
Definition ints : ArrayData :=
  mkData Int64 2 1 (Some [true; false])
    [to_le_bytes 8 5 ++ to_le_bytes 8 7 ++ to_le_bytes 8 0] [].
Definition item : Field := Field_new "item" Float32 true.
Definition floats : list Z := to_le_bytes 4 0x3f800000 ++ to_le_bytes 4 0x40000000
                              ++ to_le_bytes 4 0x40400000 ++ to_le_bytes 4 0.
Definition vectors : ArrayData :=
  mkData (FixedSizeList item 2) 2 0 None [] [mkData Float32 4 0 None [floats] []].

Definition sliced_batch : RecordBatch :=
  mkBatch (Schema_new [Field_new "k" Int64 true; Field_new "v" (FixedSizeList item 2) true])
    [mkArray Int64 [Some (VInt 7); None];
     mkArray (FixedSizeList item 2) [Some (VVec [F32 0x3f800000; F32 0x40000000]);
                                     Some (VVec [F32 0x40400000; F32 0])]] 2.

Lemma column_bytes_roundtrip_witness :
  ∃ cs ds', extract_batch [ints; vectors] = Ok cs ∧
    Forall2 (λ d c, total_bytes c = transfer_bytes d ∧ cb_len c = 2) [ints; vectors] cs ∧
    rebuild_columns cs = Ok ds' ∧ rebuild_batch (schema sliced_batch) cs = Ok sliced_batch ∧
    elements <$> ds' = elements <$> [ints; vectors].
Proof.
  destruct (column_bytes_roundtrip [ints; vectors] sliced_batch) as [(cs & ds' & Hx & Hb & Hr & Hrb & Hall) _].
  - apply (bool_decide_unpack _). vm_compute. exact I.
  - vm_compute. reflexivity.
  - discriminate.
  - constructor; [|constructor; [|constructor]].
    + split; [by intros bits [= <-]|]. eexists. split; [reflexivity|].
      split; [reflexivity|]. unfold window_ok. cbn. lia.
    + split; [by intros bits [=]|]. cbn. split_and!; try done; try lia.
      eexists. split; [reflexivity|]. split; [reflexivity|]. split; [by intros bits [=]|].
      split; [|cbn; lia]. eexists. split; [reflexivity|]. split; [reflexivity|].
      unfold window_ok. cbn. lia.
  - repeat constructor.
  - exists cs, ds'. split_and!; [done..|]. inversion Hall as [|d1 d1' l1 l1' [_ H1] Hall']; subst.
    inversion Hall' as [|d2 d2' l2 l2' [_ H2] Hnil]; subst. inversion Hnil; subst. cbn [fmap list_fmap].
    rewrite H1, H2; [done|..]; by apply no_child_nulls_whole; repeat constructor.
Defined.

(** A null inside a vector comes back as the value under it: the child's own
    validity does not travel. *)
Example child_nulls_lost :
  let d := mkData (FixedSizeList item 2) 2 0 None [] [mkData Float32 4 0 (Some [true; true; true; false]) [floats] []] in
  (c ← extract d; rebuild c) = Ok vectors.
Proof. vm_compute. reflexivity. Qed.
End ColumnsExample.
