(* ===== verification/Codec.v ===== *)
(** * oxidelake-planner: the plan codec

    Models [src/crates/oxidelake-planner/src/codec.rs] and the feature mask of
    [src/crates/oxidelake-compute/src/lib.rs]: how a [Gpu*Exec] travels between
    the processes of a cluster.  [postcard] and the codec that is wrapped are
    operations of [Postcard] and [InnerCodec]; the version and the features of
    a build are a [Build], since the two ends need not be the same one.  The
    properties are in [CodecCorrect]. *)

From Stdlib Require Import Ascii.
From S2P Require Import Prelude Floats Arrow Core Telemetry Memory ArrowKernels Kernels.
From S2P Require Import Device Operator Execs Planner Bytes.

(** What a build of the workspace fixes. *)
Record Build := mkBuild {
  crate_version : string;
  feature_predict : bool;
  build_cuda : bool;
  build_metal : bool;
}.

Definition FEATURE_MASK (b : Build) : Z :=
  Z.lor (Z.lor (Z.b2z (feature_predict b)) (Z.shiftl (Z.b2z (build_cuda b)) 1))
        (Z.shiftl (Z.b2z (build_metal b)) 2).

Definition string_bytes (s : string) : list Z :=
  (λ c, Z.of_nat (nat_of_ascii c)) <$> String.list_ascii_of_string s.

Definition MAGIC : list Z := [79; 88; 71; 80].
Definition VERSION : Z := 2.

Fixpoint fnv1a (hash : Z) (bytes : list Z) : Z :=
  match bytes with
  | [] => hash
  | b :: bytes => fnv1a (wrap32 (Z.lxor hash b * 0x01000193)) bytes
  end.

Definition fingerprint (b : Build) : Z :=
  let h := fnv1a 0x811c9dc5 (string_bytes (crate_version b)) in
  let h := fnv1a h [VERSION] in
  fnv1a h (to_le_bytes 4 (FEATURE_MASK b)).

Definition HEADER : nat := length MAGIC + 1 + 4.

(** [copy_from_slice] wants exactly four bytes. *)
Definition check_fingerprint (b : Build) (tag : list Z) : df_result unit :=
  if negb (length tag =? 4)%nat then Panic
  else if from_le_bytes tag =? fingerprint b then Ok tt
  else Err (DFInternal "plan was encoded by a build with another fingerprint").

Inductive GpuNode :=
  | NodeFilter (target : BackendKind) (predicate : Predicate) (projection : list nat)
  | NodeHashJoin (target : BackendKind) (left_key right_key : nat) (projection : option (list nat))
  | NodeAggregate (target : BackendKind) (spec : AggregateSpec) (output : list (string * bool))
  | NodeVectorDistance (target : BackendKind) (column : nat) (query : list f32)
                       (metric : DistanceMetric) (output_name : string).

(** [postcard::to_allocvec] and [postcard::from_bytes] at [GpuNode]. *)
Class Postcard := {
  to_allocvec : GpuNode → res string (list Z);
  from_bytes : list Z → res string GpuNode;
}.

(** The wrapped [PhysicalExtensionCodec]; encoding appends to a buffer. *)
Class InnerCodec := {
  inner_decode : list Z → list ExecutionPlan → df_result ExecutionPlan;
  inner_encode : ExecutionPlan → list Z → list Z * df_result unit;
}.

Definition child (inputs : list ExecutionPlan) (index : nat) (what : string) : df_result ExecutionPlan :=
  ok_or (inputs !! index) (DFInternal (what +:+ ": missing child")).

(** [None] for a node that is not a [Gpu*Exec]. *)
Definition describe (node : ExecutionPlan) : option GpuNode :=
  match node with
  | GpuFilter f => Some (NodeFilter (cfg_target (gf_config f)) (gf_predicate f) (gf_projection f))
  | GpuJoin j => Some (NodeHashJoin (cfg_target (gj_config j)) (gj_left_key j) (gj_right_key j)
                                    (gj_projection j))
  | GpuAggregate a =>
      Some (NodeAggregate (cfg_target (ga_config a)) (ga_spec a)
              ((λ f, (field_name f, field_nullable f)) <$> fields (node_schema node)))
  | GpuVector v => Some (NodeVectorDistance (cfg_target (gv_config v)) (gv_column v) (gv_query v)
                                            (gv_metric v) (gv_output_name v))
  | _ => None
  end.

Section Codec.
Context `{ArrowKernels, Postcard, InnerCodec}.
(** The process-wide hub, [TelemetryHub::global]. *)
Context (hub : nat).

(** The planned names and nullabilities on the types the specification yields. *)
Definition planned_fields (ours : list Field) (output : list (string * bool)) : list Field :=
  zip_with (λ f '(name, nullable), Field_new name (field_type_of f) nullable) ours output.

Definition build (node : GpuNode) (inputs : list ExecutionPlan) : df_result ExecutionPlan :=
  match node with
  | NodeFilter target predicate projection =>
      input ← child inputs 0 "GpuFilterExec";
      exec ← GpuFilterExec_try_new input predicate projection target;
      Ok (GpuFilter (gf_with_config (config_with_telemetry hub) exec))
  | NodeHashJoin target left_key right_key projection =>
      left ← child inputs 0 "GpuHashJoinExec";
      right ← child inputs 1 "GpuHashJoinExec";
      exec ← GpuHashJoinExec_try_new left right left_key right_key target;
      exec ← gj_with_projection exec projection;
      Ok (GpuJoin (gj_with_config (config_with_telemetry hub) exec))
  | NodeAggregate target spec output =>
      input ← child inputs 0 "GpuAggregateExec";
      exec ← GpuAggregateExec_try_new input spec target;
      if negb (length output =? length (fields (ga_schema exec)))%nat
      then Err (DFInternal "GpuAggregateExec: another number of output fields was planned")
      else
        exec ← ga_with_output_schema exec (Schema_new (planned_fields (fields (ga_schema exec)) output));
        Ok (GpuAggregate (ga_with_config (config_with_telemetry hub) exec))
  | NodeVectorDistance target column query metric output_name =>
      input ← child inputs 0 "GpuVectorDistanceExec";
      exec ← GpuVectorDistanceExec_try_new input column query metric output_name target;
      Ok (GpuVector (gv_with_config (config_with_telemetry hub) exec))
  end.

(** [b] is the build that decodes. *)
Definition try_decode (b : Build) (buf : list Z) (inputs : list ExecutionPlan) :
    df_result ExecutionPlan :=
  if (HEADER <? length buf)%nat && bool_decide (take (length MAGIC) buf = MAGIC) then
    version ← index buf (length MAGIC);
    if negb (version =? VERSION)
    then Err (DFInternal "unsupported payload version")
    else
      _ ← check_fingerprint b (take (HEADER - (length MAGIC + 1)) (drop (length MAGIC + 1) buf));
      node ← map_err (λ e, DFInternal ("corrupt payload: " +:+ e)) (from_bytes (drop HEADER buf));
      build node inputs
  else inner_decode buf inputs.

(** The buffer keeps what was appended before an error. *)
Definition try_encode (b : Build) (node : ExecutionPlan) (buf : list Z) : list Z * df_result unit :=
  match describe node with
  | Some gpu =>
      let buf := buf ++ MAGIC ++ [VERSION] ++ to_le_bytes 4 (fingerprint b) in
      match to_allocvec gpu with
      | Ok payload => (buf ++ payload, Ok tt)
      | Err e => (buf, Err (DFInternal ("encode failed: " +:+ e)))
      | Panic => (buf, Panic)
      end
  | None => inner_encode node buf
  end.
End Codec.
