(* ===== verification/CodecCorrect.v ===== *)
(** * The plan codec: round trips, refusals and delegation

    Properties of [Codec]: a [Gpu*Exec] a coherent plan holds arrives as the
    same node over the decoded children, a payload of another build is refused
    before [postcard] sees it, and everything else is the wrapped codec's. *)

From Stdlib Require Import Ascii.
From S2P Require Import Prelude Floats Arrow Core Telemetry Memory ArrowKernels Kernels.
From S2P Require Import FilterCorrect JoinCorrect Device Operator Execs ExecsCorrect Planner.
From S2P Require Import PlannerCorrect PlacementCorrect PlacementTotal Bytes Codec.

(** What the codec relies on of [postcard]: a payload is never empty and reads
    back as the node it was written from. *)
Class PostcardLaws `{Postcard} : Prop :=
  postcard_law n payload :
    to_allocvec n = Ok payload →
    payload ≠ [] ∧ Forall is_byte payload ∧ from_bytes payload = Ok n.

(** ** The fingerprint *)

Lemma mul_mod_inj m c c' a b :
  0 < m → (c * c') mod m = 1 → 0 ≤ a < m → 0 ≤ b < m → (a * c) mod m = (b * c) mod m → a = b.
Proof.
  intros Hm Hc Ha Hb Hab.
  assert (∀ x, 0 ≤ x < m → ((x * c) mod m * c') mod m = x) as Hinv.
  { intros x Hx. rewrite Z.mul_mod_idemp_l, <- Z.mul_assoc by lia.
    rewrite <- Z.mul_mod_idemp_r, Hc, Z.mul_1_r by lia. by apply Z.mod_small. }
  rewrite <- (Hinv a Ha), Hab. by apply Hinv.
Qed.

Lemma lxor_byte_u32 h b : is_u32 h → is_byte b → is_u32 (Z.lxor h b).
Proof.
  unfold is_u32, is_byte, U32. intros [Hh0 Hh1] [Hb0 Hb1].
  assert (0 ≤ Z.lxor h b) as Hn by (apply Z.lxor_nonneg; split; lia).
  split; [done|]. destruct (decide (Z.lxor h b = 0)) as [->|]; [done|].
  apply Z.log2_lt_pow2; [lia|]. eapply Z.le_lt_trans; [apply Z.log2_lxor; lia|].
  assert (∀ x, 0 ≤ x → x < 2 ^ 32 → Z.log2 x < 32) as Hlog.
  { intros x Hx0 Hx. destruct (decide (x = 0)) as [->|]; [done|]. apply Z.log2_lt_pow2; lia. }
  apply Z.max_lub_lt; apply Hlog; lia.
Qed.

(** One step of the hash is injective in the state, and in the byte. *)
Lemma fnv1a_step_inj h h' b b' :
  is_u32 h → is_u32 h' → is_byte b → is_byte b' →
  wrap32 (Z.lxor h b * 0x01000193) = wrap32 (Z.lxor h' b' * 0x01000193) →
  Z.lxor h b = Z.lxor h' b'.
Proof.
  intros Hh Hh' Hb Hb' Heq. apply (mul_mod_inj U32 0x01000193 0x359c449b); [done|reflexivity| | |exact Heq];
    by apply lxor_byte_u32.
Qed.

Lemma lxor_cancel_r a b c : Z.lxor a c = Z.lxor b c → a = b.
Proof.
  intros Heq. rewrite <- (Z.lxor_0_r a), <- (Z.lxor_0_r b), <- (Z.lxor_nilpotent c).
  by rewrite <- !Z.lxor_assoc, Heq.
Qed.

Lemma wrap32_range z : is_u32 (wrap32 z).
Proof. apply Z.mod_pos_bound. done. Qed.

Lemma fnv1a_inj bytes h h' :
  Forall is_byte bytes → is_u32 h → is_u32 h' → fnv1a h bytes = fnv1a h' bytes → h = h'.
Proof.
  intros Hb. revert h h'. induction Hb as [|b bytes Hb _ IH]; intros h h' Hh Hh' Heq; [done|].
  cbn in Heq. apply IH in Heq; [|apply wrap32_range..].
  apply fnv1a_step_inj in Heq; [|done..]. by eapply lxor_cancel_r.
Qed.

Lemma fnv1a_range h bytes : is_u32 h → is_u32 (fnv1a h bytes).
Proof. revert h. induction bytes as [|b bytes IH]; intros h Hh; [done|]. apply IH, wrap32_range. Qed.

Lemma FEATURE_MASK_byte b : to_le_bytes 4 (FEATURE_MASK b) = [FEATURE_MASK b; 0; 0; 0] ∧
  is_byte (FEATURE_MASK b).
Proof. by destruct b as [v [] [] []]. Qed.

(** A difference in the features of two builds of one version always shows. *)
Lemma fingerprint_features b b' :
  crate_version b = crate_version b' → fingerprint b = fingerprint b' → FEATURE_MASK b = FEATURE_MASK b'.
Proof.
  unfold fingerprint. intros ->. set (h := fnv1a (fnv1a 0x811c9dc5 _) _).
  assert (is_u32 h) as Hh by (apply fnv1a_range, fnv1a_range; unfold is_u32, U32; lia).
  destruct (FEATURE_MASK_byte b) as [-> Hb], (FEATURE_MASK_byte b') as [-> Hb'].
  intros Heq. change (fnv1a ?a (?m :: ?r)) with (fnv1a (wrap32 (Z.lxor a m * 0x01000193)) r) in Heq.
  apply fnv1a_inj in Heq; [|repeat constructor; done|apply wrap32_range..].
  apply fnv1a_step_inj in Heq; [|done..]. rewrite !(Z.lxor_comm h) in Heq. by eapply lxor_cancel_r.
Qed.

Lemma string_bytes_app s t : string_bytes (s +:+ t) = string_bytes s ++ string_bytes t.
Proof. unfold string_bytes. by rewrite list_ascii_app, fmap_app. Qed.

Lemma ascii_byte c : is_byte (Z.of_nat (nat_of_ascii c)).
Proof. unfold is_byte. pose proof (nat_ascii_bounded c). lia. Qed.

Lemma string_bytes_ok s : Forall is_byte (string_bytes s).
Proof. apply Forall_fmap, Forall_true. intros c. apply ascii_byte. Qed.

Lemma fnv1a_app h l k : fnv1a h (l ++ k) = fnv1a (fnv1a h l) k.
Proof. revert h. induction l as [|b l IH]; intros h; [done|]. apply IH. Qed.

(** So does a difference in one character of the version, the features being
    the same: every step after it is injective in the state. *)
Lemma fingerprint_version b b' before c c' after :
  FEATURE_MASK b = FEATURE_MASK b' → crate_version b = before +:+ String c after →
  crate_version b' = before +:+ String c' after → fingerprint b = fingerprint b' → c = c'.
Proof.
  unfold fingerprint. intros -> -> ->. destruct (FEATURE_MASK_byte b') as [-> Hb]. intros Heq.
  assert (is_u32 0x811c9dc5) as H0 by (unfold is_u32, U32; lia).
  assert (Forall is_byte [FEATURE_MASK b'; 0; 0; 0]) as Hmask by (repeat (constructor; [done|]); constructor).
  assert (Forall is_byte [VERSION]) as Hversion by by constructor.
  apply (fnv1a_inj _ _ _ Hmask) in Heq; [|by apply fnv1a_range, fnv1a_range..].
  apply (fnv1a_inj _ _ _ Hversion) in Heq; [|by apply fnv1a_range..].
  rewrite !string_bytes_app, !fnv1a_app in Heq. set (h := fnv1a 0x811c9dc5 (string_bytes before)) in *.
  assert (is_u32 h) as Hh by (by apply fnv1a_range).
  apply (fnv1a_inj (string_bytes after)) in Heq; [|apply string_bytes_ok|apply wrap32_range..].
  apply fnv1a_step_inj in Heq; [|done|done|apply ascii_byte..]. rewrite !(Z.lxor_comm h) in Heq.
  apply lxor_cancel_r in Heq. rewrite <- (ascii_nat_embedding c), <- (ascii_nat_embedding c'). f_equal. lia.
Qed.

Lemma fingerprint_range b : is_u32 (fingerprint b).
Proof. apply fnv1a_range, fnv1a_range, fnv1a_range. unfold is_u32, U32. lia. Qed.

(** ** The wire format *)

Definition header (b : Build) : list Z := MAGIC ++ [VERSION] ++ to_le_bytes 4 (fingerprint b).

Lemma header_parts b payload :
  length (header b) = HEADER ∧ drop HEADER (header b ++ payload) = payload ∧
  take (length MAGIC) (header b ++ payload) = MAGIC ∧
  (header b ++ payload) !! length MAGIC = Some VERSION ∧
  take (HEADER - (length MAGIC + 1)) (drop (length MAGIC + 1) (header b ++ payload))
    = to_le_bytes 4 (fingerprint b).
Proof. done. Qed.

Lemma check_fingerprint_spec b f :
  is_u32 f →
  check_fingerprint b (to_le_bytes 4 f)
  = if decide (f = fingerprint b) then Ok tt
    else Err (DFInternal "plan was encoded by a build with another fingerprint").
Proof.
  intros Hf. unfold check_fingerprint. rewrite length_to_le_bytes, from_to_le_bytes. cbn [Nat.eqb negb].
  change (2 ^ (8 * Z.of_nat 4)) with U32. rewrite Z.mod_small by done.
  destruct (Z.eqb_spec f (fingerprint b)), (decide (f = fingerprint b)); done.
Qed.

(** A schema as the wire format carries it: names, types and nullability. *)
Definition plain_field (f : Field) : Field := Field_new (field_name f) (field_type_of f) (field_nullable f).
Definition plain_schema (s : Schema) : Schema := Schema_new (plain_field <$> fields s).

Definition reset_config (hub : nat) (c : ExecConfig) : ExecConfig :=
  mkConfig (cfg_target c) None (Some hub) None.

(** The node over other children, reporting to [hub], not executed yet. The
    aggregate's planned schema arrives without metadata; the other nodes take
    theirs from their inputs. *)
Definition received (hub : nat) (p : ExecutionPlan) (cs : list ExecutionPlan) : ExecutionPlan :=
  match p, cs with
  | GpuFilter e, [i] =>
      GpuFilter (mkFilterExec i (gf_predicate e) (gf_projection e) (gf_schema e) (gf_properties e)
                   (reset_config hub (gf_config e)))
  | GpuJoin e, [l; r] =>
      GpuJoin (mkJoinExec l r (gj_left_key e) (gj_right_key e) (gj_projection e) (gj_schema e)
                 (gj_properties e) (reset_config hub (gj_config e)) None)
  | GpuAggregate e, [i] =>
      GpuAggregate (mkAggExec i (ga_spec e) (plain_schema (ga_schema e))
                      (plan_properties (plain_schema (ga_schema e)) (UnknownPartitioning 1) Final)
                      (reset_config hub (ga_config e)))
  | GpuVector e, [i] =>
      GpuVector (mkVectorExec i (gv_column e) (gv_query e) (gv_metric e) (gv_output_name e)
                   (gv_schema e) (gv_properties e) (reset_config hub (gv_config e)))
  | _, _ => p
  end.

Section Wire.
Context `{!ArrowKernels, !ArrowLaws, !Postcard, !PostcardLaws, !InnerCodec} (hub : nat).

Lemma planned_fields_plain (ours planned : list Field) :
  length planned = length ours →
  forallb (λ '(planned, ours), bool_decide (field_type_of planned = field_type_of ours))
    (zip planned ours) = true →
  planned_fields ours ((λ f, (field_name f, field_nullable f)) <$> planned) = plain_field <$> planned.
Proof.
  revert ours. induction planned as [|f planned IH]; intros [|g ours] Hlen Ht; try done.
  cbn in Ht. apply andb_true_iff in Ht as [Hft Ht].
  apply bool_decide_eq_true in Hft. cbn. unfold plain_field at 1. f_equal; [by rewrite Hft|]. apply IH; [|done].
  cbn in Hlen. lia.
Qed.

(** The types of a schema are those of its plain form. *)
Lemma plain_types (planned ours : list Field) :
  forallb (λ '(planned, ours), bool_decide (field_type_of planned = field_type_of ours)) (zip (plain_field <$> planned) ours)
  = forallb (λ '(planned, ours), bool_decide (field_type_of planned = field_type_of ours)) (zip planned ours).
Proof. revert ours. induction planned as [|f planned IH]; intros [|g ours]; try done. cbn. by rewrite IH. Qed.

(** What a child's schema and partitioning decide. *)
Definition same_node (a b : ExecutionPlan) : Prop :=
  node_schema a = node_schema b ∧ node_partitioning a = node_partitioning b.

Lemma build_filter e i :
  node_coherent (GpuFilter e) → same_node i (gf_input e) →
  build hub (NodeFilter (cfg_target (gf_config e)) (gf_predicate e) (gf_projection e)) [i]
  = Ok (received hub (GpuFilter e) [i]).
Proof.
  intros (e0 & He0 & He) [Hs Hp]. cbn [build child lookup list_lookup ok_or mbind res_bind].
  apply filter_try_new_Ok in He0 as (Ht & Hl & Hne & fs & Hfs & He0). rewrite He0 in He.
  erewrite (proj2 (filter_try_new_Ok i _ _ _ _)).
  2: { rewrite Hs. split_and!; [done..|]. by exists fs. }
  cbn [mbind res_bind]. rewrite Hp, He. done.
Qed.

Lemma build_join e l r :
  node_coherent (GpuJoin e) → same_node l (gj_left e) → same_node r (gj_right e) →
  build hub (NodeHashJoin (cfg_target (gj_config e)) (gj_left_key e) (gj_right_key e) (gj_projection e))
    [l; r]
  = Ok (received hub (GpuJoin e) [l; r]).
Proof.
  intros (e0 & e1 & He0 & He1 & He) [Hls Hlp] [Hrs Hrp].
  cbn [build child lookup list_lookup ok_or mbind res_bind].
  destruct (join_new_Ok _ _ _ _ _ _ _ _ He0 He1) as (_ & _ & fs & _ & _ & He1').
  unfold GpuHashJoinExec_try_new in *. apply bind_Ok_inv in He0 as ([] & Hl & He0).
  apply bind_Ok_inv in He0 as ([] & Hr & [= <-]). rewrite Hls, Hrs, Hl. cbn [mbind res_bind].
  rewrite Hr. cbn [mbind res_bind]. unfold gj_with_projection, joined_schema in *.
  cbn [gj_left gj_right gj_left_key gj_right_key gj_config gj_build] in *. rewrite Hls, Hrs.
  apply bind_Ok_inv in He1 as (s & Hsel & [= He1]). rewrite Hsel. cbn [mbind res_bind].
  rewrite <- He1 in He. rewrite Hlp, He. done.
Qed.

Lemma build_aggregate e i :
  node_coherent (GpuAggregate e) → same_node i (ga_input e) →
  build hub (NodeAggregate (cfg_target (ga_config e)) (ga_spec e)
    ((λ f, (field_name f, field_nullable f)) <$> fields (node_schema (GpuAggregate e)))) [i]
  = Ok (received hub (GpuAggregate e) [i]).
Proof.
  intros (e0 & e1 & He0 & He1 & He) [Hs _].
  unfold GpuAggregateExec_try_new in He0. apply bind_Ok_inv in He0 as (s & Hsch & [= <-]).
  unfold ga_with_output_schema in He1. cbn [ga_schema ga_input ga_spec ga_config] in He1.
  destruct (negb _) eqn:Hn1 in He1; [done|]. destruct (negb _) eqn:Hn2 in He1; [done|].
  injection He1 as <-. apply negb_false_iff, Nat.eqb_eq in Hn1 as Hlen. apply negb_false_iff in Hn2.
  assert (node_schema (GpuAggregate e) = ga_schema e) as -> by (rewrite He; done).
  cbn [build child lookup list_lookup ok_or mbind res_bind]. unfold GpuAggregateExec_try_new.
  rewrite Hs, Hsch. cbn [mbind res_bind ga_schema]. rewrite length_fmap, Hn1.
  rewrite planned_fields_plain by done. fold (plain_schema (ga_schema e)).
  unfold ga_with_output_schema. cbn [ga_schema ga_input ga_spec ga_config fields plain_schema Schema_new].
  rewrite length_fmap, Hn1, plain_types, Hn2. cbn [negb mbind res_bind]. rewrite He. done.
Qed.

Lemma build_vector e i :
  node_coherent (GpuVector e) → same_node i (gv_input e) →
  build hub (NodeVectorDistance (cfg_target (gv_config e)) (gv_column e) (gv_query e) (gv_metric e)
    (gv_output_name e)) [i]
  = Ok (received hub (GpuVector e) [i]).
Proof.
  intros (e0 & He0 & He) [Hs Hp]. cbn [build child lookup list_lookup ok_or mbind res_bind].
  unfold GpuVectorDistanceExec_try_new in *.
  apply bind_Ok_inv in He0 as (dt & Hdt & He0). apply bind_Ok_inv in He0 as (dim & Hdim & He0).
  destruct (negb _) eqn:Hn in He0; [done|]. injection He0 as <-.
  rewrite Hs, Hdt. cbn [mbind res_bind]. rewrite Hdim. cbn [mbind res_bind].
  rewrite Hn. cbn [mbind res_bind]. rewrite He, Hp. done.
Qed.

Lemma build_described p n cs :
  describe p = Some n → node_coherent p → Forall2 same_node cs (plan_children p) →
  build hub n cs = Ok (received hub p cs).
Proof.
  intros Hd Hp Hcs. destruct p; try done; injection Hd as <-; cbn [plan_children] in Hcs;
    repeat match goal with H : Forall2 _ _ _ |- _ => inversion_clear H end.
  - by apply build_filter.
  - by apply build_join.
  - by apply build_aggregate.
  - by apply build_vector.
Qed.

Lemma try_encode_described b p n payload buf :
  describe p = Some n → to_allocvec n = Ok payload →
  try_encode b p buf = (buf ++ header b ++ payload, Ok tt).
Proof. intros Hd Ha. unfold try_encode. rewrite Hd, Ha. unfold header. by rewrite !app_assoc. Qed.

Lemma try_decode_header b b' payload cs :
  payload ≠ [] →
  try_decode hub b (header b' ++ payload) cs
  = if decide (fingerprint b' = fingerprint b)
    then n ← map_err (λ e, DFInternal ("corrupt payload: " +:+ e)) (from_bytes payload); build hub n cs
    else Err (DFInternal "plan was encoded by a build with another fingerprint").
Proof.
  intros Hne. destruct (header_parts b' payload) as (Hlen & Hdrop & Hmagic & Hver & Htag).
  unfold try_decode. rewrite (proj2 (Nat.ltb_lt HEADER _)).
  2: { rewrite length_app, Hlen. destruct payload; [done|cbn; lia]. }
  rewrite Hmagic, bool_decide_eq_true_2 by done. cbn [andb]. unfold index. rewrite Hver. cbn [mbind res_bind].
  cbn [Z.eqb VERSION Pos.eqb negb]. rewrite Htag, check_fingerprint_spec by apply fingerprint_range.
  destruct (decide _); [|done]. cbn [mbind res_bind]. by rewrite Hdrop.
Qed.

Lemma received_described p n cs :
  describe p = Some n → node_coherent p → Forall2 same_node cs (plan_children p) → describe (received hub p cs) = Some n.
Proof.
  intros Hd Hp Hcs. destruct p; try done; injection Hd as <-; cbn [plan_children] in Hcs;
    repeat match goal with H : Forall2 _ _ _ |- _ => inversion_clear H end; try done.
  cbn [received describe]. do 2 f_equal. destruct Hp as (e0 & e1 & _ & He1 & He).
  unfold ga_with_output_schema in He1. destruct (negb _) in He1; [done|]. destruct (negb _) in He1; [done|].
  injection He1 as <-. rewrite He. unfold node_schema. cbn. by rewrite <- list_fmap_compose.
Qed.

(** C16: a [Gpu*Exec] of a coherent plan crosses the wire between processes of
    one build: the buffer grows by one self-contained payload, and decoding it
    over children of the same schemas and partitionings gives a node of the same
    kind with the planned backend and the same parameters, output schema and
    partitioning, except that an aggregate's schema arrives without its
    metadata.  What belongs to the process does not travel: the decoded node has
    no backend selected, nothing recorded and no build side, and reports to the
    process-wide hub.  Encoding it again gives the same payload. *)
Theorem codec_roundtrip b p cs n payload buf :
  coherent p → describe p = Some n → to_allocvec n = Ok payload →
  Forall2 same_node cs (plan_children p) →
  ∃ bytes, try_encode b p buf = (buf ++ bytes, Ok tt) ∧
           try_decode hub b bytes cs = Ok (received hub p cs) ∧
           try_encode b (received hub p cs) buf = (buf ++ bytes, Ok tt).
Proof.
  intros [Hp _]%coherent_inv Hd Ha Hcs. exists (header b ++ payload).
  destruct (postcard_law _ _ Ha) as (Hne & _ & Hfrom). split; [by eapply try_encode_described|]. split.
  - rewrite try_decode_header, decide_True, Hfrom by done. cbn [map_err mbind res_bind]. by apply build_described.
  - eapply try_encode_described; [|done]. by apply received_described.
Qed.

(** C40: what the codec refuses and what it leaves to the wrapped codec.  A
    payload of another format version is an error whatever its bytes would
    decode to, and so is every payload of a build whose fingerprint is not this
    build's; the fingerprints differ for two builds of one crate version with
    other features, and for two releases with the same features whose versions
    differ in one character (the fingerprint is 32 bits wide, so some pair of
    versions must share one).  A buffer without the magic or without a payload,
    and every node that is not a [Gpu*Exec], goes to the wrapped codec as it
    is. *)
Theorem codec_refusals b buf cs :
  (∀ version rest, version ≠ VERSION → (HEADER < length (MAGIC ++ version :: rest))%nat →
     try_decode hub b (MAGIC ++ version :: rest) cs = Err (DFInternal "unsupported payload version")) ∧
  (∀ b' payload, fingerprint b' ≠ fingerprint b → payload ≠ [] →
     try_decode hub b (header b' ++ payload) cs
     = Err (DFInternal "plan was encoded by a build with another fingerprint")) ∧
  (∀ b', crate_version b' = crate_version b → FEATURE_MASK b' ≠ FEATURE_MASK b → fingerprint b' ≠ fingerprint b) ∧
  (∀ b' before c c' after, FEATURE_MASK b' = FEATURE_MASK b → c' ≠ c →
     crate_version b = before +:+ String c after → crate_version b' = before +:+ String c' after →
     fingerprint b' ≠ fingerprint b) ∧
  ((length buf ≤ HEADER)%nat ∨ take (length MAGIC) buf ≠ MAGIC →
     try_decode hub b buf cs = inner_decode buf cs) ∧
  (∀ p, is_gpu_node p = false → try_encode b p buf = inner_encode p buf).
Proof.
  split_and!.
  - intros version rest Hv Hlen. unfold try_decode. rewrite (proj2 (Nat.ltb_lt _ _) Hlen).
    change (take (length MAGIC) (MAGIC ++ version :: rest)) with MAGIC.
    rewrite bool_decide_eq_true_2 by done. cbn [andb].
    change (index (MAGIC ++ version :: rest) (length MAGIC)) with (@Ok DataFusionError _ version).
    cbn [mbind res_bind]. by rewrite (proj2 (Z.eqb_neq version VERSION)).
  - intros b' payload Hf Hne. by rewrite try_decode_header, decide_False.
  - intros b' Hv Hm Heq. by apply Hm, fingerprint_features.
  - intros b' before c c' after Hm Hc Hv Hv' Heq. by apply Hc, (fingerprint_version b' b before c' c after).
  - intros Hbuf. unfold try_decode. destruct (Nat.ltb_spec HEADER (length buf)) as [Hlt|]; [|done].
    destruct Hbuf as [|Hm]; [lia|]. by rewrite bool_decide_eq_false_2.
  - intros p Hp. by destruct p.
Qed.
End Wire.

(** ** Examples *)

#[global] Instance GpuNode_EqDecision : EqDecision GpuNode.
Proof. solve_decision. Defined.

Module CodecExample.
Import PlacementExample.
#[local] Existing Instances simple_plan simple_plan_laws.

(** The filter of [amount > 15] over the orders, as the rule lowers it. *)
Definition filter_plan : ExecutionPlan :=
  FilterExec (scan JoinExample.orders) (big_amount 1) (Some [0]%nat)
    (props (Schema_new [Field_new "cust" Int64 true])).
Definition sent : ExecutionPlan :=
  default filter_plan (res_ok (optimize on_gpu filter_plan TelemetryHub_new).2).
Definition sent_node : GpuNode := NodeFilter Cuda (Compare 1 CGt (LInt64 15)) [0]%nat.

(** A [postcard] that knows this one node, and a wrapped codec that knows none. *)
#[local] Instance one_node : Postcard := {|
  to_allocvec n := if decide (n = sent_node) then Ok [7] else Err "not this node";
  from_bytes bytes := match bytes with [7] => Ok sent_node | _ => Err "unexpected end" end |}.
#[local] Instance one_node_law : PostcardLaws.
Proof.
  intros n payload. cbn. destruct (decide (n = sent_node)) as [->|]; [|done]. intros [= <-].
  split; [done|]. split; [|done]. constructor; [unfold is_byte; lia|constructor].
Qed.
#[local] Instance no_inner : InnerCodec := {|
  inner_decode _ _ := Err (DFInternal "unknown node");
  inner_encode _ buf := (buf, Err (DFInternal "unknown node")) |}.

Definition release : Build := mkBuild "0.2.0" false true false.
Definition with_predict : Build := mkBuild "0.2.0" true true false.

Lemma sent_coherent : coherent sent.
Proof.
  assert (coherent filter_plan) as Hp.
  { constructor; [|repeat constructor]. cbn [node_coherent filter_plan].
    split; [vm_compute; lia|]. split; [discriminate|]. repeat constructor. }
  destruct (transform_up_returns (rewrite_node on_gpu) (rewrite_node_returns on_gpu) filter_plan Hp
    TelemetryHub_new) as (h' & o & Ho & Hr).
  unfold sent, optimize. cbn [hr_target on_gpu rule_with_telemetry HardwarePlacementRule_new is_gpu negb].
  unfold pm_bind. rewrite Ho. cbn. apply Hr.
Qed.

Lemma codec_roundtrip_witness :
  ∃ bytes, try_encode release sent [1; 2] = ([1; 2] ++ bytes, Ok tt) ∧
    try_decode 0 release bytes [scan JoinExample.orders]
    = Ok (received 0 sent [scan JoinExample.orders]) ∧
    try_encode release (received 0 sent [scan JoinExample.orders]) [1; 2] = ([1; 2] ++ bytes, Ok tt).
Proof.
  apply (codec_roundtrip 0 release sent [scan JoinExample.orders] sent_node [7] [1; 2]);
    [exact sent_coherent|vm_compute; reflexivity|reflexivity|].
  repeat constructor.
Defined.

(** The fingerprints of two builds of one release, and a plan sent between them. *)
Definition next_release : Build := mkBuild "0.3.0" false true false.

Lemma codec_refusals_witness :
  let refused := Err (DFInternal "plan was encoded by a build with another fingerprint") in
  try_decode 0 release (header with_predict ++ [7]) [scan JoinExample.orders] = refused ∧
  try_decode 0 release (header next_release ++ [7]) [scan JoinExample.orders] = refused.
Proof.
  destruct (codec_refusals 0 release [] [scan JoinExample.orders]) as (_ & Hrefused & Hfeatures & Hversion & _).
  split; (apply Hrefused; [|discriminate]).
  - apply Hfeatures; [reflexivity|vm_compute; discriminate].
  - apply (Hversion next_release "0." "2"%char "3"%char ".0"); [reflexivity|discriminate|reflexivity..].
Defined.

(** The metadata of a planned aggregate field does not travel. *)
Example aggregate_metadata_lost (target : BackendKind) :
  let spec := mkSpec 0 [(Sum, 1%nat)] in
  let planned := Schema_new [Field_new "cust" Int64 true; mkField "total" Int64 true [("unit", "eur")]] in
  let node := e0 ← GpuAggregateExec_try_new (scan JoinExample.orders) spec target;
              ga_with_output_schema e0 planned in
  ∃ e n e', node = Ok e ∧ describe (GpuAggregate e) = Some n ∧
    build 0 n [scan JoinExample.orders] = Ok (GpuAggregate e') ∧
    ga_schema e = planned ∧
    ga_schema e' = Schema_new [Field_new "cust" Int64 true; Field_new "total" Int64 true].
Proof. eexists _, _, _. split; [vm_compute; reflexivity|]. repeat split; vm_compute; reflexivity. Qed.
End CodecExample.
