(* ===== verification/Uring.v ===== *)
(** * oxidelake-storage: the io_uring store

    Models [src/crates/oxidelake-storage/src/uring.rs]: the worker thread that
    owns the ring, its submit-and-reap loop, the read and write loops over
    short transfers and the job queue's worker; the object-store operations on
    top are in [UringStore].  The kernel and the ring are operations of [IoUring] over an abstract
    state that holds whatever they will decide; a loop that waits for the
    kernel takes the number of times it may look as fuel, and [None] is a
    caller that still waits.  The properties are in [UringCorrect]. *)

From S2P Require Import Prelude Floats Arrow Core.

(** [std::io::Error]: one raised with a kind, an [errno], or a message. *)
Inductive IoErrorKind := UnexpectedEof | WriteZero.
Inductive IoError :=
  | IoKind (kind : IoErrorKind) (msg : string)
  | IoOs (errno : Z)
  | IoMsg (msg : string).
Abbreviation io_result := (res IoError).

Definition EINTR : Z := 4.
Definition ENOENT : Z := 2.

Definition FileId := positive.

(** What an SQE asks for: the descriptor, the file offset, and the length of the
    target buffer or the bytes to write. *)
Inductive Opcode :=
  | OpRead (file : FileId) (offset chunk : Z)
  | OpWrite (file : FileId) (offset : Z) (data : list Z).

Record Sqe := mkSqe { sqe_op : Opcode; sqe_user_data : Z }.

(** A completion, with the bytes the kernel stored through the SQE's pointer. *)
Record Cqe := mkCqe { cqe_user_data : Z; cqe_result : Z; cqe_stored : list Z }.

(** The ring and the file system below it. *)
Class IoUring (K : Type) := {
  (** [ring.submission().push]: [None] when the queue is full *)
  ring_push : K → Sqe → option K;
  (** [ring.submit_and_wait(1)]: the [errno] of a failure *)
  submit_and_wait : K → K * option Z;
  (** [ring.completion().next()] *)
  next_completion : K → option (Cqe * K);
  (** [File::open] *)
  file_open : K → string → io_result FileId;
  (** [create_dir_all] of the parent, then [OpenOptions] create, write, truncate *)
  file_create : K → string → K * io_result FileId;
}.

Definition REAP_ATTEMPTS : Z := 1024.

(** The worker's state: the submission counter and the ring it owns. *)
Record Worker (K : Type) := mkWorker { w_seq : Z; w_ring : K }.
Arguments mkWorker {K}. Arguments w_seq {K}. Arguments w_ring {K}.

Section Uring.
Context {K : Type} `{IoUring K}.

(** A computation of the worker: [None] when the fuel ran out while it waited. *)
Definition Io (A : Type) : Type := nat → Worker K → Worker K * option (io_result A).
Definition io_ret {A} (r : io_result A) : Io A := λ _ w, (w, Some r).
Definition io_bind {A B} (m : Io A) (f : A → Io B) : Io B := λ fuel w,
  match m fuel w with
  | (w, Some (Ok a)) => f a fuel w
  | (w, Some (Err e)) => (w, Some (Err e))
  | (w, Some Panic) => (w, Some Panic)
  | (w, None) => (w, None)
  end.
Notation "'io!' x ':=' m 'in' k" := (io_bind m (λ x, k))
  (at level 200, x pattern, m at level 100, k at level 200, only parsing).

(** The reaping loop of [submit_one]. The completion of this SQE is its result
    and the bytes stored; [failure] is the first error that was not a signal. *)
Fixpoint reap (fuel : nat) (tag : Z) (failure : option Z) (attempts : Z) (k : K) :
    K * option (io_result (option Z * Cqe)) :=
  match fuel with
  | O => (k, None)
  | S fuel =>
      let '(k, err) := submit_and_wait k in
      if bool_decide (err = Some EINTR) then reap fuel tag failure attempts k
      else
        let failure := match failure with Some e => Some e | None => err end in
        match next_completion k with
        | Some (cqe, k) =>
            if cqe_user_data cqe =? tag then (k, Some (Ok (failure, cqe)))
            else (k, Some (Err (IoMsg "the ring is out of step with the worker")))
        | None =>
            let attempts := wrap32 (attempts + 1) in
            if bool_decide (failure = None) || (attempts <? REAP_ATTEMPTS)
            then reap fuel tag failure attempts k
            else (k, Some Panic)
        end
  end.

Definition submit_one (entry : Opcode) : Io Cqe := λ fuel w,
  let tag := wadd64 (w_seq w) 1 in
  match ring_push (w_ring w) (mkSqe entry tag) with
  | None => (mkWorker tag (w_ring w), Some (Err (IoMsg "io_uring submission queue is full")))
  | Some k =>
      let '(k, r) := reap fuel tag None 0 k in
      (mkWorker tag k,
       match r with
       | None => None
       | Some (Ok (Some e, _)) => Some (Err (IoOs e))
       | Some (Ok (None, cqe)) =>
           if cqe_result cqe <? 0 then Some (Err (IoOs (- cqe_result cqe))) else Some (Ok cqe)
       | Some (Err e) => Some (Err e)
       | Some Panic => Some Panic
       end)
  end.

(** [&mut buf[at..]] after the kernel stored [bytes] at its start. *)
Definition splice (buf : list Z) (at_ : nat) (bytes : list Z) : list Z :=
  take at_ buf ++ bytes ++ drop (at_ + length bytes) buf.

(** [u32::try_from(n).unwrap_or(u32::MAX)]. *)
Definition chunk_len (n : Z) : Z := if n <=? u32_max then n else u32_max.

(** [while done < len] of [read_range]; [rounds] bounds the loop, which a
    transfer of at least one byte per round leaves in time. *)
Fixpoint read_loop (rounds : nat) (file : FileId) (start : Z) (buf : list Z) (done : nat) : Io (list Z) :=
  match rounds with
  | O => λ _ w, (w, None)
  | S rounds =>
      if (length buf <=? done)%nat then io_ret (Ok buf)
      else
        let chunk := chunk_len (Z.of_nat (length buf - done)) in
        io! cqe := submit_one (OpRead file (wadd64 start (Z.of_nat done)) chunk) in
        let n := cqe_result cqe in
        if n =? 0 then io_ret (Err (IoKind UnexpectedEof "short read"))
        else read_loop rounds file start (splice buf done (cqe_stored cqe)) (done + Z.to_nat n)
  end.

Definition read_range (path : string) (start stop : Z) : Io (list Z) := λ fuel w,
  match file_open (w_ring w) path with
  | Err e => (w, Some (Err e))
  | Panic => (w, Some Panic)
  | Ok file =>
      let len := Z.to_nat (Z.max 0 (stop - start)) in
      read_loop (S len) file start (replicate len 0) 0 fuel w
  end.

Fixpoint write_loop (rounds : nat) (file : FileId) (data : list Z) (done : nat) : Io unit :=
  match rounds with
  | O => λ _ w, (w, None)
  | S rounds =>
      if (length data <=? done)%nat then io_ret (Ok tt)
      else
        let chunk := chunk_len (Z.of_nat (length data - done)) in
        io! cqe := submit_one (OpWrite file (Z.of_nat done) (take (Z.to_nat chunk) (drop done data))) in
        let n := cqe_result cqe in
        if n =? 0 then io_ret (Err (IoKind WriteZero "io_uring wrote zero bytes"))
        else write_loop rounds file data (done + Z.to_nat n)
  end.

Definition write_all (path : string) (data : list Z) : Io unit := λ fuel w,
  match file_create (w_ring w) path with
  | (k, Err e) => (mkWorker (w_seq w) k, Some (Err e))
  | (k, Panic) => (mkWorker (w_seq w) k, Some Panic)
  | (k, Ok file) => write_loop (S (length data)) file data 0 fuel (mkWorker (w_seq w) k)
  end.

(** ** The worker thread *)

Inductive Job :=
  | JobRead (path : string) (start stop : Z)
  | JobWrite (path : string) (data : list Z).

(** What a job's [reply] channel receives; a dropped one receives nothing. *)
Inductive Reply :=
  | ReplyRead (r : io_result (list Z))
  | ReplyWrite (r : io_result unit)
  | ReplyDropped.

(** The jobs in the order they were queued, one at a time. A panic ends the
    thread, and with it the channels of the jobs behind. *)
Fixpoint worker (jobs : list Job) (fuel : nat) (w : Worker K) : Worker K * option (list Reply) :=
  match jobs with
  | [] => (w, Some [])
  | job :: jobs =>
      let '(w, reply) :=
        match job with
        | JobRead path start stop =>
            let '(w, r) := read_range path start stop fuel w in (w, ReplyRead <$> r)
        | JobWrite path data =>
            let '(w, r) := write_all path data fuel w in (w, ReplyWrite <$> r)
        end in
      match reply with
      | None => (w, None)
      | Some (ReplyRead Panic) | Some (ReplyWrite Panic) =>
          (w, Some (ReplyDropped :: ((λ _, ReplyDropped) <$> jobs)))
      | Some reply =>
          let '(w, rest) := worker jobs fuel w in (w, cons reply <$> rest)
      end
  end.
End Uring.
