(* ===== verification/UringCorrect.v ===== *)
(** * The io_uring store reads and writes what it says

    Properties of [Uring] over any kernel that keeps the laws of [UringLaws]:
    no buffer is given up while the kernel may still use it, a read returns
    exactly the bytes of its range however the kernel splits it, and the worker
    thread's replies are those of a plain map from paths to bytes. *)

From S2P Require Import Prelude Floats Arrow Core Uring.

(** ** What the worker relies on of the kernel *)

(** What is outstanding, what has completed and is not reaped, and the files. *)
Class UringView (K : Type) := {
  flight : K → list Sqe;
  completions : K → list Cqe;
  file_bytes : K → gmap FileId (list Z);
  path_file : K → string → option FileId;
}.

(** A write of [data] at [at_] within the file or at its end. *)
Definition write_at (content : list Z) (at_ : nat) (data : list Z) : list Z :=
  take at_ content ++ data ++ drop (at_ + length data) content.

(** A completion the kernel may give an SQE: an error, or a transfer of at most
    what was asked for; a read of no bytes is one at the end of the file. *)
Definition cqe_for (files : gmap FileId (list Z)) (e : Sqe) (c : Cqe) : Prop :=
  cqe_user_data c = sqe_user_data e ∧
  (cqe_result c < 0 ∨
   match sqe_op e with
   | OpRead f offset chunk =>
       ∃ content, files !! f = Some content ∧ 0 ≤ cqe_result c ≤ chunk ∧
         cqe_stored c = take (Z.to_nat (cqe_result c)) (drop (Z.to_nat offset) content) ∧
         Z.of_nat (length (cqe_stored c)) = cqe_result c ∧
         (cqe_result c = 0 → chunk = 0 ∨ Z.of_nat (length content) ≤ offset)
   | OpWrite f offset data =>
       is_Some (files !! f) ∧ 0 ≤ cqe_result c ≤ Z.of_nat (length data)
   end).

(** The files once an SQE has completed. *)
Definition after (files : gmap FileId (list Z)) (e : Sqe) (c : Cqe) : gmap FileId (list Z) :=
  match sqe_op e with
  | OpRead _ _ _ => files
  | OpWrite f offset data =>
      if cqe_result c <? 0 then files
      else alter (λ content, write_at content (Z.to_nat offset) (take (Z.to_nat (cqe_result c)) data)) f files
  end.

Inductive settled : gmap FileId (list Z) → list (Sqe * Cqe) → gmap FileId (list Z) → Prop :=
  | Settled_nil files : settled files [] files
  | Settled_cons files e c rest files' :
      cqe_for files e c → settled (after files e c) rest files' → settled files ((e, c) :: rest) files'.

Class UringLaws (K : Type) `{IoUring K, UringView K} : Prop := {
  push_law k e k' :
    ring_push k e = Some k' →
    flight k' = flight k ++ [e] ∧ completions k' = completions k ∧
    file_bytes k' = file_bytes k ∧ ∀ p, path_file k' p = path_file k p;
  (** every completion is that of one outstanding SQE, which then is no longer
      outstanding, whether or not the call reports an error *)
  enter_law k k' err :
    submit_and_wait k = (k', err) →
    ∃ done, flight k ≡ₚ done.*1 ++ flight k' ∧ completions k' = completions k ++ done.*2 ∧
      settled (file_bytes k) done (file_bytes k') ∧ ∀ p, path_file k' p = path_file k p;
  next_law k :
    match next_completion k with
    | None => completions k = []
    | Some (c, k') =>
        completions k = c :: completions k' ∧ flight k' = flight k ∧ file_bytes k' = file_bytes k ∧
        ∀ p, path_file k' p = path_file k p
    end;
  open_law k p f :
    file_open k p = Ok f → path_file k p = Some f ∧ is_Some (file_bytes k !! f);
  create_law k p k' r :
    file_create k p = (k', r) →
    flight k' = flight k ∧ completions k' = completions k ∧
    (∀ q, q ≠ p → path_file k' q = path_file k q) ∧
    match r with
    | Ok f => file_bytes k' = <[f := []]> (file_bytes k) ∧ path_file k' p = Some f
    | _ => ∀ q, q ≠ p → ∀ f, path_file k q = Some f → file_bytes k' !! f = file_bytes k !! f
    end;
  (** no two paths are one file *)
  path_file_inj k p q f : path_file k p = Some f → path_file k q = Some f → p = q;
}.

Section Uring.
Context {K : Type} `{!IoUring K, !UringView K, !UringLaws K}.

(** Nothing outstanding: no pointer of the caller is known to the kernel. *)
Definition quiescent (k : K) : Prop := flight k = [] ∧ completions k = [].

Definition same_paths (k k' : K) : Prop := ∀ p, path_file k' p = path_file k p.

(** One SQE submitted over [files]: outstanding, or completed and not reaped. *)
Definition one_submitted (files : gmap FileId (list Z)) (e : Sqe) (k : K) : Prop :=
  (flight k = [e] ∧ completions k = [] ∧ file_bytes k = files) ∨
  (flight k = [] ∧ ∃ c, completions k = [c] ∧ cqe_for files e c ∧ file_bytes k = after files e c).

Lemma one_submitted_enter files e k k' err :
  one_submitted files e k → submit_and_wait k = (k', err) →
  one_submitted files e k' ∧ same_paths k k'.
Proof.
  intros Hone Hk. destruct (enter_law _ _ _ Hk) as (done & Hfl & Hco & Hset & Hp). split; [|exact Hp].
  destruct Hone as [(Hf & Hc & Hfiles)|(Hf & c & Hc & Hfor & Hfiles)]; rewrite Hf in Hfl.
  - apply Permutation_singleton_l in Hfl. destruct done as [|[e' c] [|]]; cbn in Hfl.
    + left. inversion Hset; subst. rewrite Hc in Hco. done.
    + destruct (flight k') eqn:Hf'; [|done]. injection Hfl as ->. right. split; [done|].
      exists c. rewrite Hc in Hco. inversion Hset as [|? ? ? ? ? Hfor Hrest]; subst.
      inversion Hrest; subst. done.
    + done.
  - apply Permutation_nil_l in Hfl. symmetry in Hfl. apply app_nil in Hfl as [Hd Hf']. apply fmap_nil_inv in Hd as ->.
    right. split; [done|]. exists c. rewrite Hc in Hco. inversion Hset; subst. done.
Qed.

(** However the loop ends, the completion it returns is this SQE's, and then
    nothing is outstanding; only the panic leaves it. *)
Lemma reap_spec fuel files e failure attempts k k' r :
  one_submitted files e k → reap fuel (sqe_user_data e) failure attempts k = (k', Some r) →
  same_paths k k' ∧
  match r with
  | Ok (_, c) => quiescent k' ∧ cqe_for files e c ∧ file_bytes k' = after files e c
  | Err _ => False
  | Panic => one_submitted files e k'
  end.
Proof.
  revert failure attempts k. induction fuel as [|fuel IH]; intros failure attempts k Hone Hr; [done|].
  cbn in Hr. destruct (submit_and_wait k) as [k1 err] eqn:Hk.
  destruct (one_submitted_enter _ _ _ _ _ Hone Hk) as [Hone1 Hp1].
  assert (∀ failure attempts, reap fuel (sqe_user_data e) failure attempts k1 = (k', Some r) →
    same_paths k k' ∧ match r with
    | Ok (_, c) => quiescent k' ∧ cqe_for files e c ∧ file_bytes k' = after files e c
    | Err _ => False | Panic => one_submitted files e k' end) as IH'.
  { intros f a Hrec. destruct (IH f a k1 Hone1 Hrec) as [Hp Hres]. split; [|done].
    intros p. by rewrite Hp. }
  case_bool_decide; [by eapply IH'|].
  pose proof (next_law k1) as Hnext. destruct (next_completion k1) as [[c k2]|].
  - destruct Hnext as (Hco & Hfl & Hfiles & Hp2).
    destruct Hone1 as [(_ & Hc & _)|(Hf & c' & Hc & Hfor & Hfs)]; rewrite Hc in Hco; [done|].
    injection Hco as <- Hco. rewrite (proj1 Hfor), Z.eqb_refl in Hr. injection Hr as <- <-.
    split; [intros p; by rewrite Hp2, Hp1|]. split; [split; [by rewrite Hfl|done]|].
    split; [done|]. by rewrite Hfiles.
  - destruct (_ || _) in Hr; [by eapply IH'|]. injection Hr as <- <-. split; [exact Hp1|done].
Qed.

(** What [submit_one] leaves behind. *)
Definition submitted (w : Worker K) (op : Opcode) (w' : Worker K) (r : io_result Cqe) : Prop :=
  let k := w_ring w in
  let k' := w_ring w' in
  let e := mkSqe op (wadd64 (w_seq w) 1) in
  w_seq w' = wadd64 (w_seq w) 1 ∧ same_paths k k' ∧
  match r with
  | Ok c => quiescent k' ∧ 0 ≤ cqe_result c ∧ cqe_for (file_bytes k) e c ∧
            file_bytes k' = after (file_bytes k) e c
  | Err _ => quiescent k' ∧
             (file_bytes k' = file_bytes k ∨
              ∃ c, cqe_for (file_bytes k) e c ∧ file_bytes k' = after (file_bytes k) e c)
  | Panic => one_submitted (file_bytes k) e k'
  end.

Lemma submit_one_submitted op fuel w w' r :
  quiescent (w_ring w) → submit_one op fuel w = (w', Some r) → submitted w op w' r.
Proof.
  intros [Hf Hc] Hs. unfold submit_one in Hs. set (e := mkSqe op (wadd64 (w_seq w) 1)) in Hs.
  destruct (ring_push (w_ring w) e) as [k|] eqn:Hpush.
  2: { injection Hs as <- <-. split; [done|]. split; [done|]. split; [done|by left]. }
  destruct (push_law _ _ _ Hpush) as (Hfl & Hco & Hfiles & Hp). rewrite Hf in Hfl. rewrite Hc in Hco.
  assert (one_submitted (file_bytes (w_ring w)) e k) as Hone by (by left).
  destruct (reap fuel (wadd64 (w_seq w) 1) None 0 k) as [k' [x|]] eqn:Hr; [|done].
  destruct (reap_spec _ _ _ _ _ _ _ _ Hone Hr) as [Hp' Hx].
  assert (same_paths (w_ring w) k') as Hpaths by (intros q; by rewrite Hp', Hp).
  destruct x as [[[err|] c]|err|]; [| |done|].
  - injection Hs as <- <-. split; [done|]. split; [done|]. destruct Hx as (Hq & Hfor & Hfs).
    split; [done|]. right. by exists c.
  - destruct Hx as (Hq & Hfor & Hfs). destruct (Z.ltb_spec (cqe_result c) 0); injection Hs as <- <-;
      (split; [done|]; split; [done|]; split; [done|]); [right; by exists c|done].
  - injection Hs as <- <-. split; [done|]. split; [done|exact Hx].
Qed.

(** ** The loops *)

Lemma length_splice buf d bytes :
  (d + length bytes ≤ length buf)%nat → length (splice buf d bytes) = length buf.
Proof. intros Hd. unfold splice. rewrite !length_app, length_take, length_drop. lia. Qed.

Lemma take_splice buf d bytes :
  (d + length bytes ≤ length buf)%nat →
  take (d + length bytes) (splice buf d bytes) = take d buf ++ bytes.
Proof.
  intros Hd. unfold splice. rewrite app_assoc. apply take_app_length'.
  rewrite length_app, length_take. lia.
Qed.

(** The first [d] bytes of the buffer are those of the range. *)
Definition read_so_far (content : list Z) (start : Z) (buf : list Z) (d : nat) : Prop :=
  (d ≤ length buf)%nat ∧ (d = 0%nat ∨ start + Z.of_nat d ≤ Z.of_nat (length content)) ∧
  take d buf = take d (drop (Z.to_nat start) content).

Lemma chunk_len_spec n : 0 ≤ n → 0 ≤ chunk_len n ≤ n ∧ (0 < n → 0 < chunk_len n).
Proof. unfold chunk_len, u32_max, U32. destruct (Z.leb_spec n (2 ^ 32 - 1)); lia. Qed.

(** One more transfer. *)
Lemma read_so_far_step content start buf d c files f tag :
  files !! f = Some content → 0 ≤ start → start + Z.of_nat (length buf) < U64 → (d < length buf)%nat →
  read_so_far content start buf d → 0 ≤ cqe_result c →
  cqe_for files (mkSqe (OpRead f (wadd64 start (Z.of_nat d)) (chunk_len (Z.of_nat (length buf - d)))) tag) c →
  (cqe_result c = 0 → Z.of_nat (length content) ≤ start + Z.of_nat d) ∧
  (0 < cqe_result c →
   read_so_far content start (splice buf d (cqe_stored c)) (d + Z.to_nat (cqe_result c)) ∧
   length (splice buf d (cqe_stored c)) = length buf).
Proof.
  intros Hf Hs0 Hsl Hd (Hdl & Hdc & Hpre) Hr0 [_ [?|(content' & Hf' & Hr & Hst & Hlen & Heof)]]; [lia|].
  cbn [sqe_op] in *. rewrite Hf in Hf'. injection Hf' as <-.
  rewrite wadd64_small in Hst, Heof by (unfold is_u64; lia).
  destruct (chunk_len_spec (Z.of_nat (length buf - d))) as [Hcl Hcpos]; [lia|].
  split; [intros H0; destruct (Heof H0); lia|]. intros Hpos.
  assert (Z.to_nat (cqe_result c) = length (cqe_stored c)) as Hn by lia. rewrite Hn.
  split; [|apply length_splice; lia]. split; [rewrite length_splice; lia|].
  assert (start + Z.of_nat d + cqe_result c ≤ Z.of_nat (length content)) as Hin.
  { rewrite Hst, length_take, length_drop in Hlen. lia. }
  split; [right; lia|].
  rewrite take_splice, Hpre by lia. rewrite Hst at 1. rewrite Hn.
  replace (Z.to_nat (start + Z.of_nat d)) with (Z.to_nat start + d)%nat by lia.
  by rewrite <- drop_drop, take_take_drop.
Qed.

Lemma io_bind_Some {A B} (m : Io A) (f : A → Io B) fuel (w w' : Worker K) r :
  io_bind m f fuel w = (w', Some r) →
  ∃ w1 x, m fuel w = (w1, Some x) ∧
    match x with
    | Ok a => f a fuel w1 = (w', Some r)
    | Err e => w' = w1 ∧ r = Err e
    | Panic => w' = w1 ∧ r = Panic
    end.
Proof.
  unfold io_bind. destruct (m fuel w) as [w1 [x|]]; [|by destruct r]. intros Hr. exists w1, x.
  split; [done|]. destruct x; [done|by injection Hr as <- <-..].
Qed.

Lemma read_loop_spec rounds f start content buf d fuel w w' r :
  quiescent (w_ring w) → file_bytes (w_ring w) !! f = Some content →
  0 ≤ start → start + Z.of_nat (length buf) < U64 → read_so_far content start buf d →
  read_loop rounds f start buf d fuel w = (w', Some r) →
  same_paths (w_ring w) (w_ring w') ∧ file_bytes (w_ring w') = file_bytes (w_ring w) ∧
  match r with
  | Ok bytes => quiescent (w_ring w') ∧ length bytes = length buf ∧
                bytes = take (length buf) (drop (Z.to_nat start) content)
  | Err _ => quiescent (w_ring w')
  | Panic => True
  end.
Proof.
  revert buf d w. induction rounds as [|rounds IH]; intros buf d w Hq Hf Hs Hl Hso Hr; [done|].
  cbn [read_loop] in Hr. destruct (Nat.leb_spec (length buf) d) as [Hge|Hlt].
  { injection Hr as <- <-. split; [done|]. split; [done|]. split; [done|]. split; [done|].
    destruct Hso as (Hd & _ & Hpre). replace d with (length buf) in Hpre by lia.
    by rewrite firstn_all in Hpre. }
  apply io_bind_Some in Hr as (w1 & x & Hx & Hr).
  destruct (submit_one_submitted _ _ _ _ _ Hq Hx) as (_ & Hp & Hsub).
  destruct x as [c|e|].
  - destruct Hsub as (Hq1 & Hr0 & Hfor & Hfiles). cbn [after sqe_op] in Hfiles.
    destruct (read_so_far_step _ _ _ _ _ _ _ _ Hf Hs Hl Hlt Hso Hr0 Hfor) as [_ Hstep].
    destruct (Z.eqb_spec (cqe_result c) 0).
    + injection Hr as <- <-. done.
    + destruct Hstep as [Hso' Hlen']; [lia|]. apply IH in Hr; [|done|by rewrite Hfiles|done| |done].
      2: { by rewrite Hlen'. }
      destruct Hr as (Hp2 & Hf2 & Hres). rewrite Hlen' in Hres.
      split; [intros p; by rewrite Hp2, Hp|]. split; [by rewrite Hf2|done].
  - destruct Hr as [-> ->]. destruct Hsub as (Hq1 & [Hfs|(c & _ & Hfs)]); done.
  - destruct Hr as [-> ->]. split; [done|]. split; [|done].
    destruct Hsub as [(_ & _ & Hfs)|(_ & c & _ & _ & Hfs)]; done.
Qed.

Lemma read_range_spec path start stop fuel w w' r :
  quiescent (w_ring w) → 0 ≤ start → stop < U64 → start < U64 →
  read_range path start stop fuel w = (w', Some r) →
  same_paths (w_ring w) (w_ring w') ∧ file_bytes (w_ring w') = file_bytes (w_ring w) ∧
  match r with
  | Ok bytes =>
      quiescent (w_ring w') ∧
      ∃ f content, path_file (w_ring w) path = Some f ∧ file_bytes (w_ring w) !! f = Some content ∧
        Z.of_nat (length bytes) = Z.max 0 (stop - start) ∧
        bytes = take (length bytes) (drop (Z.to_nat start) content)
  | Err _ => quiescent (w_ring w')
  | Panic => True
  end.
Proof.
  intros Hq Hs Hstop Hstart Hr. unfold read_range in Hr.
  destruct (file_open (w_ring w) path) as [f|e|] eqn:Hopen; [|by injection Hr as <- <-..].
  destruct (open_law _ _ _ Hopen) as [Hpath [content Hf]].
  set (len := Z.to_nat (Z.max 0 (stop - start))) in *.
  apply (read_loop_spec _ _ _ content) in Hr; [|done|done|done|rewrite length_replicate; lia|].
  2: { split; [lia|]. split; [by left|done]. }
  rewrite length_replicate in Hr. destruct Hr as (Hp & Hfs & Hres). split; [done|]. split; [done|].
  destruct r as [bytes|e|]; [|done..]. destruct Hres as (Hq' & Hlen & Hbytes). split; [done|].
  exists f, content. split; [done|]. split; [done|]. rewrite Hlen. split; [lia|done].
Qed.

(** Appending the next bytes of [data] to its first [d] bytes. *)
Lemma write_at_next (data : list Z) d n chunk :
  (d ≤ length data)%nat → (n ≤ length (take chunk (drop d data)))%nat →
  write_at (take d data) d (take n (take chunk (drop d data))) = take (d + n) data.
Proof.
  intros Hd Hn. rewrite length_take, length_drop in Hn. unfold write_at.
  rewrite take_take, Nat.min_id, take_take, Nat.min_l by lia.
  rewrite (drop_ge (take d data)) by (rewrite length_take; lia). by rewrite app_nil_r, take_take_drop.
Qed.

(** The other files are left alone. *)
Definition only_file (f : FileId) (files files' : gmap FileId (list Z)) : Prop :=
  ∀ g, g ≠ f → files' !! g = files !! g.

Lemma after_write_only files f offset data tag c :
  only_file f files (after files (mkSqe (OpWrite f offset data) tag) c).
Proof.
  intros g Hg. unfold after. cbn. destruct (_ <? _); [done|]. by rewrite lookup_alter_ne.
Qed.

Lemma write_loop_spec rounds f data d fuel w w' r :
  quiescent (w_ring w) → file_bytes (w_ring w) !! f = Some (take d data) → (d ≤ length data)%nat →
  write_loop rounds f data d fuel w = (w', Some r) →
  same_paths (w_ring w) (w_ring w') ∧ only_file f (file_bytes (w_ring w)) (file_bytes (w_ring w')) ∧
  match r with
  | Ok _ => quiescent (w_ring w') ∧ file_bytes (w_ring w') !! f = Some data
  | Err _ => quiescent (w_ring w')
  | Panic => True
  end.
Proof.
  revert d w. induction rounds as [|rounds IH]; intros d w Hq Hf Hd Hr; [done|].
  cbn [write_loop] in Hr. destruct (Nat.leb_spec (length data) d) as [Hge|Hlt].
  { injection Hr as <- <-. split; [done|]. split; [done|]. split; [done|].
    by rewrite Hf, take_ge by lia. }
  apply io_bind_Some in Hr as (w1 & x & Hx & Hr).
  destruct (submit_one_submitted _ _ _ _ _ Hq Hx) as (_ & Hp & Hsub).
  destruct x as [c|e|].
  - destruct Hsub as (Hq1 & Hr0 & [_ Hfor] & Hfiles). destruct Hfor as [?|[_ Hn]]; [lia|].
    assert (only_file f (file_bytes (w_ring w)) (file_bytes (w_ring w1))) as Ho
      by (rewrite Hfiles; apply after_write_only).
    destruct (Z.eqb_spec (cqe_result c) 0); [by injection Hr as <- <-|].
    apply IH in Hr; [|done| |].
    + destruct Hr as (Hp2 & Ho2 & Hres). split; [intros p; by rewrite Hp2, Hp|].
      split; [intros g Hg; by rewrite Ho2, Ho|done].
    + rewrite Hfiles. unfold after. cbn [sqe_op]. destruct (Z.ltb_spec (cqe_result c) 0); [lia|].
      rewrite lookup_alter_eq, Hf. cbn. f_equal. rewrite Nat2Z.id. apply write_at_next; lia.
    + rewrite length_take, length_drop in Hn. lia.
  - destruct Hr as [-> ->]. destruct Hsub as (Hq1 & [Hfs|(c & _ & Hfs)]); (split; [done|]; split; [|done]);
      rewrite Hfs; [done|apply after_write_only].
  - destruct Hr as [-> ->]. split; [done|]. split; [|done].
    destruct Hsub as [(_ & _ & Hfs)|(_ & c & _ & _ & Hfs)]; rewrite Hfs; [done|apply after_write_only].
Qed.

(** ** The worker and a plain map *)

(** What is known of the files by path. *)
Definition known_in (k : K) (known : gmap string (list Z)) : Prop :=
  ∀ p c, known !! p = Some c → ∃ f, path_file k p = Some f ∧ file_bytes k !! f = Some c.

Lemma known_in_read k k' known :
  same_paths k k' → file_bytes k' = file_bytes k → known_in k known → known_in k' known.
Proof. intros Hp Hf Hk p c Hc. rewrite Hp, Hf. by apply Hk. Qed.

Lemma write_all_spec path data fuel w w' r known :
  quiescent (w_ring w) → known_in (w_ring w) known → write_all path data fuel w = (w', Some r) →
  match r with
  | Ok _ => quiescent (w_ring w') ∧ known_in (w_ring w') (<[path := data]> known)
  | Err _ => quiescent (w_ring w') ∧ known_in (w_ring w') (delete path known)
  | Panic => True
  end.
Proof.
  intros Hq Hk Hr. unfold write_all in Hr.
  destruct (file_create (w_ring w) path) as [k o] eqn:Hcr.
  destruct (create_law _ _ _ _ Hcr) as (Hfl & Hco & Hpaths & Ho).
  assert (quiescent k) as Hqk by (split; [rewrite Hfl|rewrite Hco]; apply Hq).
  destruct o as [f|e|]; [|injection Hr as <- <-; split; [done|]|by injection Hr as <- <-].
  2: { intros p c [Hne Hc]%lookup_delete_Some. destruct (Hk p c Hc) as (g & Hg & Hgc).
       exists g. cbn. rewrite Hpaths by done. split; [done|]. by rewrite (Ho p (not_eq_sym Hne) g Hg). }
  destruct Ho as [Hfiles Hpath].
  assert (∀ p, p ≠ path → ∀ c, known !! p = Some c →
    ∃ g, path_file k p = Some g ∧ g ≠ f ∧ file_bytes k !! g = Some c) as Hother.
  { intros p Hne c Hc. destruct (Hk p c Hc) as (g & Hg & Hgc). exists g. rewrite Hpaths by done.
    split; [done|]. assert (g ≠ f) as Hgf.
    { intros ->. apply Hne, (path_file_inj k p path f); [by rewrite Hpaths|done]. }
    split; [done|]. by rewrite Hfiles, lookup_insert_ne. }
  apply write_loop_spec in Hr; [|done|by cbn; rewrite Hfiles, lookup_insert_eq|lia].
  cbn [w_ring] in Hr. destruct Hr as (Hp & Honly & Hres).
  destruct r as [u|e|]; [| |done].
  - destruct Hres as [Hq' Hd]. split; [done|]. intros p c [[-> ->]|[Hne Hc]]%lookup_insert_Some.
    + exists f. by rewrite Hp.
    + destruct (Hother p (not_eq_sym Hne) c Hc) as (g & Hg & Hgf & Hgc). exists g. rewrite Hp.
      split; [done|]. by rewrite Honly.
  - split; [done|]. intros p c [Hne Hc]%lookup_delete_Some.
    destruct (Hother p (not_eq_sym Hne) c Hc) as (g & Hg & Hgf & Hgc). exists g. rewrite Hp.
    split; [done|]. by rewrite Honly.
Qed.

Definition range_bytes (content : list Z) (start stop : Z) : list Z :=
  take (Z.to_nat (stop - start)) (drop (Z.to_nat start) content).

(** The replies of a store that is a map from paths to bytes: a write that
    succeeded is what the next reads see, one that failed leaves its path
    unknown, a read that succeeded is the whole range. A dropped reply is the
    end of the thread. *)
Fixpoint plain_run (known : gmap string (list Z)) (jobs : list Job) (replies : list Reply) : Prop :=
  match jobs, replies with
  | [], [] => True
  | _ :: jobs, ReplyDropped :: replies => replies = ((λ _, ReplyDropped) <$> jobs)
  | JobWrite p data :: jobs, ReplyWrite (Ok _) :: replies => plain_run (<[p := data]> known) jobs replies
  | JobWrite p data :: jobs, ReplyWrite (Err _) :: replies => plain_run (delete p known) jobs replies
  | JobRead p start stop :: jobs, ReplyRead (Ok bytes) :: replies =>
      (∀ c, known !! p = Some c →
         bytes = range_bytes c start stop ∧ Z.of_nat (length bytes) = Z.max 0 (stop - start)) ∧
      plain_run known jobs replies
  | JobRead p start stop :: jobs, ReplyRead (Err _) :: replies => plain_run known jobs replies
  | _, _ => False
  end.

Definition job_ok (j : Job) : Prop :=
  match j with JobRead _ start stop => is_u64 start ∧ is_u64 stop | JobWrite _ _ => True end.

Lemma worker_plain jobs fuel w w' replies known :
  quiescent (w_ring w) → known_in (w_ring w) known → Forall job_ok jobs →
  worker jobs fuel w = (w', Some replies) → plain_run known jobs replies.
Proof.
  revert w known replies. induction jobs as [|job jobs IH]; intros w known replies Hq Hk Hj Hr.
  { by injection Hr as <- <-. }
  apply Forall_cons in Hj as [Hj Hjs]. cbn [worker] in Hr.
  assert (∀ w1 reply, (let '(w, rest) := worker jobs fuel w1 in (w, cons reply <$> rest)) = (w', Some replies) →
    ∃ rest, worker jobs fuel w1 = (w', Some rest) ∧ replies = reply :: rest) as Hrest.
  { intros w1 reply. destruct (worker jobs fuel w1) as [w2 [rest|]]; [|done]. intros [= <- <-]. eauto. }
  destruct job as [p start stop|p data].
  - destruct (read_range p start stop fuel w) as [w1 [x|]] eqn:Hx; cbn in Hr; [|done].
    destruct Hj as [[Hs0 Hs1] [He0 He1]].
    destruct (read_range_spec _ _ _ _ _ _ _ Hq Hs0 He1 Hs1 Hx) as (Hp & Hf & Hres).
    destruct x as [bytes|e|]; [| |by injection Hr as <- <-]; cbn in Hr;
      apply Hrest in Hr as (rest & Hw & ->); cbn [plain_run].
    + destruct Hres as (Hq1 & f & content & Hpf & Hfc & Hlen & Hbytes).
      split; [|by eapply IH; [..|exact Hw]; [|eapply known_in_read|]].
      intros c Hc. destruct (Hk p c Hc) as (g & Hg & Hgc). rewrite Hpf in Hg. injection Hg as <-.
      rewrite Hfc in Hgc. injection Hgc as <-. split; [|done]. rewrite Hbytes at 1. unfold range_bytes.
      f_equal. lia.
    + eapply IH; [done| |done|exact Hw]. by eapply known_in_read.
  - destruct (write_all p data fuel w) as [w1 [x|]] eqn:Hx; cbn in Hr; [|done].
    pose proof (write_all_spec _ _ _ _ _ _ _ Hq Hk Hx) as Hres.
    destruct x as [u|e|]; [| |by injection Hr as <- <-]; cbn in Hr;
      apply Hrest in Hr as (rest & Hw & ->); cbn [plain_run]; destruct Hres as [Hq1 Hk1];
      by eapply IH.
Qed.

(** ** A kernel that answers *)

(** A completion without an error; a write of some bytes writes at least one. *)
Definition progress (op : Opcode) (c : Cqe) : Prop :=
  0 ≤ cqe_result c ∧ match op with OpWrite _ _ (_ :: _) => 0 < cqe_result c | _ => True end.

(** Within [n] calls the SQE of [op] completes; until then a call may be
    interrupted, or return before the completion. *)
Fixpoint completes_within (op : Opcode) (n : nat) (k : K) : Prop :=
  match n with
  | O => False
  | S n =>
      let '(k', err) := submit_and_wait k in
      (err = None ∧ ∃ c, completions k' = [c] ∧ progress op c) ∨
      ((err = Some EINTR ∨ err = None ∧ completions k' = []) ∧ completes_within op n k')
  end.

Lemma reap_completes n fuel e attempts files k :
  (n ≤ fuel)%nat → one_submitted files e k → completes_within (sqe_op e) n k →
  ∃ k' c, reap fuel (sqe_user_data e) None attempts k = (k', Some (Ok (None, c))) ∧ progress (sqe_op e) c.
Proof.
  revert fuel attempts k. induction n as [|n IH]; intros fuel attempts k Hn Hone Hc; [done|].
  destruct fuel as [|fuel]; [lia|]. cbn in *. destruct (submit_and_wait k) as [k1 err] eqn:Hk.
  destruct (one_submitted_enter _ _ _ _ _ Hone Hk) as [Hone1 _].
  pose proof (next_law k1) as Hnext.
  destruct Hc as [(-> & c & Hc & Hr)|[[->|[-> Hnil]] Hc]]; cbn.
  - rewrite Hc in Hnext. destruct (next_completion k1) as [[c' k2]|]; [|done].
    destruct Hnext as (Hco & _). injection Hco as <- _.
    destruct Hone1 as [(_ & Hnil & _)|(_ & c' & Hc' & Hfor & _)]; [congruence|].
    rewrite Hc in Hc'. injection Hc' as <-. rewrite (proj1 Hfor), Z.eqb_refl. by exists k2, c.
  - apply IH; [lia|done|done].
  - rewrite Hnil in Hnext. destruct (next_completion k1) as [[c' k2]|].
    { destruct Hnext as (Hco & _). done. }
    rewrite bool_decide_eq_false_2 by done. apply IH; [lia|done|done].
Qed.

(** A request on an open file. *)
Definition op_ok (files : gmap FileId (list Z)) (op : Opcode) : Prop :=
  match op with
  | OpRead f offset chunk => is_Some (files !! f) ∧ 0 ≤ offset ∧ 0 ≤ chunk
  | OpWrite f offset data => is_Some (files !! f) ∧ 0 ≤ offset
  end.

(** A kernel that always answers within [n] calls: [P] holds of its states. *)
Class Prompt (P : K → Prop) (n : nat) : Prop := {
  prompt_push k e :
    P k → quiescent k → op_ok (file_bytes k) (sqe_op e) →
    ∃ k', ring_push k e = Some k' ∧ P k' ∧ completes_within (sqe_op e) n k';
  prompt_enter k : P k → P (submit_and_wait k).1;
  prompt_next k c k' : P k → next_completion k = Some (c, k') → P k';
}.

(** A file system that opens what is there and creates what is asked for. *)
Class Serves (P : K → Prop) : Prop := {
  serves_open k p f : P k → path_file k p = Some f → file_open k p = Ok f;
  serves_total k p : P k → file_open k p ≠ Panic;
  serves_create k p : P k → quiescent k → ∃ k' f, file_create k p = (k', Ok f) ∧ P k';
}.

Lemma reap_prompt `{!Prompt P n} fuel tag failure attempts k k' r :
  P k → reap fuel tag failure attempts k = (k', r) → P k'.
Proof.
  revert failure attempts k. induction fuel as [|fuel IH]; intros failure attempts k Hk Hr.
  { by injection Hr as <- _. }
  cbn in Hr. pose proof (prompt_enter k Hk) as Hk1. destruct (submit_and_wait k) as [k1 err]. cbn in Hk1.
  case_bool_decide; [by eapply IH|]. destruct (next_completion k1) as [[c k2]|] eqn:Hn.
  - destruct (_ =? _); injection Hr as <- _; by eapply prompt_next.
  - destruct (_ || _) in Hr; [by eapply IH|]. by injection Hr as <- _.
Qed.

Lemma submit_one_prompt `{!Prompt P n} op fuel w :
  P (w_ring w) → quiescent (w_ring w) → (n ≤ fuel)%nat → op_ok (file_bytes (w_ring w)) op →
  ∃ w' c, submit_one op fuel w = (w', Some (Ok c)) ∧ progress op c ∧ P (w_ring w').
Proof.
  intros HP [Hf Hc] Hn Hop. set (e := mkSqe op (wadd64 (w_seq w) 1)).
  destruct (prompt_push (w_ring w) e HP (conj Hf Hc) Hop) as (k & Hpush & HPk & Hcw).
  destruct (push_law _ _ _ Hpush) as (Hfl & Hco & _). rewrite Hf in Hfl. rewrite Hc in Hco.
  destruct (reap_completes n fuel e 0 (file_bytes k) k Hn) as (k' & c & Hr & Hr0); [by left|done|].
  exists (mkWorker (wadd64 (w_seq w) 1) k'), c. split; [|split; [exact Hr0|by eapply reap_prompt]]. destruct Hr0 as [Hr0 _].
  unfold submit_one. fold e. rewrite Hpush. change (wadd64 (w_seq w) 1) with (sqe_user_data e) at 1.
  rewrite Hr. by destruct (Z.ltb_spec (cqe_result c) 0); [lia|].
Qed.

Lemma read_loop_prompt `{!Prompt P n} rounds f start content buf d fuel w :
  P (w_ring w) → quiescent (w_ring w) → (n ≤ fuel)%nat →
  file_bytes (w_ring w) !! f = Some content → 0 ≤ start → start + Z.of_nat (length buf) < U64 →
  read_so_far content start buf d → (length buf - d < rounds)%nat →
  ∃ w' r, read_loop rounds f start buf d fuel w = (w', Some r) ∧ P (w_ring w') ∧
    match r with
    | Ok _ => True
    | Err e => e = IoKind UnexpectedEof "short read" ∧ (d < length buf)%nat ∧
               Z.of_nat (length content) < start + Z.of_nat (length buf)
    | Panic => False
    end.
Proof.
  revert buf d w. induction rounds as [|rounds IH]; intros buf d w HP Hq Hn Hf Hs Hl Hso Hrounds; [lia|].
  cbn [read_loop]. destruct (Nat.leb_spec (length buf) d) as [Hge|Hlt]; [by eexists w, _|].
  set (op := OpRead f _ _).
  destruct (submit_one_prompt op fuel w HP Hq Hn) as (w1 & c & Hx & _ & HP1).
  { split; [by exists content|]. split; [apply wrap64_range|]. apply chunk_len_spec. lia. }
  destruct (submit_one_submitted _ _ _ _ _ Hq Hx) as (_ & _ & Hq1 & Hr0 & Hfor & Hfiles).
  cbn [after sqe_op op] in Hfiles.
  destruct (read_so_far_step _ _ _ _ _ _ _ _ Hf Hs Hl Hlt Hso Hr0 Hfor) as [Heof Hstep].
  unfold io_bind. rewrite Hx. destruct (Z.eqb_spec (cqe_result c) 0) as [H0|H0].
  - eexists w1, _. do 4 (split; [done|]). specialize (Heof H0). lia.
  - destruct Hstep as [Hso' Hlen']; [lia|].
    destruct (IH (splice buf d (cqe_stored c)) (d + Z.to_nat (cqe_result c))%nat w1)
      as (w2 & r & Hr & HP2 & Hres); [done|done|done|by rewrite Hfiles|done|by rewrite Hlen'|done|lia|].
    exists w2, r. split; [done|]. split; [done|]. rewrite Hlen' in Hres. destruct r; [done| |done].
    destruct Hres as (-> & _ & Hshort). done.
Qed.

Lemma range_in_file (content bytes : list Z) (start len : Z) :
  0 ≤ start → 0 < len → Z.of_nat (length bytes) = len →
  bytes = take (length bytes) (drop (Z.to_nat start) content) →
  start + len ≤ Z.of_nat (length content).
Proof.
  intros Hs Hl Hlen Hb. apply (f_equal length) in Hb. rewrite length_take, length_drop in Hb. lia.
Qed.

Lemma read_range_prompt `{!Prompt P n} path f content start stop fuel w :
  P (w_ring w) → quiescent (w_ring w) → (n ≤ fuel)%nat →
  file_open (w_ring w) path = Ok f → file_bytes (w_ring w) !! f = Some content →
  is_u64 start → is_u64 stop →
  ∃ w', quiescent (w_ring w') ∧ P (w_ring w') ∧
    read_range path start stop fuel w
    = (w', Some (if (stop <=? start) || (stop <=? Z.of_nat (length content))
                 then Ok (range_bytes content start stop)
                 else Err (IoKind UnexpectedEof "short read"))).
Proof.
  intros HP Hq Hn Hopen Hf [Hs0 Hs1] [He0 He1].
  set (len := Z.to_nat (Z.max 0 (stop - start))).
  assert (read_so_far content start (replicate len 0) 0) as Hso by (split; [lia|]; split; [by left|done]).
  destruct (read_loop_prompt (S len) f start content (replicate len 0) 0 fuel w) as (w' & r & Hr & HP' & Hres);
    [done|done|done|done|done|rewrite length_replicate; lia|done|rewrite length_replicate; lia|].
  assert (read_range path start stop fuel w = (w', Some r)) as Hrr.
  { unfold read_range. by rewrite Hopen. }
  destruct (read_range_spec _ _ _ _ _ _ _ Hq Hs0 He1 Hs1 Hrr) as (_ & _ & Hspec).
  rewrite length_replicate in Hres. exists w'.
  destruct r as [bytes|e|]; [| |done].
  - destruct Hspec as (Hq' & f' & content' & Hpf & Hfc & Hlen & Hbytes). split; [done|]. split; [done|].
    destruct (open_law _ _ _ Hopen) as [Hpf' _]. rewrite Hpf in Hpf'. injection Hpf' as ->.
    rewrite Hf in Hfc. injection Hfc as <-. rewrite Hrr. do 3 f_equal.
    destruct (Z.leb_spec stop start); cbn [orb].
    { rewrite Hbytes. unfold range_bytes. f_equal. f_equal. lia. }
    pose proof (range_in_file content bytes start (stop - start) Hs0 ltac:(lia) ltac:(lia) Hbytes).
    destruct (Z.leb_spec stop (Z.of_nat (length content))); [|lia].
    rewrite Hbytes. unfold range_bytes. f_equal. f_equal. lia.
  - destruct Hres as (-> & Hlt & Hshort). split; [done|]. split; [done|]. rewrite Hrr.
    destruct (Z.leb_spec stop start); [lia|]. by destruct (Z.leb_spec stop (Z.of_nat (length content))); [lia|].
Qed.

Lemma progress_write f offset data c : progress (OpWrite f offset data) c → data ≠ [] → 0 < cqe_result c.
Proof. intros [_ Hp] Hne. by destruct data. Qed.

Lemma write_loop_prompt `{!Prompt P n} rounds f data d fuel w :
  P (w_ring w) → quiescent (w_ring w) → (n ≤ fuel)%nat → file_bytes (w_ring w) !! f = Some (take d data) →
  (d ≤ length data)%nat → (length data - d < rounds)%nat →
  ∃ w', write_loop rounds f data d fuel w = (w', Some (Ok tt)) ∧ P (w_ring w').
Proof.
  revert d w. induction rounds as [|rounds IH]; intros d w HP Hq Hn Hf Hd Hrounds; [lia|].
  cbn [write_loop]. destruct (Nat.leb_spec (length data) d) as [Hge|Hlt]; [by exists w|].
  destruct (chunk_len_spec (Z.of_nat (length data - d)) ltac:(lia)) as [Hcl Hcpos].
  set (chunk := take (Z.to_nat (chunk_len (Z.of_nat (length data - d)))) (drop d data)).
  assert (chunk ≠ []) as Hne.
  { intros Hnil%(f_equal length). unfold chunk in Hnil. rewrite length_take, length_drop in Hnil. cbn in Hnil. lia. }
  destruct (submit_one_prompt (OpWrite f (Z.of_nat d) chunk) fuel w HP Hq Hn) as (w1 & c & Hx & Hprog & HP1);
    [split; [by eexists|lia]|].
  pose proof (progress_write _ _ _ _ Hprog Hne) as Hpos.
  destruct (submit_one_submitted _ _ _ _ _ Hq Hx) as (_ & _ & Hq1 & _ & [_ Hfor] & Hfiles). destruct Hfor as [?|[_ Hr]]; [lia|].
  unfold io_bind. fold chunk. rewrite Hx. rewrite (proj2 (Z.eqb_neq _ _)) by lia.
  unfold chunk in Hr. rewrite length_take, length_drop in Hr.
  apply IH; [done|done|done| |lia|lia].
  rewrite Hfiles. unfold after. cbn [sqe_op]. rewrite (proj2 (Z.ltb_ge _ _)) by lia.
  rewrite lookup_alter_eq, Hf. cbn. f_equal. rewrite Nat2Z.id. apply write_at_next; [lia|].
  rewrite length_take, length_drop. lia.
Qed.

Lemma write_all_prompt `{!Prompt P n, !Serves P} path data fuel w :
  P (w_ring w) → quiescent (w_ring w) → (n ≤ fuel)%nat →
  ∃ w', write_all path data fuel w = (w', Some (Ok tt)) ∧ P (w_ring w').
Proof.
  intros HP Hq Hn. destruct (serves_create (w_ring w) path HP Hq) as (k & f & Hcr & HPk).
  destruct (create_law _ _ _ _ Hcr) as (Hfl & Hco & _ & Hfiles & _). unfold write_all. rewrite Hcr.
  apply write_loop_prompt; [done| |done| |lia|lia].
  - destruct Hq as [Hf Hc]. split; cbn; congruence.
  - cbn. by rewrite Hfiles, lookup_insert_eq.
Qed.

(** What a read of [content] is to answer. *)
Definition read_reply (content : list Z) (start stop : Z) : io_result (list Z) :=
  if (stop <=? start) || (stop <=? Z.of_nat (length content)) then Ok (range_bytes content start stop)
  else Err (IoKind UnexpectedEof "short read").

(** A read of any path comes back and changes nothing; of a known path, with
    what is there. *)
Lemma read_range_answers `{!Prompt P n, !Serves P} known path start stop fuel w :
  P (w_ring w) → quiescent (w_ring w) → known_in (w_ring w) known → (n ≤ fuel)%nat → is_u64 start → is_u64 stop →
  ∃ w' r, read_range path start stop fuel w = (w', Some r) ∧ r ≠ Panic ∧
    P (w_ring w') ∧ quiescent (w_ring w') ∧ known_in (w_ring w') known ∧
    ∀ c, known !! path = Some c → r = read_reply c start stop.
Proof.
  intros HP Hq Hk Hn Hs He. destruct (file_open (w_ring w) path) as [f|e|] eqn:Hopen.
  - destruct (open_law _ _ _ Hopen) as [Hpf [content Hf]].
    destruct (read_range_prompt path f content start stop fuel w HP Hq Hn Hopen Hf Hs He) as (w' & Hq' & HP' & Hr).
    fold (read_reply content start stop) in Hr. exists w', (read_reply content start stop).
    destruct (read_range_spec _ _ _ _ _ _ _ Hq (proj1 Hs) (proj2 He) (proj2 Hs) Hr) as (Hsp & Hfs & _).
    split_and!; [done|unfold read_reply; by destruct (_ || _)|done|done|by eapply known_in_read|].
    intros c Hc. destruct (Hk path c Hc) as (g & Hg & Hgc). congruence.
  - exists w, (Err e). unfold read_range. rewrite Hopen. split_and!; [done..|].
    intros c Hc. destruct (Hk path c Hc) as (g & Hg & _). pose proof (serves_open _ _ _ HP Hg). congruence.
  - by destruct (serves_total (w_ring w) path HP).
Qed.

(** The replies of a map from paths to bytes that serves everything: a write
    succeeds, a read of a known path is its range or the end of the file. *)
Fixpoint answered (known : gmap string (list Z)) (jobs : list Job) (replies : list Reply) : Prop :=
  match jobs, replies with
  | [], [] => True
  | JobWrite p data :: jobs, reply :: replies => reply = ReplyWrite (Ok tt) ∧ answered (<[p := data]> known) jobs replies
  | JobRead p start stop :: jobs, ReplyRead r :: replies =>
      r ≠ Panic ∧ (∀ c, known !! p = Some c → r = read_reply c start stop) ∧ answered known jobs replies
  | _, _ => False
  end.

Lemma worker_answers `{!Prompt P n, !Serves P} jobs fuel w known :
  P (w_ring w) → quiescent (w_ring w) → known_in (w_ring w) known → Forall job_ok jobs → (n ≤ fuel)%nat →
  ∃ w' replies, worker jobs fuel w = (w', Some replies) ∧ answered known jobs replies.
Proof.
  intros HP Hq Hk Hj Hn. revert w known HP Hq Hk.
  induction Hj as [|[p start stop|p data] jobs Hj _ IH]; intros w known HP Hq Hk; [by exists w, []|..]; cbn [worker].
  - destruct Hj as [Hs He].
    destruct (read_range_answers known p start stop fuel w HP Hq Hk Hn Hs He) as (w1 & r & Hr & Hne & HP1 & Hq1 & Hk1 & Hc).
    destruct (IH w1 known HP1 Hq1 Hk1) as (w2 & replies & Hw & Ha). exists w2, (ReplyRead r :: replies). rewrite Hr. cbn.
    split; [destruct r; [by rewrite Hw..|done]|]. by split_and!.
  - destruct (write_all_prompt p data fuel w HP Hq Hn) as (w1 & Hr & HP1).
    destruct (write_all_spec _ _ _ _ _ _ _ Hq Hk Hr) as [Hq1 Hk1].
    destruct (IH w1 (<[p := data]> known) HP1 Hq1 Hk1) as (w2 & replies & Hw & Ha).
    exists w2, (ReplyWrite (Ok tt) :: replies). rewrite Hr. cbn. by rewrite Hw.
Qed.

(** C17: a job never returns to its caller, whose buffer may then be freed,
    while the kernel may still write into it: from a ring with nothing
    outstanding, every submission that returns, with a result or with an error,
    after any signals, errors and early returns of the ring, has reaped its own
    completion and leaves nothing outstanding; the result is that SQE's and the
    files change by that SQE alone. *)
Theorem submit_one_reaps op fuel w w' r :
  quiescent (w_ring w) → submit_one op fuel w = (w', Some r) → r ≠ Panic →
  quiescent (w_ring w') ∧ w_seq w' = wadd64 (w_seq w) 1 ∧
  (∀ p, path_file (w_ring w') p = path_file (w_ring w) p) ∧
  (file_bytes (w_ring w') = file_bytes (w_ring w) ∨
   ∃ c, cqe_for (file_bytes (w_ring w)) (mkSqe op (w_seq w')) c ∧
        file_bytes (w_ring w') = after (file_bytes (w_ring w)) (mkSqe op (w_seq w')) c) ∧
  (∀ c, r = Ok c → 0 ≤ cqe_result c ∧ cqe_for (file_bytes (w_ring w)) (mkSqe op (w_seq w')) c ∧
        file_bytes (w_ring w') = after (file_bytes (w_ring w)) (mkSqe op (w_seq w')) c).
Proof.
  intros Hq Hs Hr. destruct (submit_one_submitted _ _ _ _ _ Hq Hs) as (Hseq & Hp & Hres).
  rewrite Hseq. destruct r as [c|e|]; [| |done].
  - destruct Hres as (Hq' & Hr0 & Hfor & Hfs). split_and!; [done..|right; by exists c|]. by intros ? [= <-].
  - destruct Hres as (Hq' & Hfs). split_and!; [done..|]. by intros ? [=].
Qed.

(** on a kernel that answers each request within [n] calls, interrupted
    or not and with transfers as short as it likes, a ranged read of an
    existing file terminates with exactly the bytes of the range, or, when the
    range reaches past the end of the file, with [UnexpectedEof]. *)
Theorem read_range_exact `{!Prompt P n} path f content start stop fuel w :
  P (w_ring w) → quiescent (w_ring w) → (n ≤ fuel)%nat →
  file_open (w_ring w) path = Ok f → file_bytes (w_ring w) !! f = Some content →
  is_u64 start → is_u64 stop →
  ∃ w', quiescent (w_ring w') ∧
    read_range path start stop fuel w
    = (w', Some (if (stop <=? start) || (stop <=? Z.of_nat (length content))
                 then Ok (range_bytes content start stop)
                 else Err (IoKind UnexpectedEof "short read"))).
Proof.
  intros HP Hq Hn Ho Hf Hs He.
  destruct (read_range_prompt path f content start stop fuel w HP Hq Hn Ho Hf Hs He) as (w' & Hq' & _ & Hr). by exists w'.
Qed.

(** C19: the worker thread answers any queue of reads and writes as a plain map
    from paths to bytes would.  On any kernel, whatever it fails: a read that
    succeeds returns the whole range of what the last successful write of its
    path stored (or of what was known to be there), a write touches no other
    path, and a thread that ends drops every reply behind it.  On a kernel that
    completes each request without an error within [n] calls, interrupted or
    not and with transfers as short as it likes, over a file system that opens
    and creates what it is asked to: every job is answered, in order and with
    none dropped; a write succeeds, and a read of a known path is exactly its
    range, or [UnexpectedEof] when that reaches past the end. *)
Theorem worker_refines jobs fuel w known :
  quiescent (w_ring w) → known_in (w_ring w) known → Forall job_ok jobs →
  (∀ w' replies, worker jobs fuel w = (w', Some replies) → plain_run known jobs replies) ∧
  (∀ P n, Prompt P n → Serves P → P (w_ring w) → (n ≤ fuel)%nat →
     ∃ w' replies, worker jobs fuel w = (w', Some replies) ∧ answered known jobs replies).
Proof.
  intros Hq Hk Hj. split; [intros; by eapply worker_plain|]. intros P n Hp Hs HP Hn. by apply worker_answers.
Qed.
End Uring.

(** ** Examples *)

(** A kernel that follows a script: a signal, an early return, a short transfer,
    an error; after it, full transfers. *)
Module UringExample.

Inductive Answer := Interrupt | Early | Short (limit : Z) | Broken (errno : Z).
Record Kernel := mkKernel {
  k_files : gmap FileId (list Z); k_flight : list Sqe; k_cq : list Cqe; k_script : list Answer }.

Definition failed (e : Sqe) (errno : Z) : Cqe := mkCqe (sqe_user_data e) (- errno) [].

(** The completion of [e] with at most [limit] bytes. *)
Definition complete (files : gmap FileId (list Z)) (e : Sqe) (limit : Z) : Cqe :=
  match sqe_op e with
  | OpRead f offset chunk =>
      match files !! f with
      | Some content =>
          if (offset <? 0) || (chunk <? 0) then failed e 22
          else
            let bytes := take (Z.to_nat (Z.min chunk (Z.max 1 limit))) (drop (Z.to_nat offset) content) in
            mkCqe (sqe_user_data e) (Z.of_nat (length bytes)) bytes
      | None => failed e 9
      end
  | OpWrite f offset data =>
      match files !! f with
      | Some _ => mkCqe (sqe_user_data e) (Z.min (Z.of_nat (length data)) (Z.max 1 limit)) []
      | None => failed e 9
      end
  end.

Definition complete_one (k : Kernel) (limit : Z) (script : list Answer) : Kernel :=
  match k_flight k with
  | [] => mkKernel (k_files k) [] (k_cq k) script
  | e :: fl =>
      let c := complete (k_files k) e limit in
      mkKernel (after (k_files k) e c) fl (k_cq k ++ [c]) script
  end.

Definition file_id (p : string) : FileId := encode p.

#[local] Instance scripted : IoUring Kernel := {|
  ring_push k e := Some (mkKernel (k_files k) (k_flight k ++ [e]) (k_cq k) (k_script k));
  submit_and_wait k :=
    match k_script k with
    | [] => (complete_one k u32_max [], None)
    | Short limit :: script => (complete_one k limit script, None)
    | Early :: script => (mkKernel (k_files k) (k_flight k) (k_cq k) script, None)
    | Interrupt :: script => (mkKernel (k_files k) (k_flight k) (k_cq k) script, Some EINTR)
    | Broken errno :: script => (mkKernel (k_files k) (k_flight k) (k_cq k) script, Some errno)
    end;
  next_completion k :=
    match k_cq k with
    | [] => None
    | c :: cq => Some (c, mkKernel (k_files k) (k_flight k) cq (k_script k))
    end;
  file_open k p := ok_or ((λ _, file_id p) <$> k_files k !! file_id p) (IoOs ENOENT);
  file_create k p :=
    (mkKernel (<[file_id p := []]> (k_files k)) (k_flight k) (k_cq k) (k_script k), Ok (file_id p));
|}.
#[local] Instance scripted_view : UringView Kernel := {|
  flight := k_flight; completions := k_cq; file_bytes := k_files;
  path_file k p := (λ _, file_id p) <$> k_files k !! file_id p |}.

Lemma complete_for files e limit : cqe_for files e (complete files e limit).
Proof.
  unfold cqe_for, complete. destruct (sqe_op e) as [f offset chunk|f offset data].
  - destruct (files !! f) as [content|] eqn:Hf; [|by split; [|left]].
    destruct (Z.ltb_spec offset 0); [by split; [|left]|]. destruct (Z.ltb_spec chunk 0); [by split; [|left]|].
    split; [done|]. right. cbn [orb cqe_result cqe_stored]. exists content. rewrite Nat2Z.id.
    set (n := Z.to_nat (Z.min chunk (Z.max 1 limit))).
    assert (length (take n (drop (Z.to_nat offset) content)) ≤ n)%nat as Hn by (rewrite length_take; lia).
    split_and!; [done|lia|lia| |done|].
    + rewrite length_take. destruct (Nat.min_spec n (length (drop (Z.to_nat offset) content)))
        as [[? ->]|[? ->]]; [done|]. by rewrite !take_ge by lia.
    + intros Hz. rewrite length_take, length_drop in Hz. lia.
  - destruct (files !! f) as [content|] eqn:Hf; [|by split; [|left]].
    split; [done|]. right. cbn [cqe_result]. split; [by eexists|lia].
Qed.

Lemma settled_one files e c : cqe_for files e c → settled files [(e, c)] (after files e c).
Proof. intros Hc. econstructor; [done|constructor]. Qed.

Lemma complete_one_law k limit script :
  let k' := complete_one k limit script in
  ∃ done, flight k ≡ₚ done.*1 ++ flight k' ∧ completions k' = completions k ++ done.*2 ∧
    settled (file_bytes k) done (file_bytes k').
Proof.
  unfold complete_one. cbn. destruct (k_flight k) as [|e fl].
  - exists []. cbn. rewrite app_nil_r. split_and!; [done..|constructor].
  - exists [(e, complete (k_files k) e limit)]. split_and!; [done..|]. apply settled_one, complete_for.
Qed.

Lemma after_paths files e c p :
  (λ _, file_id p) <$> after files e c !! file_id p = (λ _, file_id p) <$> files !! file_id p.
Proof.
  unfold after. destruct (sqe_op e) as [|f offset data]; [done|]. destruct (_ <? _); [done|].
  destruct (decide (f = file_id p)) as [->|]; [|by rewrite lookup_alter_ne].
  rewrite lookup_alter_eq. by destruct (files !! file_id p).
Qed.

Lemma complete_one_paths k limit script p : path_file (complete_one k limit script) p = path_file k p.
Proof. unfold complete_one. cbn. destruct (k_flight k); [done|]. apply after_paths. Qed.

#[local] Instance scripted_laws : UringLaws Kernel.
Proof.
  split.
  - by intros k e k' [= <-].
  - intros k k' err. cbn. destruct (k_script k) as [|[| |limit|errno] script]; intros [= <- <-].
    all: try (exists []; rewrite app_nil_r; split_and!; [done..|constructor|done]).
    all: edestruct complete_one_law as (done & H1 & H2 & H3); exists done; split_and!;
      [exact H1|exact H2|exact H3|]; intros p; apply complete_one_paths.
  - intros k. cbn. by destruct (k_cq k).
  - intros k p f. cbn. destruct (k_files k !! file_id p) eqn:Hf; [|done]. intros [= <-].
    rewrite Hf. by split; [|eexists].
  - intros k p k' r [= <- <-]. cbn. split_and!; [done..| |done|by rewrite lookup_insert_eq].
    intros q Hq. rewrite lookup_insert_ne; [done|]. intros Heq. by apply Hq, (inj encode).
  - intros k p q f. cbn. destruct (k_files k !! file_id p); [|done]. destruct (k_files k !! file_id q); [|done].
    intros [= <-] [= Heq]. symmetry. by apply (inj encode).
Qed.

(** States whose script has at most four answers, none of them an error. *)
Definition calm (k : Kernel) : Prop :=
  (length (k_script k) ≤ 4)%nat ∧ Forall (λ a, match a with Broken _ => False | _ => True end) (k_script k).

Lemma complete_result files e limit : op_ok files (sqe_op e) → progress (sqe_op e) (complete files e limit).
Proof.
  unfold complete, progress. destruct (sqe_op e) as [f offset chunk|f offset data]; cbn.
  - intros ([content ->] & Ho & Hc). destruct (Z.ltb_spec offset 0); [lia|].
    destruct (Z.ltb_spec chunk 0); [lia|]. cbn. lia.
  - intros ([content ->] & Ho). cbn. split; [lia|]. destruct data; [done|]. cbn. lia.
Qed.

Lemma calm_completes e files script n :
  op_ok files (sqe_op e) → Forall (λ a, match a with Broken _ => False | _ => True end) script →
  (length script < n)%nat → completes_within (sqe_op e) n (mkKernel files [e] [] script).
Proof.
  intros Hop. revert n. induction script as [|a script IH]; intros [|n] Hs Hn; try (cbn in Hn; lia); cbn.
  { left. split; [done|]. eexists. split; [done|]. by apply complete_result. }
  apply Forall_cons in Hs as [Ha Hs]. cbn in Hn. destruct a; [| | |done]; cbn.
  - right. split; [by left|]. apply IH; [done|lia].
  - right. split; [by right|]. apply IH; [done|lia].
  - left. split; [done|]. eexists. split; [done|]. by apply complete_result.
Qed.

#[local] Instance calm_prompt : Prompt calm 5.
Proof.
  split.
  - intros k e [Hl Hb] [Hf Hc] Hop. eexists. split; [reflexivity|]. split; [done|].
    change (k_flight k = []) in Hf. change (k_cq k = []) in Hc. rewrite Hf, Hc.
    apply calm_completes; [done|done|lia].
  - intros k [Hl Hb]. cbn. destruct (k_script k) as [|a script] eqn:Hs; cbn in *.
    { split; unfold complete_one; destruct (k_flight k); cbn; [lia|lia|constructor..]. }
    apply Forall_cons in Hb as [Ha Hb].
    destruct a; cbn; try (by split; [cbn; lia|]); try done.
    unfold complete_one. destruct (k_flight k); by split; [cbn; lia|].
  - intros k c k' [Hl Hb]. cbn. destruct (k_cq k); [done|]. by intros [= <- <-].
Qed.

#[local] Instance calm_serves : Serves calm.
Proof.
  split.
  - intros k p f _. cbn. destruct (k_files k !! file_id p); [|done]. by intros [= <-].
  - intros k p _. cbn. by destruct (k_files k !! file_id p).
  - intros k p Hk _. by eexists _, _.
Qed.

(** [data.bin] holds five bytes; the kernel is interrupted, returns early and
    transfers two bytes before it transfers the rest. *)
Definition content : list Z := [10; 20; 30; 40; 50].
Definition disk (script : list Answer) : Worker Kernel :=
  mkWorker 0 (mkKernel {[file_id "data.bin" := content]} [] [] script).
Definition rough : list Answer := [Interrupt; Early; Short 2; Interrupt].

Lemma submit_one_reaps_witness :
  ∃ w' c, submit_one (OpRead (file_id "data.bin") 1 3) 10%nat (disk rough) = (w', Some (Ok c)) ∧
    cqe_stored c = [20; 30] ∧ quiescent (w_ring w').
Proof.
  eexists _, _. split; [vm_compute; reflexivity|]. split; [reflexivity|].
  eapply (submit_one_reaps (OpRead (file_id "data.bin") 1 3) 10%nat (disk rough));
    [split; reflexivity|vm_compute; reflexivity|discriminate].
Defined.

Lemma read_range_exact_witness :
  (∃ w', quiescent (w_ring w') ∧ read_range "data.bin" 1 4 5%nat (disk rough) = (w', Some (Ok [20; 30; 40]))) ∧
  (∃ w', quiescent (w_ring w') ∧
     read_range "data.bin" 1 9 5%nat (disk rough) = (w', Some (Err (IoKind UnexpectedEof "short read")))).
Proof.
  assert (calm (w_ring (disk rough))) as Hcalm by (split; [vm_compute; lia|repeat constructor]).
  assert (quiescent (w_ring (disk rough))) as Hq by done.
  split;
    (eapply (read_range_exact (P := calm) (n := 5%nat) "data.bin" (file_id "data.bin") content);
      [exact Hcalm|exact Hq|lia|vm_compute; reflexivity|vm_compute; reflexivity|unfold is_u64, U64; lia..]).
Defined.

Definition jobs : list Job :=
  [JobWrite "new.bin" [1; 2; 3]; JobRead "new.bin" 1 3; JobRead "data.bin" 0 2; JobRead "gone" 0 1; JobRead "data.bin" 3 9].

Lemma worker_refines_witness :
  ∃ w' replies, worker jobs 5%nat (disk rough) = (w', Some replies) ∧
    replies = [ReplyWrite (Ok tt); ReplyRead (Ok [2; 3]); ReplyRead (Ok [10; 20]); ReplyRead (Err (IoOs ENOENT));
               ReplyRead (Err (IoKind UnexpectedEof "short read"))] ∧
    plain_run {["data.bin" := content]} jobs replies ∧ answered {["data.bin" := content]} jobs replies.
Proof.
  destruct (worker_refines jobs 5%nat (disk rough) {["data.bin" := content]}) as [Hplain Hprompt].
  - split; reflexivity.
  - intros p c [<- <-]%lookup_singleton_Some. exists (file_id "data.bin"). split; vm_compute; reflexivity.
  - repeat constructor; unfold is_u64, U64; lia.
  - destruct (Hprompt calm 5%nat calm_prompt calm_serves) as (w' & replies & Hw & Ha);
      [split; [vm_compute; lia|repeat constructor]|lia|].
    exists w', replies. split; [exact Hw|]. split; [|split; [exact (Hplain _ _ Hw)|exact Ha]].
    assert ((worker jobs 5%nat (disk rough)).2 = Some replies) as Hr by (by rewrite Hw). vm_compute in Hr. by injection Hr.
Defined.

(** A ring that keeps failing makes the thread panic with the SQE outstanding;
    the unwinding then frees the buffer the kernel still knows. *)
Example panic_leaves_it_outstanding :
  let '(w', r) := submit_one (OpRead (file_id "data.bin") 0 5) 2000%nat (disk (replicate 1024%nat (Broken 5))) in
  r = Some Panic ∧ flight (w_ring w') = [mkSqe (OpRead (file_id "data.bin") 0 5) 1].
Proof. vm_compute. done. Qed.

(** A completion of another submission is returned as an error while this one
    is still outstanding. *)
Example mismatch_leaves_it_outstanding :
  let k := mkKernel {[file_id "data.bin" := content]} [] [mkCqe 99 0 []] [Early] in
  let '(w', r) := submit_one (OpRead (file_id "data.bin") 0 5) 20%nat (mkWorker 0 k) in
  r = Some (Err (IoMsg "the ring is out of step with the worker")) ∧
  flight (w_ring w') = [mkSqe (OpRead (file_id "data.bin") 0 5) 1].
Proof. vm_compute. done. Qed.
End UringExample.
