(* ===== verification/UringStore.v ===== *)
(** * oxidelake-storage: the object store over the ring

    Models the [UringLocalFileSystem] of
    [src/crates/oxidelake-storage/src/uring.rs]: the round trip of a job through
    the queue and its reply channel, also after the ring thread has ended, and
    the object-store operations that take the ring ([put_opts], [get_opts],
    [get_ranges]).  The wrapped [LocalFileSystem] and [object_store]'s range
    arithmetic are parameters.  The property is that what a put stored is what
    every later get returns. *)

From S2P Require Import Prelude Floats Arrow Core Uring UringCorrect.

(** [object_store::Error]. *)
Inductive StoreError :=
  | NotFound (path : string)
  | Generic (source : string)
  | GenericIo (source : IoError)
  | OtherError (msg : string).
Abbreviation store_result := (res StoreError).

Inductive PutMode := Overwrite | Create | Update (version : string).
Record PutResult := mkPutResult { e_tag : option string; pr_version : option string }.
Record ObjectMeta := mkMeta { meta_size : Z }.

(** What [get_opts] asks of its options: [check_preconditions], the range as
    [GetRange::as_range] computes it for an object's size, and [head]. *)
Record GetOptions := mkGetOptions {
  check_preconditions : ObjectMeta → store_result unit;
  go_range : option (Z → res string (Z * Z));
  go_head : bool }.
Record GetResult := mkGetResult { gr_payload : list Z; gr_meta : ObjectMeta; gr_range : Z * Z }.

(** The wrapped [LocalFileSystem]. *)
Class LocalStore (K : Type) := {
  path_to_filesystem : string → store_result string;
  inner_head : K → string → store_result ObjectMeta;
  inner_put : K → string → list Z → PutMode → K * store_result PutResult;
}.

(** The store: whether the ring thread still receives, and its state. *)
Record Store (K : Type) := mkStore { st_alive : bool; st_worker : Worker K }.
Arguments mkStore {K}. Arguments st_alive {K}. Arguments st_worker {K}.
Definition st_ring {K} (s : Store K) : K := w_ring (st_worker s).

Definition io_error (location : string) (err : IoError) : StoreError :=
  match err with
  | IoOs errno => if errno =? ENOENT then NotFound location else GenericIo err
  | _ => GenericIo err
  end.

Section Store.
Context {K : Type} `{!IoUring K, !LocalStore K}.

(** A computation on the store; [None] while the caller waits. *)
Definition StoreIo (A : Type) : Type := nat → Store K → Store K * option (store_result A).

(** [tx.send(job)], then [rx.await]. *)
Definition send_job (job : Job) : StoreIo Reply := λ fuel s,
  if st_alive s then
    match worker [job] fuel (st_worker s) with
    | (w, Some [ReplyDropped]) => (mkStore false w, Some (Err (Generic "io_uring worker dropped the reply")))
    | (w, Some (reply :: _)) => (mkStore true w, Some (Ok reply))
    | (w, _) => (mkStore true w, None)
    end
  else (s, Some (Err (Generic "io_uring worker thread has exited"))).

Definition store_read (location : string) (start stop : Z) : StoreIo (list Z) := λ fuel s,
  match path_to_filesystem location with
  | Err e => (s, Some (Err e))
  | Panic => (s, Some Panic)
  | Ok path =>
      let '(s, r) := send_job (JobRead path start stop) fuel s in
      (s, (λ r, reply ← r;
             match reply with ReplyRead r => map_err (io_error location) r | _ => Panic end) <$> r)
  end.

Definition store_write (location : string) (data : list Z) : StoreIo unit := λ fuel s,
  match path_to_filesystem location with
  | Err e => (s, Some (Err e))
  | Panic => (s, Some Panic)
  | Ok path =>
      let '(s, r) := send_job (JobWrite path data) fuel s in
      (s, (λ r, reply ← r;
             match reply with ReplyWrite r => map_err (io_error location) r | _ => Panic end) <$> r)
  end.

Definition put_opts (location : string) (payload : list Z) (mode : PutMode) : StoreIo PutResult := λ fuel s,
  match mode with
  | Overwrite =>
      let '(s, r) := store_write location payload fuel s in
      (s, (λ r, _ ← r; Ok (mkPutResult None None)) <$> r)
  | _ =>
      let '(k, r) := inner_put (st_ring s) location payload mode in
      (mkStore (st_alive s) (mkWorker (w_seq (st_worker s)) k), Some r)
  end.

(** The range [get_opts] reads: of the whole object when none is asked for. *)
Definition get_range_of (options : GetOptions) (meta : ObjectMeta) : store_result (Z * Z) :=
  match go_range options with
  | Some r => map_err Generic (r (meta_size meta))
  | None => Ok (0, meta_size meta)
  end.

Definition get_opts (location : string) (options : GetOptions) : StoreIo GetResult := λ fuel s,
  match (meta ← inner_head (st_ring s) location;
         _ ← check_preconditions options meta;
         range ← get_range_of options meta;
         Ok (meta, range)) with
  | Err e => (s, Some (Err e))
  | Panic => (s, Some Panic)
  | Ok (meta, range) =>
      if go_head options then (s, Some (Ok (mkGetResult [] meta range)))
      else
        let '(s, r) := store_read location range.1 range.2 fuel s in
        (s, (λ r, bytes ← r; Ok (mkGetResult bytes meta range)) <$> r)
  end.

(** The ranges in order, up to the first that fails. *)
Fixpoint get_ranges (location : string) (ranges : list (Z * Z)) : StoreIo (list (list Z)) := λ fuel s,
  match ranges with
  | [] => (s, Some (Ok []))
  | (start, stop) :: ranges =>
      match store_read location start stop fuel s with
      | (s, Some (Ok bytes)) =>
          let '(s, r) := get_ranges location ranges fuel s in
          (s, (λ r, rest ← r; Ok (bytes :: rest)) <$> r)
      | (s, Some (Err e)) => (s, Some (Err e))
      | (s, Some Panic) => (s, Some Panic)
      | (s, None) => (s, None)
      end
  end.
End Store.

(** ** What a client sees of the store *)

(** A client's request through the ring. *)
Inductive Request :=
  | Put (location : string) (payload : list Z)
  | Get (location : string) (options : GetOptions)
  | GetRanges (location : string) (ranges : list (Z * Z)).
Inductive Response :=
  | PutAnswer (r : store_result PutResult)
  | GetAnswer (r : store_result GetResult)
  | RangesAnswer (r : store_result (list (list Z))).

Section Client.
Context {K : Type} `{!IoUring K, !LocalStore K}.

Definition serve_request (request : Request) (fuel : nat) (s : Store K) : Store K * option Response :=
  match request with
  | Put location payload => let '(s, r) := put_opts location payload Overwrite fuel s in (s, PutAnswer <$> r)
  | Get location options => let '(s, r) := get_opts location options fuel s in (s, GetAnswer <$> r)
  | GetRanges location ranges => let '(s, r) := get_ranges location ranges fuel s in (s, RangesAnswer <$> r)
  end.

(** One request after the other. *)
Fixpoint serve_all (requests : list Request) (fuel : nat) (s : Store K) : Store K * option (list Response) :=
  match requests with
  | [] => (s, Some [])
  | request :: requests =>
      match serve_request request fuel s with
      | (s, None) => (s, None)
      | (s, Some answer) => let '(s, rest) := serve_all requests fuel s in (s, cons answer <$> rest)
      end
  end.

(** *** The same over a plain map from paths to contents *)

(** The objects once a request has been served. *)
Definition objects_after (objects : gmap string (list Z)) (request : Request) : gmap string (list Z) :=
  match request with
  | Put location payload =>
      match path_to_filesystem location with Ok path => <[path := payload]> objects | _ => objects end
  | _ => objects
  end.

(** A put of any location is accepted; a get of an object is answered from its
    content, with its size as metadata. Of a location that holds no known object
    nothing is said. *)
Definition plain_answer (objects : gmap string (list Z)) (request : Request) (answer : Response) : Prop :=
  match request with
  | Put location payload =>
      answer = PutAnswer (_ ← path_to_filesystem location; Ok (mkPutResult None None))
  | Get location options =>
      ∀ path content, path_to_filesystem location = Ok path → objects !! path = Some content →
        let meta := mkMeta (Z.of_nat (length content)) in
        answer = GetAnswer (
          _ ← check_preconditions options meta;
          range ← get_range_of options meta;
          if go_head options then Ok (mkGetResult [] meta range)
          else
            bytes ← map_err (io_error location) (read_reply content range.1 range.2);
            Ok (mkGetResult bytes meta range))
  | GetRanges location ranges =>
      ∀ path content, path_to_filesystem location = Ok path → objects !! path = Some content →
        answer = RangesAnswer (mapM (λ r, map_err (io_error location) (read_reply content r.1 r.2)) ranges)
  end.

Fixpoint plain_answers (objects : gmap string (list Z)) (requests : list Request) (answers : list Response) : Prop :=
  match requests, answers with
  | [], [] => True
  | request :: requests, answer :: answers =>
      plain_answer objects request answer ∧ plain_answers (objects_after objects request) requests answers
  | _, _ => False
  end.

(** A payload's size and the bounds of the ranges a request asks for are [u64]. *)
Definition request_ok (request : Request) : Prop :=
  match request with
  | Put _ payload => is_u64 (Z.of_nat (length payload))
  | Get _ options =>
      ∀ meta range, is_u64 (meta_size meta) → get_range_of options meta = Ok range → is_u64 range.1 ∧ is_u64 range.2
  | GetRanges _ ranges => Forall (λ r, is_u64 r.1 ∧ is_u64 r.2) ranges
  end.
End Client.

(** What the store relies on of the file system it wraps: the metadata of an
    object that is there is that of its file, and a size is a [u64]. *)
Class LocalLaws (K : Type) `{IoUring K, UringView K, LocalStore K} : Prop := {
  head_law k location path f content :
    path_to_filesystem location = Ok path → path_file k path = Some f → file_bytes k !! f = Some content →
    is_u64 (Z.of_nat (length content)) → inner_head k location = Ok (mkMeta (Z.of_nat (length content)));
  head_size k location meta : inner_head k location = Ok meta → is_u64 (meta_size meta);
}.

Section StoreCorrect.
Context {K : Type} `{!IoUring K, !UringView K, !UringLaws K, !LocalStore K, !LocalLaws K}.
Context {P : K → Prop} {n : nat} `{!Prompt P n, !Serves P}.

(** A store ready for the next job, with these objects on its disk. *)
Definition holds (objects : gmap string (list Z)) (s : Store K) : Prop :=
  st_alive s = true ∧ quiescent (st_ring s) ∧ P (st_ring s) ∧ known_in (st_ring s) objects ∧
  map_Forall (λ _ content, is_u64 (Z.of_nat (length content))) objects.

Lemma store_read_answers objects location start stop fuel s :
  holds objects s → (n ≤ fuel)%nat → is_u64 start → is_u64 stop →
  ∃ s' r, store_read location start stop fuel s = (s', Some r) ∧ holds objects s' ∧
    ∀ path content, path_to_filesystem location = Ok path → objects !! path = Some content →
      r = map_err (io_error location) (read_reply content start stop).
Proof.
  intros (Ha & Hq & HP & Hk & Hsize) Hn Hs He. unfold store_read.
  destruct (path_to_filesystem location) as [path|e|]; [|by (eexists s, _; split; [done|]; split; [done|])..].
  destruct (read_range_answers objects path start stop fuel (st_worker s) HP Hq Hk Hn Hs He)
    as (w' & r & Hr & Hne & HP' & Hq' & Hk' & Hknown).
  exists (mkStore true w'), (map_err (io_error location) r). unfold send_job. rewrite Ha. cbn [worker]. rewrite Hr.
  split; [by destruct r|]. split; [by split_and!|]. intros path' content [= <-] Hc. by rewrite (Hknown content Hc).
Qed.

Lemma store_write_answers objects location data fuel s :
  holds objects s → (n ≤ fuel)%nat → is_u64 (Z.of_nat (length data)) →
  ∃ s', store_write location data fuel s = (s', Some (_ ← path_to_filesystem location; Ok tt)) ∧
    holds (objects_after objects (Put location data)) s'.
Proof.
  intros (Ha & Hq & HP & Hk & Hsize) Hn Hlen. unfold store_write. cbn [objects_after].
  destruct (path_to_filesystem location) as [path|e|]; [|by exists s..].
  destruct (write_all_prompt path data fuel (st_worker s) HP Hq Hn) as (w' & Hw & HP').
  destruct (write_all_spec _ _ _ _ _ _ objects Hq Hk Hw) as [Hq' Hk'].
  exists (mkStore true w'). unfold send_job. rewrite Ha. cbn [worker]. rewrite Hw. cbn. split; [done|]. split_and!; [done..|]. by apply map_Forall_insert_2.
Qed.

Lemma get_ranges_answers objects location ranges fuel s :
  holds objects s → (n ≤ fuel)%nat → Forall (λ r, is_u64 r.1 ∧ is_u64 r.2) ranges →
  ∃ s' r, get_ranges location ranges fuel s = (s', Some r) ∧ holds objects s' ∧
    plain_answer objects (GetRanges location ranges) (RangesAnswer r).
Proof.
  intros Hh Hn Hr. revert s Hh. induction Hr as [|[start stop] ranges [Hs He] _ IH]; intros s Hh; [by eexists s, _|].
  destruct (store_read_answers objects location start stop fuel s Hh Hn Hs He) as (s1 & r & Hread & Hh1 & Hknown).
  cbn [get_ranges]. rewrite Hread. destruct r as [bytes|e|].
  - destruct (IH s1 Hh1) as (s2 & rest & Hrest & Hh2 & Hplain). rewrite Hrest. eexists s2, _.
    split; [done|]. split; [done|]. intros path content Hp Hc. cbn. rewrite <- (Hknown path content Hp Hc). cbn.
    specialize (Hplain path content Hp Hc). injection Hplain as ->. done.
  - eexists s1, _. split; [done|]. split; [done|]. intros path content Hp Hc. cbn. by rewrite <- (Hknown path content Hp Hc).
  - eexists s1, _. split; [done|]. split; [done|]. intros path content Hp Hc. cbn. by rewrite <- (Hknown path content Hp Hc).
Qed.

Lemma get_opts_answers objects location options fuel s :
  holds objects s → (n ≤ fuel)%nat → request_ok (Get location options) →
  ∃ s' r, get_opts location options fuel s = (s', Some r) ∧ holds objects s' ∧
    plain_answer objects (Get location options) (GetAnswer r).
Proof.
  intros Hh Hn Hok. pose proof Hh as (_ & _ & _ & Hk & Hsize). unfold get_opts.
  assert (∀ path content, path_to_filesystem location = Ok path → objects !! path = Some content →
    inner_head (st_ring s) location = Ok (mkMeta (Z.of_nat (length content)))) as Hhead.
  { intros path content Hp Hc. destruct (Hk path content Hc) as (f & Hpf & Hf). eapply head_law; [done..|]. exact (Hsize path content Hc). }
  destruct (inner_head (st_ring s) location) as [meta|e|] eqn:Hmeta; cbn;
    [|by eexists s, _; split_and!; [done..|]; intros path content Hp Hc; specialize (Hhead path content Hp Hc)..].
  assert (∀ path content, path_to_filesystem location = Ok path → objects !! path = Some content →
    meta = mkMeta (Z.of_nat (length content))) as Hm.
  { intros path content Hp Hc. specialize (Hhead path content Hp Hc). by injection Hhead. }
  destruct (check_preconditions options meta) as [[]|e|] eqn:Hcheck; cbn;
    [|by eexists s, _; split_and!; [done..|]; intros path content Hp Hc; rewrite <- (Hm path content Hp Hc), Hcheck..].
  destruct (get_range_of options meta) as [range|e|] eqn:Hrange; cbn;
    [|by eexists s, _; split_and!; [done..|]; intros path content Hp Hc;
      rewrite <- (Hm path content Hp Hc), Hcheck; cbn; rewrite Hrange..].
  destruct (go_head options) eqn:Hgo.
  { eexists s, _. split_and!; [done..|]. intros path content Hp Hc.
    rewrite <- (Hm path content Hp Hc), Hcheck. cbn. by rewrite Hrange. }
  destruct (Hok meta range (head_size _ _ _ Hmeta) Hrange) as [Hs He].
  destruct (store_read_answers objects location range.1 range.2 fuel s Hh Hn Hs He) as (s1 & r & Hread & Hh1 & Hknown).
  rewrite Hread. eexists s1, _. split; [done|]. split; [done|]. intros path content Hp Hc.
  rewrite <- (Hm path content Hp Hc), Hcheck. cbn. by rewrite Hrange, (Hknown path content Hp Hc).
Qed.

Lemma serve_answers objects request fuel s :
  holds objects s → (n ≤ fuel)%nat → request_ok request →
  ∃ s' answer, serve_request request fuel s = (s', Some answer) ∧ holds (objects_after objects request) s' ∧
    plain_answer objects request answer.
Proof.
  intros Hh Hn Hok. destruct request as [location payload|location options|location ranges]; cbn [serve_request].
  - destruct (store_write_answers objects location payload fuel s Hh Hn Hok) as (s' & Hw & Hh').
    unfold put_opts. rewrite Hw. eexists s', _. split; [done|]. split; [done|]. cbn. f_equal.
    by destruct (path_to_filesystem location).
  - destruct (get_opts_answers objects location options fuel s Hh Hn Hok) as (s' & r & -> & Hh' & Hr). by eexists s', _.
  - destruct (get_ranges_answers objects location ranges fuel s Hh Hn Hok) as (s' & r & -> & Hh' & Hr). by eexists s', _.
Qed.

(** C18: on a kernel that answers every request, over a file system that opens
    and creates what it is asked to, the store serves any sequence of
    overwriting puts, gets and [get_ranges] as a map from paths to contents
    would, and every request is answered.  A put returns success; from then on,
    until the object is written again and whatever was asked of it and of other
    objects in between, a get delivers exactly the bytes of the requested range
    (all of them when no range is asked for, none for a [head]) with the
    object's size as metadata, or the failed precondition, the range's error or
    [UnexpectedEof], and [get_ranges] delivers each range in order, or the first
    error.  After the last request the ring is idle and the files are those of
    the map. *)
Theorem put_then_get requests objects fuel s :
  holds objects s → (n ≤ fuel)%nat → Forall request_ok requests →
  ∃ s' answers, serve_all requests fuel s = (s', Some answers) ∧
    plain_answers objects requests answers ∧ holds (fold_left objects_after requests objects) s'.
Proof.
  intros Hh Hn Hok. revert objects s Hh. induction Hok as [|request requests Hr _ IH]; intros objects s Hh; [by exists s, []|].
  destruct (serve_answers objects request fuel s Hh Hn Hr) as (s1 & answer & Hs & Hh1 & Ha).
  destruct (IH _ s1 Hh1) as (s2 & answers & Hs2 & Has & Hh2). exists s2, (answer :: answers).
  cbn [serve_all]. by rewrite Hs, Hs2.
Qed.
End StoreCorrect.

(** ** Examples *)

Module StoreExample.
Import UringExample.
#[local] Existing Instance scripted.
#[local] Existing Instance scripted_view.
#[local] Existing Instance scripted_laws.
#[local] Existing Instance calm_prompt.
#[local] Existing Instance calm_serves.

(** Locations are paths, and the metadata is read from the scripted disk. *)
#[local] Instance scripted_local : LocalStore Kernel := {|
  path_to_filesystem := Ok;
  inner_head k location :=
    match k_files k !! file_id location with
    | Some content =>
        if bool_decide (is_u64 (Z.of_nat (length content))) then Ok (mkMeta (Z.of_nat (length content)))
        else Err (Generic "too large")
    | None => Err (NotFound location)
    end;
  inner_put k _ _ _ := (k, Err (OtherError "read-only"));
|}.
#[local] Instance scripted_local_laws : LocalLaws Kernel.
Proof.
  split.
  - intros k location path f c [= <-]. cbn. destruct (k_files k !! file_id location) eqn:Hf; [|done].
    intros [= <-]. rewrite Hf. intros [= ->] Hc. by rewrite bool_decide_eq_true_2.
  - intros k location meta. cbn. destruct (k_files k !! file_id location); [|done].
    case_bool_decide; [|done]. by intros [= <-].
Qed.

Definition store : Store Kernel := mkStore true (disk rough).
Definition whole : GetOptions := mkGetOptions (λ _, Ok tt) None false.
Definition stale : GetOptions := mkGetOptions (λ _, Err (OtherError "precondition")) None false.

(** Over an interrupted ring with short transfers: a new object is written, read
    back twice, replaced and read again, with reads of another object and of
    one that is not there in between. *)
Definition requests : list Request :=
  [Put "new.bin" [1; 2; 3]; Get "new.bin" whole; GetRanges "data.bin" [(0, 2); (3, 5)]; Get "gone" whole;
   Get "new.bin" stale; Put "new.bin" [4]; Get "new.bin" whole; GetRanges "new.bin" [(0, 1); (0, 2); (0, 1)]].

Definition new_bin (content : list Z) : Response :=
  GetAnswer (Ok (mkGetResult content (mkMeta (Z.of_nat (length content))) (0, Z.of_nat (length content)))).

Lemma put_then_get_witness :
  ∃ s' answers, serve_all requests 5%nat store = (s', Some answers) ∧
    plain_answers {["data.bin" := content]} requests answers ∧
    answers = [PutAnswer (Ok (mkPutResult None None)); new_bin [1; 2; 3]; RangesAnswer (Ok [[10; 20]; [40; 50]]);
               GetAnswer (Err (NotFound "gone")); GetAnswer (Err (OtherError "precondition"));
               PutAnswer (Ok (mkPutResult None None)); new_bin [4];
               RangesAnswer (Err (GenericIo (IoKind UnexpectedEof "short read")))].
Proof.
  destruct (put_then_get (P := calm) (n := 5%nat) requests {["data.bin" := content]} 5%nat store)
    as (s' & answers & Hs & Ha & _).
  - split; [reflexivity|]. split; [split; reflexivity|]. split; [split; [vm_compute; lia|repeat constructor]|]. split.
    + intros p c [<- <-]%lookup_singleton_Some. exists (file_id "data.bin"). split; vm_compute; reflexivity.
    + intros p c [<- <-]%lookup_singleton_Some. vm_compute. split; [discriminate|reflexivity].
  - lia.
  - assert (∀ meta range, is_u64 (meta_size meta) → Ok (0, meta_size meta) = Ok (E := StoreError) range →
      is_u64 range.1 ∧ is_u64 range.2) as Hwhole.
    { intros meta range Hm [= <-]. split; [vm_compute; split; [discriminate|reflexivity]|exact Hm]. }
    unfold requests. repeat (apply Forall_cons; split); try exact Hwhole; try apply Forall_nil;
      cbn -[U64]; unfold is_u64, U64; repeat (apply Forall_cons; split); try apply Forall_nil; cbn; lia.
  - exists s', answers. split; [exact Hs|]. split; [exact Ha|].
    assert ((serve_all requests 5%nat store).2 = Some answers) as Hr by (by rewrite Hs).
    vm_compute in Hr. by injection Hr.
Defined.

(** A ring that never completes ends the thread: the request's reply is
    dropped, and every later request is refused. *)
Example dead_thread_refuses :
  let s := mkStore true (disk (replicate 1024%nat (Broken 5))) in
  let '(s, r1) := store_read "data.bin" 0 5 2000%nat s in
  let '(_, r2) := store_read "data.bin" 0 5 2000%nat s in
  r1 = Some (Err (Generic "io_uring worker dropped the reply")) ∧
  r2 = Some (Err (Generic "io_uring worker thread has exited")).
Proof. vm_compute. done. Qed.
End StoreExample.
