(* ===== verification/CudaKernels.v ===== *)
(** * oxidelake-device: the CUDA kernels

    Models the device code in
    [src/crates/oxidelake-device/kernels/cuda/{filter_project,hash_join}.cu],
    thread by thread.  Device memory is a list per buffer, an access outside of
    a buffer is a fault ([None]).  A launch is told in which order its threads
    take turns: a thread that writes only its own part of the output takes one
    turn ([launch]); the threads of the table build, which race for slots, take
    one turn per memory operation ([run_turns]).  After the given turns every
    thread is run to its end, so that every complete execution is some launch
    and every launch is complete.  The properties are in [CudaLaunch],
    [CudaFilterCorrect] and [CudaJoinCorrect]. *)

From Stdlib Require Import SpecFloat.
From S2P Require Import Prelude Floats Arrow Core ArrowKernels Kernels Bytes Columns.

(** ** Memory *)

Definition store {A} (buf : list A) (i : nat) (v : A) : option (list A) :=
  if (i <? length buf)%nat then Some (<[i := v]> buf) else None.

(** [w] consecutive elements. *)
Definition load_range {A} (buf : list A) (i w : nat) : option (list A) :=
  if (i + w <=? length buf)%nat then Some (take w (drop i buf)) else None.

Definition store_range {A} (buf : list A) (i : nat) (vs : list A) : option (list A) :=
  if (i + length vs <=? length buf)%nat then Some (take i buf ++ vs ++ drop (i + length vs) buf) else None.

(** A [long long] and a [double] of a byte buffer. *)
Definition load_i64 (bytes : list Z) (i : nat) : option Z :=
  (λ b, i64_of_bits (from_le_bytes b)) <$> load_range bytes (8 * i) 8.
Definition load_f64 (bytes : list Z) (i : nat) : option f64 :=
  (λ b, F64 (from_le_bytes b)) <$> load_range bytes (8 * i) 8.

(** ** Launches *)

(** Every thread once, in the order of its first turn. *)
Definition order (threads : nat) (turns : list nat) : list nat :=
  filter (λ t, t < threads)%nat (remove_dups (turns ++ seq 0 threads)).

Definition launch {M} (threads : nat) (turns : list nat) (body : nat → M → option M) (m : M) : option M :=
  foldl (λ m t, m ≫= body t) (Some m) (order threads turns).

(** ** filter_project.cu *)

Definition OXIDE_BLOCK : nat := 256.

(** A null pointer is a bitmap of valid rows. *)
Definition oxide_is_valid (validity : option (list Z)) (i : nat) : option bool :=
  match validity with
  | None => Some true
  | Some bits => b ← bits !! (i / 8)%nat; Some (Z.testbit b (Z.of_nat (i mod 8)))
  end.

(** IEEE comparison; [None] is unordered. *)
Definition f64_compare (a b : f64) : option comparison := SpecFloat.SFcompare (f64_sf a) (f64_sf b).

(** The [switch] on [op] of the integer kernel. *)
Definition compare_i64 (op v literal : Z) : bool :=
  if op =? 0 then v =? literal
  else if op =? 1 then v <? literal
  else if op =? 2 then v <=? literal
  else if op =? 3 then literal <? v
  else literal <=? v.

(** The [switch] on [op] of the [double] kernel: IEEE comparisons, all false on
    a NaN. *)
Definition compare_f64 (op : Z) (v literal : f64) : bool :=
  let c := f64_compare v literal in
  if op =? 0 then bool_decide (c = Some Datatypes.Eq)
  else if op =? 1 then bool_decide (c = Some Datatypes.Lt)
  else if op =? 2 then bool_decide (c = Some Datatypes.Lt) || bool_decide (c = Some Datatypes.Eq)
  else if op =? 3 then bool_decide (c = Some Datatypes.Gt)
  else bool_decide (c = Some Datatypes.Gt) || bool_decide (c = Some Datatypes.Eq).

Definition oxide_compare_i64 (values : list Z) (validity : option (list Z)) (op literal : Z) (n : nat)
    (i : nat) (mask : list Z) : option (list Z) :=
  if (n <=? i)%nat then Some mask
  else
    valid ← oxide_is_valid validity i;
    if negb valid then store mask i 0
    else v ← load_i64 values i; store mask i (Z.b2z (compare_i64 op v literal)).

Definition oxide_compare_f64 (values : list Z) (validity : option (list Z)) (op : Z) (literal : f64)
    (n : nat) (i : nat) (mask : list Z) : option (list Z) :=
  if (n <=? i)%nat then Some mask
  else
    valid ← oxide_is_valid validity i;
    if negb valid then store mask i 0
    else v ← load_f64 values i; store mask i (Z.b2z (compare_f64 op v literal)).

Definition oxide_mask_and (a b : list Z) (n : nat) (i : nat) (out : list Z) : option (list Z) :=
  if (n <=? i)%nat then Some out
  else x ← a !! i; y ← b !! i; store out i (Z.land x y).

(** [(i < n) ? (mask[i] != 0) : 0]. *)
Definition selected (mask : list Z) (n i : nat) : option Z :=
  if (i <? n)%nat then m ← mask !! i; Some (Z.b2z (negb (m =? 0))) else Some 0.

(** The flags of the threads of block [b]. *)
Definition block_flags (mask : list Z) (n b : nat) : option (list Z) :=
  mapM (selected mask n) (seq (b * OXIDE_BLOCK) OXIDE_BLOCK).

(** [__syncthreads_count] is the number of threads of the block that pass a
    non-zero flag. *)
Definition oxide_block_count (mask : list Z) (n : nat) (i : nat) (block_counts : list Z) : option (list Z) :=
  flags ← block_flags mask n (i / OXIDE_BLOCK);
  if (i mod OXIDE_BLOCK =? 0)%nat
  then store block_counts (i / OXIDE_BLOCK)
         (Z.of_nat (length (filter (λ f, f ≠ 0) flags)))
  else Some block_counts.

(** One round of the Hillis-Steele scan: between the two barriers every thread
    has read, and only then every thread adds. *)
Definition scan_round (offset : nat) (scan : list Z) : list Z :=
  imap (λ t v, wrap32 (v + (if (offset <=? t)%nat then scan !!! (t - offset)%nat else 0))) scan.

(** [for (offset = 1; offset < blockDim.x; offset <<= 1)]. *)
Fixpoint scan_loop (fuel offset : nat) (scan : list Z) : list Z :=
  match fuel with
  | O => scan
  | S fuel => if (offset <? OXIDE_BLOCK)%nat then scan_loop fuel (2 * offset) (scan_round offset scan) else scan
  end.

Definition block_scan (flags : list Z) : list Z := scan_loop OXIDE_BLOCK 1 flags.

Definition oxide_scatter_indices (mask : list Z) (n : nat) (block_offsets : list Z)
    (i : nat) (out_indices : list Z) : option (list Z) :=
  flags ← block_flags mask n (i / OXIDE_BLOCK);
  flag ← flags !! (i mod OXIDE_BLOCK)%nat;
  if flag =? 0 then Some out_indices
  else
    inclusive ← block_scan flags !! (i mod OXIDE_BLOCK)%nat;
    base ← block_offsets !! (i / OXIDE_BLOCK)%nat;
    store out_indices (Z.to_nat (wrap32 (base + wrap32 (inclusive - 1)))) (Z.of_nat i).

(** The copy loop, in words of [unit] bytes. *)
Definition copy_words (src : list Z) (s : nat) (d unit count : nat) (dst : list Z) : option (list Z) :=
  foldl (λ (o : option (list Z)) k,
           o ≫= λ dst : list Z, load_range src (s + k * unit) unit ≫= store_range dst (d + k * unit)) (Some dst)
        (seq 0 count).

(** [width / 8] words of eight bytes, [width / 4] of four, or single bytes. *)
Definition copy_unit (width : nat) : nat :=
  if (width mod 8 =? 0)%nat then 8 else if (width mod 4 =? 0)%nat then 4 else 1.

Definition oxide_gather_fixed (src : list Z) (width : nat) (indices : list Z) (n_out : nat)
    (j : nat) (dst : list Z) : option (list Z) :=
  if (n_out <=? j)%nat then Some dst
  else
    i ← indices !! j;
    copy_words src (Z.to_nat i * width) (j * width) (copy_unit width) (width / copy_unit width) dst.

(** The bits of output byte [byte], the loop over [bit]. *)
Definition gather_bit (src_validity : list Z) (indices : list Z) (n_out byte : nat) (out : Z) (bit : nat) :
    option Z :=
  let j := (byte * 8 + bit)%nat in
  if (n_out <=? j)%nat then Some out
  else
    i ← indices !! j;
    valid ← oxide_is_valid (Some src_validity) (Z.to_nat i);
    Some (if (valid : bool) then Z.lor out (Z.shiftl 1 (Z.of_nat bit)) else out).

(** [n_bytes] is computed in 32 bits. *)
Definition oxide_gather_validity (src_validity : list Z) (indices : list Z) (n_out : nat)
    (byte : nat) (dst_validity : list Z) : option (list Z) :=
  let n_bytes := wrap32 (Z.of_nat n_out + 7) / 8 in
  if n_bytes <=? Z.of_nat byte then Some dst_validity
  else
    out ← foldl (λ (o : option Z) bit, o ≫= λ o, gather_bit src_validity indices n_out byte o bit) (Some 0) (seq 0 8);
    store dst_validity byte out.

(** ** hash_join.cu *)

(** The 64-bit finalizer of the key, reduced to the table's capacity. *)
Definition oxide_hj_hash (key : Z) (capacity : nat) : nat :=
  let h := wrap64 key in
  let h := Z.lxor h (Z.shiftr h 33) in
  let h := wmul64 h 0xff51afd7ed558ccd in
  let h := Z.lxor h (Z.shiftr h 33) in
  let h := wmul64 h 0xc4ceb9fe1a85ec53 in
  let h := Z.lxor h (Z.shiftr h 33) in
  Z.to_nat (Z.land h (Z.of_nat capacity - 1)).

(** [(slot + 1) & (capacity - 1)]. *)
Definition next_slot (slot capacity : nat) : nat :=
  Z.to_nat (Z.land (Z.of_nat slot + 1) (Z.of_nat capacity - 1)).

(** The open-addressing table: a slot is empty, claimed or published (0, 1, 2). *)
Record HashTable := mkHashTable { t_keys : list Z; t_rows : list Z; t_state : list Z }.

(** Where a thread of [oxide_hj_build] stands: before its first instruction, in
    front of the [atomicCAS] of a slot, at each of the three stores behind a
    successful one, or returned, with the slot it filled if it filled one. *)
Inductive BuildPc :=
  | BStart
  | BProbe (key : Z) (slot probes : nat)
  | BKey (key : Z) (slot : nat)
  | BRow (key : Z) (slot : nat)
  | BPublish (key : Z) (slot : nat)
  | BDone (filled : option nat).

(** One turn of thread [i]: one memory operation on the table. *)
Definition oxide_hj_build (keys : list Z) (validity : option (list Z)) (n capacity : nat)
    (i : nat) (pc : BuildPc) (t : HashTable) : option (BuildPc * HashTable) :=
  match pc with
  | BStart =>
      if (n <=? i)%nat then Some (BDone None, t)
      else
        valid ← oxide_is_valid validity i;
        if negb valid then Some (BDone None, t)
        else key ← load_i64 keys i; Some (BProbe key (oxide_hj_hash key capacity) 0, t)
  | BProbe key slot probes =>
      if (capacity <=? probes)%nat then Some (BDone None, t)
      else
        old ← t_state t !! slot;
        if old =? 0
        then st ← store (t_state t) slot 1; Some (BKey key slot, mkHashTable (t_keys t) (t_rows t) st)
        else Some (BProbe key (next_slot slot capacity) (S probes), t)
  | BKey key slot =>
      ks ← store (t_keys t) slot key; Some (BRow key slot, mkHashTable ks (t_rows t) (t_state t))
  | BRow key slot =>
      rs ← store (t_rows t) slot (Z.of_nat i); Some (BPublish key slot, mkHashTable (t_keys t) rs (t_state t))
  | BPublish key slot =>
      st ← store (t_state t) slot 2; Some (BDone (Some slot), mkHashTable (t_keys t) (t_rows t) st)
  | BDone filled => Some (BDone filled, t)
  end.

(** Threads that take turns: one step of thread [i], then the next turn. A turn
    of a thread that does not exist is none. *)
Section Turns.
Context {P M : Type} (step : nat → P → M → option (P * M)).

Definition take_turn (s : list P * M) (i : nat) : option (list P * M) :=
  match s.1 !! i with
  | None => Some s
  | Some pc => r ← step i pc s.2; Some (<[i := r.1]> s.1, r.2)
  end.

Definition run_turns (turns : list nat) (s : list P * M) : option (list P * M) :=
  foldl (λ (s : option (list P * M)) i, s ≫= λ s, take_turn s i) (Some s) turns.
End Turns.

(** Rounds in which every thread takes a turn; one of the build takes at most
    [capacity + 6] turns. *)
Definition build_rounds (threads capacity : nat) : list nat :=
  concat (replicate (capacity + 6) (seq 0 threads)).

Definition launch_hj_build (threads : nat) (turns : list nat) (keys : list Z) (validity : option (list Z))
    (n capacity : nat) (t : HashTable) : option HashTable :=
  snd <$> run_turns (oxide_hj_build keys validity n capacity) (turns ++ build_rounds threads capacity)
            (replicate threads BStart, t).

(** [state == 2u && t_keys[slot] == key]. *)
Definition slot_matches (t : HashTable) (state key : Z) (slot : nat) : option bool :=
  if state =? 2 then k ← t_keys t !! slot; Some (k =? key) else Some false.

(** The probe loop of [oxide_hj_count]: up to the first empty slot. *)
Fixpoint count_loop (fuel : nat) (t : HashTable) (key : Z) (slot capacity : nat) (count : Z) : option Z :=
  match fuel with
  | O => Some count
  | S fuel =>
      state ← t_state t !! slot;
      if state =? 0 then Some count
      else
        hit ← slot_matches t state key slot;
        count_loop fuel t key (next_slot slot capacity) capacity (if (hit : bool) then wrap32 (count + 1) else count)
  end.

Definition oxide_hj_count (probe_keys : list Z) (validity : option (list Z)) (n : nat) (t : HashTable)
    (capacity : nat) (i : nat) (counts : list Z) : option (list Z) :=
  if (n <=? i)%nat then Some counts
  else
    valid ← oxide_is_valid validity i;
    count ← (if (valid : bool)
             then key ← load_i64 probe_keys i;
                  count_loop capacity t key (oxide_hj_hash key capacity) capacity 0
             else Some 0);
    store counts i count.

(** The probe loop of [oxide_hj_write]: a pair per match. *)
Fixpoint write_pairs (fuel : nat) (t : HashTable) (i : nat) (key : Z) (slot capacity : nat) (out : nat)
    (m : list Z * list Z) : option (list Z * list Z) :=
  match fuel with
  | O => Some m
  | S fuel =>
      state ← t_state t !! slot;
      if state =? 0 then Some m
      else
        hit ← slot_matches t state key slot;
        if (hit : bool) then
          l ← store m.1 out (Z.of_nat i);
          row ← t_rows t !! slot;
          r ← store m.2 out row;
          write_pairs fuel t i key (next_slot slot capacity) capacity (S out) (l, r)
        else write_pairs fuel t i key (next_slot slot capacity) capacity out m
  end.

Definition oxide_hj_write (probe_keys : list Z) (validity : option (list Z)) (n : nat) (t : HashTable)
    (capacity : nat) (offsets : list Z) (i : nat) (m : list Z * list Z) : option (list Z * list Z) :=
  if (n <=? i)%nat then Some m
  else
    valid ← oxide_is_valid validity i;
    if negb valid then Some m
    else
      key ← load_i64 probe_keys i;
      out ← offsets !! i;
      write_pairs capacity t i key (oxide_hj_hash key capacity) capacity (Z.to_nat out) m.
