(* ===== verification/CudaLaunch.v ===== *)
(** * Launches whose threads write disjoint parts of one buffer

    Whatever the order of the threads, a launch in which thread [t] writes the
    list [f t] right behind what the threads before it write leaves the
    concatenation of those lists.  Every data-parallel kernel of [CudaKernels]
    is an instance: one slot per thread (masks), a row of bytes (gathers), a
    selected row or nothing (compaction), the matches of a probe row (join). *)

From S2P Require Import Prelude Floats Arrow Core ArrowKernels Kernels Bytes Columns CudaKernels.

(** ** The order of the threads *)

Lemma elem_of_order threads turns t : t ∈ order threads turns ↔ (t < threads)%nat.
Proof.
  unfold order. rewrite list_elem_of_filter, elem_of_remove_dups, elem_of_app, elem_of_seq. lia.
Qed.

Lemma NoDup_order threads turns : NoDup (order threads turns).
Proof. apply NoDup_filter, NoDup_remove_dups. Qed.

Lemma order_perm threads turns : order threads turns ≡ₚ seq 0 threads.
Proof.
  apply NoDup_Permutation; [apply NoDup_order|apply NoDup_seq|].
  intros t. rewrite elem_of_order, elem_of_seq. lia.
Qed.

(** ** Ranges of a buffer *)

Lemma store_range_Some {A} (buf : list A) i vs :
  (i + length vs ≤ length buf)%nat →
  store_range buf i vs = Some (take i buf ++ vs ++ drop (i + length vs) buf).
Proof. intros H. unfold store_range. by rewrite (proj2 (Nat.leb_le _ _) H). Qed.

Lemma length_overwrite {A} (buf : list A) i vs :
  (i + length vs ≤ length buf)%nat → length (take i buf ++ vs ++ drop (i + length vs) buf) = length buf.
Proof. intros H. rewrite !length_app, length_take, length_drop. lia. Qed.

Lemma overwrite_same {A} (buf : list A) i vs :
  (i + length vs ≤ length buf)%nat →
  take (length vs) (drop i (take i buf ++ vs ++ drop (i + length vs) buf)) = vs.
Proof.
  intros H. rewrite drop_app_ge by (rewrite length_take; lia). rewrite length_take, Nat.min_l by lia.
  rewrite Nat.sub_diag, drop_0. by rewrite take_app_length.
Qed.

Lemma overwrite_other {A} (buf : list A) i vs j w :
  (i + length vs ≤ length buf)%nat → (j + w ≤ i ∨ i + length vs ≤ j)%nat →
  take w (drop j (take i buf ++ vs ++ drop (i + length vs) buf)) = take w (drop j buf).
Proof.
  intros H Hj. apply list_eq. intros k. destruct (decide (k < w)%nat) as [Hk|Hk].
  2: { rewrite !lookup_take_ge by lia. done. }
  rewrite !lookup_take_lt, !lookup_drop by lia. destruct Hj as [Hj|Hj].
  - rewrite lookup_app_l by (rewrite length_take; lia). by rewrite lookup_take_lt by lia.
  - rewrite lookup_app_r by (rewrite length_take; lia). rewrite length_take, Nat.min_l by lia.
    rewrite lookup_app_r by lia. rewrite lookup_drop. f_equal. lia.
Qed.

Lemma store_as_range {A} (buf : list A) i v : store buf i v = store_range buf i [v].
Proof.
  unfold store, store_range. cbn [length].
  destruct (Nat.ltb_spec i (length buf)), (Nat.leb_spec (i + 1) (length buf)); try lia; [|done].
  f_equal. rewrite insert_take_drop by done. by replace (S i) with (i + 1)%nat by lia.
Qed.

Lemma store_range_nil {A} (buf : list A) i : (i ≤ length buf)%nat → store_range buf i [] = Some buf.
Proof.
  intros H. rewrite store_range_Some by (cbn; lia). cbn. by rewrite Nat.add_0_r, take_drop.
Qed.

Lemma drop_overwrite {A} (buf : list A) i vs n :
  (i + length vs ≤ length buf)%nat → (i + length vs ≤ n)%nat →
  drop n (take i buf ++ vs ++ drop (i + length vs) buf) = drop n buf.
Proof.
  intros H Hn. rewrite app_assoc, drop_app_ge by (rewrite length_app, length_take; lia).
  rewrite length_app, length_take, drop_drop. f_equal. lia.
Qed.

Lemma store_range_app {A} (buf a b : list A) d :
  (d + length a + length b ≤ length buf)%nat →
  (m ← store_range buf d a; store_range m (d + length a) b) = store_range buf d (a ++ b).
Proof.
  intros Hl. rewrite store_range_Some by lia. cbn [mbind option_bind].
  rewrite !store_range_Some; [|rewrite length_app; lia|rewrite length_overwrite by lia; lia]. f_equal.
  rewrite (app_assoc (take d buf) a (drop (d + length a) buf)).
  rewrite (take_app_length' (take d buf ++ a)) by (rewrite length_app, length_take; lia).
  rewrite drop_app_ge, drop_drop by (rewrite length_app, length_take; lia).
  rewrite <- !app_assoc. do 4 f_equal. rewrite !length_app, length_take. lia.
Qed.

(** ** Concatenations *)

(** What the threads before [t] write. *)
Definition written {A} (f : nat → list A) (t : nat) : nat := length (concat (f <$> seq 0 t)).

Lemma written_S {A} (f : nat → list A) t : written f (S t) = (written f t + length (f t))%nat.
Proof.
  unfold written. rewrite seq_S, fmap_app, concat_app, length_app. cbn. by rewrite app_nil_r.
Qed.

Lemma written_mono {A} (f : nat → list A) s t : (s ≤ t)%nat → (written f s ≤ written f t)%nat.
Proof.
  induction t as [|t IH]; intros H; [by replace s with 0%nat by lia|].
  destruct (decide (s = S t)) as [->|]; [done|]. rewrite written_S. specialize (IH ltac:(lia)). lia.
Qed.

Lemma written_disjoint {A} (f : nat → list A) s t :
  (s < t)%nat → (written f s + length (f s) ≤ written f t)%nat.
Proof. intros H. rewrite <- written_S. by apply written_mono. Qed.

(** Ranges that each hold their part hold the whole. *)
Lemma concat_ranges {A} (f : nat → list A) (m : list A) threads :
  (∀ t, (t < threads)%nat → take (length (f t)) (drop (written f t) m) = f t) →
  take (written f threads) m = concat (f <$> seq 0 threads).
Proof.
  induction threads as [|t IH]; intros H; [by rewrite take_0|].
  rewrite written_S, seq_S, fmap_app, concat_app. cbn. rewrite app_nil_r.
  rewrite <- IH by (intros s Hs; apply H; lia). rewrite <- (H t) at 2 by lia.
  apply list_eq. intros k. destruct (decide (k < written f t)%nat) as [Hk|Hk].
  - assert (written f t + length (f t) ≤ length m ∨ length (f t) = 0)%nat as Hlen.
    { specialize (H t ltac:(lia)). apply (f_equal length) in H. rewrite length_take, length_drop in H. lia. }
    rewrite lookup_take_lt by lia.
    destruct (decide (k < length m)%nat).
    + rewrite lookup_app_l by (rewrite length_take; lia). by rewrite lookup_take_lt by lia.
    + assert (length (f t) = 0)%nat as H0 by lia. rewrite H0, take_0, app_nil_r.
      by rewrite lookup_take_lt by lia.
  - destruct (decide (k < written f t + length (f t))%nat) as [Hk'|Hk'].
    + specialize (H t ltac:(lia)). apply (f_equal length) in H. rewrite length_take, length_drop in H.
      rewrite lookup_take_lt by lia. rewrite lookup_app_r by (rewrite length_take; lia).
      rewrite length_take, Nat.min_l, lookup_take_lt, lookup_drop by lia. f_equal. lia.
    + rewrite lookup_take_ge by lia. symmetry. apply lookup_ge_None_2.
      rewrite length_app, !length_take, length_drop. lia.
Qed.

(** ** The launch *)

Section Launch.
Context {A : Type} (f : nat → list A) (threads : nat) (body : nat → list A → option (list A)) (m0 : list A).
Hypothesis room : (written f threads ≤ length m0)%nat.
Hypothesis body_writes : ∀ t m, (t < threads)%nat → length m = length m0 →
  body t m = store_range m (written f t) (f t).

Lemma launch_prefix l :
  NoDup l → (∀ t, t ∈ l → (t < threads)%nat) →
  ∃ m, foldl (λ m t, m ≫= body t) (Some m0) l = Some m ∧ length m = length m0 ∧
    (∀ t, t ∈ l → take (length (f t)) (drop (written f t) m) = f t) ∧
    drop (written f threads) m = drop (written f threads) m0.
Proof.
  induction l as [|t l IH] using rev_ind; intros Hnd Hlt; [by exists m0; split_and!; [| |set_solver|]|].
  apply NoDup_app in Hnd as (Hnd & Hdisj & _).
  destruct IH as (m & Hm & Hlen & Hold & Hrest); [done|set_solver|].
  assert (t < threads)%nat as Ht by (apply Hlt; set_solver).
  assert (written f t + length (f t) ≤ written f threads)%nat as Hfit by by apply written_disjoint.
  rewrite foldl_snoc, Hm. cbn [mbind option_bind]. rewrite body_writes by done.
  eexists. split; [by apply store_range_Some; lia|]. split; [by rewrite length_overwrite by lia|]. split.
  - intros s [Hs|Hs%list_elem_of_singleton]%elem_of_app; [|rewrite Hs; by apply overwrite_same; lia].
    rewrite overwrite_other; [by apply Hold|lia|].
    assert (s ≠ t) by (intros ->; by apply (Hdisj t); [|apply list_elem_of_singleton]).
    destruct (decide (s < t)%nat); [left|right]; apply written_disjoint; lia.
  - rewrite drop_overwrite by lia. done.
Qed.

Lemma launch_concat turns :
  launch threads turns body m0 = Some (concat (f <$> seq 0 threads) ++ drop (written f threads) m0).
Proof.
  destruct (launch_prefix (order threads turns)) as (m & Hm & Hlen & Hall & Hrest).
  { apply NoDup_order. }
  { intros t. apply elem_of_order. }
  unfold launch. rewrite Hm. f_equal. rewrite <- (take_drop (written f threads) m), Hrest. f_equal.
  apply concat_ranges. intros t Ht. apply Hall. by apply elem_of_order.
Qed.
End Launch.

(** Two buffers written side by side. *)
Lemma launch_pair {A B} threads turns (b1 : nat → A → option A) (b2 : nat → B → option B) m1 m2 r1 r2 :
  launch threads turns b1 m1 = Some r1 → launch threads turns b2 m2 = Some r2 →
  launch threads turns (λ t m, x ← b1 t m.1; y ← b2 t m.2; Some (x, y)) (m1, m2) = Some (r1, r2).
Proof.
  unfold launch. generalize (order threads turns) as l. intros l. revert r1 r2.
  induction l as [|t l IH] using rev_ind; intros r1 r2; [by intros [= ->] [= ->]|].
  rewrite !foldl_snoc. intros (x & Hx & H1)%bind_Some (y & Hy & H2)%bind_Some.
  rewrite (IH x y Hx Hy). cbn. by rewrite H1, H2.
Qed.
