(* ===== verification/Cuda.v ===== *)
(** * oxidelake-device: the CUDA backend

    Models [src/crates/oxidelake-device/src/cuda/mod.rs] (module and function
    caches, transfers, upload and download) and the operators of
    [cuda/ops.rs] that orchestrate the kernels of [CudaKernels].  The driver,
    NVRTC and the scheduler of the device are the operations of [CudaApi] over
    an abstract state: each call may fail, and a launch says in which order its
    threads took turns.  Device code that leaves its buffers would be undefined
    behaviour and is the outcome [Panic] here.  The properties are in
    [CudaFilterCorrect] and [CudaJoinCorrect]. *)

From S2P Require Import Prelude Floats Arrow Core Memory ArrowKernels Kernels Device Bytes Columns CudaKernels.

(** The CUDA driver and NVRTC (cudarc). An error is its message. *)
Class CudaApi (D : Type) := {
  drv_alloc : D → nat → D * option string;
  drv_htod : D → nat → D * option string;
  drv_dtoh : D → nat → D * option string;
  (** [cuMemGetInfo]: free and total bytes *)
  drv_mem_info : D → D * res string (Z * Z);
  drv_new_stream : D → D * res string nat;
  drv_synchronize : D → nat → D * option string;
  (** the turns of the threads of a launch *)
  drv_launch : D → nat → nat → D * res string (list nat);
  nvrtc_compile : D → string → D * res string nat;
  drv_load_module : D → nat → D * res string nat;
  drv_load_function : D → nat → string → D * res string nat;
}.

(** The backend: the driver's state and the two caches. *)
Record CudaState (D : Type) := mkCuda {
  cu_driver : D;
  cu_modules : gmap string nat;
  cu_functions : gmap (string * string) nat;
}.
Arguments mkCuda {D}. Arguments cu_driver {D}. Arguments cu_modules {D}. Arguments cu_functions {D}.

Definition driver_error (msg : string) : EngineError := Device Cuda msg.
Definition cuda_foreign (what : string) (backend : BackendKind) : EngineError :=
  Device Cuda (what +:+ " belongs to the " +:+ as_str backend +:+ " backend, not the CUDA backend").

(** The embedded kernel sources, named by their files. *)
Definition FILTER_PROJECT_SRC : string := "kernels/cuda/filter_project.cu".
Definition HASH_JOIN_SRC : string := "kernels/cuda/hash_join.cu".

Definition BLOCK : nat := 256.

Definition u32_len (n : nat) (what : string) : result nat :=
  if Z.of_nat n <=? u32_max then Ok n else Err (Execution (what +:+ " exceeds u32::MAX rows")).

(** [n.div_ceil(BLOCK).max(1)] blocks. *)
Definition grid_blocks (n : nat) : nat := Nat.max 1 ((n + (BLOCK - 1)) / BLOCK).
(** The threads of [grid_for]. *)
Definition grid_for (n : nat) : nat := grid_blocks n * BLOCK.

Definition cuda_batch (d : DeviceBatch) : result CudaBatch :=
  match db_inner d with
  | BatchCuda b => Ok b
  | _ => Err (cuda_foreign "batch" (db_backend d))
  end.

Definition cuda_column (b : CudaBatch) (index : nat) : result CudaColumn :=
  ok_or (cbt_columns b !! index) (Plan "column index out of range for a batch").

Definition cuda_field (s : Schema) (index : nat) : result Field :=
  ok_or (fields s !! index) (Plan "column index out of range for schema").

(** The running total is checked; the offsets are what it was before each count. *)
Fixpoint scan_from (total : Z) (counts : list Z) : result (list Z * Z) :=
  match counts with
  | [] => Ok ([], total)
  | c :: counts =>
      if u32_max <? total + c then Err (Execution "compaction result exceeds u32::MAX rows")
      else
        r ← scan_from (total + c) counts;
        Ok (total :: r.1, r.2)
  end.
Definition exclusive_scan (counts : list Z) : result (list Z * Z) := scan_from 0 counts.

Definition require_int64 (c : CudaColumn) (role : string) : result unit :=
  if bool_decide (cc_type c = Int64) then Ok tt
  else Err (Unsupported "cuda.int64_column" (role +:+ ": v1 supports Int64")).

Definition op_code (op : Comparison) : Z :=
  match op with CEq => 0 | CLt => 1 | CLtEq => 2 | CGt => 3 | CGtEq => 4 end.

Section Cuda.
Context {D : Type} `{!CudaApi D}.

(** A computation on the backend. *)
Definition Cu (A : Type) : Type := CudaState D → CudaState D * result A.
Definition cu_ret {A} (a : A) : Cu A := λ c, (c, Ok a).
Definition cu_lift {A} (r : result A) : Cu A := λ c, (c, r).
Definition cu_bind {A B} (m : Cu A) (f : A → Cu B) : Cu B := λ c,
  match m c with
  | (c, Ok a) => f a c
  | (c, Err e) => (c, Err e)
  | (c, Panic) => (c, Panic)
  end.
Notation "'cu!' x ':=' m 'in' k" := (cu_bind m (λ x, k))
  (at level 200, x pattern, m at level 100, k at level 200, only parsing).

(** [collect] of a fallible iterator. *)
Fixpoint cu_mapM {A B} (f : A → Cu B) (l : list A) : Cu (list B) :=
  match l with
  | [] => cu_ret []
  | a :: l => cu! b := f a in cu! bs := cu_mapM f l in cu_ret (b :: bs)
  end.

Definition cu_set_driver (c : CudaState D) (d : D) : CudaState D := mkCuda d (cu_modules c) (cu_functions c).

Definition cu_call (f : D → D * option string) : Cu unit := λ c,
  let '(d, e) := f (cu_driver c) in
  (cu_set_driver c d, match e with Some msg => Err (driver_error msg) | None => Ok tt end).
Definition cu_get {A} (f : D → D * res string A) (err : string → EngineError) : Cu A := λ c,
  let '(d, r) := f (cu_driver c) in (cu_set_driver c d, map_err err r).

(** [alloc_zeros]: at least one element. *)
Definition cu_alloc (n : nat) : Cu (list Z) :=
  cu! _ := cu_call (λ d, drv_alloc d (Nat.max n 1)) in cu_ret (replicate (Nat.max n 1) 0).
Definition cu_htod (l : list Z) : Cu (list Z) :=
  cu! _ := cu_call (λ d, drv_htod d (length l)) in cu_ret l.
Definition cu_dtoh (l : list Z) : Cu (list Z) :=
  cu! _ := cu_call (λ d, drv_dtoh d (length l)) in cu_ret l.

(** ** Modules and functions *)

Definition cu_insert_module (name : string) (m : nat) : Cu nat := λ c,
  (mkCuda (cu_driver c) (<[name := m]> (cu_modules c)) (cu_functions c), Ok m).
Definition cu_insert_function (key : string * string) (f : nat) : Cu nat := λ c,
  (mkCuda (cu_driver c) (cu_modules c) (<[key := f]> (cu_functions c)), Ok f).

Definition cuda_module (name source : string) : Cu nat := λ c,
  match cu_modules c !! name with
  | Some m => (c, Ok m)
  | None =>
      (cu! ptx := cu_get (λ d, nvrtc_compile d source)
                    (λ e, Device Cuda ("NVRTC failed to compile kernel module: " +:+ e)) in
       cu! m := cu_get (λ d, drv_load_module d ptx) driver_error in
       cu_insert_module name m) c
  end.

Definition cuda_function (module_name source entry : string) : Cu nat := λ c,
  match cu_functions c !! (module_name, entry) with
  | Some f => (c, Ok f)
  | None =>
      (cu! m := cuda_module module_name source in
       cu! f := cu_get (λ d, drv_load_function d m entry) driver_error in
       cu_insert_function (module_name, entry) f) c
  end.

(** Resolves an entry point and runs it on [threads] threads. *)
Definition cu_launch {M} (module_name source entry : string) (threads : nat)
    (run : list nat → option M) : Cu M :=
  cu! f := cuda_function module_name source entry in
  cu! turns := cu_get (λ d, drv_launch d f threads) driver_error in
  cu_lift (match run turns with Some m => Ok m | None => Panic end).

(** ** Transfers *)

Definition upload_bytes (bytes : list Z) : Cu (list Z) :=
  match bytes with [] => cu_alloc 1 | _ => cu_htod bytes end.

Definition upload_column (c : ColumnBytes) : Cu CudaColumn :=
  cu! values := upload_bytes (cb_values c) in
  cu! validity := match cb_validity c with
                  | Some bits => cu! b := upload_bytes bits in cu_ret (Some b)
                  | None => cu_ret None
                  end in
  cu_ret (mkCudaColumn (cb_type c) (Z.to_nat (cb_len c)) (Z.to_nat (cb_child_len c))
            (length (cb_values c)) values validity).

Definition download_column (c : CudaColumn) : Cu ColumnBytes :=
  cu! values := cu_dtoh (cc_values c) in
  cu! validity := match cc_validity c with
                  | Some bits => cu! b := cu_dtoh bits in cu_ret (Some (take (bitmap_len (cc_len c)) b))
                  | None => cu_ret None
                  end in
  cu_ret (mkColumnBytes (cc_type c) (Z.of_nat (cc_len c)) (take (cc_values_len c) values) validity
            (Z.of_nat (cc_child_len c))).

Definition cuda_stream (s : DeviceStream) : result unit :=
  match ds_inner s with
  | StreamCuda _ => Ok tt
  | _ => Err (cuda_foreign "stream" (ds_backend s))
  end.

(** [ArrayRef::to_data]: the buffers of an array. *)
Context `{!ArrowBuffers, !ArrowKernels} (to_data : Array → ArrayData).

Definition cuda_upload (s : DeviceStream) (b : RecordBatch) : Cu DeviceBatch :=
  cu! _ := cu_lift (cuda_stream s) in
  cu! extracted := cu_lift (extract_batch (to_data <$> columns b)) in
  cu! cols := cu_mapM upload_column extracted in
  cu_ret (mkDeviceBatch Cuda (schema b) (num_rows b) (BatchCuda (mkCudaBatch (num_rows b) cols))).

Definition cuda_download (s : DeviceStream) (d : DeviceBatch) : Cu RecordBatch :=
  cu! _ := cu_lift (cuda_stream s) in
  match db_inner d with
  | BatchCuda resident =>
      cu! cols := cu_mapM download_column (cbt_columns resident) in
      cu_lift (rebuild_batch (db_schema d) cols)
  | BatchHost host => cu_ret host
  | BatchMetal _ => cu_lift (Err (cuda_foreign "batch" (db_backend d)))
  end.

(** ** Filter and projection *)

Definition filter_kernel {M} (entry : string) (threads : nat) (run : list nat → option M) : Cu M :=
  cu_launch "filter_project" FILTER_PROJECT_SRC entry threads run.

Definition leaf_mask (c : CudaColumn) (op : Comparison) (literal : Literal) (n : nat) : Cu (list Z) :=
  if negb (bool_decide (cc_type c = literal_data_type literal))
  then cu_lift (Err (Unsupported "cuda.filter" "column and literal types differ"))
  else
    cu! mask := cu_alloc n in
    match literal with
    | LInt64 v =>
        filter_kernel "oxide_compare_i64" (grid_for n) (λ turns,
          launch (grid_for n) turns (oxide_compare_i64 (cc_values c) (cc_validity c) (op_code op) v n) mask)
    | LFloat64 v =>
        filter_kernel "oxide_compare_f64" (grid_for n) (λ turns,
          launch (grid_for n) turns (oxide_compare_f64 (cc_values c) (cc_validity c) (op_code op) v n) mask)
    end.

Fixpoint evaluate_mask (b : CudaBatch) (p : Predicate) (n : nat) : Cu (list Z) :=
  match p with
  | Compare idx op literal =>
      cu! c := cu_lift (cuda_column b idx) in leaf_mask c op literal n
  | And p1 p2 =>
      cu! l := evaluate_mask b p1 n in
      cu! r := evaluate_mask b p2 n in
      cu! out := cu_alloc n in
      filter_kernel "oxide_mask_and" (grid_for n) (λ turns,
        launch (grid_for n) turns (oxide_mask_and l r n) out)
  end.

(** The selected rows; the kernels run with one block per [BLOCK] rows. *)
Definition compact (mask : list Z) (n : nat) : Cu (list Z * nat) :=
  let blocks := grid_blocks n in
  cu! counts := cu_alloc blocks in
  cu! counts := filter_kernel "oxide_block_count" (grid_for n) (λ turns,
                  launch (grid_for n) turns (oxide_block_count mask n) counts) in
  cu! host_counts := cu_dtoh counts in
  cu! (offsets, total) := cu_lift (exclusive_scan (take blocks host_counts)) in
  cu! offsets_dev := cu_htod offsets in
  cu! indices := cu_alloc (Z.to_nat total) in
  cu! indices := if 0 <? total
                 then filter_kernel "oxide_scatter_indices" (grid_for n) (λ turns,
                        launch (grid_for n) turns (oxide_scatter_indices mask n offsets_dev) indices)
                 else cu_ret indices in
  cu_ret (indices, Z.to_nat total).

Definition gather_column (c : CudaColumn) (indices : list Z) (total : nat) : Cu CudaColumn :=
  cu! width := cu_lift (row_width (cc_type c)) in
  cu! width_u32 := cu_lift (u32_len (Z.to_nat width) "row width") in
  cu! total_u32 := cu_lift (u32_len total "gather output") in
  cu! values := cu_alloc (total * width_u32) in
  cu! values := if (0 <? total)%nat
                then filter_kernel "oxide_gather_fixed" (grid_for total_u32) (λ turns,
                       launch (grid_for total_u32) turns
                         (oxide_gather_fixed (cc_values c) width_u32 indices total_u32) values)
                else cu_ret values in
  cu! validity :=
    match cc_validity c with
    | Some src =>
        let bytes := bitmap_len total in
        cu! dst := cu_alloc bytes in
        cu! dst := if (0 <? total)%nat
                   then cu! threads := cu_lift (u32_len bytes "validity bytes") in
                        filter_kernel "oxide_gather_validity" (grid_for threads) (λ turns,
                          launch (grid_for threads) turns (oxide_gather_validity src indices total_u32) dst)
                   else cu_ret dst in
        cu_ret (Some dst)
    | None => cu_ret None
    end in
  let dim := default 0 (vector_dimension (cc_type c)) in
  cu_ret (mkCudaColumn (cc_type c) total (total * Z.to_nat dim) (total * width_u32) values validity).

Definition cuda_filter_project (s : DeviceStream) (a : FilterProjectArgs) : Cu DeviceBatch :=
  cu! _ := cu_lift (cuda_stream s) in
  cu! input := cu_lift (cuda_batch (fp_input a)) in
  cu! n := cu_lift (u32_len (cbt_rows input) "filter input") in
  cu! out_fields := cu_lift (mapM (cuda_field (db_schema (fp_input a))) (fp_projection a)) in
  cu! _ := cu_lift (mapM (cuda_column input) (fp_projection a)) in
  cu! mask := evaluate_mask input (fp_predicate a) n in
  cu! (indices, total) := compact mask n in
  cu! cols := cu_mapM (λ i, cu! c := cu_lift (cuda_column input i) in gather_column c indices total)
                      (fp_projection a) in
  cu_ret (mkDeviceBatch Cuda (Schema_new out_fields) total (BatchCuda (mkCudaBatch total cols))).
(** ** Hash join *)

(** [(2 * rows).max(16).next_power_of_two()]. *)
Definition table_capacity (rows : nat) : nat :=
  2 ^ Nat.log2_up (Nat.max (2 * rows) 16).

Definition join_kernel {M} (entry : string) (threads : nat) (run : list nat → option M) : Cu M :=
  cu_launch "hash_join" HASH_JOIN_SRC entry threads run.

Definition cuda_hash_join (s : DeviceStream) (a : HashJoinArgs) : Cu DeviceBatch :=
  cu! _ := cu_lift (cuda_stream s) in
  cu! lb := cu_lift (cuda_batch (hj_left a)) in
  cu! rb := cu_lift (cuda_batch (hj_right a)) in
  cu! lk := cu_lift (cuda_column lb (hj_left_key a)) in
  cu! rk := cu_lift (cuda_column rb (hj_right_key a)) in
  cu! _ := cu_lift (require_int64 lk "left join key") in
  cu! _ := cu_lift (require_int64 rk "right join key") in
  cu! n_left := cu_lift (u32_len (cbt_rows lb) "join probe side") in
  cu! n_right := cu_lift (u32_len (cbt_rows rb) "join build side") in
  let out_schema := Schema_new (fields (db_schema (hj_left a)) ++ fields (db_schema (hj_right a))) in
  let capacity := table_capacity (cbt_rows rb) in
  cu! cap := cu_lift (u32_len capacity "hash table capacity") in
  cu! keys0 := cu_alloc capacity in
  cu! rows0 := cu_alloc capacity in
  cu! state0 := cu_alloc capacity in
  let empty := mkHashTable keys0 rows0 state0 in
  cu! table := if (0 <? n_right)%nat
               then join_kernel "oxide_hj_build" (grid_for n_right) (λ turns,
                      launch_hj_build (grid_for n_right) turns (cc_values rk) (cc_validity rk) n_right cap empty)
               else cu_ret empty in
  cu! counts0 := cu_alloc (cbt_rows lb) in
  cu! counts := if (0 <? n_left)%nat && (0 <? n_right)%nat
                then join_kernel "oxide_hj_count" (grid_for n_left) (λ turns,
                       launch (grid_for n_left) turns
                         (oxide_hj_count (cc_values lk) (cc_validity lk) n_left table cap) counts0)
                else cu_ret counts0 in
  cu! host_counts := cu_dtoh counts in
  cu! (offsets, total) := cu_lift (exclusive_scan (take (cbt_rows lb) host_counts)) in
  cu! offsets_dev := cu_htod offsets in
  cu! left0 := cu_alloc (Z.to_nat total) in
  cu! right0 := cu_alloc (Z.to_nat total) in
  cu! (left_idx, right_idx) :=
    if 0 <? total
    then join_kernel "oxide_hj_write" (grid_for n_left) (λ turns,
           launch (grid_for n_left) turns
             (oxide_hj_write (cc_values lk) (cc_validity lk) n_left table cap offsets_dev) (left0, right0))
    else cu_ret (left0, right0) in
  cu! lcols := cu_mapM (λ c, gather_column c left_idx (Z.to_nat total)) (cbt_columns lb) in
  cu! rcols := cu_mapM (λ c, gather_column c right_idx (Z.to_nat total)) (cbt_columns rb) in
  cu_ret (mkDeviceBatch Cuda out_schema (Z.to_nat total)
            (BatchCuda (mkCudaBatch (Z.to_nat total) (lcols ++ rcols)))).
End Cuda.

(** The notation of the section, for the files that continue it. *)
Notation "'cu!' x ':=' m 'in' k" := (cu_bind m (λ x, k))
  (at level 200, x pattern, m at level 100, k at level 200, only parsing).
