(* ===== verification/CudaScan.v ===== *)
(** * Stable compaction on the device

    The block scan of [oxide_scatter_indices] is the prefix sum of the block's
    flags, the host's scan of the block counts is the number of rows selected
    before each block, and together the scattered indices are the selected rows
    in ascending order, for every order of the threads. *)

From S2P Require Import Prelude Floats Arrow Core Memory ArrowKernels Kernels Device Bytes Columns.
From S2P Require Import CudaKernels CudaLaunch Cuda.

(** ** One slot per thread *)

Lemma written_slots {A} (g : nat → A) n t :
  written (λ t, if (n <=? t)%nat then [] else [g t]) t = Nat.min t n.
Proof.
  induction t as [|t IH]; [done|]. rewrite written_S, IH. cbn beta. destruct (Nat.leb_spec n t); cbn [length]; lia.
Qed.

Lemma concat_slots {A} (g : nat → A) n threads :
  (n ≤ threads)%nat →
  concat ((λ t, if (n <=? t)%nat then [] else [g t]) <$> seq 0 threads) = g <$> seq 0 n.
Proof.
  intros H. replace threads with (n + (threads - n))%nat by lia. rewrite seq_app, fmap_app, concat_app.
  assert (∀ l, Forall (λ t, t < n)%nat l →
    concat ((λ t, if (n <=? t)%nat then [] else [g t]) <$> l) = g <$> l) as Hin.
  { induction 1 as [|t l Ht _ IH]; [done|]. cbn. destruct (Nat.leb_spec n t); [lia|]. cbn. by f_equal. }
  assert (∀ l, Forall (λ t, n ≤ t)%nat l →
    concat ((λ t, if (n <=? t)%nat then [] else [g t]) <$> l) = []) as Hout.
  { induction 1 as [|t l Ht _ IH]; [done|]. cbn. by destruct (Nat.leb_spec n t); [|lia]. }
  rewrite Hin, Hout, app_nil_r; [done| |]; apply Forall_forall; intros t Ht%elem_of_seq; lia.
Qed.

Lemma launch_slots {A} (g : nat → A) n threads turns body (m0 : list A) :
  (n ≤ threads)%nat → (n ≤ length m0)%nat →
  (∀ t m, (t < threads)%nat → length m = length m0 →
     body t m = if (n <=? t)%nat then Some m else store m t (g t)) →
  launch threads turns body m0 = Some ((g <$> seq 0 n) ++ drop n m0).
Proof.
  intros Hn Hm Hb. rewrite (launch_concat (λ t, if (n <=? t)%nat then [] else [g t])).
  - by rewrite concat_slots, written_slots, Nat.min_r.
  - rewrite written_slots. lia.
  - intros t m Ht Hlen. rewrite Hb, written_slots by done. destruct (Nat.leb_spec n t) as [Hge|Hlt].
    + rewrite store_range_nil by lia. done.
    + by rewrite store_as_range, Nat.min_l by lia.
Qed.

(** ** The block scan *)

(** The sum of the first [k] flags. *)
Definition prefix (flags : list Z) (k : nat) : Z := sumZ id (take k flags).

Lemma prefix_S flags k v : flags !! k = Some v → prefix flags (S k) = prefix flags k + v.
Proof. intros H. unfold prefix. rewrite (take_S_r _ _ v H), sumZ_app. cbn. lia. Qed.

Lemma prefix_range flags j k :
  Forall (λ f, 0 ≤ f ≤ 1) flags → (j ≤ k)%nat →
  0 ≤ prefix flags k - prefix flags j ≤ Z.of_nat (k - j).
Proof.
  intros Hf Hjk. unfold prefix. replace (take k flags) with (take j flags ++ take (k - j) (drop j flags)).
  2: { rewrite <- (take_drop j (take k flags)), take_take, Nat.min_l by lia. f_equal.
       by rewrite List.skipn_firstn_comm. }
  rewrite sumZ_app. assert (Forall (λ f, 0 ≤ f ≤ 1) (take (k - j) (drop j flags))) as Ht.
  { by apply Forall_take, Forall_drop. }
  rewrite Forall_forall in Ht.
  assert (0 ≤ sumZ id (take (k - j) (drop j flags))) by (apply sumZ_nonneg; intros; by apply Ht).
  assert (sumZ id (take (k - j) (drop j flags)) ≤ Z.of_nat (length (take (k - j) (drop j flags))) * 1)
    by (apply sumZ_le_length; intros; by apply Ht).
  rewrite length_take in *. lia.
Qed.

(** After the rounds below [offset] a thread holds the sum of the last
    [offset] flags up to its own. *)
Definition scanned (flags : list Z) (offset : nat) (scan : list Z) : Prop :=
  length scan = length flags ∧
  ∀ t, (t < length flags)%nat → scan !! t = Some (prefix flags (S t) - prefix flags (S t - offset)).

Lemma scan_round_scanned flags offset scan :
  Forall (λ f, 0 ≤ f ≤ 1) flags → (length flags ≤ OXIDE_BLOCK)%nat → (0 < offset)%nat →
  scanned flags offset scan → scanned flags (2 * offset) (scan_round offset scan).
Proof.
  intros Hf Hlen Ho [Hl Hs]. unfold scan_round. split; [by rewrite length_imap|].
  intros t Ht. rewrite list_lookup_imap, (Hs t Ht). cbn [fmap option_fmap option_map]. f_equal.
  pose proof (prefix_range flags (S t - 2 * offset) (S t) Hf ltac:(lia)) as Hr.
  assert (∀ z, 0 ≤ z ≤ Z.of_nat OXIDE_BLOCK → wrap32 z = z) as Hw.
  { intros z Hz. apply Z.mod_small. change (Z.of_nat OXIDE_BLOCK) with 256 in Hz. unfold U32. lia. }
  destruct (Nat.leb_spec offset t) as [Hge|Hlt].
  - rewrite (list_lookup_total_correct scan (t - offset) _ (Hs (t - offset)%nat ltac:(lia))).
    replace (S (t - offset))%nat with (S t - offset)%nat by lia.
    replace (S t - offset - offset)%nat with (S t - 2 * offset)%nat by lia. rewrite Hw; lia.
  - rewrite Z.add_0_r. replace (S t - offset)%nat with 0%nat in * by lia.
    replace (S t - 2 * offset)%nat with 0%nat in * by lia. apply Hw. lia.
Qed.

Lemma scan_loop_scanned flags fuel offset scan :
  Forall (λ f, 0 ≤ f ≤ 1) flags → (length flags ≤ OXIDE_BLOCK)%nat → (0 < offset)%nat →
  (OXIDE_BLOCK ≤ fuel + offset)%nat → scanned flags offset scan →
  ∃ offset', (OXIDE_BLOCK ≤ offset')%nat ∧ scanned flags offset' (scan_loop fuel offset scan).
Proof.
  intros Hf Hlen. revert offset scan. induction fuel as [|fuel IH]; intros offset scan Ho Hfuel Hs; cbn [scan_loop].
  { exists offset. split; [lia|done]. }
  destruct (Nat.ltb_spec offset OXIDE_BLOCK); [|by exists offset].
  apply IH; [lia|lia|]. by apply (scan_round_scanned flags offset).
Qed.

Lemma block_scan_spec flags t :
  Forall (λ f, 0 ≤ f ≤ 1) flags → length flags = OXIDE_BLOCK → (t < OXIDE_BLOCK)%nat →
  block_scan flags !! t = Some (prefix flags (S t)).
Proof.
  intros Hf Hlen Ht. unfold block_scan.
  destruct (scan_loop_scanned flags OXIDE_BLOCK 1 flags) as (o & Ho & _ & Hs); [done|lia|lia|lia| |].
  { split; [done|]. intros k Hk. destruct (lookup_lt_is_Some_2 _ _ Hk) as [v Hv].
    rewrite Hv, (prefix_S _ _ _ Hv). replace (S k - 1)%nat with k by lia. f_equal. lia. }
  rewrite Hs by lia. replace (S t - o)%nat with 0%nat by lia. f_equal. unfold prefix at 2. rewrite take_0. cbn [sumZ]. lia.
Qed.

(** ** Compaction *)

Section Compaction.
Context (mask : list Z) (n : nat).
Hypothesis mask_len : (n ≤ length mask)%nat.

(** Row [i] is selected. *)
Definition sel (i : nat) : bool := (i <? n)%nat && negb (default 0 (mask !! i) =? 0).
Definition sel_rows (i : nat) : list Z := if sel i then [Z.of_nat i] else [].

Lemma selected_sel i : selected mask n i = Some (Z.b2z (sel i)).
Proof.
  unfold selected, sel. destruct (Nat.ltb_spec i n) as [Hi|]; [|done].
  destruct (lookup_lt_is_Some_2 mask i ltac:(lia)) as [m ->]. done.
Qed.

Lemma block_flags_sel b :
  block_flags mask n b = Some ((λ i, Z.b2z (sel i)) <$> seq (b * OXIDE_BLOCK) OXIDE_BLOCK).
Proof.
  unfold block_flags. apply mapM_Some_2, Forall2_fmap_r, Forall_Forall2_diag, Forall_forall.
  intros i _. apply selected_sel.
Qed.

(** The rows selected below [t]. *)
Definition rank (t : nat) : Z := Z.of_nat (written sel_rows t).

Lemma rank_S t : rank (S t) = rank t + Z.b2z (sel t).
Proof. unfold rank. rewrite written_S. unfold sel_rows at 2. destruct (sel t); cbn [length Z.b2z]; lia. Qed.

Lemma rank_sum s k : sumZ id ((λ i, Z.b2z (sel i)) <$> seq s k) = rank (s + k) - rank s.
Proof.
  induction k as [|k IH]; [rewrite Nat.add_0_r; cbn; lia|].
  rewrite seq_S, fmap_app, sumZ_app, IH, Nat.add_succ_r, rank_S. cbn [fmap list_fmap sumZ id]. lia.
Qed.

Lemma block_prefix b k :
  (k ≤ OXIDE_BLOCK)%nat →
  prefix ((λ i, Z.b2z (sel i)) <$> seq (b * OXIDE_BLOCK) OXIDE_BLOCK) k
  = rank (b * OXIDE_BLOCK + k) - rank (b * OXIDE_BLOCK).
Proof.
  intros Hk. unfold prefix. rewrite <- fmap_take, take_seq, Nat.min_l by done. apply rank_sum.
Qed.

Lemma flags_01 l : Forall (λ f, 0 ≤ f ≤ 1) ((λ i, Z.b2z (sel i)) <$> l).
Proof. apply Forall_fmap, Forall_forall. intros i _. cbn. destruct (sel i); cbn; lia. Qed.

Lemma count_flags flags :
  Forall (λ f, 0 ≤ f ≤ 1) flags → Z.of_nat (length (filter (λ f, f ≠ 0) flags)) = sumZ id flags.
Proof.
  induction 1 as [|f flags Hf _ IH]; [done|]. rewrite filter_cons. cbn [sumZ id].
  destruct (decide (f ≠ 0)); cbn [length]; lia.
Qed.

(** The count of block [b]. *)
Definition block_total (b : nat) : Z := rank (S b * OXIDE_BLOCK) - rank (b * OXIDE_BLOCK).

Lemma rank_mono s t : (s ≤ t)%nat → rank s ≤ rank t.
Proof. intros H. unfold rank. pose proof (written_mono sel_rows s t H). lia. Qed.

Definition count_writes (t : nat) : list Z :=
  if (t mod OXIDE_BLOCK =? 0)%nat then [block_total (t / OXIDE_BLOCK)] else [].

Lemma seq_block b :
  (λ t, count_writes t) <$> seq (b * OXIDE_BLOCK) OXIDE_BLOCK = [block_total b] :: replicate 255 [].
Proof.
  change (seq (b * OXIDE_BLOCK) OXIDE_BLOCK) with (b * OXIDE_BLOCK :: seq (S (b * OXIDE_BLOCK)) 255)%nat.
  rewrite fmap_cons. f_equal.
  - unfold count_writes. by rewrite Nat.Div0.mod_mul, Nat.div_mul.
  - symmetry. apply replicate_as_elem_of. split; [by rewrite length_fmap, length_seq|].
    intros x (t & -> & Ht%elem_of_seq)%list_elem_of_fmap. unfold count_writes.
    destruct (Nat.eqb_spec (t mod OXIDE_BLOCK) 0) as [H0|]; [|done].
    apply Nat.Div0.mod_divides in H0 as [c ->]. unfold OXIDE_BLOCK in *. lia.
Qed.

Lemma concat_counts blocks :
  concat (count_writes <$> seq 0 (blocks * OXIDE_BLOCK)) = block_total <$> seq 0 blocks.
Proof.
  induction blocks as [|b IH]; [done|].
  replace (S b * OXIDE_BLOCK)%nat with (b * OXIDE_BLOCK + OXIDE_BLOCK)%nat by lia.
  rewrite seq_app, fmap_app, concat_app, IH, seq_S, fmap_app. f_equal. cbn [Nat.add].
  transitivity (concat ([block_total b] :: replicate 255 [])); [f_equal; apply seq_block|]. done.
Qed.

Lemma written_counts b : written count_writes (b * OXIDE_BLOCK) = b.
Proof. unfold written. by rewrite concat_counts, length_fmap, length_seq. Qed.

Lemma block_count_launch blocks turns counts0 :
  (blocks ≤ length counts0)%nat →
  launch (blocks * OXIDE_BLOCK) turns (oxide_block_count mask n) counts0
  = Some ((block_total <$> seq 0 blocks) ++ drop blocks counts0).
Proof.
  intros Hc. rewrite (launch_concat count_writes).
  - by rewrite concat_counts, written_counts.
  - by rewrite written_counts.
  - intros t m Ht Hlen. unfold oxide_block_count. rewrite block_flags_sel. cbn [mbind option_bind].
    pose proof (Nat.div_mod_eq t OXIDE_BLOCK) as Hdm. unfold count_writes at 2.
    destruct (Nat.eqb_spec (t mod OXIDE_BLOCK) 0) as [H0|H0].
    + rewrite store_as_range. replace (written count_writes t) with (t / OXIDE_BLOCK)%nat.
      2: { rewrite Hdm at 2. by rewrite H0, Nat.add_0_r, Nat.mul_comm, written_counts. }
      do 2 f_equal. rewrite count_flags by apply flags_01. rewrite rank_sum. unfold block_total. f_equal. f_equal. lia.
    + rewrite store_range_nil; [done|].
      pose proof (written_mono count_writes t (blocks * OXIDE_BLOCK) ltac:(lia)). rewrite written_counts in *. lia.
Qed.

(** The host's scan of the counts. *)
Lemma scan_from_blocks b k :
  rank ((b + k) * OXIDE_BLOCK) ≤ u32_max →
  scan_from (rank (b * OXIDE_BLOCK)) (block_total <$> seq b k)
  = Ok ((λ b, rank (b * OXIDE_BLOCK)) <$> seq b k, rank ((b + k) * OXIDE_BLOCK)).
Proof.
  revert b. induction k as [|k IH]; intros b Hb; [by rewrite Nat.add_0_r|].
  change (seq b (S k)) with (b :: seq (S b) k). rewrite !fmap_cons. cbn [scan_from]. unfold block_total at 1 2. replace (rank (b * OXIDE_BLOCK) + (rank (S b * OXIDE_BLOCK) - rank (b * OXIDE_BLOCK)))
    with (rank (S b * OXIDE_BLOCK)) by lia.
  pose proof (rank_mono (S b * OXIDE_BLOCK) ((b + S k) * OXIDE_BLOCK) ltac:(nia)).
  destruct (Z.ltb_spec u32_max (rank (S b * OXIDE_BLOCK))); [lia|].
  replace (b + S k)%nat with (S b + k)%nat in * by lia. rewrite IH by done. done.
Qed.

(** Nothing is selected from row [n] on. *)
Lemma rank_ge t : (n ≤ t)%nat → rank t = rank n.
Proof.
  intros H. induction H as [|t H IH]; [done|]. rewrite rank_S, IH. unfold sel.
  destruct (Nat.ltb_spec t n); [lia|]. cbn. lia.
Qed.

Lemma rank_le t : rank t ≤ Z.of_nat t.
Proof.
  induction t as [|t IH]; [done|]. rewrite rank_S. destruct (sel t); cbn [Z.b2z]; lia.
Qed.

Lemma scatter_launch blocks turns out0 :
  (n ≤ blocks * OXIDE_BLOCK)%nat → Z.of_nat n ≤ u32_max → rank n ≤ Z.of_nat (length out0) →
  launch (blocks * OXIDE_BLOCK) turns
    (oxide_scatter_indices mask n ((λ b, rank (b * OXIDE_BLOCK)) <$> seq 0 blocks)) out0
  = Some (concat (sel_rows <$> seq 0 (blocks * OXIDE_BLOCK)) ++ drop (Z.to_nat (rank n)) out0).
Proof.
  intros Hn Hmax Hout. pose proof (rank_ge _ Hn) as Hall. rewrite (launch_concat sel_rows).
  - rewrite <- Hall. unfold rank. by rewrite Nat2Z.id.
  - unfold rank in *. lia.
  - intros t m Ht Hlen. unfold oxide_scatter_indices. rewrite block_flags_sel. cbn [mbind option_bind].
    pose proof (Nat.div_mod_eq t OXIDE_BLOCK) as Hdm.
    pose proof (Nat.mod_upper_bound t OXIDE_BLOCK ltac:(done)) as Hmod.
    assert (t / OXIDE_BLOCK < blocks)%nat as Hb by (apply Nat.Div0.div_lt_upper_bound; lia).
    assert (((λ i, Z.b2z (sel i)) <$> seq (t / OXIDE_BLOCK * OXIDE_BLOCK) OXIDE_BLOCK) !! (t mod OXIDE_BLOCK)%nat
      = Some (Z.b2z (sel t))) as ->.
    { rewrite list_lookup_fmap, lookup_seq_lt by done. cbn [fmap option_fmap option_map]. do 2 f_equal. f_equal. lia. }
    assert (((λ b, rank (b * OXIDE_BLOCK)) <$> seq 0 blocks) !! (t / OXIDE_BLOCK)%nat
      = Some (rank (t / OXIDE_BLOCK * OXIDE_BLOCK))) as ->.
    { by rewrite list_lookup_fmap, lookup_seq_lt by done. }
    cbn [mbind option_bind].
    unfold sel_rows at 2. destruct (sel t) eqn:Hsel; cbn [Z.b2z].
    2: { rewrite store_range_nil; [done|]. pose proof (rank_mono t _ ltac:(apply Nat.lt_le_incl; exact Ht)).
         unfold rank in *. lia. }
    change (1 =? 0) with false. cbn iota.
    rewrite block_scan_spec; [|apply flags_01|by rewrite length_fmap, length_seq|done].
    cbn [mbind option_bind]. rewrite block_prefix by lia.
    replace (t / OXIDE_BLOCK * OXIDE_BLOCK + S (t mod OXIDE_BLOCK))%nat with (S t) by lia.
    assert (rank (S t) = rank t + 1) as HS by (rewrite rank_S, Hsel; done).
    pose proof (rank_le t). assert (0 ≤ rank t) by (unfold rank; lia).
    pose proof (rank_mono (t / OXIDE_BLOCK * OXIDE_BLOCK) t ltac:(lia)).
    assert (0 ≤ rank (t / OXIDE_BLOCK * OXIDE_BLOCK)) by (unfold rank; lia).
    assert (rank t < U32) as Hu.
    { pose proof (rank_mono (S t) (blocks * OXIDE_BLOCK) ltac:(lia)). pose proof (rank_le n).
      unfold u32_max in Hmax. lia. }
    rewrite store_as_range. unfold wrap32. rewrite (Z.mod_small (_ - 1)), Z.mod_small by lia.
    f_equal. unfold rank in *. lia.
Qed.

(** The scattered indices are the selected rows. *)
Lemma concat_sel threads :
  (n ≤ threads)%nat →
  concat (sel_rows <$> seq 0 threads) = Z.of_nat <$> filter (λ i, sel i = true) (seq 0 n).
Proof.
  intros H. assert (∀ l, concat (sel_rows <$> l) = Z.of_nat <$> filter (λ i, sel i = true) l) as Hgen.
  { induction l as [|i l IH]; [done|]. rewrite filter_cons. cbn. rewrite IH. unfold sel_rows.
    destruct (sel i) eqn:Hi; [by rewrite decide_True by done|]. by rewrite decide_False by congruence. }
  rewrite Hgen. replace threads with (n + (threads - n))%nat by lia. rewrite seq_app, filter_app.
  assert (filter (λ i, sel i = true) (seq (0 + n) (threads - n)) = []) as ->; [|by rewrite app_nil_r].
  apply elem_of_nil_inv. intros i [Hi Hs%elem_of_seq]%list_elem_of_filter. unfold sel in Hi.
  destruct (Nat.ltb_spec i n); [lia|done].
Qed.
End Compaction.
