(* ===== verification/CudaSpec.v ===== *)
(** * What a device batch stands for, and transfers

    A program logic for computations on the CUDA backend: [cu_spec m E Q] says
    that from every state of the backend, [m] ends with a result that satisfies
    [Q], with an error of [E], or with a driver error if the driver is not
    healthy; it never leaves a device buffer.  A column in device memory stands
    for an Arrow column ([col_array]) and a device batch for a record batch
    ([cuda_holds]); uploading and downloading keep it. *)

From S2P Require Import Prelude Floats Arrow Core Memory ArrowKernels Kernels FilterCorrect Device Bytes Columns.
From S2P Require Import ColumnsCorrect CudaKernels CudaLaunch Cuda.

(** ** Specifications *)

Section Spec.
Context {D : Type} `{!CudaApi D}.

(** No driver call fails. *)
Definition healthy : Prop :=
  (∀ d n, (drv_alloc d n).2 = None) ∧ (∀ d n, (drv_htod d n).2 = None) ∧ (∀ d n, (drv_dtoh d n).2 = None) ∧
  (∀ d f n, ∃ turns, (drv_launch d f n).2 = Ok turns) ∧ (∀ d s, ∃ p, (nvrtc_compile d s).2 = Ok p) ∧
  (∀ d p, ∃ m, (drv_load_module d p).2 = Ok m) ∧ (∀ d m e, ∃ f, (drv_load_function d m e).2 = Ok f).

Definition driver_failure (e : EngineError) : Prop := ¬ healthy ∧ ∃ msg, e = Device Cuda msg.

(** Calls that panic are outside of the driver's contract. *)
Definition no_driver_panic : Prop :=
  (∀ d f n, (drv_launch d f n).2 ≠ Panic) ∧ (∀ d s, (nvrtc_compile d s).2 ≠ Panic) ∧
  (∀ d p, (drv_load_module d p).2 ≠ Panic) ∧ (∀ d m e, (drv_load_function d m e).2 ≠ Panic).

Definition cu_spec {A} (m : Cu (D := D) A) (E : EngineError → Prop) (Q : A → Prop) : Prop :=
  ∀ c, match (m c).2 with Ok a => Q a | Err e => driver_failure e ∨ E e | Panic => False end.

Lemma cu_spec_ret {A} (a : A) E (Q : A → Prop) : Q a → cu_spec (cu_ret a) E Q.
Proof. by intros H c. Qed.

Lemma cu_spec_lift {A} (r : result A) E (Q : A → Prop) :
  match r with Ok a => Q a | Err e => E e | Panic => False end → cu_spec (cu_lift r) E Q.
Proof. intros H c. cbn. destruct r; [done|by right|done]. Qed.

Lemma cu_spec_bind {A B} (m : Cu A) (f : A → Cu B) E (Q : A → Prop) R :
  cu_spec m E Q → (∀ a, Q a → cu_spec (f a) E R) → cu_spec (cu_bind m f) E R.
Proof.
  intros Hm Hf c. unfold cu_bind. specialize (Hm c). destruct (m c) as [c' [a|e|]]; cbn in *; [|done|done].
  by apply Hf.
Qed.

Lemma cu_spec_assoc {A B C} (m : Cu A) (f : A → Cu B) (g : B → Cu C) E R :
  cu_spec (cu_bind (cu_bind m f) g) E R → cu_spec (cu_bind m (λ a, cu_bind (f a) g)) E R.
Proof. intros Hs c. specialize (Hs c). unfold cu_bind in *. by destruct (m c) as [c' [a|e|]]. Qed.

Lemma cu_spec_bind_Ok {A B} (r : result A) (f : A → Cu B) a E R :
  r = Ok a → cu_spec (f a) E R → cu_spec (cu_bind (cu_lift r) f) E R.
Proof. intros -> Hf c. exact (Hf c). Qed.

Lemma cu_spec_weaken {A} (m : Cu A) (E E' : EngineError → Prop) (Q R : A → Prop) :
  cu_spec m E Q → (∀ e, E e → E' e) → (∀ a, Q a → R a) → cu_spec m E' R.
Proof.
  intros Hm HE HQ c. specialize (Hm c). destruct (m c).2; [by apply HQ| |done].
  destruct Hm; [by left|right; by apply HE].
Qed.

Lemma cu_spec_mapM {A B} (f : A → Cu B) l E (Q : A → B → Prop) :
  (∀ a, a ∈ l → cu_spec (f a) E (Q a)) → cu_spec (cu_mapM f l) E (Forall2 Q l).
Proof.
  induction l as [|a l IH]; intros H; [by apply cu_spec_ret|]. cbn [cu_mapM].
  eapply cu_spec_bind; [apply H; set_solver|]. intros b Hb.
  eapply cu_spec_bind; [apply IH; set_solver|]. intros bs Hbs. apply cu_spec_ret. by constructor.
Qed.

Lemma cu_spec_call f E :
  ((∃ d, (f d).2 ≠ None) → ¬ healthy) → cu_spec (cu_call f) E (λ _, True).
Proof.
  intros H c. unfold cu_call. destruct (f (cu_driver c)) as [d [msg|]] eqn:Hf; cbn; [|done].
  left. split; [|by exists msg]. apply H. exists (cu_driver c). by rewrite Hf.
Qed.

Lemma cu_spec_alloc n E : cu_spec (cu_alloc n) E (λ b, b = replicate (Nat.max n 1) 0).
Proof.
  eapply cu_spec_bind; [apply cu_spec_call|by intros; apply cu_spec_ret].
  intros [d Hd] Hh. apply Hd, (proj1 Hh).
Qed.
Lemma cu_spec_htod l E : cu_spec (cu_htod l) E (λ b, b = l).
Proof.
  eapply cu_spec_bind; [apply cu_spec_call|by intros; apply cu_spec_ret].
  intros [d Hd] (_ & Hh & _). apply Hd, Hh.
Qed.
Lemma cu_spec_dtoh l E : cu_spec (cu_dtoh l) E (λ b, b = l).
Proof.
  eapply cu_spec_bind; [apply cu_spec_call|by intros; apply cu_spec_ret].
  intros [d Hd] (_ & _ & Hh & _). apply Hd, Hh.
Qed.

Context (drv_ok : no_driver_panic).

Lemma cu_spec_get {A} (f : D → D * res string A) err E :
  (∀ d, (f d).2 ≠ Panic) → (∀ msg, ∃ msg', err msg = Device Cuda msg') →
  ((∃ d msg, (f d).2 = Err msg) → ¬ healthy) → cu_spec (cu_get f err) E (λ _, True).
Proof.
  intros Hp He H c. unfold cu_get. specialize (Hp (cu_driver c)).
  destruct (f (cu_driver c)) as [d [a|msg|]] eqn:Hf; cbn in *; [done| |done].
  left. split; [|apply He]. apply H. exists (cu_driver c), msg. by rewrite Hf.
Qed.

Lemma driver_error_Device msg : ∃ msg', driver_error msg = Device Cuda msg'.
Proof. by exists msg. Qed.

Lemma cu_spec_module name source E : cu_spec (cuda_module name source) E (λ _, True).
Proof.
  destruct drv_ok as (_ & Hc & Hm & _). intros c. unfold cuda_module.
  destruct (cu_modules c !! name); [done|]. revert c.
  change (cu_spec (cu_bind (cu_get (λ d, nvrtc_compile d source)
    (λ e, Device Cuda ("NVRTC failed to compile kernel module: " +:+ e))) (λ ptx,
    cu_bind (cu_get (λ d, drv_load_module d ptx) driver_error) (cu_insert_module name))) E (λ _, True)).
  eapply cu_spec_bind; [apply cu_spec_get|].
  - intros d. apply Hc.
  - intros msg. by eexists.
  - intros (d & msg & Hd) (_ & _ & _ & _ & Hh & _). destruct (Hh d source). congruence.
  - intros ptx _. eapply cu_spec_bind; [apply cu_spec_get|by intros m _ c].
    + intros d. apply Hm.
    + apply driver_error_Device.
    + intros (d & msg & Hd) (_ & _ & _ & _ & _ & Hh & _). destruct (Hh d ptx). congruence.
Qed.

Lemma cu_spec_function name source entry E : cu_spec (cuda_function name source entry) E (λ _, True).
Proof.
  destruct drv_ok as (_ & _ & _ & Hf). intros c. unfold cuda_function.
  destruct (cu_functions c !! (name, entry)); [done|]. revert c.
  change (cu_spec (cu_bind (cuda_module name source) (λ m,
    cu_bind (cu_get (λ d, drv_load_function d m entry) driver_error)
      (cu_insert_function (name, entry)))) E (λ _, True)).
  eapply cu_spec_bind; [apply cu_spec_module|]. intros m _.
  eapply cu_spec_bind; [apply cu_spec_get|by intros f _ c].
  - intros d. apply Hf.
  - apply driver_error_Device.
  - intros (d & msg & Hd) (_ & _ & _ & _ & _ & _ & Hh). destruct (Hh d m entry). congruence.
Qed.

(** A launch whose threads end well in every order. *)
Lemma cu_spec_launch {M} name source entry threads (run : list nat → option M) E (Q : M → Prop) :
  (∀ turns, ∃ m, run turns = Some m ∧ Q m) → cu_spec (cu_launch name source entry threads run) E Q.
Proof.
  intros Hrun. eapply cu_spec_bind; [apply cu_spec_function|]. intros f _.
  eapply cu_spec_bind; [apply cu_spec_get|].
  - intros d. apply drv_ok.
  - apply driver_error_Device.
  - intros (d & msg & Hd) (_ & _ & _ & Hh & _). destruct (Hh d f threads). congruence.
  - intros turns _. apply cu_spec_lift. destruct (Hrun turns) as (m & -> & Hm). done.
Qed.
End Spec.

(** ** The meaning of device buffers *)

(** The types that can be resident. *)
Definition resident (dt : DataType) : Prop :=
  match dt with
  | Int64 | Float64 | Float32 => True
  | FixedSizeList item size => field_type_of item = Float32 ∧ 0 ≤ size < 2 ^ 31
  | _ => False
  end.

Definition width (dt : DataType) : nat := Z.to_nat (row_bytes dt).

(** An array that exists in memory: its values are of its type, floats are bits
    of their width, and its buffers are of a size that can be addressed. *)
Definition value_fits (v : Value) : Prop :=
  match v with
  | VF64 f => 0 ≤ f64_bits f < 2 ^ 64
  | VF32 f => 0 ≤ f32_bits f < 2 ^ 32
  | VVec l => Forall (λ f, 0 ≤ f32_bits f < 2 ^ 32) l
  | _ => True
  end.
Definition uploadable (a : Array) : Prop :=
  resident (data_type a) ∧ array_ok a = true ∧ Forall (λ o, match o with Some v => value_fits v | None => True end) (values a) ∧
  Z.of_nat (array_len a) < 2 ^ 62 ∧ Z.of_nat (array_len a * width (data_type a)) < 2 ^ 63.

Definition cell_value (dt : DataType) (bytes : list Z) (i : nat) : Value :=
  match dt with
  | FixedSizeList _ size =>
      VVec ((λ j, F32 (from_le_bytes (cell 4 bytes (i * Z.to_nat size + j)))) <$> seq 0 (Z.to_nat size))
  | _ => decode_value dt bytes i
  end.

Definition row_valid (validity : option (list Z)) (i : nat) : bool :=
  match validity with Some bits => bit_at bits i | None => true end.

Definition cb_cell (c : ColumnBytes) (i : nat) : option Value :=
  if row_valid (cb_validity c) i then Some (cell_value (cb_type c) (cb_values c) i) else None.

(** The column that [n] rows of bytes stand for. *)
Definition cb_array (c : ColumnBytes) : Array :=
  mkArray (cb_type c) (cb_cell c <$> seq 0 (Z.to_nat (cb_len c))).

Definition cb_ok (n : nat) (c : ColumnBytes) : Prop :=
  cb_len c = Z.of_nat n ∧ resident (cb_type c) ∧ length (cb_values c) = (n * width (cb_type c))%nat ∧
  (∀ bits, cb_validity c = Some bits → length bits = bitmap_len n) ∧
  cb_child_len c = child_items (cb_type c) (Z.of_nat n) ∧
  Z.of_nat (n * width (cb_type c)) < 2 ^ 63 ∧ Z.of_nat n < 2 ^ 62.

(** What a download of a device column returns. *)
Definition col_bytes (c : CudaColumn) : ColumnBytes :=
  mkColumnBytes (cc_type c) (Z.of_nat (cc_len c)) (take (cc_values_len c) (cc_values c))
    (take (bitmap_len (cc_len c)) <$> cc_validity c) (Z.of_nat (cc_child_len c)).
Definition col_ok (n : nat) (c : CudaColumn) : Prop := cb_ok n (col_bytes c).
Definition col_array (c : CudaColumn) : Array := cb_array (col_bytes c).

Definition cuda_holds (d : DeviceBatch) (b : RecordBatch) : Prop :=
  db_schema d = schema b ∧ db_num_rows d = num_rows b ∧ batch_ok b ∧
  ∃ cb, db_inner d = BatchCuda cb ∧ cbt_rows cb = num_rows b ∧
    Forall (col_ok (num_rows b)) (cbt_columns cb) ∧ columns b = col_array <$> cbt_columns cb.

Lemma bitmap_len_enough n : (n ≤ 8 * bitmap_len n)%nat.
Proof.
  unfold bitmap_len. pose proof (Nat.div_mod_eq (n + 7) 8). pose proof (Nat.mod_upper_bound (n + 7) 8). lia.
Qed.

Lemma width_vector item size : 0 ≤ size → width (FixedSizeList item size) = (4 * Z.to_nat size)%nat.
Proof. intros H. unfold width. cbn. lia. Qed.

Section Transfers.
Context `{!ArrowBuffers, !ArrowBuffersLaws}.

Lemma null_buffer_bits n bits :
  length bits = bitmap_len n → null_buffer bits (Z.of_nat n) = Ok (bit_at bits <$> seq 0 n).
Proof.
  intros Hbits. unfold null_buffer. pose proof (bitmap_len_enough n).
  destruct (Z.ltb_spec (8 * Z.of_nat (length bits)) (Z.of_nat n)); [lia|]. by rewrite Nat2Z.id.
Qed.

(** The nulls of a column of [n] rows. *)
Definition col_nulls (c : ColumnBytes) (n : nat) : option (list bool) :=
  (λ bits, bit_at bits <$> seq 0 n) <$> cb_validity c.

Lemma masked_nulls {A} (c : ColumnBytes) n (f : nat → A) :
  masked (col_nulls c n) f (Z.of_nat n)
  = (λ i, if row_valid (cb_validity c) i then Some (f i) else None) <$> seq 0 n.
Proof.
  unfold masked, col_nulls. rewrite Nat2Z.id. apply list_fmap_ext. intros k i [-> Hi]%lookup_seq. cbn.
  destruct (cb_validity c) as [bits|]; cbn; [|done].
  by rewrite list_lookup_fmap, lookup_seq_lt.
Qed.

(** Rebuilding bytes gives the column they stand for. *)
Lemma rebuild_means n c :
  cb_ok n c → ∃ d, rebuild c = Ok d ∧ to_array d = cb_array c.
Proof.
  intros (Hlen & Hres & Hvals & Hval & Hchild & Hb1 & Hb2).
  assert (match cb_validity c with
          | Some bytes => Some <$> null_buffer bytes (cb_len c) | None => Ok None
          end = Ok (E := EngineError) (col_nulls c n)) as Hnulls.
  { unfold col_nulls. destruct (cb_validity c) as [bits|]; [|done].
    rewrite Hlen, (null_buffer_bits n bits) by by apply Hval. done. }
  assert (∀ bits, col_nulls c n = Some bits → Z.of_nat (length bits) = Z.of_nat n) as Hnl.
  { unfold col_nulls. destruct (cb_validity c) as [bits'|]; [|done]. intros bits [= <-].
    by rewrite length_fmap, length_seq. }
  assert (∀ w dt, dt = cb_type c → w = width dt →
    primitive_ok (mkData dt (Z.of_nat n) 0 (col_nulls c n) [cb_values c] []) (Z.of_nat w)) as Hprim.
  { intros w dt -> ->. exists (cb_values c). cbn. split_and!; [done..|]. unfold window_ok. rewrite Hvals.
    split_and!; lia. }
  unfold rebuild. rewrite Hnulls. cbn [mbind res_bind]. rewrite Hlen.
  destruct (cb_type c) as [| | | | |item size|] eqn:Ht; cbn in Hres; try done.
  1-3: (eexists; split;
    [rewrite data_build_law; [reflexivity|split; [exact Hnl|by apply (Hprim _ _ eq_refl eq_refl)]]|];
    unfold to_array, data_values, cb_array; cbn; rewrite Ht, Hlen, Nat2Z.id; f_equal;
    rewrite masked_nulls; unfold cb_cell; rewrite Ht; done).
  destruct Hres as [Hitem Hsize]. rewrite Hitem, Hchild. cbn [child_items].
  set (child := mkData Float32 (Z.of_nat n * size) 0 None [cb_values c] []).
  rewrite width_vector in Hvals, Hb1 by lia.
  assert (primitive_ok child 4) as Hpc.
  { exists (cb_values c). cbn. split_and!; [done..|]. unfold window_ok. rewrite Hvals. split_and!; nia. }
  rewrite (data_build_law child); [|by split]. cbn [map_err mbind res_bind].
  eexists. split.
  - rewrite data_build_law; [reflexivity|]. split; [exact Hnl|]. cbn. split_and!; [done|lia|lia|done|lia|lia|lia|].
    exists child. split_and!; [done..|]. cbn. lia.
  - unfold to_array, data_values, cb_array. cbn. rewrite Ht, Hlen, Nat2Z.id. f_equal.
    rewrite masked_nulls. unfold cb_cell. rewrite Ht. done.
Qed.

Lemma data_ok_sizes d :
  data_ok d →
  resident (ad_type d) ∧ 0 ≤ ad_len d ∧ 0 ≤ row_bytes (ad_type d) ∧
  ad_len d * row_bytes (ad_type d) < 2 ^ 63.
Proof.
  intros [_ Hd]. destruct (ad_type d) as [| | | | |item size|]; try done; cbn.
  1-3: (destruct Hd as (buf & _ & _ & ? & ? & ? & ?); split_and!; [done|lia|lia|lia]).
  destruct Hd as (Hi & Hs & _ & Ho & Hl & child & _ & _ & _ & (buf & _ & _ & Hc0 & Hc1 & Hc2 & Hc3) & Hfit).
  split_and!; [done|lia|lia|lia|lia|nia].
Qed.

(** Extracting a column gives bytes that stand for it. *)
Lemma extract_means d :
  data_ok d → ad_len d < 2 ^ 62 →
  ∃ c, extract d = Ok c ∧ cb_ok (Z.to_nat (ad_len d)) c ∧ cb_array c = to_array d.
Proof.
  intros Hd Hlen. destruct (column_roundtrip d Hd) as (c & d' & Hx & Hp & Hr & Ha & _). exists c. split; [done|].
  assert (cb_ok (Z.to_nat (ad_len d)) c) as Hok.
  { destruct Hp as (Ht & Hl & Hch & Hv & Hvals). destruct (data_ok_sizes d Hd) as (Hres & Hl0 & Hw0 & Hsz).
    unfold cb_ok, width. rewrite Ht, Hl, Hch, Z2Nat.id by done.
    split_and!; [done|done|nia| |done|nia|lia].
    intros bits Hbits. rewrite Hv in Hbits. destruct (ad_nulls d) as [nulls|] eqn:Hn; [|done].
    injection Hbits as <-. rewrite (proj1 (sliced_law nulls)). f_equal.
    pose proof (proj1 Hd nulls Hn). lia. }
  split; [done|]. destruct (rebuild_means _ _ Hok) as (d'' & Hr' & Ha'). congruence.
Qed.

Context {D : Type} `{!CudaApi D}.

Lemma upload_bytes_spec bytes E : cu_spec (upload_bytes bytes) E (λ b, take (length bytes) b = bytes).
Proof.
  unfold upload_bytes. destruct bytes as [|x bytes].
  - eapply cu_spec_weaken; [apply cu_spec_alloc|done|done].
  - eapply cu_spec_weaken; [apply cu_spec_htod|done|]. intros b ->. apply firstn_all.
Qed.

Lemma upload_column_spec n c E :
  cb_ok n c → cu_spec (upload_column c) E (λ col, col_bytes col = c).
Proof.
  intros (Hlen & Hres & Hvals & Hval & Hchild & _). unfold upload_column.
  eapply cu_spec_bind; [apply upload_bytes_spec|]. intros values Hv.
  eapply (cu_spec_bind _ _ _ (λ v, take (bitmap_len n) <$> v = cb_validity c)).
  - destruct (cb_validity c) as [bits|]; [|by apply cu_spec_ret].
    eapply cu_spec_bind; [apply upload_bytes_spec|]. intros b Hb. apply cu_spec_ret.
    rewrite <- (Hval bits eq_refl). cbn [fmap option_fmap option_map]. by rewrite Hb.
  - intros validity Hvd. apply cu_spec_ret. unfold col_bytes. cbn [cc_type cc_len cc_child_len cc_values_len cc_values cc_validity].
    rewrite Hlen, Nat2Z.id, Hvd, Hv, Z2Nat.id.
    + destruct c. cbn in *. by rewrite Hlen.
    + rewrite Hchild. unfold child_items. destruct (cb_type c); cbn in Hres; try done. lia.
Qed.

Lemma download_column_spec c E : cu_spec (download_column c) E (λ b, b = col_bytes c).
Proof.
  unfold download_column. eapply cu_spec_bind; [apply cu_spec_dtoh|]. intros values ->.
  eapply (cu_spec_bind _ _ _ (λ v, v = take (bitmap_len (cc_len c)) <$> cc_validity c)).
  - destruct (cc_validity c) as [bits|]; [|by apply cu_spec_ret].
    eapply cu_spec_bind; [apply cu_spec_dtoh|]. intros b ->. by apply cu_spec_ret.
  - intros v ->. by apply cu_spec_ret.
Qed.

Context `{!ArrowKernels, !ArrowLaws} (to_data : Array → ArrayData).

(** [to_data] gives the buffers of an array. *)
Definition to_data_law : Prop :=
  ∀ a, uploadable a → data_ok (to_data a) ∧ to_array (to_data a) = a ∧ ad_len (to_data a) = Z.of_nat (array_len a).

(** Extracting the columns of a batch. *)
Lemma extract_batch_means b :
  to_data_law → batch_ok b → Forall uploadable (columns b) →
  ∃ cs, extract_batch (to_data <$> columns b) = Ok cs ∧
    Forall2 (λ a c, cb_ok (num_rows b) c ∧ cb_array c = a) (columns b) cs.
Proof.
  intros Hlaw Hb Hres. assert (Forall (λ a, array_len a = num_rows b) (columns b)) as Hl.
  { apply Forall_forall. intros a (i & Hi)%list_elem_of_lookup. by apply (batch_ok_column_len _ i _ Hb). }
  unfold extract_batch. induction (columns b) as [|a l IH]; [by exists []|].
  apply Forall_cons in Hres as [Ha Hres]. apply Forall_cons in Hl as [Hla Hl].
  destruct IH as (cs & Hx & Hcs); [done..|]. destruct (Hlaw a Ha) as (Hok & Hta & Hlen). destruct Ha as (_ & _ & _ & Ha & _).
  destruct (extract_means (to_data a) Hok ltac:(lia)) as (c & Hc & Hcok & Hca).
  exists (c :: cs). cbn. rewrite Hc. cbn. unfold extract_batch in Hx. rewrite Hx. split; [done|].
  constructor; [|done]. rewrite Hlen, Nat2Z.id, Hla in Hcok. split; [done|congruence].
Qed.

Lemma upload_holds_spec s b E :
  to_data_law → cuda_stream s = Ok tt → batch_ok b → Forall uploadable (columns b) →
  cu_spec (cuda_upload to_data s b) E (λ d, cuda_holds d b).
Proof.
  intros Hlaw Hs Hb Hres. unfold cuda_upload. rewrite Hs.
  destruct (extract_batch_means b Hlaw Hb Hres) as (cs & Hx & Hcs).
  eapply cu_spec_bind_Ok; [done|]. eapply cu_spec_bind_Ok; [exact Hx|].
  eapply cu_spec_bind.
  { apply (cu_spec_mapM _ _ _ (λ c col, col_bytes col = c)). intros c Hc.
    apply list_elem_of_lookup in Hc as (i & Hi). destruct (Forall2_lookup_r _ _ _ _ _ Hcs Hi) as (a & _ & Hok & _).
    by eapply upload_column_spec. }
  intros cols Hcols. apply cu_spec_ret. split_and!; [done..|].
  exists (mkCudaBatch (num_rows b) cols). split_and!; [done..| |]; cbn.
  - unfold col_ok. clear -Hcs Hcols. revert cols Hcols. induction Hcs as [|a c l cs [Hok _] _ IH]; intros cols Hcols.
    { apply Forall2_nil_inv_l in Hcols as ->. constructor. }
    apply Forall2_cons_inv_l in Hcols as (col & cols' & Hc & Hcols & ->). constructor; [by rewrite Hc|by apply IH].
  - unfold col_array. clear -Hcs Hcols. revert cols Hcols. induction Hcs as [|a c l cs [_ Ha] _ IH]; intros cols Hcols.
    { by apply Forall2_nil_inv_l in Hcols as ->. }
    apply Forall2_cons_inv_l in Hcols as (col & cols' & Hc & Hcols & ->). cbn. rewrite Hc, Ha. f_equal. by apply IH.
Qed.

Lemma rebuild_columns_spec n cols :
  Forall (cb_ok n) cols → ∃ ds, rebuild_columns cols = Ok ds ∧ to_array <$> ds = cb_array <$> cols.
Proof.
  unfold rebuild_columns. induction 1 as [|c cols Hc _ (ds & Hr & Ha)]; [by exists []|].
  destruct (rebuild_means n c Hc) as (d & Hd & Hda). exists (d :: ds). cbn. rewrite Hd. cbn. rewrite Hr.
  split; [done|]. by rewrite Hda, Ha.
Qed.

(** Rebuilding the batch from the bytes of its columns. *)
Lemma rebuild_batch_means b cols :
  batch_ok b → columns b ≠ [] → Forall (cb_ok (num_rows b)) cols → columns b = cb_array <$> cols →
  rebuild_batch (schema b) cols = Ok b.
Proof.
  intros Hb Hne Hok Hcols. unfold rebuild_batch. destruct (rebuild_columns_spec (num_rows b) cols Hok) as (ds & Hr & Ha).
  rewrite Hr. cbn [mbind res_bind]. rewrite Ha, <- Hcols.
  destruct b as [sch cs rows]. cbn in *. destruct cs as [|c cs]; [done|].
  assert (array_len c = rows) as Hlen by (by apply (batch_ok_column_len _ 0 _ Hb)).
  rewrite try_new_law; rewrite Hlen; done.
Qed.

Lemma download_holds_spec s d b E :
  cuda_stream s = Ok tt → cuda_holds d b → columns b ≠ [] →
  cu_spec (cuda_download s d) E (λ b', b' = b).
Proof.
  intros Hs (Hsch & Hnr & Hb & cb & Hin & Hrows & Hok & Hcols) Hne. unfold cuda_download. rewrite Hs, Hin, Hsch.
  eapply cu_spec_bind_Ok; [done|].
  eapply cu_spec_bind.
  { apply (cu_spec_mapM _ _ _ (λ c b, b = col_bytes c)). intros c _. apply download_column_spec. }
  intros bs Hbs. assert (bs = col_bytes <$> cbt_columns cb) as ->.
  { clear -Hbs. induction Hbs; cbn; [done|]. by f_equal. }
  apply cu_spec_lift. rewrite (rebuild_batch_means b); [done|done|done|by apply Forall_fmap|].
  by rewrite <- list_fmap_compose.
Qed.
End Transfers.
