(* ===== verification/CudaTransfer.v ===== *)
(** * oxidelake-device: buffers and streams of the CUDA backend

    Models the memory operations of
    [src/crates/oxidelake-device/src/cuda/mod.rs]: allocation, memory
    information, streams and the copies between host and device buffers.
    cudarc's [memcpy_htod] and [memcpy_dtoh] copy the whole source slice and
    assert that the destination can hold it.  A copy to the device and back
    gives the bytes that went in, for pageable and for pinned memory. *)

From S2P Require Import Prelude Floats Arrow Core Memory ArrowKernels Kernels Device DeviceCorrect Bytes Columns CudaKernels Cuda.
From S2P Require Import CudaSpec.

Section Transfer.
Context {D : Type} `{!CudaApi D, !Allocator, !CudaDriver}.

(** ** Operations *)

Definition cuda_memory_info : Cu (D := D) MemoryInfo :=
  cu! (free, total) := cu_get drv_mem_info Cuda.driver_error in
  cu_ret (mkMemoryInfo total free true).

Definition cuda_alloc_device (bytes : Z) : Cu (D := D) DeviceBuffer :=
  cu! slice := cu_alloc (Z.to_nat bytes) in
  cu_ret (mkDeviceBuffer Cuda bytes (BufCuda slice)).

Definition cuda_alloc_pinned_host (bytes : Z) : result HostAlloc := pinned_or_pageable bytes (Some cuda_provider).

Definition cuda_create_stream : Cu (D := D) DeviceStream :=
  cu! h := cu_get drv_new_stream Cuda.driver_error in
  cu_ret (mkStream Cuda (StreamCuda h)).

Definition cuda_synchronize (s : DeviceStream) : Cu (D := D) unit :=
  match ds_inner s with
  | StreamCuda h => cu_call (λ d, drv_synchronize d h)
  | _ => cu_lift (Err (cuda_foreign "stream" (ds_backend s)))
  end.

(** [memcpy]: all of [src] to the front of [dst]. *)
Definition memcpy {A} (src dst : list A) : result (list A) :=
  if (length src <=? length dst)%nat then Ok (src ++ drop (length src) dst) else Panic.

Definition cuda_copy_h2d (s : DeviceStream) (src : HostAlloc) (dst : DeviceBuffer) : Cu (D := D) DeviceBuffer :=
  cu! _ := cu_lift (cuda_stream s) in
  if dbuf_len dst <? ha_len src then cu_lift (Err (Execution "copy_h2d: destination too small"))
  else if ha_is_empty src then cu_ret dst
  else
    match dbuf_inner dst with
    | BufCuda device =>
        cu! bytes := cu_lift (match ha_inner src with
                              | InPinned p => Ok (pb_slice p)
                              | InPageable b => ab_as_slice b
                              end) in
        cu! device := cu_lift (memcpy bytes device) in
        cu! _ := cu_call (λ d, drv_htod d (length bytes)) in
        cu_ret (mkDeviceBuffer (dbuf_backend dst) (dbuf_len dst) (BufCuda device))
    | _ => cu_lift (Err (cuda_foreign "buffer" (dbuf_backend dst)))
    end.

Definition cuda_copy_d2h (s : DeviceStream) (src : DeviceBuffer) (dst : HostAlloc) : Cu (D := D) HostAlloc :=
  cu! _ := cu_lift (cuda_stream s) in
  if ha_len dst <? dbuf_len src then cu_lift (Err (Execution "copy_d2h: destination too small"))
  else if dbuf_len src =? 0 then cu_ret dst
  else
    match dbuf_inner src with
    | BufCuda device =>
        cu! out := cu_lift (match ha_inner dst with
                            | InPinned p =>
                                (λ slice, mkHost (ha_class dst) (InPinned (mkPinned slice (pb_len p))))
                                  <$> memcpy device (pb_slice p)
                            | InPageable b =>
                                (λ b, mkHost (ha_class dst) (InPageable b)) <$> ab_write_prefix b device
                            end) in
        cu! _ := cu_call (λ d, drv_dtoh d (length device)) in
        cu_ret out
    | _ => cu_lift (Err (cuda_foreign "buffer" (dbuf_backend src)))
    end.

(** ** Properties *)

(** A sound host buffer and its contents. *)
Definition host_buffer_ok (h : HostAlloc) : Prop :=
  match ha_inner h with
  | InPageable b => aligned_ok b
  | InPinned p => 0 ≤ pb_len p ∧ Z.of_nat (length (pb_slice p)) = Z.max (pb_len p) 1
  end.
Definition host_bytes (h : HostAlloc) : list Z :=
  match ha_inner h with
  | InPageable b => take (Z.to_nat (ab_len b)) (ab_bytes b)
  | InPinned p => take (Z.to_nat (pb_len p)) (pb_slice p)
  end.

(** A device buffer of the backend and its contents. *)
Definition device_buffer_ok (d : DeviceBuffer) (bytes : list Z) : Prop :=
  ∃ slice, dbuf_inner d = BufCuda slice ∧ 0 ≤ dbuf_len d ∧
    Z.of_nat (length slice) = Z.max (dbuf_len d) 1 ∧ bytes = take (Z.to_nat (dbuf_len d)) slice.

Lemma host_bytes_length h : host_buffer_ok h → Z.of_nat (length (host_bytes h)) = ha_len h.
Proof.
  unfold host_buffer_ok, host_bytes, ha_len. destruct (ha_inner h) as [b|p]; rewrite length_take.
  - intros [Hl _ _ _ Hb]. lia.
  - lia.
Qed.

Lemma alloc_device_spec bytes E :
  0 ≤ bytes → cu_spec (cuda_alloc_device bytes) E (λ d, device_buffer_ok d (replicate (Z.to_nat bytes) 0) ∧ dbuf_len d = bytes).
Proof.
  intros Hb. eapply cu_spec_bind; [apply cu_spec_alloc|]. intros ? ->. apply cu_spec_ret. split; [|done].
  eexists. split_and!; [done|done|cbn; rewrite length_replicate; lia|]. cbn. rewrite take_replicate. f_equal. lia.
Qed.

Lemma memcpy_Ok {A} (src dst : list A) : (length src ≤ length dst)%nat → memcpy src dst = Ok (src ++ drop (length src) dst).
Proof. intros Hl. unfold memcpy. by rewrite (proj2 (Nat.leb_le _ _) Hl). Qed.

Lemma copy_h2d_spec s src dst old E :
  cuda_stream s = Ok tt → host_buffer_ok src → device_buffer_ok dst old → ha_len src ≤ dbuf_len dst →
  cu_spec (cuda_copy_h2d s src dst) E (λ d, dbuf_len d = dbuf_len dst ∧
    device_buffer_ok d (host_bytes src ++ drop (length (host_bytes src)) old)).
Proof.
  intros Hs Hsrc (slice & Hin & Hl0 & Hsl & ->) Hle. pose proof (host_bytes_length src Hsrc) as Hlen.
  unfold cuda_copy_h2d. eapply cu_spec_bind_Ok; [exact Hs|]. rewrite (proj2 (Z.ltb_ge _ _)) by lia.
  unfold ha_is_empty. destruct (Z.eqb_spec (ha_len src) 0) as [Hz|Hz].
  - apply cu_spec_ret. split; [done|]. exists slice. split_and!; [done..|].
    assert (host_bytes src = []) as -> by (apply length_zero_iff_nil; lia). done.
  - rewrite Hin. assert ((match ha_inner src with InPinned p => Ok (pb_slice p) | InPageable b => ab_as_slice b end)
      = Ok (host_bytes src)) as ->.
    { unfold host_buffer_ok, host_bytes, ha_len in *. destruct (ha_inner src) as [b|p].
      - destruct (ab_as_slice_ok b Hsrc) as (cur & Hc & _). rewrite Hc. unfold ab_as_slice in Hc.
        destruct (_ <=? _); [|done]. by injection Hc as <-.
      - rewrite take_ge by lia. done. }
    eapply cu_spec_bind_Ok; [done|]. eapply cu_spec_bind_Ok; [apply memcpy_Ok; lia|].
    eapply cu_spec_bind; [apply cu_spec_call; intros [d Hd] (_ & Hh & _); apply Hd, Hh|]. intros _ _.
    apply cu_spec_ret. split; [done|]. eexists. split_and!; [done|done| |]; cbn [dbuf_len].
    + rewrite length_app, length_drop. lia.
    + rewrite take_app, (take_ge (host_bytes src)) by lia. f_equal. rewrite skipn_firstn_comm. done.
Qed.

Lemma copy_d2h_spec s src dst bytes E :
  cuda_stream s = Ok tt → device_buffer_ok src bytes → host_buffer_ok dst → dbuf_len src ≤ ha_len dst →
  cu_spec (cuda_copy_d2h s src dst) E (λ h, host_buffer_ok h ∧ host_bytes h = bytes ++ drop (length bytes) (host_bytes dst)).
Proof.
  intros Hs (slice & Hin & Hl0 & Hsl & ->) Hdst Hle. pose proof (host_bytes_length dst Hdst) as Hlen.
  unfold cuda_copy_d2h. eapply cu_spec_bind_Ok; [exact Hs|]. rewrite (proj2 (Z.ltb_ge _ _)) by lia.
  destruct (Z.eqb_spec (dbuf_len src) 0) as [Hz|Hz].
  - apply cu_spec_ret. split; [done|]. by rewrite Hz, take_0.
  - rewrite Hin, (take_ge slice) by lia. set (out := match ha_inner dst with InPageable _ => _ | InPinned _ => _ end).
    assert (∃ h, out = Ok h ∧ host_buffer_ok h ∧ host_bytes h = slice ++ drop (length slice) (host_bytes dst)) as (h & Hout & Hok).
    { unfold out, host_buffer_ok, host_bytes, ha_len in *. destruct (ha_inner dst) as [b|p].
      - destruct (ab_as_slice_ok b Hdst) as (cur & Hc & Hcl).
        destruct (ab_write_prefix_ok b cur slice Hdst Hc ltac:(lia)) as (b' & -> & Hb' & Hbl & Hbs).
        eexists. split; [done|]. split; [done|]. cbn [ha_inner]. unfold ab_as_slice in Hbs, Hc.
        destruct (ab_len b' <=? _); [|done]. destruct (ab_len b <=? _); [|done]. by simplify_eq.
      - rewrite memcpy_Ok by lia. eexists. split; [done|]. cbn. rewrite length_app, length_drop. split; [lia|].
        rewrite take_app, (take_ge slice) by lia. f_equal. rewrite skipn_firstn_comm. done. }
    rewrite Hout. eapply cu_spec_bind_Ok; [done|].
    eapply cu_spec_bind; [apply cu_spec_call; intros [d Hd] (_ & _ & Hh & _); apply Hd, Hh|]. intros _ _. by apply cu_spec_ret.
Qed.

(** What is copied to the device and back is what was there, pageable or
    pinned, followed by what the larger buffers held. *)
Theorem cuda_copy_roundtrip s src dst back old :
  cuda_stream s = Ok tt → host_buffer_ok src → device_buffer_ok dst old → host_buffer_ok back →
  ha_len src ≤ dbuf_len dst → dbuf_len dst ≤ ha_len back →
  cu_spec (cu! d := cuda_copy_h2d s src dst in cuda_copy_d2h s d back) (λ _, False)
    (λ h, host_bytes h = host_bytes src ++ drop (length (host_bytes src)) old ++ drop (length old) (host_bytes back)).
Proof.
  intros Hs Hsrc Hdst Hback Hle1 Hle2. eapply cu_spec_bind; [by eapply copy_h2d_spec|].
  intros d [Hdl Hd]. eapply cu_spec_weaken; [apply (copy_d2h_spec s d back _ (λ _, False) Hs Hd Hback); lia|done|].
  intros h [_ ->]. rewrite <- app_assoc. f_equal. f_equal. f_equal.
  destruct Hdst as (slice & _ & _ & Hsl & ->). pose proof (host_bytes_length src Hsrc).
  rewrite length_app, length_drop, length_take. lia.
Qed.
End Transfer.
