(* ===== verification/CudaGather.v ===== *)
(** * Gathers on the device

    [gather_column] of [Cuda]: whatever the order of the threads, the output
    column holds the rows of the input column at the given indices, values and
    validity, copied in words of eight, four or one byte. *)

From S2P Require Import Prelude Floats Arrow Core Memory ArrowKernels Kernels FilterCorrect Device Bytes Columns.
From S2P Require Import ColumnsCorrect CudaKernels CudaLaunch Cuda CudaScan CudaSpec.

#[local] Arguments bitmap_len : simpl never.
#[local] Arguments width : simpl never.

(** ** Rows of equal length *)

Lemma written_rows {A} (g : nat → list A) n w t :
  (∀ j, (j < n)%nat → length (g j) = w) →
  written (λ t, if (n <=? t)%nat then [] else g t) t = (Nat.min t n * w)%nat.
Proof.
  intros Hg. induction t as [|t IH]; [done|]. rewrite written_S, IH. cbn beta.
  destruct (Nat.leb_spec n t) as [|Ht]; cbn [length]; [f_equal; lia|]. rewrite (Hg t Ht). nia.
Qed.

Lemma concat_rows {A} (g : nat → list A) n threads :
  (n ≤ threads)%nat →
  concat ((λ t, if (n <=? t)%nat then [] else g t) <$> seq 0 threads) = concat (g <$> seq 0 n).
Proof.
  intros Hn. replace threads with (n + (threads - n))%nat by lia. rewrite seq_app, fmap_app, concat_app.
  rewrite <- (app_nil_r (concat (g <$> seq 0 n))). f_equal.
  - f_equal. apply list_fmap_ext. intros k t [-> Ht]%lookup_seq. cbn. by destruct (Nat.leb_spec n k); [lia|].
  - assert (∀ l, Forall (λ t, n ≤ t)%nat l → concat ((λ t, if (n <=? t)%nat then [] else g t) <$> l) = []) as Hout.
    { induction 1 as [|t l Ht _ IH]; [done|]. cbn. by destruct (Nat.leb_spec n t); [|lia]. }
    apply Hout, Forall_forall. intros t Ht%elem_of_seq. lia.
Qed.

Lemma launch_rows {A} (g : nat → list A) n w threads turns body (m0 : list A) :
  (n ≤ threads)%nat → (n * w ≤ length m0)%nat → (∀ j, (j < n)%nat → length (g j) = w) →
  (∀ t m, (t < threads)%nat → length m = length m0 →
     body t m = if (n <=? t)%nat then Some m else store_range m (t * w) (g t)) →
  launch threads turns body m0 = Some (concat (g <$> seq 0 n) ++ drop (n * w) m0).
Proof.
  intros Hn Hm Hg Hb. rewrite (launch_concat (λ t, if (n <=? t)%nat then [] else g t)).
  - rewrite concat_rows, (written_rows g n w) by done. do 3 f_equal. lia.
  - rewrite (written_rows g n w) by done. nia.
  - intros t m Ht Hlen. rewrite Hb, (written_rows g n w) by done. destruct (Nat.leb_spec n t) as [Hge|Hlt].
    + rewrite store_range_nil by nia. done.
    + by rewrite Nat.min_l by lia.
Qed.

Lemma cell_concat {A} (g : nat → list A) n w j rest :
  (∀ j, (j < n)%nat → length (g j) = w) → (j < n)%nat →
  take w (drop (w * j) (concat (g <$> seq 0 n) ++ rest)) = g j.
Proof.
  intros Hg Hj. assert (∀ k, (k ≤ n)%nat → length (concat (g <$> seq 0 k)) = (k * w)%nat) as Hlen.
  { induction k as [|k IH]; intros Hk; [done|].
    rewrite seq_S, fmap_app, concat_app, length_app, IH by lia. cbn. rewrite app_nil_r, Hg by lia. lia. }
  replace n with (j + (1 + (n - j - 1)))%nat at 1 by lia.
  rewrite !seq_app, !fmap_app, !concat_app. cbn. rewrite app_nil_r, <- !app_assoc.
  rewrite drop_app_ge, (Hlen j) by (rewrite ?Hlen; lia). replace (w * j - j * w)%nat with 0%nat by lia.
  rewrite drop_0, take_app_le by (rewrite Hg; lia). rewrite take_ge by (rewrite Hg; lia). done.
Qed.

(** ** Copying words *)

Lemma load_range_Some {A} (l : list A) i w :
  (i + w ≤ length l)%nat → load_range l i w = Some (take w (drop i l)).
Proof. intros Hl. unfold load_range. by rewrite (proj2 (Nat.leb_le _ _) Hl). Qed.

Lemma take_drop_unit {A} (l : list A) s k unit :
  take (S k * unit) (drop s l) = take (k * unit) (drop s l) ++ take unit (drop (s + k * unit) l).
Proof.
  replace (S k * unit)%nat with (k * unit + unit)%nat by lia.
  rewrite <- (take_drop (k * unit) (take (k * unit + unit) (drop s l))), take_take, Nat.min_l by lia.
  f_equal. rewrite List.skipn_firstn_comm, drop_drop. f_equal. lia.
Qed.

Lemma copy_words_spec src s d unit count dst :
  (s + count * unit ≤ length src)%nat → (d + count * unit ≤ length dst)%nat →
  copy_words src s d unit count dst = store_range dst d (take (count * unit) (drop s src)).
Proof.
  intros Hs Hd. unfold copy_words. induction count as [|k IH].
  { change (0 * unit)%nat with 0%nat. rewrite take_0, store_range_nil by lia. done. }
  assert (length (take (k * unit) (drop s src)) = k * unit)%nat as Hlen by (rewrite length_take, length_drop; nia).
  rewrite seq_S, foldl_snoc, IH, take_drop_unit by lia. cbn [Nat.add].
  rewrite <- store_range_app by (rewrite Hlen, length_take, length_drop; lia). rewrite Hlen.
  rewrite load_range_Some by lia. done.
Qed.

Lemma copy_unit_divides w : (w / copy_unit w * copy_unit w = w)%nat.
Proof.
  unfold copy_unit. destruct (Nat.eqb_spec (w mod 8) 0).
  { pose proof (Nat.div_mod_eq w 8). lia. }
  destruct (Nat.eqb_spec (w mod 4) 0).
  { pose proof (Nat.div_mod_eq w 4). lia. }
  rewrite Nat.div_1_r. lia.
Qed.

Lemma bitmap_index n i : (i < n)%nat → (i / 8 < bitmap_len n)%nat.
Proof.
  intros Hi. unfold bitmap_len. apply Nat.Div0.div_lt_upper_bound.
  pose proof (bitmap_len_enough n) as Hn. unfold bitmap_len in Hn. lia.
Qed.

(** ** Values *)

Lemma cell_cell (bytes : list Z) k i j :
  (j < k)%nat → cell 4 (cell (4 * k) bytes i) j = cell 4 bytes (i * k + j).
Proof.
  intros Hj. unfold cell. rewrite List.skipn_firstn_comm, drop_drop, take_take. f_equal; [lia|]. f_equal. lia.
Qed.

(** A row is the bytes of its cell. *)
Lemma cell_value_cell dt bytes i :
  resident dt → cell_value dt bytes i = cell_value dt (cell (width dt) bytes i) 0.
Proof.
  intros Hr. assert (∀ w, cell w (cell w bytes i) 0 = cell w bytes i) as Hc.
  { intros w. unfold cell. rewrite Nat.mul_0_r, drop_0, take_take. f_equal. lia. }
  destruct dt as [| | | | |item size|]; cbn in Hr; try done.
  - unfold cell_value, decode_value. change (width Int64) with 8%nat. by rewrite Hc.
  - unfold cell_value, decode_value. change (width Float64) with 8%nat. by rewrite Hc.
  - unfold cell_value, decode_value. change (width Float32) with 4%nat. by rewrite Hc.
  - unfold cell_value. rewrite width_vector by lia. f_equal. apply list_fmap_ext.
    intros k j [-> Hj]%lookup_seq. cbn [Nat.add]. by rewrite cell_cell by lia.
Qed.

Lemma cell_prefix {A} (l : list A) n w i :
  (i < n)%nat → take w (drop (w * i) (take (n * w) l)) = take w (drop (w * i) l).
Proof. intros Hi. rewrite List.skipn_firstn_comm, take_take. f_equal. nia. Qed.

Lemma is_valid_bit n bits i :
  (bitmap_len n ≤ length bits)%nat → (i < n)%nat → oxide_is_valid (Some bits) i = Some (bit_at bits i).
Proof.
  intros Hb Hi. unfold oxide_is_valid, bit_at. pose proof (bitmap_index n i Hi).
  destruct (lookup_lt_is_Some_2 bits (i / 8)%nat ltac:(lia)) as [b ->]. done.
Qed.

Section Gather.
Context (indices : list Z) (n total : nat).
Hypothesis indices_len : (total ≤ length indices)%nat.
Hypothesis indices_lt : ∀ j i, (j < total)%nat → indices !! j = Some i → 0 ≤ i < Z.of_nat n.

(** The row that output row [j] comes from. *)
Definition source (j : nat) : nat := Z.to_nat (default 0 (indices !! j)).

Lemma source_lookup j : (j < total)%nat → indices !! j = Some (Z.of_nat (source j)) ∧ (source j < n)%nat.
Proof.
  intros Hj. unfold source. destruct (lookup_lt_is_Some_2 indices j ltac:(lia)) as [i Hi]. rewrite Hi.
  pose proof (indices_lt j i Hj Hi). cbn. split; [f_equal|]; lia.
Qed.

(** ** Validity *)

Section Validity.
Context (bits : list Z).
Hypothesis bits_len : (bitmap_len n ≤ length bits)%nat.

(** The bit that output bit [j] is. *)
Definition out_bit (byte k : nat) : bool :=
  (byte * 8 + k <? total)%nat && bit_at bits (source (byte * 8 + k)).

Lemma gather_bits byte k :
  (k ≤ 8)%nat →
  ∃ out, foldl (λ (o : option Z) bit, o ≫= λ o, gather_bit bits indices total byte o bit) (Some 0) (seq 0 k)
         = Some out ∧
    ∀ j, (j < 8)%nat → Z.testbit out (Z.of_nat j) = (j <? k)%nat && out_bit byte j.
Proof.
  induction k as [|k IH]; intros Hk.
  { exists 0. split; [done|]. intros j _. by rewrite Z.testbit_0_l. }
  destruct IH as (out & Hf & Hout); [lia|]. rewrite seq_S, foldl_snoc, Hf. cbn [mbind option_bind Nat.add].
  unfold gather_bit. unfold out_bit in *. destruct (Nat.leb_spec total (byte * 8 + k)) as [Hge|Hlt].
  - exists out. split; [done|]. intros j Hj. rewrite Hout by done.
    destruct (Nat.ltb_spec j k), (Nat.ltb_spec j (S k)); try done; [lia|].
    replace j with k by lia. by destruct (Nat.ltb_spec (byte * 8 + k) total); [lia|].
  - destruct (source_lookup (byte * 8 + k) Hlt) as [-> Hs]. cbn [mbind option_bind].
    rewrite Nat2Z.id, (is_valid_bit n) by done. cbn [mbind option_bind].
    eexists. split; [done|]. intros j Hj.
    assert (∀ (v : bool), Z.testbit (if v then Z.lor out (Z.shiftl 1 (Z.of_nat k)) else out) (Z.of_nat j)
      = Z.testbit out (Z.of_nat j) || (v && (j =? k)%nat)) as Hor.
    { intros [|]; [|by rewrite orb_false_r]. rewrite Z.lor_spec, Z.shiftl_1_l, Z.pow2_bits_eqb by lia. f_equal.
      cbn. destruct (Nat.eqb_spec j k) as [->|]; [apply Z.eqb_refl|]. apply Z.eqb_neq. lia. }
    rewrite Hor, Hout by done. destruct (Nat.eqb_spec j k) as [->|Hne].
    + destruct (Nat.ltb_spec k k); [lia|]. destruct (Nat.ltb_spec k (S k)); [|lia].
      destruct (Nat.ltb_spec (byte * 8 + k) total); [|lia]. cbn. by rewrite andb_true_r.
    + rewrite andb_false_r, orb_false_r. by destruct (Nat.ltb_spec j k), (Nat.ltb_spec j (S k)); try lia.
Qed.

Lemma gather_validity_launch threads turns dst :
  (bitmap_len total ≤ threads)%nat → (bitmap_len total ≤ length dst)%nat → Z.of_nat total + 7 < U32 →
  ∃ out, launch threads turns (oxide_gather_validity bits indices total) dst = Some out ∧
    (bitmap_len total ≤ length out)%nat ∧
    ∀ j, (j < total)%nat → bit_at out j = bit_at bits (source j).
Proof.
  intros Ht Hd Hu.
  set (byte_of byte := default 0 (foldl (λ (o : option Z) bit, o ≫= λ o, gather_bit bits indices total byte o bit)
                                        (Some 0) (seq 0 8))).
  eexists. split; [apply (launch_slots byte_of (bitmap_len total)); [done|done|]|].
  - intros t m _ _. unfold oxide_gather_validity, wrap32. rewrite Z.mod_small by lia.
    assert ((Z.of_nat total + 7) / 8 = Z.of_nat (bitmap_len total)) as ->.
    { unfold bitmap_len. rewrite Nat2Z.inj_div. f_equal; lia. }
    destruct (Z.leb_spec (Z.of_nat (bitmap_len total)) (Z.of_nat t)), (Nat.leb_spec (bitmap_len total) t); try lia; [done|].
    destruct (gather_bits t 8 ltac:(lia)) as (out & Hout & _). unfold byte_of. rewrite Hout. done.
  - split; [rewrite length_app, length_fmap, length_seq; lia|]. intros j Hj.
    pose proof (bitmap_index total j Hj) as Hb. unfold bit_at at 1.
    rewrite lookup_app_l by (rewrite length_fmap, length_seq; lia).
    rewrite list_lookup_fmap, lookup_seq_lt by done. cbn [fmap option_fmap option_map Nat.add].
    destruct (gather_bits (j / 8) 8 ltac:(lia)) as (out & Hout & Hbits). unfold byte_of. rewrite Hout.
    cbn [default from_option id].
    pose proof (Nat.mod_upper_bound j 8 ltac:(lia)). pose proof (Nat.div_mod_eq j 8).
    rewrite Hbits by done. destruct (Nat.ltb_spec (j mod 8) 8); [|lia]. unfold out_bit.
    replace (j / 8 * 8 + j mod 8)%nat with j by lia. by destruct (Nat.ltb_spec j total); [|lia].
Qed.
End Validity.

(** ** Values of the rows *)

Context (src : list Z) (w : nat).
Hypothesis src_len : (n * w ≤ length src)%nat.

Lemma gather_fixed_launch threads turns dst :
  (total ≤ threads)%nat → (total * w ≤ length dst)%nat →
  launch threads turns (oxide_gather_fixed src w indices total) dst
  = Some (concat ((λ j, cell w src (source j)) <$> seq 0 total) ++ drop (total * w) dst).
Proof.
  intros Ht Hd. assert (∀ j, (j < total)%nat → length (cell w src (source j)) = w) as Hlen.
  { intros j Hj. destruct (source_lookup j Hj). unfold cell. rewrite length_take, length_drop. nia. }
  apply launch_rows; [done..|]. intros t m _ Hm. unfold oxide_gather_fixed.
  destruct (Nat.leb_spec total t) as [|Hlt]; [done|]. destruct (source_lookup t Hlt) as [-> Hs].
  cbn [mbind option_bind]. rewrite Nat2Z.id.
  rewrite copy_words_spec; [|rewrite copy_unit_divides; nia|rewrite copy_unit_divides; nia].
  rewrite copy_unit_divides. unfold cell. by rewrite (Nat.mul_comm w).
Qed.
End Gather.

(** ** A column *)

Lemma u32_len_small n what : Z.of_nat n < U32 → u32_len n what = Ok n.
Proof. intros Hn. unfold u32_len, u32_max. by destruct (Z.leb_spec (Z.of_nat n) (U32 - 1)); [|lia]. Qed.

(** Rows of at least one byte and at most [u32::MAX]. *)
Definition gatherable (dt : DataType) : Prop :=
  match dt with FixedSizeList _ size => 0 < size ∧ size * 4 ≤ u32_max | _ => True end.

Lemma row_width_gatherable dt :
  resident dt → gatherable dt →
  row_width dt = Ok (row_bytes dt) ∧ u32_len (width dt) "row width" = Ok (width dt) ∧
  default 0 (vector_dimension dt) = child_items dt 1.
Proof.
  intros Hr Hg. unfold u32_len, width.
  destruct dt as [| | | | |item size|]; cbn in Hr, Hg; try done.
  destruct Hr as [Hi Hs], Hg as [Hg0 Hg1]. unfold row_width, vector_dimension, primitive_width.
  rewrite bool_decide_eq_true_2 by done. destruct (Z.ltb_spec 0 size); [|lia]. cbn.
  rewrite Z2Nat.id by lia. split_and!; [|by rewrite (proj2 (Z.leb_le _ _) Hg1)|lia].
  by rewrite wmul64_exact by lia.
Qed.

Lemma col_ok_prefix n c :
  col_ok n c → (n * width (cc_type c) ≤ length (cc_values c))%nat ∧ cc_len c = n.
Proof.
  intros (Hl & _ & Hv & _). cbn in Hl, Hv. rewrite length_take in Hv. split; lia.
Qed.

Lemma col_cell n c i :
  col_ok n c → (i < n)%nat →
  cell (width (cc_type c)) (cc_values c) i = cell (width (cc_type c)) (cb_values (col_bytes c)) i.
Proof.
  intros Hok Hi. destruct (col_ok_prefix n c Hok) as [Hlen _]. pose proof Hok as (_ & _ & Hv & _).
  unfold col_bytes in Hv |- *. cbn [cb_values cb_type] in Hv |- *. unfold cell. rewrite length_take in Hv.
  replace (take (cc_values_len c) (cc_values c)) with (take (n * width (cc_type c)) (cc_values c)).
  - by rewrite cell_prefix.
  - destruct (decide (cc_values_len c ≤ length (cc_values c))%nat); [f_equal; lia|]. rewrite !take_ge; [done|lia..].
Qed.

Lemma col_bits n c bits :
  col_ok n c → cc_validity c = Some bits →
  (bitmap_len n ≤ length bits)%nat ∧
  ∀ i, (i < n)%nat → bit_at bits i = row_valid (cb_validity (col_bytes c)) i.
Proof.
  intros Hok Hb. destruct (col_ok_prefix n c Hok) as [_ Hn]. destruct Hok as (_ & _ & _ & Hv & _).
  cbn in Hv. rewrite Hb, Hn in Hv. specialize (Hv _ eq_refl). rewrite length_take in Hv.
  split; [lia|]. intros i Hi. cbn. rewrite Hb, Hn. cbn. unfold bit_at.
  by rewrite lookup_take_lt by by apply bitmap_index.
Qed.

Lemma is_valid_col n c i :
  col_ok n c → (i < n)%nat → oxide_is_valid (cc_validity c) i = Some (row_valid (cb_validity (col_bytes c)) i).
Proof.
  intros Hok Hi. destruct (cc_validity c) as [bits|] eqn:Hb; [|cbn; by rewrite Hb].
  destruct (col_bits n c bits Hok Hb) as [Hlen Hbit]. rewrite (is_valid_bit n bits i Hlen Hi).
  by rewrite Hbit.
Qed.

Section GatherColumn.
Context {D : Type} `{!CudaApi D} (drv_ok : no_driver_panic (D := D)).

(** What a gathered column holds. *)
Definition gathered (c : CudaColumn) (indices : list Z) (total : nat) (c' : CudaColumn) : Prop :=
  col_ok total c' ∧ cc_type c' = cc_type c ∧
  ∀ j, (j < total)%nat → cb_cell (col_bytes c') j = cb_cell (col_bytes c) (source indices j).

Lemma grid_covers n : (n ≤ grid_for n)%nat.
Proof.
  unfold grid_for, grid_blocks. pose proof (Nat.div_mod_eq (n + (BLOCK - 1)) BLOCK) as Hd.
  pose proof (Nat.mod_upper_bound (n + (BLOCK - 1)) BLOCK ltac:(done)). unfold BLOCK in *. lia.
Qed.

Context (n : nat) (c : CudaColumn) (indices : list Z) (total : nat).
Hypothesis c_ok : col_ok n c.
Hypothesis c_gatherable : gatherable (cc_type c).
Hypothesis enough : (total ≤ length indices)%nat.
Hypothesis in_rows : ∀ j i, (j < total)%nat → indices !! j = Some i → 0 ≤ i < Z.of_nat n.
Hypothesis total_u32 : Z.of_nat total + 7 < U32.

Lemma bitmap_u32_len what : u32_len (bitmap_len total) what = Ok (bitmap_len total).
Proof.
  apply u32_len_small. pose proof (Nat.Div0.div_le_upper_bound (total + 7) 8 (total + 7) ltac:(lia)).
  unfold bitmap_len. lia.
Qed.

Let w := width (cc_type c).

Lemma gather_values_spec E :
  cu_spec (D := D)
    (if (0 <? total)%nat
     then filter_kernel "oxide_gather_fixed" (grid_for total) (λ turns,
            launch (grid_for total) turns (oxide_gather_fixed (cc_values c) w indices total)
              (replicate (Nat.max (total * w) 1) 0))
     else cu_ret (replicate (Nat.max (total * w) 1) 0)) E
    (λ values, (total * w ≤ length values)%nat ∧
       ∀ j, (j < total)%nat → cell w values j = cell w (cc_values c) (source indices j)).
Proof.
  destruct (col_ok_prefix n c c_ok) as [Hsrc _].
  assert (∀ j, (j < total)%nat → length (cell w (cc_values c) (source indices j)) = w) as Hlen.
  { intros j Hj. destruct (source_lookup _ n total enough in_rows j Hj). unfold cell, w.
    rewrite length_take, length_drop. nia. }
  destruct (Nat.ltb_spec 0 total) as [H0|H0].
  2: { apply cu_spec_ret. split; [rewrite length_replicate; lia|]. intros j Hj. lia. }
  apply cu_spec_launch; [done|]. intros turns. eexists.
  split; [apply (gather_fixed_launch indices n total enough in_rows); [done|apply grid_covers|rewrite length_replicate; lia]|]. split.
  - pose proof (written_rows (λ j, cell w (cc_values c) (source indices j)) total w total Hlen) as Hw.
    unfold written in Hw. rewrite concat_rows in Hw by done. rewrite length_app, Hw. lia.
  - intros j Hj. unfold cell at 1. by rewrite (cell_concat (λ j, cell w (cc_values c) (source indices j)) total w).
Qed.

(** The validity of the output. *)
Definition validity_gathered (v : option (list Z)) : Prop :=
  match cc_validity c with
  | None => v = None
  | Some bits => ∃ out, v = Some out ∧ (bitmap_len total ≤ length out)%nat ∧
      ∀ j, (j < total)%nat → bit_at out j = bit_at bits (source indices j)
  end.

Lemma gather_validity_spec bits E :
  cc_validity c = Some bits →
  cu_spec (D := D)
    (if (0 <? total)%nat
     then cu_bind (cu_lift (u32_len (bitmap_len total) "validity bytes")) (λ threads,
            filter_kernel "oxide_gather_validity" (grid_for threads) (λ turns,
              launch (grid_for threads) turns (oxide_gather_validity bits indices total)
                (replicate (Nat.max (bitmap_len total) 1) 0)))
     else cu_ret (replicate (Nat.max (bitmap_len total) 1) 0)) E
    (λ out, (bitmap_len total ≤ length out)%nat ∧
       ∀ j, (j < total)%nat → bit_at out j = bit_at bits (source indices j)).
Proof.
  intros Hb. destruct (col_bits n c bits c_ok Hb) as [Hbl _].
  destruct (Nat.ltb_spec 0 total) as [H0|H0].
  - eapply cu_spec_bind_Ok; [apply bitmap_u32_len|]. apply cu_spec_launch; [done|]. intros turns.
    destruct (gather_validity_launch indices n total enough in_rows bits Hbl (grid_for (bitmap_len total)) turns
      (replicate (Nat.max (bitmap_len total) 1) 0)) as (out & Hl & Hout); [apply grid_covers| |done|by exists out].
    rewrite length_replicate. lia.
  - apply cu_spec_ret. split; [|intros; lia]. rewrite length_replicate. lia.
Qed.

Lemma gathered_means values v :
  Z.of_nat (total * w) < 2 ^ 63 → (total * w ≤ length values)%nat →
  (∀ j, (j < total)%nat → cell w values j = cell w (cc_values c) (source indices j)) → validity_gathered v →
  gathered c indices total
    (mkCudaColumn (cc_type c) total (total * Z.to_nat (default 0 (vector_dimension (cc_type c))))
       (total * w) values v).
Proof.
  intros Hsize Hvl Hvc Hv. pose proof c_ok as (_ & Hres & _). cbn in Hres.
  destruct (row_width_gatherable _ Hres c_gatherable) as (_ & _ & Hdim).
  set (c' := mkCudaColumn _ _ _ _ _ _).
  assert (col_ok total c') as Hok'.
  { unfold col_ok, cb_ok, c', col_bytes. cbn [cb_len cb_type cb_values cb_validity cb_child_len cc_len cc_type
      cc_values_len cc_values cc_validity cc_child_len]. split_and!; [done|done| | | |done|unfold U32 in total_u32; lia].
    - rewrite length_take. fold w. lia.
    - intros b' Hb'. unfold validity_gathered in Hv. destruct (cc_validity c); [|by subst v].
      destruct Hv as (out & -> & Hol & _). injection Hb' as <-. rewrite length_take. lia.
    - rewrite Hdim. unfold child_items. destruct (cc_type c); cbn in Hres; try done; rewrite Nat2Z.inj_mul, Z2Nat.id; lia. }
  split; [done|]. split; [done|]. intros j Hj.
  destruct (source_lookup indices n total enough in_rows j Hj) as [_ Hsj].
  assert (row_valid (cb_validity (col_bytes c')) j = row_valid (cb_validity (col_bytes c)) (source indices j)) as Hvalid.
  { unfold validity_gathered in Hv. destruct (cc_validity c) as [bits|] eqn:Hb.
    - destruct Hv as (out & -> & Hol & Hbit). destruct (col_bits n c bits c_ok Hb) as [_ <-]; [|done].
      destruct (col_bits total c' out Hok' eq_refl) as [_ <-]; [|done]. by apply Hbit.
    - subst v. unfold col_bytes. by rewrite Hb. }
  unfold cb_cell. rewrite Hvalid.
  destruct (row_valid (cb_validity (col_bytes c)) (source indices j)); [|done]. f_equal.
  rewrite (cell_value_cell _ (cb_values (col_bytes c'))), (cell_value_cell _ (cb_values (col_bytes c))) by done.
  change (cb_type (col_bytes c')) with (cc_type c). change (cb_type (col_bytes c)) with (cc_type c). f_equal.
  rewrite <- (col_cell n c) by done. change (width (cc_type c)) with (width (cc_type c')).
  rewrite <- (col_cell total c') by done. by apply Hvc.
Qed.

Lemma gather_column_spec E :
  Z.of_nat (total * w) < 2 ^ 63 →
  cu_spec (D := D) (gather_column c indices total) E (gathered c indices total).
Proof.
  intros Hsize. pose proof c_ok as (_ & Hres & _). cbn in Hres.
  destruct (row_width_gatherable _ Hres c_gatherable) as (Hrw & Hwu & _).
  unfold gather_column. eapply cu_spec_bind_Ok; [exact Hrw|]. eapply cu_spec_bind_Ok; [exact Hwu|].
  eapply cu_spec_bind_Ok; [apply u32_len_small; lia|]. eapply cu_spec_bind; [apply cu_spec_alloc|]. intros values0 ->.
  eapply cu_spec_bind; [apply gather_values_spec|]. intros values [Hvl Hvc].
  eapply (cu_spec_bind _ _ _ validity_gathered).
  { unfold validity_gathered. destruct (cc_validity c) as [bits|] eqn:Hb; [|by apply cu_spec_ret].
    eapply cu_spec_bind; [apply cu_spec_alloc|]. intros dst0 ->.
    eapply cu_spec_bind; [by apply gather_validity_spec|]. intros out Hout. apply cu_spec_ret. by exists out. }
  intros v Hv. apply cu_spec_ret. by apply gathered_means.
Qed.
End GatherColumn.
