(* ===== verification/FloatFacts.v ===== *)
(** * Facts about floats

    Lemmas on [Floats]: the order that [f32::total_cmp] sorts by, which float a
    rational rounds to, which operations are exact, and that distances are
    symmetric.  They serve the kernels on every device, the demo table and the
    numbers of the dashboard. *)

From Stdlib Require Import SpecFloat.
From S2P Require Import Prelude Floats Arrow Core ArrowKernels Kernels.

(** ** IEEE order and the total order of [f64]

    The reference kernels compare floats by IEEE [totalOrder], device kernels
    by the IEEE comparison operators.  On values that are not NaN the two agree,
    except that the total order tells the two zeros apart. *)

(** The float with sign [s] and magnitude bits [mag]. *)
Definition decode_mag (s : bool) (mag : Z) : spec_float :=
  let e := mag / 2 ^ 52 in
  let m := mag mod 2 ^ 52 in
  if e =? 2047 then (if m =? 0 then S754_infinity s else S754_nan)
  else if e =? 0 then match m with Zpos p => S754_finite s p (-1074) | _ => S754_zero s end
  else match m + 2 ^ 52 with Zpos p => S754_finite s p (e + 2 - 1024 - 53) | _ => S754_nan end.

Definition f64_sign (a : f64) : bool := Z.testbit (f64_bits a) 63.
Definition f64_mag (a : f64) : Z := f64_bits a mod 2 ^ 63.

Lemma f64_sf_mag a : f64_sf a = decode_mag (f64_sign a) (f64_mag a).
Proof.
  unfold f64_sf, sf_decode, decode_mag, f64_sign, f64_mag. change (52 + 11) with 63.
  assert (f64_bits a mod 2 ^ 63 / 2 ^ 52 = Z.shiftr (f64_bits a) 52 mod 2 ^ 11) as ->.
  { rewrite Z.shiftr_div_pow2 by lia. change (2 ^ 63) with (2 ^ 52 * 2 ^ 11).
    rewrite Z.rem_mul_r, Z.mul_comm, Z.div_add by lia. rewrite Z.div_small; [lia|]. apply Z.mod_pos_bound. lia. }
  assert ((f64_bits a mod 2 ^ 63) mod 2 ^ 52 = f64_bits a mod 2 ^ 52) as ->.
  { change (2 ^ 63) with (2 ^ 52 * 2 ^ 11). rewrite Z.rem_mul_r, Z.mul_comm, Z.mod_add by lia. by rewrite Z.mod_mod. }
  reflexivity.
Qed.

(** What a magnitude stands for: the significand and exponent of a finite value
    are those of its bits, so that magnitudes order as the values do. *)
Lemma decode_mag_cases s mag :
  0 ≤ mag < 2 ^ 63 →
  (mag = 0 ∧ decode_mag s mag = S754_zero s) ∨
  (0 < mag < 2047 * 2 ^ 52 ∧ ∃ m e, decode_mag s mag = S754_finite s m e ∧
     mag = (e + 1074) * 2 ^ 52 + Zpos m ∧ 0 ≤ e + 1074 ∧ Zpos m < 2 ^ 53 ∧ (0 < e + 1074 → 2 ^ 52 ≤ Zpos m)) ∨
  (mag = 2047 * 2 ^ 52 ∧ decode_mag s mag = S754_infinity s) ∨
  (2047 * 2 ^ 52 < mag ∧ decode_mag s mag = S754_nan).
Proof.
  intros Hm. unfold decode_mag. pose proof (Z.div_mod mag (2 ^ 52) ltac:(lia)) as Hd.
  pose proof (Z.mod_pos_bound mag (2 ^ 52) ltac:(lia)) as Hr.
  set (e := mag / 2 ^ 52) in *. set (r := mag mod 2 ^ 52) in *.
  assert (0 ≤ e < 2048) as He by (split; [apply Z.div_pos; lia|apply Z.div_lt_upper_bound; lia]).
  destruct (Z.eqb_spec e 2047) as [->|H1].
  { right; right. destruct (Z.eqb_spec r 0) as [H0|H0]; [left|right]; split; (done || lia). }
  destruct (Z.eqb_spec e 0) as [H2|H2].
  - destruct r as [|p|p] eqn:Hrp; [left; split; [lia|done]| |lia]. right; left. split; [lia|].
    exists p, (-1074). split_and!; [done|lia|lia|lia|lia].
  - destruct (r + 2 ^ 52) as [|p|p] eqn:Hrp; [lia| |lia]. right; left. split; [lia|].
    exists p, (e + 2 - 1024 - 53). split_and!; [done|lia|lia|lia|lia].
Qed.

Lemma finite_compare m1 e1 m2 e2 :
  0 ≤ e1 + 1074 → 0 ≤ e2 + 1074 → Zpos m1 < 2 ^ 53 → Zpos m2 < 2 ^ 53 →
  (0 < e1 + 1074 → 2 ^ 52 ≤ Zpos m1) → (0 < e2 + 1074 → 2 ^ 52 ≤ Zpos m2) →
  match e1 ?= e2 with Datatypes.Eq => Pos.compare_cont Datatypes.Eq m1 m2 | c => c end
  = ((e1 + 1074) * 2 ^ 52 + Zpos m1 ?= (e2 + 1074) * 2 ^ 52 + Zpos m2).
Proof.
  intros H1 H2 H3 H4 H5 H6. symmetry. destruct (Z.compare_spec e1 e2) as [->|He|He].
  - change (Pos.compare_cont Datatypes.Eq m1 m2) with (Zpos m1 ?= Zpos m2).
    by rewrite Z.add_compare_mono_l.
  - apply Z.compare_lt_iff. lia.
  - apply Z.compare_gt_iff. lia.
Qed.

(** Values of one sign: magnitudes in order, or reversed. *)
Lemma mag_compare s m1 m2 :
  0 ≤ m1 ≤ 2047 * 2 ^ 52 → 0 ≤ m2 ≤ 2047 * 2 ^ 52 →
  SFcompare (decode_mag s m1) (decode_mag s m2) = Some (if s then m2 ?= m1 else m1 ?= m2).
Proof.
  intros H1 H2.
  destruct (decode_mag_cases s m1) as [[Hm1 ->]|[(Hm1 & p1 & e1 & -> & Hv1 & Ha1 & Hb1 & Hc1)|[[Hm1 ->]|[Hm1 _]]]];
    [lia| | | |lia];
  (destruct (decode_mag_cases s m2) as [[Hm2 ->]|[(Hm2 & p2 & e2 & -> & Hv2 & Ha2 & Hb2 & Hc2)|[[Hm2 ->]|[Hm2 _]]]];
    [lia| | | |lia]); cbn [SFcompare].
  5: { pose proof (finite_compare p1 e1 p2 e2 Ha1 Ha2 Hb1 Hb2 Hc1 Hc2) as Hf. rewrite <- Hv1, <- Hv2 in Hf.
       f_equal. destruct s; [|by rewrite <- Hf; destruct (e1 ?= e2)].
       rewrite (Z.compare_antisym m1 m2), <- Hf. by destruct (e1 ?= e2). }
  all: f_equal; destruct s; symmetry;
    (apply Z.compare_eq_iff || apply Z.compare_lt_iff || apply Z.compare_gt_iff); lia.
Qed.

(** Values of different signs. *)
Lemma sign_compare m1 m2 :
  0 ≤ m1 ≤ 2047 * 2 ^ 52 → 0 ≤ m2 ≤ 2047 * 2 ^ 52 → ¬ (m1 = 0 ∧ m2 = 0) →
  SFcompare (decode_mag true m1) (decode_mag false m2) = Some Datatypes.Lt ∧
  SFcompare (decode_mag false m2) (decode_mag true m1) = Some Datatypes.Gt.
Proof.
  intros H1 H2 H0.
  destruct (decode_mag_cases true m1) as [[Hm1 ->]|[(Hm1 & p1 & e1 & -> & _)|[[Hm1 ->]|[Hm1 _]]]];
    [lia| | | |lia];
  (destruct (decode_mag_cases false m2) as [[Hm2 ->]|[(Hm2 & p2 & e2 & -> & _)|[[Hm2 ->]|[Hm2 _]]]];
    [lia| | | |lia]); try done. lia.
Qed.

Definition f64_is_zero (a : f64) : bool := f64_mag a =? 0.

Lemma f64_not_nan a : f64_is_nan a = false → 0 ≤ f64_mag a ≤ 2047 * 2 ^ 52.
Proof.
  unfold f64_is_nan. rewrite f64_sf_mag.
  pose proof (Z.mod_pos_bound (f64_bits a) (2 ^ 63) ltac:(lia)) as Hr. fold (f64_mag a) in Hr.
  destruct (decode_mag_cases (f64_sign a) (f64_mag a) Hr) as [[Hm ->]|[(Hm & p & e & -> & _)|[[Hm ->]|[Hm ->]]]];
    (done || lia).
Qed.

Lemma total_key_mag a :
  0 ≤ f64_bits a < 2 ^ 64 →
  total_key 52 11 (f64_bits a) = if f64_sign a then - f64_mag a - 1 else f64_mag a.
Proof.
  intros Hb. unfold total_key, f64_sign, f64_mag. change (52 + 11) with 63.
  destruct (Z.testbit (f64_bits a) 63) eqn:Ht; [done|]. symmetry. apply Z.mod_small.
  split; [lia|]. destruct (decide (f64_bits a < 2 ^ 63)); [done|].
  assert (Z.testbit (f64_bits a) 63 = true) as Ht'; [|congruence].
  apply Z.testbit_true; [lia|]. rewrite <- (Z.div_unique (f64_bits a) (2 ^ 63) 1 (f64_bits a - 2 ^ 63)); [done|lia|lia].
Qed.

(** The two orders agree away from NaN and from two zeros. *)
Lemma ieee_total_agree a b :
  0 ≤ f64_bits a < 2 ^ 64 → 0 ≤ f64_bits b < 2 ^ 64 →
  f64_is_nan a = false → f64_is_nan b = false → f64_is_zero a && f64_is_zero b = false →
  SFcompare (f64_sf a) (f64_sf b) = Some (f64_total_cmp a b).
Proof.
  intros Ha Hb Hna%f64_not_nan Hnb%f64_not_nan H0. unfold f64_total_cmp. rewrite !total_key_mag, !f64_sf_mag by done.
  assert (¬ (f64_mag a = 0 ∧ f64_mag b = 0)) as Hz.
  { unfold f64_is_zero in H0. intros [H1 H2]. rewrite H1, H2 in H0. done. }
  destruct (f64_sign a), (f64_sign b).
  - rewrite mag_compare by done. f_equal.
    destruct (Z.compare_spec (f64_mag b) (f64_mag a)), (Z.compare_spec (- f64_mag a - 1) (- f64_mag b - 1)); (done || lia).
  - rewrite (proj1 (sign_compare (f64_mag a) (f64_mag b) Hna Hnb Hz)). f_equal. symmetry. apply Z.compare_lt_iff. lia.
  - rewrite (proj2 (sign_compare (f64_mag b) (f64_mag a) Hnb Hna ltac:(tauto))). f_equal. symmetry.
    apply Z.compare_gt_iff. lia.
  - by rewrite mag_compare.
Qed.

(** ** Float operations stay in their format

    Whatever its operands, a correctly rounded operation gives a significand
    and an exponent of the format, so that the encoded result is a bit pattern
    of the type's width. *)

Lemma digits2_bound p : Zpos p < 2 ^ Zpos (digits2_pos p).
Proof.
  induction p as [p IH|p IH|]; cbn [digits2_pos]; [| |done];
    rewrite Pos2Z.inj_succ, Z.pow_succ_r by done; lia.
Qed.

Section Range.
Context (prec emax : Z).
Hypothesis prec_pos : 0 < prec.
#[local] Abbreviation emin := (emin prec emax).
#[local] Abbreviation fexp := (fexp prec emax).

Definition sf_ok (f : spec_float) : Prop :=
  match f with
  | S754_finite _ m e => Zpos m < 2 ^ prec ∧ emin ≤ e ≤ emax - prec
  | _ => True
  end.

Lemma shr_1_m r : 0 ≤ shr_m r → shr_m (shr_1 r) = shr_m r / 2.
Proof.
  destruct r as [[|[p|p|]|p] r s]; cbn; intros H; try done; [|by rewrite Pos2Z.inj_xO, Z.mul_comm, Z.div_mul].
  rewrite Pos2Z.inj_xI, Z.mul_comm. by rewrite Z.div_add_l.
Qed.

Lemma iter_shr_m n : ∀ r, 0 ≤ shr_m r → shr_m (SpecFloat.iter_pos shr_1 n r) = shr_m r / 2 ^ Zpos n.
Proof.
  assert (∀ m k, 0 ≤ m → 0 ≤ m / 2 ^ Zpos k) as Hpos by (intros; apply Z.div_pos; lia).
  induction n as [n IH|n IH|]; intros r Hr; cbn [SpecFloat.iter_pos]; [| |by apply shr_1_m].
  - assert (0 ≤ shr_m (shr_1 r)) as H1 by (rewrite shr_1_m by done; apply Z.div_pos; lia).
    rewrite IH by (rewrite IH by done; by apply Hpos). rewrite IH, shr_1_m, !Z.div_div by lia. f_equal.
    replace (Zpos n~1) with (1 + (Zpos n + Zpos n)) by lia. rewrite !Z.pow_add_r by lia. ring.
  - rewrite IH by (rewrite IH by done; by apply Hpos). rewrite IH, Z.div_div by lia. f_equal.
    replace (Zpos n~0) with (Zpos n + Zpos n) by lia. by rewrite Z.pow_add_r by lia.
Qed.

Lemma shr_record_m m l : shr_m (shr_record_of_loc m l) = m.
Proof. by destruct l as [|[]]. Qed.

(** After the shift the significand has at most [prec] digits. *)
Lemma shr_fexp_range m e l :
  0 ≤ m → let r := shr_fexp prec emax m e l in 0 ≤ shr_m r.1 < 2 ^ prec ∧ emin ≤ r.2.
Proof.
  intros Hm. cbn zeta. unfold shr_fexp, shr.
  assert (m < 2 ^ Z.max 0 (Zdigits2 m)) as Hd.
  { destruct m as [|p|p]; [done| |lia]. cbn [Zdigits2]. rewrite Z.max_r by lia. apply digits2_bound. }
  set (d := Z.max 0 (Zdigits2 m)) in *. assert (d - prec ≤ fexp (Zdigits2 m + e) - e ∨ d = 0) as Hf.
  { unfold d, SpecFloat.fexp. lia. }
  assert (emin ≤ fexp (Zdigits2 m + e)) as Hmin by (unfold SpecFloat.fexp; lia).
  assert (0 ≤ d) as Hd0 by lia.
  assert (m < 2 ^ prec ∨ ∃ n, fexp (Zdigits2 m + e) - e = Zpos n ∧ m < 2 ^ prec * 2 ^ Zpos n) as Hcase.
  { destruct (fexp (Zdigits2 m + e) - e) as [|n|n] eqn:Hn.
    - left. eapply Z.lt_le_trans; [done|]. apply Z.pow_le_mono_r; lia.
    - right. exists n. split; [done|]. rewrite <- Z.pow_add_r by lia. eapply Z.lt_le_trans; [done|].
      apply Z.pow_le_mono_r; lia.
    - left. eapply Z.lt_le_trans; [done|]. apply Z.pow_le_mono_r; lia. }
  destruct (fexp (Zdigits2 m + e) - e) as [|n|n] eqn:Hn; cbn [fst snd].
  - rewrite shr_record_m. destruct Hcase as [|(n & ? & _)]; [lia|done].
  - rewrite iter_shr_m by by rewrite shr_record_m. rewrite shr_record_m. split; [|lia].
    split; [apply Z.div_pos; lia|]. apply Z.div_lt_upper_bound; [lia|].
    destruct Hcase as [|(n' & [= <-] & ?)]; [|lia].
    assert (1 ≤ 2 ^ Zpos n) by (apply (Z.pow_le_mono_r 2 0); lia). nia.
  - rewrite shr_record_m. destruct Hcase as [|(n' & ? & _)]; [lia|done].
Qed.

Lemma round_nearest_nonneg m l : 0 ≤ m → 0 ≤ round_nearest_even m l.
Proof. intros Hm. unfold round_nearest_even. destruct l as [|[]]; [lia| |lia..]. destruct (Z.even m); lia. Qed.

Lemma binary_round_aux_ok s m e l : 0 ≤ m → sf_ok (binary_round_aux prec emax s m e l).
Proof.
  intros Hm. unfold binary_round_aux. pose proof (shr_fexp_range m e l Hm) as H1.
  destruct (shr_fexp prec emax m e l) as [r1 e1]. cbn in H1.
  pose proof (shr_fexp_range (round_nearest_even (shr_m r1) (loc_of_shr_record r1)) e1 loc_Exact
    (round_nearest_nonneg _ _ (proj1 (proj1 H1)))) as H2.
  destruct (shr_fexp prec emax (round_nearest_even _ _) e1 loc_Exact) as [r2 e2]. cbn in H2.
  destruct (shr_m r2) as [|p|p]; [done| |done]. destruct (Z.leb_spec e2 (emax - prec)); [|done].
  cbn. lia.
Qed.

Lemma binary_normalize_ok m e s : sf_ok (binary_normalize prec emax m e s).
Proof.
  unfold binary_normalize, binary_round.
  destruct m as [|p|p]; [done| |]; destruct (shl_align _ _ _) as [mz ez]; by apply binary_round_aux_ok.
Qed.

Lemma SFadd_ok x y : sf_ok x → sf_ok y → sf_ok (SFadd prec emax x y).
Proof.
  intros Hx Hy. destruct x as [[]|[]| |], y as [[]|[]| |]; cbn [SFadd]; try done.
  apply binary_normalize_ok.
Qed.

Lemma SFsub_ok x y : sf_ok x → sf_ok y → sf_ok (SFsub prec emax x y).
Proof.
  intros Hx Hy. destruct x as [[]|[]| |], y as [[]|[]| |]; cbn [SFsub]; try done.
  apply binary_normalize_ok.
Qed.

Lemma SFmul_ok x y : sf_ok (SFmul prec emax x y).
Proof. destruct x, y; cbn [SFmul]; try done. by apply binary_round_aux_ok. Qed.

Lemma SFdiv_ok x y : sf_ok (SFdiv prec emax x y).
Proof.
  destruct x as [| | |sx mx ex], y as [| | |sy my ey]; cbn [SFdiv]; try done. unfold SFdiv_core_binary.
  set (m' := match _ with Z0 => _ | Zpos _ => _ | Zneg _ => _ end).
  assert (0 ≤ m') as Hm'.
  { unfold m'. destruct (ex - ey - _); [lia| |lia]. apply Z.shiftl_nonneg. lia. }
  pose proof (Z_div_mod m' (Zpos my) ltac:(lia)) as Hq. destruct (Z.div_eucl m' (Zpos my)) as [q r].
  apply binary_round_aux_ok. destruct Hq. nia.
Qed.

Lemma SFsqrt_ok x : sf_ok (SFsqrt prec emax x).
Proof.
  destruct x as [[]|[]| |[] m e]; cbn [SFsqrt]; try done. unfold SFsqrt_core_binary.
  set (m' := match _ with Z0 => _ | Zpos _ => _ | Zneg _ => _ end).
  assert (0 ≤ (Z.sqrtrem m').1) as Hq by (rewrite Z.sqrtrem_sqrt; apply Z.sqrt_nonneg).
  destruct (Z.sqrtrem m') as [q r]. by apply binary_round_aux_ok.
Qed.
End Range.

(** ** [f32] *)

Definition f32_ok (a : f32) : Prop := 0 ≤ f32_bits a < 2 ^ 32.

Lemma sf_f32_ok f : sf_ok 24 128 f → f32_ok (sf_f32 f).
Proof.
  intros Hf. unfold f32_ok, sf_f32, sf_encode, sign_bit. destruct f as [s|s| |s m e]; cbn [f32_bits].
  - destruct s; lia.
  - destruct s; lia.
  - lia.
  - cbn in Hf. unfold emin in Hf. destruct (Z.ltb_spec (Zpos m) (2 ^ 23)); destruct s; lia.
Qed.

Lemma f32_sf_ok a : sf_ok 24 128 (f32_sf a).
Proof.
  unfold f32_sf, sf_decode. pose proof (Z.mod_pos_bound (f32_bits a) (2 ^ 23) ltac:(lia)) as Hm.
  pose proof (Z.mod_pos_bound (Z.shiftr (f32_bits a) 23) (2 ^ 8) ltac:(lia)) as He.
  destruct (Z.eqb_spec (Z.shiftr (f32_bits a) 23 mod 2 ^ 8) (2 ^ 8 - 1)); [by destruct (_ =? 0)|].
  destruct (Z.eqb_spec (Z.shiftr (f32_bits a) 23 mod 2 ^ 8) 0).
  - destruct (f32_bits a mod 2 ^ 23) as [|p|p]; [done| |done]. cbn. unfold emin. lia.
  - destruct (f32_bits a mod 2 ^ 23 + 2 ^ 23) as [|p|p] eqn:Hp; [done| |done].
    unfold sf_ok, emin. lia.
Qed.

Lemma f32_add_ok a b : f32_ok (f32_add a b).
Proof. apply sf_f32_ok, SFadd_ok; [done|apply f32_sf_ok..]. Qed.
Lemma f32_sub_ok a b : f32_ok (f32_sub a b).
Proof. apply sf_f32_ok, SFsub_ok; [done|apply f32_sf_ok..]. Qed.
Lemma f32_mul_ok a b : f32_ok (f32_mul a b).
Proof. by apply sf_f32_ok, SFmul_ok. Qed.
Lemma f32_div_ok a b : f32_ok (f32_div a b).
Proof. by apply sf_f32_ok, SFdiv_ok. Qed.
Lemma f32_sqrt_ok a : f32_ok (f32_sqrt a).
Proof. by apply sf_f32_ok, SFsqrt_ok. Qed.

#[export] Hint Resolve f32_add_ok f32_sub_ok f32_mul_ok f32_div_ok f32_sqrt_ok : oxide.

(** ** Integers in floating point

    An integer of at most [prec] bits is a float, and an addition, subtraction
    or multiplication of such integers whose result has at most [prec] bits is
    exact.  The sums of the device and of the reference then agree although they
    add in different orders. *)

Lemma digits2_log2 p : Zpos (digits2_pos p) = Z.log2 (Zpos p) + 1.
Proof.
  induction p as [p IH|p IH|]; cbn [digits2_pos]; [| |done]; rewrite Pos2Z.inj_succ, IH.
  - rewrite Pos2Z.inj_xI, Z.log2_succ_double by lia. lia.
  - rewrite Pos2Z.inj_xO, Z.log2_double by lia. lia.
Qed.

(** Shifting out zeros is exact. *)
Lemma iter_shr_exact n m :
  0 ≤ m → SpecFloat.iter_pos shr_1 n (Build_shr_record (m * 2 ^ Zpos n) false false) = Build_shr_record m false false.
Proof.
  revert m. assert (∀ m, 0 ≤ m → shr_1 (Build_shr_record (m * 2) false false) = Build_shr_record m false false) as H1.
  { intros [|p|p] Hm; [done| |lia]. by rewrite Z.mul_comm, <- Pos2Z.inj_xO. }
  induction n as [n IH|n IH|]; intros m Hm; cbn [SpecFloat.iter_pos].
  - replace (m * 2 ^ Zpos n~1) with (m * 2 ^ Zpos n * 2 ^ Zpos n * 2).
    2: { replace (Zpos n~1) with (Zpos n + Zpos n + 1) by lia. rewrite !Z.pow_add_r by lia. ring. }
    rewrite H1 by (pose proof (Z.pow_nonneg 2 (Zpos n) ltac:(lia)); nia).
    rewrite IH, IH; [done|done|]. pose proof (Z.pow_nonneg 2 (Zpos n) ltac:(lia)). nia.
  - replace (m * 2 ^ Zpos n~0) with (m * 2 ^ Zpos n * 2 ^ Zpos n).
    2: { replace (Zpos n~0) with (Zpos n + Zpos n) by lia. rewrite !Z.pow_add_r by lia. ring. }
    rewrite IH, IH; [done|done|]. pose proof (Z.pow_nonneg 2 (Zpos n) ltac:(lia)). nia.
  - by apply H1.
Qed.

Lemma iter_xO m d : Zpos (Pos.iter xO m d) = Zpos m * 2 ^ Zpos d.
Proof.
  induction d as [|d IH] using Pos.peano_ind; [cbn; lia|].
  rewrite Pos.iter_succ, Pos2Z.inj_xO, IH, Pos2Z.inj_succ, Z.pow_succ_r by lia. ring.
Qed.

Lemma shl_align_down m e e' : e' ≤ e → ∃ m', shl_align m e e' = (m', e') ∧ Zpos m' = Zpos m * 2 ^ (e - e').
Proof.
  intros He. unfold shl_align. destruct (e' - e) as [|d|d] eqn:Hd; [|lia|].
  - exists m. replace e' with e by lia. rewrite Z.sub_diag. split; [done|lia].
  - exists (Pos.iter xO m d). split; [done|]. rewrite iter_xO. do 2 f_equal. lia.
Qed.

Section Exact.
Context (prec emax : Z).
Hypothesis prec_pos : 0 < prec.
Hypothesis prec_emax : prec < emax.
Hypothesis emax_2 : 2 ≤ emax.

(** The binary point of an integer with leading bit [l]. *)
Lemma fexp_int l : 0 ≤ l → fexp prec emax (l + 1) = l + 1 - prec.
Proof. unfold fexp, emin. lia. Qed.

(** The float of an integer. *)
Definition sf_int (z : Z) : spec_float :=
  match z with
  | Z0 => S754_zero false
  | _ => S754_finite (z <? 0) (Z.to_pos (Z.abs z * 2 ^ (prec - 1 - Z.log2 (Z.abs z)))) (Z.log2 (Z.abs z) + 1 - prec)
  end.

Definition small (z : Z) : Prop := Z.abs z < 2 ^ prec.

Lemma small_log2 m : 0 < m < 2 ^ prec → 0 ≤ Z.log2 m ≤ prec - 1.
Proof.
  intros Hm. split; [apply Z.log2_nonneg|]. assert (Z.log2 m < prec); [|lia]. apply Z.log2_lt_pow2; lia.
Qed.

(** Rounding an integer that fits, whose binary point may be anywhere below. *)
Lemma round_aux_int s m e k :
  0 < m < 2 ^ prec → Zpos k = m * 2 ^ (- e) → e ≤ Z.log2 m + 1 - prec →
  binary_round_aux prec emax s (Zpos k) e loc_Exact
  = S754_finite s (Z.to_pos (m * 2 ^ (prec - 1 - Z.log2 m))) (Z.log2 m + 1 - prec).
Proof.
  intros Hm Hk He. pose proof (small_log2 m Hm) as Hl.
  set (c := m * 2 ^ (prec - 1 - Z.log2 m)). set (e1 := Z.log2 m + 1 - prec) in *.
  assert (0 < c) as Hc by (apply Z.mul_pos_pos; [lia|apply Z.pow_pos_nonneg; lia]).
  assert (Z.log2 c = prec - 1) as Hlc by (unfold c; rewrite Z.log2_mul_pow2 by lia; lia).
  assert (Zpos k = c * 2 ^ (e1 - e)) as Hkc.
  { rewrite Hk. unfold c. rewrite <- Z.mul_assoc, <- Z.pow_add_r by lia. do 2 f_equal. lia. }
  assert (∀ x y, 0 < x → Z.log2 x + y = prec - 1 + e1 → fexp prec emax (Zdigits2 x + y) = e1) as Hf.
  { intros [|x|x] y Hx Hxy; [lia| |lia]. cbn [Zdigits2]. rewrite digits2_log2.
    unfold fexp, emin. unfold e1 in *. lia. }
  unfold binary_round_aux, shr_fexp. rewrite (Hf (Zpos k) e).
  2: lia.
  2: { rewrite Hkc, Z.log2_mul_pow2 by lia. lia. }
  assert (shr (shr_record_of_loc (Zpos k) loc_Exact) e (e1 - e) = (Build_shr_record c false false, e1)) as ->.
  { unfold shr. cbn [shr_record_of_loc]. destruct (e1 - e) as [|n|n] eqn:Hn; [|rewrite Hkc, iter_shr_exact by lia|lia].
    - rewrite Hkc. rewrite Z.pow_0_r, Z.mul_1_r. f_equal. lia.
    - f_equal. lia. }
  cbn [shr_m loc_of_shr_record round_nearest_even]. rewrite (Hf c e1) by lia. rewrite Z.sub_diag. cbn [shr shr_record_of_loc shr_m].
  destruct c as [|c'|c']; [lia| |lia]. rewrite (proj2 (Z.leb_le _ _)) by lia. done.
Qed.

Lemma normalize_int z e :
  small z → e ≤ 0 → binary_normalize prec emax (z * 2 ^ (- e)) e false = sf_int z.
Proof.
  intros Hz He. unfold small in Hz. assert (0 < 2 ^ (- e)) as Hp by (apply Z.pow_pos_nonneg; lia).
  assert (∀ s m k, 0 < m < 2 ^ prec → Zpos k = m * 2 ^ (- e) →
    binary_round prec emax s k e = S754_finite s (Z.to_pos (m * 2 ^ (prec - 1 - Z.log2 m))) (Z.log2 m + 1 - prec)) as Hround.
  { intros s m k Hm Hk. pose proof (small_log2 m Hm) as Hl. unfold binary_round.
    assert (Zpos (digits2_pos k) + e = Z.log2 m + 1) as ->.
    { rewrite digits2_log2, Hk, Z.log2_mul_pow2 by lia. lia. }
    rewrite fexp_int by lia.
    destruct (decide (Z.log2 m + 1 - prec ≤ e)) as [Hle|Hle].
    - destruct (shl_align_down k e (Z.log2 m + 1 - prec) Hle) as (k' & -> & Hk').
      apply round_aux_int; [done| |done]. rewrite Hk', Hk, <- Z.mul_assoc, <- Z.pow_add_r by lia. do 2 f_equal. lia.
    - assert (shl_align k e (Z.log2 m + 1 - prec) = (k, e)) as ->.
      { unfold shl_align. destruct (Z.log2 m + 1 - prec - e) eqn:?; try done. lia. }
      apply round_aux_int; [done|done|lia]. }
  destruct z as [|p|p]; [done| |].
  - destruct (Zpos p * 2 ^ (- e)) as [|k|k] eqn:Hk; [lia| |lia]. cbn [binary_normalize].
    rewrite (Hround false (Zpos p) k); [done|lia|done].
  - destruct (Zneg p * 2 ^ (- e)) as [|k|k] eqn:Hk; [lia|lia|]. cbn [binary_normalize].
    rewrite (Hround true (Zpos p) k); [done|lia|]. lia.
Qed.

(** The signed significand of an integer. *)
Lemma sf_int_finite z :
  small z → z ≠ 0 → ∃ s m e, sf_int z = S754_finite s m e ∧ 1 - prec ≤ e ≤ 0 ∧
    cond_Zopp s (Zpos m) = z * 2 ^ (- e) ∧ 2 ^ (prec - 1) ≤ Zpos m < 2 ^ prec.
Proof.
  intros Hz Hne. unfold small in Hz. pose proof (small_log2 (Z.abs z) ltac:(lia)) as Hl.
  pose proof (Z.log2_spec (Z.abs z) ltac:(lia)) as Hlog. rewrite Z.pow_succ_r in Hlog by lia.
  set (c := Z.abs z * 2 ^ (prec - 1 - Z.log2 (Z.abs z))).
  assert (2 ^ (prec - 1) ≤ c < 2 ^ prec) as Hcb.
  { assert (2 ^ (prec - 1) = 2 ^ Z.log2 (Z.abs z) * 2 ^ (prec - 1 - Z.log2 (Z.abs z))) as E1.
    { rewrite <- Z.pow_add_r by lia. f_equal. lia. }
    assert (2 ^ prec = 2 * 2 ^ (prec - 1)) as E2 by (rewrite <- Z.pow_succ_r by lia; f_equal; lia).
    assert (0 < 2 ^ (prec - 1 - Z.log2 (Z.abs z))) by (apply Z.pow_pos_nonneg; lia). unfold c. rewrite E2, E1. nia. }
  assert (0 < 2 ^ (prec - 1)) by (apply Z.pow_pos_nonneg; lia).
  exists (z <? 0), (Z.to_pos c), (Z.log2 (Z.abs z) + 1 - prec). split_and!; [by destruct z|lia|lia| |lia|lia].
  rewrite Z2Pos.id by lia. replace (- (Z.log2 (Z.abs z) + 1 - prec)) with (prec - 1 - Z.log2 (Z.abs z)) by lia.
  unfold c. destruct (Z.ltb_spec z 0); cbn [cond_Zopp]; [rewrite Z.abs_neq by lia|rewrite Z.abs_eq by lia]; lia.
Qed.

Lemma cond_Zopp_align s m e z ez :
  cond_Zopp s (Zpos m) = z * 2 ^ (- e) → ez ≤ e → e ≤ 0 →
  cond_Zopp s (Zpos (fst (shl_align m e ez))) = z * 2 ^ (- ez).
Proof.
  intros Hm Hez He. destruct (shl_align_down m e ez Hez) as (m' & -> & Hm'). cbn [fst].
  assert (2 ^ (- ez) = 2 ^ (- e) * 2 ^ (e - ez)) as -> by (rewrite <- Z.pow_add_r by lia; f_equal; lia).
  rewrite Z.mul_assoc, <- Hm. destruct s; cbn [cond_Zopp] in *; lia.
Qed.

Lemma SFadd_int a b : small a → small b → small (a + b) → SFadd prec emax (sf_int a) (sf_int b) = sf_int (a + b).
Proof.
  intros Ha Hb Hab. destruct (decide (a = 0)) as [->|Hna]; [|destruct (decide (b = 0)) as [->|Hnb]].
  - rewrite Z.add_0_l. by destruct b.
  - rewrite Z.add_0_r. by destruct a.
  - destruct (sf_int_finite a Ha Hna) as (sa & ma & ea & -> & Hea & Hma & _).
    destruct (sf_int_finite b Hb Hnb) as (sb & mb & eb & -> & Heb & Hmb & _). cbn [SFadd].
    rewrite (cond_Zopp_align sa ma ea a), (cond_Zopp_align sb mb eb b) by (done || lia).
    rewrite <- Z.mul_add_distr_r. apply normalize_int; [done|lia].
Qed.

Lemma SFsub_int a b : small a → small b → small (a - b) → SFsub prec emax (sf_int a) (sf_int b) = sf_int (a - b).
Proof.
  intros Ha Hb Hab. destruct (decide (a = 0)) as [->|Hna]; [|destruct (decide (b = 0)) as [->|Hnb]].
  - by destruct b.
  - rewrite Z.sub_0_r. by destruct a.
  - destruct (sf_int_finite a Ha Hna) as (sa & ma & ea & -> & Hea & Hma & _).
    destruct (sf_int_finite b Hb Hnb) as (sb & mb & eb & -> & Heb & Hmb & _). cbn [SFsub].
    rewrite (cond_Zopp_align sa ma ea a), (cond_Zopp_align sb mb eb b) by (done || lia).
    rewrite <- Z.mul_sub_distr_r. apply normalize_int; [done|lia].
Qed.

Lemma SFmul_int a b :
  a ≠ 0 → b ≠ 0 → small a → small b → small (a * b) → SFmul prec emax (sf_int a) (sf_int b) = sf_int (a * b).
Proof.
  intros Hna Hnb Ha Hb Hab.
  destruct (sf_int_finite a Ha Hna) as (sa & ma & ea & Ea & Hea & Hma & Hra).
  destruct (sf_int_finite b Hb Hnb) as (sb & mb & eb & Eb & Heb & Hmb & Hrb). rewrite Ea, Eb. cbn [SFmul].
  assert (0 < 2 ^ (- ea)) as Hpa by (apply Z.pow_pos_nonneg; lia).
  assert (0 < 2 ^ (- eb)) as Hpb by (apply Z.pow_pos_nonneg; lia).
  assert (Zpos ma = Z.abs a * 2 ^ (- ea) ∧ sa = (a <? 0)) as [Ema ->].
  { destruct sa; cbn [cond_Zopp] in Hma; (destruct (Z.ltb_spec a 0); [rewrite Z.abs_neq by lia|rewrite Z.abs_eq by lia]); split; (done || nia). }
  assert (Zpos mb = Z.abs b * 2 ^ (- eb) ∧ sb = (b <? 0)) as [Emb ->].
  { destruct sb; cbn [cond_Zopp] in Hmb; (destruct (Z.ltb_spec b 0); [rewrite Z.abs_neq by lia|rewrite Z.abs_eq by lia]); split; (done || nia). }
  rewrite (round_aux_int _ (Z.abs (a * b)) (ea + eb)); cycle 1.
  - unfold small in Hab. split; [|done]. nia.
  - rewrite Pos2Z.inj_mul, Ema, Emb, Z.abs_mul. replace (- (ea + eb)) with (- ea + - eb) by lia.
    rewrite Z.pow_add_r by lia. ring.
  - unfold small in *. assert (Z.log2 (Zpos ma) = prec - 1) as Hla.
    { apply Z.log2_unique; [lia|]. split; [lia|]. replace (Z.succ (prec - 1)) with prec by lia. lia. }
    rewrite Ema, Z.log2_mul_pow2 in Hla by lia.
    assert (Z.log2 (Zpos mb) = prec - 1) as Hlb.
    { apply Z.log2_unique; [lia|]. split; [lia|]. replace (Z.succ (prec - 1)) with prec by lia. lia. }
    rewrite Emb, Z.log2_mul_pow2 in Hlb by lia.
    rewrite Z.abs_mul. pose proof (Z.log2_mul_below (Z.abs a) (Z.abs b) ltac:(lia) ltac:(lia)). lia.
  - unfold sf_int. destruct (a * b) as [|p|p] eqn:Hp; [nia| |]; f_equal;
      destruct (Z.ltb_spec a 0), (Z.ltb_spec b 0); cbn; (done || nia).
Qed.
End Exact.

(** Decoding what was encoded. *)
Lemma decode_encode_normal mw ew prec emax s m e :
  0 ≤ mw → 0 < ew → 2 ^ mw ≤ Zpos m < 2 * 2 ^ mw → 0 < e - 2 + emax + prec < 2 ^ ew - 1 →
  sf_decode mw ew prec emax (sf_encode mw ew prec emax (S754_finite s m e)) = S754_finite s m e.
Proof.
  intros Hmw Hew Hm He. unfold sf_encode. rewrite (proj2 (Z.ltb_ge _ _)) by lia.
  set (E := e - 2 + emax + prec) in *. set (r := Zpos m - 2 ^ mw).
  assert (0 < 2 ^ mw) as Hp by (apply Z.pow_pos_nonneg; lia).
  assert (0 ≤ E * 2 ^ mw + r < 2 ^ (mw + ew)) as Hlow by (rewrite Z.pow_add_r by lia; unfold r; nia).
  assert (Z.testbit (sign_bit mw ew s + (E * 2 ^ mw + r)) (mw + ew) = s) as Hs.
  { rewrite Z.testbit_eqb by lia. unfold sign_bit. destruct s.
    - replace (2 ^ (mw + ew) + (E * 2 ^ mw + r)) with (1 * 2 ^ (mw + ew) + (E * 2 ^ mw + r)) by ring.
      rewrite Z.div_add_l, Z.div_small by lia. done.
    - by rewrite Z.add_0_l, Z.div_small by lia. }
  assert (∃ q, sign_bit mw ew s = q * 2 ^ ew * 2 ^ mw) as [q Hq].
  { exists (if s then 1 else 0). unfold sign_bit. rewrite Z.pow_add_r by lia. destruct s; ring. }
  unfold sf_decode. rewrite Hs, Hq, Z.shiftr_div_pow2 by lia.
  replace (q * 2 ^ ew * 2 ^ mw + (E * 2 ^ mw + r)) with ((E + q * 2 ^ ew) * 2 ^ mw + r) by ring.
  rewrite Z.div_add_l, (Z.div_small r) by (unfold r; lia). rewrite Z.add_0_r, Z.mod_add by lia.
  rewrite (Z.mod_small E) by lia. rewrite Z.add_comm, Z.mod_add, (Z.mod_small r) by (unfold r; lia).
  rewrite !(proj2 (Z.eqb_neq _ _)) by lia. unfold r. replace (Zpos m - 2 ^ mw + 2 ^ mw) with (Zpos m) by lia.
  f_equal. unfold E. lia.
Qed.

(** ** [f32] *)

Definition f32_int (z : Z) : f32 := sf_f32 (sf_int 24 z).

Lemma f32_sf_int z : small 24 z → f32_sf (f32_int z) = sf_int 24 z.
Proof.
  intros Hz. unfold f32_sf, f32_int, sf_f32. cbn [f32_bits]. destruct (decide (z = 0)) as [->|Hne]; [done|].
  destruct (sf_int_finite 24 ltac:(lia) z Hz Hne) as (s & m & e & -> & He & _ & Hm).
  apply decode_encode_normal; lia.
Qed.

Lemma f32_add_int a b : small 24 a → small 24 b → small 24 (a + b) → f32_add (f32_int a) (f32_int b) = f32_int (a + b).
Proof. intros Ha Hb Hab. unfold f32_add. rewrite !f32_sf_int by done. unfold f32_int. f_equal. by apply SFadd_int. Qed.

Lemma f32_sub_int a b : small 24 a → small 24 b → small 24 (a - b) → f32_sub (f32_int a) (f32_int b) = f32_int (a - b).
Proof. intros Ha Hb Hab. unfold f32_sub. rewrite !f32_sf_int by done. unfold f32_int. f_equal. by apply SFsub_int. Qed.

(** ** [f64] *)

Definition f64_int (z : Z) : f64 := sf_f64 (sf_int 53 z).

Lemma f64_sf_int z : small 53 z → f64_sf (f64_int z) = sf_int 53 z.
Proof.
  intros Hz. unfold f64_sf, f64_int, sf_f64. cbn [f64_bits]. destruct (decide (z = 0)) as [->|Hne]; [done|].
  destruct (sf_int_finite 53 ltac:(lia) z Hz Hne) as (s & m & e & -> & He & _ & Hm).
  apply decode_encode_normal; lia.
Qed.

Lemma f64_add_int a b : small 53 a → small 53 b → small 53 (a + b) → f64_add (f64_int a) (f64_int b) = f64_int (a + b).
Proof. intros Ha Hb Hab. unfold f64_add. rewrite !f64_sf_int by done. unfold f64_int. f_equal. by apply SFadd_int. Qed.

(** ** Distances are symmetric

    Exchanging two vectors leaves every difference but its sign and every
    product as it was, so that the distances of [Kernels] do not depend on the
    order of their arguments, bit for bit. *)

Lemma f32_mul_comm a b : f32_mul a b = f32_mul b a.
Proof.
  unfold f32_mul. f_equal.
  destruct (f32_sf a), (f32_sf b); cbn [SFmul]; try done; rewrite xorb_comm; try done.
  by rewrite Pos.mul_comm, Z.add_comm.
Qed.

(** ** Signs *)

Lemma normalize_opp m e s :
  SFabs (binary_normalize 24 128 (- m) e s) = SFabs (binary_normalize 24 128 m e s).
Proof.
  assert (∀ p, SFabs (binary_round 24 128 true p e) = SFabs (binary_round 24 128 false p e)) as Hround.
  { intros p. unfold binary_round, binary_round_aux. destruct (shl_align _ _ _) as [mz ez].
    destruct (shr_fexp _ _ _ _ _) as [r1 e1]. destruct (shr_fexp _ _ (round_nearest_even _ _) _ _) as [r2 e2].
    destruct (shr_m r2); [done| |done]. by destruct (_ <=? _). }
  destruct m; [done|apply Hround|symmetry; apply Hround].
Qed.

Lemma SFsub_abs x y : SFabs (SFsub 24 128 x y) = SFabs (SFsub 24 128 y x).
Proof.
  destruct x as [[]|[]| |sx mx ex], y as [[]|[]| |sy my ey]; cbn [SFsub]; try done.
  rewrite (Z.min_comm ey ex), <- normalize_opp. do 2 f_equal. lia.
Qed.

(** The magnitude of a decoded float does not depend on its sign bit. *)
Lemma decode_sign s m :
  0 ≤ m < 2 ^ 31 → SFabs (sf_decode 23 8 24 128 (sign_bit 23 8 s + m)) = SFabs (sf_decode 23 8 24 128 m).
Proof.
  intros Hm. unfold sf_decode, sign_bit.
  assert (∃ q, (if s then 2 ^ (23 + 8) else 0) = q * 2 ^ 8 * 2 ^ 23) as [q ->] by (destruct s; [by exists 1|by exists 0]).
  assert (Z.shiftr (q * 2 ^ 8 * 2 ^ 23 + m) 23 mod 2 ^ 8 = Z.shiftr m 23 mod 2 ^ 8) as ->.
  { rewrite !Z.shiftr_div_pow2, Z.div_add_l by lia. by rewrite Z.add_comm, Z.mod_add by lia. }
  rewrite (Z.add_comm _ m), Z.mod_add by lia.
  repeat case_match; done.
Qed.

Lemma sf_f32_abs f g : sf_ok 24 128 f → sf_ok 24 128 g → SFabs f = SFabs g → SFabs (f32_sf (sf_f32 f)) = SFabs (f32_sf (sf_f32 g)).
Proof.
  assert (∀ h, sf_ok 24 128 h → SFabs (f32_sf (sf_f32 h)) = SFabs (f32_sf (sf_f32 (SFabs h)))) as Habs.
  { intros h Hh. unfold f32_sf, sf_f32. cbn [f32_bits].
    assert (h = S754_nan ∨ ∃ s, sf_encode 23 8 24 128 h = sign_bit 23 8 s + f32_bits (sf_f32 (SFabs h)) ∧
      0 ≤ f32_bits (sf_f32 (SFabs h)) < 2 ^ 31) as [->|(s & -> & Hr)]; [|done|by apply decode_sign].
    destruct h as [s|s| |s m e]; [right; exists s; cbn; lia|right; exists s; cbn; lia|by left|right; exists s].
    cbn in Hh. unfold emin in Hh. unfold sf_f32, sf_encode. cbn [SFabs f32_bits]. change (sign_bit 23 8 false) with 0.
    split; [lia|]. destruct (Z.ltb_spec (Zpos m) (2 ^ 23)); lia. }
  intros Hf Hg Hfg. by rewrite (Habs f), (Habs g), Hfg.
Qed.

Lemma f32_square_abs a b : SFabs (f32_sf a) = SFabs (f32_sf b) → f32_mul a a = f32_mul b b.
Proof.
  assert (∀ f, SFmul 24 128 f f = SFmul 24 128 (SFabs f) (SFabs f)) as Hsq by by intros [[]|[]| |[] ? ?].
  intros H. unfold f32_mul. f_equal. by rewrite (Hsq (f32_sf a)), (Hsq (f32_sf b)), H.
Qed.

(** ** Distances *)

Lemma f32_square_sub a b : f32_mul (f32_sub a b) (f32_sub a b) = f32_mul (f32_sub b a) (f32_sub b a).
Proof.
  apply f32_square_abs, sf_f32_abs; [apply SFsub_ok; [done|apply f32_sf_ok..]|apply SFsub_ok; [done|apply f32_sf_ok..]|].
  apply SFsub_abs.
Qed.

Lemma zip_with_swap {A B} (f : A → A → B) l k : (∀ x y, f x y = f y x) → zip_with f l k = zip_with f k l.
Proof. intros Hf. revert k. induction l as [|x l IH]; intros [|y k]; try done. cbn. by rewrite Hf, IH. Qed.

Theorem l2_symmetric v q : l2 v q = l2 q v.
Proof. unfold l2. by rewrite (zip_with_swap _ v q) by apply f32_square_sub. Qed.

Theorem cosine_symmetric v q : cosine v q = cosine q v.
Proof.
  unfold cosine. rewrite (zip_with_swap _ v q) by apply f32_mul_comm. rewrite orb_comm.
  by rewrite (f32_mul_comm (f32_sqrt (f32_sum ((λ x, f32_mul x x) <$> v)))).
Qed.

Theorem distance_symmetric metric v q : distance metric v q = distance metric q v.
Proof. destruct metric; [apply l2_symmetric|apply cosine_symmetric]. Qed.
