(* ===== verification/CudaFilterCorrect.v ===== *)
(** * The CUDA filter is the reference filter

    [cuda_filter_project] of [Cuda] on a device batch that stands for a record
    batch: on every order of the threads the result stands for the rows on which
    the predicate's comparisons hold, unless the driver fails.  The [double]
    kernel compares by IEEE rules and the reference by the IEEE total order, so
    that is the reference filter of the batch (up to the schema's metadata,
    which the device drops) where the two agree on the compared values; on
    integers they always do. *)

From Stdlib Require Import SpecFloat.
From S2P Require Import Prelude Floats Arrow Core Memory ArrowKernels Kernels FilterCorrect Device Bytes.
From S2P Require Import Columns ColumnsCorrect CudaKernels CudaLaunch Cuda CudaScan CudaSpec CudaGather.
From S2P Require Import FloatFacts.

#[local] Arguments bitmap_len : simpl never.
#[local] Arguments width : simpl never.

(** ** What a mask says of a row *)

Definition lit_compare (op : Comparison) (v : Value) (literal : Literal) : bool :=
  match literal with
  | LInt64 k => compare_i64 (op_code op) (as_int v) k
  | LFloat64 f => compare_f64 (op_code op) (as_f64 v) f
  end.

Fixpoint mask_row (cols : list CudaColumn) (p : Predicate) (i : nat) : bool :=
  match p with
  | Compare idx op literal =>
      match (c ← cols !! idx; cb_cell (col_bytes c) i) with
      | Some v => lit_compare op v literal
      | None => false
      end
  | And p1 p2 => mask_row cols p1 i && mask_row cols p2 i
  end.

Definition mask_is (n : nat) (mask : list Z) (f : nat → bool) : Prop :=
  (n ≤ length mask)%nat ∧ ∀ i, (i < n)%nat → mask !! i = Some (Z.b2z (f i)).

Lemma mask_slots n f (m0 : list Z) : mask_is n (((λ i, Z.b2z (f i)) <$> seq 0 n) ++ drop n m0) f.
Proof.
  split; [rewrite length_app, length_fmap, length_seq; lia|]. intros i Hi.
  rewrite lookup_app_l by (by rewrite length_fmap, length_seq).
  by rewrite list_lookup_fmap, lookup_seq_lt.
Qed.

(** The predicate's leaves read columns of their literal's type. *)
Fixpoint leaves_typed (cols : list CudaColumn) (p : Predicate) : Prop :=
  match p with
  | Compare idx _ literal => ∃ c, cols !! idx = Some c ∧ cc_type c = literal_data_type literal
  | And p1 p2 => leaves_typed cols p1 ∧ leaves_typed cols p2
  end.

Section Masks.
Context {D : Type} `{!CudaApi D} (drv_ok : no_driver_panic (D := D)).
Context (n : nat).

Lemma load_cell8 c i :
  col_ok n c → width (cc_type c) = 8%nat → (i < n)%nat →
  load_range (cc_values c) (8 * i) 8 = Some (cell 8 (cb_values (col_bytes c)) i).
Proof.
  intros Hok Hw Hi. destruct (col_ok_prefix n c Hok) as [Hl _]. rewrite Hw in Hl.
  rewrite load_range_Some by nia. f_equal. rewrite <- Hw. by apply (col_cell n c).
Qed.

(** The comparison kernel of a literal. *)
Definition leaf_kernel (c : CudaColumn) (op : Comparison) (literal : Literal)
    (i : nat) (mask : list Z) : option (list Z) :=
  match literal with
  | LInt64 v => oxide_compare_i64 (cc_values c) (cc_validity c) (op_code op) v n i mask
  | LFloat64 v => oxide_compare_f64 (cc_values c) (cc_validity c) (op_code op) v n i mask
  end.

(** Its threads write the leaf's mask. *)
Lemma leaf_launch cols idx c op literal threads turns m0 :
  col_ok n c → cc_type c = literal_data_type literal → cols !! idx = Some c → (n ≤ threads)%nat → (n ≤ length m0)%nat →
  ∃ m, launch threads turns (leaf_kernel c op literal) m0 = Some m ∧
    mask_is n m (mask_row cols (Compare idx op literal)) ∧ length m = length m0.
Proof.
  intros Hok Ht Hc Hthreads Hm0. set (f := mask_row cols (Compare idx op literal)). eexists.
  split; [|split; [apply (mask_slots n f m0)|rewrite length_app, length_fmap, length_seq, length_drop; lia]].
  apply (launch_slots (λ i, Z.b2z (f i)) n); [done..|].
  intros i m _ _. unfold leaf_kernel, oxide_compare_i64, oxide_compare_f64.
  destruct (Nat.leb_spec n i) as [|Hi]; [by destruct literal|].
  rewrite (is_valid_col n c i Hok Hi). cbn [mbind option_bind].
  unfold f. cbn [mask_row]. rewrite Hc. cbn [mbind option_bind]. unfold cb_cell.
  destruct (row_valid (cb_validity (col_bytes c)) i); cbn [negb]; [|by destruct literal].
  unfold load_i64, load_f64. rewrite load_cell8 by (done || (rewrite Ht; by destruct literal)).
  cbn [fmap option_fmap option_map mbind option_bind].
  change (cb_type (col_bytes c)) with (cc_type c). rewrite Ht. by destruct literal.
Qed.

Lemma leaf_mask_spec cols idx c op literal E :
  col_ok n c → cc_type c = literal_data_type literal → cols !! idx = Some c →
  cu_spec (D := D) (leaf_mask c op literal n) E (λ m, mask_is n m (mask_row cols (Compare idx op literal))).
Proof.
  intros Hok Ht Hc. unfold leaf_mask. rewrite bool_decide_eq_true_2 by done. cbn [negb].
  eapply cu_spec_bind; [apply cu_spec_alloc|]. intros m0 ->.
  pose proof (λ turns, leaf_launch cols idx c op literal (grid_for n) turns (replicate (Nat.max n 1) 0) Hok Ht Hc
    (grid_covers n) ltac:(rewrite length_replicate; lia)) as Hl.
  destruct literal; (apply cu_spec_launch; [done|]; intros turns; destruct (Hl turns) as (m & ? & ? & _); by exists m).
Qed.

(** The conjunction of two masks. *)
Lemma and_launch l r f g threads turns m0 :
  mask_is n l f → mask_is n r g → (n ≤ threads)%nat → (n ≤ length m0)%nat →
  ∃ m, launch threads turns (oxide_mask_and l r n) m0 = Some m ∧ mask_is n m (λ i, f i && g i) ∧ length m = length m0.
Proof.
  intros Hl Hr Hthreads Hm0. eexists.
  split; [|split; [apply (mask_slots n (λ i, f i && g i) m0)|rewrite length_app, length_fmap, length_seq, length_drop; lia]].
  apply (launch_slots (λ i, Z.b2z (f i && g i)) n); [done..|].
  intros i m _ _. unfold oxide_mask_and. destruct (Nat.leb_spec n i) as [|Hi]; [done|].
  rewrite (proj2 Hl i Hi), (proj2 Hr i Hi). cbn [mbind option_bind]. f_equal. by destruct (f i), (g i).
Qed.

Lemma evaluate_mask_spec b p E :
  Forall (col_ok n) (cbt_columns b) → leaves_typed (cbt_columns b) p →
  cu_spec (D := D) (evaluate_mask b p n) E (λ m, mask_is n m (mask_row (cbt_columns b) p)).
Proof.
  intros Hok. induction p as [idx op literal|p1 IH1 p2 IH2]; cbn [leaves_typed evaluate_mask].
  - intros (c & Hc & Ht). eapply (cu_spec_bind_Ok _ _ c).
    { unfold cuda_column. by rewrite Hc. }
    apply leaf_mask_spec; [|done..]. by apply (Forall_lookup_1 _ _ _ _ Hok Hc).
  - intros [H1 H2]. eapply cu_spec_bind; [by apply IH1|]. intros l Hl.
    eapply cu_spec_bind; [by apply IH2|]. intros r Hr.
    eapply cu_spec_bind; [apply cu_spec_alloc|]. intros m0 ->.
    apply cu_spec_launch; [done|]. intros turns.
    destruct (and_launch l r _ _ (grid_for n) turns (replicate (Nat.max n 1) 0) Hl Hr (grid_covers n)) as (m & Hm & Hmask & _);
      [rewrite length_replicate; lia|by exists m].
Qed.

(** ** Compaction *)

Definition kept_by (f : nat → bool) : list nat := filter (λ i, f i = true) (seq 0 n).

Lemma sel_mask mask f i : mask_is n mask f → sel mask n i = (i <? n)%nat && f i.
Proof.
  intros [_ Hm]. unfold sel. destruct (Nat.ltb_spec i n) as [Hi|]; [|done]. rewrite (Hm i Hi). cbn.
  by destruct (f i).
Qed.

Lemma sel_kept mask f : mask_is n mask f → filter (λ i, sel mask n i = true) (seq 0 n) = kept_by f.
Proof.
  intros Hm. unfold kept_by. assert (∀ l, Forall (λ i, i < n)%nat l →
    filter (λ i, sel mask n i = true) l = filter (λ i, f i = true) l) as Hgen.
  { induction 1 as [|i l Hi _ IH]; [done|]. rewrite !filter_cons, IH.
    assert (sel mask n i = f i) as Hs by (rewrite (sel_mask _ _ _ Hm); by destruct (Nat.ltb_spec i n); [|lia]).
    destruct (decide (sel mask n i = true)), (decide (f i = true)); congruence. }
  apply Hgen, Forall_forall. intros i Hi%elem_of_seq. lia.
Qed.

Lemma rank_kept mask f :
  mask_is n mask f → rank mask n n = Z.of_nat (length (kept_by f)).
Proof.
  intros Hm. unfold rank, written. rewrite (concat_sel mask n (proj1 Hm) n) by done. rewrite (sel_kept _ _ Hm). by rewrite length_fmap.
Qed.

Lemma compact_spec mask f E :
  Z.of_nat n ≤ u32_max → mask_is n mask f →
  cu_spec (D := D) (compact mask n) E (λ r,
    r.2 = length (kept_by f) ∧ take r.2 r.1 = Z.of_nat <$> kept_by f).
Proof.
  intros Hn Hm. pose proof (proj1 Hm) as Hlen. pose proof (rank_kept _ _ Hm) as Hrank.
  pose proof (grid_covers n) as Hgrid. unfold compact. unfold grid_for in Hgrid.
  change BLOCK with OXIDE_BLOCK in Hgrid.
  set (blocks := grid_blocks n) in *.
  assert (1 ≤ blocks)%nat as Hb by (unfold blocks, grid_blocks; lia).
  eapply cu_spec_bind; [apply cu_spec_alloc|]. intros counts0 ->.
  eapply cu_spec_bind.
  { apply cu_spec_launch; [done|]. intros turns. eexists. split.
    - unfold grid_for. change BLOCK with OXIDE_BLOCK. apply (block_count_launch mask n Hlen).
      rewrite length_replicate. lia.
    - instantiate (1 := λ m, take blocks m = block_total mask n <$> seq 0 blocks). cbn beta.
      fold blocks. rewrite take_app_length'; [done|]. by rewrite length_fmap, length_seq. }
  intros counts Hcounts. eapply cu_spec_bind; [apply cu_spec_dtoh|]. intros ? ->.
  assert (rank mask n (blocks * OXIDE_BLOCK) = rank mask n n) as Hall by (apply rank_ge; [exact Hlen|exact Hgrid]).
  pose proof (rank_le mask n Hlen n) as Hle.
  eapply cu_spec_bind_Ok.
  { rewrite Hcounts. apply (scan_from_blocks mask n Hlen 0 blocks). cbn [Nat.add]. rewrite Hall. lia. }
  cbn [Nat.add]. rewrite Hall, Hrank.
  eapply cu_spec_bind; [apply cu_spec_htod|]. intros ? ->. rewrite Nat2Z.id.
  eapply cu_spec_bind; [apply cu_spec_alloc|]. intros indices0 ->.
  eapply (cu_spec_bind _ _ _ (λ indices, take (length (kept_by f)) indices = Z.of_nat <$> kept_by f));
    [|intros indices Hi; by apply cu_spec_ret].
  destruct (Z.ltb_spec 0 (Z.of_nat (length (kept_by f)))) as [Hpos|Hzero].
  - apply cu_spec_launch; [done|]. intros turns. eexists. split.
    + unfold grid_for. change BLOCK with OXIDE_BLOCK.
      apply (scatter_launch mask n Hlen); [exact Hgrid|done|]. rewrite Hrank, length_replicate. lia.
    + fold blocks. rewrite (concat_sel mask n Hlen _ Hgrid), (sel_kept _ _ Hm). rewrite take_app_length'; [done|].
      by rewrite length_fmap.
  - apply cu_spec_ret. destruct (kept_by f); [done|cbn in Hzero; lia].
Qed.
End Masks.

(** ** The reference's rows *)

(** IEEE order and the total order agree on two values. *)
Definition ieee_agrees (v l : f64) : Prop := f64_compare v l = Some (f64_total_cmp v l).

(** They do away from NaN and from two zeros. *)
Lemma ieee_agrees_ordinary v l :
  0 ≤ f64_bits v < 2 ^ 64 → 0 ≤ f64_bits l < 2 ^ 64 →
  f64_is_nan v = false → f64_is_nan l = false → f64_is_zero v && f64_is_zero l = false → ieee_agrees v l.
Proof. apply ieee_total_agree. Qed.

(** A comparison by IEEE rules: none holds of a NaN, and the two zeros are
    equal; integers compare numerically. *)
Definition ieee_holds (op : Comparison) (v : Value) (literal : Literal) : bool :=
  match literal with
  | LInt64 k => ord_holds op (Z.compare (as_int v) k)
  | LFloat64 f => match f64_compare (as_f64 v) f with Some c => ord_holds op c | None => false end
  end.

(** The predicate on a row; a null satisfies no comparison. *)
Fixpoint ieee_row (b : RecordBatch) (p : Predicate) (i : nat) : bool :=
  match p with
  | Compare idx op literal =>
      match (col ← columns b !! idx; o ← values col !! i; o) with
      | Some v => ieee_holds op v literal
      | None => false
      end
  | And p1 p2 => ieee_row b p1 i && ieee_row b p2 i
  end.

Definition ieee_rows (b : RecordBatch) (p : Predicate) : list nat :=
  filter (λ i, ieee_row b p i = true) (seq 0 (num_rows b)).

(** The projection of [b], taken at those rows, under a schema without metadata. *)
Definition ieee_filtered (b : RecordBatch) (p : Predicate) (projection : list nat) : option RecordBatch :=
  fs ← mapM (λ i, fields (schema b) !! i) projection;
  cs ← mapM (λ i, columns b !! i) projection;
  Some (mkBatch (Schema_new fs) ((λ c, array_take c (Z.of_nat <$> ieee_rows b p)) <$> cs) (length (ieee_rows b p))).

Fixpoint pred_agrees (b : RecordBatch) (p : Predicate) : Prop :=
  match p with
  | Compare idx _ (LFloat64 f) =>
      ∀ col i v, columns b !! idx = Some col → values col !! i = Some (Some v) → ieee_agrees (as_f64 v) f
  | Compare _ _ (LInt64 _) => True
  | And p1 p2 => pred_agrees b p1 ∧ pred_agrees b p2
  end.

Lemma compare_i64_ord op a k : compare_i64 (op_code op) a k = ord_holds op (Z.compare a k).
Proof.
  unfold compare_i64. destruct op; cbn;
    rewrite ?Z.eqb_compare, ?Z.ltb_compare, ?Z.leb_compare; try (by destruct (a ?= k));
    rewrite (Z.compare_antisym a k); by destruct (a ?= k).
Qed.

Lemma lit_compare_ieee op v literal : lit_compare op v literal = ieee_holds op v literal.
Proof.
  destruct literal as [k|f]; [apply compare_i64_ord|]. cbn [lit_compare ieee_holds]. unfold compare_f64.
  destruct (f64_compare (as_f64 v) f) as [[]|]; by destruct op.
Qed.

Lemma ieee_holds_total op v literal :
  match literal with LInt64 _ => True | LFloat64 f => ieee_agrees (as_f64 v) f end →
  ieee_holds op v literal = ord_holds op (value_cmp v literal).
Proof. destruct literal as [k|f]; [done|]. unfold ieee_agrees, ieee_holds, value_cmp. by intros ->. Qed.

(** The mask of a device batch is the predicate on the batch it stands for. *)
Lemma mask_row_ieee b cols n p i :
  columns b = col_array <$> cols → Forall (col_ok n) cols → (i < n)%nat → mask_row cols p i = ieee_row b p i.
Proof.
  intros Hcols Hok Hi. induction p as [idx op literal|p1 IH1 p2 IH2]; cbn [mask_row ieee_row]; [|by rewrite IH1, IH2].
  rewrite Hcols, list_lookup_fmap. destruct (cols !! idx) as [c|] eqn:Hc; cbn [fmap option_fmap option_map mbind option_bind]; [|done].
  pose proof (Forall_lookup_1 _ _ _ _ Hok Hc) as Hcok. destruct (col_ok_prefix n c Hcok) as [_ Hlen].
  assert (values (col_array c) !! i = Some (cb_cell (col_bytes c) i)) as ->.
  { cbn. by rewrite Nat2Z.id, Hlen, list_lookup_fmap, lookup_seq_lt. }
  cbn [mbind option_bind]. destruct (cb_cell (col_bytes c) i); [|done]. apply lit_compare_ieee.
Qed.

(** Where IEEE order and the total order agree, it is the reference's. *)
Lemma ieee_row_eval b p i : pred_agrees b p → ieee_row b p i = bool_decide (eval_row b p i = Some true).
Proof.
  induction p as [idx op literal|p1 IH1 p2 IH2]; cbn [pred_agrees ieee_row eval_row].
  - intros Hp. destruct (columns b !! idx) as [col|] eqn:Hc; cbn [mbind option_bind]; [|done].
    destruct (values col !! i) as [[v|]|] eqn:Hv; cbn [mbind option_bind]; [|done..].
    rewrite ieee_holds_total by (destruct literal as [k|f]; [done|]; by apply (Hp col i v)).
    by destruct (ord_holds _ _).
  - intros [Hp1 Hp2]. rewrite IH1, IH2 by done.
    destruct (eval_row b p1 i) as [[]|], (eval_row b p2 i) as [[]|]; done.
Qed.

Lemma ieee_rows_kept b p : pred_agrees b p → ieee_rows b p = kept_rows b p.
Proof.
  intros Hp. unfold ieee_rows, kept_rows. apply filter_ext_in. intros i _.
  rewrite ieee_row_eval by done. apply bool_decide_eq_true.
Qed.

Lemma kept_by_ieee b cols p :
  columns b = col_array <$> cols → Forall (col_ok (num_rows b)) cols →
  kept_by (num_rows b) (mask_row cols p) = ieee_rows b p.
Proof.
  intros Hcols Hok. unfold kept_by, ieee_rows. apply filter_ext_in. intros i Hi%elem_of_seq.
  by rewrite (mask_row_ieee b cols (num_rows b)) by (done || lia).
Qed.

Lemma kept_by_rows b cols p :
  columns b = col_array <$> cols → Forall (col_ok (num_rows b)) cols → pred_agrees b p →
  kept_by (num_rows b) (mask_row cols p) = kept_rows b p.
Proof. intros. rewrite kept_by_ieee by done. by apply ieee_rows_kept. Qed.

Lemma ieee_rows_in b p : Forall (λ i, (i < num_rows b)%nat) (ieee_rows b p).
Proof. apply Forall_forall. intros i [_ Hi%elem_of_seq]%list_elem_of_filter. lia. Qed.

(** A gathered column is the column taken at the indices. *)
Lemma gathered_take n c indices total c' idx :
  col_ok n c → gathered c indices total c' → take total indices = idx → length idx = total → in_bounds n idx →
  col_array c' = array_take (col_array c) idx.
Proof.
  intros Hok (Hok' & Ht & Hcell) Hidx Hlen Hin. unfold col_array, cb_array, array_take. cbn [data_type values].
  change (cb_type (col_bytes c')) with (cc_type c'). rewrite Ht. f_equal.
  destruct (col_ok_prefix _ _ Hok) as [_ Hn]. destruct (col_ok_prefix _ _ Hok') as [_ Hn'].
  cbn [cb_len col_bytes]. rewrite !Nat2Z.id, Hn, Hn'. apply list_eq. intros j. rewrite list_lookup_fmap.
  destruct (decide (j < total)%nat) as [Hj|Hj].
  - rewrite lookup_seq_lt by done. cbn [fmap option_fmap option_map Nat.add]. rewrite Hcell by done.
    destruct (lookup_lt_is_Some_2 idx j ltac:(lia)) as [i Hi].
    unfold in_bounds in Hin. pose proof (Forall_lookup_1 _ _ _ _ Hin Hi) as Hb. cbn in Hb.
    assert (indices !! j = Some i) as Hji by (rewrite <- Hidx, lookup_take_lt in Hi by done; done).
    unfold source. rewrite Hji. cbn. rewrite (gather_lookup _ _ j i); [| |done].
    + rewrite list_lookup_fmap, lookup_seq_lt by lia. done.
    + unfold in_bounds. by rewrite length_fmap, length_seq.
  - rewrite lookup_seq_ge by lia. symmetry. apply lookup_ge_None_2.
    rewrite length_gather by (unfold in_bounds; by rewrite length_fmap, length_seq). lia.
Qed.

(** ** The filter *)

(** The batch under a schema without metadata, as the device returns it. *)
Definition no_metadata (b : RecordBatch) : RecordBatch :=
  mkBatch (Schema_new (fields (schema b))) (columns b) (num_rows b).

Lemma pred_fault_typed b cols p :
  columns b = col_array <$> cols → pred_fault b p = None → leaves_typed cols p.
Proof.
  intros Hcols. induction p as [idx op literal|p1 IH1 p2 IH2]; cbn [pred_fault leaves_typed].
  - rewrite Hcols, list_lookup_fmap. destruct (cols !! idx) as [c|]; cbn; [|done].
    destruct (decide (cc_type c = literal_data_type literal)); [|done]. by exists c.
  - destruct (pred_fault b p1); [done|]. intros H2. split; [by apply IH1|by apply IH2].
Qed.

Lemma mapM_ok_or {A} (l : list A) idx xs (e : EngineError) :
  mapM (λ i, l !! i) idx = Some xs → mapM (λ i, ok_or (l !! i) e) idx = Ok xs.
Proof.
  intros Hx%mapM_Some. apply mapM_res_Ok. eapply Forall2_impl; [exact Hx|]. intros i x Hi. cbn. by rewrite Hi.
Qed.

Lemma rows_in_bounds n (rows : list nat) : Forall (λ i, (i < n)%nat) rows → in_bounds n (Z.of_nat <$> rows).
Proof. intros Hr. apply Forall_fmap. eapply Forall_impl; [exact Hr|]. intros i Hi. cbn in Hi |- *. lia. Qed.

Lemma kept_in_rows b p : in_bounds (num_rows b) (kept b p).
Proof. apply rows_in_bounds, Forall_forall. intros i [_ Hi%elem_of_seq]%list_elem_of_filter. lia. Qed.

(** Columns gathered one by one are the projection, taken at the indices. *)
Lemma gathered_projection n (all : list CudaColumn) projection indices idx cs cols :
  mapM (λ i, all !! i) projection = Some cs → take (length idx) indices = idx → in_bounds n idx →
  Forall2 (λ i c', ∃ c, all !! i = Some c ∧ col_ok n c ∧ gathered c indices (length idx) c') projection cols →
  Forall (col_ok (length idx)) cols ∧ col_array <$> cols = (λ c, array_take (col_array c) idx) <$> cs.
Proof.
  intros Hcs%mapM_Some Hidx Hin Hcols. split.
  - clear -Hcols. induction Hcols as [|i c' l l' (c & _ & _ & (Hok & _)) _ IH]; by constructor.
  - revert cs Hcs. induction Hcols as [|i c' l l' (c & Hc & Hcok & Hgd) _ IH]; intros cs Hcs.
    { by apply Forall2_nil_inv_l in Hcs as ->. }
    apply Forall2_cons_inv_l in Hcs as (c0 & cs' & Hc0 & Hcs & ->). rewrite Hc in Hc0. injection Hc0 as <-.
    rewrite !fmap_cons. f_equal; [|by apply IH]. by eapply gathered_take.
Qed.

Section Filter.
Context {D : Type} `{!CudaApi D} (drv_ok : no_driver_panic (D := D)) `{!ArrowKernels, !ArrowLaws}.

(** The projected columns, gathered at the kept rows. *)
Lemma gather_projection_spec n cb projection indices idx cs E :
  Forall (col_ok n) (cbt_columns cb) → mapM (λ i, cbt_columns cb !! i) projection = Some cs →
  Forall (λ c, gatherable (cc_type c) ∧ Z.of_nat (length idx * width (cc_type c)) < 2 ^ 63) cs →
  take (length idx) indices = idx → in_bounds n idx → Z.of_nat (length idx) + 7 < U32 →
  cu_spec (D := D)
    (cu_mapM (λ i, cu_bind (cu_lift (cuda_column cb i)) (λ c, gather_column c indices (length idx))) projection) E
    (λ cols, Forall (col_ok (length idx)) cols ∧
       col_array <$> cols = (λ c, array_take (col_array c) idx) <$> cs).
Proof.
  intros Hok Hmap Hg Hidx Hin Hu. pose proof Hmap as Hcs. apply mapM_Some in Hcs.
  assert (length idx ≤ length indices)%nat as Hlen by (rewrite <- Hidx at 1; rewrite length_take; lia).
  assert (∀ j i, (j < length idx)%nat → indices !! j = Some i → 0 ≤ i < Z.of_nat n) as Hlt.
  { intros j i Hj Hi. rewrite <- (lookup_take_lt _ (length idx)), Hidx in Hi by done.
    exact (Forall_lookup_1 _ _ _ _ Hin Hi). }
  eapply cu_spec_weaken; [|done|].
  - apply (cu_spec_mapM _ _ _ (λ i c', ∃ c, cbt_columns cb !! i = Some c ∧ col_ok n c ∧ gathered c indices (length idx) c')).
    intros i (k & Hk)%list_elem_of_lookup. destruct (Forall2_lookup_l _ _ _ _ _ Hcs Hk) as (c & Hck & Hc).
    pose proof (Forall_lookup_1 _ _ _ _ Hok Hc) as Hcok. destruct (Forall_lookup_1 _ _ _ _ Hg Hck) as [Hgc Hsz].
    eapply (cu_spec_bind_Ok _ _ c); [unfold cuda_column; by rewrite Hc|].
    eapply cu_spec_weaken; [by apply (gather_column_spec drv_ok n)|done|]. intros c' Hc'. by exists c.
  - intros cols Hcols. by apply (gathered_projection n (cbt_columns cb) projection indices).
Qed.

Lemma rows_small (m n w : nat) : (m ≤ n)%nat → Z.of_nat (n * w) < 2 ^ 63 → Z.of_nat (m * w) < 2 ^ 63.
Proof. nia. Qed.

Lemma rows_le b p : (length (ieee_rows b p) ≤ num_rows b)%nat.
Proof. unfold ieee_rows. rewrite length_filter, length_seq. done. Qed.

Lemma cuda_filter_spec s a b :
  cuda_stream s = Ok tt → cuda_holds (fp_input a) b → Z.of_nat (num_rows b) + 7 < U32 →
  pred_fault b (fp_predicate a) = None →
  Forall (λ i, (i < num_columns b)%nat) (fp_projection a) →
  Forall (λ c, gatherable (data_type c)) (columns b) →
  cu_spec (D := D) (cuda_filter_project s a) (λ _, False) (λ d, ∃ out,
    ieee_filtered b (fp_predicate a) (fp_projection a) = Some out ∧ cuda_holds d out).
Proof.
  intros Hs (Hsch & Hnr & Hb & cb & Hin & Hrows & Hok & Hcols) Hu Hfault Hproj Hgather.
  set (p := fp_predicate a) in *. set (proj := fp_projection a) in *. set (n := num_rows b) in *.
  destruct (mapM_lookup_in (fields (schema b)) proj) as [fs Hf].
  { by rewrite (batch_ok_num_columns _ Hb). }
  destruct (mapM_lookup_in (cbt_columns cb) proj) as [cs Hc].
  { unfold num_columns in Hproj. by rewrite Hcols, length_fmap in Hproj. }
  assert (mapM (λ i, columns b !! i) proj = Some (col_array <$> cs)) as Hca.
  { apply mapM_Some_2, Forall2_fmap_r. apply mapM_Some in Hc. eapply Forall2_impl; [exact Hc|].
    intros i c Hi. cbn. by rewrite Hcols, list_lookup_fmap, Hi. }
  unfold cuda_filter_project. eapply cu_spec_bind_Ok; [exact Hs|].
  eapply (cu_spec_bind_Ok _ _ cb); [unfold cuda_batch; by rewrite Hin|].
  eapply (cu_spec_bind_Ok _ _ n); [rewrite Hrows; apply u32_len_small; lia|].
  eapply (cu_spec_bind_Ok _ _ fs); [rewrite Hsch; by apply mapM_ok_or|].
  eapply (cu_spec_bind_Ok _ _ cs); [by apply mapM_ok_or|].
  eapply cu_spec_bind; [apply (evaluate_mask_spec drv_ok n cb p); [done|by eapply pred_fault_typed]|].
  intros mask Hm. eapply cu_spec_bind; [by apply (compact_spec drv_ok n mask (mask_row (cbt_columns cb) p)); [unfold u32_max; lia|]|].
  intros [indices total]. cbn [fst snd]. rewrite (kept_by_ieee b) by done. intros [-> Hidx].
  set (rows := ieee_rows b p) in *. set (idx := Z.of_nat <$> rows) in *.
  assert (length rows = length idx) as Hlen by (unfold idx; by rewrite length_fmap). rewrite Hlen in *.
  pose proof (rows_le b p) as Hle. fold rows in Hle. rewrite Hlen in Hle.
  eapply cu_spec_bind.
  { apply (gather_projection_spec n cb proj indices idx cs); [done|done| |done|apply rows_in_bounds, ieee_rows_in|lia].
    apply mapM_Some in Hc. apply Forall_forall. intros c (k & Hk)%list_elem_of_lookup.
    destruct (Forall2_lookup_r _ _ _ _ _ Hc Hk) as (i & _ & Hi). split.
    - rewrite Hcols in Hgather. apply (Forall_lookup_1 _ _ i (col_array c) Hgather). by rewrite list_lookup_fmap, Hi.
    - pose proof (Forall_lookup_1 _ _ _ _ Hok Hi) as (_ & _ & _ & _ & _ & Hsz & _). by eapply rows_small. }
  intros cols [Hcok Hcarr]. apply cu_spec_ret. eexists. split; [unfold ieee_filtered; by rewrite Hf, Hca|].
  fold rows idx. rewrite <- Hlen in *. split_and!; [done|done|by apply (taken_batch_ok b fs (col_array <$> cs) proj); [|apply ieee_rows_in|..]|].
  exists (mkCudaBatch (length rows) cols). split_and!; [done..|]. cbn. rewrite Hcarr.
  by rewrite <- list_fmap_compose.
Qed.

(** Where the orders agree, the rows by IEEE rules are the reference filter's. *)
Lemma ieee_filtered_reference b p projection out :
  batch_ok b → pred_fault b p = None → pred_agrees b p → ieee_filtered b p projection = Some out →
  ∃ ref, filter_project b p projection = Ok ref ∧ out = no_metadata ref.
Proof.
  unfold ieee_filtered. intros Hb Hf Ha (fs & Hfs & (cs & Hcs & [= <-])%bind_Some)%bind_Some.
  eexists. split; [by apply filter_batch_spec|]. unfold no_metadata, kept. by rewrite ieee_rows_kept by done.
Qed.

(** C7: the CUDA filter on any scheduling of its threads: given a device batch
    that stands for a host batch, a well-typed predicate and a projection in
    range, it ends with a device batch that stands for the projected columns at
    exactly the rows on which the predicate holds by the kernel's own
    comparisons, in their order, or with a driver error if the driver failed; it
    never leaves a device buffer.  Integers compare numerically, [Float64] values
    by IEEE rules, and a null satisfies nothing.  The reference filter compares
    [Float64] by the total order instead, so the result is the reference's
    (its schema's metadata aside) when the two orders agree on every value a
    [Float64] literal is compared with, which NaN and the signed zeros can
    break. *)
Theorem cuda_filter_correct s a b st :
  cuda_stream s = Ok tt → cuda_holds (fp_input a) b → Z.of_nat (num_rows b) + 7 < U32 →
  pred_fault b (fp_predicate a) = None →
  Forall (λ i, (i < num_columns b)%nat) (fp_projection a) →
  Forall (λ c, gatherable (data_type c)) (columns b) →
  match (cuda_filter_project (D := D) s a st).2 with
  | Ok d => ∃ out, ieee_filtered b (fp_predicate a) (fp_projection a) = Some out ∧ cuda_holds d out ∧
      (pred_agrees b (fp_predicate a) →
       ∃ ref, filter_project b (fp_predicate a) (fp_projection a) = Ok ref ∧ out = no_metadata ref)
  | Err e => driver_failure (D := D) e
  | Panic => False
  end.
Proof.
  intros Hs Hh Hu Hf Hp Hg. pose proof (cuda_filter_spec s a b Hs Hh Hu Hf Hp Hg st) as Hspec.
  destruct (cuda_filter_project s a st).2 as [d| |]; [|tauto|done]. destruct Hspec as (out & Hout & Hd).
  exists out. split_and!; [done|done|]. intros Ha. apply ieee_filtered_reference; [|done..]. by destruct Hh as (_ & _ & Hb & _).
Qed.
End Filter.

(** ** Examples *)

Module CudaExample.

(** A driver that never fails and runs the threads of a launch from the last to
    the first. *)
#[local] Instance backwards : CudaApi nat := {|
  drv_alloc d _ := (S d, None);
  drv_htod d _ := (S d, None);
  drv_dtoh d _ := (S d, None);
  drv_mem_info d := (S d, Ok (2 ^ 30, 2 ^ 32));
  drv_new_stream d := (S d, Ok d);
  drv_synchronize d _ := (S d, None);
  drv_launch d _ threads := (S d, Ok (reverse (seq 0 threads)));
  nvrtc_compile d _ := (S d, Ok d);
  drv_load_module d _ := (S d, Ok d);
  drv_load_function d _ _ := (S d, Ok d);
|}.
Lemma backwards_ok : no_driver_panic (D := nat).
Proof. by split_and!. Qed.
Lemma backwards_healthy : healthy (D := nat).
Proof. split_and!; try done; intros; by eexists. Qed.

Definition fresh : CudaState nat := mkCuda 0%nat ∅ ∅.
Definition stream : DeviceStream := mkStream Cuda (StreamCuda 0).

(** The demo batch of [FilterExample] in device memory. *)
Definition demo_columns : list CudaColumn :=
  [mkCudaColumn Int64 4 0 32 (concat (to_le_bytes 8 <$> [3; 0; 7; 9])) (Some [13]);
   mkCudaColumn Float64 4 0 32
     (concat (to_le_bytes 8 <$> [0x4008000000000000; 0; 0; 0x4022000000000000])) (Some [11])].
Definition demo_device : DeviceBatch :=
  mkDeviceBatch Cuda (schema FilterExample.demo) 4 (BatchCuda (mkCudaBatch 4 demo_columns)).

Lemma demo_holds : cuda_holds demo_device FilterExample.demo.
Proof.
  split_and!; [done|done|apply (bool_decide_unpack _); vm_compute; exact I|].
  exists (mkCudaBatch 4 demo_columns). split_and!; [done|done| |vm_compute; reflexivity].
  repeat constructor; try done; intros bits [= <-]; done.
Qed.

Definition args (p : Predicate) (projection : list nat) : FilterProjectArgs := mkFilterArgs demo_device p projection.

Lemma demo_agrees : pred_agrees FilterExample.demo FilterExample.demo_pred.
Proof.
  split; [exact I|]. intros col i v [= <-] Hv.
  destruct i as [|[|[|[|]]]]; try discriminate; injection Hv as <-; vm_compute; reflexivity.
Qed.

Lemma cuda_filter_correct_witness :
  match (cuda_filter_project stream (args FilterExample.demo_pred [1; 0]%nat) fresh).2 with
  | Ok d => ∃ ref, filter_project FilterExample.demo FilterExample.demo_pred [1; 0]%nat = Ok ref ∧
              cuda_holds d (no_metadata ref)
  | Err e => driver_failure (D := nat) e
  | Panic => False
  end.
Proof.
  pose proof (cuda_filter_correct backwards_ok stream (args FilterExample.demo_pred [1; 0]%nat) FilterExample.demo fresh
    ltac:(reflexivity) demo_holds ltac:(vm_compute; reflexivity) ltac:(vm_compute; reflexivity) ltac:(repeat constructor)
    ltac:(repeat constructor)) as Hc.
  destruct (cuda_filter_project stream (args FilterExample.demo_pred [1; 0]%nat) fresh).2 as [d|e|]; [|exact Hc|exact Hc].
  destruct Hc as (out & _ & Hd & Href). destruct (Href demo_agrees) as (ref & Hr & ->). exists ref. by split.
Defined.

(** The rows are the reference's and come in its order. *)
Example demo_on_device :
  let '(c, r) := cuda_filter_project stream (args FilterExample.demo_pred [0]%nat) fresh in
  match r with
  | Ok d => db_num_rows d = 2%nat ∧
      match db_inner d with
      | BatchCuda b => (λ c, values (col_array c)) <$> cbt_columns b = [[Some (VInt 3); Some (VInt 9)]]
      | _ => False
      end
  | _ => False
  end.
Proof. vm_compute. done. Qed.

(** On a NaN and on the other zero the device's filter and the reference's
    differ: the reference compares by the total order. *)
Example device_compares_by_ieee :
  let nan := F64 0x7ff8000000000000 in let one := F64 0x3ff0000000000000 in
  let neg_zero := F64 0x8000000000000000 in
  ieee_holds CGtEq (VF64 nan) (LFloat64 one) = false ∧ ord_holds CGtEq (f64_total_cmp nan one) = true ∧
  ieee_holds CEq (VF64 neg_zero) (LFloat64 f64_zero) = true ∧ ord_holds CEq (f64_total_cmp neg_zero f64_zero) = false.
Proof. vm_compute. done. Qed.

(** With [u32::MAX] selected rows the validity kernel computes no bytes at all. *)
Example validity_bytes_wrap src indices byte dst :
  oxide_gather_validity src indices (Z.to_nat (U32 - 1)) byte dst = Some dst.
Proof.
  unfold oxide_gather_validity. rewrite Z2Nat.id by done. change (wrap32 (U32 - 1 + 7) / 8) with 0.
  by destruct (Z.leb_spec 0 (Z.of_nat byte)); [|lia].
Qed.
End CudaExample.
