(* ===== verification/CudaTable.v ===== *)
(** * The concurrent table build of the CUDA hash join

    Threads of [oxide_hj_build] race for the slots of an open-addressing table,
    one memory operation at a time, in any interleaving.  The invariant is that
    a thread owns the slot it claimed alone, that the slots between a key's hash
    and the slot it landed in are taken, and that every taken slot has an owner.
    Every thread ends within its own [capacity + 6] turns, whatever the others
    do, and the finished table holds each valid key's row exactly once, where a
    probe finds it. *)

From S2P Require Import Prelude Floats Arrow Core Memory ArrowKernels Kernels Device Bytes Columns.
From S2P Require Import CudaKernels CudaLaunch.

(** ** Slots *)

Lemma land_capacity x capacity :
  (∃ p, capacity = 2 ^ p)%nat → 0 ≤ x → Z.to_nat (Z.land x (Z.of_nat capacity - 1)) = (Z.to_nat x mod capacity)%nat.
Proof.
  intros [p ->] Hx. assert (Z.of_nat (2 ^ p) - 1 = Z.ones (Z.of_nat p)) as ->.
  { rewrite Z.ones_equiv, Nat2Z.inj_pow. change (Z.of_nat 2) with 2. lia. }
  rewrite Z.land_ones by lia. rewrite <- (Z2Nat.id x) at 1 by done.
  change 2 with (Z.of_nat 2). rewrite <- Nat2Z.inj_pow, <- Nat2Z.inj_mod. apply Nat2Z.id.
Qed.

Lemma wrap64_nonneg z : 0 ≤ wrap64 z.
Proof. apply wrap64_range. Qed.

Lemma lxor_shift_nonneg h : 0 ≤ h → 0 ≤ Z.lxor h (Z.shiftr h 33).
Proof. intros Hh. apply Z.lxor_nonneg. split; [|done]. intros _. by apply Z.shiftr_nonneg. Qed.

Section Table.
Context (keys : list Z) (validity : option (list Z)) (n capacity : nat).
Hypothesis cap_pow : (∃ p, capacity = 2 ^ p)%nat.
Hypothesis cap_room : (n < capacity)%nat.

(** The valid key of a row. *)
Context (kv : nat → option Z).
Hypothesis kv_valid : ∀ i, (i < n)%nat → oxide_is_valid validity i = Some (bool_decide (is_Some (kv i))).
Hypothesis kv_load : ∀ i k, kv i = Some k → (i < n)%nat ∧ load_i64 keys i = Some k.

Lemma hash_lt k : (oxide_hj_hash k capacity < capacity)%nat.
Proof.
  unfold oxide_hj_hash. cbv zeta. rewrite land_capacity; [apply Nat.mod_upper_bound; lia|done|].
  apply lxor_shift_nonneg, wrap64_nonneg.
Qed.

(** The slot a key reaches after [p] steps. *)
Definition slot_at (k : Z) (p : nat) : nat := (oxide_hj_hash k capacity + p) mod capacity.

Lemma slot_at_0 k : slot_at k 0 = oxide_hj_hash k capacity.
Proof. unfold slot_at. rewrite Nat.add_0_r. apply Nat.mod_small, hash_lt. Qed.

Lemma slot_at_lt k p : (slot_at k p < capacity)%nat.
Proof. apply Nat.mod_upper_bound. lia. Qed.

Lemma next_slot_at k p : next_slot (slot_at k p) capacity = slot_at k (S p).
Proof.
  unfold next_slot. rewrite land_capacity by (done || lia).
  replace (Z.to_nat (Z.of_nat (slot_at k p) + 1)) with (slot_at k p + 1)%nat by lia.
  unfold slot_at. rewrite Nat.Div0.add_mod_idemp_l. f_equal. lia.
Qed.

Lemma slot_at_inj k p q : (p < capacity)%nat → (q < capacity)%nat → slot_at k p = slot_at k q → p = q.
Proof.
  unfold slot_at. set (h := oxide_hj_hash k capacity). intros Hp Hq Heq.
  pose proof (hash_lt k) as Hh. fold h in Hh.
  pose proof (Nat.div_mod_eq (h + p) capacity) as H1. pose proof (Nat.div_mod_eq (h + q) capacity) as H2.
  rewrite Heq in H1.
  assert ((h + p) / capacity < 2 ∧ (h + q) / capacity < 2)%nat as [Ha Hb]
    by (split; apply Nat.Div0.div_lt_upper_bound; lia).
  assert (∀ x, (x < 2)%nat → x = 0%nat ∨ x = 1%nat) as Hx by lia.
  destruct (Hx _ Ha) as [Hp0|Hp0], (Hx _ Hb) as [Hq0|Hq0]; rewrite Hp0 in H1; rewrite Hq0 in H2; lia.
Qed.

Lemma slot_at_surj k s : (s < capacity)%nat → ∃ p, (p < capacity)%nat ∧ slot_at k p = s.
Proof.
  intros Hs. pose proof (hash_lt k) as Hh. unfold slot_at. set (h := oxide_hj_hash k capacity) in *.
  destruct (decide (h ≤ s)%nat).
  - exists (s - h)%nat. split; [lia|]. rewrite Nat.mod_small by lia. lia.
  - exists (s + capacity - h)%nat. split; [lia|].
    replace (h + (s + capacity - h))%nat with (s + 1 * capacity)%nat by lia.
    rewrite Nat.Div0.mod_add. by apply Nat.mod_small.
Qed.

(** ** The invariant *)

Definition taken (t : HashTable) (s : nat) : Prop := ∃ v, t_state t !! s = Some v ∧ v ≠ 0.

(** A key that sits in slot [s] was pushed there by taken slots. *)
Definition chain (t : HashTable) (k : Z) (s : nat) : Prop :=
  ∃ p, (p < capacity)%nat ∧ s = slot_at k p ∧ ∀ j, (j < p)%nat → taken t (slot_at k j).

(** The slot a thread owns. *)
Definition pc_slot (pc : BuildPc) : option nat :=
  match pc with
  | BKey _ s | BRow _ s | BPublish _ s => Some s
  | BDone filled => filled
  | _ => None
  end.

(** Slot [s] is claimed or published for row [i]. *)
Definition holds_row (t : HashTable) (i : nat) (k : Z) (s : nat) (state : Z) (with_key with_row : bool) : Prop :=
  kv i = Some k ∧ chain t k s ∧ t_state t !! s = Some state ∧
  (with_key = true → t_keys t !! s = Some k) ∧ (with_row = true → t_rows t !! s = Some (Z.of_nat i)).

Definition pc_ok (t : HashTable) (i : nat) (pc : BuildPc) : Prop :=
  match pc with
  | BStart => True
  | BProbe k slot probes =>
      kv i = Some k ∧ (probes ≤ capacity)%nat ∧ slot = slot_at k probes ∧
      ∀ j, (j < probes)%nat → taken t (slot_at k j)
  | BKey k s => holds_row t i k s 1 false false
  | BRow k s => holds_row t i k s 1 true false
  | BPublish k s => holds_row t i k s 1 true true
  | BDone (Some s) => ∃ k, holds_row t i k s 2 true true
  | BDone None => kv i = None
  end.

Definition table_len (t : HashTable) : Prop :=
  length (t_keys t) = capacity ∧ length (t_rows t) = capacity ∧ length (t_state t) = capacity.

Record build_inv (s : list BuildPc * HashTable) : Prop := {
  inv_len : table_len s.2;
  inv_pc i pc : s.1 !! i = Some pc → pc_ok s.2 i pc;
  inv_own i j pci pcj sl :
    s.1 !! i = Some pci → s.1 !! j = Some pcj → pc_slot pci = Some sl → pc_slot pcj = Some sl → i = j;
  inv_taken sl : taken s.2 sl → ∃ i pc, s.1 !! i = Some pc ∧ pc_slot pc = Some sl;
}.

Lemma pc_slot_row t i pc s : pc_ok t i pc → pc_slot pc = Some s → (i < n)%nat ∧ taken t s ∧ (s < capacity)%nat.
Proof.
  intros Hok Hs. assert (∃ k st a b, holds_row t i k s st a b ∧ st ≠ 0) as (k & st & a & b & (Hk & Hc & Hst & _) & H0).
  { destruct pc as [| | | | |[f|]]; cbn in *; try done; injection Hs as <-; try (by eexists _, 1, _, _).
    destruct Hok as [k Hk]. by eexists _, 2, _, _. }
  split; [by apply (kv_load i k Hk)|]. split; [by exists st|].
  destruct Hc as (p & _ & -> & _). apply slot_at_lt.
Qed.

(** One owner per slot, and fewer rows than slots. *)
Lemma not_full s k : build_inv s → ¬ (∀ p, (p < capacity)%nat → taken s.2 (slot_at k p)).
Proof.
  intros Hinv Hall.
  assert (∀ l, Forall (λ sl, sl < capacity)%nat l → ∃ os, Forall2 (λ sl i, (i < n)%nat ∧
    ∃ pc, s.1 !! i = Some pc ∧ pc_slot pc = Some sl) l os) as Howners.
  { induction 1 as [|sl l Hsl _ (os & Hos)]; [by exists []|].
    destruct (slot_at_surj k sl Hsl) as (p & Hp & Hps). specialize (Hall p Hp). rewrite Hps in Hall.
    destruct (inv_taken s Hinv sl Hall) as (i & pc & Hi & Hpc).
    exists (i :: os). constructor; [|done]. split; [|by exists pc].
    by apply (pc_slot_row s.2 i pc sl (inv_pc s Hinv i pc Hi)). }
  destruct (Howners (seq 0 capacity)) as (os & Hos).
  { apply Forall_forall. intros sl Hsl%elem_of_seq. lia. }
  assert (NoDup os) as Hnd.
  { apply NoDup_alt. intros a b i Ha Hb.
    destruct (Forall2_lookup_r _ _ _ _ _ Hos Ha) as (sa & Hsa & _ & pa & Hpa & Hla).
    destruct (Forall2_lookup_r _ _ _ _ _ Hos Hb) as (sb & Hsb & _ & pb & Hpb & Hlb).
    rewrite Hpa in Hpb. injection Hpb as <-. rewrite Hla in Hlb. injection Hlb as <-.
    apply lookup_seq in Hsa as [Hsa _]. apply lookup_seq in Hsb as [Hsb _]. lia. }
  assert (os ⊆ seq 0 n) as Hsub.
  { intros i (a & Ha)%list_elem_of_lookup. destruct (Forall2_lookup_r _ _ _ _ _ Hos Ha) as (sa & _ & Hi & _).
    apply elem_of_seq. lia. }
  pose proof (submseteq_length _ _ (NoDup_submseteq _ _ Hnd Hsub)) as Hl.
  apply Forall2_length in Hos. rewrite !length_seq in *. lia.
Qed.

(** ** One turn *)

(** [t'] differs from [t] in slot [s] only, and empties nothing. *)
Definition same_but (s : nat) (t t' : HashTable) : Prop :=
  table_len t' ∧ (∀ s', taken t s' → taken t' s') ∧
  ∀ s', s' ≠ s → t_keys t' !! s' = t_keys t !! s' ∧ t_rows t' !! s' = t_rows t !! s' ∧
                 t_state t' !! s' = t_state t !! s'.

Lemma chain_mono t t' k s : (∀ s', taken t s' → taken t' s') → chain t k s → chain t' k s.
Proof. intros Hm (p & Hp & Hs & Hc). exists p. split_and!; [done..|]. intros j Hj. by apply Hm, Hc. Qed.

Lemma holds_row_frame t t' s i k s' st a b :
  same_but s t t' → s' ≠ s → holds_row t i k s' st a b → holds_row t' i k s' st a b.
Proof.
  intros (_ & Hm & Hsame) Hne (Hk & Hc & Hst & Ha & Hb).
  unfold holds_row. destruct (Hsame s' Hne) as (-> & -> & ->). split_and!; [done|by eapply chain_mono|done..].
Qed.

Lemma pc_ok_frame t t' s i pc :
  same_but s t t' → pc_slot pc ≠ Some s → pc_ok t i pc → pc_ok t' i pc.
Proof.
  intros Hsame Hs. destruct pc as [|k sl p|k sl|k sl|k sl|[sl|]]; cbn in *; try done.
  - intros (Hk & Hp & Hsl & Hc). split_and!; [done..|]. intros j Hj. by apply Hsame, Hc.
  - apply (holds_row_frame _ _ s); congruence.
  - apply (holds_row_frame _ _ s); congruence.
  - apply (holds_row_frame _ _ s); congruence.
  - intros (k & Hk). exists k. apply (holds_row_frame t _ s); congruence.
Qed.

(** A thread that changes nothing of the table. *)
Lemma inv_move pcs t i pc pc' :
  build_inv (pcs, t) → pcs !! i = Some pc → pc_slot pc = None → pc_slot pc' = None → pc_ok t i pc' →
  build_inv (<[i := pc']> pcs, t).
Proof.
  intros [Hlen Hpc Hown Htk] Hi Hs Hs' Hok. cbn in *. split; cbn; [done|..].
  - intros j pcj [(-> & -> & _)|[Hne Hj]]%list_lookup_insert_Some; [done|by apply Hpc].
  - intros j1 j2 p1 p2 sl [(-> & -> & _)|[Hne1 Hj1]]%list_lookup_insert_Some
      [(-> & -> & _)|[Hne2 Hj2]]%list_lookup_insert_Some H1 H2; try congruence. by eapply Hown.
  - intros sl Hsl. destruct (Htk sl Hsl) as (j & pcj & Hj & Hpcj). exists j, pcj.
    rewrite list_lookup_insert_ne; [done|]. intros ->. congruence.
Qed.

(** A thread that works on slot [s], its own or a free one. *)
Lemma inv_update pcs t t' i pc pc' s :
  build_inv (pcs, t) → pcs !! i = Some pc → same_but s t t' → pc_ok t' i pc' → pc_slot pc' = Some s →
  (pc_slot pc = Some s ∨ pc_slot pc = None ∧ ¬ taken t s) → build_inv (<[i := pc']> pcs, t').
Proof.
  intros [Hlen Hpc Hown Htk] Hi Hsame Hok Hs' Hs. cbn in *.
  assert (∀ j pcj, j ≠ i → pcs !! j = Some pcj → pc_slot pcj ≠ Some s) as Hnot.
  { intros j pcj Hne Hj Hsj. destruct Hs as [Hs|[_ Hfree]].
    - by apply Hne, (Hown j i pcj pc s).
    - apply Hfree. by apply (pc_slot_row t j pcj s (Hpc j pcj Hj)). }
  split; cbn; [apply Hsame|..].
  - intros j pcj [(-> & -> & _)|[Hne Hj]]%list_lookup_insert_Some; [done|].
    apply (pc_ok_frame t t' s); [done|by apply (Hnot j)|by apply Hpc].
  - intros j1 j2 p1 p2 sl [(<- & <- & _)|[Hne1 Hj1]]%list_lookup_insert_Some
      [(<- & <- & _)|[Hne2 Hj2]]%list_lookup_insert_Some H1 H2; [done| | |by eapply Hown].
    + exfalso. apply (Hnot j2 p2); congruence.
    + exfalso. apply (Hnot j1 p1); congruence.
  - intros sl (v & Hv & Hv0). destruct (decide (sl = s)) as [->|Hne].
    { exists i, pc'. rewrite list_lookup_insert_eq by (by eapply lookup_lt_Some). done. }
    rewrite (proj2 (proj2 (proj2 (proj2 Hsame) sl Hne))) in Hv.
    destruct (Htk sl) as (j & pcj & Hj & Hpcj); [by exists v|]. exists j, pcj.
    rewrite list_lookup_insert_ne; [done|]. intros ->. destruct Hs as [Hs|[Hs _]]; congruence.
Qed.

Lemma store_Some {A} (l : list A) i v : (i < length l)%nat → store l i v = Some (<[i := v]> l).
Proof. intros Hl. unfold store. by rewrite (proj2 (Nat.ltb_lt _ _) Hl). Qed.

(** The turns a thread still takes. *)
Definition weight (pc : BuildPc) : nat :=
  match pc with
  | BStart => capacity + 5
  | BProbe _ _ p => capacity - p + 4
  | BKey _ _ => 3 | BRow _ _ => 2 | BPublish _ _ => 1 | BDone _ => 0
  end.

Lemma taken_insert t sl v s ks rs :
  (sl < length (t_state t))%nat → v ≠ 0 → taken t s → taken (mkHashTable ks rs (<[sl := v]> (t_state t))) s.
Proof.
  intros Hl Hv (v' & Hv' & H0). destruct (decide (s = sl)) as [->|Hne].
  - exists v. cbn. by rewrite list_lookup_insert_eq.
  - exists v'. cbn. by rewrite list_lookup_insert_ne.
Qed.

(** The memory operations of a thread on the slot it works on. *)
Lemma same_but_state t sl v :
  table_len t → (sl < capacity)%nat → v ≠ 0 →
  same_but sl t (mkHashTable (t_keys t) (t_rows t) (<[sl := v]> (t_state t))).
Proof.
  intros (Hk & Hr & Hs) Hl Hv. split_and!; [by split_and!; cbn; [..|rewrite length_insert]| |].
  - intros s' Hs'. apply taken_insert; [lia|done|done].
  - intros s' Hne. cbn. by rewrite list_lookup_insert_ne.
Qed.
Lemma same_but_keys t sl v :
  table_len t → same_but sl t (mkHashTable (<[sl := v]> (t_keys t)) (t_rows t) (t_state t)).
Proof.
  intros (Hk & Hr & Hs). split_and!; [by split_and!; cbn; [rewrite length_insert|..]|done|].
  cbn. intros s' Hne. by rewrite list_lookup_insert_ne.
Qed.
Lemma same_but_rows t sl v :
  table_len t → same_but sl t (mkHashTable (t_keys t) (<[sl := v]> (t_rows t)) (t_state t)).
Proof.
  intros (Hk & Hr & Hs). split_and!; [by split_and!; cbn; [|rewrite length_insert|]|done|].
  cbn. intros s' Hne. by rewrite list_lookup_insert_ne.
Qed.

(** A turn of one thread keeps the invariant and brings the thread closer to its
    end. *)
Definition good_turn (pcs : list BuildPc) (t : HashTable) (i : nat) (pc : BuildPc) : Prop :=
  ∃ pc' t', oxide_hj_build keys validity n capacity i pc t = Some (pc', t') ∧
    build_inv (<[i := pc']> pcs, t') ∧ (weight pc' ≤ weight pc - 1)%nat.

Lemma hj_start_turn pcs t i :
  build_inv (pcs, t) → pcs !! i = Some BStart → good_turn pcs t i BStart.
Proof.
  intros Hinv Hi. unfold good_turn. cbn [oxide_hj_build].
  destruct (Nat.leb_spec n i) as [Hge|Hlt].
  { eexists _, t. split; [done|]. split; [|cbn; lia]. apply (inv_move _ _ _ BStart); [done..|]. cbn.
    destruct (kv i) as [k|] eqn:Hk; [|done]. apply kv_load in Hk as [Hk _]. lia. }
  rewrite kv_valid by done. cbn [mbind option_bind]. case_bool_decide as Hv; cbn [negb].
  - destruct Hv as [k Hk]. rewrite (proj2 (kv_load i k Hk)). cbn [mbind option_bind].
    eexists _, t. split; [done|]. split; [|cbn; lia]. apply (inv_move _ _ _ BStart); [done..|].
    cbn. split_and!; [done|lia|by rewrite slot_at_0|lia].
  - eexists _, t. split; [done|]. split; [|cbn; lia]. apply (inv_move _ _ _ BStart); [done..|].
    cbn. by apply eq_None_not_Some.
Qed.

Lemma hj_probe_turn pcs t i k sl p :
  build_inv (pcs, t) → pcs !! i = Some (BProbe k sl p) → good_turn pcs t i (BProbe k sl p).
Proof.
  intros Hinv Hi. pose proof (inv_pc _ Hinv i _ Hi) as Hok. pose proof (inv_len _ Hinv) as (Hlk & Hlr & Hls).
  cbn in Hok, Hlk, Hlr, Hls. unfold good_turn. cbn [oxide_hj_build].
  destruct Hok as (Hk & Hp & -> & Hc). destruct (Nat.leb_spec capacity p) as [Hge|Hlt].
  { exfalso. apply (not_full (pcs, t) k Hinv). intros j Hj. apply Hc. lia. }
  pose proof (slot_at_lt k p) as Hsl.
  destruct (lookup_lt_is_Some_2 (t_state t) (slot_at k p) ltac:(lia)) as [old Hold]. rewrite Hold.
  cbn [mbind option_bind]. destruct (Z.eqb_spec old 0) as [->|Hne].
  - rewrite store_Some by lia. cbn [mbind option_bind]. eexists _, _. split; [done|]. split; [|cbn; lia].
    apply (inv_update _ t _ _ (BProbe k (slot_at k p) p) _ (slot_at k p)); [done|done|by apply same_but_state| |done|].
    + split_and!; [done| |cbn; by rewrite list_lookup_insert_eq by lia|done|done].
      exists p. split_and!; [done|done|]. intros j Hj. apply taken_insert; [lia|done|by apply Hc].
    + right. split; [done|]. intros (v & Hv & Hv0). congruence.
  - eexists _, t. split; [done|]. split; [|cbn; lia]. apply (inv_move _ _ _ (BProbe k (slot_at k p) p)); [done..|].
    cbn. split_and!; [done|lia|apply next_slot_at|]. intros j Hj. destruct (decide (j = p)) as [->|]; [by exists old|].
    apply Hc. lia.
Qed.

(** The writes of the thread that claimed slot [sl]. *)
Ltac slot_write t i Hok pc sl same :=
  destruct (pc_slot_row t i pc sl Hok eq_refl) as (_ & _ & ?); unfold good_turn; cbn [oxide_hj_build];
  rewrite store_Some by lia; cbn [mbind option_bind]; eexists _, _; (split; [done|]); (split; [|cbn; lia]);
  apply (inv_update _ t _ _ pc _ sl); [done|done|by apply same| |done|by left].

Lemma build_step pcs t i pc : build_inv (pcs, t) → pcs !! i = Some pc → good_turn pcs t i pc.
Proof.
  intros Hinv Hi. pose proof (inv_pc _ Hinv i pc Hi) as Hok. pose proof (inv_len _ Hinv) as (Hlk & Hlr & Hls).
  cbn in Hok, Hlk, Hlr, Hls. destruct pc as [|k sl p|k sl|k sl|k sl|f].
  - by apply hj_start_turn.
  - by apply hj_probe_turn.
  - slot_write t i Hok (BKey k sl) sl same_but_keys. destruct Hok as (Hk & Hc & Hst & _).
    split_and!; [done|done|done| |done]. intros _. cbn. by rewrite list_lookup_insert_eq by lia.
  - slot_write t i Hok (BRow k sl) sl same_but_rows. destruct Hok as (Hk & Hc & Hst & Hkey & _).
    split_and!; [done|done|done|done|]. intros _. cbn. by rewrite list_lookup_insert_eq by lia.
  - slot_write t i Hok (BPublish k sl) sl same_but_state. destruct Hok as (Hk & Hc & Hst & Hkey & Hrow).
    exists k. split_and!; [done| |cbn; by rewrite list_lookup_insert_eq by lia|done|done].
    eapply chain_mono; [|exact Hc]. intros s' Hs'. apply taken_insert; [lia|done|done].
  - unfold good_turn. cbn [oxide_hj_build]. eexists _, t. split; [done|]. split; [|cbn; lia]. by rewrite list_insert_id.
Qed.

(** ** Whole executions *)

Abbreviation build := (oxide_hj_build keys validity n capacity).

(** After some turns: the invariant, and every thread has fewer turns left, at
    least one less for each turn it took. *)
Lemma run_inv turns s :
  build_inv s →
  ∃ s', run_turns build turns s = Some s' ∧ build_inv s' ∧ length s'.1 = length s.1 ∧
    ∀ i pc', s'.1 !! i = Some pc' → ∃ pc, s.1 !! i = Some pc ∧
      (weight pc' ≤ weight pc - length (filter (λ j, j = i) turns))%nat.
Proof.
  unfold run_turns. induction turns as [|j turns IH] using rev_ind; intros Hinv.
  { exists s. split_and!; [done..|]. intros i pc' Hi. exists pc'. split; [done|]. cbn. lia. }
  destruct (IH Hinv) as (s1 & Hr & Hinv1 & Hlen & Hw). rewrite foldl_snoc, Hr. cbn [mbind option_bind].
  unfold take_turn. destruct s1 as [pcs t]. cbn [fst snd] in *.
  destruct (pcs !! j) as [pc|] eqn:Hj.
  - destruct (build_step pcs t j pc Hinv1 Hj) as (pc' & t' & -> & Hinv' & Hdec). cbn [mbind option_bind fst snd].
    eexists. split; [done|]. split; [done|]. split; [cbn; by rewrite length_insert|].
    intros i q [(-> & -> & _)|[Hne Hi]]%list_lookup_insert_Some.
    + destruct (Hw i pc Hj) as (pc0 & Hpc0 & Hle). exists pc0. split; [done|].
      rewrite filter_app, filter_cons, length_app, decide_True by done. cbn. lia.
    + destruct (Hw i q Hi) as (pc0 & Hpc0 & Hle). exists pc0. split; [done|].
      rewrite filter_app, filter_cons, length_app, decide_False by done. cbn. lia.
  - eexists. split; [done|]. split; [done|]. split; [done|]. intros i q Hi. cbn [fst] in Hi.
    destruct (Hw i q Hi) as (pc0 & Hpc0 & Hle). exists pc0. split; [done|].
    rewrite filter_app, filter_cons, length_app, decide_False by (intros ->; congruence). cbn. lia.
Qed.

Lemma rounds_count threads i k :
  (i < threads)%nat → length (filter (λ j, j = i) (concat (replicate k (seq 0 threads)))) = k.
Proof.
  intros Hi. assert (∀ l, NoDup l → i ∈ l → length (filter (λ j, j = i) l) = 1%nat) as Hone.
  { induction 1 as [|x l Hx Hnd IH]; [by intros ?%elem_of_nil|]. rewrite filter_cons. case_decide as Heq.
    - intros _. cbn. subst x. assert (filter (λ j, j = i) l = []) as ->; [|done].
      apply elem_of_nil_inv. intros j [-> Hj]%list_elem_of_filter. done.
    - intros [->|Hin]%elem_of_cons; [done|]. by apply IH. }
  induction k as [|k IH]; [done|]. cbn [replicate concat]. rewrite filter_app, length_app, IH, Hone; [done|apply NoDup_seq|].
  apply elem_of_seq. lia.
Qed.

(** What the finished table is. *)
Record built (t : HashTable) : Prop := {
  built_len : table_len t;
  built_row i k : kv i = Some k → ∃ s, holds_row t i k s 2 true true;
  built_slot s : taken t s → ∃ i k, holds_row t i k s 2 true true;
  built_inj s s' r :
    taken t s → taken t s' → t_rows t !! s = Some r → t_rows t !! s' = Some r → s = s';
}.

Lemma done_built pcs t :
  build_inv (pcs, t) → (n ≤ length pcs)%nat → (∀ i pc, pcs !! i = Some pc → ∃ f, pc = BDone f) → built t.
Proof.
  intros Hinv Hn Hdone.
  assert (∀ s, taken t s → ∃ i k, pcs !! i = Some (BDone (Some s)) ∧ holds_row t i k s 2 true true) as Hslot.
  { intros s Hs. destruct (inv_taken _ Hinv s Hs) as (i & pc & Hi & Hpc). destruct (Hdone i pc Hi) as [f ->].
    cbn in Hpc. subst f. destruct (inv_pc _ Hinv i _ Hi) as [k Hk]. by exists i, k. }
  split.
  - apply Hinv.
  - intros i k Hk. destruct (kv_load i k Hk) as [Hi _].
    destruct (lookup_lt_is_Some_2 pcs i ltac:(lia)) as [pc Hpc]. destruct (Hdone i pc Hpc) as [f ->].
    pose proof (inv_pc _ Hinv i _ Hpc) as Hok. destruct f as [s|]; cbn in Hok; [|congruence].
    destruct Hok as [k' Hk']. exists s. pose proof Hk' as (Hk'' & _). congruence.
  - intros s Hs. destruct (Hslot s Hs) as (i & k & _ & Hk). eauto.
  - intros s s' r Hs Hs' Hr Hr'. destruct (Hslot s Hs) as (i & k & Hi & _ & _ & _ & _ & Hrow).
    destruct (Hslot s' Hs') as (i' & k' & Hi' & _ & _ & _ & _ & Hrow').
    rewrite (Hrow eq_refl) in Hr. rewrite (Hrow' eq_refl) in Hr'. assert (i = i') as <- by (apply Nat2Z.inj; congruence).
    congruence.
Qed.

Definition empty_table : HashTable := mkHashTable (replicate capacity 0) (replicate capacity 0) (replicate capacity 0).

Lemma start_inv threads : build_inv (replicate threads BStart, empty_table).
Proof.
  split; cbn.
  - unfold table_len. cbn. by rewrite !length_replicate.
  - intros i pc [-> _]%lookup_replicate. done.
  - intros i j pci pcj sl [-> _]%lookup_replicate. done.
  - intros sl (v & [-> _]%lookup_replicate & Hv). done.
Qed.

(** Whatever the interleaving, the build ends with the table built. *)
Lemma launch_hj_build_built threads turns :
  (n ≤ threads)%nat →
  ∃ t, launch_hj_build threads turns keys validity n capacity empty_table = Some t ∧ built t.
Proof.
  intros Hn. unfold launch_hj_build.
  destruct (run_inv (turns ++ build_rounds threads capacity) _ (start_inv threads))
    as ([pcs t] & Hr & Hinv & Hlen & Hw).
  rewrite Hr. exists t. split; [done|]. cbn [fst] in Hlen. rewrite length_replicate in Hlen.
  apply (done_built pcs); [done|lia|]. intros i pc Hi. cbn [fst] in Hw.
  destruct (Hw i pc Hi) as (pc0 & [-> Hit]%lookup_replicate & Hle).
  unfold build_rounds in Hle. rewrite filter_app, length_app, rounds_count in Hle by done.
  destruct pc as [| | | | |f]; cbn in Hle; try lia. by exists f.
Qed.

(** With no rows to insert the table stays empty. *)
Lemma empty_built : (∀ i, kv i = None) → built empty_table.
Proof.
  intros Hkv. assert (∀ s, ¬ taken empty_table s) as Hno by (intros s (v & [-> _]%lookup_replicate & Hv); done).
  split.
  - unfold table_len. cbn. by rewrite !length_replicate.
  - intros i k Hk. by rewrite Hkv in Hk.
  - intros s Hs. by apply Hno in Hs.
  - intros s s' r Hs. by apply Hno in Hs.
Qed.

(** ** Probing *)

(** The rows a probe for [key] meets, from the slot [p] steps behind its hash. *)
Fixpoint walk (fuel : nat) (t : HashTable) (key : Z) (p : nat) : list Z :=
  match fuel with
  | O => []
  | S fuel =>
      match t_state t !! slot_at key p with
      | Some state =>
          if state =? 0 then []
          else (if (state =? 2) && (default 0 (t_keys t !! slot_at key p) =? key)
                then [default 0 (t_rows t !! slot_at key p)] else []) ++ walk fuel t key (S p)
      | None => []
      end
  end.

Definition probe_rows (t : HashTable) (key : Z) : list Z := walk capacity t key 0.

Lemma elem_of_walk t key fuel p r :
  table_len t →
  r ∈ walk fuel t key p ↔
  ∃ j, (p ≤ j < p + fuel)%nat ∧ (∀ j', (p ≤ j' ≤ j)%nat → taken t (slot_at key j')) ∧
    t_state t !! slot_at key j = Some 2 ∧ t_keys t !! slot_at key j = Some key ∧
    t_rows t !! slot_at key j = Some r.
Proof.
  intros (Hlk & Hlr & Hls). revert p. induction fuel as [|fuel IH]; intros p; cbn [walk].
  { split; [by intros ?%elem_of_nil|]. intros (j & Hj & _). lia. }
  pose proof (slot_at_lt key p) as Hsl.
  destruct (lookup_lt_is_Some_2 (t_state t) (slot_at key p) ltac:(lia)) as [st Hst]. rewrite Hst.
  destruct (lookup_lt_is_Some_2 (t_keys t) (slot_at key p) ltac:(lia)) as [k Hk]. rewrite Hk.
  destruct (lookup_lt_is_Some_2 (t_rows t) (slot_at key p) ltac:(lia)) as [row Hrow]. rewrite Hrow. cbn [default from_option id].
  destruct (Z.eqb_spec st 0) as [->|H0].
  { split; [by intros ?%elem_of_nil|]. intros (j & Hj & Htk & _). destruct (Htk p ltac:(lia)) as (v & Hv & Hv0). congruence. }
  assert (taken t (slot_at key p)) as Htp by (by exists st).
  rewrite elem_of_app, IH. split.
  - intros [Hr|(j & Hj & Htk & Hrest)].
    + destruct (Z.eqb_spec st 2) as [->|]; cbn [andb] in Hr; [|by apply elem_of_nil in Hr].
      destruct (Z.eqb_spec k key) as [->|]; [|by apply elem_of_nil in Hr].
      apply list_elem_of_singleton in Hr as ->. exists p. split_and!; [lia|lia| |done..].
      intros j' Hj'. by replace j' with p by lia.
    + exists j. split_and!; [lia|lia| |apply Hrest..]. intros j' Hj'. destruct (decide (j' = p)) as [->|]; [done|].
      apply Htk. lia.
  - intros (j & Hj & Htk & H1 & H2 & H3). destruct (decide (j = p)) as [->|Hne].
    + left. rewrite Hst in H1. injection H1 as ->. rewrite Hk in H2. injection H2 as ->.
      rewrite Hrow in H3. injection H3 as ->. rewrite !Z.eqb_refl. cbn [andb]. apply list_elem_of_here.
    + right. exists j. split_and!; [lia|lia| |done..]. intros j' Hj'. apply Htk. lia.
Qed.

Lemma NoDup_walk t key fuel p :
  built t → (p + fuel ≤ capacity)%nat → NoDup (walk fuel t key p).
Proof.
  intros Hb. pose proof (built_len t Hb) as Hlen. revert p. induction fuel as [|fuel IH]; intros p Hp; [constructor|].
  cbn [walk]. destruct (t_state t !! slot_at key p) as [st|] eqn:Hst; [|constructor].
  destruct (Z.eqb_spec st 0); [constructor|]. apply NoDup_app. split_and!; [| |apply IH; lia].
  { destruct (_ && _); [apply NoDup_singleton|constructor]. }
  intros r Hr. destruct ((st =? 2) && _) in Hr; [|by apply elem_of_nil in Hr].
  apply list_elem_of_singleton in Hr as ->. rewrite elem_of_walk by done. intros (j & Hj & Htk & _ & _ & Hrow).
  destruct Hlen as (_ & Hlr & _). pose proof (slot_at_lt key p) as Hsl.
  destruct (lookup_lt_is_Some_2 (t_rows t) (slot_at key p) ltac:(lia)) as [row Hr]. rewrite Hr in Hrow. cbn in Hrow.
  assert (slot_at key p = slot_at key j) as Heq; [|apply slot_at_inj in Heq; lia].
  apply (built_inj t Hb _ _ row); [by exists st|apply Htk; lia|done|done].
Qed.

(** A probe meets exactly the rows with its key, each once. *)
Lemma probed_slots_spec t key :
  built t → NoDup (probe_rows t key) ∧ ∀ r, r ∈ probe_rows t key ↔ ∃ i, r = Z.of_nat i ∧ kv i = Some key.
Proof.
  intros Hb. pose proof (built_len t Hb) as Hlen. split; [by apply NoDup_walk|]. intros r. unfold probe_rows.
  rewrite elem_of_walk by done. split.
  - intros (j & Hj & Htk & Hst & Hk & Hr). destruct (built_slot t Hb (slot_at key j)) as (i & k & Hkv & _ & _ & Hkey & Hrow).
    { apply Htk. lia. }
    rewrite (Hkey eq_refl) in Hk. injection Hk as ->. rewrite (Hrow eq_refl) in Hr. injection Hr as <-. by exists i.
  - intros (i & -> & Hkv). destruct (built_row t Hb i key Hkv) as (s & _ & (p & Hp & -> & Hc) & Hst & Hkey & Hrow).
    exists p. split_and!; [lia|lia| |done|by apply Hkey|by apply Hrow]. intros j' Hj'.
    destruct (decide (j' = p)) as [->|]; [by exists 2|]. apply Hc. lia.
Qed.

(** The counting and the writing loop follow the walk. *)
Lemma slot_matches_walk t key p st :
  table_len t → t_state t !! slot_at key p = Some st →
  slot_matches t st key (slot_at key p) = Some ((st =? 2) && (default 0 (t_keys t !! slot_at key p) =? key)).
Proof.
  intros (Hlk & _) Hst. unfold slot_matches. destruct (st =? 2); [|done]. pose proof (slot_at_lt key p).
  destruct (lookup_lt_is_Some_2 (t_keys t) (slot_at key p) ltac:(lia)) as [k Hk]. by rewrite Hk.
Qed.

Lemma count_loop_walk t key fuel p count :
  table_len t → 0 ≤ count → count + Z.of_nat fuel < U32 →
  count_loop fuel t key (slot_at key p) capacity count = Some (count + Z.of_nat (length (walk fuel t key p))).
Proof.
  intros Hlen. pose proof Hlen as (_ & _ & Hls). revert p count. induction fuel as [|fuel IH]; intros p count Hc Hu;
    cbn [count_loop walk]; [f_equal; cbn; lia|]. pose proof (slot_at_lt key p).
  destruct (lookup_lt_is_Some_2 (t_state t) (slot_at key p) ltac:(lia)) as [st Hst]. rewrite Hst. cbn [mbind option_bind].
  destruct (st =? 0); [f_equal; cbn; lia|]. rewrite slot_matches_walk by done. cbn [mbind option_bind]. rewrite next_slot_at.
  destruct (_ && _).
  - unfold wrap32. rewrite Z.mod_small by lia. rewrite IH by lia. f_equal. cbn [app length]. lia.
  - rewrite IH by lia. done.
Qed.

Lemma store_cons {A} (m : list A) out x xs :
  (out + S (length xs) ≤ length m)%nat →
  (m' ← store m out x; store_range m' (S out) xs) = store_range m out (x :: xs).
Proof.
  intros Hl. rewrite store_as_range. change (x :: xs) with ([x] ++ xs).
  rewrite <- store_range_app by (cbn [length]; lia). cbn [length]. by rewrite Nat.add_1_r.
Qed.

Lemma write_pairs_walk t i key fuel p out m :
  table_len t → length m.1 = length m.2 → (out + length (walk fuel t key p) ≤ length m.1)%nat →
  write_pairs fuel t i key (slot_at key p) capacity out m
  = (l ← store_range m.1 out (replicate (length (walk fuel t key p)) (Z.of_nat i));
     r ← store_range m.2 out (walk fuel t key p); Some (l, r)).
Proof.
  intros Hlen. pose proof Hlen as (_ & Hlr & Hls). revert p out m.
  induction fuel as [|fuel IH]; intros p out m Hm Hout; cbn [write_pairs walk] in *.
  { cbn [length replicate]. rewrite !store_range_nil by (cbn in Hout; lia). by destruct m. }
  pose proof (slot_at_lt key p).
  destruct (lookup_lt_is_Some_2 (t_state t) (slot_at key p) ltac:(lia)) as [st Hst]. rewrite Hst in *.
  cbn [mbind option_bind]. destruct (st =? 0).
  { cbn [length replicate]. rewrite !store_range_nil by (cbn in Hout; lia). by destruct m. }
  rewrite slot_matches_walk by done. cbn [mbind option_bind].
  destruct ((st =? 2) && (default 0 (t_keys t !! slot_at key p) =? key)).
  - destruct (lookup_lt_is_Some_2 (t_rows t) (slot_at key p) ltac:(lia)) as [row Hrow]. rewrite Hrow in *.
    cbn [app length default from_option id] in Hout |- *. cbn [replicate].
    rewrite <- !store_cons by (rewrite ?length_replicate; lia). rewrite !(store_Some m.1) by lia. cbn [mbind option_bind].
    rewrite !(store_Some m.2) by lia. cbn [mbind option_bind].
    rewrite next_slot_at, IH; [done|cbn; by rewrite !length_insert|cbn; rewrite length_insert; lia].
  - rewrite next_slot_at, IH by done. done.
Qed.
End Table.
