(* ===== verification/CudaJoinCorrect.v ===== *)
(** * The CUDA hash join is the reference join

    [cuda_hash_join] of [Cuda] on device batches that stand for host batches: on
    every interleaving of the build and every order of the probing threads, the
    result stands for the nested-loop join of the two batches.  The rows come in
    the order of the probe side, as in the reference; only the matches of one
    probe row may come in another order, that of their slots in the table. *)

From S2P Require Import Prelude Floats Arrow Core Memory ArrowKernels Kernels FilterCorrect JoinCorrect Device Bytes.
From S2P Require Import Columns ColumnsCorrect CudaKernels CudaLaunch Cuda CudaScan CudaSpec CudaGather.
From S2P Require Import CudaFilterCorrect CudaTable.

#[local] Arguments bitmap_len : simpl never.
#[local] Arguments width : simpl never.

(** ** Keys *)

(** The key of a row, when it has one. *)
Definition key_of (ks : list (option Z)) (i : nat) : option Z := default None (ks !! i).

Lemma int_column_keys n c ks :
  col_ok n c → cc_type c = Int64 → downcast_int64 (col_array c) = Some ks →
  length ks = n ∧
  (∀ i, (i < n)%nat → oxide_is_valid (cc_validity c) i = Some (bool_decide (is_Some (key_of ks i)))) ∧
  (∀ i k, key_of ks i = Some k → (i < n)%nat ∧ load_i64 (cc_values c) i = Some k).
Proof.
  intros Hok Ht Hks. destruct (col_ok_prefix n c Hok) as [_ Hlen]. unfold downcast_int64 in Hks.
  case_decide; [|done]. injection Hks as <-. cbn [values col_array cb_array]. cbn [col_bytes cb_len].
  rewrite Nat2Z.id, Hlen.
  assert (∀ i, key_of (option_map as_int <$> (cb_cell (col_bytes c) <$> seq 0 n)) i
    = if (i <? n)%nat then option_map as_int (cb_cell (col_bytes c) i) else None) as Hkey.
  { intros i. unfold key_of. rewrite !list_lookup_fmap. destruct (Nat.ltb_spec i n) as [Hi|Hi].
    - by rewrite lookup_seq_lt.
    - by rewrite lookup_seq_ge by lia. }
  split; [by rewrite !length_fmap, length_seq|]. split.
  - intros i Hi. rewrite (is_valid_col n c i Hok Hi), Hkey, (proj2 (Nat.ltb_lt _ _) Hi). f_equal. unfold cb_cell.
    by destruct (row_valid (cb_validity (col_bytes c)) i).
  - intros i k. rewrite Hkey. destruct (Nat.ltb_spec i n) as [Hi|]; [|done]. intros Hk. split; [done|].
    unfold load_i64. rewrite (load_cell8 n c i Hok) by (done || by rewrite Ht). cbn.
    unfold cb_cell in Hk. destruct (row_valid _ i); [|done]. cbn in Hk. rewrite Ht in Hk. done.
Qed.

Lemma positions_key k ks r : r ∈ positions k ks ↔ ∃ i, r = Z.of_nat i ∧ key_of ks i = Some k.
Proof.
  unfold positions, key_of. rewrite list_elem_of_fmap. split.
  - intros (i & -> & [Hi _]%list_elem_of_filter). exists i. split; [done|]. by rewrite Hi.
  - intros (i & -> & Hi). exists i. split; [done|]. apply list_elem_of_filter.
    destruct (ks !! i) as [o|] eqn:Ho; [|done]. cbn in Hi. subst o. split; [done|].
    apply elem_of_seq. apply lookup_lt_Some in Ho. lia.
Qed.

Lemma NoDup_positions k ks : NoDup (positions k ks).
Proof. unfold positions. apply NoDup_fmap_2; [apply _|]. apply NoDup_filter, NoDup_seq. Qed.

(** ** The table's capacity *)

Lemma table_capacity_spec m :
  (∃ p, table_capacity m = 2 ^ p)%nat ∧ (2 * m ≤ table_capacity m)%nat ∧ (16 ≤ table_capacity m)%nat.
Proof.
  unfold table_capacity. split; [by eexists|].
  pose proof (Nat.log2_log2_up_spec (Nat.max (2 * m) 16) ltac:(lia)) as [_ Hu]. lia.
Qed.

Lemma table_capacity_u32 m : Z.of_nat m ≤ 2 ^ 30 → Z.of_nat (table_capacity m) ≤ 2 ^ 31.
Proof.
  intros Hm. unfold table_capacity. rewrite Nat2Z.inj_pow. change (Z.of_nat 2) with 2.
  apply Z.pow_le_mono_r; [lia|]. change 31 with (Z.of_nat 31). apply inj_le.
  apply Nat.log2_up_le_pow2; [lia|]. apply Nat2Z.inj_le. rewrite Nat2Z.inj_pow. lia.
Qed.

(** ** Offsets of variable-length outputs *)

Lemma scan_from_written {A} (f : nat → list A) b k :
  Z.of_nat (written f (b + k)) ≤ u32_max →
  scan_from (Z.of_nat (written f b)) ((λ i, Z.of_nat (length (f i))) <$> seq b k)
  = Ok ((λ i, Z.of_nat (written f i)) <$> seq b k, Z.of_nat (written f (b + k))).
Proof.
  revert b. induction k as [|k IH]; intros b Hb; [by rewrite Nat.add_0_r|].
  change (seq b (S k)) with (b :: seq (S b) k). rewrite !fmap_cons. cbn [scan_from].
  replace (Z.of_nat (written f b) + Z.of_nat (length (f b))) with (Z.of_nat (written f (S b)))
    by (rewrite written_S; lia).
  pose proof (written_mono f (S b) (b + S k) ltac:(lia)).
  destruct (Z.ltb_spec u32_max (Z.of_nat (written f (S b)))); [lia|].
  replace (b + S k)%nat with (S b + k)%nat in * by lia. by rewrite IH.
Qed.

(** Two buffers written at the same offsets. *)
Lemma launch_concat2 {A B} (f : nat → list A) (g : nat → list B) threads turns
    (body : nat → list A * list B → option (list A * list B)) m0 m1 :
  (written f threads ≤ length m0)%nat → (written g threads ≤ length m1)%nat →
  (∀ t m, (t < threads)%nat → length m.1 = length m0 → length m.2 = length m1 →
     body t m = (x ← store_range m.1 (written f t) (f t); y ← store_range m.2 (written g t) (g t); Some (x, y))) →
  launch threads turns body (m0, m1)
  = Some (concat (f <$> seq 0 threads) ++ drop (written f threads) m0,
          concat (g <$> seq 0 threads) ++ drop (written g threads) m1).
Proof.
  intros Hf Hg Hb. set (b1 t m := store_range m (written f t) (f t)).
  set (b2 t m := store_range m (written g t) (g t)).
  assert (∀ l, NoDup l → (∀ t, t ∈ l → (t < threads)%nat) → ∃ x y,
    foldl (λ m t, m ≫= body t) (Some (m0, m1)) l = Some (x, y) ∧
    foldl (λ m t, m ≫= b1 t) (Some m0) l = Some x ∧ foldl (λ m t, m ≫= b2 t) (Some m1) l = Some y) as Hpre.
  { intros l. induction l as [|t l IH] using rev_ind; intros Hnd Hlt; [by exists m0, m1|].
    apply NoDup_app in Hnd as (Hnd & Hdisj & Hnd1). destruct IH as (x & y & H1 & H2 & H3); [done|set_solver|].
    assert (t < threads)%nat as Ht by (apply Hlt; set_solver).
    destruct (launch_prefix f threads b1 m0 Hf ltac:(done) l Hnd ltac:(set_solver)) as (x' & Hx & Hlx & _).
    destruct (launch_prefix g threads b2 m1 Hg ltac:(done) l Hnd ltac:(set_solver)) as (y' & Hy & Hly & _).
    rewrite H2 in Hx. injection Hx as <-. rewrite H3 in Hy. injection Hy as <-.
    rewrite !foldl_snoc, H1, H2, H3. cbn [mbind option_bind]. rewrite Hb by done. cbn [fst snd]. unfold b1, b2.
    pose proof (written_disjoint f t threads Ht). pose proof (written_disjoint g t threads Ht).
    rewrite !store_range_Some by lia. cbn. by eexists _, _. }
  destruct (Hpre (order threads turns)) as (x & y & H1 & H2 & H3);
    [apply NoDup_order|intros t; apply elem_of_order|].
  unfold launch. rewrite H1. f_equal.
  pose proof (launch_concat f threads b1 m0 Hf ltac:(done) turns) as Hx.
  pose proof (launch_concat g threads b2 m1 Hg ltac:(done) turns) as Hy.
  unfold launch in Hx, Hy. rewrite H2 in Hx. rewrite H3 in Hy. injection Hx as ->. injection Hy as ->. done.
Qed.

(** ** The pairs *)

Lemma concat_past {A} (f : nat → list A) m k :
  (m ≤ k)%nat → (∀ i, (m ≤ i)%nat → f i = []) → concat (f <$> seq 0 k) = concat (f <$> seq 0 m).
Proof.
  intros Hk Hf. replace k with (m + (k - m))%nat by lia. rewrite seq_app, fmap_app, concat_app.
  assert (concat (f <$> seq (0 + m) (k - m)) = []) as ->; [|by rewrite app_nil_r].
  apply concat_nil_Forall, Forall_fmap, Forall_forall. intros i Hi%elem_of_seq. cbn. apply Hf. lia.
Qed.

Section Pairs.
Context (lk rk : list (option Z)) (capacity : nat) (t : HashTable).
Hypothesis cap_pow : (∃ p, capacity = 2 ^ p)%nat.
Hypothesis cap_room : (length rk < capacity)%nat.
Hypothesis t_built : built capacity (key_of rk) t.

Let n := length lk.

(** The rows thread [i] finds, in the order of their slots. *)
Definition found (i : nat) : list Z :=
  match key_of lk i with Some k => CudaTable.probe_rows capacity t k | None => [] end.

Definition found_pairs : list (Z * Z) := i ← seq 0 n; (λ r, (Z.of_nat i, r)) <$> found i.

Definition found_left (i : nat) : list Z := replicate (length (found i)) (Z.of_nat i).

Lemma found_past i : (n ≤ i)%nat → found i = [].
Proof. intros Hi. unfold found, key_of. by rewrite lookup_ge_None_2. Qed.

Lemma written_found_left i : written found_left i = written found i.
Proof.
  induction i as [|i IH]; [done|]. rewrite !written_S, IH. unfold found_left. by rewrite length_replicate.
Qed.

Lemma found_pairs_concat :
  found_pairs.*1 = concat (found_left <$> seq 0 n) ∧ found_pairs.*2 = concat (found <$> seq 0 n).
Proof.
  unfold found_pairs. generalize (seq 0 n) as l. induction l as [|i l [IH1 IH2]]; [done|].
  rewrite bind_cons, !fmap_app, fst_row, snd_row, IH1, IH2. done.
Qed.

(** Each probe row finds its matches, in some order. *)
Lemma found_positions i : found i ≡ₚ match key_of lk i with Some k => positions k rk | None => [] end.
Proof.
  unfold found. destruct (key_of lk i) as [k|]; [|done].
  destruct (probed_slots_spec (length rk) capacity cap_pow cap_room (key_of rk) t k t_built) as [Hnd Hel].
  apply NoDup_Permutation; [done|apply NoDup_positions|]. intros r. by rewrite Hel, positions_key.
Qed.

Lemma row_pairs_key i :
  row_pairs lk rk i = (λ r, (Z.of_nat i, r)) <$> match key_of lk i with Some k => positions k rk | None => [] end.
Proof. rewrite row_pairs_positions. unfold key_of. by destruct (lk !! i) as [[k|]|]. Qed.

Lemma found_pairs_perm : found_pairs ≡ₚ join_pairs lk rk ∧ found_pairs.*1 = (join_pairs lk rk).*1.
Proof.
  unfold found_pairs, join_pairs, n. generalize (seq 0 (length lk)) as l.
  induction l as [|i l [IH1 IH2]]; [done|]. rewrite !bind_cons, !fmap_app, row_pairs_key. split.
  - by rewrite IH1, (found_positions i).
  - rewrite IH2, !fst_row. by rewrite (found_positions i).
Qed.

Lemma length_found_pairs : written found n = length (join_pairs lk rk).
Proof.
  unfold written. rewrite <- (proj2 found_pairs_concat), length_fmap. apply Permutation_length, found_pairs_perm.
Qed.
End Pairs.

(** ** The probe launches *)

Section Probe.
Context (c : CudaColumn) (lk rk : list (option Z)) (capacity : nat) (t : HashTable).
Hypothesis cap_pow : (∃ p, capacity = 2 ^ p)%nat.
Hypothesis cap_room : (length rk < capacity)%nat.
Hypothesis cap_u32 : Z.of_nat capacity < U32.
Hypothesis t_built : built capacity (key_of rk) t.
Hypothesis c_valid : ∀ i, (i < length lk)%nat →
  oxide_is_valid (cc_validity c) i = Some (bool_decide (is_Some (key_of lk i))).
Hypothesis c_load : ∀ i k, key_of lk i = Some k → (i < length lk)%nat ∧ load_i64 (cc_values c) i = Some k.

Let n := length lk.
Abbreviation hits := (found lk capacity t).
Abbreviation hits_left := (found_left lk capacity t).

Lemma count_launch threads turns m0 :
  (n ≤ threads)%nat → (n ≤ length m0)%nat →
  launch threads turns (oxide_hj_count (cc_values c) (cc_validity c) n t capacity) m0
  = Some (((λ i, Z.of_nat (length (hits i))) <$> seq 0 n) ++ drop n m0).
Proof.
  intros Hn Hm. apply launch_slots; [done..|]. intros i m _ _. unfold oxide_hj_count.
  destruct (Nat.leb_spec n i) as [|Hi]; [done|]. rewrite c_valid by done. cbn [mbind option_bind].
  unfold found. destruct (key_of lk i) as [k|] eqn:Hk; [|done].
  rewrite bool_decide_eq_true_2 by done. rewrite (proj2 (c_load i k Hk)). cbn [mbind option_bind].
  rewrite <- (slot_at_0 (length rk)) by done.
  rewrite (count_loop_walk (length rk)); [done|done|done|apply t_built|lia|lia].
Qed.

Lemma write_launch threads turns offsets left0 right0 :
  (n ≤ threads)%nat → length left0 = length right0 → (written hits n ≤ length left0)%nat →
  (∀ i, (i < n)%nat → offsets !! i = Some (Z.of_nat (written hits i))) →
  ∃ l r, launch threads turns (oxide_hj_write (cc_values c) (cc_validity c) n t capacity offsets) (left0, right0)
         = Some (l, r) ∧
    take (written hits n) l = concat (hits_left <$> seq 0 n) ∧
    take (written hits n) r = concat (hits <$> seq 0 n).
Proof.
  intros Hn Hlr Hroom Hoff.
  assert (∀ i, (n ≤ i)%nat → hits i = []) as Hpast by apply found_past.
  assert (written hits threads = written hits n) as Hall by (unfold written; by rewrite (concat_past _ n)).
  assert (∀ i, (n ≤ i)%nat → hits_left i = []) as Hpast'.
  { intros i Hi. unfold found_left. by rewrite Hpast. }
  rewrite (launch_concat2 hits_left hits).
  - eexists _, _. split; [done|]. rewrite (concat_past hits n), (concat_past hits_left n) by done.
    split; apply take_app_length'; [|done].
    change (length (concat (hits_left <$> seq 0 n))) with (written hits_left n). by rewrite written_found_left.
  - rewrite written_found_left, Hall. done.
  - rewrite Hall. lia.
  - intros i m Hi H1 H2. unfold oxide_hj_write. rewrite written_found_left.
    pose proof (written_mono hits i threads ltac:(lia)).
    destruct (Nat.leb_spec n i) as [Hge|Hlt].
    { rewrite Hpast', Hpast, !store_range_nil by lia. by destruct m. }
    rewrite c_valid by done. cbn [mbind option_bind].
    pose proof (written_disjoint hits i threads Hi) as Hfit.
    assert (hits i = match key_of lk i with Some k => CudaTable.probe_rows capacity t k | None => [] end) as Hf by done.
    unfold found_left. destruct (key_of lk i) as [k|] eqn:Hk.
    2: { rewrite bool_decide_eq_false_2 by (by apply eq_None_not_Some). cbn [negb].
         rewrite Hf. cbn [length replicate]. rewrite !store_range_nil by lia. by destruct m. }
    rewrite bool_decide_eq_true_2 by done. cbn [negb]. rewrite (proj2 (c_load i k Hk)). cbn [mbind option_bind].
    rewrite Hoff by done. cbn [mbind option_bind]. rewrite Nat2Z.id, <- (slot_at_0 (length rk)) by done.
    rewrite (write_pairs_walk (length rk)); [by rewrite Hf|done|done|apply t_built|cbn; lia|].
    rewrite Hf in Hfit. unfold CudaTable.probe_rows in Hfit. lia.
Qed.
End Probe.

(** ** The gathered sides *)

(** The join of two batches at the pairs of rows. *)
Definition joined (l r : RecordBatch) (pairs : list (Z * Z)) : RecordBatch :=
  mkBatch (Schema_new (join_fields l r))
    (((λ c, array_take c pairs.*1) <$> columns l) ++ ((λ c, array_take c pairs.*2) <$> columns r))
    (length pairs).

Lemma taken_columns_ok b idx n :
  batch_ok b → in_bounds (num_rows b) idx → length idx = n →
  Forall2 (λ f a, column_ok f a = true ∧ array_len a = n) (fields (schema b))
    ((λ c, array_take c idx) <$> columns b).
Proof.
  intros Hb Hi <-. apply Forall2_fmap_r. eapply Forall2_impl; [exact Hb|]. intros f a [Hok Hlen]. split.
  - by apply column_ok_take.
  - unfold array_len in *. cbn. apply length_gather. by rewrite Hlen.
Qed.

Lemma joined_ok l r pairs :
  batch_ok l → batch_ok r → in_bounds (num_rows l) pairs.*1 → in_bounds (num_rows r) pairs.*2 →
  batch_ok (joined l r pairs).
Proof. intros Hl Hr H1 H2. apply Forall2_app; apply taken_columns_ok; try done; by rewrite length_fmap. Qed.

Section Join.
Context {D : Type} `{!CudaApi D} (drv_ok : no_driver_panic (D := D)).

(** Every column of a side, gathered. *)
Lemma gather_columns_spec n cols indices idx E :
  Forall (col_ok n) cols →
  Forall (λ c, gatherable (cc_type c) ∧ Z.of_nat (length idx * width (cc_type c)) < 2 ^ 63) cols →
  take (length idx) indices = idx → in_bounds n idx → Z.of_nat (length idx) + 7 < U32 →
  cu_spec (D := D) (cu_mapM (λ c, gather_column c indices (length idx)) cols) E
    (λ cols', Forall (col_ok (length idx)) cols' ∧
       col_array <$> cols' = (λ c, array_take c idx) <$> (col_array <$> cols)).
Proof.
  intros Hok Hg Hidx Hin Hu.
  assert (length idx ≤ length indices)%nat as Hlen by (rewrite <- Hidx at 1; rewrite length_take; lia).
  assert (∀ j i, (j < length idx)%nat → indices !! j = Some i → 0 ≤ i < Z.of_nat n) as Hlt.
  { intros j i Hj Hi. rewrite <- (lookup_take_lt _ (length idx)), Hidx in Hi by done.
    exact (Forall_lookup_1 _ _ _ _ Hin Hi). }
  eapply cu_spec_weaken; [|done|].
  - apply (cu_spec_mapM _ _ _ (λ c c', col_ok n c ∧ gathered c indices (length idx) c')).
    intros c Hc. rewrite Forall_forall in Hok, Hg. destruct (Hg c Hc) as [Hgc Hsz]. specialize (Hok c Hc).
    eapply cu_spec_weaken; [by apply (gather_column_spec drv_ok n)|done|]. done.
  - intros cols' Hcols. clear Hok Hg. induction Hcols as [|c c' l l' [Hc Hg] _ [IH1 IH2]]; [by split; [constructor|]|].
    split; [constructor; [apply Hg|done]|]. rewrite !fmap_cons, IH2. f_equal. by eapply gathered_take.
Qed.

(** The key column of a side in device memory. *)
Lemma key_column b cb key ks :
  columns b = col_array <$> cbt_columns cb → Forall (col_ok (num_rows b)) (cbt_columns cb) →
  int64_column b key = Ok ks →
  ∃ c, cuda_column cb key = Ok c ∧ cc_type c = Int64 ∧ col_ok (num_rows b) c ∧ downcast_int64 (col_array c) = Some ks.
Proof.
  intros Hcols Hok [col [Hc Hk]]%bind_Ok_inv. unfold column in Hc. apply ok_or_Ok_inv in Hc, Hk.
  rewrite Hcols, list_lookup_fmap in Hc. destruct (cbt_columns cb !! key) as [c|] eqn:Hcc; [|done].
  injection Hc as <-. exists c. unfold cuda_column. rewrite Hcc. split_and!; [done| | |done].
  - unfold downcast_int64 in Hk. by case_decide.
  - by apply (Forall_lookup_1 _ _ _ _ Hok Hcc).
Qed.

Context (lc rc : CudaColumn) (lk rk : list (option Z)).
Hypothesis l_valid : ∀ i, (i < length lk)%nat →
  oxide_is_valid (cc_validity lc) i = Some (bool_decide (is_Some (key_of lk i))).
Hypothesis l_load : ∀ i k, key_of lk i = Some k → (i < length lk)%nat ∧ load_i64 (cc_values lc) i = Some k.
Hypothesis r_valid : ∀ i, (i < length rk)%nat →
  oxide_is_valid (cc_validity rc) i = Some (bool_decide (is_Some (key_of rk i))).
Hypothesis r_load : ∀ i k, key_of rk i = Some k → (i < length rk)%nat ∧ load_i64 (cc_values rc) i = Some k.
Hypothesis r_small : Z.of_nat (length rk) ≤ 2 ^ 30.

Let capacity := table_capacity (length rk).

Lemma capacity_ok : (∃ p, capacity = 2 ^ p)%nat ∧ (length rk < capacity)%nat ∧ Z.of_nat capacity < U32.
Proof.
  pose proof (table_capacity_spec (length rk)) as (Hp & H2 & H16).
  pose proof (table_capacity_u32 (length rk) r_small). unfold capacity, U32. split_and!; [done|lia|lia].
Qed.

Lemma build_table_spec E :
  cu_spec (D := D)
    (if (0 <? length rk)%nat
     then join_kernel "oxide_hj_build" (grid_for (length rk)) (λ turns,
            launch_hj_build (grid_for (length rk)) turns (cc_values rc) (cc_validity rc) (length rk) capacity
              (empty_table capacity))
     else cu_ret (empty_table capacity)) E (built capacity (key_of rk)).
Proof.
  destruct capacity_ok as (Hp & Hroom & _). destruct (Nat.ltb_spec 0 (length rk)) as [H0|H0].
  - apply cu_spec_launch; [done|]. intros turns.
    by apply (launch_hj_build_built _ _ (length rk) capacity Hp Hroom (key_of rk) r_valid r_load), grid_covers.
  - apply cu_spec_ret, empty_built. intros i. unfold key_of. by rewrite lookup_ge_None_2 by lia.
Qed.

Lemma count_spec t E :
  built capacity (key_of rk) t →
  let counts0 := replicate (Nat.max (length lk) 1) 0 in
  cu_spec (D := D)
    (if (0 <? length lk)%nat && (0 <? length rk)%nat
     then join_kernel "oxide_hj_count" (grid_for (length lk)) (λ turns,
            launch (grid_for (length lk)) turns
              (oxide_hj_count (cc_values lc) (cc_validity lc) (length lk) t capacity) counts0)
     else cu_ret counts0) E
    (λ counts, take (length lk) counts = (λ i, Z.of_nat (length (found lk capacity t i))) <$> seq 0 (length lk)).
Proof.
  intros Hb counts0. destruct capacity_ok as (Hp & Hroom & Hu).
  destruct (Nat.ltb_spec 0 (length rk)) as [Hr|Hr].
  - destruct (Nat.ltb_spec 0 (length lk)) as [Hl|Hl].
    2: { apply cu_spec_ret. by replace (length lk) with 0%nat by lia. }
    apply cu_spec_launch; [done|]. intros turns. eexists. split.
    + apply (count_launch lc lk rk capacity t); [done..|apply grid_covers|]. unfold counts0. rewrite length_replicate. lia.
    + rewrite take_app_length'; [done|]. by rewrite length_fmap, length_seq.
  - assert (length rk = 0)%nat as Hr0 by lia. rewrite andb_false_r. apply cu_spec_ret. unfold counts0. rewrite take_replicate, Nat.min_l by lia.
    apply replicate_as_Forall. split; [by rewrite length_fmap, length_seq|].
    apply Forall_fmap, Forall_forall. intros i _. cbn.
    rewrite (Permutation_length (found_positions lk rk capacity t Hp Hroom Hb i)).
    apply nil_length_inv in Hr0. rewrite Hr0. by destruct (key_of lk i).
Qed.

Lemma write_spec t E :
  built capacity (key_of rk) t →
  let total := written (found lk capacity t) (length lk) in
  let out0 := replicate (Nat.max total 1) 0 in
  cu_spec (D := D)
    (if 0 <? Z.of_nat total
     then join_kernel "oxide_hj_write" (grid_for (length lk)) (λ turns,
            launch (grid_for (length lk)) turns
              (oxide_hj_write (cc_values lc) (cc_validity lc) (length lk) t capacity
                 ((λ i, Z.of_nat (written (found lk capacity t) i)) <$> seq 0 (length lk))) (out0, out0))
     else cu_ret (out0, out0)) E
    (λ m, take total m.1 = (found_pairs lk capacity t).*1 ∧ take total m.2 = (found_pairs lk capacity t).*2).
Proof.
  intros Hb total out0. destruct capacity_ok as (Hp & Hroom & Hu).
  destruct (found_pairs_concat lk capacity t) as [-> ->]. destruct (Z.ltb_spec 0 (Z.of_nat total)) as [Ht|Ht].
  - apply cu_spec_launch; [done|]. intros turns.
    destruct (write_launch lc lk rk capacity t Hp Hroom Hb l_valid l_load (grid_for (length lk)) turns
      ((λ i, Z.of_nat (written (found lk capacity t) i)) <$> seq 0 (length lk)) out0 out0) as (l & r & Hl & Hlr).
    + apply grid_covers.
    + done.
    + unfold out0. rewrite length_replicate. fold total. lia.
    + intros i Hi. by rewrite list_lookup_fmap, lookup_seq_lt.
    + by exists (l, r).
  - apply cu_spec_ret. replace total with 0%nat by lia. cbn [take].
    assert (length (concat (found lk capacity t <$> seq 0 (length lk))) = 0)%nat as H0 by (change (total = 0)%nat; lia).
    assert (length (concat (found_left lk capacity t <$> seq 0 (length lk))) = 0)%nat as H1.
    { change (written (found_left lk capacity t) (length lk) = 0)%nat. by rewrite written_found_left. }
    by apply nil_length_inv in H0 as ->, H1 as ->.
Qed.
End Join.

(** ** The join *)

Lemma found_in_bounds lk rk pairs :
  pairs ≡ₚ join_pairs lk rk → in_bounds (length lk) pairs.*1 ∧ in_bounds (length rk) pairs.*2.
Proof. intros Hp. unfold in_bounds. rewrite !Hp. apply join_pairs_in_bounds. Qed.

(** The columns of a side can be gathered into [n] rows. *)
Definition side_fits (n : nat) (b : RecordBatch) : Prop :=
  Forall (λ c, gatherable (data_type c) ∧ Z.of_nat (n * width (data_type c)) < 2 ^ 63) (columns b).

Lemma side_fits_columns n b cols :
  columns b = col_array <$> cols → side_fits n b →
  Forall (λ c, gatherable (cc_type c) ∧ Z.of_nat (n * width (cc_type c)) < 2 ^ 63) cols.
Proof. unfold side_fits. intros ->. by rewrite Forall_fmap. Qed.

Section JoinTheorem.
Context {D : Type} `{!CudaApi D} (drv_ok : no_driver_panic (D := D)).

(** Both sides gathered at the pairs are the join at those pairs. *)
Lemma gather_sides_spec l r lcb rcb li ri pairs E :
  batch_ok l → batch_ok r →
  columns l = col_array <$> cbt_columns lcb → Forall (col_ok (num_rows l)) (cbt_columns lcb) →
  columns r = col_array <$> cbt_columns rcb → Forall (col_ok (num_rows r)) (cbt_columns rcb) →
  take (length pairs) li = pairs.*1 → take (length pairs) ri = pairs.*2 →
  in_bounds (num_rows l) pairs.*1 → in_bounds (num_rows r) pairs.*2 →
  Z.of_nat (length pairs) + 7 < U32 → side_fits (length pairs) l → side_fits (length pairs) r →
  cu_spec (D := D)
    (cu_bind (cu_mapM (λ c, gather_column c li (length pairs)) (cbt_columns lcb)) (λ lcols,
     cu_bind (cu_mapM (λ c, gather_column c ri (length pairs)) (cbt_columns rcb)) (λ rcols,
     cu_ret (mkDeviceBatch Cuda (Schema_new (fields (schema l) ++ fields (schema r))) (length pairs)
               (BatchCuda (mkCudaBatch (length pairs) (lcols ++ rcols))))))) E
    (λ d, cuda_holds d (joined l r pairs)).
Proof.
  intros Hlb Hrb Hlc Hlok Hrc Hrok Hli Hri Hb1 Hb2 Htot Hlf Hrf.
  pose proof (length_fmap fst pairs) as Hn1. pose proof (length_fmap snd pairs) as Hn2.
  rewrite <- Hn1 in Hli, Hlf. rewrite <- Hn2 in Hri, Hrf.
  eapply cu_spec_bind.
  { rewrite <- Hn1. apply (gather_columns_spec drv_ok (num_rows l) _ li pairs.*1);
      [done|by eapply side_fits_columns|done|done|by rewrite Hn1]. }
  intros lcols [Hlo Hla]. eapply cu_spec_bind.
  { rewrite <- Hn2. apply (gather_columns_spec drv_ok (num_rows r) _ ri pairs.*2);
      [done|by eapply side_fits_columns|done|done|by rewrite Hn2]. }
  intros rcols [Hro Hra]. apply cu_spec_ret. rewrite Hn1 in Hlo. rewrite Hn2 in Hro.
  split_and!; [done|done|by apply joined_ok|]. eexists. split; [done|]. cbn.
  split_and!; [done|by apply Forall_app|]. by rewrite fmap_app, Hla, Hra, Hlc, Hrc.
Qed.

Lemma cuda_join_spec s a l r lk rk :
  cuda_stream s = Ok tt → cuda_holds (hj_left a) l → cuda_holds (hj_right a) r →
  int64_column l (hj_left_key a) = Ok lk → int64_column r (hj_right_key a) = Ok rk →
  Z.of_nat (num_rows l) ≤ u32_max → Z.of_nat (num_rows r) ≤ 2 ^ 30 →
  Z.of_nat (length (join_pairs lk rk)) + 7 < U32 →
  side_fits (length (join_pairs lk rk)) l → side_fits (length (join_pairs lk rk)) r →
  cu_spec (D := D) (cuda_hash_join s a) (λ _, False) (λ d, ∃ pairs,
    pairs ≡ₚ join_pairs lk rk ∧ pairs.*1 = (join_pairs lk rk).*1 ∧ cuda_holds d (joined l r pairs)).
Proof.
  intros Hs (Hls & Hln & Hlb & lcb & Hlin & Hlr & Hlok & Hlc) (Hrs & Hrn & Hrb & rcb & Hrin & Hrr & Hrok & Hrc)
    Hlk Hrk Hll Hrl Htot Hlf Hrf.
  destruct (key_column l lcb _ lk Hlc Hlok Hlk) as (lc & Hlcol & Hlt & Hlcok & Hld).
  destruct (key_column r rcb _ rk Hrc Hrok Hrk) as (rc & Hrcol & Hrt & Hrcok & Hrd).
  destruct (int_column_keys _ lc lk Hlcok Hlt Hld) as (Hlkl & Hlv & Hll').
  destruct (int_column_keys _ rc rk Hrcok Hrt Hrd) as (Hrkl & Hrv & Hrl').
  rewrite <- Hlkl in Hlv, Hll', Hll, Hlok, Hlr. rewrite <- Hrkl in Hrv, Hrl', Hrl, Hrok, Hrr.
  destruct (capacity_ok rk Hrl) as (Hcp & Hcr & Hcu).
  unfold cuda_hash_join, require_int64.
  eapply cu_spec_bind_Ok; [exact Hs|]. eapply (cu_spec_bind_Ok _ _ lcb); [unfold cuda_batch; by rewrite Hlin|].
  eapply (cu_spec_bind_Ok _ _ rcb); [unfold cuda_batch; by rewrite Hrin|].
  eapply cu_spec_bind_Ok; [exact Hlcol|]. eapply cu_spec_bind_Ok; [exact Hrcol|].
  rewrite Hlt, Hrt, bool_decide_eq_true_2 by done.
  do 2 (eapply cu_spec_bind_Ok; [reflexivity|]). rewrite Hlr, Hrr.
  eapply cu_spec_bind_Ok; [apply u32_len_small; unfold u32_max in Hll; lia|].
  eapply cu_spec_bind_Ok; [apply u32_len_small; unfold U32; lia|].
  eapply cu_spec_bind_Ok; [by apply u32_len_small|].
  do 3 (eapply cu_spec_bind; [apply cu_spec_alloc|]; intros ? ->).
  rewrite (Nat.max_l (table_capacity (length rk)) 1) by lia.
  eapply cu_spec_bind; [by apply (build_table_spec drv_ok rc rk)|]. intros t Ht.
  eapply cu_spec_bind; [apply cu_spec_alloc|]. intros ? ->.
  eapply cu_spec_bind; [by apply (count_spec drv_ok lc lk rk)|]. intros counts Hcounts.
  eapply cu_spec_bind; [apply cu_spec_dtoh|]. intros ? ->.
  set (capacity := table_capacity (length rk)) in *.
  pose proof (length_found_pairs lk rk capacity t Hcp Hcr Ht) as Htotal.
  eapply cu_spec_bind_Ok.
  { rewrite Hcounts. apply (scan_from_written (found lk capacity t) 0 (length lk)). cbn [Nat.add].
    rewrite Htotal. unfold u32_max. lia. }
  cbn [Nat.add]. rewrite Nat2Z.id. eapply cu_spec_bind; [apply cu_spec_htod|]. intros ? ->.
  do 2 (eapply cu_spec_bind; [apply cu_spec_alloc|]; intros ? ->).
  eapply cu_spec_bind; [by apply (write_spec drv_ok lc lk rk)|]. intros [li ri]. cbn [fst snd]. fold capacity. intros [Hli Hri].
  destruct (found_pairs_perm lk rk capacity t Hcp Hcr Ht) as [Hperm H1].
  set (pairs := found_pairs lk capacity t) in *. destruct (found_in_bounds lk rk pairs Hperm) as [Hb1 Hb2].
  assert (length pairs.*1 = written (found lk capacity t) (length lk)) as Hn1.
  { rewrite length_fmap, Htotal. by apply Permutation_length. }
  rewrite <- Hn1 in *. rewrite <- Htotal, length_fmap in Htot, Hlf, Hrf. rewrite length_fmap in *.
  rewrite Hlkl in *. rewrite Hrkl in *.
  eapply (cu_spec_weaken _ (λ _, False)); [|done|intros d Hd; exists pairs; split; [exact Hperm|split; [exact H1|exact Hd]]].
  rewrite Hls, Hrs. by apply (gather_sides_spec l r lcb rcb li ri pairs).
Qed.

Context `{!ArrowKernels, !ArrowLaws} `{HashOrderLaw}.

(** C5: the CUDA join on any interleaving of the threads that race to build the
    table and any order of the probing threads: given device batches that stand
    for host batches, [Int64] keys, and sides and a result within the device's
    bounds, it ends with a batch that stands for the pairs of the reference join,
    each once, with the probe rows in the reference's order, or with a driver
    error if the driver failed; no thread runs out of probes and none leaves a
    device buffer. *)
Theorem cuda_join_correct s a l r lk rk st :
  cuda_stream s = Ok tt → cuda_holds (hj_left a) l → cuda_holds (hj_right a) r →
  int64_column l (hj_left_key a) = Ok lk → int64_column r (hj_right_key a) = Ok rk →
  Z.of_nat (num_rows l) ≤ u32_max → Z.of_nat (num_rows r) ≤ 2 ^ 30 →
  Z.of_nat (length (join_pairs lk rk)) + 7 < U32 →
  side_fits (length (join_pairs lk rk)) l → side_fits (length (join_pairs lk rk)) r →
  hash_join l r (hj_left_key a) (hj_right_key a) = Ok (joined l r (join_pairs lk rk)) ∧
  match (cuda_hash_join (D := D) s a st).2 with
  | Ok d => ∃ pairs, pairs ≡ₚ join_pairs lk rk ∧ pairs.*1 = (join_pairs lk rk).*1 ∧ cuda_holds d (joined l r pairs)
  | Err e => driver_failure (D := D) e
  | Panic => False
  end.
Proof.
  intros Hs Hl Hr Hlk Hrk Hln Hrn Ht Hlf Hrf. split.
  - apply hash_join_spec; [apply Hl|apply Hr|done|done|unfold u32_max in *; lia|unfold u32_max, U32; lia].
  - pose proof (cuda_join_spec s a l r lk rk Hs Hl Hr Hlk Hrk Hln Hrn Ht Hlf Hrf st) as Hspec.
    destruct (cuda_hash_join s a st).2; [done|tauto|done].
Qed.
End JoinTheorem.

(** ** Examples *)

Module CudaJoinExample.
Import CudaFilterCorrect.CudaExample JoinExample.

#[local] Existing Instance backwards.
#[local] Existing Instance forward.
#[local] Existing Instance forward_law.

(** The orders and customers of [JoinExample] in device memory. *)
Definition orders_columns : list CudaColumn :=
  [mkCudaColumn Int64 4 0 32 (concat (to_le_bytes 8 <$> [7; 0; 3; 7])) (Some [13]);
   mkCudaColumn Int64 4 0 32 (concat (to_le_bytes 8 <$> [10; 20; 0; 40])) (Some [11])].
Definition customers_columns : list CudaColumn :=
  [mkCudaColumn Int64 4 0 32 (concat (to_le_bytes 8 <$> [3; 7; 0; 7])) (Some [11])].
Definition on_device (b : RecordBatch) (cols : list CudaColumn) : DeviceBatch :=
  mkDeviceBatch Cuda (schema b) 4 (BatchCuda (mkCudaBatch 4 cols)).

Lemma orders_holds : cuda_holds (on_device orders orders_columns) orders.
Proof.
  split_and!; [done|done|apply demo_ok|].
  exists (mkCudaBatch 4 orders_columns). split_and!; [done|done| |vm_compute; reflexivity].
  repeat constructor; try done; intros bits [= <-]; done.
Qed.
Lemma customers_holds : cuda_holds (on_device customers customers_columns) customers.
Proof.
  split_and!; [done|done|apply demo_ok|].
  exists (mkCudaBatch 4 customers_columns). split_and!; [done|done| |vm_compute; reflexivity].
  repeat constructor; try done; intros bits [= <-]; done.
Qed.

Definition join_args : HashJoinArgs :=
  mkJoinArgs (on_device orders orders_columns) (on_device customers customers_columns) 0 0.

Lemma cuda_join_correct_witness :
  join_pairs orders_keys customers_keys = [(0, 1); (0, 3); (2, 0); (3, 1); (3, 3)] ∧
  match (cuda_hash_join stream join_args fresh).2 with
  | Ok d => ∃ pairs, pairs ≡ₚ join_pairs orders_keys customers_keys ∧
              pairs.*1 = (join_pairs orders_keys customers_keys).*1 ∧ cuda_holds d (joined orders customers pairs)
  | Err e => driver_failure (D := nat) e
  | Panic => False
  end.
Proof.
  split; [vm_compute; reflexivity|].
  pose proof (cuda_join_correct backwards_ok stream join_args orders customers orders_keys customers_keys fresh
    eq_refl orders_holds customers_holds eq_refl eq_refl ltac:(vm_compute; discriminate)
    ltac:(vm_compute; discriminate) ltac:(vm_compute; reflexivity) ltac:(repeat constructor)
    ltac:(repeat constructor)) as [_ Hj].
  exact Hj.
Defined.

(** Customers 1 and 3 have the same key. When the last thread runs first it wins
    the race for its slot, so an order meets customer 3 first, and on the CPU
    customer 1. *)
Definition last_first : CudaApi nat := {|
  drv_alloc d _ := (S d, None);
  drv_htod d _ := (S d, None);
  drv_dtoh d _ := (S d, None);
  drv_mem_info d := (S d, Ok (2 ^ 30, 2 ^ 32));
  drv_new_stream d := (S d, Ok d);
  drv_synchronize d _ := (S d, None);
  drv_launch d _ _ := (S d, Ok (t ← [3; 2; 1; 0]%nat; replicate 8 t));
  nvrtc_compile d _ := (S d, Ok d);
  drv_load_module d _ := (S d, Ok d);
  drv_load_function d _ _ := (S d, Ok d);
|}.
Definition ranked_customers : DeviceBatch :=
  mkDeviceBatch Cuda (Schema_new [Field_new "id" Int64 true; Field_new "rank" Int64 false]) 4
    (BatchCuda (mkCudaBatch 4 (customers_columns ++
      [mkCudaColumn Int64 4 0 32 (concat (to_le_bytes 8 <$> [0; 1; 2; 3])) None]))).

Example matches_in_slot_order :
  match (cuda_hash_join (CudaApi0 := last_first) stream (mkJoinArgs (on_device orders orders_columns) ranked_customers 0 0)
           fresh).2 with
  | Ok d => match db_inner d with
            | BatchCuda b => (λ c, values (col_array c)) <$> cbt_columns b !! 3%nat
                             = Some (Some <$> [VInt 3; VInt 1; VInt 0; VInt 3; VInt 1])
            | _ => False
            end
  | _ => False
  end.
Proof. vm_compute. done. Qed.
End CudaJoinExample.
