(* ===== verification/CudaAggregate.v ===== *)
(** * oxidelake-device: grouped aggregation on CUDA

    Models [src/crates/oxidelake-device/kernels/cuda/aggregation.cu] and the
    functions [run_aggregate] and [aggregate] of [cuda/ops.rs].  A launch ends
    when each of its threads has returned: after the turns the device's
    scheduler chose, the threads take turns in rounds until that is so
    ([launch_turns]; a launch that does not end within the given number of
    rounds is a fault).  Inserting a key is one turn per memory operation, with
    the spin loop on a slot another thread has claimed; an accumulating thread
    is the list of its atomic operations, a compare-and-swap loop being one
    that may take several turns.  The properties are in [CudaGroups],
    [CudaAccumulate] and [CudaAggregateCorrect]. *)

From S2P Require Import Prelude Floats Arrow Core Memory ArrowKernels Kernels Device Bytes Columns CudaKernels Cuda.

(** ** Launches that run until every thread has returned *)

Section Rounds.
Context {P M : Type} (step : nat → P → M → option (P * M)) (returned : P → bool).

Fixpoint run_rounds (fuel : nat) (s : list P * M) : option (list P * M) :=
  if forallb returned s.1 then Some s
  else match fuel with
       | O => None
       | S fuel => s ← run_turns step (seq 0 (length s.1)) s; run_rounds fuel s
       end.

Definition launch_turns (fuel : nat) (turns : list nat) (s : list P * M) : option M :=
  s ← run_turns step turns s; snd <$> run_rounds fuel s.
End Rounds.

(** ** The group table *)

Record GroupKeys := mkGroups { g_keys : list Z; g_state : list Z }.

(** The join's mixer, in a copy of its own. *)
Definition oxide_ag_hash (key : Z) (capacity : nat) : nat := oxide_hj_hash key capacity.

(** Where a thread of [oxide_agg_insert_keys] stands: before its first
    instruction; in [oxide_ag_slot], in front of the load of a slot's state, of
    the [atomicCAS], of the two stores behind a successful one, of a load of the
    spin loop and of the load of the slot's key; or returned. *)
Inductive InsertPc :=
  | AStart
  | ALoad (key : Z) (slot probes : nat)
  | ACas (key : Z) (slot probes : nat)
  | AKey (key : Z) (slot : nat)
  | APublish (key : Z) (slot : nat)
  | ASpin (key : Z) (slot probes : nat)
  | ACompare (key : Z) (slot probes : nat)
  | ADone (slot : option nat).

Definition insert_returned (pc : InsertPc) : bool := match pc with ADone _ => true | _ => false end.

(** One turn of [oxide_ag_slot] with [insert != 0]. *)
Definition oxide_ag_slot (capacity : nat) (pc : InsertPc) (t : GroupKeys) : option (InsertPc * GroupKeys) :=
  match pc with
  | ALoad key slot probes =>
      if (capacity <=? probes)%nat then Some (ADone None, t)
      else
        state ← g_state t !! slot;
        Some (if state =? 0 then ACas key slot probes
              else if state =? 1 then ASpin key slot probes
              else ACompare key slot probes, t)
  | ACas key slot probes =>
      old ← g_state t !! slot;
      if old =? 0
      then st ← store (g_state t) slot 1; Some (AKey key slot, mkGroups (g_keys t) st)
      else Some (ASpin key slot probes, t)
  | AKey key slot => ks ← store (g_keys t) slot key; Some (APublish key slot, mkGroups ks (g_state t))
  | APublish key slot => st ← store (g_state t) slot 2; Some (ADone (Some slot), mkGroups (g_keys t) st)
  | ASpin key slot probes =>
      state ← g_state t !! slot;
      Some (if state =? 1 then ASpin key slot probes else ACompare key slot probes, t)
  | ACompare key slot probes =>
      k ← g_keys t !! slot;
      Some (if k =? key then ADone (Some slot) else ALoad key (next_slot slot capacity) (S probes), t)
  | AStart | ADone _ => Some (pc, t)
  end.

(** One turn of thread [i]: the table and the flag of the null group. *)
Definition oxide_agg_insert_keys (keys : list Z) (validity : option (list Z)) (n capacity : nat)
    (i : nat) (pc : InsertPc) (m : GroupKeys * Z) : option (InsertPc * (GroupKeys * Z)) :=
  match pc with
  | AStart =>
      if (n <=? i)%nat then Some (ADone None, m)
      else
        valid ← oxide_is_valid validity i;
        if negb valid then Some (ADone None, (m.1, Z.lor m.2 1))
        else key ← load_i64 keys i; Some (ALoad key (oxide_ag_hash key capacity) 0, m)
  | _ => r ← oxide_ag_slot capacity pc m.1; Some (r.1, (r.2, m.2))
  end.

(** Turns a thread takes that does not wait: five per probe, and the others. *)
Definition insert_fuel (threads capacity : nat) : nat := threads * (4 * capacity + 7).

Definition launch_insert_keys (threads : nat) (turns : list nat) (keys : list Z) (validity : option (list Z))
    (n capacity : nat) (m : GroupKeys * Z) : option (GroupKeys * Z) :=
  launch_turns (oxide_agg_insert_keys keys validity n capacity) insert_returned
    (insert_fuel threads capacity) turns (replicate threads AStart, m).

(** [oxide_ag_slot] with [insert == 0]: a slot, or [None] for [0xFFFFFFFF]. A
    claimed slot would be waited for forever. *)
Fixpoint oxide_ag_find (fuel : nat) (t : GroupKeys) (key : Z) (slot capacity : nat) : option (option nat) :=
  match fuel with
  | O => Some None
  | S fuel =>
      state ← g_state t !! slot;
      if state =? 0 then Some None
      else if state =? 1 then None
      else
        k ← g_keys t !! slot;
        if k =? key then Some (Some slot) else oxide_ag_find fuel t key (next_slot slot capacity) capacity
  end.

(** ** Accumulators *)

(** Atomic operations on one cell. A [double] is its bit pattern; the last
    argument of the compare-and-swap loops is the value they last read. *)
Inductive Atomic :=
  | AtomicAdd64 (v : Z)
  | AtomicAdd32 (v : Z)
  | AtomicAddF (v : f64)
  | AtomicMin64 (v : Z)
  | AtomicMax64 (v : Z)
  | AtomicMinF (v : f64) (assumed : option Z)
  | AtomicMaxF (v : f64) (assumed : option Z).

(** [v < cur] and [v > cur] on doubles. *)
Definition f64_ltb (a b : f64) : bool := bool_decide (f64_compare a b = Some Lt).

(** One turn of [oxide_atomic_min_f64] or [oxide_atomic_max_f64]: a read of the
    cell (the first load, or an [atomicCAS] that fails) or a successful swap.
    The result is what is left to do, if anything, and the cell. *)
Definition cas_turn (better : f64 → f64 → bool) (v : f64) (again : option Z → Atomic)
    (assumed : option Z) (cell : Z) : option Atomic * Z :=
  let read := if better v (F64 cell) then (Some (again (Some cell)), cell) else (None, cell) in
  match assumed with
  | None => read
  | Some a => if cell =? a then (None, f64_bits v) else read
  end.

Definition atomic_turn (op : Atomic) (cell : Z) : option Atomic * Z :=
  match op with
  | AtomicAdd64 v => (None, wrap_i64 (cell + v))
  | AtomicAdd32 v => (None, wrap32 (cell + v))
  | AtomicAddF v => (None, f64_bits (f64_add (F64 cell) v))
  | AtomicMin64 v => (None, Z.min cell v)
  | AtomicMax64 v => (None, Z.max cell v)
  | AtomicMinF v assumed => cas_turn f64_ltb v (AtomicMinF v) assumed cell
  | AtomicMaxF v assumed => cas_turn (λ a b, f64_ltb b a) v (AtomicMaxF v) assumed cell
  end.

(** A cell: one of the kernel's buffers and an index. *)
Abbreviation cell := (nat * nat)%type.

Definition read_cell (m : list (list Z)) (c : cell) : option Z := buf ← m !! c.1; buf !! c.2.
Definition write_cell (m : list (list Z)) (c : cell) (v : Z) : option (list (list Z)) :=
  buf ← m !! c.1; buf ← store buf c.2 v; Some (<[c.1 := buf]> m).

(** A thread is what it still has to do. *)
Definition accumulate_turn (i : nat) (pc : list (cell * Atomic)) (m : list (list Z)) :
    option (list (cell * Atomic) * list (list Z)) :=
  match pc with
  | [] => Some ([], m)
  | (c, op) :: rest =>
      v ← read_cell m c;
      let '(again, v) := atomic_turn op v in
      m ← write_cell m c v;
      Some (match again with Some op => (c, op) :: rest | None => rest end, m)
  end.

Definition accumulate_returned (pc : list (cell * Atomic)) : bool := match pc with [] => true | _ => false end.

(** Rounds: two per operation, since a compare-and-swap that fails saw another succeed. *)
Definition launch_accumulate (turns : list nat) (pcs : list (list (cell * Atomic))) (m : list (list Z)) :
    option (list (list Z)) :=
  launch_turns accumulate_turn accumulate_returned (2 * length (concat pcs) + 1) turns (pcs, m).

(** ** The accumulating kernels

    Their threads share everything but the value they load and the cells they
    update: a thread beyond the input, of a null value, or whose key is not in
    the table does nothing; a null key updates the accumulators of the null
    group. *)

Section Kernels.
Context (keys : list Z) (kvalid vvalid : option (list Z)) (n : nat) (t : GroupKeys) (capacity : nat).

Definition agg_thread {V} (load : nat → option V) (group : V → nat → list (cell * Atomic))
    (null : V → list (cell * Atomic)) (i : nat) : option (list (cell * Atomic)) :=
  if (n <=? i)%nat then Some []
  else
    vv ← oxide_is_valid vvalid i;
    if negb vv then Some []
    else
      v ← load i;
      kv ← oxide_is_valid kvalid i;
      if negb kv then Some (null v)
      else
        key ← load_i64 keys i;
        slot ← oxide_ag_find capacity t key (oxide_ag_hash key capacity) capacity;
        Some (match slot with Some s => group v s | None => [] end).

Definition oxide_agg_sum_i64 (values : list Z) : nat → option (list (cell * Atomic)) :=
  agg_thread (load_i64 values)
    (λ v s, [((0, s)%nat, AtomicAdd64 v); ((1, s)%nat, AtomicAdd32 1)])
    (λ v, [((2, 0)%nat, AtomicAdd64 v); ((3, 0)%nat, AtomicAdd32 1)]).

Definition oxide_agg_sum_f64 (values : list Z) : nat → option (list (cell * Atomic)) :=
  agg_thread (load_f64 values)
    (λ v s, [((0, s)%nat, AtomicAddF v); ((1, s)%nat, AtomicAdd32 1)])
    (λ v, [((2, 0)%nat, AtomicAddF v); ((3, 0)%nat, AtomicAdd32 1)]).

Definition oxide_agg_minmax_i64 (values : list Z) : nat → option (list (cell * Atomic)) :=
  agg_thread (load_i64 values)
    (λ v s, [((0, s)%nat, AtomicMin64 v); ((1, s)%nat, AtomicMax64 v); ((2, s)%nat, AtomicAdd32 1)])
    (λ v, [((3, 0)%nat, AtomicMin64 v); ((4, 0)%nat, AtomicMax64 v); ((5, 0)%nat, AtomicAdd32 1)]).

Definition oxide_agg_minmax_f64 (values : list Z) : nat → option (list (cell * Atomic)) :=
  agg_thread (load_f64 values)
    (λ v s, [((0, s)%nat, AtomicMinF v None); ((1, s)%nat, AtomicMaxF v None); ((2, s)%nat, AtomicAdd32 1)])
    (λ v, [((3, 0)%nat, AtomicMinF v None); ((4, 0)%nat, AtomicMaxF v None); ((5, 0)%nat, AtomicAdd32 1)]).

Definition oxide_agg_count : nat → option (list (cell * Atomic)) :=
  agg_thread (λ _, Some tt) (λ _ s, [((0, s)%nat, AtomicAdd32 1)]) (λ _, [((1, 0)%nat, AtomicAdd32 1)]).
End Kernels.

(** ** The host side *)

Definition AGGREGATION_SRC : string := "kernels/cuda/aggregation.cu".

Inductive HostAgg :=
  | HSumI (sums counts : list Z) (null_sum null_count : Z)
  | HSumF (sums : list f64) (counts : list Z) (null_sum : f64) (null_count : Z)
  | HMinMaxI (mins maxs counts : list Z) (null_min null_max null_count : Z)
  | HMinMaxF (mins maxs : list f64) (counts : list Z) (null_min null_max : f64) (null_count : Z)
  | HCount (counts : list Z) (null_count : Z).

Record GroupTable := mkGroupTable {
  gt_keys : CudaColumn; gt_n : nat; gt_capacity : nat; gt_table : GroupKeys }.

Definition first (v : list Z) (what : string) : result Z :=
  ok_or (head v) (Execution ("device returned an empty " +:+ what +:+ " buffer")).

Section Host.
Context {D : Type} `{!CudaApi D}.

(** Launches an accumulating kernel unless there are no rows. *)
Definition agg_kernel (entry : string) (tb : GroupTable) (kernel : nat → option (list (cell * Atomic)))
    (m : list (list Z)) : Cu (D := D) (list (list Z)) :=
  if (0 <? gt_n tb)%nat
  then cu_launch "aggregation" AGGREGATION_SRC entry (grid_for (gt_n tb)) (λ turns,
         pcs ← mapM kernel (seq 0 (grid_for (gt_n tb))); launch_accumulate turns pcs m)
  else cu_ret m.

(** A buffer of the kernel, read back. *)
Definition read_back (m : list (list Z)) (b : nat) : Cu (D := D) (list Z) := cu_dtoh (default [] (m !! b)).
Definition read_first (m : list (list Z)) (b : nat) (what : string) : Cu (D := D) Z :=
  cu! v := read_back m b in cu_lift (first v what).

(** The arguments every accumulating kernel takes. *)
Definition on_rows {V} (tb : GroupTable) (col : CudaColumn)
    (kernel : list Z → option (list Z) → option (list Z) → nat → GroupKeys → nat → V) : V :=
  kernel (cc_values (gt_keys tb)) (cc_validity (gt_keys tb)) (cc_validity col) (gt_n tb) (gt_table tb) (gt_capacity tb).

(** The arms of [run_aggregate]. *)
Definition run_count (tb : GroupTable) (col : CudaColumn) : Cu (D := D) HostAgg :=
  cu! counts := cu_alloc (gt_capacity tb) in
  cu! null_count := cu_alloc 1 in
  cu! m := agg_kernel "oxide_agg_count" tb (on_rows tb col oxide_agg_count) [counts; null_count] in
  cu! counts := read_back m 0 in
  cu! null_count := read_first m 1 "null count" in
  cu_ret (HCount (take (gt_capacity tb) counts) null_count).

Definition run_sum_i64 (tb : GroupTable) (col : CudaColumn) : Cu (D := D) HostAgg :=
  cu! sums := cu_alloc (gt_capacity tb) in
  cu! counts := cu_alloc (gt_capacity tb) in
  cu! null_sum := cu_alloc 1 in
  cu! null_count := cu_alloc 1 in
  cu! m := agg_kernel "oxide_agg_sum_i64" tb (on_rows tb col oxide_agg_sum_i64 (cc_values col))
             [sums; counts; null_sum; null_count] in
  cu! sums := read_back m 0 in
  cu! counts := read_back m 1 in
  cu! null_sum := read_first m 2 "null sum" in
  cu! null_count := read_first m 3 "null count" in
  cu_ret (HSumI (take (gt_capacity tb) sums) (take (gt_capacity tb) counts) null_sum null_count).

Definition run_sum_f64 (tb : GroupTable) (col : CudaColumn) : Cu (D := D) HostAgg :=
  cu! sums := cu_alloc (gt_capacity tb) in
  cu! counts := cu_alloc (gt_capacity tb) in
  cu! null_sum := cu_alloc 1 in
  cu! null_count := cu_alloc 1 in
  cu! m := agg_kernel "oxide_agg_sum_f64" tb (on_rows tb col oxide_agg_sum_f64 (cc_values col))
             [sums; counts; null_sum; null_count] in
  cu! sums := read_back m 0 in
  cu! counts := read_back m 1 in
  cu! null_sum := read_first m 2 "null sum" in
  cu! null_count := read_first m 3 "null count" in
  cu_ret (HSumF (F64 <$> take (gt_capacity tb) sums) (take (gt_capacity tb) counts) (F64 null_sum) null_count).

Definition run_minmax_i64 (tb : GroupTable) (col : CudaColumn) : Cu (D := D) HostAgg :=
  cu! mins := cu_htod (replicate (gt_capacity tb) i64_max) in
  cu! maxs := cu_htod (replicate (gt_capacity tb) i64_min) in
  cu! counts := cu_alloc (gt_capacity tb) in
  cu! null_min := cu_htod [i64_max] in
  cu! null_max := cu_htod [i64_min] in
  cu! null_count := cu_alloc 1 in
  cu! m := agg_kernel "oxide_agg_minmax_i64" tb (on_rows tb col oxide_agg_minmax_i64 (cc_values col))
             [mins; maxs; counts; null_min; null_max; null_count] in
  cu! lo := read_back m 0 in
  cu! hi := read_back m 1 in
  cu! counts := read_back m 2 in
  cu! null_min := read_first m 3 "null min" in
  cu! null_max := read_first m 4 "null max" in
  cu! null_count := read_first m 5 "null count" in
  cu_ret (HMinMaxI (take (gt_capacity tb) lo) (take (gt_capacity tb) hi) (take (gt_capacity tb) counts) null_min null_max null_count).

Definition run_minmax_f64 (tb : GroupTable) (col : CudaColumn) : Cu (D := D) HostAgg :=
  cu! mins := cu_htod (replicate (gt_capacity tb) (f64_bits f64_infinity)) in
  cu! maxs := cu_htod (replicate (gt_capacity tb) (f64_bits f64_neg_infinity)) in
  cu! counts := cu_alloc (gt_capacity tb) in
  cu! null_min := cu_htod [f64_bits f64_infinity] in
  cu! null_max := cu_htod [f64_bits f64_neg_infinity] in
  cu! null_count := cu_alloc 1 in
  cu! m := agg_kernel "oxide_agg_minmax_f64" tb (on_rows tb col oxide_agg_minmax_f64 (cc_values col))
             [mins; maxs; counts; null_min; null_max; null_count] in
  cu! lo := read_back m 0 in
  cu! hi := read_back m 1 in
  cu! counts := read_back m 2 in
  cu! null_min := read_first m 3 "null min" in
  cu! null_max := read_first m 4 "null max" in
  cu! null_count := read_first m 5 "null count" in
  cu_ret (HMinMaxF (F64 <$> take (gt_capacity tb) lo) (F64 <$> take (gt_capacity tb) hi) (take (gt_capacity tb) counts)
            (F64 null_min) (F64 null_max) null_count).

Definition run_aggregate (tb : GroupTable) (func : AggregateFunction) (col : CudaColumn) : Cu (D := D) HostAgg :=
  cu! is_i64 := cu_lift (match cc_type col with
                         | Int64 => Ok true
                         | Float64 => Ok false
                         | _ => Err (Unsupported "cuda.aggregate" "v1 supports Int64 and Float64")
                         end) in
  match func with
  | Count => run_count tb col
  | Sum => if (is_i64 : bool) then run_sum_i64 tb col else run_sum_f64 tb col
  | Min | Max => if (is_i64 : bool) then run_minmax_i64 tb col else run_minmax_f64 tb col
  end.

(** The occupied slots by key ([sort_unstable] on pairs). *)
Definition slot_le (a b : Z * nat) : Prop := a.1 < b.1 ∨ a.1 = b.1 ∧ (a.2 ≤ b.2)%nat.
#[global] Instance slot_le_dec : RelDecision slot_le.
Proof. intros a b. unfold slot_le. apply _. Defined.

Definition occupied (keys states : list Z) : result (list (Z * nat)) :=
  merge_sort slot_le <$>
  mapM (λ slot, k ← index keys slot; Ok (k, slot))
       (filter (λ slot, states !! slot = Some 2) (seq 0 (length states))).

(** One value per slot, and one for the null group if there is one. *)
Definition group_cells {V} (slots : list (Z * nat)) (has_null : bool) (at_slot : nat → result V) (null : V) :
    result (list V) :=
  v ← mapM (λ ks, at_slot ks.2) slots;
  Ok (v ++ (if has_null then [null] else [])).

(** [(counts[s] > 0).then_some(v)]. *)
Definition counted {V} (counts : list Z) (vs : list V) (s : nat) : result (option V) :=
  c ← index counts s; v ← index vs s; Ok (if 0 <? c then Some v else None).
Definition counted_null {V} (count : Z) (v : V) : option V := if 0 <? count then Some v else None.

Definition pick {V} (func : AggregateFunction) (mn mx : V) : V := if decide (func = Min) then mn else mx.

Definition host_column (func : AggregateFunction) (slots : list (Z * nat)) (has_null : bool) (agg : HostAgg) :
    result (DataType * Array) :=
  match agg with
  | HCount counts null_count =>
      v ← group_cells slots has_null (λ s, c ← index counts s; Ok (Some c)) (Some null_count);
      Ok (Int64, Int64Array_of v)
  | HSumI sums counts null_sum null_count =>
      v ← group_cells slots has_null (counted counts sums) (counted_null null_count null_sum);
      Ok (Int64, Int64Array_of v)
  | HSumF sums counts null_sum null_count =>
      v ← group_cells slots has_null (counted counts sums) (counted_null null_count null_sum);
      Ok (Float64, Float64Array_of v)
  | HMinMaxI mins maxs counts null_min null_max null_count =>
      v ← group_cells slots has_null (counted counts (pick func mins maxs))
            (counted_null null_count (pick func null_min null_max));
      Ok (Int64, Int64Array_of v)
  | HMinMaxF mins maxs counts null_min null_max null_count =>
      v ← group_cells slots has_null (counted counts (pick func mins maxs))
            (counted_null null_count (pick func null_min null_max));
      Ok (Float64, Float64Array_of v)
  end.

Definition output_column (s : Schema) (slots : list (Z * nat)) (has_null : bool)
    (agg : (AggregateFunction * nat) * HostAgg) : result (Field * Array) :=
  let '((func, idx), h) := agg in
  f ← cuda_field s idx;
  '(dt, array) ← host_column func slots has_null h;
  Ok (Field_new (agg_name func +:+ "(" +:+ field_name f +:+ ")") dt true, array).

Definition cuda_aggregate `{!ArrowKernels} (s : DeviceStream) (a : AggregateArgs) : Cu (D := D) DeviceBatch :=
  cu! _ := cu_lift (cuda_stream s) in
  cu! input := cu_lift (cuda_batch (ag_input a)) in
  let sch := db_schema (ag_input a) in
  let spec := ag_spec a in
  cu! keys := cu_lift (cuda_column input (group_by spec)) in
  cu! _ := cu_lift (require_int64 keys "group key") in
  cu! n := cu_lift (u32_len (cbt_rows input) "aggregate input") in
  let capacity := table_capacity (cbt_rows input) in
  cu! cap := cu_lift (u32_len capacity "group table capacity") in
  cu! keys0 := cu_alloc capacity in
  cu! state0 := cu_alloc capacity in
  cu! flag0 := cu_alloc 1 in
  cu! (t, flag) :=
    if (0 <? n)%nat
    then cu_launch "aggregation" AGGREGATION_SRC "oxide_agg_insert_keys" (grid_for n) (λ turns,
           f0 ← head flag0;
           r ← launch_insert_keys (grid_for n) turns (cc_values keys) (cc_validity keys) n cap (mkGroups keys0 state0, f0);
           Some (r.1, [r.2]))
    else cu_ret (mkGroups keys0 state0, flag0) in
  cu! results := cu_mapM (λ '(func, idx),
                   cu! col := cu_lift (cuda_column input idx) in
                   run_aggregate (mkGroupTable keys n cap t) func col) (aggregates spec) in
  cu! host_keys := cu_dtoh (g_keys t) in
  cu! host_state := cu_dtoh (g_state t) in
  cu! host_flag := cu_dtoh flag in
  cu! null_flag := cu_lift (first host_flag "null flag") in
  let has_null := negb (null_flag =? 0) in
  cu! slots := cu_lift (occupied (take capacity host_keys) (take capacity host_state)) in
  cu! key_field := cu_lift (cuda_field sch (group_by spec)) in
  let key_values := ((λ ks, Some ks.1) <$> slots) ++ (if has_null then [None] else []) in
  cu! cols := cu_lift (mapM (output_column sch slots has_null) (zip (aggregates spec) results)) in
  let out_schema := Schema_new (Field_new (field_name key_field) Int64 true :: cols.*1) in
  cu! b := cu_lift (map_err ArrowE (batch_try_new out_schema (Int64Array_of key_values :: cols.*2))) in
  cu_ret (mkDeviceBatch Cuda out_schema (length key_values) (BatchHost b)).
End Host.
