(* ===== verification/CudaGroups.v ===== *)
(** * The concurrent group table of the CUDA aggregation

    Threads of [oxide_agg_insert_keys] find or insert their key, one memory
    operation at a time and in any interleaving, waiting for a key another
    thread has claimed a slot for and not yet published.  The invariant is that
    a thread has only passed slots published for other keys, so that a key is
    never published twice, and that a claimed slot has one owner, which never
    waits.  In every round some thread gets on, so the launch ends; the finished
    table holds exactly the keys of the input, where a lookup finds them. *)

From S2P Require Import Prelude Floats Arrow Core Memory ArrowKernels Kernels Device Bytes Columns.
From S2P Require Import CudaKernels CudaTable CudaAggregate.

(** ** Rounds *)

Section Termination.
Context {P M : Type} (step : nat → P → M → option (P * M)) (returned : P → bool).
Context (inv : list P * M → Prop) (measure : list P * M → nat).
Hypothesis round_ok : ∀ s, inv s → forallb returned s.1 = false →
  ∃ s', run_turns step (seq 0 (length s.1)) s = Some s' ∧ inv s' ∧ (measure s' < measure s)%nat.

(** A measure that every round decreases bounds the rounds. *)
Lemma run_rounds_ends fuel s :
  inv s → (measure s ≤ fuel)%nat →
  ∃ s', run_rounds step returned fuel s = Some s' ∧ inv s' ∧ forallb returned s'.1 = true.
Proof.
  revert s. induction fuel as [|fuel IH]; intros s Hs Hm; cbn [run_rounds];
    (destruct (forallb returned s.1) eqn:Hr; [by exists s|]).
  - destruct (round_ok s Hs Hr) as (s' & _ & _ & Hlt). lia.
  - destruct (round_ok s Hs Hr) as (s' & Hrun & Hs' & Hlt). rewrite Hrun. cbn [mbind option_bind].
    apply IH; [done|lia].
Qed.
End Termination.

Lemma sum_list_insert {A} (w : A → nat) l i x y :
  l !! i = Some x → (sum_list_with w (<[i := y]> l) + w x = sum_list_with w l + w y)%nat.
Proof.
  revert i. induction l as [|a l IH]; intros [|i] Hi; try done.
  - injection Hi as ->. cbn [sum_list_with insert list_insert]. lia.
  - specialize (IH i Hi). change (<[S i := y]> (a :: l)) with (a :: <[i := y]> l). cbn [sum_list_with]. lia.
Qed.

Section Groups.
Context (keys : list Z) (validity : option (list Z)) (n capacity : nat).
Hypothesis cap_pow : (∃ p, capacity = 2 ^ p)%nat.
Hypothesis cap_room : (n < capacity)%nat.

(** The valid key of a row. *)
Context (kv : nat → option Z).
Hypothesis kv_valid : ∀ i, (i < n)%nat → oxide_is_valid validity i = Some (bool_decide (is_Some (kv i))).
Hypothesis kv_load : ∀ i k, kv i = Some k → (i < n)%nat ∧ load_i64 keys i = Some k.

Abbreviation slot_at := (CudaTable.slot_at capacity).
Abbreviation slot_lt := (CudaTable.slot_at_lt n capacity cap_room).

(** ** The invariant *)

Definition published (t : GroupKeys) (k : Z) (s : nat) : Prop := g_state t !! s = Some 2 ∧ g_keys t !! s = Some k.

(** The first [p] slots of key [k] are published for other keys. *)
Definition passed (t : GroupKeys) (k : Z) (p : nat) : Prop :=
  ∀ j, (j < p)%nat → ∃ k', published t k' (slot_at k j) ∧ k' ≠ k.

Definition chained (t : GroupKeys) (k : Z) (s : nat) : Prop :=
  ∃ p, (p < capacity)%nat ∧ s = slot_at k p ∧ passed t k p.

Definition probing (t : GroupKeys) (i : nat) (k : Z) (s p : nat) : Prop :=
  kv i = Some k ∧ s = slot_at k p ∧ (p ≤ capacity)%nat ∧ passed t k p.

(** The slot a thread has claimed. *)
Definition claimed (pc : InsertPc) : option nat :=
  match pc with AKey _ s | APublish _ s => Some s | _ => None end.

Definition pc_ok (t : GroupKeys) (i : nat) (pc : InsertPc) : Prop :=
  match pc with
  | AStart => True
  | ALoad k s p => probing t i k s p
  | ACas k s p => probing t i k s p ∧ (p < capacity)%nat
  | AKey k s => kv i = Some k ∧ chained t k s ∧ g_state t !! s = Some 1
  | APublish k s => kv i = Some k ∧ chained t k s ∧ g_state t !! s = Some 1 ∧ g_keys t !! s = Some k
  | ASpin k s p => probing t i k s p ∧ (p < capacity)%nat ∧ (g_state t !! s = Some 1 ∨ ∃ k', published t k' s)
  | ACompare k s p => probing t i k s p ∧ (p < capacity)%nat ∧ ∃ k', published t k' s
  | ADone (Some s) => ∃ k, kv i = Some k ∧ published t k s
  | ADone None => kv i = None
  end.

Definition group_len (t : GroupKeys) : Prop := length (g_keys t) = capacity ∧ length (g_state t) = capacity.

(** The flag is raised by the threads of null keys. *)
Definition flagged (pcs : list InsertPc) (flag : Z) : Prop :=
  (flag = 0 ∨ flag = 1) ∧
  (flag = 1 ↔ ∃ i, (i < n)%nat ∧ kv i = None ∧ pcs !! i = Some (ADone None)).

Record insert_inv (s : list InsertPc * (GroupKeys * Z)) : Prop := {
  ins_len : group_len s.2.1;
  ins_flag : flagged s.1 s.2.2;
  ins_pc i pc : s.1 !! i = Some pc → pc_ok s.2.1 i pc;
  ins_claim i j pci pcj sl :
    s.1 !! i = Some pci → s.1 !! j = Some pcj → claimed pci = Some sl → claimed pcj = Some sl → i = j;
  ins_state sl v : g_state s.2.1 !! sl = Some v →
    v = 0 ∨ (v = 1 ∧ ∃ i pc, s.1 !! i = Some pc ∧ claimed pc = Some sl) ∨ v = 2;
  ins_published k sl : published s.2.1 k sl → chained s.2.1 k sl ∧ ∃ i, kv i = Some k;
}.

Lemma chained_lt t k s : chained t k s → (s < capacity)%nat.
Proof. intros (p & _ & -> & _). apply slot_lt. Qed.

(** A key is published once. *)
Lemma published_once t k s s' :
  (∀ k sl, published t k sl → chained t k sl) → published t k s → published t k s' → s = s'.
Proof.
  intros Hch Hs Hs'. destruct (Hch _ _ Hs) as (p & Hp & -> & Hpass). destruct (Hch _ _ Hs') as (q & Hq & -> & Hpass').
  destruct (Nat.lt_trichotomy p q) as [Hlt|[->|Hlt]]; [|done|].
  - destruct (Hpass' p Hlt) as (k' & [_ Hk'] & Hne). destruct Hs as [_ Hk]. congruence.
  - destruct (Hpass q Hlt) as (k' & [_ Hk'] & Hne). destruct Hs' as [_ Hk]. congruence.
Qed.

(** Fewer keys than slots: nobody passes them all. *)
Lemma not_all_passed s k : insert_inv s → ¬ passed s.2.1 k capacity.
Proof.
  intros Hinv Hall. assert (∀ k sl, published s.2.1 k sl → chained s.2.1 k sl) as Hch.
  { intros k' sl Hp. apply (ins_published s Hinv k' sl Hp). }
  assert (∀ l, Forall (λ sl, sl < capacity)%nat l → ∃ os, Forall2 (λ sl i, ∃ k', published s.2.1 k' sl ∧
    kv i = Some k') l os) as Howners.
  { induction 1 as [|sl l Hsl _ (os & Hos)]; [by exists []|].
    destruct (slot_at_surj n capacity cap_pow cap_room k sl Hsl) as (p & Hp & <-).
    destruct (Hall p Hp) as (k' & Hk' & _). destruct (ins_published s Hinv k' _ Hk') as [_ [i Hi]].
    exists (i :: os). constructor; [|done]. by exists k'. }
  destruct (Howners (seq 0 capacity)) as (os & Hos).
  { apply Forall_forall. intros sl Hsl%elem_of_seq. lia. }
  assert (NoDup os) as Hnd.
  { apply NoDup_alt. intros a b i Ha Hb.
    destruct (Forall2_lookup_r _ _ _ _ _ Hos Ha) as (sa & Hsa & ka & Hka & Hia).
    destruct (Forall2_lookup_r _ _ _ _ _ Hos Hb) as (sb & Hsb & kb & Hkb & Hib).
    rewrite Hia in Hib. injection Hib as <-. pose proof (published_once _ _ _ _ Hch Hka Hkb) as Hs.
    apply lookup_seq in Hsa as [Hsa _]. apply lookup_seq in Hsb as [Hsb _]. lia. }
  assert (os ⊆ seq 0 n) as Hsub.
  { intros i (a & Ha)%list_elem_of_lookup. destruct (Forall2_lookup_r _ _ _ _ _ Hos Ha) as (sa & _ & k' & _ & Hi).
    apply elem_of_seq. apply kv_load in Hi as [Hi _]. lia. }
  pose proof (submseteq_length _ _ (NoDup_submseteq _ _ Hnd Hsub)) as Hl.
  apply Forall2_length in Hos. rewrite !length_seq in *. lia.
Qed.

(** ** One turn *)

(** [t'] differs from [t] in slot [s] only, which is claimed or published now. *)
Definition grows (s : nat) (t t' : GroupKeys) : Prop :=
  group_len t' ∧ (∀ k sl, published t k sl → published t' k sl) ∧
  (∀ sl, sl ≠ s → g_state t' !! sl = g_state t !! sl ∧ g_keys t' !! sl = g_keys t !! sl) ∧
  (g_state t' !! s = Some 1 ∨ ∃ k, published t' k s).

Lemma passed_mono t t' k p : (∀ k sl, published t k sl → published t' k sl) → passed t k p → passed t' k p.
Proof. intros Hm Hp j Hj. destruct (Hp j Hj) as (k' & Hk' & Hne). exists k'. auto. Qed.

Lemma chained_mono t t' k s : (∀ k sl, published t k sl → published t' k sl) → chained t k s → chained t' k s.
Proof. intros Hm (p & Hp & Hs & Hc). exists p. split_and!; [done..|]. by eapply passed_mono. Qed.

Lemma pc_ok_grows s t t' i pc : grows s t t' → claimed pc ≠ Some s → pc_ok t i pc → pc_ok t' i pc.
Proof.
  intros (_ & Hm & Hsame & Hs) Hc.
  assert (∀ k sl p, probing t i k sl p → probing t' i k sl p) as Hprobe.
  { intros k sl p (Hk & Hsl & Hp & Hpass). split_and!; [done..|by eapply passed_mono]. }
  destruct pc as [|k sl p|k sl p|k sl|k sl|k sl p|k sl p|[sl|]]; cbn in *; try done.
  - apply Hprobe.
  - intros [Hp Hlt]. auto.
  - intros (Hk & Hch & Hst). destruct (Hsame sl ltac:(congruence)) as [-> _].
    split_and!; [done|by eapply chained_mono|done].
  - intros (Hk & Hch & Hst & Hkey). destruct (Hsame sl ltac:(congruence)) as [-> ->].
    split_and!; [done|by eapply chained_mono|done|done].
  - intros (Hp & Hlt & Hst). split_and!; [auto|done|]. destruct (decide (sl = s)) as [->|Hne]; [done|].
    destruct (Hsame sl Hne) as [Hst' _]. destruct Hst as [Hst|[k' Hk']]; [left; congruence|right; eauto].
  - intros (Hp & Hlt & k' & Hk'). split_and!; [auto|done|eauto].
  - intros (k & Hk & Hpub). eauto.
Qed.

Lemma flagged_move pcs flag i pc' :
  (kv i ≠ None ∨ n ≤ i)%nat → flagged pcs flag → flagged (<[i := pc']> pcs) flag.
Proof.
  intros Hi [H01 Hf]. split; [done|]. rewrite Hf. f_equiv. intros j. split.
  - intros (Hj & Hk & Hpc). split_and!; [done..|]. rewrite list_lookup_insert_ne; [done|]. intros ->. destruct Hi; [done|lia].
  - intros (Hj & Hk & Hpc). split_and!; [done..|]. rewrite list_lookup_insert_ne in Hpc; [done|]. intros ->. destruct Hi; [done|lia].
Qed.

(** A thread that changes nothing of the table. *)
Lemma ins_move pcs t flag flag' i pc pc' :
  insert_inv (pcs, (t, flag)) → pcs !! i = Some pc → claimed pc = None → claimed pc' = None → pc_ok t i pc' →
  flagged (<[i := pc']> pcs) flag' → insert_inv (<[i := pc']> pcs, (t, flag')).
Proof.
  intros [Hlen _ Hpc Hcl Hst Hpub] Hi Hc Hc' Hok Hfl. cbn in *. split; cbn; [done|done|..].
  - intros j pcj [(-> & -> & _)|[Hne Hj]]%list_lookup_insert_Some; [done|by apply Hpc].
  - intros j1 j2 p1 p2 sl [(-> & -> & _)|[Hne1 Hj1]]%list_lookup_insert_Some
      [(-> & -> & _)|[Hne2 Hj2]]%list_lookup_insert_Some H1 H2; try congruence. by eapply Hcl.
  - intros sl v Hv. destruct (Hst sl v Hv) as [->|[[-> (j & pcj & Hj & Hpcj)]| ->]]; [by left| |by right; right].
    right; left. split; [done|]. exists j, pcj. rewrite list_lookup_insert_ne; [done|]. intros ->. congruence.
  - apply Hpub.
Qed.

(** A thread that works on slot [s], its own or a free one. *)
Lemma ins_change pcs t flag i pc pc' t' s :
  insert_inv (pcs, (t, flag)) → pcs !! i = Some pc → grows s t t' → pc_ok t' i pc' → kv i ≠ None →
  (claimed pc = Some s ∨ claimed pc = None ∧ g_state t !! s = Some 0) →
  (claimed pc' = Some s ∧ g_state t' !! s = Some 1 ∨
   claimed pc' = None ∧ ∃ k, published t' k s ∧ chained t' k s ∧ kv i = Some k) →
  insert_inv (<[i := pc']> pcs, (t', flag)).
Proof.
  intros [Hlen Hfl Hpc Hcl Hst Hpub] Hi Hgr Hok Hkv Hc Hc'. cbn in *.
  pose proof Hgr as (Hlen' & Hm & Hsame & _).
  assert (∀ j pcj, j ≠ i → pcs !! j = Some pcj → claimed pcj ≠ Some s) as Hnot.
  { intros j pcj Hne Hj Hsj. destruct Hc as [Hc|[_ Hfree]]; [by apply Hne, (Hcl j i pcj pc s)|].
    pose proof (Hpc j pcj Hj) as Hokj. destruct pcj; cbn in Hsj, Hokj; try done; injection Hsj as ->;
      destruct Hokj as (_ & _ & Hs1); [congruence|]. destruct Hs1. congruence. }
  split; cbn; [done|apply flagged_move; auto|..].
  - intros j pcj [(-> & -> & _)|[Hne Hj]]%list_lookup_insert_Some; [done|].
    apply (pc_ok_grows s t t'); [done|by apply (Hnot j)|by apply Hpc].
  - intros j1 j2 p1 p2 sl [(<- & <- & _)|[Hne1 Hj1]]%list_lookup_insert_Some
      [(<- & <- & _)|[Hne2 Hj2]]%list_lookup_insert_Some H1 H2; [done| | |by eapply Hcl].
    + exfalso. destruct Hc' as [[Hc' _]|[Hc' _]]; [apply (Hnot j2 p2)|]; congruence.
    + exfalso. destruct Hc' as [[Hc' _]|[Hc' _]]; [apply (Hnot j1 p1)|]; congruence.
  - intros sl v Hv. destruct (decide (sl = s)) as [->|Hne].
    + destruct Hc' as [[Hc' Hs1]|[_ (k & [Hs2 _] & _)]]; [|right; right; congruence].
      right; left. split; [congruence|]. exists i, pc'. rewrite list_lookup_insert_eq by (by eapply lookup_lt_Some). done.
    + destruct (Hsame sl Hne) as [Hs _]. rewrite Hs in Hv.
      destruct (Hst sl v Hv) as [->|[[-> (j & pcj & Hj & Hpcj)]| ->]]; [by left| |by right; right].
      right; left. split; [done|]. exists j, pcj. rewrite list_lookup_insert_ne; [done|]. intros ->.
      destruct Hc as [Hc|[Hc _]]; congruence.
  - intros k sl [Hs2 Hk]. destruct (decide (sl = s)) as [->|Hne].
    + destruct Hc' as [[_ Hs1]|[_ (k' & [_ Hk'] & Hch & Hkvi)]]; [congruence|].
      assert (k = k') as -> by congruence. split; [done|by exists i].
    + destruct (Hsame sl Hne) as [Hs Hkk]. destruct (Hpub k sl) as [Hch Hex]; [split; congruence|].
      split; [by eapply chained_mono|done].
Qed.

(** What a thread still has to do, waiting aside. *)
Definition weight (pc : InsertPc) : nat :=
  match pc with
  | AStart => 4 * capacity + 7
  | ALoad _ _ p => 4 * (capacity - p) + 6
  | ACas _ _ p => 4 * (capacity - p) + 5
  | ASpin _ _ p => 4 * (capacity - p) + 4
  | ACompare _ _ p => 4 * (capacity - p) + 3
  | AKey _ _ => 2
  | APublish _ _ => 1
  | ADone _ => 0
  end.

(** A thread that need not wait. *)
Definition unblocked (t : GroupKeys) (pc : InsertPc) : Prop :=
  match pc with ASpin _ s _ => g_state t !! s ≠ Some 1 | _ => True end.

Abbreviation insert := (oxide_agg_insert_keys keys validity n capacity).

Definition good_turn (pcs : list InsertPc) (t : GroupKeys) (flag : Z) (i : nat) (pc : InsertPc) : Prop :=
  ∃ pc' t' flag', insert i pc (t, flag) = Some (pc', (t', flag')) ∧
    insert_inv (<[i := pc']> pcs, (t', flag')) ∧ (∀ k sl, published t k sl → published t' k sl) ∧
    (weight pc' ≤ weight pc)%nat ∧ (unblocked t pc → insert_returned pc = false → (weight pc' < weight pc)%nat).

Section Turn.
Context (pcs : list InsertPc) (t : GroupKeys) (flag : Z) (i : nat).
Hypothesis inv : insert_inv (pcs, (t, flag)).

(** A turn that only moves the thread on. *)
Lemma move_turn pc pc' :
  pcs !! i = Some pc → insert i pc (t, flag) = Some (pc', (t, flag)) → claimed pc = None → claimed pc' = None → pc_ok t i pc' →
  (kv i ≠ None ∨ n ≤ i)%nat → (weight pc' ≤ weight pc)%nat →
  (unblocked t pc → insert_returned pc = false → weight pc' < weight pc)%nat → good_turn pcs t flag i pc.
Proof.
  intros at_i Hr Hc Hc' Hok Hi Hw Hw'. exists pc', t, flag. split_and!; try done.
  eapply ins_move; [exact inv|exact at_i|done..|]. apply flagged_move; [done|apply inv].
Qed.

Lemma start_turn : pcs !! i = Some AStart → good_turn pcs t flag i AStart.
Proof.
  intros at_i. destruct (Nat.le_gt_cases n i) as [Hge|Hlt].
  { apply (move_turn _ (ADone None)); cbn; try lia; try done.
    - by rewrite (proj2 (Nat.leb_le _ _) Hge).
    - destruct (kv i) as [k|] eqn:Hk; [|done]. apply kv_load in Hk as [Hk _]. lia. }
  destruct (kv i) as [k|] eqn:Hk.
  - apply (move_turn _ (ALoad k (oxide_ag_hash k capacity) 0)); cbn; try lia; try done; [| |by left; rewrite Hk].
    + rewrite (proj2 (Nat.leb_gt _ _) Hlt), kv_valid by done. rewrite bool_decide_eq_true_2 by by rewrite Hk.
      cbn. by rewrite (proj2 (kv_load i k Hk)).
    + split_and!; [done|by rewrite (slot_at_0 n)|lia|]. intros j Hj. lia.
  - exists (ADone None), t, (Z.lor flag 1). cbn. rewrite (proj2 (Nat.leb_gt _ _) Hlt), kv_valid by done.
    rewrite bool_decide_eq_false_2 by (rewrite Hk; by intros []). split_and!; [done| |done|lia|lia].
    pose proof (ins_flag _ inv) as [H01 Hf]. cbn in H01, Hf.
    assert (Z.lor flag 1 = 1) as -> by (destruct H01 as [->| ->]; done).
    apply (ins_move _ _ _ _ _ _ _ inv at_i); [done..|]. split; [by right|]. split; [|done]. intros _.
    exists i. split_and!; [done..|]. apply list_lookup_insert_eq. by eapply lookup_lt_Some.
Qed.

Lemma load_turn k sl p : pcs !! i = Some (ALoad k sl p) → good_turn pcs t flag i (ALoad k sl p).
Proof.
  intros at_i. pose proof (ins_pc _ inv i _ at_i) as (Hk & -> & Hp & Hpass). cbn [fst snd] in Hpass.
  assert (p ≠ capacity) as Hne by (intros ->; by apply (not_all_passed _ k inv)).
  pose proof (slot_lt k p) as Hsl. destruct (ins_len _ inv) as [_ Hls]. cbn in Hls.
  destruct (lookup_lt_is_Some_2 (g_state t) (slot_at k p) ltac:(lia)) as [st Hst].
  set (pc' := if st =? 0 then ACas k (slot_at k p) p
              else if st =? 1 then ASpin k (slot_at k p) p else ACompare k (slot_at k p) p).
  assert (insert i (ALoad k (slot_at k p) p) (t, flag) = Some (pc', (t, flag))) as Hr.
  { cbn. rewrite (proj2 (Nat.leb_gt _ _)), Hst by lia. done. }
  assert (∃ k', st = 2 → published t k' (slot_at k p)) as [k' Hk'].
  { destruct (lookup_lt_is_Some_2 (g_keys t) (slot_at k p)) as [k' Hk']; [|exists k'; intros ->; done].
    destruct (ins_len _ inv) as [Hlk _]. cbn in Hlk. lia. }
  apply (move_turn _ pc'); [done|done|done|unfold pc'; by repeat case_match| |left; by rewrite Hk| |].
  - unfold pc'. destruct (ins_state _ inv _ _ Hst) as [->|[[-> _]| ->]]; cbn; split_and!; try done; try lia; eauto.
  - unfold pc'. repeat case_match; cbn; lia.
  - intros _ _. unfold pc'. repeat case_match; cbn; lia.
Qed.

Lemma spin_turn k sl p : pcs !! i = Some (ASpin k sl p) → good_turn pcs t flag i (ASpin k sl p).
Proof.
  intros at_i. pose proof (ins_pc _ inv i _ at_i) as ((Hk & -> & Hp & Hpass) & Hlt & Hst). cbn [fst snd] in *.
  destruct Hst as [Hst|[k' [Hst Hk']]].
  - apply (move_turn _ (ASpin k (slot_at k p) p)); cbn; try lia; try done; [by rewrite Hst| |left; by rewrite Hk].
    split_and!; [done|done|by left].
  - apply (move_turn _ (ACompare k (slot_at k p) p)); cbn; try lia; try done; [by rewrite Hst| |left; by rewrite Hk].
    split_and!; [done|done|by exists k'].
Qed.

Lemma compare_turn k sl p : pcs !! i = Some (ACompare k sl p) → good_turn pcs t flag i (ACompare k sl p).
Proof.
  intros at_i. pose proof (ins_pc _ inv i _ at_i) as ((Hk & -> & Hp & Hpass) & Hlt & k' & Hst & Hk'). cbn [fst snd] in *.
  destruct (Z.eqb_spec k' k) as [->|Hne].
  - apply (move_turn _ (ADone (Some (slot_at k p)))); cbn; try lia; try done; [by rewrite Hk'; cbn; rewrite Z.eqb_refl| |left; by rewrite Hk].
    by exists k.
  - apply (move_turn _ (ALoad k (slot_at k (S p)) (S p))); cbn; try lia; try done; [| |left; by rewrite Hk].
    + rewrite Hk'. cbn. rewrite (proj2 (Z.eqb_neq _ _) Hne). by rewrite (next_slot_at n).
    + split_and!; [done|done|lia|]. intros j Hj. destruct (decide (j = p)) as [->|]; [by exists k'|]. apply Hpass. lia.
Qed.

Lemma cas_turn_ok k sl p : pcs !! i = Some (ACas k sl p) → good_turn pcs t flag i (ACas k sl p).
Proof.
  intros at_i. pose proof (ins_pc _ inv i _ at_i) as ((Hk & -> & Hp & Hpass) & Hlt). cbn [fst snd] in *.
  pose proof (slot_lt k p) as Hsl. pose proof (ins_len _ inv) as [Hlk Hls]. cbn in Hlk, Hls.
  destruct (lookup_lt_is_Some_2 (g_state t) (slot_at k p) ltac:(lia)) as [st Hst].
  destruct (lookup_lt_is_Some_2 (g_keys t) (slot_at k p) ltac:(lia)) as [k' Hk'].
  destruct (Z.eqb_spec st 0) as [->|Hne].
  - set (t' := mkGroups (g_keys t) (<[slot_at k p := 1]> (g_state t))).
    assert (g_state t' !! slot_at k p = Some 1) as Hst' by (cbn; rewrite list_lookup_insert_eq by lia; done).
    assert (grows (slot_at k p) t t') as Hgr.
    { split_and!; [by split; cbn; rewrite ?length_insert| | |by left].
      - intros k1 s1 [Hs1 Hk1]. split; [|done]. cbn. rewrite list_lookup_insert_ne; [done|]. intros <-. congruence.
      - intros s1 Hs1. cbn. by rewrite list_lookup_insert_ne. }
    exists (AKey k (slot_at k p)), t', flag. split_and!; [|  |apply Hgr|cbn; lia|cbn; lia].
    + cbn. rewrite Hst. cbn. by rewrite store_Some by lia.
    + apply (ins_change pcs t flag i (ACas k (slot_at k p) p) _ t' (slot_at k p)); try done; [|by rewrite Hk|by right|by left].
      split_and!; [done| |done]. exists p. split_and!; [done..|]. eapply passed_mono; [apply Hgr|done].
  - apply (move_turn _ (ASpin k (slot_at k p) p)); cbn; try lia; try done; [| |left; by rewrite Hk].
    + rewrite Hst. cbn. by rewrite (proj2 (Z.eqb_neq _ _) Hne).
    + split_and!; [done|done|]. destruct (ins_state _ inv _ _ Hst) as [->|[[-> _]| ->]]; [done|by left|right; by exists k'].
Qed.

Lemma key_turn k sl : pcs !! i = Some (AKey k sl) → good_turn pcs t flag i (AKey k sl).
Proof.
  intros at_i. pose proof (ins_pc _ inv i _ at_i) as (Hk & Hch & Hst). cbn [fst snd] in *.
  pose proof (chained_lt _ _ _ Hch) as Hsl. pose proof (ins_len _ inv) as [Hlk Hls]. cbn in Hlk, Hls.
  set (t' := mkGroups (<[sl := k]> (g_keys t)) (g_state t)).
  assert (grows sl t t') as Hgr.
  { split_and!; [by split; cbn; rewrite ?length_insert| | |by left].
    - intros k1 s1 [Hs1 Hk1]. split; [done|]. cbn. rewrite list_lookup_insert_ne; [done|]. intros <-. congruence.
    - intros s1 Hs1. cbn. by rewrite list_lookup_insert_ne. }
  exists (APublish k sl), t', flag. split_and!; [|  |apply Hgr|cbn; lia|cbn; lia].
  - cbn. by rewrite store_Some by lia.
  - apply (ins_change pcs t flag i (AKey k sl) _ t' sl); try done; [|by rewrite Hk|by left|by left].
    split_and!; [done|by eapply chained_mono; [apply Hgr|]|done|]. cbn. by rewrite list_lookup_insert_eq by lia.
Qed.

Lemma publish_turn k sl : pcs !! i = Some (APublish k sl) → good_turn pcs t flag i (APublish k sl).
Proof.
  intros at_i. pose proof (ins_pc _ inv i _ at_i) as (Hk & Hch & Hst & Hkey). cbn [fst snd] in *.
  pose proof (chained_lt _ _ _ Hch) as Hsl. pose proof (ins_len _ inv) as [Hlk Hls]. cbn in Hlk, Hls.
  set (t' := mkGroups (g_keys t) (<[sl := 2]> (g_state t))).
  assert (published t' k sl) as Hpub by (split; [cbn; by rewrite list_lookup_insert_eq by lia|done]).
  assert (grows sl t t') as Hgr.
  { split_and!; [by split; cbn; rewrite ?length_insert| | |right; by exists k].
    - intros k1 s1 [Hs1 Hk1]. split; [|done]. cbn. rewrite list_lookup_insert_ne; [done|]. intros <-. congruence.
    - intros s1 Hs1. cbn. by rewrite list_lookup_insert_ne. }
  exists (ADone (Some sl)), t', flag. split_and!; [|  |apply Hgr|cbn; lia|cbn; lia].
  - cbn. by rewrite store_Some by lia.
  - apply (ins_change pcs t flag i (APublish k sl) _ t' sl); try done; [by exists k|by rewrite Hk|by left|right].
    split; [done|]. exists k. split_and!; [done| |done]. eapply chained_mono; [apply Hgr|done].
Qed.

Lemma any_turn pc : pcs !! i = Some pc → good_turn pcs t flag i pc.
Proof.
  intros at_i. destruct pc as [|k sl p|k sl p|k sl|k sl|k sl p|k sl p|o].
  - by apply start_turn.
  - by apply load_turn.
  - by apply cas_turn_ok.
  - by apply key_turn.
  - by apply publish_turn.
  - by apply spin_turn.
  - by apply compare_turn.
  - exists (ADone o), t, flag. split_and!; [done| |done|done|done]. by rewrite list_insert_id.
Qed.
End Turn.

(** ** Whole executions *)

Definition total_weight (s : list InsertPc * (GroupKeys * Z)) : nat := sum_list_with weight s.1.

Lemma turns_ok turns s :
  insert_inv s →
  ∃ s', run_turns insert turns s = Some s' ∧ insert_inv s' ∧ length s'.1 = length s.1 ∧
    (total_weight s' ≤ total_weight s)%nat ∧
    ((∃ i pc, i ∈ turns ∧ s.1 !! i = Some pc ∧ unblocked s.2.1 pc ∧ insert_returned pc = false) →
     (total_weight s' < total_weight s)%nat).
Proof.
  revert s. induction turns as [|j turns IH]; intros [pcs [t flag]] Hinv.
  { eexists. split; [done|]. split_and!; [done..|]. intros (i & pc & Hi & _). by apply elem_of_nil in Hi. }
  unfold run_turns. cbn [foldl mbind option_bind]. unfold take_turn at 2. cbn [fst snd].
  destruct (pcs !! j) as [pc|] eqn:Hj.
  - destruct (any_turn pcs t flag j Hinv pc Hj) as (pc' & t' & flag' & -> & Hinv' & Hpub & Hle & Hlt).
    cbn [mbind option_bind fst snd]. pose proof (sum_list_insert weight pcs j pc pc' Hj) as Hsum.
    destruct (IH _ Hinv') as (s' & Hrun & Hs' & Hl & Hw & Hprog). exists s'. unfold run_turns in Hrun.
    rewrite Hrun. unfold total_weight in *. cbn [fst snd] in *. rewrite length_insert in Hl.
    split_and!; [done|done|done|lia|]. intros (i & pci & Hi & Hpci & Hub & Hret).
    destruct (decide (i = j)) as [->|Hne].
    { rewrite Hj in Hpci. injection Hpci as <-. specialize (Hlt Hub Hret). lia. }
    assert (sum_list_with weight s'.1 < sum_list_with weight (<[j := pc']> pcs))%nat; [|lia].
    apply Hprog. exists i, pci. apply elem_of_cons in Hi as [?|Hi]; [done|].
    split_and!; [done|by rewrite list_lookup_insert_ne| |done].
    destruct pci as [| | | | |k sl p| |]; try done. cbn in Hub |- *.
    pose proof (ins_pc _ Hinv i _ Hpci) as (_ & _ & [Hs|[k' Hk']]); [done|].
    destruct (Hpub _ _ Hk') as [-> _]. congruence.
  - destruct (IH _ Hinv) as (s' & Hrun & Hs' & Hl & Hw & Hprog). exists s'. unfold run_turns in Hrun.
    cbn [mbind option_bind] in *. rewrite Hrun. split_and!; [done..|]. intros (i & pci & Hi & Hpci & Hrest). apply Hprog.
    exists i, pci. apply elem_of_cons in Hi as [->|Hi]; [cbn in Hpci; congruence|]. done.
Qed.

(** Some thread that has not returned need not wait: the owner of the slot another waits for. *)
Lemma some_unblocked s :
  insert_inv s → forallb insert_returned s.1 = false →
  ∃ i pc, s.1 !! i = Some pc ∧ unblocked s.2.1 pc ∧ insert_returned pc = false.
Proof.
  intros Hinv Hr. assert (∃ i pc, s.1 !! i = Some pc ∧ insert_returned pc = false) as (i & pc & Hi & Hpc).
  { destruct (decide (Forall (λ pc, insert_returned pc = true) s.1)) as [Hall|Hnot].
    - exfalso. rewrite Forall_forall in Hall. apply not_true_iff_false in Hr. apply Hr, forallb_forall.
      intros pc Hpc. apply Hall. by apply list_elem_of_In.
    - apply not_Forall_Exists in Hnot; [|intros ?; apply _]. apply Exists_exists in Hnot as (pc & Hpc & Hn).
      apply list_elem_of_lookup in Hpc as [i Hi]. exists i, pc. split; [done|]. by apply not_true_iff_false in Hn. }
  destruct pc as [| | | | |k sl p| |]; try (by exists i; eexists; split_and!).
  destruct (decide (g_state s.2.1 !! sl = Some 1)) as [Hst|Hst]; [|by exists i; eexists; split_and!].
  destruct (ins_state s Hinv _ _ Hst) as [?|[[_ (j & pcj & Hj & Hc)]|?]]; [done| |done].
  exists j, pcj. split; [done|]. by destruct pcj.
Qed.

(** What the finished table is. *)
Record grouped (t : GroupKeys) (flag : Z) : Prop := {
  gr_len : group_len t;
  gr_state sl v : g_state t !! sl = Some v → v = 0 ∨ v = 2;
  gr_key i k : kv i = Some k → ∃ s, published t k s;
  gr_published k sl : published t k sl → chained t k sl ∧ ∃ i, kv i = Some k;
  gr_flag : (flag = 0 ∨ flag = 1) ∧ (flag = 1 ↔ ∃ i, (i < n)%nat ∧ kv i = None);
}.

Lemma returned_grouped s :
  insert_inv s → (n ≤ length s.1)%nat → forallb insert_returned s.1 = true → grouped s.2.1 s.2.2.
Proof.
  intros Hinv Hn Hr.
  assert (∀ i pc, s.1 !! i = Some pc → ∃ o, pc = ADone o) as Hdone.
  { intros i pc Hi. rewrite forallb_forall in Hr. apply list_elem_of_lookup_2, list_elem_of_In, Hr in Hi.
    destruct pc; try done. by eexists. }
  assert (∀ i, (i < n)%nat → ∃ o, s.1 !! i = Some (ADone o)) as Hrow.
  { intros i Hi. destruct (lookup_lt_is_Some_2 s.1 i ltac:(lia)) as [pc Hpc]. destruct (Hdone i pc Hpc) as [o ->]. eauto. }
  split.
  - apply Hinv.
  - intros sl v Hv. destruct (ins_state s Hinv sl v Hv) as [->|[[_ (i & pc & Hi & Hc)]| ->]]; [by left| |by right].
    destruct (Hdone i pc Hi) as [o ->]. done.
  - intros i k Hk. destruct (Hrow i) as [o Ho]; [by apply (kv_load i k)|].
    pose proof (ins_pc s Hinv i _ Ho) as Hok. destruct o as [sl|]; cbn in Hok; [|congruence].
    destruct Hok as (k' & Hk' & Hpub). exists sl. congruence.
  - apply Hinv.
  - destruct (ins_flag s Hinv) as [H01 Hf]. split; [done|]. rewrite Hf. f_equiv. intros i. split; [tauto|].
    intros [Hi Hk]. split_and!; [done..|]. destruct (Hrow i Hi) as [[sl|] Ho]; [|done].
    pose proof (ins_pc s Hinv i _ Ho) as (k & Hk' & _). congruence.
Qed.

Definition no_groups : GroupKeys := mkGroups (replicate capacity 0) (replicate capacity 0).

Lemma insert_start threads : insert_inv (replicate threads AStart, (no_groups, 0)).
Proof.
  split; cbn.
  - split; apply length_replicate.
  - split; [by left|]. split; [done|]. intros (i & _ & _ & [Hi _]%lookup_replicate). done.
  - intros i pc [-> _]%lookup_replicate. done.
  - intros i j pci pcj sl [-> _]%lookup_replicate. done.
  - intros sl v [-> _]%lookup_replicate. by left.
  - intros k sl [[Hs _]%lookup_replicate _]. done.
Qed.

Lemma total_weight_start threads m : total_weight (replicate threads AStart, m) = insert_fuel threads capacity.
Proof. unfold total_weight, insert_fuel. cbn [fst]. induction threads as [|k IH]; cbn [replicate sum_list_with weight]; lia. Qed.

(** Whatever the interleaving, the launch ends with the keys grouped. *)
Lemma launch_insert_grouped threads turns :
  (n ≤ threads)%nat →
  ∃ t flag, launch_insert_keys threads turns keys validity n capacity (no_groups, 0) = Some (t, flag) ∧ grouped t flag.
Proof.
  intros Hn. unfold launch_insert_keys, launch_turns.
  destruct (turns_ok turns _ (insert_start threads)) as (s & Hrun & Hinv & Hlen & Hw & _). rewrite Hrun. cbn [mbind option_bind].
  rewrite total_weight_start in Hw. cbn [fst] in Hlen. rewrite length_replicate in Hlen.
  destruct (run_rounds_ends insert insert_returned (λ s', insert_inv s' ∧ length s'.1 = threads) total_weight) with
    (fuel := insert_fuel threads capacity) (s := s) as (s' & Hs' & [Hinv' Hlen'] & Hret); [|done|done|].
  - intros s0 [Hinv0 Hlen0] Hr. destruct (turns_ok (seq 0 (length s0.1)) s0 Hinv0) as (s' & Hrun' & Hinv' & Hl & _ & Hprog).
    exists s'. split_and!; [done|done|congruence|]. apply Hprog.
    destruct (some_unblocked s0 Hinv0 Hr) as (i & pc & Hi & Hrest). exists i, pc. split; [|done].
    apply elem_of_seq. apply lookup_lt_Some in Hi. lia.
  - rewrite Hs'. exists s'.2.1, s'.2.2. split; [by destruct s' as [? []]|]. apply returned_grouped; [done|lia|done].
Qed.

(** With no rows the table stays empty. *)
Lemma no_groups_grouped : (∀ i, kv i = None) → (n = 0)%nat → grouped no_groups 0.
Proof.
  intros Hkv Hn. split.
  - split; apply length_replicate.
  - intros sl v [-> _]%lookup_replicate. by left.
  - intros i k Hk. congruence.
  - intros k sl [[Hs _]%lookup_replicate _]. done.
  - split; [by left|]. split; [done|]. intros (i & Hi & _). lia.
Qed.

(** ** Lookups *)

Lemma find_from t flag k q p fuel :
  grouped t flag → published t k (slot_at k q) → passed t k q → (p ≤ q < p + fuel)%nat →
  oxide_ag_find fuel t k (slot_at k p) capacity = Some (Some (slot_at k q)).
Proof.
  intros Hg [Hst Hk] Hpass. revert p. induction fuel as [|fuel IH]; intros p Hp; [lia|]. cbn [oxide_ag_find].
  destruct (decide (p = q)) as [->|Hne].
  - rewrite Hst. cbn. rewrite Hk. cbn. by rewrite Z.eqb_refl.
  - destruct (Hpass p ltac:(lia)) as (k' & [Hst' Hk'] & Hne'). rewrite Hst'. cbn. rewrite Hk'. cbn.
    rewrite (proj2 (Z.eqb_neq _ _) Hne'), (next_slot_at n) by done. apply IH. lia.
Qed.

(** A lookup finds the key's only slot. *)
Lemma find_group t flag k s :
  grouped t flag → published t k s →
  oxide_ag_find capacity t k (oxide_ag_hash k capacity) capacity = Some (Some s).
Proof.
  intros Hg Hpub. destruct (gr_published t flag Hg k s Hpub) as [(q & Hq & -> & Hpass) _].
  unfold oxide_ag_hash. rewrite <- (slot_at_0 n) by done. apply (find_from t flag); [done..|lia].
Qed.

Lemma grouped_once t flag k s s' : grouped t flag → published t k s → published t k s' → s = s'.
Proof.
  intros Hg. apply published_once. intros k' sl Hp. by apply (gr_published t flag Hg k' sl).
Qed.
End Groups.
