(* ===== verification/CudaAccumulate.v ===== *)
(** * Atomic accumulators

    Threads that update accumulators by atomic operations, in any interleaving
    and with compare-and-swap loops that may have to be repeated: the launch
    ends, and each cell holds what the operations on it make of its first value
    in some order ([launch_accumulate_perm], [read_fold]). *)

From S2P Require Import Prelude Floats Arrow Core Memory ArrowKernels Kernels Device Bytes Columns.
From S2P Require Import CudaKernels CudaTable CudaAggregate CudaGroups.

(** ** One operation *)

(** What an operation makes of a cell. *)
Definition effect (op : Atomic) (v : Z) : Z :=
  match op with
  | AtomicAdd64 x => wrap_i64 (v + x)
  | AtomicAdd32 x => wrap32 (v + x)
  | AtomicAddF x => f64_bits (f64_add (F64 v) x)
  | AtomicMin64 x => Z.min v x
  | AtomicMax64 x => Z.max v x
  | AtomicMinF x _ => if f64_ltb x (F64 v) then f64_bits x else v
  | AtomicMaxF x _ => if f64_ltb (F64 v) x then f64_bits x else v
  end.

(** The operation before its first turn. *)
Definition afresh (op : Atomic) : Atomic :=
  match op with AtomicMinF x _ => AtomicMinF x None | AtomicMaxF x _ => AtomicMaxF x None | _ => op end.

(** A loop swaps only for a value it found worse. *)
Definition op_ok (op : Atomic) : Prop :=
  match op with
  | AtomicMinF x (Some a) => f64_ltb x (F64 a) = true
  | AtomicMaxF x (Some a) => f64_ltb (F64 a) x = true
  | _ => True
  end.

(** The next turn of the operation on a cell that holds [v] ends it. *)
Definition ready (op : Atomic) (v : Z) : bool :=
  match op with AtomicMinF _ a | AtomicMaxF _ a => bool_decide (a = Some v) | _ => true end.

Lemma effect_afresh op v : effect (afresh op) v = effect op v.
Proof. by destruct op. Qed.

Lemma atomic_turn_cases op v :
  op_ok op →
  atomic_turn op v = (None, effect op v) ∨
  ∃ op', atomic_turn op v = (Some op', v) ∧ afresh op' = afresh op ∧ op_ok op' ∧ ready op' v = true ∧ ready op v = false.
Proof.
  assert (∀ better x again a, (∀ a', a = Some a' → better x (F64 a') = true) →
    cas_turn better x again a v = (None, if better x (F64 v) then f64_bits x else v) ∨
    cas_turn better x again a v = (Some (again (Some v)), v) ∧ a ≠ Some v ∧ better x (F64 v) = true) as Hcas.
  { intros better x again a Ha. unfold cas_turn. destruct a as [a|].
    - destruct (Z.eqb_spec v a) as [<-|Hne].
      + left. by rewrite (Ha v eq_refl).
      + destruct (better x (F64 v)); [right; split_and!; [done|congruence|done]|by left].
    - destruct (better x (F64 v)); [by right|by left]. }
  destruct op as [x|x|x|x|x|x a|x a]; intros Hok; try (by left); cbn [atomic_turn effect].
  - destruct (Hcas f64_ltb x (AtomicMinF x) a) as [->|(-> & Hne & Hb)]; [intros a' ->; done|by left|].
    right. eexists. split_and!; [done|done|done|by apply bool_decide_eq_true|by apply bool_decide_eq_false].
  - destruct (Hcas (λ a b, f64_ltb b a) x (AtomicMaxF x) a) as [->|(-> & Hne & Hb)]; [intros a' ->; done|by left|].
    right. eexists. split_and!; [done|done|done|by apply bool_decide_eq_true|by apply bool_decide_eq_false].
Qed.

(** ** Memory *)

Definition mem_apply (m : list (list Z)) (o : cell * Atomic) : list (list Z) :=
  alter (alter (effect o.2) o.1.2) o.1.1 m.

Lemma read_apply m o c :
  read_cell (mem_apply m o) c = (if decide (c = o.1) then effect o.2 <$> read_cell m c else read_cell m c).
Proof.
  destruct o as [[b i] op], c as [b' i']. unfold read_cell, mem_apply. cbn [fst snd].
  destruct (decide (b' = b)) as [->|Hb].
  - rewrite list_lookup_alter_eq. destruct (m !! b) as [buf|]; cbn; [|by case_decide].
    destruct (decide (i' = i)) as [->|Hi].
    + rewrite decide_True by done. by rewrite list_lookup_alter_eq.
    + rewrite decide_False by congruence. by rewrite list_lookup_alter_ne.
  - rewrite decide_False by congruence. by rewrite list_lookup_alter_ne.
Qed.

Lemma write_read m c v f :
  read_cell m c = Some v → write_cell m c (f v) = Some (alter (alter f c.2) c.1 m).
Proof.
  unfold read_cell, write_cell. destruct c as [b i]. cbn [fst snd]. intros (buf & Hb & Hi)%bind_Some.
  rewrite Hb. cbn. rewrite store_Some by (by eapply lookup_lt_Some). cbn. f_equal.
  apply list_eq. intros b'. destruct (decide (b' = b)) as [->|Hne].
  - rewrite list_lookup_insert_eq by (by eapply lookup_lt_Some). rewrite list_lookup_alter_eq, Hb. cbn. f_equal.
    apply list_eq. intros i'. destruct (decide (i' = i)) as [->|Hne'].
    + rewrite list_lookup_insert_eq by (by eapply lookup_lt_Some). by rewrite list_lookup_alter_eq, Hi.
    + by rewrite list_lookup_insert_ne, list_lookup_alter_ne.
  - by rewrite list_lookup_insert_ne, list_lookup_alter_ne.
Qed.

Lemma write_same m c v : read_cell m c = Some v → write_cell m c v = Some m.
Proof.
  unfold read_cell, write_cell. destruct c as [b i]. cbn [fst snd]. intros (buf & Hb & Hi)%bind_Some.
  rewrite Hb. cbn. rewrite store_Some by (by eapply lookup_lt_Some). cbn. f_equal.
  rewrite (list_insert_id buf) by done. by rewrite list_insert_id.
Qed.

(** Each cell is folded by its own operations. *)
Lemma read_fold l m c :
  read_cell (foldl mem_apply m l) c
  = (λ v, foldl (λ v o, effect o.2 v) v (filter (λ o, o.1 = c) l)) <$> read_cell m c.
Proof.
  revert m. induction l as [|o l IH]; intros m; cbn [foldl]; [by destruct (read_cell m c)|].
  rewrite IH, read_apply, filter_cons. destruct (decide (c = o.1)) as [->|Hne].
  - rewrite decide_True by done. by destruct (read_cell m o.1).
  - rewrite decide_False by congruence. done.
Qed.

(** ** Executions *)

Abbreviation task := (cell * Atomic)%type.
Definition task_afresh (o : task) : task := (o.1, afresh o.2).

Lemma mem_apply_afresh m o : mem_apply m (task_afresh o) = mem_apply m o.
Proof. by destruct o as [[b i] op]; destruct op. Qed.

(** The head of a thread is ready, or the thread has returned. *)
Definition head_ready (m : list (list Z)) (pc : list task) : bool :=
  match pc with
  | [] => true
  | (c, op) :: _ => match read_cell m c with Some v => ready op v | None => true end
  end.

Definition tasks_ok (m : list (list Z)) (pc : list task) : Prop :=
  Forall (λ o, op_ok o.2 ∧ is_Some (read_cell m o.1)) pc.

Lemma accumulate_turn_cases i pc m :
  tasks_ok m pc →
  ∃ pc' m', accumulate_turn i pc m = Some (pc', m') ∧ tasks_ok m' pc' ∧
    ((pc = [] ∧ pc' = [] ∧ m' = m) ∨
     (∃ o, pc = o :: pc' ∧ m' = mem_apply m o) ∨
     (m' = m ∧ head_ready m pc = false ∧ head_ready m pc' = true ∧ task_afresh <$> pc' = task_afresh <$> pc)).
Proof.
  intros Hok. destruct pc as [|[c op] rest]; [by exists [], m; split_and!; [| |by left]|].
  apply Forall_cons in Hok as [[Hop [v Hv]] Hok]. cbn [fst snd] in *. cbn [accumulate_turn]. rewrite Hv. cbn [mbind option_bind].
  destruct (atomic_turn_cases op v Hop) as [->|(op' & -> & Haf & Hop' & Hr & Hr')].
  - rewrite (write_read _ _ _ (effect op) Hv). cbn [mbind option_bind]. eexists _, _. split; [done|].
    split; [|right; left; by eexists].
    eapply Forall_impl; [exact Hok|]. intros o [Ho Hc]. split; [done|].
    change (is_Some (read_cell (mem_apply m (c, op)) o.1)). rewrite read_apply. case_decide; [by apply fmap_is_Some|done].
  - rewrite (write_same _ _ _ Hv). cbn [mbind option_bind]. eexists _, _. split; [done|]. split.
    + constructor; [|done]. split; [done|]. cbn. by rewrite Hv.
    + right; right. split_and!; [done|cbn; by rewrite Hv|cbn; by rewrite Hv|]. cbn [fmap list_fmap]. unfold task_afresh at 1 3.
      cbn [fst snd]. by rewrite Haf.
Qed.

Definition pending (s : list (list task) * list (list Z)) : nat := sum_list_with length s.1.

Lemma pending_concat s : pending s = length (concat s.1).
Proof.
  unfold pending. induction s.1 as [|pc l IH]; [done|]. cbn [sum_list_with concat]. rewrite length_app. lia.
Qed.

Lemma concat_insert {A} (l : list (list A)) i x xs :
  l !! i = Some (x :: xs) → concat l ≡ₚ x :: concat (<[i := xs]> l).
Proof.
  intros Hi. rewrite <- (take_drop_middle l i (x :: xs) Hi) at 1. rewrite insert_take_drop by (by eapply lookup_lt_Some).
  rewrite !concat_app. cbn. by rewrite <- Permutation_middle.
Qed.

Lemma fmap_concat_insert {A B} (f : A → B) (l : list (list A)) i x y :
  l !! i = Some x → f <$> y = f <$> x → f <$> concat (<[i := y]> l) = f <$> concat l.
Proof.
  intros Hi Hf. rewrite <- (take_drop_middle l i x Hi) at 2. rewrite insert_take_drop by (by eapply lookup_lt_Some).
  rewrite !concat_app, !fmap_app. cbn. rewrite !fmap_app. by rewrite Hf.
Qed.

Section Accumulate.
(** The operations at the start and the memory they start from. *)
Context (all : list task) (m0 : list (list Z)).

Definition acc_inv (s : list (list task) * list (list Z)) : Prop :=
  Forall (tasks_ok s.2) s.1 ∧
  ∃ done, s.2 = foldl mem_apply m0 done ∧ done ++ (task_afresh <$> concat s.1) ≡ₚ all.

Lemma acc_inv_turn pcs m i pc pc' m' :
  acc_inv (pcs, m) → pcs !! i = Some pc → accumulate_turn i pc m = Some (pc', m') →
  acc_inv (<[i := pc']> pcs, m').
Proof.
  intros [Hok (d & Hm & Hperm)] Hi Hturn. cbn [fst snd] in *.
  pose proof (Forall_lookup_1 _ _ _ _ Hok Hi) as Hpc.
  destruct (accumulate_turn_cases i pc m Hpc) as (pc1 & m1 & Ht & Hok' & Hcases). rewrite Hturn in Ht. injection Ht as <- <-.
  assert (∀ c, is_Some (read_cell m c) → is_Some (read_cell m' c)) as Hread.
  { intros c Hc. destruct Hcases as [(_ & _ & ->)|[(o & _ & ->)|(-> & _)]]; [done| |done].
    rewrite read_apply. case_decide; [by apply fmap_is_Some|done]. }
  split; cbn [fst snd].
  { apply Forall_insert; [|done]. eapply Forall_impl; [exact Hok|]. intros q Hq. eapply Forall_impl; [exact Hq|].
    intros o [? ?]. split; [done|by apply Hread]. }
  destruct Hcases as [(-> & -> & ->)|[(o & -> & ->)|(-> & _ & _ & Haf)]].
  - exists d. by rewrite list_insert_id.
  - exists (d ++ [task_afresh o]). split.
    + rewrite foldl_snoc, <- Hm. by rewrite mem_apply_afresh.
    + rewrite <- Hperm, <- app_assoc. f_equiv. rewrite (concat_insert pcs i o pc' Hi). done.
  - exists d. split; [done|]. by rewrite (fmap_concat_insert _ pcs i pc pc' Hi Haf).
Qed.

(** Some turns: nothing is undone, and where no operation ends every thread
    that took one is ready and was not before. *)
Lemma acc_turns turns s :
  acc_inv s →
  ∃ s', run_turns accumulate_turn turns s = Some s' ∧ acc_inv s' ∧ length s'.1 = length s.1 ∧
    (∀ i, i ∉ turns → s'.1 !! i = s.1 !! i) ∧ (pending s' ≤ pending s)%nat ∧
    (pending s' = pending s → s'.2 = s.2 ∧
       ∀ i, i ∈ turns → (∀ pc, s'.1 !! i = Some pc → head_ready s'.2 pc = true) ∧
         (∀ pc, s.1 !! i = Some pc → pc ≠ [] → head_ready s.2 pc = false)).
Proof.
  revert s. induction turns as [|j turns IH]; intros [pcs m] Hinv.
  { eexists. split; [done|]. split_and!; [done..|]. intros _. split; [done|]. intros i Hi. by apply elem_of_nil in Hi. }
  unfold run_turns. cbn [foldl mbind option_bind]. unfold take_turn at 2. cbn [fst snd].
  destruct (pcs !! j) as [pc|] eqn:Hj.
  2: { destruct (IH _ Hinv) as (s' & Hrun & Hinv' & Hl & Hsame & Hle & Heq). exists s'. unfold run_turns in Hrun.
       cbn [mbind option_bind fst snd] in *. rewrite Hrun. split_and!; [done..| |done|].
       - intros i [_ Hi]%not_elem_of_cons. by apply Hsame.
       - intros He. destruct (Heq He) as [Hm Hall]. split; [done|]. intros i Hi.
         destruct (decide (i ∈ turns)) as [Hin|Hnin]; [by apply Hall|].
         apply elem_of_cons in Hi as [->|Hi]; [|done]. rewrite (Hsame j Hnin), Hj. split; intros; congruence. }
  destruct (accumulate_turn_cases j pc m) as (pc' & m' & Ht & _ & Hcases).
  { apply (Forall_lookup_1 _ _ _ _ (proj1 Hinv) Hj). }
  rewrite Ht. cbn [mbind option_bind fst snd].
  pose proof (acc_inv_turn pcs m j pc pc' m' Hinv Hj Ht) as Hinv1.
  destruct (IH _ Hinv1) as (s' & Hrun & Hinv' & Hl & Hsame & Hle & Heq). exists s'. unfold run_turns in Hrun. rewrite Hrun.
  pose proof (sum_list_insert length pcs j pc pc' Hj) as Hsum. unfold pending in *. cbn [fst snd] in *.
  rewrite length_insert in Hl. split_and!; [done|done|done| | |].
  { intros i [Hij Hi]%not_elem_of_cons. rewrite Hsame by done. by rewrite list_lookup_insert_ne by congruence. }
  { destruct Hcases as [(-> & -> & _)|[(o & -> & _)|(_ & _ & _ & Haf)]]; cbn [length] in *; [lia|lia|].
    apply (f_equal length) in Haf. rewrite !length_fmap in Haf. lia. }
  intros He. assert (length pc' = length pc ∧ m' = m ∧ head_ready m pc' = true ∧ (pc ≠ [] → head_ready m pc = false))
    as (Hlen & -> & Hready & Hnot).
  { destruct Hcases as [(-> & -> & ->)|[(o & -> & _)|(-> & Hn & Hr & Haf)]]; [done|cbn [length] in *; lia|].
    apply (f_equal length) in Haf. rewrite !length_fmap in Haf. done. }
  destruct Heq as [Hm Hall]; [lia|]. split; [done|]. intros i Hi. split.
  - intros q Hq. destruct (decide (i ∈ turns)) as [Hin|Hnin]; [by apply (Hall i Hin)|].
    apply elem_of_cons in Hi as [->|Hi]; [|done]. rewrite (Hsame j Hnin) in Hq.
    rewrite list_lookup_insert_eq in Hq by (by eapply lookup_lt_Some). injection Hq as <-. by rewrite Hm.
  - intros q Hq Hne. destruct (decide (i = j)) as [->|Hij]; [rewrite Hj in Hq; injection Hq as <-; auto|].
    apply elem_of_cons in Hi as [->|Hi]; [done|]. apply (Hall i Hi); [|done]. by rewrite list_lookup_insert_ne.
Qed.

(** Two rounds end at least one operation. *)
Definition acc_measure (s : list (list task) * list (list Z)) : nat :=
  2 * pending s + (if forallb (head_ready s.2) s.1 then 0 else 1).

Lemma acc_round s :
  acc_inv s → forallb accumulate_returned s.1 = false →
  ∃ s', run_turns accumulate_turn (seq 0 (length s.1)) s = Some s' ∧ acc_inv s' ∧ (acc_measure s' < acc_measure s)%nat.
Proof.
  intros Hinv Hr. destruct (acc_turns (seq 0 (length s.1)) s Hinv) as (s' & Hrun & Hinv' & Hl & _ & Hle & Heq).
  exists s'. split_and!; [done|done|]. unfold acc_measure.
  assert (∀ i (pc : list task), s.1 !! i = Some pc → i ∈ seq 0 (length s.1)) as Hseq.
  { intros i pc Hi%lookup_lt_Some. apply elem_of_seq. lia. }
  destruct (decide (pending s' = pending s)) as [He|Hne].
  2: { destruct (forallb (head_ready s'.2) s'.1), (forallb (head_ready s.2) s.1); lia. }
  destruct (Heq He) as [Hm Hall].
  assert (forallb (head_ready s'.2) s'.1 = true) as ->.
  { apply forallb_forall. intros pc Hpc%list_elem_of_In. apply list_elem_of_lookup in Hpc as [i Hi].
    apply (Hall i); [|done]. apply elem_of_seq. apply lookup_lt_Some in Hi. lia. }
  assert (forallb (head_ready s.2) s.1 = false) as ->; [|lia].
  apply not_true_iff_false. intros Hready. rewrite forallb_forall in Hready.
  apply not_true_iff_false in Hr. apply Hr, forallb_forall. intros pc Hpc.
  destruct pc as [|o pc]; [done|]. pose proof (Hready _ Hpc) as Htrue.
  apply list_elem_of_In, list_elem_of_lookup in Hpc as [i Hi].
  by rewrite (proj2 (Hall i (Hseq i _ Hi)) _ Hi) in Htrue.
Qed.
End Accumulate.

(** The launch ends and the memory is folded by every operation once, in some order. *)
Lemma launch_accumulate_perm turns pcs m :
  Forall (Forall (λ o, task_afresh o = o ∧ is_Some (read_cell m o.1))) pcs →
  ∃ l, l ≡ₚ concat pcs ∧ launch_accumulate turns pcs m = Some (foldl mem_apply m l).
Proof.
  intros Hok. assert (Forall (λ o, task_afresh o = o) (concat pcs)) as Hfresh.
  { apply Forall_concat. eapply Forall_impl; [exact Hok|]. intros pc Hpc. eapply Forall_impl; [exact Hpc|]. by intros o []. }
  assert (task_afresh <$> concat pcs = concat pcs) as Hid.
  { clear Hok. induction Hfresh as [|o l Ho _ IH]; [done|]. cbn. by rewrite Ho, IH. }
  assert (acc_inv (concat pcs) m (pcs, m)) as Hinv.
  { split; [|exists []; cbn [fst snd]; by rewrite Hid]. eapply Forall_impl; [exact Hok|]. intros pc Hpc.
    eapply Forall_impl; [exact Hpc|]. intros [c op] [Ho Hc]. split; [|done]. injection Ho as Ho. cbn in *. rewrite <- Ho. by destruct op. }
  unfold launch_accumulate, launch_turns.
  destruct (acc_turns _ _ turns _ Hinv) as (s & Hrun & Hs & _ & _ & Hle & _). rewrite Hrun. cbn [mbind option_bind].
  destruct (run_rounds_ends accumulate_turn accumulate_returned (acc_inv (concat pcs) m) acc_measure (acc_round (concat pcs) m)
    (2 * length (concat pcs) + 1) s Hs) as (s' & Hr & [_ (l & Hm & Hperm)] & Hret).
  { unfold acc_measure. rewrite (pending_concat (pcs, m)) in Hle. cbn [fst] in Hle. destruct (forallb _ _); lia. }
  rewrite Hr. exists l. cbn. split; [|by rewrite Hm].
  assert (concat s'.1 = []) as Hnil.
  { apply concat_nil_Forall, Forall_forall. intros pc Hpc%list_elem_of_In. rewrite forallb_forall in Hret.
    specialize (Hret pc Hpc). by destruct pc. }
  by rewrite Hnil, app_nil_r in Hperm.
Qed.
