(* ===== verification/CudaAggregateCorrect.v ===== *)
(** * The CUDA aggregation computes the SQL aggregates

    [cuda_aggregate] of [CudaAggregate] on a device batch that stands for a
    record batch, on every interleaving of its threads: one row per key, sorted
    with the null group last; counts, minima and maxima of integers as in the
    reference, [Int64] sums modulo 2^64, and sums, minima and maxima of doubles
    over the group's values in some order.  Where the reference does not
    overflow and the order of the doubles does not matter, the result is the
    reference's. *)

From S2P Require Import Prelude Floats Arrow Core Memory ArrowKernels Kernels FilterCorrect JoinCorrect.
From S2P Require Import AggregateCorrect Device Bytes Columns ColumnsCorrect CudaKernels CudaLaunch Cuda CudaSpec.
From S2P Require Import CudaGather CudaFilterCorrect CudaTable CudaJoinCorrect CudaAggregate CudaGroups CudaAccumulate.

#[local] Arguments bitmap_len : simpl never.
#[local] Arguments width : simpl never.

(** ** The device's aggregates *)

(** An integer aggregate of one group, sums wrapped. *)
Definition dev_int (func : AggregateFunction) (vs : list Z) : option Z :=
  match func, vs with
  | Count, _ => Some (Z.of_nat (length vs))
  | _, [] => None
  | Sum, _ => Some (wrap_i64 (sumZ id vs))
  | Min, v :: vs => Some (foldl Z.min v vs)
  | Max, v :: vs => Some (foldl Z.max v vs)
  end.

(** A double aggregate of one group, over its values in some order. *)
Definition dev_float (func : AggregateFunction) (vs : list f64) (o : option f64) : Prop :=
  ∃ vs', vs' ≡ₚ vs ∧ o = sql_float func vs'.

Definition device_column (ks keys : list (option Z)) (func : AggregateFunction) (input : Input)
    (dt : DataType) (array : Array) : Prop :=
  match func, input with
  | Count, InF arr =>
      dt = Int64 ∧ array = Int64Array_of
        ((λ k, Some (Z.of_nat (length (values_at arr (group_rows keys k))))) <$> ks)
  | _, InI arr =>
      dt = Int64 ∧ array = Int64Array_of ((λ k, dev_int func (values_at arr (group_rows keys k))) <$> ks)
  | _, InF arr => ∃ cells, dt = Float64 ∧ array = Float64Array_of cells ∧
      Forall2 (λ k o, dev_float func (values_at arr (group_rows keys k)) o) ks cells
  end.

Definition device_aggregate (b : RecordBatch) (spec : AggregateSpec) (keys : list (option Z))
    (inputs : list Input) (out : RecordBatch) : Prop :=
  ∃ cols, Forall2 (λ ai c, c.1 = Field_new (agg_field_name b ai.1) (data_type c.2) true ∧
                     device_column (sorted_keys keys) keys ai.1.1 ai.2 (data_type c.2) c.2) (zip (aggregates spec) inputs) cols ∧
    out = mkBatch (Schema_new (Field_new (match fields (schema b) !! group_by spec with
                                          | Some f => field_name f | None => "" end) Int64 true :: cols.*1))
            (Int64Array_of (sorted_keys keys) :: cols.*2) (length (sorted_keys keys)).

(** The doubles of each group can be taken in any order. *)
Definition order_free (keys : list (option Z)) (func : AggregateFunction) (input : Input) : Prop :=
  match input with
  | InF arr => ∀ k vs, vs ≡ₚ values_at arr (group_rows keys k) →
                 sql_float func vs = sql_float func (values_at arr (group_rows keys k))
  | InI _ => True
  end.

Lemma wrap_i64_id z : in_i64 z = true → wrap_i64 z = z.
Proof.
  unfold in_i64, i64_min, i64_max, wrap_i64. intros [?%Z.leb_le ?%Z.leb_le]%andb_true_iff. rewrite Z.mod_small; lia.
Qed.

(** Without an overflow, what the device computes is the reference. *)
Lemma device_column_reference keys func input dt array dt' array' :
  order_free keys func input → device_column (sorted_keys keys) keys func input dt array →
  sql_column keys func input = Ok (dt', array') → dt = dt' ∧ array = array'.
Proof.
  intros Hfree. destruct input as [arr|arr].
  - assert (∀ ks out, mapM (λ k, sql_int func (values_at arr (group_rows keys k))) ks = Ok out →
      (λ k, dev_int func (values_at arr (group_rows keys k))) <$> ks = out) as Hints.
    { intros ks out Hm%mapM_res_Ok. induction Hm as [|k o ks out Ho _ IH]; [done|]. cbn. f_equal; [|done].
      destruct func; cbn in Ho |- *; [| by simplify_eq| |]; destruct (values_at _ _) as [|v vs]; try by simplify_eq.
      destruct (in_i64 _) eqn:Hin; [|done]. rewrite wrap_i64_id by done. by simplify_eq. }
    intros Hd Hs. assert (dt = Int64 ∧ array = Int64Array_of
      ((λ k, dev_int func (values_at arr (group_rows keys k))) <$> sorted_keys keys)) as [-> ->] by by destruct func.
    assert (∃ out, mapM (λ k, sql_int func (values_at arr (group_rows keys k))) (sorted_keys keys) = Ok out ∧
      dt' = Int64 ∧ array' = Int64Array_of out) as (out & Hm & -> & ->).
    { destruct func; apply bind_Ok_inv in Hs as (out & ? & [= <- <-]); eauto. }
    split; [done|]. by rewrite (Hints _ _ Hm).
  - assert (∀ ks cells, Forall2 (λ k o, dev_float func (values_at arr (group_rows keys k)) o) ks cells →
      cells = (λ k, sql_float func (values_at arr (group_rows keys k))) <$> ks) as Hfloats.
    { intros ks cells. induction 1 as [|k o ks cells (vs & Hvs & ->) _ IH]; [done|]. cbn. f_equal; [|done].
      by apply Hfree. }
    destruct func; cbn [device_column sql_column].
    2: { intros [-> ->] [= <- <-]. done. }
    all: (intros (cells & -> & -> & Hc) [= <- <-]; by rewrite (Hfloats _ _ Hc)).
Qed.

Lemma device_aggregate_reference b spec keys inputs out ref :
  Forall2 (λ agg i, order_free keys agg.1 i) (aggregates spec) inputs →
  device_aggregate b spec keys inputs out → aggregate_reference b spec keys inputs = Ok ref → out = ref.
Proof.
  intros Hfree (cols & Hcols & ->) (cols' & Hm%mapM_res_Ok & [= <-])%bind_Ok_inv.
  assert (cols = cols') as ->; [|done].
  assert (Forall (λ ai, order_free keys ai.1.1 ai.2) (zip (aggregates spec) inputs)) as Hz.
  { clear Hcols Hm. induction Hfree; constructor; done. }
  clear Hfree. revert cols' Hm. induction Hcols as [|[agg i] c l cols [Hf Hd] _ IH]; intros cols' Hm.
  { by apply Forall2_nil_inv_l in Hm as ->. }
  apply Forall2_cons_inv_l in Hm as (c' & cols'' & Hc' & Hm & ->). apply Forall_cons in Hz as [Hz1 Hz].
  f_equal; [|by apply IH]. apply bind_Ok_inv in Hc' as ([dt' array'] & Hs & [= <-]). cbn [fst snd] in *.
  destruct (device_column_reference _ _ _ _ _ _ _ Hz1 Hd Hs) as [Ht Ha]. destruct c as [f a]. cbn in *.
  rewrite Hf, Ht. by subst.
Qed.

(** ** The tasks of the threads *)

Lemma filter_none {A} (P : A → Prop) `{∀ x, Decision (P x)} (l : list A) : (∀ x, x ∈ l → ¬ P x) → filter P l = [].
Proof. intros Hl. apply elem_of_nil_inv. intros x [HP Hx]%list_elem_of_filter. by apply (Hl x). Qed.

(** The tasks of one value: an operation per buffer. *)
Definition tasks_on {V} (ops : list (nat * (V → Atomic))) (v : V) (s : nat) : list task :=
  (λ bo, ((bo.1, s), bo.2 v)) <$> ops.

Lemma filter_tasks {V} (ops : list (nat * (V → Atomic))) v s b op :
  NoDup ops.*1 → (b, op) ∈ ops → filter (λ o, o.1 = (b, s)) (tasks_on ops v s) = [((b, s), op v)].
Proof.
  unfold tasks_on. induction ops as [|[b' op'] ops IH]; intros Hnd Hin; [by apply elem_of_nil in Hin|].
  cbn in Hnd. apply NoDup_cons in Hnd as [Hb' Hnd]. rewrite fmap_cons, filter_cons. cbn [fst snd].
  apply elem_of_cons in Hin as [[= -> ->]|Hin].
  - rewrite decide_True by done. f_equal. apply filter_none. intros o (bo & -> & Hbo)%list_elem_of_fmap. cbn.
    intros [= Hbo']. apply Hb'. rewrite <- Hbo'. by apply list_elem_of_fmap_2.
  - rewrite decide_False; [by apply IH|]. intros [= ->]. apply Hb'. by apply (list_elem_of_fmap_2 fst _ (b, op)).
Qed.

Lemma filter_tasks_other {V} (ops : list (nat * (V → Atomic))) v s c :
  (c.2 ≠ s ∨ c.1 ∉ ops.*1) → filter (λ o, o.1 = c) (tasks_on ops v s) = [].
Proof.
  intros Hc. apply filter_none. intros o (bo & -> & Hbo)%list_elem_of_fmap <-. cbn in Hc.
  destruct Hc as [|Hc]; [done|]. apply Hc. by apply list_elem_of_fmap_2.
Qed.

Section Threads.
Context (keys : list Z) (kvalid : option (list Z)) (ks : list (option Z)) (capacity : nat) (t : GroupKeys) (flag : Z).
Hypothesis cap_pow : (∃ p, capacity = 2 ^ p)%nat.
Hypothesis cap_room : (length ks < capacity)%nat.
Hypothesis t_grouped : grouped (length ks) capacity (key_of ks) t flag.
Hypothesis k_valid : ∀ i, (i < length ks)%nat → oxide_is_valid kvalid i = Some (bool_decide (is_Some (key_of ks i))).
Hypothesis k_load : ∀ i k, key_of ks i = Some k → (i < length ks)%nat ∧ load_i64 keys i = Some k.

Let n := length ks.

(** The slot of a key. *)
Definition slot_of (k : Z) : nat :=
  match oxide_ag_find capacity t k (oxide_ag_hash k capacity) capacity with Some (Some s) => s | _ => 0 end.

Lemma slot_of_published k s : published t k s → slot_of k = s.
Proof. intros Hp. unfold slot_of. by rewrite (find_group n capacity cap_pow cap_room (key_of ks) t flag k s). Qed.

Lemma key_published i k : key_of ks i = Some k → published t k (slot_of k).
Proof.
  intros Hk. destruct (gr_key _ _ _ _ _ t_grouped i k Hk) as [s Hs]. by rewrite (slot_of_published k s Hs).
Qed.

Lemma slot_of_lt k : published t k (slot_of k) → (slot_of k < capacity)%nat.
Proof.
  intros [Hs _]. apply lookup_lt_Some in Hs. destruct (gr_len _ _ _ _ _ t_grouped) as [_ Hl]. lia.
Qed.

Lemma slot_of_inj k k' : published t k (slot_of k) → published t k' (slot_of k') → slot_of k = slot_of k' → k = k'.
Proof. intros [_ H1] [_ H2] Heq. congruence. Qed.

(** The value column and the kernel's operations. *)
Context {V : Type} (vvalid : option (list Z)) (load : nat → option V) (arr : list (option V)).
Hypothesis arr_len : length arr = n.
Hypothesis v_valid : ∀ i, (i < n)%nat → oxide_is_valid vvalid i = Some (bool_decide (is_Some (mjoin (arr !! i)))).
Hypothesis v_load : ∀ i v, mjoin (arr !! i) = Some v → load i = Some v.
Context (gops nops : list (nat * (V → Atomic))).
Hypothesis ops_disjoint : NoDup (gops ++ nops).*1.

Definition thread_tasks (i : nat) : list task :=
  match mjoin (arr !! i) with
  | None => []
  | Some v => match key_of ks i with
              | None => tasks_on nops v 0
              | Some k => tasks_on gops v (slot_of k)
              end
  end.

Lemma thread_tasks_past i : (n ≤ i)%nat → thread_tasks i = [].
Proof. intros Hi. unfold thread_tasks. by rewrite lookup_ge_None_2 by lia. Qed.

Lemma agg_thread_tasks i :
  agg_thread keys kvalid vvalid n t capacity load (tasks_on gops) (λ v, tasks_on nops v 0) i = Some (thread_tasks i).
Proof.
  unfold agg_thread. destruct (Nat.leb_spec n i) as [Hi|Hi]; [by rewrite thread_tasks_past|].
  rewrite v_valid by done. cbn [mbind option_bind]. unfold thread_tasks.
  destruct (mjoin (arr !! i)) as [v|] eqn:Hv.
  2: { rewrite bool_decide_eq_false_2 by (by intros []). done. }
  rewrite bool_decide_eq_true_2 by done. cbn [negb]. rewrite (v_load i v Hv). cbn [mbind option_bind].
  rewrite k_valid by done. cbn [mbind option_bind]. destruct (key_of ks i) as [k|] eqn:Hk.
  2: { rewrite bool_decide_eq_false_2 by (by intros []). done. }
  rewrite bool_decide_eq_true_2 by done. cbn [negb]. rewrite (proj2 (k_load i k Hk)). cbn [mbind option_bind].
  rewrite (find_group n capacity cap_pow cap_room (key_of ks) t flag k (slot_of k)); [done|done|by eapply key_published].
Qed.

(** The tasks on a cell are those of the group's values. *)
Definition group_cell (k : option Z) (b : nat) : cell := (b, match k with Some k => slot_of k | None => 0%nat end).

Definition cell_of (k : option Z) (b : nat) (op : V → Atomic) : Prop :=
  match k with Some k => published t k (slot_of k) ∧ (b, op) ∈ gops | None => (b, op) ∈ nops end.

Lemma row_tasks k b op i :
  cell_of k b op → (i < n)%nat →
  filter (λ o, o.1 = group_cell k b) (thread_tasks i)
  = if decide (ks !! i = Some k)
    then match mjoin (arr !! i) with Some v => [(group_cell k b, op v)] | None => [] end else [].
Proof.
  intros Hc Hi. unfold thread_tasks. rewrite fmap_app in ops_disjoint. apply NoDup_app in ops_disjoint as (Hgd & Hdisj & Hnd).
  assert (ks !! i = Some (key_of ks i)) as Hki.
  { unfold key_of. by destruct (lookup_lt_is_Some_2 ks i Hi) as [o ->]. }
  rewrite Hki. destruct (mjoin (arr !! i)) as [v|]; [|by case_decide].
  destruct k as [k|]; cbn [cell_of group_cell] in *.
  - destruct Hc as [Hpub Hop]. destruct (key_of ks i) as [k'|] eqn:Hk'.
    + destruct (decide (k' = k)) as [->|Hne].
      * rewrite decide_True by done. by apply filter_tasks.
      * rewrite decide_False by congruence. apply filter_tasks_other. left. cbn. intros Heq.
        apply Hne. symmetry. apply slot_of_inj; [done|by eapply key_published|done].
    + rewrite decide_False by done. apply filter_tasks_other. right. cbn. intros Hin.
      apply (Hdisj b); [|done]. by apply (list_elem_of_fmap_2 fst _ (b, op)).
  - destruct (key_of ks i) as [k'|] eqn:Hk'.
    + rewrite decide_False by congruence. apply filter_tasks_other. right. cbn. intros Hin.
      apply (Hdisj b Hin). by apply (list_elem_of_fmap_2 fst _ (b, op)).
    + rewrite decide_True by done. by apply filter_tasks.
Qed.

Lemma cell_tasks k b op threads :
  cell_of k b op → (n ≤ threads)%nat →
  filter (λ o, o.1 = group_cell k b) (concat (thread_tasks <$> seq 0 threads))
  = (λ v, (group_cell k b, op v)) <$> values_at arr (group_rows ks k).
Proof.
  intros Hc Hn. rewrite (concat_past _ n) by (done || apply thread_tasks_past). unfold group_rows. fold n.
  assert (Forall (λ i, i < n)%nat (seq 0 n)) as Hl by (apply Forall_forall; intros i Hi%elem_of_seq; lia).
  induction Hl as [|i l Hi _ IH]; [done|]. cbn [fmap list_fmap concat]. rewrite filter_app, IH, (row_tasks k b op i) by done.
  rewrite filter_cons. case_decide as Hk; [|done]. unfold values_at. cbn [omap list_omap].
  by destruct (mjoin (arr !! i)).
Qed.

(** A cell that has met values in some order. *)
Definition acc_cell (m : list (list Z)) (c : cell) (init : Z) (op : V → Atomic) (vs : list V) : Prop :=
  ∃ vs', vs' ≡ₚ vs ∧ read_cell m c = Some (foldl (λ a v, effect (op v) a) init vs').

Lemma acc_cell_fold l l' m c init op vs :
  l ≡ₚ l' → read_cell m c = Some init → filter (λ o, o.1 = c) l' = (λ v, (c, op v)) <$> vs →
  acc_cell (foldl mem_apply m l) c init op vs.
Proof.
  intros Hl Hm Hf. assert (filter (λ o, o.1 = c) l ≡ₚ (λ v, (c, op v)) <$> vs) as Hp by (rewrite <- Hf; by rewrite Hl).
  symmetry in Hp. apply Permutation_sym, Permutation_map_inv in Hp as (vs' & Hvs' & Hp).
  exists vs'. split; [done|]. rewrite read_fold, Hm. cbn. f_equal. change (map ?f ?l) with (f <$> l) in Hvs'. rewrite Hvs'.
  generalize init. clear. induction vs' as [|v vs IH]; intros a; [done|]. cbn. apply IH.
Qed.

Hypothesis ops_afresh : ∀ b op v, (b, op) ∈ gops ++ nops → afresh (op v) = op v.
Context (m0 : list (list Z)) (init : nat → Z).
Hypothesis gops_start : ∀ b op s, (b, op) ∈ gops → (s < capacity)%nat → read_cell m0 (b, s) = Some (init b).
Hypothesis nops_start : ∀ b op, (b, op) ∈ nops → read_cell m0 (b, 0%nat) = Some (init b).

Lemma cell_start k b op : cell_of k b op → read_cell m0 (group_cell k b) = Some (init b).
Proof.
  destruct k as [k|]; cbn; [|apply nops_start]. intros [Hp Hop]. apply (gops_start b op); [done|by apply slot_of_lt].
Qed.

Lemma thread_tasks_ok i : Forall (λ o, task_afresh o = o ∧ is_Some (read_cell m0 o.1)) (thread_tasks i).
Proof.
  unfold thread_tasks. destruct (mjoin (arr !! i)) as [v|]; [|constructor].
  assert (∀ ops s, (∀ b op, (b, op) ∈ ops → afresh (op v) = op v ∧ is_Some (read_cell m0 (b, s))) →
    Forall (λ o, task_afresh o = o ∧ is_Some (read_cell m0 o.1)) (tasks_on ops v s)) as Hops.
  { intros ops s Ho. apply Forall_fmap, Forall_forall. intros [b op] Hin. destruct (Ho b op Hin) as [Ha Hr].
    split; [|done]. unfold task_afresh. cbn. by rewrite Ha. }
  destruct (key_of ks i) as [k|] eqn:Hk; apply Hops; intros b op Hin.
  - split; [apply (ops_afresh b), elem_of_app; by left|]. rewrite (gops_start b op); [done|done|].
    apply slot_of_lt. by eapply key_published.
  - split; [apply (ops_afresh b), elem_of_app; by right|]. by rewrite (nops_start b op).
Qed.

Context {D : Type} `{!CudaApi D} (drv_ok : no_driver_panic (D := D)).

Lemma agg_kernel_spec entry kcol E :
  cu_spec (D := D)
    (agg_kernel entry (mkGroupTable kcol n capacity t)
       (agg_thread keys kvalid vvalid n t capacity load (tasks_on gops) (λ v, tasks_on nops v 0)) m0) E
    (λ m, ∀ k b op, cell_of k b op → acc_cell m (group_cell k b) (init b) op (values_at arr (group_rows ks k))).
Proof.
  unfold agg_kernel. cbn [gt_n]. destruct (Nat.ltb_spec 0 n) as [H0|H0].
  - apply cu_spec_launch; [done|]. intros turns.
    assert (mapM (agg_thread keys kvalid vvalid n t capacity load (tasks_on gops) (λ v, tasks_on nops v 0))
      (seq 0 (grid_for n)) = Some (thread_tasks <$> seq 0 (grid_for n))) as ->.
    { apply mapM_Some_2, Forall2_fmap_r, Forall_Forall2_diag, Forall_forall. intros i _. apply agg_thread_tasks. }
    cbn [mbind option_bind].
    destruct (launch_accumulate_perm turns (thread_tasks <$> seq 0 (grid_for n)) m0) as (l & Hl & Hrun).
    { apply Forall_fmap, Forall_forall. intros i _. apply thread_tasks_ok. }
    eexists. split; [exact Hrun|]. intros k b op Hc. eapply acc_cell_fold; [exact Hl|by eapply cell_start|].
    apply cell_tasks; [done|apply grid_covers].
  - apply cu_spec_ret. intros k b op Hc. exists []. split; [|by eapply cell_start].
    assert (ks = []) as -> by (apply nil_length_inv; lia). done.
Qed.
End Threads.

(** ** What the cells hold *)

Lemma fold_add64 vs a : is_i64 a → foldl (λ a v, effect (AtomicAdd64 v) a) a vs = wrap_i64 (a + sumZ id vs).
Proof.
  revert a. induction vs as [|v vs IH]; intros a Ha; cbn [foldl effect].
  - change (sumZ id []) with 0. rewrite Z.add_0_r, wrap_i64_id; [done|]. unfold in_i64.
    by rewrite !(proj2 (Z.leb_le _ _)) by apply Ha.
  - rewrite IH by (unfold wrap_i64, is_i64, i64_min, i64_max; pose proof (Z.mod_pos_bound (a + v + 2 ^ 63) (2 ^ 64)); lia).
    change (sumZ id (v :: vs)) with (v + sumZ id vs). unfold wrap_i64. f_equal.
    replace ((a + v + 2 ^ 63) mod 2 ^ 64 - 2 ^ 63 + sumZ id vs + 2 ^ 63)
      with ((a + v + 2 ^ 63) mod 2 ^ 64 + sumZ id vs) by lia.
    rewrite Zplus_mod_idemp_l. f_equal. lia.
Qed.

Lemma fold_count {V} (vs : list V) a :
  0 ≤ a → a + Z.of_nat (length vs) < U32 → foldl (λ a _, effect (AtomicAdd32 1) a) a vs = a + Z.of_nat (length vs).
Proof.
  revert a. induction vs as [|v vs IH]; intros a Ha Hu; cbn [foldl effect length] in *; [lia|].
  unfold wrap32. rewrite Z.mod_small by lia. rewrite IH; lia.
Qed.

Lemma fold_addF vs z : foldl (λ a v, effect (AtomicAddF v) a) (f64_bits z) vs = f64_bits (foldl f64_add z vs).
Proof. revert z. induction vs as [|v vs IH]; intros z; [done|]. cbn [foldl effect]. by destruct z; apply IH. Qed.

Lemma fold_minF vs z :
  f64_is_nan z = false → foldl (λ a v, effect (AtomicMinF v None) a) (f64_bits z) vs = f64_bits (foldl f64_min z vs).
Proof.
  revert z. induction vs as [|v vs IH]; intros z Hz; [done|]. cbn [foldl effect].
  assert (f64_min z v = if f64_ltb v z then v else z) as Hmin.
  { unfold f64_min, f64_ltb, f64_compare. rewrite Hz. unfold f64_is_nan, SpecFloat.SFltb.
    destruct (f64_sf v) eqn:Hv; try done; destruct (SpecFloat.SFcompare _ _) as [[]|]; done. }
  rewrite Hmin. destruct z as [z]. cbn [f64_bits]. destruct (f64_ltb v (F64 z)) eqn:Hlt.
  - apply IH. unfold f64_ltb, f64_compare in Hlt. apply bool_decide_eq_true in Hlt. unfold f64_is_nan.
    by destruct (f64_sf v).
  - by rewrite <- IH.
Qed.

Lemma fold_maxF vs z :
  f64_is_nan z = false → foldl (λ a v, effect (AtomicMaxF v None) a) (f64_bits z) vs = f64_bits (foldl f64_max z vs).
Proof.
  revert z. induction vs as [|v vs IH]; intros z Hz; [done|]. cbn [foldl effect].
  assert (f64_max z v = if f64_ltb z v then v else z) as Hmax.
  { unfold f64_max, f64_ltb, f64_compare. rewrite Hz. unfold f64_is_nan, SpecFloat.SFltb.
    destruct (f64_sf v) eqn:Hv, (f64_sf z) eqn:Hz'; try done; destruct (SpecFloat.SFcompare _ _) as [[]|]; done. }
  rewrite Hmax. destruct z as [z]. cbn [f64_bits]. destruct (f64_ltb (F64 z) v) eqn:Hlt.
  - apply IH. unfold f64_ltb, f64_compare in Hlt. apply bool_decide_eq_true in Hlt. unfold f64_is_nan.
    destruct (f64_sf v), (f64_sf (F64 z)); done.
  - by rewrite <- IH.
Qed.

Lemma foldl_perm {A B} (f : B → A → B) l l' b :
  (∀ b x y, f (f b x) y = f (f b y) x) → l ≡ₚ l' → foldl f b l = foldl f b l'.
Proof.
  intros Hf Hl. revert b. induction Hl as [|x l l' _ IH|x y l|l l' l'' _ IH _ IH']; intros b; cbn; [done|done| |].
  - by rewrite Hf.
  - by rewrite IH.
Qed.

Lemma dev_min vs vs' :
  vs' ≡ₚ vs → Forall is_i64 vs → vs ≠ [] →
  Some (foldl (λ a v, effect (AtomicMin64 v) a) i64_max vs') = dev_int Min vs.
Proof.
  intros Hp Hv Hne. rewrite (foldl_perm _ vs' vs); [|intros b x y; cbn [effect]; lia|done]. cbn.
  destruct vs as [|v vs]; [done|]. apply Forall_cons in Hv as [[_ Hv] _]. cbn. by rewrite Z.min_r.
Qed.
Lemma dev_max vs vs' :
  vs' ≡ₚ vs → Forall is_i64 vs → vs ≠ [] →
  Some (foldl (λ a v, effect (AtomicMax64 v) a) i64_min vs') = dev_int Max vs.
Proof.
  intros Hp Hv Hne. rewrite (foldl_perm _ vs' vs); [|intros b x y; cbn [effect]; lia|done]. cbn.
  destruct vs as [|v vs]; [done|]. apply Forall_cons in Hv as [[Hv _] _]. cbn. by rewrite Z.max_r.
Qed.
Lemma dev_sum vs vs' :
  vs' ≡ₚ vs → vs ≠ [] → Some (foldl (λ a v, effect (AtomicAdd64 v) a) 0 vs') = dev_int Sum vs.
Proof.
  intros Hp Hne. rewrite fold_add64 by (unfold is_i64, i64_min, i64_max; lia). rewrite (sumZ_perm _ _ _ Hp).
  by destruct vs.
Qed.

(** ** Reading the results back *)

Section Results.
Context (ks : list (option Z)) (capacity : nat) (t : GroupKeys) (flag : Z).
Hypothesis cap_pow : (∃ p, capacity = 2 ^ p)%nat.
Hypothesis cap_room : (length ks < capacity)%nat.
Hypothesis t_grouped : grouped (length ks) capacity (key_of ks) t flag.
Hypothesis rows_u32 : Z.of_nat (length ks) < U32.

Abbreviation gcell := (group_cell capacity t).

(** The keys the result has: of the slots, and null. *)
Definition out_keys (slots : list (Z * nat)) (has_null : bool) : list (option Z) :=
  ((λ s, Some s.1) <$> slots) ++ (if has_null then [None] else []).

(** Group [k] exists, or is the null group. *)
Definition group_ok (k : option Z) : Prop := match k with Some k => published t k (slot_of capacity t k) | None => True end.

Lemma group_cells_spec {V} slots has_null (at_slot : nat → result V) null (R : option Z → V → Prop) :
  Forall (λ s, published t s.1 s.2) slots →
  (∀ k, published t k (slot_of capacity t k) → ∃ v, at_slot (slot_of capacity t k) = Ok v ∧ R (Some k) v) → R None null →
  ∃ vs, group_cells slots has_null at_slot null = Ok vs ∧ Forall2 R (out_keys slots has_null) vs.
Proof.
  intros Hs Hat Hnull. unfold group_cells, out_keys.
  assert (∃ vs, mapM (λ x : Z * nat, at_slot x.2) slots = Ok vs ∧ Forall2 R ((λ s, Some s.1) <$> slots) vs) as (vs & Hm & Hvs).
  { induction Hs as [|[k s] slots Hp _ (vs & Hm & Hvs)]; [by exists []|]. cbn [fst snd] in Hp.
    pose proof (slot_of_published ks capacity t flag cap_pow cap_room t_grouped k s Hp) as Hk.
    destruct (Hat k) as (v & Hv & HR); [by rewrite Hk|]. rewrite Hk in Hv. exists (v :: vs). cbn. rewrite Hv. cbn.
    rewrite Hm. split; [done|]. by constructor. }
  rewrite Hm. cbn. eexists. split; [done|]. apply Forall2_app; [done|]. destruct has_null; by repeat constructor.
Qed.

Lemma index_back m b s x :
  read_cell m (b, s) = Some x → (s < capacity)%nat → index (E := EngineError) (take capacity (default [] (m !! b))) s = Ok x.
Proof.
  unfold read_cell. cbn [fst snd]. intros (buf & -> & Hx)%bind_Some Hs. apply index_Some. cbn.
  by rewrite lookup_take_lt.
Qed.

Lemma first_back m b x what : read_cell m (b, 0%nat) = Some x → first (default [] (m !! b)) what = Ok x.
Proof.
  unfold read_cell. cbn [fst snd]. intros (buf & -> & Hx)%bind_Some. unfold first. cbn. by destruct buf; [|injection Hx as ->].
Qed.

(** A column of values that are there iff the group has any. *)
Lemma counted_column {V W} m bc bx (f : Z → V) (vs : option Z → list W) xn (R : option Z → option V → Prop) slots has_null :
  Forall (λ s, published t s.1 s.2) slots →
  (∀ k, published t k (slot_of capacity t k) →
     read_cell m (gcell (Some k) bc) = Some (Z.of_nat (length (vs (Some k)))) ∧
     ∃ x, read_cell m (gcell (Some k) bx) = Some x ∧ R (Some k) (if decide (vs (Some k) = []) then None else Some (f x))) →
  R None (if decide (vs None = []) then None else Some (f xn)) →
  ∃ cells,
    group_cells slots has_null
      (counted (take capacity (default [] (m !! bc))) (f <$> take capacity (default [] (m !! bx))))
      (counted_null (Z.of_nat (length (vs None))) (f xn)) = Ok cells ∧
    Forall2 R (out_keys slots has_null) cells.
Proof.
  intros Hs Hk Hn. apply group_cells_spec; [done| |].
  - intros k Hp. destruct (Hk k Hp) as (Hc & x & Hx & HR).
    pose proof (slot_of_lt ks capacity t flag cap_room t_grouped k Hp) as Hlt.
    eexists. split; [|exact HR]. unfold counted. rewrite (index_back m bc _ _ Hc Hlt). cbn [mbind res_bind].
    pose proof (index_back m bx _ _ Hx Hlt) as Hi. unfold index in Hi.
    destruct (take capacity (default [] (m !! bx)) !! _) as [y|] eqn:Hy; [|done]. injection Hi as ->.
    rewrite (index_Some (f <$> _) _ (f x)) by (by rewrite list_lookup_fmap, Hy). cbn.
    by destruct (vs (Some k)).
  - unfold counted_null. by destruct (vs None).
Qed.

Lemma values_u32 {V} (arr : list (option V)) k : 0 + Z.of_nat (length (values_at arr (group_rows ks k))) < U32.
Proof.
  pose proof (length_values_at arr (group_rows ks k)). pose proof (length_group_rows ks k). lia.
Qed.

(** The count of a cell, exact since the rows are. *)
Lemma count_cell {V} m c (arr : list (option V)) k :
  acc_cell m c 0 (λ _, AtomicAdd32 1) (values_at arr (group_rows ks k)) →
  read_cell m c = Some (Z.of_nat (length (values_at arr (group_rows ks k)))).
Proof.
  intros (vs & Hp & ->). pose proof (values_u32 arr k) as Hu.
  rewrite fold_count; [by rewrite (Permutation_length Hp)|done|by rewrite (Permutation_length Hp)].
Qed.

(** What a result of [run_aggregate] is. *)
Definition host_ok (func : AggregateFunction) (input : Input) (h : HostAgg) : Prop :=
  ∀ slots has_null, Forall (λ s, published t s.1 s.2) slots →
    ∃ array, host_column func slots has_null h = Ok (data_type array, array) ∧
      device_column (out_keys slots has_null) ks func input (data_type array) array.

Lemma Forall2_fmap_eq {A B} (f : A → B) l k : Forall2 (λ x y, y = f x) l k → k = f <$> l.
Proof. induction 1 as [|x y l k -> _ IH]; [done|]. cbn. by rewrite IH. Qed.
End Results.
