(* ===== verification/CudaAggregateClaims.v ===== *)
(** * The CUDA aggregation, end to end

    [cuda_aggregate] of [CudaAggregate] against the reference, from
    [CudaGroups] (the table of groups) and the accumulating kernels (first
    part): the host reads the occupied slots back, sorts them by key and
    assembles the batch. *)

From S2P Require Import Prelude Floats Arrow Core Memory ArrowKernels Kernels FilterCorrect JoinCorrect.
From S2P Require Import AggregateCorrect Device Bytes Columns ColumnsCorrect CudaKernels CudaLaunch Cuda.
From S2P Require Import CudaSpec CudaGather CudaFilterCorrect CudaTable CudaJoinCorrect CudaAggregate.
From S2P Require Import CudaGroups CudaAccumulate CudaAggregateCorrect.

(** ** The accumulating kernels, one by one

    [run_aggregate] of [CudaAggregate] on a finished group table: each of its
    five kernels leaves the group's aggregate in the group's cell, and reading
    the cells back gives the column of the device's aggregates. *)

#[local] Arguments bitmap_len : simpl never.
#[local] Arguments width : simpl never.

(** ** Value columns *)

(** What the kernels see of a column of nullable values. *)
Record sees {V} (n : nat) (vvalid : option (list Z)) (load : nat → option V) (arr : list (option V)) : Prop := {
  sees_len : length arr = n;
  sees_valid i : (i < n)%nat → oxide_is_valid vvalid i = Some (bool_decide (is_Some (mjoin (arr !! i))));
  sees_load i v : mjoin (arr !! i) = Some v → load i = Some v;
}.

Lemma sees_ints n c arr :
  col_ok n c → cc_type c = Int64 → downcast_int64 (col_array c) = Some arr →
  sees n (cc_validity c) (load_i64 (cc_values c)) arr.
Proof.
  intros Hok Ht Ha. destruct (int_column_keys n c arr Hok Ht Ha) as (Hl & Hv & Hld).
  assert (∀ i, mjoin (arr !! i) = key_of arr i) as Hm by (intros i; unfold key_of; by destruct (arr !! i)).
  split; [done| |]; intros i; rewrite Hm; [apply Hv|apply Hld].
Qed.

Lemma sees_floats n c arr :
  col_ok n c → cc_type c = Float64 → downcast_float64 (col_array c) = Some arr →
  sees n (cc_validity c) (load_f64 (cc_values c)) arr.
Proof.
  intros Hok Ht Ha. destruct (col_ok_prefix n c Hok) as [_ Hlen]. unfold downcast_float64 in Ha.
  case_decide; [|done]. injection Ha as <-. cbn [values col_array cb_array]. cbn [col_bytes cb_len].
  rewrite Nat2Z.id, Hlen.
  assert (∀ i, mjoin ((option_map as_f64 <$> (cb_cell (col_bytes c) <$> seq 0 n)) !! i)
    = if (i <? n)%nat then option_map as_f64 (cb_cell (col_bytes c) i) else None) as Hkey.
  { intros i. rewrite !list_lookup_fmap. destruct (Nat.ltb_spec i n) as [Hi|Hi].
    - by rewrite lookup_seq_lt.
    - by rewrite lookup_seq_ge by lia. }
  split; [by rewrite !length_fmap, length_seq| |].
  - intros i Hi. rewrite (is_valid_col n c i Hok Hi), Hkey, (proj2 (Nat.ltb_lt _ _) Hi). f_equal. unfold cb_cell.
    by destruct (row_valid (cb_validity (col_bytes c)) i).
  - intros i v. rewrite Hkey. destruct (Nat.ltb_spec i n) as [Hi|]; [|done]. intros Hv.
    unfold load_f64. rewrite (load_cell8 n c i Hok) by (done || by rewrite Ht). cbn.
    unfold cb_cell in Hv. destruct (row_valid _ i); [|done]. cbn in Hv. rewrite Ht in Hv. done.
Qed.

(** COUNT loads nothing. *)
Lemma sees_units {V} n vvalid load (arr : list (option V)) :
  sees n vvalid load arr → sees n vvalid (λ _, Some tt) (option_map (λ _, tt) <$> arr).
Proof.
  intros [Hl Hv _]. split; [by rewrite length_fmap| |by intros i []].
  intros i Hi. rewrite Hv by done. rewrite list_lookup_fmap. destruct (arr !! i) as [[v|]|]; done.
Qed.

Lemma length_values_units {V} (arr : list (option V)) rws :
  length (values_at (option_map (λ _, tt) <$> arr) rws) = length (values_at arr rws).
Proof.
  unfold values_at. induction rws as [|r rws IH]; [done|]. cbn. rewrite list_lookup_fmap.
  destruct (arr !! r) as [[v|]|]; cbn; [by f_equal|done|done].
Qed.

Section Runs.
Context (kcol : CudaColumn) (ks : list (option Z)) (capacity : nat) (t : GroupKeys) (flag : Z).
Hypothesis cap_pow : (∃ p, capacity = 2 ^ p)%nat.
Hypothesis cap_room : (length ks < capacity)%nat.
Hypothesis t_grouped : grouped (length ks) capacity (key_of ks) t flag.
Hypothesis rows_u32 : Z.of_nat (length ks) < U32.
Hypothesis k_valid : ∀ i, (i < length ks)%nat →
  oxide_is_valid (cc_validity kcol) i = Some (bool_decide (is_Some (key_of ks i))).
Hypothesis k_load : ∀ i k, key_of ks i = Some k → (i < length ks)%nat ∧ load_i64 (cc_values kcol) i = Some k.
Context {D : Type} `{!CudaApi D} (drv_ok : no_driver_panic (D := D)).

Let n := length ks.
Let tb := mkGroupTable kcol n capacity t.
Abbreviation gcell := (group_cell capacity t).

Lemma read_back_spec m b E : cu_spec (D := D) (read_back m b) E (λ v, v = default [] (m !! b)).
Proof. apply cu_spec_dtoh. Qed.

Lemma read_first_spec m b what x E :
  read_cell m (b, 0%nat) = Some x → cu_spec (D := D) (read_first m b what) E (λ v, v = x).
Proof.
  intros Hx. eapply cu_spec_bind; [apply read_back_spec|]. intros v ->. apply cu_spec_lift.
  by rewrite (first_back m b x what Hx).
Qed.

(** A kernel with its operations as lists. *)
Lemma kernel_spec {V} entry vvalid (load : nat → option V) arr gops nops m0 init E kernel :
  sees n vvalid load arr → NoDup (gops ++ nops).*1 →
  (∀ b op v, (b, op) ∈ gops ++ nops → afresh (op v) = op v) →
  (∀ b op s, (b, op) ∈ gops → (s < capacity)%nat → read_cell m0 (b, s) = Some (init b)) →
  (∀ b op, (b, op) ∈ nops → read_cell m0 (b, 0%nat) = Some (init b)) →
  kernel = agg_thread (cc_values kcol) (cc_validity kcol) vvalid n t capacity load (tasks_on gops) (λ v, tasks_on nops v 0) →
  cu_spec (D := D) (agg_kernel entry tb kernel m0) E
    (λ m, ∀ k b op, cell_of capacity t gops nops k b op →
            acc_cell m (gcell k b) (init b) op (values_at arr (group_rows ks k))).
Proof.
  intros [Hl Hv Hld] Hnd Haf Hg Hn ->. by eapply agg_kernel_spec.
Qed.

Lemma replicate_cells (b s c : nat) (x : Z) m :
  m !! b = Some (replicate (Nat.max c 1) x) → (s < Nat.max c 1)%nat → read_cell m (b, s) = Some x.
Proof. unfold read_cell. cbn. intros -> Hs. cbn. by apply lookup_replicate_2. Qed.

Ltac nodup := cbn; apply (bool_decide_unpack _); vm_compute; exact I.
Ltac member H := repeat (apply elem_of_cons in H as [[= -> ->]|H]; [|]); try (by apply elem_of_nil in H).

Lemma run_count_spec {V} col (load : nat → option V) arr input E :
  sees n (cc_validity col) load arr →
  (∀ gks array, data_type array = Int64 →
     array = Int64Array_of ((λ k, Some (Z.of_nat (length (values_at arr (group_rows ks k))))) <$> gks) →
     device_column gks ks Count input Int64 array) →
  cu_spec (D := D) (run_count tb col) E (host_ok ks t Count input).
Proof.
  intros Hs Hdev. unfold run_count. cbn [gt_capacity tb].
  do 2 (eapply cu_spec_bind; [apply cu_spec_alloc|]; intros ? ->).
  eapply cu_spec_bind.
  { apply (kernel_spec _ (cc_validity col) (λ _, Some tt) _ [(0%nat, λ _, AtomicAdd32 1)] [(1%nat, λ _, AtomicAdd32 1)] _
      (λ _, 0) _ _ (sees_units _ _ _ _ Hs)); [nodup| | | |reflexivity].
    - intros b op v Hin. by member Hin.
    - intros b op s Hin Hlt. member Hin. apply (replicate_cells _ _ capacity); [done|lia].
    - intros b op Hin. by member Hin. }
  intros m Hm.
  assert (∀ k, published t k (slot_of capacity t k) →
    read_cell m (gcell (Some k) 0) = Some (Z.of_nat (length (values_at arr (group_rows ks (Some k)))))) as Hc.
  { intros k Hp. rewrite <- length_values_units. eapply (count_cell ks); [done..|]. apply (Hm (Some k)). split; [done|apply list_elem_of_here]. }
  assert (read_cell m (1%nat, 0%nat) = Some (Z.of_nat (length (values_at arr (group_rows ks None))))) as Hn.
  { rewrite <- length_values_units. eapply (count_cell ks); [done..|]. apply (Hm None 1%nat), list_elem_of_here. }
  eapply cu_spec_bind; [apply read_back_spec|]. intros counts ->.
  eapply cu_spec_bind; [by apply read_first_spec|]. intros nc ->. apply cu_spec_ret.
  intros slots has_null Hslots.
  destruct (group_cells_spec ks capacity t flag cap_pow cap_room t_grouped slots has_null
    (λ s, c ← index (take capacity (default [] (m !! 0%nat))) s; Ok (Some c))
    (Some (Z.of_nat (length (values_at arr (group_rows ks None)))))
    (λ k o, o = Some (Z.of_nat (length (values_at arr (group_rows ks k)))))) as (cells & Hcells & Hr); [done| |done|].
  { intros k Hp. eexists. split; [|done].
    rewrite (index_back capacity m 0 _ _ (Hc k Hp)); [done|by apply (slot_of_lt ks capacity t flag)]. }
  exists (Int64Array_of cells). cbn [host_column]. rewrite Hcells. split; [done|]. apply Hdev; [done|].
  by rewrite (Forall2_fmap_eq _ _ _ Hr).
Qed.

Ltac inops := cbn; repeat (apply list_elem_of_here || apply list_elem_of_further).

(** One reduction column: counts in buffer [bc] and [nc], values in [bx] and [nx]. *)
Lemma reduce_column {V W} m gops nops arr bc bx nc nx (op : V → Atomic) init (f : Z → W) (R : option Z → option W → Prop) :
  (∀ k b op, cell_of capacity t gops nops k b op → acc_cell m (gcell k b) (init b) op (values_at arr (group_rows ks k))) →
  (bc, λ _, AtomicAdd32 1) ∈ gops → (bx, op) ∈ gops → (nc, λ _, AtomicAdd32 1) ∈ nops → (nx, op) ∈ nops →
  init bc = 0 → init nc = 0 → init bx = init nx →
  (∀ k vs, vs ≡ₚ values_at arr (group_rows ks k) →
     R k (if decide (values_at arr (group_rows ks k) = []) then None
          else Some (f (foldl (λ a v, effect (op v) a) (init nx) vs)))) →
  ∃ cn xn, read_cell m (nc, 0%nat) = Some cn ∧ read_cell m (nx, 0%nat) = Some xn ∧
    ∀ slots has_null, Forall (λ s, published t s.1 s.2) slots →
      ∃ cells, group_cells slots has_null
                 (counted (take capacity (default [] (m !! bc))) (f <$> take capacity (default [] (m !! bx))))
                 (counted_null cn (f xn)) = Ok cells ∧ Forall2 R (out_keys slots has_null) cells.
Proof.
  intros Hm Hbc Hbx Hnc Hnx Hic Hinc Hix HR.
  pose proof (Hm None nc _ Hnc) as Hcn. rewrite Hinc in Hcn. apply (count_cell ks capacity) in Hcn; [|done..].
  destruct (Hm None nx _ Hnx) as (vn & Hvn & Hxn).
  eexists _, _. split_and!; [exact Hcn|exact Hxn|]. intros slots has_null Hs.
  apply (counted_column ks capacity t flag cap_pow cap_room t_grouped m bc bx f (λ k, values_at arr (group_rows ks k))); [done| |by apply HR].
  intros k Hp. split.
  - pose proof (Hm (Some k) bc _ (conj Hp Hbc)) as Hc. rewrite Hic in Hc. by apply (count_cell ks capacity) in Hc.
  - destruct (Hm (Some k) bx _ (conj Hp Hbx)) as (vs & Hvs & Hx). eexists. split; [exact Hx|]. rewrite Hix. by apply HR.
Qed.

(** The kernels that sum: four buffers. *)
Definition sum_body (entry : string) (kernel : nat → option (list task))
    (mk : list Z → list Z → Z → Z → HostAgg) : Cu (D := D) HostAgg :=
  cu! sums := cu_alloc capacity in
  cu! counts := cu_alloc capacity in
  cu! null_sum := cu_alloc 1 in
  cu! null_count := cu_alloc 1 in
  cu! m := agg_kernel entry tb kernel [sums; counts; null_sum; null_count] in
  cu! sums := read_back m 0 in
  cu! counts := read_back m 1 in
  cu! null_sum := read_first m 2 "null sum" in
  cu! null_count := read_first m 3 "null count" in
  cu_ret (mk (take capacity sums) (take capacity counts) null_sum null_count).

Lemma sum_body_spec {V W} entry vvalid load arr (op : V → Atomic) (f : Z → W) (R : option Z → option W → Prop)
    kernel mk E (Q : HostAgg → Prop) :
  sees n vvalid load arr → (∀ v, afresh (op v) = op v) →
  kernel = agg_thread (cc_values kcol) (cc_validity kcol) vvalid n t capacity load
             (tasks_on [(0%nat, op); (1%nat, λ _, AtomicAdd32 1)])
             (λ v, tasks_on [(2%nat, op); (3%nat, λ _, AtomicAdd32 1)] v 0) →
  (∀ k vs, vs ≡ₚ values_at arr (group_rows ks k) →
     R k (if decide (values_at arr (group_rows ks k) = []) then None
          else Some (f (foldl (λ a v, effect (op v) a) 0 vs)))) →
  (∀ sums counts null_sum null_count,
     (∀ slots has_null, Forall (λ s, published t s.1 s.2) slots →
        ∃ cells, group_cells slots has_null (counted counts (f <$> sums)) (counted_null null_count (f null_sum)) = Ok cells ∧
          Forall2 R (out_keys slots has_null) cells) → Q (mk sums counts null_sum null_count)) →
  cu_spec (D := D) (sum_body entry kernel mk) E Q.
Proof.
  intros Hs Haf Hk HR HQ. unfold sum_body.
  do 4 (eapply cu_spec_bind; [apply cu_spec_alloc|]; intros ? ->).
  eapply cu_spec_bind.
  { apply (kernel_spec entry vvalid load arr [(0%nat, op); (1%nat, λ _, AtomicAdd32 1)]
      [(2%nat, op); (3%nat, λ _, AtomicAdd32 1)] _ (λ _, 0) _ _ Hs); [nodup| | | |exact Hk].
    - intros b op' v Hin. by member Hin.
    - intros b op' s Hin Hlt. member Hin; (apply (replicate_cells _ _ capacity); [done|lia]).
    - intros b op' Hin. by member Hin. }
  intros m Hm.
  destruct (reduce_column m _ _ arr 1 0 3 2 op (λ _, 0) f R Hm) as (cn & xn & Hcn & Hxn & Hcols);
    [inops|inops|inops|inops|done|done|done|done|].
  do 2 (eapply cu_spec_bind; [apply read_back_spec|]; intros ? ->).
  do 2 (eapply cu_spec_bind; [by apply read_first_spec|]; intros ? ->).
  apply cu_spec_ret, HQ, Hcols.
Qed.

Lemma run_sum_i64_spec col arr E :
  sees n (cc_validity col) (load_i64 (cc_values col)) arr →
  cu_spec (D := D) (run_sum_i64 tb col) E (host_ok ks t Sum (InI arr)).
Proof.
  intros Hs. change (run_sum_i64 tb col) with (sum_body "oxide_agg_sum_i64" (on_rows tb col oxide_agg_sum_i64 (cc_values col)) HSumI).
  apply (sum_body_spec _ _ _ _ AtomicAdd64 id (λ k o, o = dev_int Sum (values_at arr (group_rows ks k))) _ _ _ _ Hs); [done|done| |].
  { intros k vs Hvs. case_decide as Hd; [by rewrite Hd|]. by apply dev_sum. }
  intros sums counts ns nc Hcols slots has_null Hslots. destruct (Hcols slots has_null Hslots) as (cells & Hcells & Hr).
  exists (Int64Array_of cells). cbn [host_column]. rewrite list_fmap_id in Hcells. change (id ns) with ns in Hcells.
  rewrite Hcells. split; [done|]. split; [done|]. by rewrite (Forall2_fmap_eq _ _ _ Hr).
Qed.

Lemma run_sum_f64_spec col arr E :
  sees n (cc_validity col) (load_f64 (cc_values col)) arr →
  cu_spec (D := D) (run_sum_f64 tb col) E (host_ok ks t Sum (InF arr)).
Proof.
  intros Hs. change (run_sum_f64 tb col) with (sum_body "oxide_agg_sum_f64" (on_rows tb col oxide_agg_sum_f64 (cc_values col))
    (λ sums counts ns nc, HSumF (F64 <$> sums) counts (F64 ns) nc)).
  apply (sum_body_spec _ _ _ _ AtomicAddF F64 (λ k o, dev_float Sum (values_at arr (group_rows ks k)) o) _ _ _ _ Hs); [done|done| |].
  { intros k vs Hvs. case_decide as Hd; [rewrite Hd; by exists []|]. exists vs. split; [done|].
    change 0 with (f64_bits f64_zero). rewrite fold_addF. destruct vs; [by apply Permutation_nil_l in Hvs|].
    cbn [sql_float]. by destruct (foldl _ _ _). }
  intros sums counts ns nc Hcols slots has_null Hslots. destruct (Hcols slots has_null Hslots) as (cells & Hcells & Hr).
  exists (Float64Array_of cells). cbn [host_column]. rewrite Hcells. split; [done|]. by exists cells.
Qed.

(** The kernels that keep a minimum and a maximum: six buffers. *)
Definition minmax_body (entry : string) (kernel : nat → option (list task)) (lo hi : Z)
    (mk : list Z → list Z → list Z → Z → Z → Z → HostAgg) : Cu (D := D) HostAgg :=
  cu! mins := cu_htod (replicate capacity hi) in
  cu! maxs := cu_htod (replicate capacity lo) in
  cu! counts := cu_alloc capacity in
  cu! null_min := cu_htod [hi] in
  cu! null_max := cu_htod [lo] in
  cu! null_count := cu_alloc 1 in
  cu! m := agg_kernel entry tb kernel [mins; maxs; counts; null_min; null_max; null_count] in
  cu! l := read_back m 0 in
  cu! h := read_back m 1 in
  cu! counts := read_back m 2 in
  cu! null_min := read_first m 3 "null min" in
  cu! null_max := read_first m 4 "null max" in
  cu! null_count := read_first m 5 "null count" in
  cu_ret (mk (take capacity l) (take capacity h) (take capacity counts) null_min null_max null_count).

(** What the buffers hold at the start. *)
Definition minmax_init (lo hi : Z) (b : nat) : Z :=
  match b with 0%nat | 3%nat => hi | 1%nat | 4%nat => lo | _ => 0 end.

Lemma minmax_body_spec {V W} entry vvalid load arr (opmin opmax : V → Atomic) lo hi (f : Z → W)
    (Rmin Rmax : option Z → option W → Prop) kernel mk E (Q : HostAgg → Prop) :
  sees n vvalid load arr → (∀ v, afresh (opmin v) = opmin v) → (∀ v, afresh (opmax v) = opmax v) →
  kernel = agg_thread (cc_values kcol) (cc_validity kcol) vvalid n t capacity load
             (tasks_on [(0%nat, opmin); (1%nat, opmax); (2%nat, λ _, AtomicAdd32 1)])
             (λ v, tasks_on [(3%nat, opmin); (4%nat, opmax); (5%nat, λ _, AtomicAdd32 1)] v 0) →
  (∀ op init (R : option Z → option W → Prop), (op = opmin ∧ init = hi ∧ R = Rmin ∨ op = opmax ∧ init = lo ∧ R = Rmax) →
     ∀ k vs, vs ≡ₚ values_at arr (group_rows ks k) →
     R k (if decide (values_at arr (group_rows ks k) = []) then None
          else Some (f (foldl (λ a v, effect (op v) a) init vs)))) →
  (∀ mins maxs counts null_min null_max null_count,
     (∀ xs xn (R : option Z → option W → Prop), (xs = mins ∧ xn = null_min ∧ R = Rmin ∨ xs = maxs ∧ xn = null_max ∧ R = Rmax) →
      ∀ slots has_null, Forall (λ s, published t s.1 s.2) slots →
        ∃ cells, group_cells slots has_null (counted counts (f <$> xs)) (counted_null null_count (f xn)) = Ok cells ∧
          Forall2 R (out_keys slots has_null) cells) → Q (mk mins maxs counts null_min null_max null_count)) →
  cu_spec (D := D) (minmax_body entry kernel lo hi mk) E Q.
Proof.
  intros Hs Ha1 Ha2 Hk HR HQ. unfold minmax_body.
  do 2 (eapply cu_spec_bind; [apply cu_spec_htod|]; intros ? ->). eapply cu_spec_bind; [apply cu_spec_alloc|]. intros ? ->.
  do 2 (eapply cu_spec_bind; [apply cu_spec_htod|]; intros ? ->). eapply cu_spec_bind; [apply cu_spec_alloc|]. intros ? ->.
  eapply cu_spec_bind.
  { apply (kernel_spec entry vvalid load arr [(0%nat, opmin); (1%nat, opmax); (2%nat, λ _, AtomicAdd32 1)]
      [(3%nat, opmin); (4%nat, opmax); (5%nat, λ _, AtomicAdd32 1)] _ (minmax_init lo hi) _ _ Hs); [nodup| | | |exact Hk].
    - intros b op' v Hin. by member Hin.
    - intros b op' s Hin Hlt. member Hin; unfold read_cell; cbn; (by apply lookup_replicate_2) || (apply lookup_replicate_2; lia).
    - intros b op' Hin. by member Hin. }
  intros m Hm.
  destruct (reduce_column m _ _ arr 2 0 5 3 opmin (minmax_init lo hi) f Rmin Hm) as (cn & x1 & Hcn & Hx1 & Hc1);
    [inops|inops|inops|inops|done|done|done| |]. { apply (HR opmin hi Rmin). by left. }
  destruct (reduce_column m _ _ arr 2 1 5 4 opmax (minmax_init lo hi) f Rmax Hm) as (cn' & x2 & Hcn' & Hx2 & Hc2);
    [inops|inops|inops|inops|done|done|done| |]. { apply (HR opmax lo Rmax). by right. }
  assert (cn' = cn) as -> by congruence.
  do 3 (eapply cu_spec_bind; [apply read_back_spec|]; intros ? ->).
  do 3 (eapply cu_spec_bind; [by apply read_first_spec|]; intros ? ->).
  apply cu_spec_ret, HQ. intros xs xn R [(-> & -> & ->)|(-> & -> & ->)]; [apply Hc1|apply Hc2].
Qed.

Lemma run_minmax_i64_spec func col arr E :
  func = Min ∨ func = Max → sees n (cc_validity col) (load_i64 (cc_values col)) arr →
  Forall (λ o, match o with Some v => is_i64 v | None => True end) arr →
  cu_spec (D := D) (run_minmax_i64 tb col) E (host_ok ks t func (InI arr)).
Proof.
  intros Hf Hs Hi64.
  change (run_minmax_i64 tb col) with
    (minmax_body "oxide_agg_minmax_i64" (on_rows tb col oxide_agg_minmax_i64 (cc_values col)) i64_min i64_max HMinMaxI).
  apply (minmax_body_spec _ _ _ _ AtomicMin64 AtomicMax64 _ _ id
    (λ k o, o = dev_int Min (values_at arr (group_rows ks k)))
    (λ k o, o = dev_int Max (values_at arr (group_rows ks k))) _ _ _ _ Hs); [done|done|done| |].
  { intros op init R HR k vs Hvs. pose proof (values_at_i64 arr (group_rows ks k) Hi64) as Hv.
    destruct HR as [(-> & -> & ->)|(-> & -> & ->)]; (case_decide as Hd; [by rewrite Hd|]).
    - by apply dev_min.
    - by apply dev_max. }
  intros mins maxs counts nmin nmax nc Hcols slots has_null Hslots.
  destruct (Hcols (pick func mins maxs) (pick func nmin nmax) (λ k o, o = dev_int func (values_at arr (group_rows ks k))))
    with (slots := slots) (has_null := has_null) as (cells & Hcells & Hr); [|done|].
  { destruct Hf as [-> | ->]; [by left|by right]. }
  exists (Int64Array_of cells). cbn [host_column]. rewrite list_fmap_id in Hcells.
  change (id (pick func nmin nmax)) with (pick func nmin nmax) in Hcells. rewrite Hcells.
  split; [done|]. pose proof (Forall2_fmap_eq _ _ _ Hr) as ->. by destruct Hf as [-> | ->].
Qed.

Lemma pick_fmap {A B} (g : A → B) func (mn mx : list A) : pick func (g <$> mn) (g <$> mx) = g <$> pick func mn mx.
Proof. unfold pick. by case_decide. Qed.
Lemma pick_apply {A B} (g : A → B) func (mn mx : A) : pick func (g mn) (g mx) = g (pick func mn mx).
Proof. unfold pick. by case_decide. Qed.

Lemma run_minmax_f64_spec func col arr E :
  func = Min ∨ func = Max → sees n (cc_validity col) (load_f64 (cc_values col)) arr →
  cu_spec (D := D) (run_minmax_f64 tb col) E (host_ok ks t func (InF arr)).
Proof.
  intros Hf Hs.
  change (run_minmax_f64 tb col) with
    (minmax_body "oxide_agg_minmax_f64" (on_rows tb col oxide_agg_minmax_f64 (cc_values col))
       (f64_bits f64_neg_infinity) (f64_bits f64_infinity)
       (λ mins maxs counts nmin nmax nc, HMinMaxF (F64 <$> mins) (F64 <$> maxs) counts (F64 nmin) (F64 nmax) nc)).
  apply (minmax_body_spec _ _ _ _ (λ v, AtomicMinF v None) (λ v, AtomicMaxF v None) _ _ F64
    (λ k o, dev_float Min (values_at arr (group_rows ks k)) o)
    (λ k o, dev_float Max (values_at arr (group_rows ks k)) o) _ _ _ _ Hs); [done|done|done| |].
  { intros op init R HR k vs Hvs.
    destruct HR as [(-> & -> & ->)|(-> & -> & ->)]; (case_decide as Hd; [rewrite Hd; by exists []|]);
      exists vs; (split; [done|]); rewrite ?fold_minF, ?fold_maxF by done;
      (destruct vs; [by apply Permutation_nil_l in Hvs|]); cbn [sql_float]; by destruct (foldl _ _ _). }
  intros mins maxs counts nmin nmax nc Hcols slots has_null Hslots.
  destruct (Hcols (pick func mins maxs) (pick func nmin nmax) (λ k o, dev_float func (values_at arr (group_rows ks k)) o))
    with (slots := slots) (has_null := has_null) as (cells & Hcells & Hr); [|done|].
  { destruct Hf as [-> | ->]; [by left|by right]. }
  exists (Float64Array_of cells). cbn [host_column]. rewrite pick_fmap, pick_apply, Hcells. split; [done|].
  by destruct Hf as [-> | ->]; exists cells.
Qed.

(** Every aggregate of a column the reference accepts. *)
Lemma run_aggregate_spec func col input E :
  col_ok n col → input_ok n input →
  match cc_type col with
  | Int64 => InI <$> downcast_int64 (col_array col)
  | Float64 => InF <$> downcast_float64 (col_array col)
  | _ => None
  end = Some input →
  cu_spec (D := D) (run_aggregate tb func col) E (host_ok ks t func input).
Proof.
  intros Hok Hin Hinput. unfold run_aggregate. destruct (cc_type col) eqn:Ht; try done.
  - destruct (downcast_int64 (col_array col)) as [arr|] eqn:Ha; [|done]. injection Hinput as <-.
    pose proof (sees_ints n col arr Hok Ht Ha) as Hs. eapply (cu_spec_bind_Ok _ _ true); [done|].
    destruct func.
    + by apply run_sum_i64_spec.
    + apply (run_count_spec col _ arr _ _ Hs). intros gks array _ ->. done.
    + apply run_minmax_i64_spec; [by left|done|apply Hin].
    + apply run_minmax_i64_spec; [by right|done|apply Hin].
  - destruct (downcast_float64 (col_array col)) as [arr|] eqn:Ha; [|done]. injection Hinput as <-.
    pose proof (sees_floats n col arr Hok Ht Ha) as Hs. eapply (cu_spec_bind_Ok _ _ false); [done|].
    destruct func.
    + by apply run_sum_f64_spec.
    + apply (run_count_spec col _ arr _ _ Hs). intros gks array _ ->. done.
    + apply run_minmax_f64_spec; [by left|done].
    + apply run_minmax_f64_spec; [by right|done].
Qed.
End Runs.

#[local] Arguments bitmap_len : simpl never.
#[local] Arguments width : simpl never.

(** ** The occupied slots *)

#[local] Instance slot_le_trans : Transitive slot_le.
Proof. intros a b c. unfold slot_le. lia. Qed.
#[local] Instance slot_le_total : Total slot_le.
Proof. intros a b. unfold slot_le. lia. Qed.
#[local] Existing Instance key_le_trans.
#[local] Existing Instance key_le_total.
#[local] Existing Instance key_le_antisymm.

Section Slots.
Context (ks : list (option Z)) (capacity : nat) (t : GroupKeys) (flag : Z).
Hypothesis t_grouped : grouped (length ks) capacity (key_of ks) t flag.

Lemma key_of_elem k : (∃ i, key_of ks i = Some k) ↔ Some k ∈ ks.
Proof.
  unfold key_of. rewrite list_elem_of_lookup. f_equiv. intros i. destruct (ks !! i) as [o|]; cbn; [|done]. split; congruence.
Qed.

Lemma flag_elem : negb (flag =? 0) = true ↔ None ∈ ks.
Proof.
  destruct (gr_flag _ _ _ _ _ t_grouped) as [H01 Hf]. rewrite list_elem_of_lookup.
  trans (flag = 1); [destruct H01 as [-> | ->]; done|]. rewrite Hf. f_equiv. intros i. unfold key_of. split.
  - intros [Hi Hk]. destruct (lookup_lt_is_Some_2 ks i Hi) as [o Ho]. rewrite Ho in *. by cbn in Hk; subst.
  - intros Hi. rewrite Hi. split; [by eapply lookup_lt_Some|done].
Qed.

(** The occupied slots in the order of the table: every key once. *)
Lemma occupied_raw :
  ∃ raw, mapM (λ slot, k ← index (E := EngineError) (g_keys t) slot; Ok (k, slot))
           (filter (λ slot, g_state t !! slot = Some 2) (seq 0 (length (g_state t)))) = Ok raw ∧
    Forall (λ s, published t s.1 s.2) raw ∧ NoDup raw.*1 ∧ ∀ k, k ∈ raw.*1 ↔ Some k ∈ ks.
Proof.
  set (used := filter (λ slot, g_state t !! slot = Some 2) (seq 0 (length (g_state t)))).
  destruct (gr_len _ _ _ _ _ t_grouped) as [Hlk Hls].
  assert (NoDup used) as Hnd by apply NoDup_filter, NoDup_seq.
  assert (∀ s, s ∈ used ↔ g_state t !! s = Some 2) as Hused.
  { intros s. unfold used. rewrite list_elem_of_filter, elem_of_seq. split; [tauto|]. intros Hs. split; [done|].
    apply lookup_lt_Some in Hs. lia. }
  assert (∃ raw, mapM (λ slot, k ← index (E := EngineError) (g_keys t) slot; Ok (k, slot)) used = Ok raw ∧ raw.*2 = used ∧
    Forall (λ s, published t s.1 s.2) raw) as (raw & Hraw & Hsnd & Hpub).
  { assert (Forall (λ slot, g_state t !! slot = Some 2) used) as Hu by (apply Forall_forall; by intros slot ?%Hused).
    clear Hnd Hused. clearbody used. induction Hu as [|s used Hs _ (raw & Hm & Hsnd & Hp)]; [by exists []|].
    destruct (lookup_lt_is_Some_2 (g_keys t) s) as [k Hk]; [apply lookup_lt_Some in Hs; lia|].
    exists ((k, s) :: raw). cbn. rewrite (index_Some _ _ _ Hk). cbn. rewrite Hm. cbn. rewrite Hsnd.
    split_and!; [done|done|by constructor]. }
  rewrite Forall_forall in Hpub. exists raw. split_and!; [done|by apply Forall_forall| |].
  - apply NoDup_fmap_fst; [|rewrite <- Hsnd in Hnd; by eapply NoDup_fmap_1].
    intros k s1 s2 H1 H2. eapply (grouped_once _ _ _ _ _ k); [exact t_grouped|by apply (Hpub _ H1)|by apply (Hpub _ H2)].
  - intros k. rewrite <- key_of_elem, list_elem_of_fmap. split.
    + intros ([k' s] & -> & Hin). apply (gr_published _ _ _ _ _ t_grouped k' s). by apply (Hpub _ Hin).
    + intros [i Hi]. destruct (gr_key _ _ _ _ _ t_grouped i k Hi) as [s Hs].
      assert (s ∈ raw.*2) as Hin by (rewrite Hsnd; apply Hused, Hs).
      apply list_elem_of_fmap in Hin as ([k' s'] & -> & Hin). exists (k', s'). split; [|done].
      destruct (Hpub _ Hin) as [_ Hk']. destruct Hs as [_ Hk]. cbn in *. congruence.
Qed.

Lemma out_keys_sorted slots has_null :
  StronglySorted slot_le slots → StronglySorted key_le (out_keys slots has_null).
Proof.
  intros Hs. apply StronglySorted_app. split_and!.
  - intros x y _ Hy. destruct has_null; [|by apply elem_of_nil in Hy]. apply list_elem_of_singleton in Hy as ->. by destruct x.
  - induction Hs as [|a l _ IH Ha]; [constructor|]. rewrite fmap_cons. constructor; [done|].
    apply Forall_fmap. eapply Forall_impl; [exact Ha|]. intros b Hb. cbn. unfold slot_le in Hb. lia.
  - destruct has_null; by repeat constructor.
Qed.

(** Sorted, with the null group last, they are the reference's groups. *)
Lemma occupied_spec :
  ∃ slots, occupied (g_keys t) (g_state t) = Ok slots ∧ Forall (λ s, published t s.1 s.2) slots ∧
    out_keys slots (negb (flag =? 0)) = sorted_keys ks.
Proof.
  destruct occupied_raw as (raw & Hraw & Hpub & Hnd & Hkeys). pose proof (merge_sort_Permutation slot_le raw) as Hperm.
  exists (merge_sort slot_le raw). unfold occupied. rewrite Hraw. split; [done|]. split; [by rewrite Hperm|].
  apply (StronglySorted_unique key_le).
  - apply out_keys_sorted, (StronglySorted_merge_sort _).
  - by apply (StronglySorted_merge_sort _).
  - unfold sorted_keys, out_keys. rewrite Hperm, (merge_sort_Permutation key_le).
    change (λ s : Z * nat, Some s.1) with (Some ∘ (fst : Z * nat → Z)). rewrite list_fmap_compose.
    apply NoDup_Permutation; [|apply NoDup_remove_dups|].
    + apply NoDup_app. split_and!; [by apply (NoDup_fmap_2 Some)| |destruct (negb _); [apply NoDup_singleton|constructor]].
      intros x (k & -> & _)%list_elem_of_fmap Hx. destruct (negb _); [|by apply elem_of_nil in Hx].
      by apply list_elem_of_singleton in Hx.
    + intros [k|]; rewrite elem_of_remove_dups, elem_of_app.
      * rewrite <- Hkeys. rewrite list_elem_of_fmap. split; [|intros; left; by exists k].
        intros [(k' & [= ->] & Hk)|Hn]; [done|]. destruct (negb _); [by apply list_elem_of_singleton in Hn|by apply elem_of_nil in Hn].
      * rewrite <- flag_elem. destruct (negb _); [split; [done|intros; right; by apply list_elem_of_singleton]|].
        split; [|done]. intros [(k' & ? & _)%list_elem_of_fmap|Hn]; [done|by apply elem_of_nil in Hn].
Qed.
End Slots.

(** ** The output is a well-formed batch *)

Lemma dev_int_i64 func vs :
  Forall is_i64 vs → Z.of_nat (length vs) < 2 ^ 63 → match dev_int func vs with Some v => is_i64 v | None => True end.
Proof.
  intros Hvs Hlen. rewrite Forall_forall in Hvs. destruct func; cbn [dev_int].
  - destruct vs; [done|]. unfold wrap_i64, is_i64, i64_min, i64_max.
    pose proof (Z.mod_pos_bound (sumZ id (z :: vs) + 2 ^ 63) (2 ^ 64)). lia.
  - unfold is_i64, i64_min, i64_max. lia.
  - destruct vs as [|v vs]; [done|]. apply Hvs, foldl_Zmin_in.
  - destruct vs as [|v vs]; [done|]. apply Hvs, foldl_Zmax_in.
Qed.

Lemma device_column_ok keys func i dt array name :
  input_ok (length keys) i → Z.of_nat (length keys) < 2 ^ 63 →
  device_column (sorted_keys keys) keys func i dt array →
  column_ok (Field_new name dt true) array = true ∧ array_len array = length (sorted_keys keys).
Proof.
  intros Hi Hn.
  assert (∀ V (arr : list (option V)) k, Z.of_nat (length (values_at arr (group_rows keys k))) < 2 ^ 63) as Hlen.
  { intros V arr k. pose proof (length_values_at arr (group_rows keys k)). pose proof (length_group_rows keys k). lia. }
  assert (∀ l : list (option Z), array_len (Int64Array_of l) = length l) as Hl1 by (intros; apply length_fmap).
  assert (∀ l : list (option f64), array_len (Float64Array_of l) = length l) as Hl2 by (intros; apply length_fmap).
  destruct i as [arr|arr].
  - intros Hd. assert (dt = Int64 ∧ array = Int64Array_of
      ((λ k, dev_int func (values_at arr (group_rows keys k))) <$> sorted_keys keys)) as [-> ->] by by destruct func.
    rewrite Hl1, length_fmap. split; [|done]. apply Int64Array_ok, Forall_fmap, Forall_forall. intros k _. cbn.
    apply dev_int_i64; [|apply Hlen]. apply values_at_i64, Hi.
  - destruct func; cbn [device_column].
    2: { intros [-> ->]. rewrite Hl1, length_fmap. split; [|done]. apply Int64Array_ok, Forall_fmap, Forall_forall.
         intros k _. cbn. specialize (Hlen _ arr k). unfold is_i64, i64_min, i64_max. lia. }
    all: (intros (cells & -> & -> & Hc); rewrite Hl2, <- (Forall2_length _ _ _ Hc); split; [apply Float64Array_ok|done]).
Qed.

Lemma device_aggregate_ok b spec keys inputs out :
  Forall (input_ok (length keys)) inputs → Z.of_nat (length keys) < 2 ^ 63 →
  Forall (λ o, match o with Some v => is_i64 v | None => True end) keys →
  device_aggregate b spec keys inputs out → batch_ok out.
Proof.
  intros Hin Hn Hk (cols & Hcols & ->). unfold batch_ok. cbn. constructor.
  { split; [by apply Int64Array_ok, sorted_keys_i64|apply length_fmap]. }
  apply Forall2_fmap, Forall_Forall2_diag, Forall_forall. intros [fd a] [j Hj]%list_elem_of_lookup_1.
  destruct (Forall2_lookup_r _ _ _ _ _ Hcols Hj) as ([agg i] & Hz & -> & Hd). cbn [fst snd] in *.
  apply (device_column_ok keys agg.1 i); [|done..].
  apply lookup_zip_with_Some in Hz as (agg' & i' & [= <- <-] & _ & Hi). by apply (Forall_lookup_1 _ _ _ _ Hin Hi).
Qed.

(** ** Assembling the batch *)

Section Assemble.
Context (ks : list (option Z)) (t : GroupKeys) (b : RecordBatch) (slots : list (Z * nat)) (has_null : bool).
Hypothesis b_ok : batch_ok b.
Hypothesis slots_ok : Forall (λ s, published t s.1 s.2) slots.
Hypothesis slots_keys : out_keys slots has_null = sorted_keys ks.

Lemma output_columns_spec aggs inputs results :
  Forall2 (λ agg i, agg_input b agg.2 = Ok i) aggs inputs →
  Forall2 (λ agg h, ∀ i, agg_input b agg.2 = Ok i → host_ok ks t agg.1 i h) aggs results →
  ∃ cols, mapM (output_column (schema b) slots has_null) (zip aggs results) = Ok cols ∧
    Forall2 (λ ai c, c.1 = Field_new (agg_field_name b ai.1) (data_type c.2) true ∧
               device_column (sorted_keys ks) ks ai.1.1 ai.2 (data_type c.2) c.2) (zip aggs inputs) cols.
Proof.
  intros Hin. revert results. induction Hin as [|[func idx] i aggs inputs Hi Hin IH]; intros results Hres.
  { apply Forall2_nil_inv_l in Hres as ->. by exists []. }
  apply Forall2_cons_inv_l in Hres as (h & results' & Hh & Hres & ->). destruct (IH _ Hres) as (cols & Hm & Hcols).
  destruct (Hh i Hi slots has_null slots_ok) as (array & Hcol & Hdev). cbn [fst snd] in *. rewrite slots_keys in Hdev.
  assert (∃ f, fields (schema b) !! idx = Some f) as [f Hf].
  { apply bind_Ok_inv in Hi as (col & Hc & _). unfold column in Hc. apply ok_or_Ok_inv, lookup_lt_Some in Hc.
    apply lookup_lt_is_Some_2. by rewrite (batch_ok_num_columns _ b_ok). }
  exists ((Field_new (agg_field_name b (func, idx)) (data_type array) true, array) :: cols). split; [|by constructor].
  apply mapM_res_Ok. apply mapM_res_Ok in Hm. constructor; [|done].
  unfold output_column, cuda_field. rewrite Hf. cbn [ok_or mbind res_bind]. rewrite Hcol.
  cbn [mbind res_bind]. unfold agg_field_name. cbn [fst snd]. by rewrite Hf.
Qed.
End Assemble.

(** ** The aggregation *)

Section Aggregate.
Context {D : Type} `{!CudaApi D} (drv_ok : no_driver_panic (D := D)) `{!ArrowKernels, !ArrowLaws}.

(** An aggregated column in device memory. *)
Lemma input_column b cb idx input :
  columns b = col_array <$> cbt_columns cb → Forall (col_ok (num_rows b)) (cbt_columns cb) →
  agg_input b idx = Ok input →
  ∃ c, cuda_column cb idx = Ok c ∧ col_ok (num_rows b) c ∧
    match cc_type c with
    | Int64 => InI <$> downcast_int64 (col_array c)
    | Float64 => InF <$> downcast_float64 (col_array c)
    | _ => None
    end = Some input.
Proof.
  intros Hcols Hok [col [Hc Hk]]%bind_Ok_inv. unfold column in Hc. apply ok_or_Ok_inv in Hc, Hk.
  rewrite Hcols, list_lookup_fmap in Hc. destruct (cbt_columns cb !! idx) as [c|] eqn:Hcc; [|done].
  injection Hc as <-. exists c. unfold cuda_column. rewrite Hcc. split_and!; [done| |exact Hk].
  by apply (Forall_lookup_1 _ _ _ _ Hok Hcc).
Qed.

(** The insertion pass, unless there are no rows. *)
Lemma insert_pass_spec kc ks capacity E :
  (∃ p, capacity = 2 ^ p)%nat → (length ks < capacity)%nat →
  (∀ i, (i < length ks)%nat → oxide_is_valid (cc_validity kc) i = Some (bool_decide (is_Some (key_of ks i)))) →
  (∀ i k, key_of ks i = Some k → (i < length ks)%nat ∧ load_i64 (cc_values kc) i = Some k) →
  cu_spec (D := D)
    (if (0 <? length ks)%nat
     then cu_launch "aggregation" AGGREGATION_SRC "oxide_agg_insert_keys" (grid_for (length ks)) (λ turns,
            f0 ← head [0];
            r ← launch_insert_keys (grid_for (length ks)) turns (cc_values kc) (cc_validity kc) (length ks) capacity
                  (no_groups capacity, f0);
            Some (r.1, [r.2]))
     else cu_ret (no_groups capacity, [0])) E
    (λ r, ∃ flag, r.2 = [flag] ∧ grouped (length ks) capacity (key_of ks) r.1 flag).
Proof.
  intros Hp Hroom Hv Hl. destruct (Nat.ltb_spec 0 (length ks)) as [Hpos|Hzero].
  - apply cu_spec_launch; [done|]. intros turns.
    destruct (launch_insert_grouped (cc_values kc) (cc_validity kc) (length ks) capacity Hp Hroom (key_of ks) Hv Hl
      (grid_for (length ks)) turns (grid_covers _)) as (t & flag & Hrun & Hg).
    cbn [head mbind option_bind]. rewrite Hrun. cbn. eexists. split; [done|]. by exists flag.
  - apply cu_spec_ret. exists 0. split; [done|]. apply no_groups_grouped; [done| |lia].
    intros i. unfold key_of. by rewrite lookup_ge_None_2 by lia.
Qed.

(** One pass per aggregate over the finished table. *)
Lemma results_spec kc ks capacity t flag b cb inputs aggs E :
  (∃ p, capacity = 2 ^ p)%nat → (length ks < capacity)%nat → grouped (length ks) capacity (key_of ks) t flag →
  Z.of_nat (length ks) < U32 → num_rows b = length ks →
  (∀ i, (i < length ks)%nat → oxide_is_valid (cc_validity kc) i = Some (bool_decide (is_Some (key_of ks i)))) →
  (∀ i k, key_of ks i = Some k → (i < length ks)%nat ∧ load_i64 (cc_values kc) i = Some k) →
  columns b = col_array <$> cbt_columns cb → Forall (col_ok (length ks)) (cbt_columns cb) →
  Forall2 (λ agg i, agg_input b agg.2 = Ok i) aggs inputs → Forall (input_ok (length ks)) inputs →
  cu_spec (D := D)
    (cu_mapM (λ '(func, idx), cu! col := cu_lift (cuda_column cb idx) in
                run_aggregate (mkGroupTable kc (length ks) capacity t) func col) aggs) E
    (Forall2 (λ agg h, ∀ i, agg_input b agg.2 = Ok i → host_ok ks t agg.1 i h) aggs).
Proof.
  intros Hcp Hcr Hg Hu Hlen Hkv Hkl Hcols Hok Hinputs Hiok. apply cu_spec_mapM.
  intros [func idx] (j & Hj)%list_elem_of_lookup. destruct (Forall2_lookup_l _ _ _ _ _ Hinputs Hj) as (i & Hij & Hi).
  destruct (input_column b cb idx i Hcols) as (c & Hc & Hcok & Hci); [by rewrite Hlen|done|].
  eapply cu_spec_bind_Ok; [exact Hc|]. rewrite Hlen in Hcok.
  eapply (cu_spec_weaken _ E); [apply (run_aggregate_spec kc ks capacity t flag Hcp Hcr Hg) with (input := i); try done|done|].
  - by apply (Forall_lookup_1 _ _ _ _ Hiok Hij).
  - intros h Hh i' Hi'. cbn [fst snd] in *. assert (i' = i) as -> by congruence. done.
Qed.

Lemma cuda_aggregate_spec s a b keys inputs :
  cuda_stream s = Ok tt → cuda_holds (ag_input a) b → Z.of_nat (num_rows b) ≤ 2 ^ 30 →
  int64_column b (group_by (ag_spec a)) = Ok keys →
  Forall2 (λ agg i, agg_input b agg.2 = Ok i) (aggregates (ag_spec a)) inputs →
  cu_spec (D := D) (cuda_aggregate s a) (λ _, False) (λ d, ∃ out, device_aggregate b (ag_spec a) keys inputs out ∧
    d = mkDeviceBatch Cuda (schema out) (num_rows out) (BatchHost out)).
Proof.
  intros Hs (Hsch & Hnr & Hb & cb & Hin & Hrows & Hok & Hcols) Hn Hkeys Hinputs. set (spec := ag_spec a) in *.
  destruct (key_column b cb _ keys Hcols Hok Hkeys) as (kc & Hkc & Hkt & Hkok & Hkd).
  destruct (int_column_keys _ kc keys Hkok Hkt Hkd) as (Hlen & Hkv & Hkl).
  pose proof (aggregate_inputs_ok b spec keys inputs Hb Hkeys Hinputs) as Hiok.
  rewrite <- Hlen in *. destruct (capacity_ok keys Hn) as (Hcp & Hcr & Hcu).
  unfold cuda_aggregate, require_int64. fold spec. eapply cu_spec_bind_Ok; [exact Hs|].
  eapply (cu_spec_bind_Ok _ _ cb); [unfold cuda_batch; by rewrite Hin|].
  eapply cu_spec_bind_Ok; [exact Hkc|]. rewrite Hkt, bool_decide_eq_true_2 by done.
  eapply cu_spec_bind_Ok; [reflexivity|]. rewrite Hrows, Hsch.
  eapply cu_spec_bind_Ok; [apply u32_len_small; unfold U32; lia|].
  eapply cu_spec_bind_Ok; [by apply u32_len_small|].
  do 3 (eapply cu_spec_bind; [apply cu_spec_alloc|]; intros ? ->).
  set (capacity := table_capacity (length keys)) in *. rewrite (Nat.max_l capacity 1) by lia.
  eapply cu_spec_bind; [by apply (insert_pass_spec kc keys capacity)|]. intros [t fl] (flag & Hfl & Hg). cbn [fst snd] in *.
  subst fl. eapply cu_spec_bind; [apply (results_spec kc keys capacity t flag b cb inputs (aggregates spec) (λ _, False) Hcp Hcr Hg); try done; unfold U32; lia|].
  intros results Hres. do 3 (eapply cu_spec_bind; [apply cu_spec_dtoh|]; intros ? ->).
  eapply (cu_spec_bind_Ok _ _ flag); [done|].
  destruct (gr_len _ _ _ _ _ Hg) as [Hlk Hls]. rewrite !take_ge by lia.
  destruct (occupied_spec keys capacity t flag Hg) as (slots & Hocc & Hpub & Hout).
  eapply cu_spec_bind_Ok; [exact Hocc|].
  assert (∃ f, fields (schema b) !! group_by spec = Some f) as [f Hf].
  { apply bind_Ok_inv in Hkeys as (col & Hc & _). unfold column in Hc. apply ok_or_Ok_inv, lookup_lt_Some in Hc.
    apply lookup_lt_is_Some_2. by rewrite (batch_ok_num_columns _ Hb). }
  eapply (cu_spec_bind_Ok _ _ f); [unfold cuda_field; by rewrite Hf|].
  destruct (output_columns_spec keys t b slots (negb (flag =? 0)) Hb Hpub Hout (aggregates spec) inputs results Hinputs Hres)
    as (cols & Hm & Hdev).
  eapply cu_spec_bind_Ok; [exact Hm|]. fold (out_keys slots (negb (flag =? 0))). rewrite Hout.
  set (out := mkBatch (Schema_new (Field_new (field_name f) Int64 true :: cols.*1))
    (Int64Array_of (sorted_keys keys) :: cols.*2) (length (sorted_keys keys))).
  assert (device_aggregate b spec keys inputs out) as Hda by (exists cols; rewrite Hf; done).
  assert (batch_ok out) as Hbo.
  { apply (device_aggregate_ok b spec keys inputs); [done|lia|by eapply int64_column_i64|done]. }
  assert (array_len (Int64Array_of (sorted_keys keys)) = length (sorted_keys keys)) as Hal by apply length_fmap.
  eapply (cu_spec_bind_Ok _ _ out); [rewrite try_new_law; rewrite Hal; done|].
  apply cu_spec_ret. by exists out.
Qed.

(** C6: the CUDA aggregation on any interleaving of its threads, which race to
    insert keys, wait for each other's keys and update shared accumulators
    atomically: given a device batch of at most 2^30 rows that stands for a host
    batch the reference accepts, it ends, unless the driver fails, with a host
    batch of the device's aggregates: every group once, ascending with null
    last, exact counts, minima and maxima, [Int64] sums modulo 2^64, doubles in
    some order. Where the reference succeeds and the order of the doubles does
    not matter, this is the reference's batch. *)
Theorem cuda_aggregate_correct s a b keys inputs st :
  cuda_stream s = Ok tt → cuda_holds (ag_input a) b → Z.of_nat (num_rows b) ≤ 2 ^ 30 →
  int64_column b (group_by (ag_spec a)) = Ok keys →
  Forall2 (λ agg i, agg_input b agg.2 = Ok i) (aggregates (ag_spec a)) inputs →
  match (cuda_aggregate (D := D) s a st).2 with
  | Ok d => ∃ out, d = mkDeviceBatch Cuda (schema out) (num_rows out) (BatchHost out) ∧
      device_aggregate b (ag_spec a) keys inputs out ∧
      (Forall2 (λ agg i, order_free keys agg.1 i) (aggregates (ag_spec a)) inputs →
       ∀ ref, aggregate b (ag_spec a) = Ok ref → out = ref)
  | Err e => driver_failure (D := D) e
  | Panic => False
  end.
Proof.
  intros Hs Hh Hn Hkeys Hinputs. pose proof (cuda_aggregate_spec s a b keys inputs Hs Hh Hn Hkeys Hinputs st) as Hspec.
  destruct (cuda_aggregate s a st).2 as [d|e|]; [|tauto|done]. destruct Hspec as (out & Hout & ->). exists out.
  split_and!; [done|done|]. intros Hfree ref Href.
  rewrite (aggregate_spec b _ keys inputs) in Href; [|apply Hh|done|done|lia].
  by eapply device_aggregate_reference.
Qed.
End Aggregate.

(** ** Examples *)

Module CudaAggregateExample.
Import CudaFilterCorrect.CudaExample AggregateExample.

#[local] Existing Instance backwards.

(** The sales of [AggregateExample] in device memory. *)
Definition sales_columns : list CudaColumn :=
  [mkCudaColumn Int64 5 0 40 (concat (to_le_bytes 8 <$> [2; 0; 1; 2; 0])) (Some [13]);
   mkCudaColumn Int64 5 0 40 (concat (to_le_bytes 8 <$> [5; 9; 0; -7; 1])) (Some [27])].
Definition sales_device : DeviceBatch :=
  mkDeviceBatch Cuda (schema sales) 5 (BatchCuda (mkCudaBatch 5 sales_columns)).

Lemma sales_holds : cuda_holds sales_device sales.
Proof.
  split_and!; [done|done|apply (bool_decide_unpack _); vm_compute; exact I|].
  exists (mkCudaBatch 5 sales_columns). split_and!; [done|done| |vm_compute; reflexivity].
  repeat constructor; try done; intros bits [= <-]; done.
Qed.

Lemma cuda_aggregate_correct_witness :
  match (cuda_aggregate stream (mkAggArgs sales_device sales_spec) fresh).2 with
  | Ok d => ∃ out, d = mkDeviceBatch Cuda (schema out) (num_rows out) (BatchHost out) ∧
      Ok out = aggregate sales sales_spec
  | Err e => driver_failure (D := nat) e
  | Panic => False
  end.
Proof.
  pose proof (cuda_aggregate_correct backwards_ok stream (mkAggArgs sales_device sales_spec) sales sales_keys
    [sales_input; sales_input; sales_input] fresh eq_refl sales_holds ltac:(vm_compute; discriminate) eq_refl
    ltac:(repeat constructor)) as Hc.
  destruct (cuda_aggregate stream (mkAggArgs sales_device sales_spec) fresh).2 as [d|e|]; [|done|done].
  destruct Hc as (out & Hd & _ & Href). exists out. split; [done|].
  destruct (aggregate sales sales_spec) as [ref| |] eqn:Ha; [|vm_compute in Ha; discriminate Ha|vm_compute in Ha; discriminate Ha].
  f_equal. apply Href; [|done]. repeat constructor.
Defined.

(** Seven rows of one key on a schedule on which every thread but the owner has to wait. *)
Example waits_for_the_owner :
  let keys := concat (replicate 7 (to_le_bytes 8 42)) in
  let owner_stops := [0; 0; 0; 1; 2; 3; 4; 5; 6; 1; 2; 3; 4; 5; 6; 1; 2; 3; 4; 5; 6]%nat in
  (λ m, omap (λ s, if s =? 2 then Some s else None) (g_state m.1)) <$>
  launch_insert_keys 8 owner_stops keys None 7 16 (no_groups 16, 0) = Some [2].
Proof. vm_compute. reflexivity. Qed.

(** A sum the reference refuses is delivered modulo 2^64. *)
Example device_sum_wraps :
  let b := mkCudaBatch 2
             [mkCudaColumn Int64 2 0 16 (concat (to_le_bytes 8 <$> [1; 1])) None;
              mkCudaColumn Int64 2 0 16 (concat (to_le_bytes 8 <$> [i64_max; 1])) None] in
  let d := mkDeviceBatch Cuda (schema sales) 2 (BatchCuda b) in
  match (cuda_aggregate stream (mkAggArgs d (mkSpec 0 [(Sum, 1%nat)])) fresh).2 with
  | Ok r => match db_inner r with
            | BatchHost h => columns h = [Int64Array_of [Some 1]; Int64Array_of [Some i64_min]]
            | _ => False
            end
  | _ => False
  end.
Proof. vm_compute. reflexivity. Qed.
End CudaAggregateExample.
