(* ===== verification/CudaVector.v ===== *)
(** * oxidelake-device: vector distances on CUDA

    Models [src/crates/oxidelake-device/kernels/cuda/vector_distance.cu] and
    [vector_distance] of [cuda/ops.rs].  A warp of 32 lanes works on one row:
    the block's threads stage the query in shared memory, each lane sums the
    dimensions of its stride and the partial sums are combined by shuffles.  The
    row of a warp and its validity are the same for all lanes, so that either
    all of them or none reach a shuffle.  NVRTC contracts [x * y + s] to a fused
    operation where it likes ([compile_ptx] runs it with its defaults), which is
    the operation of [Fmad].  The properties are in [CudaVectorCorrect]. *)

From Stdlib Require Import SpecFloat.
From S2P Require Import Prelude Floats Arrow Core Memory ArrowKernels Kernels Device Bytes Columns CudaKernels Cuda.

(** ** Arithmetic *)

(** The product without rounding. *)
Definition sf_mul_exact (x y : spec_float) : spec_float :=
  match x, y with
  | S754_finite sx mx ex, S754_finite sy my ey => S754_finite (xorb sx sy) (mx * my) (ex + ey)
  | _, _ => SFmul 24 128 x y
  end.
(** [fmaf]: one rounding. A product that is not zero is not rounded before it is
    added, and added to zero it is the rounded product. *)
Definition sf_fma (x y s : spec_float) : spec_float :=
  match x, y, s with
  | S754_finite _ _ _, S754_finite _ _ _, S754_zero _ => SFmul 24 128 x y
  | S754_finite _ _ _, S754_finite _ _ _, _ => SFadd 24 128 (sf_mul_exact x y) s
  | _, _, _ => SFadd 24 128 (SFmul 24 128 x y) s
  end.
Definition f32_fma (x y s : f32) : f32 := sf_f32 (sf_fma (f32_sf x) (f32_sf y) (f32_sf s)).

(** [s + x * y] as the compiler emits it. *)
Class Fmad := fmad : f32 → f32 → f32 → f32.
Class FmadLaw `{Fmad} : Prop :=
  fmad_law x y s : fmad x y s = f32_add s (f32_mul x y) ∨ fmad x y s = f32_fma x y s.

Definition load_f32 (bytes : list Z) (i : nat) : option f32 :=
  (λ b, F32 (from_le_bytes b)) <$> load_range bytes (4 * i) 4.

(** ** vector_distance.cu *)

Definition VEC_WARPS_PER_BLOCK : nat := 8.
Definition VEC_BLOCK : nat := VEC_WARPS_PER_BLOCK * 32.

(** The values of [k] in [for (k = first; k < bound; k += step)]. *)
Fixpoint strided (fuel k step bound : nat) : list nat :=
  match fuel with
  | O => []
  | S fuel => if (k <? bound)%nat then k :: strided fuel (k + step) step bound else []
  end.

(** Thread [t] of a block copies its share of the query. *)
Definition stage_thread (query : list Z) (dim t : nat) (q : list Z) : option (list Z) :=
  foldl (λ (o : option (list Z)) k, q ← o; x ← query !! k; store q k x) (Some q) (strided dim t VEC_BLOCK dim).

(** Shared memory behind [__syncthreads]; it does not matter what it held. *)
Definition stage_query (turns : list nat) (query : list Z) (dim : nat) (shared : list Z) : option (list Z) :=
  launch VEC_BLOCK turns (stage_thread query dim) shared.

(** [v += __shfl_down_sync(mask, v, offset)] in all lanes; a lane that would
    read past the warp reads itself. *)
Definition shfl_add (offset : nat) (v : list f32) : list f32 :=
  imap (λ lane x, f32_add x (default x (if (lane + offset <? 32)%nat then v !! (lane + offset)%nat else None))) v.

Fixpoint warp_loop (fuel offset : nat) (v : list f32) : list f32 :=
  match fuel with
  | O => v
  | S fuel => if (0 <? offset)%nat then warp_loop fuel (offset / 2) (shfl_add offset v) else v
  end.
Definition oxide_warp_sum (v : list f32) : list f32 := warp_loop 5 16 v.

(** The accumulators of a lane. *)
Record Partial := mkPartial { p_dot : f32; p_nv : f32; p_nq : f32; p_dist : f32 }.

Section Kernel.
Context `{!Fmad}.

Definition lane_step (metric : Z) (a b : f32) (p : Partial) : Partial :=
  if metric =? 0
  then let d := f32_sub a b in mkPartial (p_dot p) (p_nv p) (p_nq p) (fmad d d (p_dist p))
  else mkPartial (fmad a b (p_dot p)) (fmad a a (p_nv p)) (fmad b b (p_nq p)) (p_dist p).

Definition lane_loop (metric : Z) (vectors : list Z) (q : list Z) (dim row lane : nat) : option Partial :=
  foldl (λ o k, p ← o; a ← load_f32 vectors (row * dim + k); b ← q !! k; Some (lane_step metric a (F32 b) p))
        (Some (mkPartial f32_zero f32_zero f32_zero f32_zero)) (strided dim lane 32 dim).

(** What lane 0 writes, from the partial sums of its warp. *)
Definition warp_result (metric : Z) (lanes : list Partial) : option f32 :=
  if metric =? 0 then f32_sqrt <$> oxide_warp_sum (p_dist <$> lanes) !! 0%nat
  else
    dot ← oxide_warp_sum (p_dot <$> lanes) !! 0%nat;
    nv ← oxide_warp_sum (p_nv <$> lanes) !! 0%nat;
    nq ← oxide_warp_sum (p_nq <$> lanes) !! 0%nat;
    let na := f32_sqrt nv in
    let nb := f32_sqrt nq in
    Some (if f32_eqb na f32_zero || f32_eqb nb f32_zero then F32 0x7fc00000
          else f32_sub f32_one (f32_div dot (f32_mul na nb))).

Definition store_f32 (out : list Z) (i : nat) (v : f32) : option (list Z) :=
  store_range out (4 * i) (to_le_bytes 4 (f32_bits v)).

Definition oxide_vec_distance (vectors : list Z) (validity : option (list Z)) (n dim : nat) (q : list Z)
    (metric : Z) (i : nat) (out : list Z) : option (list Z) :=
  let lane := (i mod VEC_BLOCK mod 32)%nat in
  let row := (i / VEC_BLOCK * VEC_WARPS_PER_BLOCK + i mod VEC_BLOCK / 32)%nat in
  if (n <=? row)%nat then Some out
  else
    valid ← oxide_is_valid validity row;
    if negb valid then (if (lane =? 0)%nat then store_f32 out row f32_zero else Some out)
    else
      lanes ← mapM (lane_loop metric vectors q dim row) (seq 0 32);
      r ← warp_result metric lanes;
      if (lane =? 0)%nat then store_f32 out row r else Some out.

(** Every block stages the query and then runs its warps. *)
Definition launch_vec_distance (threads : nat) (turns : list nat) (vectors : list Z) (validity : option (list Z))
    (n dim : nat) (query : list Z) (metric : Z) (out : list Z) : option (list Z) :=
  q ← stage_query turns query dim (replicate dim 0);
  launch threads turns (oxide_vec_distance vectors validity n dim q metric) out.

(** ** The host side *)

Definition VECTOR_DISTANCE_SRC : string := "kernels/cuda/vector_distance.cu".
Definition MAX_SHARED_QUERY_BYTES : Z := 48 * 1024.

(** The threads of the launch: one warp per row. *)
Definition vec_grid (n : nat) : nat := Nat.max 1 ((n + (VEC_WARPS_PER_BLOCK - 1)) / VEC_WARPS_PER_BLOCK) * VEC_BLOCK.

Context {D : Type} `{!CudaApi D}.

Definition metric_code (metric : DistanceMetric) : Z := match metric with L2 => 0 | Cosine => 1 end.

Definition cuda_vector_distance (s : DeviceStream) (a : VectorDistanceArgs) : Cu (D := D) DeviceBatch :=
  cu! _ := cu_lift (cuda_stream s) in
  cu! input := cu_lift (cuda_batch (vd_input a)) in
  cu! col := cu_lift (cuda_column input (vd_column a)) in
  cu! dim := cu_lift (ok_or (vector_dimension (cc_type col))
                            (Unsupported "cuda.vector_distance" "expected FixedSizeList<Float32>")) in
  if negb (Z.of_nat (length (vd_query a)) =? dim)
  then cu_lift (Err (Plan "query vector and column dimensions differ"))
  else if MAX_SHARED_QUERY_BYTES <? dim * 4
  then cu_lift (Err (Unsupported "cuda.vector_distance" "dimension exceeds the shared-memory staging limit"))
  else
    cu! n := cu_lift (u32_len (cbt_rows input) "vector input") in
    cu! dim_u32 := cu_lift (u32_len (Z.to_nat dim) "vector dimension") in
    cu! query_dev := cu_htod (f32_bits <$> vd_query a) in
    cu! out := cu_alloc (cbt_rows input * 4) in
    cu! out := if (0 <? n)%nat
               then cu! _ := cu_lift (u32_len (Z.to_nat (dim * 4)) "shared memory") in
                    cu_launch "vector_distance" VECTOR_DISTANCE_SRC "oxide_vec_distance" (vec_grid n) (λ turns,
                      launch_vec_distance (vec_grid n) turns (cc_values col) (cc_validity col) n dim_u32
                        query_dev (metric_code (vd_metric a)) out)
               else cu_ret out in
    let new := mkCudaColumn Float32 (cbt_rows input) 0 (cbt_rows input * 4) out (cc_validity col) in
    cu_ret (mkDeviceBatch Cuda
              (Schema_new (fields (db_schema (vd_input a)) ++ [Field_new (vd_output_name a) Float32 true]))
              (cbt_rows input) (BatchCuda (mkCudaBatch (cbt_rows input) (cbt_columns input ++ [new])))).
End Kernel.
