(* ===== verification/CudaVectorCorrect.v ===== *)
(** * The CUDA distances are sums over the same terms

    [cuda_vector_distance] of [CudaVector] on a device batch that stands for a
    record batch: the result stands for the batch with a distance column
    appended, null where the vector is null, and each distance is the metric's
    formula over sums in which every dimension occurs exactly once.  The order
    and the grouping of the additions are the device's ([summed]); where they do
    not matter, the batch is the reference's. *)

From S2P Require Import Prelude Floats Arrow Core Memory ArrowKernels Kernels FilterCorrect VectorCorrect.
From S2P Require Import Device Bytes Columns ColumnsCorrect CudaKernels CudaLaunch Cuda CudaSpec CudaGather.
From S2P Require Import CudaVector FloatFacts.

(** ** Strides *)

Lemma elem_of_strided fuel k step bound j :
  (0 < step)%nat → (bound ≤ k + fuel * step)%nat →
  j ∈ strided fuel k step bound ↔ ∃ m, j = (k + m * step)%nat ∧ (j < bound)%nat.
Proof.
  intros Hstep. revert k. induction fuel as [|fuel IH]; intros k Hb; cbn [strided].
  { rewrite elem_of_nil. split; [done|]. intros (m & -> & ?). nia. }
  destruct (Nat.ltb_spec k bound) as [Hk|Hk].
  - rewrite elem_of_cons, IH by lia. split.
    + intros [->|(m & -> & ?)]; [exists 0%nat; lia|]. exists (S m). lia.
    + intros ([|m] & -> & ?); [left; lia|]. right. exists m. lia.
  - rewrite elem_of_nil. split; [done|]. intros (m & -> & ?). lia.
Qed.

Lemma NoDup_strided fuel k step bound :
  (0 < step)%nat → NoDup (strided fuel k step bound) ∧ Forall (λ j, k ≤ j)%nat (strided fuel k step bound).
Proof.
  intros Hstep. revert k. induction fuel as [|fuel IH]; intros k; cbn [strided]; [by split; constructor|].
  destruct (k <? bound)%nat; [|by split; constructor].
  destruct (IH (k + step)%nat) as [Hnd Hge]. split.
  - constructor; [|done]. intros Hin. rewrite Forall_forall in Hge. specialize (Hge _ Hin). lia.
  - constructor; [lia|]. eapply Forall_impl; [done|]. intros j Hj. cbn in Hj. lia.
Qed.

(** The strides of [step] threads cover the range once. *)
Lemma strides_cover step bound fuel :
  (0 < step)%nat → (bound ≤ fuel * step)%nat →
  seq 0 step ≫= (λ t, strided fuel t step bound) ≡ₚ seq 0 bound.
Proof.
  intros Hstep Hf.
  assert (∀ t j, (t < step)%nat → j ∈ strided fuel t step bound ↔ (j mod step = t ∧ j < bound)%nat) as Hin.
  { intros t j Ht. rewrite elem_of_strided by lia. split.
    - intros (m & -> & Hlt). rewrite Nat.Div0.mod_add, Nat.mod_small by done. done.
    - intros [<- Hlt]. exists (j / step)%nat. pose proof (Nat.div_mod_eq j step). split; [lia|done]. }
  apply NoDup_Permutation; [|apply NoDup_seq|].
  - apply NoDup_bind; [|intros; by apply NoDup_strided|apply NoDup_seq].
    intros t1 t2 j Ht1%elem_of_seq Ht2%elem_of_seq Hj1 Hj2. apply Hin in Hj1, Hj2; lia.
  - intros j. rewrite list_elem_of_bind, elem_of_seq. split.
    + intros (t & Hj & Ht%elem_of_seq). apply Hin in Hj; lia.
    + intros Hj. exists (j mod step)%nat. pose proof (Nat.mod_upper_bound j step ltac:(lia)).
      split; [by apply Hin; lia|]. apply elem_of_seq. lia.
Qed.

(** ** Staging the query *)

Lemma stage_thread_spec query dim t q :
  length query = dim → length q = dim →
  ∃ q', stage_thread query dim t q = Some q' ∧ length q' = dim ∧
    ∀ j, q' !! j = if decide (j ∈ strided dim t VEC_BLOCK dim) then query !! j else q !! j.
Proof.
  intros Hquery Hq. unfold stage_thread.
  assert (∀ j, j ∈ strided dim t VEC_BLOCK dim → (j < dim)%nat) as Hlt.
  { intros j Hj. apply elem_of_strided in Hj as (m & _ & ?); unfold VEC_BLOCK, VEC_WARPS_PER_BLOCK; lia. }
  induction (strided dim t VEC_BLOCK dim) as [|k l IH] using rev_ind.
  { exists q. split_and!; [done..|]. intros j. by rewrite decide_False by apply not_elem_of_nil. }
  destruct IH as (q' & Hq' & Hlen & Hold); [intros; apply Hlt; set_solver|].
  rewrite foldl_snoc, Hq'. cbn [mbind option_bind].
  assert (k < dim)%nat as Hk by (apply Hlt; set_solver).
  destruct (lookup_lt_is_Some_2 query k ltac:(lia)) as [x Hx]. rewrite Hx. cbn [mbind option_bind].
  unfold store. rewrite (proj2 (Nat.ltb_lt _ _)) by lia. eexists. split; [done|].
  split; [by rewrite length_insert|]. intros j. destruct (decide (j = k)) as [->|Hne].
  - rewrite list_lookup_insert_eq by lia. rewrite decide_True by set_solver. done.
  - rewrite list_lookup_insert_ne, Hold by done.
    apply decide_ext. rewrite elem_of_app, list_elem_of_singleton. tauto.
Qed.

(** Shared memory holds the query, whatever the order of the threads. *)
Lemma stage_query_spec turns query dim shared :
  length query = dim → length shared = dim → stage_query turns query dim shared = Some query.
Proof.
  intros Hquery Hshared. unfold stage_query, launch.
  assert (∀ l, ∃ q, foldl (λ m t, m ≫= stage_thread query dim t) (Some shared) l = Some q ∧ length q = dim ∧
    ∀ t j, t ∈ l → j ∈ strided dim t VEC_BLOCK dim → q !! j = query !! j) as Hfold.
  { induction l as [|t l IH] using rev_ind.
    { exists shared. split_and!; [done..|]. set_solver. }
    destruct IH as (q & Hq & Hlen & Hold). rewrite foldl_snoc, Hq. cbn [mbind option_bind].
    destruct (stage_thread_spec query dim t q Hquery Hlen) as (q' & Hq' & Hlen' & Hnew).
    exists q'. split_and!; [done..|]. intros t' j Ht' Hj. apply elem_of_app in Ht' as [Ht'|Ht'%list_elem_of_singleton].
    - rewrite Hnew. case_decide; [done|]. by eapply Hold.
    - subst t'. by rewrite Hnew, decide_True. }
  destruct (Hfold (order VEC_BLOCK turns)) as (q & -> & Hlen & Hall). f_equal.
  apply list_eq_same_length with dim; [done|lia|].
  intros j x y Hj Hx Hy. assert (j ∈ seq 0 dim) as Hin by (apply elem_of_seq; lia).
  rewrite <- (strides_cover VEC_BLOCK dim dim) in Hin by (unfold VEC_BLOCK, VEC_WARPS_PER_BLOCK; lia).
  apply list_elem_of_bind in Hin as (t & Hjt & Ht%elem_of_seq).
  assert (q !! j = query !! j) by (apply (Hall t); [apply elem_of_order; lia|done]). congruence.
Qed.

(** ** Sums in some order *)

(** [s] is the sum of the products of the pairs of [l], each once, in some
    order and grouping, a product being rounded or fused into its addition. *)
Inductive summed : list (f32 * f32) → f32 → Prop :=
  | summed_nil : summed [] f32_zero
  | summed_round x y l s : summed l s → summed ((x, y) :: l) (f32_add s (f32_mul x y))
  | summed_fuse x y l s : summed l s → summed ((x, y) :: l) (f32_fma x y s)
  | summed_add l1 l2 s1 s2 : summed l1 s1 → summed l2 s2 → summed (l1 ++ l2) (f32_add s1 s2)
  | summed_perm l l' s : l ≡ₚ l' → summed l s → summed l' s.

#[global] Instance summed_proper : Proper ((≡ₚ) ==> (=) ==> iff) summed.
Proof. intros l l' Hl s ? <-. split; intros Hs; eapply summed_perm; [done|done|by symmetry|done]. Qed.

Section Sums.
Context `{FmadLaw}.

Lemma summed_mad x y l s : summed l s → summed ((x, y) :: l) (fmad x y s).
Proof. intros Hs. destruct (fmad_law x y s) as [-> | ->]; by constructor. Qed.

(** A lane's loop. *)
Lemma summed_loop l : summed l (foldl (λ s xy, fmad xy.1 xy.2 s) f32_zero l).
Proof.
  induction l as [|[x y] l IH] using rev_ind; [constructor|]. rewrite foldl_snoc.
  rewrite (Permutation_app_comm l [(x, y)]). by apply summed_mad.
Qed.

(** One round of the shuffles. *)
Lemma shfl_add_summed offset (T : nat → list (f32 * f32)) v :
  length v = 32%nat → (2 * offset ≤ 32)%nat →
  (∀ l, (l < 2 * offset)%nat → ∃ x, v !! l = Some x ∧ summed (T l) x) →
  length (shfl_add offset v) = 32%nat ∧
  ∀ l, (l < offset)%nat → ∃ x, shfl_add offset v !! l = Some x ∧ summed (T l ++ T (l + offset)%nat) x.
Proof.
  intros Hlen Ho Hv. split; [by unfold shfl_add; rewrite length_imap|]. intros l Hl.
  destruct (Hv l ltac:(lia)) as (x & Hx & Hsx). destruct (Hv (l + offset)%nat ltac:(lia)) as (y & Hy & Hsy).
  exists (f32_add x y). split; [|by constructor].
  unfold shfl_add. rewrite list_lookup_imap, Hx. cbn [fmap option_fmap option_map]. rewrite (proj2 (Nat.ltb_lt _ _)) by lia. by rewrite Hy.
Qed.

Lemma bind_halves {A} (T : nat → list A) o s :
  seq s o ≫= (λ l, T l ++ T (l + o)%nat) ≡ₚ (seq s o ≫= T) ++ (seq (s + o) o ≫= T).
Proof.
  assert (∀ n d, seq s n ≫= (λ l, T l ++ T (l + d)%nat) ≡ₚ (seq s n ≫= T) ++ (seq (s + d) n ≫= T)) as Hn; [|apply Hn].
  intros n d. revert s. induction n as [|n IH]; intros s; [done|].
  cbn [seq mbind list_bind]. rewrite (IH (S s)). cbn [Nat.add]. solve_Permutation.
Qed.

Lemma warp_loop_summed k (T : nat → list (f32 * f32)) v :
  length v = 32%nat → (2 ^ S k ≤ 32)%nat →
  (∀ l, (l < 2 ^ S k)%nat → ∃ x, v !! l = Some x ∧ summed (T l) x) →
  ∃ x, warp_loop (S k) (2 ^ k) v !! 0%nat = Some x ∧ summed (seq 0 (2 ^ S k) ≫= T) x.
Proof.
  revert T v. induction k as [|k IH]; intros T v Hlen Hk Hv.
  - cbn [warp_loop]. destruct (shfl_add_summed 1 T v Hlen ltac:(lia) Hv) as [_ Hx].
    destruct (Hx 0%nat ltac:(lia)) as (x & Hx0 & Hs). exists x. split; [done|]. cbn. by rewrite app_nil_r.
  - change (warp_loop (S (S k)) (2 ^ S k) v)
      with (if (0 <? 2 ^ S k)%nat then warp_loop (S k) (2 ^ S k / 2) (shfl_add (2 ^ S k) v) else v).
    pose proof (Nat.pow_nonzero 2 (S k) ltac:(lia)). rewrite (proj2 (Nat.ltb_lt _ _)) by lia.
    destruct (shfl_add_summed (2 ^ S k) T v Hlen) as [Hlen' Hv']; [by rewrite <- Nat.pow_succ_r'|..].
    { intros l Hl. apply Hv. rewrite Nat.pow_succ_r'. lia. }
    replace (2 ^ S k / 2)%nat with (2 ^ k)%nat by (rewrite Nat.pow_succ_r', Nat.mul_comm, Nat.div_mul; lia).
    destruct (IH (λ l, T l ++ T (l + 2 ^ S k)%nat) _ Hlen' ltac:(rewrite Nat.pow_succ_r' in Hk; lia) Hv') as (x & Hx & Hs).
    exists x. split; [done|]. rewrite bind_halves in Hs.
    rewrite (Nat.pow_succ_r' 2 (S k)). replace (2 * 2 ^ S k)%nat with (2 ^ S k + 2 ^ S k)%nat by lia.
    rewrite seq_app, bind_app. exact Hs.
Qed.

(** Lane 0 ends with the sum over the whole warp. *)
Lemma warp_sum_summed (T : nat → list (f32 * f32)) v :
  length v = 32%nat → (∀ l, (l < 32)%nat → ∃ x, v !! l = Some x ∧ summed (T l) x) →
  ∃ x, oxide_warp_sum v !! 0%nat = Some x ∧ summed (seq 0 32 ≫= T) x.
Proof. intros Hlen Hv. apply (warp_loop_summed 4 T v Hlen); [cbn; lia|exact Hv]. Qed.
End Sums.

(** ** A warp on its row *)

Section Row.
Context `{FmadLaw}.

(** A distance up to the order of its sums. *)
Definition device_distance (metric : DistanceMetric) (v query : list f32) (r : f32) : Prop :=
  match metric with
  | L2 => ∃ s, summed (zip_with (λ a b, (f32_sub a b, f32_sub a b)) v query) s ∧ r = f32_sqrt s
  | Cosine => ∃ dot nv nq,
      summed (zip_with pair v query) dot ∧ summed (zip_with (λ a _, (a, a)) v query) nv ∧
      summed (zip_with (λ _ b, (b, b)) v query) nq ∧
      r = if f32_eqb (f32_sqrt nv) f32_zero || f32_eqb (f32_sqrt nq) f32_zero then f32_nan
          else f32_sub f32_one (f32_div dot (f32_mul (f32_sqrt nv) (f32_sqrt nq)))
  end.

Context (dim : nat) (v query : list f32).
Hypothesis v_dim : length v = dim.
Hypothesis query_dim : length query = dim.

Definition at_dim (l : list f32) (k : nat) : f32 := default f32_zero (l !! k).

Lemma at_dim_lookup l k : length l = dim → (k < dim)%nat → l !! k = Some (at_dim l k).
Proof. intros Hl Hk. unfold at_dim. destruct (lookup_lt_is_Some_2 l k ltac:(lia)) as [x ->]. done. Qed.

Lemma terms_zip {B} (g : f32 → f32 → B) :
  (λ k, g (at_dim v k) (at_dim query k)) <$> seq 0 dim = zip_with g v query.
Proof.
  apply list_eq. intros k. rewrite list_lookup_fmap, lookup_zip_with.
  destruct (decide (k < dim)%nat) as [Hk|Hk].
  - rewrite lookup_seq_lt by done. by rewrite (at_dim_lookup v k), (at_dim_lookup query k) by done.
  - rewrite !lookup_ge_None_2 by (rewrite ?length_seq; lia). done.
Qed.

Definition lane_terms (g : f32 → f32 → f32 * f32) (lane : nat) : list (f32 * f32) :=
  (λ k, g (at_dim v k) (at_dim query k)) <$> strided dim lane 32 dim.

Lemma warp_terms g : (seq 0 32 ≫= lane_terms g) ≡ₚ zip_with g v query.
Proof.
  rewrite <- (terms_zip g), <- (strides_cover 32 dim dim) by lia. unfold lane_terms.
  generalize (seq 0 32) as ls. induction ls as [|l ls IH]; [done|].
  cbn [mbind list_bind]. by rewrite fmap_app, IH.
Qed.

(** The accumulators of a lane after its loop. *)
Definition lane_sums (metric : DistanceMetric) (lane : nat) : Partial :=
  foldl (λ p k, lane_step (metric_code metric) (at_dim v k) (at_dim query k) p)
        (mkPartial f32_zero f32_zero f32_zero f32_zero) (strided dim lane 32 dim).

Lemma lane_sums_summed metric lane :
  match metric with
  | L2 => summed (lane_terms (λ a b, (f32_sub a b, f32_sub a b)) lane) (p_dist (lane_sums metric lane))
  | Cosine =>
      summed (lane_terms pair lane) (p_dot (lane_sums metric lane)) ∧
      summed (lane_terms (λ a _, (a, a)) lane) (p_nv (lane_sums metric lane)) ∧
      summed (lane_terms (λ _ b, (b, b)) lane) (p_nq (lane_sums metric lane))
  end.
Proof.
  unfold lane_sums, lane_terms. induction (strided dim lane 32 dim) as [|k l IH] using rev_ind.
  { destruct metric; repeat split; constructor. }
  rewrite foldl_snoc. destruct metric; cbn [metric_code lane_step p_dist p_dot p_nv p_nq Z.eqb];
    rewrite !fmap_app; cbn [fmap list_fmap]; [|destruct IH as (IH1 & IH2 & IH3); split_and!];
    rewrite Permutation_app_comm; by apply summed_mad.
Qed.

(** What lane 0 writes. *)
Lemma warp_result_spec metric :
  ∃ r, warp_result (metric_code metric) (lane_sums metric <$> seq 0 32) = Some r ∧ device_distance metric v query r.
Proof.
  assert (∀ (f : Partial → f32) g, (∀ l, summed (lane_terms g l) (f (lane_sums metric l))) →
    ∃ x, oxide_warp_sum (f <$> (lane_sums metric <$> seq 0 32)) !! 0%nat = Some x ∧ summed (zip_with g v query) x) as Hsum.
  { intros f g Hfg. destruct (warp_sum_summed (lane_terms g) (f <$> (lane_sums metric <$> seq 0 32))) as (x & Hx & Hs).
    - by rewrite !length_fmap, length_seq.
    - intros l Hl. rewrite !list_lookup_fmap, lookup_seq_lt by done. cbn [fmap option_fmap option_map]. by eexists.
    - exists x. split; [done|]. by rewrite <- warp_terms. }
  unfold warp_result. destruct metric; cbn [metric_code Z.eqb].
  - destruct (Hsum p_dist (λ a b, (f32_sub a b, f32_sub a b))) as (x & -> & Hs); [apply (lane_sums_summed L2)|].
    eexists. split; [done|]. by exists x.
  - destruct (Hsum p_dot pair) as (dot & -> & Hdot); [intros; apply (lane_sums_summed Cosine)|].
    destruct (Hsum p_nv (λ a _, (a, a))) as (nv & -> & Hnv); [intros; apply (lane_sums_summed Cosine)|].
    destruct (Hsum p_nq (λ _ b, (b, b))) as (nq & -> & Hnq); [intros; apply (lane_sums_summed Cosine)|].
    cbn [mbind option_bind]. eexists. split; [done|]. exists dot, nv, nq. split_and!; [done..|].
    replace f32_nan with (F32 0x7fc00000) by (vm_compute; reflexivity). done.
Qed.

Lemma lane_loop_spec metric vectors row lane :
  (∀ k, (k < dim)%nat → load_f32 vectors (row * dim + k) = Some (at_dim v k)) →
  lane_loop (metric_code metric) vectors (f32_bits <$> query) dim row lane = Some (lane_sums metric lane).
Proof.
  intros Hload. unfold lane_loop, lane_sums.
  assert (∀ j, j ∈ strided dim lane 32 dim → (j < dim)%nat) as Hlt.
  { intros j Hj. apply elem_of_strided in Hj as (m & _ & ?); lia. }
  induction (strided dim lane 32 dim) as [|k l IH] using rev_ind; [done|].
  rewrite !foldl_snoc, IH by set_solver. assert (k < dim)%nat by (apply Hlt; set_solver).
  cbn [mbind option_bind]. rewrite Hload by done. cbn [mbind option_bind].
  rewrite list_lookup_fmap, (at_dim_lookup query k) by done. cbn [fmap option_fmap option_map mbind option_bind].
  by destruct (at_dim query k).
Qed.
End Row.

(** ** The launch *)

(** One thread of each group of [k] writes a row. *)
Lemma launch_leaders {A} (g : nat → list A) n w k groups turns body (m0 : list A) :
  (0 < k)%nat → (n ≤ groups)%nat → (n * w ≤ length m0)%nat → (∀ j, (j < n)%nat → length (g j) = w) →
  (∀ t m, (t < groups * k)%nat → length m = length m0 →
     body t m = if (n <=? t / k)%nat then Some m
                else if (t mod k =? 0)%nat then store_range m (t / k * w) (g (t / k)%nat) else Some m) →
  launch (groups * k) turns body m0 = Some (concat (g <$> seq 0 n) ++ drop (n * w) m0).
Proof.
  intros Hk Hn Hm Hg Hb. set (row j := if (n <=? j)%nat then [] else g j).
  set (f t := if (t mod k =? 0)%nat then row (t / k)%nat else []).
  assert (∀ r, concat (f <$> seq 0 (r * k)) = concat (row <$> seq 0 r)) as Hcat.
  { induction r as [|r IH]; [done|]. replace (S r * k)%nat with (r * k + k)%nat by lia.
    rewrite seq_app, seq_S, !fmap_app, !concat_app, IH. f_equal. cbn [Nat.add].
    destruct k as [|k']; [lia|]. cbn [seq fmap list_fmap concat]. unfold f at 1.
    rewrite Nat.Div0.mod_mul, Nat.div_mul by lia. cbn [Nat.eqb]. f_equal.
    apply concat_nil_Forall. apply Forall_fmap, Forall_forall. intros t Ht%elem_of_seq. cbn. unfold f.
    destruct (Nat.eqb_spec (t mod S k') 0) as [H0|]; [|done].
    apply Nat.Div0.mod_divides in H0 as [c ->].
    assert (r < c)%nat by (apply (Nat.mul_lt_mono_pos_l (S k')); lia).
    assert (c < S r)%nat by (apply (Nat.mul_lt_mono_pos_l (S k')); lia). lia. }
  assert (∀ r, written f (r * k) = written row r) as Hw.
  { intros r. unfold written. by rewrite Hcat. }
  rewrite (launch_concat f).
  - rewrite Hcat, Hw. unfold row at 1. rewrite concat_rows by done. unfold row. rewrite (written_rows g n w) by done.
    do 3 f_equal. lia.
  - rewrite Hw. unfold row. rewrite (written_rows g n w) by done. nia.
  - intros t m Ht Hlen. rewrite Hb by done. pose proof (Nat.div_mod_eq t k) as Hdm.
    assert (written f t ≤ length m)%nat as Hroom.
    { pose proof (written_mono f t (groups * k) ltac:(lia)) as Hmono. rewrite Hw in Hmono.
      unfold row in Hmono. rewrite (written_rows g n w) in Hmono by done. rewrite Hlen. nia. }
    unfold f at 2. destruct (Nat.eqb_spec (t mod k) 0) as [H0|H0].
    + assert (t = t / k * k)%nat as Ht' by lia. rewrite Ht' at 4. rewrite Hw. unfold row.
      rewrite (written_rows g n w) by done.
      destruct (Nat.leb_spec n (t / k)); [|by rewrite Nat.min_l by lia].
      rewrite store_range_nil; [done|]. rewrite Ht', Hw in Hroom. unfold row in Hroom.
      by rewrite (written_rows g n w) in Hroom.
    + rewrite store_range_nil by done. by destruct (n <=? t / k)%nat.
Qed.

(** ** The column of distances *)

(** The batch with a column of distances. *)
Definition with_distances (b : RecordBatch) (name : string) (cells : list (option f32)) : RecordBatch :=
  mkBatch (Schema_new (fields (schema b) ++ [Field_new name Float32 true]))
    (columns b ++ [Float32Array_of cells]) (num_rows b).

Lemma with_distances_ok b name cells :
  batch_ok b → length cells = num_rows b → batch_ok (with_distances b name cells).
Proof.
  intros Hb Hl. unfold batch_ok, with_distances. cbn. apply Forall2_app; [exact Hb|]. constructor; [|done].
  split; [apply Float32Array_ok|]. unfold array_len, Float32Array_of. cbn. by rewrite length_fmap.
Qed.

(** The distances of a column on the device. *)
Definition device_cell (metric : DistanceMetric) (query : list f32) (o : option Value) (r : option f32) : Prop :=
  match o, r with
  | Some v, Some r => device_distance metric (as_vec v) query r
  | None, None => True
  | _, _ => False
  end.

(** The order of the additions does not matter for this vector. *)
Definition sums_agree (metric : DistanceMetric) (query : list f32) (o : option Value) : Prop :=
  match o with
  | Some v => ∀ r, device_distance metric (as_vec v) query r → r = distance metric (as_vec v) query
  | None => True
  end.

Lemma device_cells_agree metric query vals cells :
  Forall (sums_agree metric query) vals → Forall2 (device_cell metric query) vals cells →
  cells = cell_distance metric query <$> vals.
Proof.
  intros Hs. induction 1 as [|o r vals cells Hor _ IH]; [done|]. apply Forall_cons in Hs as [Ho Hs].
  cbn. rewrite <- IH by done. f_equal. destruct o as [v|], r as [r|]; cbn in *; try done. f_equal. by apply Ho.
Qed.

(** *** One column *)

Section Column.
Context `{FmadLaw}.
Context (n dim : nat) (c : CudaColumn) (item : Field) (query : list f32) (metric : DistanceMetric).
Hypothesis c_ok : col_ok n c.
Hypothesis c_type : cc_type c = FixedSizeList item (Z.of_nat dim).
Hypothesis query_dim : length query = dim.

(** How the partial sums of the lanes become a distance. *)
Variable reduce : list Partial → f32.
Hypothesis reduce_distance : ∀ v, length v = dim →
  device_distance metric v query (reduce (lane_sums dim v query metric <$> seq 0 32)).

Definition row_vector (i : nat) : list f32 := as_vec (cell_value (cc_type c) (cb_values (col_bytes c)) i).

Lemma length_row_vector i : length (row_vector i) = dim.
Proof. unfold row_vector. rewrite c_type. cbn. by rewrite length_fmap, length_seq, Nat2Z.id. Qed.

Lemma load_row_vector i k :
  (i < n)%nat → (k < dim)%nat → load_f32 (cc_values c) (i * dim + k) = Some (at_dim (row_vector i) k).
Proof.
  intros Hi Hk. destruct (col_ok_prefix n c c_ok) as [Hlen _].
  rewrite c_type, width_vector, Nat2Z.id in Hlen by lia.
  unfold load_f32. rewrite load_range_Some by nia. cbn [fmap option_fmap option_map]. f_equal.
  unfold at_dim, row_vector. rewrite c_type. cbn [cell_value as_vec]. rewrite Nat2Z.id.
  rewrite list_lookup_fmap, lookup_seq_lt by done. cbn [fmap option_fmap option_map default from_option id Nat.add].
  change (take 4 (drop (4 * (i * dim + k)) (cc_values c))) with (cell 4 (cc_values c) (i * dim + k)).
  rewrite <- !cell_cell by done. do 3 f_equal.
  pose proof (col_cell n c i c_ok Hi) as Hc. rewrite c_type, width_vector, Nat2Z.id in Hc by lia. exact Hc.
Qed.

(** What the lanes of row [i] leave. *)
Definition row_result (i : nat) : f32 :=
  if row_valid (cb_validity (col_bytes c)) i
  then reduce (lane_sums dim (row_vector i) query metric <$> seq 0 32) else f32_zero.

(** The lanes of a valid row. *)
Lemma row_lanes i :
  (i < n)%nat →
  mapM (lane_loop (metric_code metric) (cc_values c) (f32_bits <$> query) dim i) (seq 0 32)
  = Some (lane_sums dim (row_vector i) query metric <$> seq 0 32).
Proof.
  intros Hi. apply mapM_Some, Forall2_fmap_r, Forall_Forall2_diag, Forall_forall. intros lane _.
  apply lane_loop_spec; [apply length_row_vector|done|]. intros k Hk. by apply load_row_vector.
Qed.

Lemma row_result_distance i :
  row_valid (cb_validity (col_bytes c)) i = true → device_distance metric (row_vector i) query (row_result i).
Proof.
  intros Hv. unfold row_result. rewrite Hv. apply reduce_distance, length_row_vector.
Qed.

Lemma device_distance_ok v q r : device_distance metric v q r → f32_ok r.
Proof.
  destruct metric; cbn.
  - intros (s & _ & ->). auto with oxide.
  - intros (dot & nv & nq & _ & _ & _ & ->). destruct (_ || _); [vm_compute; by split|auto with oxide].
Qed.

Lemma row_result_ok i : f32_ok (row_result i).
Proof.
  destruct (row_valid (cb_validity (col_bytes c)) i) eqn:Hv.
  - by eapply device_distance_ok, row_result_distance.
  - unfold row_result. rewrite Hv. by vm_compute.
Qed.

Definition result_bytes (i : nat) : list Z := to_le_bytes 4 (f32_bits (row_result i)).

(** The new column. *)
Definition result_cell (i : nat) : option f32 :=
  if row_valid (cb_validity (col_bytes c)) i then Some (row_result i) else None.

Lemma result_column_spec out :
  Z.of_nat n < U32 → (n * 4 ≤ length out)%nat →
  (∀ i, (i < n)%nat → cell 4 out i = result_bytes i) →
  let new := mkCudaColumn Float32 n 0 (n * 4) out (cc_validity c) in
  col_ok n new ∧ col_array new = Float32Array_of (result_cell <$> seq 0 n).
Proof.
  intros Hn Hout Hcell new. destruct (col_ok_prefix n c c_ok) as [_ Hcl].
  assert (cb_validity (col_bytes new) = cb_validity (col_bytes c)) as Hval.
  { unfold new, col_bytes. cbn. by rewrite Hcl. }
  assert (col_ok n new) as Hok.
  { destruct c_ok as (_ & _ & _ & Hv & _). unfold col_ok, cb_ok. rewrite Hval. unfold new, col_bytes.
    cbn [cb_len cb_type cb_values cb_child_len cc_len cc_type cc_values_len cc_values cc_child_len].
    change (width Float32) with 4%nat. unfold U32 in Hn.
    split_and!; [done|done|rewrite length_take; lia|exact Hv|done|lia|lia]. }
  split; [done|]. unfold col_array, cb_array, Float32Array_of. cbn [cb_type cb_len new col_bytes cc_type cc_len].
  rewrite Nat2Z.id. f_equal. rewrite <- list_fmap_compose. apply list_fmap_ext. intros k i [-> Hi]%lookup_seq.
  cbn [Nat.add compose]. unfold cb_cell. fold (col_bytes new). rewrite Hval. unfold result_cell.
  destruct (row_valid (cb_validity (col_bytes c)) k); [|done]. cbn [option_map]. do 2 f_equal.
  change (cb_type (col_bytes new)) with Float32. unfold cell_value, decode_value.
  pose proof (col_cell n new k Hok Hi) as Hc. change (width (cc_type new)) with 4%nat in Hc. rewrite <- Hc.
  change (cc_values new) with out. rewrite (Hcell k Hi). unfold result_bytes. rewrite from_to_le_bytes.
  pose proof (row_result_ok k) as Hr. unfold f32_ok in Hr. rewrite Z.mod_small by done. by destruct (row_result k).
Qed.
(** As the launch leaves it. *)
Lemma launched_column_spec out0 :
  Z.of_nat n < U32 → (n * 4 ≤ length out0)%nat →
  let out := concat (result_bytes <$> seq 0 n) ++ drop (n * 4) out0 in
  let new := mkCudaColumn Float32 n 0 (n * 4) out (cc_validity c) in
  col_ok n new ∧ col_array new = Float32Array_of (result_cell <$> seq 0 n).
Proof.
  intros Hn Hl out. apply result_column_spec; [done| |].
  - unfold out. rewrite length_app, length_drop, (length_concat_rows _ 4), length_fmap, length_seq; [lia|].
    apply Forall_fmap, Forall_true. intros; apply length_to_le_bytes.
  - intros i Hi. unfold out, cell. by apply cell_concat; [intros; apply length_to_le_bytes|].
Qed.

(** It holds the distances. *)
Lemma result_cells_device :
  Forall2 (device_cell metric query) (values (col_array c)) (result_cell <$> seq 0 n).
Proof.
  destruct (col_ok_prefix n c c_ok) as [_ Hn].
  unfold col_array, cb_array. cbn [values cb_len col_bytes]. rewrite Hn, Nat2Z.id. fold (col_bytes c).
  apply Forall2_fmap, Forall_Forall2_diag, Forall_forall. intros i _. cbn. unfold cb_cell, result_cell.
  destruct (row_valid (cb_validity (col_bytes c)) i) eqn:Hv; [|done]. cbn.
  change (cell_value _ _ _) with (cell_value (cc_type c) (cb_values (col_bytes c)) i).
  by apply row_result_distance.
Qed.
End Column.

(** ** The CUDA kernel *)

Section Vector.
Context {D : Type} `{!CudaApi D} (drv_ok : no_driver_panic (D := D)) `{FmadLaw} `{ArrowLaws}.

(** The shuffles. *)
Definition warp_distance (metric : DistanceMetric) (lanes : list Partial) : f32 :=
  default f32_zero (warp_result (metric_code metric) lanes).

Lemma warp_distance_spec dim query metric v :
  length query = dim → length v = dim →
  device_distance metric v query (warp_distance metric (lane_sums dim v query metric <$> seq 0 32)).
Proof.
  intros Hq Hv. unfold warp_distance. destruct (warp_result_spec dim v query Hv Hq metric) as (r & -> & Hr). done.
Qed.

Section Launch.
Context (n dim : nat) (c : CudaColumn) (item : Field) (query : list f32) (metric : DistanceMetric).
Hypothesis c_ok : col_ok n c.
Hypothesis c_type : cc_type c = FixedSizeList item (Z.of_nat dim).
Hypothesis query_dim : length query = dim.

(** One thread of the kernel. *)
Lemma vec_thread_spec t out :
  oxide_vec_distance (cc_values c) (cc_validity c) n dim (f32_bits <$> query) (metric_code metric) t out
  = if (n <=? t / 32)%nat then Some out
    else if (t mod 32 =? 0)%nat then store_range out (t / 32 * 4) (result_bytes dim c query metric (warp_distance metric) (t / 32)) else Some out.
Proof.
  unfold oxide_vec_distance.
  assert (t / VEC_BLOCK * VEC_WARPS_PER_BLOCK + t mod VEC_BLOCK / 32 = t / 32 ∧
          t mod VEC_BLOCK mod 32 = t mod 32)%nat as [-> ->].
  { unfold VEC_BLOCK, VEC_WARPS_PER_BLOCK. change (8 * 32)%nat with 256%nat.
    pose proof (Nat.div_mod_eq t 256). pose proof (Nat.mod_upper_bound t 256 ltac:(lia)).
    pose proof (Nat.div_mod_eq (t mod 256) 32). pose proof (Nat.mod_upper_bound (t mod 256) 32 ltac:(lia)).
    split; [apply (Nat.div_unique _ _ _ (t mod 256 mod 32))|apply (Nat.mod_unique _ _ (t / 256 * 8 + t mod 256 / 32))]; lia. }
  destruct (Nat.leb_spec n (t / 32)) as [|Hrow]; [done|]. rewrite (is_valid_col n c) by done. cbn [mbind option_bind].
  unfold result_bytes, row_result, store_f32. rewrite (Nat.mul_comm 4).
  destruct (row_valid (cb_validity (col_bytes c)) (t / 32)); cbn [negb]; [|done].
  rewrite (row_lanes n dim c item) by done. cbn [mbind option_bind]. unfold warp_distance.
  destruct (warp_result_spec dim (row_vector c (t / 32)) query (length_row_vector _ _ item c_type _) query_dim metric)
    as (r & -> & _). done.
Qed.

Lemma vec_launch_spec groups turns out0 :
  (n ≤ groups)%nat → (n * 4 ≤ length out0)%nat →
  launch_vec_distance (groups * 32) turns (cc_values c) (cc_validity c) n dim (f32_bits <$> query)
    (metric_code metric) out0
  = Some (concat (result_bytes dim c query metric (warp_distance metric) <$> seq 0 n) ++ drop (n * 4) out0).
Proof.
  intros Hn Hout. unfold launch_vec_distance.
  rewrite stage_query_spec by (by rewrite ?length_fmap, ?length_replicate). cbn [mbind option_bind].
  apply (launch_leaders (result_bytes dim c query metric (warp_distance metric)) n 4 32 groups); [lia|done|done|intros; apply length_to_le_bytes|].
  intros t m Ht Hlen. apply vec_thread_spec.
Qed.

End Launch.

Lemma vec_grid_covers n : ∃ groups, vec_grid n = (groups * 32)%nat ∧ (n ≤ groups)%nat.
Proof.
  exists (Nat.max 1 ((n + (VEC_WARPS_PER_BLOCK - 1)) / VEC_WARPS_PER_BLOCK) * VEC_WARPS_PER_BLOCK)%nat.
  unfold vec_grid, VEC_BLOCK, VEC_WARPS_PER_BLOCK. split; [lia|].
  pose proof (Nat.div_mod_eq (n + (8 - 1)) 8). pose proof (Nat.mod_upper_bound (n + (8 - 1)) 8 ltac:(lia)). lia.
Qed.

(** The kernel and the column it fills. *)
Lemma vec_column_spec n dim c item query metric E :
  col_ok n c → cc_type c = FixedSizeList item (Z.of_nat dim) → length query = dim → Z.of_nat n < U32 →
  Z.of_nat dim * 4 ≤ u32_max →
  cu_spec (D := D)
    (cu! out := cu_alloc (n * 4) in
     if (0 <? n)%nat
     then cu! _ := cu_lift (u32_len (Z.to_nat (Z.of_nat dim * 4)) "shared memory") in
          cu_launch "vector_distance" VECTOR_DISTANCE_SRC "oxide_vec_distance" (vec_grid n) (λ turns,
            launch_vec_distance (vec_grid n) turns (cc_values c) (cc_validity c) n dim (f32_bits <$> query)
              (metric_code metric) out)
     else cu_ret out) E
    (λ out, let new := mkCudaColumn Float32 n 0 (n * 4) out (cc_validity c) in
       col_ok n new ∧ col_array new = Float32Array_of (result_cell dim c query metric (warp_distance metric) <$> seq 0 n)).
Proof.
  intros Hok Hty Hq Hn Hd. eapply cu_spec_bind; [apply cu_spec_alloc|]. intros ? ->.
  set (out0 := replicate (Nat.max (n * 4) 1) 0).
  assert (n * 4 ≤ length out0)%nat as Hl by (unfold out0; rewrite length_replicate; lia).
  destruct (Nat.ltb_spec 0 n) as [Hpos|Hz].
  - eapply cu_spec_bind_Ok; [apply u32_len_small; unfold u32_max in Hd; lia|]. apply cu_spec_launch; [done|]. intros turns.
    destruct (vec_grid_covers n) as (groups & -> & Hg). eexists.
    split; [by eapply (vec_launch_spec n dim c item query metric)|].
    apply (launched_column_spec n dim c item); [done..|intros; by apply warp_distance_spec|done|done].
  - apply cu_spec_ret. apply (result_column_spec n dim c item); [done..|intros; by apply warp_distance_spec|done|done|intros; lia].
Qed.

Lemma cuda_vector_spec s a b col item :
  cuda_stream s = Ok tt → cuda_holds (vd_input a) b → Z.of_nat (num_rows b) < U32 →
  columns b !! vd_column a = Some col →
  data_type col = FixedSizeList item (Z.of_nat (length (vd_query a))) →
  (0 < length (vd_query a))%nat → Z.of_nat (length (vd_query a)) * 4 ≤ MAX_SHARED_QUERY_BYTES →
  cu_spec (D := D) (cuda_vector_distance s a) (λ _, False) (λ d, ∃ cells,
    Forall2 (device_cell (vd_metric a) (vd_query a)) (values col) cells ∧
    cuda_holds d (with_distances b (vd_output_name a) cells)).
Proof.
  intros Hs (Hsch & Hnr & Hb & cb & Hin & Hrows & Hok & Hcols) Hu Hcol Hty Hpos Hmax.
  rewrite Hcols in Hcol. apply list_lookup_fmap_Some in Hcol as (c & -> & Hc).
  change (data_type (col_array c)) with (cc_type c) in Hty.
  pose proof (Forall_lookup_1 _ _ _ _ Hok Hc) as Hcok.
  assert (field_type_of item = Float32) as Hitem.
  { destruct Hcok as (_ & Hres & _). cbn in Hres. rewrite Hty in Hres. apply Hres. }
  unfold cuda_vector_distance. eapply cu_spec_bind_Ok; [exact Hs|].
  eapply (cu_spec_bind_Ok _ _ cb); [unfold cuda_batch; by rewrite Hin|].
  eapply (cu_spec_bind_Ok _ _ c); [unfold cuda_column; by rewrite Hc|].
  eapply (cu_spec_bind_Ok _ _ (Z.of_nat (length (vd_query a)))).
  { rewrite Hty. unfold vector_dimension. by rewrite bool_decide_eq_true_2, (proj2 (Z.ltb_lt _ _)) by (done || lia). }
  rewrite Z.eqb_refl. cbn [negb]. rewrite (proj2 (Z.ltb_ge _ _)) by done. unfold MAX_SHARED_QUERY_BYTES in Hmax.
  rewrite Hrows. eapply cu_spec_bind_Ok; [by apply u32_len_small|].
  eapply cu_spec_bind_Ok; [apply u32_len_small; unfold U32; lia|]. rewrite Nat2Z.id.
  eapply cu_spec_bind; [apply cu_spec_htod|]. intros ? ->.
  apply cu_spec_assoc. eapply cu_spec_bind.
  { apply (vec_column_spec (num_rows b) (length (vd_query a)) c item (vd_query a) (vd_metric a)); [done..|].
    unfold u32_max, U32. lia. }
  intros out [Hnok Hnarr]. apply cu_spec_ret. eexists.
  split; [by apply (result_cells_device (num_rows b) (length (vd_query a)) c item); [..|intros; by apply warp_distance_spec]|].
  split_and!; [by rewrite Hsch|done|apply with_distances_ok; [done|by rewrite length_fmap, length_seq]|].
  eexists. split_and!; [done|done| |].
  - apply Forall_app. by split; [|constructor].
  - cbn [cbt_columns with_distances columns]. rewrite fmap_app, Hcols. f_equal. cbn [fmap list_fmap]. f_equal. by symmetry.
Qed.

(** Where the order of the additions does not matter, the distances are the reference's. *)
Lemma distances_reference b i col item query metric name cells :
  batch_ok b → columns b !! i = Some col → data_type col = FixedSizeList item (Z.of_nat (length query)) →
  resident (data_type col) → (0 < length query)%nat →
  Forall (sums_agree metric query) (values col) → Forall2 (device_cell metric query) (values col) cells →
  vector_distance b i query metric name = Ok (with_distances b name cells).
Proof.
  intros Hb Hcol Hty Hres Hpos Hagree Hcells. rewrite (device_cells_agree _ _ _ _ Hagree Hcells).
  pose proof (vector_distance_cases b _ col query metric name Hb Hcol) as Hcase.
  rewrite Hty in Hcase, Hres. rewrite decide_True in Hcase by apply Hres. by rewrite decide_True in Hcase by done; apply Hcase.
Qed.
End Vector.
