(* ===== verification/CudaVectorExact.v ===== *)
(** * Integer vectors: the device's distances are the reference's

    Where the components are integers and the sums stay below 2^24, every
    addition is exact, so that neither the order of the additions nor fusing
    them with the products matters: the CUDA distances are the reference's, bit
    for bit.  Then the theorem on the operation, its refusals included; the
    example runs the kernel. *)

From Stdlib Require Import SpecFloat.
From S2P Require Import Prelude Floats Arrow Core Memory ArrowKernels Kernels VectorCorrect Device Bytes.
From S2P Require Import Columns CudaKernels Cuda CudaSpec CudaFilterCorrect CudaVector CudaVectorCorrect.
From S2P Require Import FloatFacts.

(** ** Products of integers *)

#[local] Lemma prec_24 : 0 < 24. Proof. done. Qed.

(** The rounded product is the integer, or a zero of either sign. *)
Lemma f32_mul_int k l :
  small 24 k → small 24 l → small 24 (k * l) →
  f32_mul (f32_int k) (f32_int l) = f32_int (k * l) ∨
  k * l = 0 ∧ f32_mul (f32_int k) (f32_int l) = f32_neg_zero.
Proof.
  intros Hk Hl Hkl. unfold f32_mul. rewrite !f32_sf_int by done.
  destruct (decide (k = 0)) as [->|Hnk]; [|destruct (decide (l = 0)) as [->|Hnl]].
  - destruct (decide (l = 0)) as [->|Hnl]; [by left|].
    destruct (sf_int_finite 24 prec_24 l Hl Hnl) as (s & m & e & -> & _). destruct s; [right|left]; done.
  - destruct (sf_int_finite 24 prec_24 k Hk Hnk) as (s & m & e & -> & _). rewrite Z.mul_0_r. destruct s; [right|left]; done.
  - left. unfold f32_int. f_equal. by apply SFmul_int.
Qed.

(** Adding a product to an integer, in two roundings or in one. *)
Lemma f32_mul_add_int k l s :
  small 24 k → small 24 l → small 24 (k * l) → small 24 s → small 24 (s + k * l) →
  f32_add (f32_int s) (f32_mul (f32_int k) (f32_int l)) = f32_int (s + k * l).
Proof.
  intros Hk Hl Hkl Hs Hskl. destruct (f32_mul_int k l Hk Hl Hkl) as [-> | [E ->]]; [by apply f32_add_int|].
  rewrite E, Z.add_0_r. unfold f32_add. rewrite f32_sf_int by done.
  replace (f32_sf f32_neg_zero) with (S754_zero true) by (vm_compute; reflexivity). unfold f32_int. f_equal. by destruct s.
Qed.

Lemma f32_fma_int k l s :
  small 24 k → small 24 l → small 24 (k * l) → small 24 s → small 24 (s + k * l) →
  f32_fma (f32_int k) (f32_int l) (f32_int s) = f32_int (s + k * l).
Proof.
  intros Hk Hl Hkl Hs Hskl. unfold f32_fma. rewrite !f32_sf_int by done. unfold f32_int. f_equal.
  destruct (decide (k = 0)) as [->|Hnk]; [|destruct (decide (l = 0)) as [->|Hnl]].
  - rewrite Z.add_0_r. by destruct l, s.
  - rewrite Z.mul_0_r, Z.add_0_r. destruct (sf_int_finite 24 prec_24 k Hk Hnk) as ([] & m & e & -> & _); by destruct s.
  - assert (SFmul 24 128 (sf_int 24 k) (sf_int 24 l) = sf_int 24 (k * l)) as Hmul by by apply SFmul_int.
    destruct (sf_int_finite 24 prec_24 k Hk Hnk) as (sk & mk & ek & Ek & Hek & Hmk & _).
    destruct (sf_int_finite 24 prec_24 l Hl Hnl) as (sl & ml & el & El & Hel & Hml & _).
    rewrite Ek, El in Hmul |- *. destruct (decide (s = 0)) as [->|Hns]; [exact Hmul|].
    destruct (sf_int_finite 24 prec_24 s Hs Hns) as (ss & ms & es & -> & Hes & Hms & _). cbn [sf_fma sf_mul_exact SFadd].
    assert (cond_Zopp (xorb sk sl) (Zpos (mk * ml)) = k * l * 2 ^ (- (ek + el))) as Hprod.
    { replace (- (ek + el)) with (- ek + - el) by lia. rewrite Z.pow_add_r by lia.
      transitivity (k * 2 ^ (- ek) * (l * 2 ^ (- el))); [|ring].
      rewrite <- Hmk, <- Hml. rewrite Pos2Z.inj_mul. unfold cond_Zopp. destruct sk, sl; cbn [xorb]; ring. }
    rewrite (cond_Zopp_align _ _ _ (k * l)), (cond_Zopp_align ss ms es s) by (done || lia).
    rewrite <- Z.mul_add_distr_r, (Z.add_comm (k * l)). apply normalize_int; [done..|lia].
Qed.

(** ** Sums *)

Definition int_pair (k : Z * Z) : f32 * f32 := (f32_int k.1, f32_int k.2).
Definition product (k : Z * Z) : Z := k.1 * k.2.

(** Components and partial sums of at most 24 bits. *)
Definition fits (l : list (Z * Z)) : Prop :=
  Forall (λ k, small 24 k.1 ∧ small 24 k.2) l ∧ sumZ (λ k, Z.abs (product k)) l < 2 ^ 24.

Lemma sum_product_abs l : Z.abs (sumZ product l) ≤ sumZ (λ k, Z.abs (product k)) l.
Proof. induction l as [|k l IH]; cbn; lia. Qed.

Lemma sum_abs_nonneg l : 0 ≤ sumZ (λ k, Z.abs (product k)) l.
Proof. apply sumZ_nonneg. lia. Qed.

Lemma fits_small l : fits l → small 24 (sumZ product l).
Proof. intros [_ Hl]. unfold small. pose proof (sum_product_abs l). lia. Qed.

Lemma fits_cons k l : fits (k :: l) → small 24 k.1 ∧ small 24 k.2 ∧ small 24 (product k) ∧ fits l.
Proof.
  intros [[Hk Hl]%Forall_cons Hs]. cbn in Hs. pose proof (sum_abs_nonneg l). unfold small in *.
  split_and!; [tauto|tauto|lia|split; [done|lia]].
Qed.

Lemma fits_app l1 l2 : fits (l1 ++ l2) → fits l1 ∧ fits l2.
Proof.
  intros [[H1 H2]%Forall_app Hs]. rewrite sumZ_app in Hs.
  pose proof (sum_abs_nonneg l1). pose proof (sum_abs_nonneg l2). split; split; (done || lia).
Qed.

Lemma fits_perm l l' : l ≡ₚ l' → fits l → fits l'.
Proof. intros Hp [Hf Hs]. split; [by rewrite <- Hp|]. by rewrite <- (sumZ_perm _ l l' Hp). Qed.

(** Whatever the order, a sum of integer products is their integer sum. *)
Lemma summed_int t s : summed t s → ∀ l, t = int_pair <$> l → fits l → s = f32_int (sumZ product l).
Proof.
  induction 1 as [|x y t s _ IH|x y t s _ IH|t1 t2 s1 s2 _ IH1 _ IH2|t t' s Hp _ IH]; intros l Ht Hf.
  - symmetry in Ht. apply fmap_nil_inv in Ht as ->. done.
  - symmetry in Ht. apply fmap_cons_inv in Ht as ([k1 k2] & l' & [= -> ->] & -> & ->).
    apply fits_cons in Hf as Hc. destruct Hc as (Hk1 & Hk2 & Hk & Hf'). rewrite (IH l' eq_refl Hf').
    apply fits_small in Hf. cbn in Hf |- *. rewrite Z.add_comm in Hf |- *.
    apply f32_mul_add_int; [done..|by apply fits_small|done].
  - symmetry in Ht. apply fmap_cons_inv in Ht as ([k1 k2] & l' & [= -> ->] & -> & ->).
    apply fits_cons in Hf as Hc. destruct Hc as (Hk1 & Hk2 & Hk & Hf'). rewrite (IH l' eq_refl Hf').
    apply fits_small in Hf. cbn in Hf |- *. rewrite Z.add_comm in Hf |- *.
    apply f32_fma_int; [done..|by apply fits_small|done].
  - symmetry in Ht. apply fmap_app_inv in Ht as (l1 & l2 & -> & -> & ->).
    apply fits_app in Hf as Hc. destruct Hc as [Hf1 Hf2].
    rewrite (IH1 l1 eq_refl Hf1), (IH2 l2 eq_refl Hf2), sumZ_app.
    apply f32_add_int; [by apply fits_small..|]. rewrite <- sumZ_app. by apply fits_small.
  - subst t'. apply Permutation_map_inv in Hp as (l' & -> & Hp).
    rewrite (sumZ_perm _ l l' Hp). apply IH; [done|]. by eapply fits_perm.
Qed.

(** ** The reference's sums *)

(** The reference starts from [-0.0], so that a sum of negative zeros keeps its
    sign. *)
Definition is_int_sum (z : Z) (s : f32) : Prop := s = f32_int z ∨ z = 0 ∧ s = f32_neg_zero.

Lemma f32_add_neg_zero z : small 24 z → f32_add f32_neg_zero (f32_int z) = f32_int z.
Proof.
  intros Hz. unfold f32_add. rewrite f32_sf_int by done.
  replace (f32_sf f32_neg_zero) with (S754_zero true) by (vm_compute; reflexivity). unfold f32_int. f_equal. by destruct z.
Qed.

Lemma f32_add_neg_zero_r z : small 24 z → f32_add (f32_int z) f32_neg_zero = f32_int z.
Proof.
  intros Hz. unfold f32_add. rewrite f32_sf_int by done.
  replace (f32_sf f32_neg_zero) with (S754_zero true) by (vm_compute; reflexivity). unfold f32_int. f_equal. by destruct z.
Qed.

Definition products (l : list (Z * Z)) : list f32 := (λ k, f32_mul (f32_int k.1) (f32_int k.2)) <$> l.

Lemma f32_sum_int l : fits l → is_int_sum (sumZ product l) (f32_sum (products l)).
Proof.
  unfold f32_sum, products. induction l as [|k l IH] using rev_ind; intros Hf; [by right|].
  apply fits_app in Hf as Hc. destruct Hc as [Hl (Hk1 & Hk2 & Hk & _)%fits_cons].
  apply fits_small in Hl as Hsl. apply fits_small in Hf as Hs. specialize (IH Hl).
  rewrite fmap_app, foldl_app, sumZ_app. rewrite sumZ_app in Hs. cbn in Hs |- *. rewrite Z.add_0_r in Hs |- *.
  change (product k) with (k.1 * k.2) in *. destruct IH as [-> | [E ->]].
  - left. by apply f32_mul_add_int.
  - rewrite E, Z.add_0_l. destruct (f32_mul_int k.1 k.2 Hk1 Hk2 Hk) as [-> | [-> ->]].
    + left. by apply f32_add_neg_zero.
    + by right.
Qed.

(** Squares are never negative zeros. *)
Lemma f32_sum_squares l :
  l ≠ [] → Forall (λ k, k.1 = k.2) l → fits l → f32_sum (products l) = f32_int (sumZ product l).
Proof.
  intros Hne Hsq Hf. destruct l as [|k l] using rev_ind; [done|]. clear IHl Hne.
  apply Forall_app in Hsq as [_ [Hk12 _]%Forall_cons].
  apply fits_app in Hf as Hc. destruct Hc as [Hl (Hk1 & Hk2 & Hk & _)%fits_cons].
  apply fits_small in Hl as Hsl. apply fits_small in Hf as Hs. pose proof (f32_sum_int l Hl) as Hsum.
  unfold products, f32_sum in *. rewrite fmap_app, foldl_app, sumZ_app. rewrite sumZ_app in Hs.
  cbn in Hs |- *. rewrite Z.add_0_r in Hs |- *. change (product k) with (k.1 * k.2) in *.
  destruct Hsum as [-> | [E ->]]; [by apply f32_mul_add_int|]. rewrite E, Z.add_0_l. rewrite Hk12 in *.
  destruct (f32_mul_int k.2 k.2 Hk2 Hk2 Hk) as [-> | [H0 Hm]]; [by apply f32_add_neg_zero|].
  assert (k.2 = 0) as E0 by nia. rewrite E0 in Hm. vm_compute in Hm. discriminate Hm.
Qed.

(** ** Distances *)

(** The terms of the sums of a metric. *)
Definition differences (v q : list Z) : list (Z * Z) := zip_with (λ x y, (x - y, x - y)) v q.

Definition metric_fits (metric : DistanceMetric) (v q : list Z) : Prop :=
  match metric with
  | L2 => Forall (small 24) v ∧ Forall (small 24) q ∧ fits (differences v q)
  | Cosine => fits (zip_with pair v q) ∧ fits ((λ x, (x, x)) <$> v) ∧ fits ((λ y, (y, y)) <$> q)
  end.

Lemma zip_int {B} (g : f32 → f32 → B) (h : Z → Z → B) (P : Z → Prop) v q :
  Forall P v → Forall P q → (∀ x y, P x → P y → g (f32_int x) (f32_int y) = h x y) →
  zip_with g (f32_int <$> v) (f32_int <$> q) = zip_with h v q.
Proof.
  intros Hv Hq Hg. revert q Hq. induction Hv as [|x v Hx _ IH]; intros q Hq; [done|].
  destruct Hq as [|y q Hy Hq]; [done|]. cbn. by rewrite Hg, IH.
Qed.

Lemma differences_int v q :
  Forall (small 24) v → Forall (small 24) q → fits (differences v q) →
  zip_with (λ a b, (f32_sub a b, f32_sub a b)) (f32_int <$> v) (f32_int <$> q) = int_pair <$> differences v q ∧
  zip_with (λ x y, f32_mul (f32_sub x y) (f32_sub x y)) (f32_int <$> v) (f32_int <$> q) = products (differences v q).
Proof.
  intros Hv Hq [Hf _]. unfold products, differences in *. revert q Hq Hf.
  induction Hv as [|x v Hx _ IH]; intros q Hq Hf; [done|]. destruct Hq as [|y q Hy Hq]; [done|].
  cbn in Hf |- *. apply Forall_cons in Hf as [[Hd _] Hf]. destruct (IH q Hq Hf) as [-> ->].
  by rewrite (f32_sub_int x y).
Qed.

Lemma differences_squares v q : Forall (λ k, k.1 = k.2) (differences v q).
Proof. unfold differences. revert q. induction v as [|x v IH]; intros [|y q]; cbn; by constructor. Qed.

Lemma l2_agrees v q r :
  v ≠ [] → length v = length q → metric_fits L2 v q →
  device_distance L2 (f32_int <$> v) (f32_int <$> q) r → r = distance L2 (f32_int <$> v) (f32_int <$> q).
Proof.
  intros Hne Hlen (Hv & Hq & Hf) (s & Hs & ->). cbn [distance]. unfold l2.
  destruct (differences_int v q Hv Hq Hf) as [E1 ->]. rewrite E1 in Hs. f_equal.
  rewrite (summed_int _ _ Hs _ eq_refl Hf). symmetry. apply f32_sum_squares; [|apply differences_squares|done].
  unfold differences. destruct v, q; done.
Qed.

(** One minus a zero of either sign. *)
Lemma one_minus_quotient d1 d2 n :
  is_int_sum 0 d1 → is_int_sum 0 d2 → f32_sub f32_one (f32_div d1 n) = f32_sub f32_one (f32_div d2 n).
Proof.
  assert (∀ d, is_int_sum 0 d → ∃ s, f32_sf d = S754_zero s) as Hz.
  { intros d [-> | [_ ->]]; by eexists. }
  intros [s1 H1]%Hz [s2 H2]%Hz. unfold f32_div. rewrite H1, H2.
  assert (∀ s, f32_sf (sf_f32 (S754_zero s)) = S754_zero s) as Hr by by intros [].
  destruct (f32_sf n) as [s|s| |s m e]; cbn [SFdiv]; [done| |done|];
    unfold f32_sub; rewrite !Hr; f_equal; by vm_compute.
Qed.

Lemma cosine_agrees v q r :
  v ≠ [] → length v = length q → metric_fits Cosine v q →
  device_distance Cosine (f32_int <$> v) (f32_int <$> q) r → r = distance Cosine (f32_int <$> v) (f32_int <$> q).
Proof.
  intros Hne Hlen (Hd & Hv & Hq) (dot & nv & nq & Hdot & Hnv & Hnq & ->). cbn [distance]. unfold cosine.
  assert (∀ l : list Z, (λ x, f32_mul x x) <$> (f32_int <$> l) = products ((λ x, (x, x)) <$> l)) as Hsq.
  { intros l. unfold products. by rewrite <- !list_fmap_compose. }
  assert (∀ l : list Z, Forall (λ k : Z * Z, k.1 = k.2) ((λ x, (x, x)) <$> l)) as Hdiag.
  { intros l. by apply Forall_fmap, Forall_true. }
  assert (zip_with pair (f32_int <$> v) (f32_int <$> q) = int_pair <$> zip_with pair v q ∧
          zip_with f32_mul (f32_int <$> v) (f32_int <$> q) = products (zip_with pair v q) ∧
          zip_with (λ a _, (a, a)) (f32_int <$> v) (f32_int <$> q) = int_pair <$> ((λ x, (x, x)) <$> v) ∧
          zip_with (λ _ b, (b, b)) (f32_int <$> v) (f32_int <$> q) = int_pair <$> ((λ y, (y, y)) <$> q)) as (E1 & E2 & E3 & E4).
  { clear -Hlen. unfold products. revert q Hlen. induction v as [|x v IH]; intros [|y q] Hlen; try done.
    cbn in Hlen |- *. destruct (IH q ltac:(lia)) as (-> & -> & -> & ->). done. }
  rewrite E1 in Hdot. rewrite E3 in Hnv. rewrite E4 in Hnq. rewrite E2, !Hsq.
  rewrite (summed_int _ _ Hnv _ eq_refl Hv), (summed_int _ _ Hnq _ eq_refl Hq), (summed_int _ _ Hdot _ eq_refl Hd).
  assert (q ≠ []) as Hqne by (by destruct v, q).
  rewrite (f32_sum_squares ((λ x, (x, x)) <$> v)), (f32_sum_squares ((λ y, (y, y)) <$> q));
    [|by destruct q|done|done|by destruct v|done|done].
  destruct (_ || _); [done|]. destruct (f32_sum_int _ Hd) as [-> | [E ->]]; [done|].
  rewrite E. apply one_minus_quotient; [by left|by right].
Qed.

(** On integer vectors the device has no choice. *)
Lemma integer_sums_agree metric v q :
  v ≠ [] → length v = length q → metric_fits metric v q →
  sums_agree metric (f32_int <$> q) (Some (VVec (f32_int <$> v))).
Proof. intros Hne Hlen Hf r. destruct metric; [by apply l2_agrees|by apply cosine_agrees]. Qed.

(** ** The operation *)

(** Vectors of integers, as long as the query or null, whose sums fit. *)
Definition integer_vectors (metric : DistanceMetric) (query : list f32) (cells : list (option Value)) : Prop :=
  ∃ q, query = f32_int <$> q ∧
    Forall (λ cell, cell = None ∨
              ∃ v, cell = Some (VVec (f32_int <$> v)) ∧ length v = length q ∧ metric_fits metric v q) cells.

Lemma integer_vectors_agree metric query cells :
  query ≠ [] → integer_vectors metric query cells → Forall (sums_agree metric query) cells.
Proof.
  intros Hne (q & -> & Hc). eapply Forall_impl; [exact Hc|]. intros cell [->|(v & -> & Hlen & Hf)]; [done|].
  apply integer_sums_agree; [|done|done]. by destruct q, v.
Qed.

Section Operation.
Context {D : Type} `{!CudaApi D} (drv_ok : no_driver_panic (D := D)) `{FmadLaw} `{ArrowLaws}.

(** C20: the CUDA distances on any order of the threads, of a device batch that
    stands for a host batch.  A column the batch does not have, one that is not
    a vector column, a query of another dimension and a dimension beyond the
    shared memory fail as documented, before the driver is asked for anything.
    Otherwise the operation ends, unless the driver fails, with a device batch
    that stands for the input with one more column: null where the vector is
    null and otherwise the metric's formula over sums in which each dimension
    occurs once, rounded or fused.  Where the order of the additions does not
    matter this is the reference's batch, as it is for integer vectors whose
    sums stay below 2^24. *)
Theorem cuda_vector_correct s a b st :
  cuda_stream s = Ok tt → cuda_holds (vd_input a) b → Z.of_nat (num_rows b) < U32 →
  let r := (cuda_vector_distance (D := D) s a st).2 in
  match columns b !! vd_column a with
  | None => r = Err (Plan "column index out of range for a batch")
  | Some col =>
      match vector_dimension (data_type col) with
      | None => r = Err (Unsupported "cuda.vector_distance" "expected FixedSizeList<Float32>")
      | Some dim =>
          if negb (Z.of_nat (length (vd_query a)) =? dim)
          then r = Err (Plan "query vector and column dimensions differ")
          else if MAX_SHARED_QUERY_BYTES <? dim * 4
          then r = Err (Unsupported "cuda.vector_distance" "dimension exceeds the shared-memory staging limit")
          else
            match r with
            | Ok d => ∃ cells, Forall2 (device_cell (vd_metric a) (vd_query a)) (values col) cells ∧
                cuda_holds d (with_distances b (vd_output_name a) cells) ∧
                (Forall (sums_agree (vd_metric a) (vd_query a)) (values col) ∨
                 integer_vectors (vd_metric a) (vd_query a) (values col) →
                 vector_distance b (vd_column a) (vd_query a) (vd_metric a) (vd_output_name a)
                 = Ok (with_distances b (vd_output_name a) cells))
            | Err e => driver_failure (D := D) e
            | Panic => False
            end
      end
  end.
Proof.
  intros Hs Hh Hu r. pose proof Hh as (_ & _ & Hb & cb & Hin & _ & Hok & Hcols).
  destruct (columns b !! vd_column a) as [col|] eqn:Hcol; rewrite Hcols, list_lookup_fmap in Hcol.
  2: { unfold r, cuda_vector_distance, cu_bind, cu_lift, cuda_batch, cuda_column. rewrite Hs, Hin.
       by destruct (cbt_columns cb !! vd_column a). }
  destruct (cbt_columns cb !! vd_column a) as [c|] eqn:Hc; [|done]. injection Hcol as <-.
  assert (columns b !! vd_column a = Some (col_array c)) as Hcol by (by rewrite Hcols, list_lookup_fmap, Hc).
  change (data_type (col_array c)) with (cc_type c).
  destruct (vector_dimension (cc_type c)) as [dim|] eqn:Hdim;
    [destruct (negb _) eqn:Hneg; [|destruct (MAX_SHARED_QUERY_BYTES <? dim * 4) eqn:Hmax]|].
  1,2,4: unfold r, cuda_vector_distance, cu_bind, cu_lift, cuda_batch, cuda_column; rewrite Hs, Hin, Hc; cbn;
    rewrite Hdim; cbn; by rewrite ?Hneg, ?Hmax.
  apply negb_false_iff, Z.eqb_eq in Hneg as <-. apply Z.ltb_ge in Hmax.
  assert (∃ item, cc_type c = FixedSizeList item (Z.of_nat (length (vd_query a))) ∧ (0 < length (vd_query a))%nat)
    as (item & Hty & Hpos).
  { unfold vector_dimension in Hdim. destruct (cc_type c) as [ | | | | |item size| ]; try done.
    destruct (bool_decide _ && (0 <? size)) eqn:E; [|done]. injection Hdim as ->. apply andb_true_iff in E as [_ E%Z.ltb_lt].
    exists item. split; [done|lia]. }
  pose proof (cuda_vector_spec drv_ok s a b (col_array c) item Hs Hh Hu Hcol Hty Hpos Hmax st) as Hspec.
  fold r in Hspec. destruct r as [d|e|]; [|tauto|done]. destruct Hspec as (cells & Hcells & Hd).
  exists cells. split_and!; [done|done|]. intros Hagree.
  apply (distances_reference b (vd_column a) (col_array c) item); try done.
  - by destruct (Forall_lookup_1 _ _ _ _ Hok Hc) as (_ & Hres & _).
  - destruct Hagree as [|Hint]; [done|]. apply integer_vectors_agree; [|done]. by destruct (vd_query a); cbn in Hpos; [lia|].
Qed.
End Operation.

(** ** Examples *)

Module CudaVectorExample.
Import CudaFilterCorrect.CudaExample VectorExample.

#[local] Existing Instance backwards.
(** A compiler that contracts every product. *)
#[local] Instance fused : Fmad := f32_fma.
#[local] Instance fused_law : FmadLaw.
Proof. intros x y s. by right. Qed.

(** The points of [VectorExample] in device memory: [(3, 4)] and null. *)
Definition points_columns : list CudaColumn :=
  [mkCudaColumn (FixedSizeList (Field_new "item" Float32 true) 2) 2 4 16
     (concat (to_le_bytes 4 <$> [0x40400000; 0x40800000; 0; 0])) (Some [1])].
Definition points_device : DeviceBatch :=
  mkDeviceBatch Cuda (schema points) 2 (BatchCuda (mkCudaBatch 2 points_columns)).

Lemma points_holds : cuda_holds points_device points.
Proof.
  split_and!; [done|done|apply (bool_decide_unpack _); vm_compute; exact I|].
  exists (mkCudaBatch 2 points_columns). split_and!; [done|done| |vm_compute; reflexivity].
  repeat constructor; try done. intros bits [= <-]. done.
Qed.

Definition vec_args : VectorDistanceArgs := mkVecArgs points_device 0 [f32_zero; f32_zero] L2 "d".

Lemma cuda_vector_correct_witness :
  (match (cuda_vector_distance stream vec_args fresh).2 with
   | Ok d => ∃ cells, cuda_holds d (with_distances points "d" cells) ∧
       vector_distance points 0 [f32_zero; f32_zero] L2 "d" = Ok (with_distances points "d" cells)
   | Err e => driver_failure (D := nat) e
   | Panic => False
   end) ∧
  (cuda_vector_distance stream (mkVecArgs points_device 0 [f32_zero] L2 "d") fresh).2
  = Err (Plan "query vector and column dimensions differ").
Proof.
  split.
  - pose proof (cuda_vector_correct backwards_ok stream vec_args points fresh eq_refl points_holds
      ltac:(vm_compute; reflexivity)) as Hc. cbv zeta in Hc.
    change (columns points !! vd_column vec_args) with (columns points !! 0%nat) in Hc.
    destruct (cuda_vector_distance stream vec_args fresh).2 as [d|e|]; [|exact Hc|exact Hc].
    destruct Hc as (cells & _ & Hd & Href). exists cells. split; [done|]. apply Href. right. exists [0; 0]. split; [done|].
    constructor; [right|constructor; [by left|constructor]]. exists [3; 4]. split; [reflexivity|]. split; [reflexivity|].
    split; [by repeat constructor|]. split; [by repeat constructor|].
    split; [by repeat constructor|done].
  - exact (cuda_vector_correct backwards_ok stream (mkVecArgs points_device 0 [f32_zero] L2 "d") points fresh eq_refl
      points_holds ltac:(vm_compute; reflexivity)).
Defined.

(** The distance of the first point is five. *)
Example distance_on_device :
  match (cuda_vector_distance stream vec_args fresh).2 with
  | Ok d => match db_inner d with
            | BatchCuda b => (λ c, values (col_array c)) <$> last (cbt_columns b) = Some [Some (VF32 (f32_int 5)); None]
            | _ => False
            end
  | _ => False
  end.
Proof. vm_compute. reflexivity. Qed.

(** With other numbers the order shows: the reference adds [2^24 + 1 + 1] from
    the left and loses both ones, a warp may add the ones first. *)
Example order_shows :
  let big := F32 0x4b800000 in
  f32_sum [big; f32_one; f32_one] = big ∧ f32_add big (f32_add f32_one f32_one) ≠ big.
Proof. split; [vm_compute; reflexivity|vm_compute; discriminate]. Qed.
End CudaVectorExample.
