(* ===== verification/Udf.v ===== *)
(** * oxidelake-compute: the distance functions of SQL

    Models [src/crates/oxidelake-compute/src/udf.rs]: the type coercion and the
    evaluation of [l2_distance] and [cosine_distance] (their names and the query
    literal are in [Planner]).  A [FixedSizeListArray] is that of [Planner]; its
    raw value buffer and the offset of a row in it are Arrow's and operations of
    [ListArrays], as are the list types the repository only tests for. *)

From S2P Require Import Prelude Floats Arrow Core Telemetry Memory ArrowKernels Kernels VectorCorrect Device.
From S2P Require Import Operator Execs Planner FloatFacts.

(** Arrow: the values of the child array whatever their validity, the first
    child index of a row as the [i32] Arrow computes it, and the variants of
    [DataType] behind [OtherType]: the item of a [List] or [LargeList], and
    whether the type is numeric. *)
Class ListArrays := {
  raw_values : FixedSizeListArray → list f32;
  value_offset : FixedSizeListArray → nat → Z;
  other_list_item : string → option Field;
  other_is_numeric : string → bool;
}.

(** ** Coercion *)

Definition is_numeric `{ListArrays} (dt : DataType) : bool :=
  match dt with
  | Int64 | Float64 | Float32 | Int32 => true
  | OtherType s => other_is_numeric s
  | _ => false
  end.

Definition list_element `{ListArrays} (dt : DataType) : option Field :=
  match dt with
  | FixedSizeList f _ => Some f
  | OtherType s => other_list_item s
  | _ => None
  end.

Definition fixed_dimension (dt : DataType) : option Z :=
  match dt with FixedSizeList _ n => Some n | _ => None end.

Definition check_element `{ListArrays} (dt : DataType) : df_result unit :=
  element ← ok_or (list_element dt) (DFPlan "expected a list of numbers");
  if is_numeric (field_type_of element) then Ok tt else Err (DFPlan "vector elements must be numeric").

Definition coerce_types `{ListArrays} (arg_types : list DataType) : df_result (list DataType) :=
  if negb (length arg_types =? 2)%nat then Err (DFPlan "takes 2 arguments")
  else
    _ ← mapM check_element arg_types;
    let dims := omap fixed_dimension arg_types in
    dim ← ok_or (head dims) (DFPlan "at least one argument must be a FixedSizeList");
    if existsb (λ d, negb (d =? dim)) dims then Err (DFPlan "vectors have different dimensions")
    else
      let target := FixedSizeList (Field_new "item" Float32 true) dim in
      Ok ((λ dt, match dt with
                 | FixedSizeList f _ => if bool_decide (field_type_of f = Float32) then dt else target
                 | _ => target
                 end) <$> arg_types).

Definition return_type (_ : list DataType) : df_result DataType := Ok Float32.

(** ** Evaluation *)

(** A column is a list array or an array of another type. *)
Inductive ColumnarValue :=
  | CvList (l : FixedSizeListArray)
  | CvArray (a : Array)
  | CvScalar (v : ScalarValue)
  (** [ScalarValue::Float32], and a string of one of the three string types *)
  | CvFloat32 (v : option f32)
  | CvUtf8 (v : option string)
  (** a [ListArray] of [Float32] *)
  | CvLists (l : list (option (list f32))).

Definition fixed_size_list (v : ColumnarValue) : df_result (FixedSizeListArray * bool) :=
  match v with
  | CvList l => Ok (l, false)
  | CvScalar (SvFixedSizeList l) => Ok (l, true)
  | _ => Err (DFExecution "expected FixedSizeList")
  end.

Definition float_values `{ListArrays} (l : FixedSizeListArray) : df_result (list f32 * Z) :=
  if negb (bool_decide (fsl_item l = Float32)) then Err (DFExecution "vector elements are not Float32")
  else if fsl_size l <? 0 then Err (DFExecution "negative list size")
  else Ok (raw_values l, fsl_size l).

(** [is_null] of a row that exists. *)
Definition fsl_is_null (l : FixedSizeListArray) (row : nat) : df_result bool :=
  v ← index (fsl_valid l) row; Ok (negb v).

(** [usize::try_from(offset).unwrap_or(0)]. *)
Definition udf_slice `{ListArrays} (vals : list f32) (l : FixedSizeListArray) (row : nat) (dim : Z) :
    df_result (list f32) :=
  let start := Z.max 0 (value_offset l row) in
  slice vals start (start + dim).

(** The closure of [invoke_with_args]. *)
Definition udf_distance `{ListArrays} (metric : DistanceMetric) (a b : FixedSizeListArray) (a_scalar b_scalar : bool)
    (a_vals b_vals : list f32) (a_dim b_dim : Z) (row : nat) : df_result (option f32) :=
  let ra := if a_scalar then 0%nat else row in
  let rb := if b_scalar then 0%nat else row in
  na ← fsl_is_null a ra;
  if (na : bool) then Ok None
  else
    nb ← fsl_is_null b rb;
    if (nb : bool) then Ok None
    else
      sa ← udf_slice a_vals a ra a_dim;
      sb ← udf_slice b_vals b rb b_dim;
      Ok (Some (match metric with L2 => l2 sa sb | Cosine => cosine sa sb end)).

Definition invoke_distance `{ListArrays} (metric : DistanceMetric) (args : list ColumnarValue) (number_rows : nat) :
    df_result ColumnarValue :=
  match args with
  | [a; b] =>
      '(a, a_scalar) ← fixed_size_list a;
      '(b, b_scalar) ← fixed_size_list b;
      '(a_vals, a_dim) ← float_values a;
      '(b_vals, b_dim) ← float_values b;
      if negb (a_dim =? b_dim) then Err (DFExecution "vectors have different dimensions")
      else
        let distance := udf_distance metric a b a_scalar b_scalar a_vals b_vals a_dim b_dim in
        if a_scalar && b_scalar then d ← distance 0%nat; Ok (CvFloat32 d)
        else out ← mapM distance (seq 0 number_rows); Ok (CvArray (Float32Array_of out))
  | _ => Err (DFExecution "takes 2 arguments")
  end.

(** The functions a session registers; [predict] with its feature. *)
Definition oxide_udfs (feature_predict : bool) : list string :=
  [L2_DISTANCE; COSINE_DISTANCE] ++ (if feature_predict then ["predict"] else []).

(** ** The distance functions compute what the plan node computes

    Properties of [Udf]: on a vector column and a query literal, in either
    order, evaluating the function gives exactly the column that the kernel
    behind [GpuVectorDistanceExec] appends, so that a projection may be lowered
    or not; coercion gives two vectors of one dimension or an error. *)

(** What Arrow documents: a valid child value is in the raw buffer, and a row
    starts at its multiple of the size while that fits an [i32]. *)
Class ListArraysLaws `{ListArrays} : Prop := {
  raw_values_law l :
    length (raw_values l) = length (fsl_values l) ∧
    ∀ i x, fsl_values l !! i = Some (Some x) → raw_values l !! i = Some x;
  value_offset_law l row :
    0 ≤ Z.of_nat row * fsl_size l ≤ i32_max → value_offset l row = Z.of_nat row * fsl_size l;
}.

Section Udf.
Context `{ListArraysLaws}.

(** ** Columns *)

(** A list array of [n] rows of [dim] floats, within the offsets of Arrow. *)
Record vectors_ok (l : FixedSizeListArray) (n dim : nat) : Prop := {
  vo_item : fsl_item l = Float32;
  vo_size : fsl_size l = Z.of_nat dim;
  vo_rows : length (fsl_valid l) = n;
  vo_values : length (fsl_values l) = (n * dim)%nat;
  vo_offsets : Z.of_nat (n * dim) ≤ i32_max;
}.

Definition vector_row (l : FixedSizeListArray) (dim row : nat) : list f32 := take dim (drop (row * dim) (raw_values l)).

(** The column the array is. *)
Definition fsl_cell (l : FixedSizeListArray) (dim row : nat) (valid : bool) : option Value :=
  if valid then Some (VVec (vector_row l dim row)) else None.
Definition fsl_array (l : FixedSizeListArray) (item : Field) (dim : nat) : Array :=
  mkArray (FixedSizeList item (Z.of_nat dim)) (imap (fsl_cell l dim) (fsl_valid l)).

Lemma udf_slice_row l n dim row :
  vectors_ok l n dim → (row < n)%nat → udf_slice (raw_values l) l row (Z.of_nat dim) = Ok (vector_row l dim row).
Proof.
  intros [Hi Hs Hr Hv Ho] Hrow. destruct (raw_values_law l) as [Hlen _]. unfold udf_slice, slice, vector_row.
  rewrite value_offset_law, Hs by (rewrite Hs; nia). rewrite Z.max_r by lia.
  rewrite !(proj2 (Z.leb_le _ _)) by nia. cbn [andb]. do 2 f_equal; [lia|]. f_equal. lia.
Qed.

(** The query literal is one row, the query. *)
Lemma query_literal_ok query :
  query ≠ [] → Z.of_nat (length query) ≤ i32_max →
  ∃ l, query_literal query = SvFixedSizeList l ∧ vectors_ok l 1 (length query) ∧
    fsl_valid l = [true] ∧ vector_row l (length query) 0 = query.
Proof.
  intros Hne Hlen. unfold query_literal. rewrite (proj2 (Z.leb_le _ _)) by done.
  eexists. split; [done|]. set (l := mkFsl _ _ _ _). assert (fsl_valid l = [true]) as Hv by by destruct query.
  split_and!; [|done|].
  - split; [done|done|by rewrite Hv|cbn; rewrite length_fmap; lia|lia].
  - unfold vector_row. destruct (raw_values_law l) as [Hl Hx]. cbn [fsl_values l] in Hl, Hx. rewrite length_fmap in Hl.
    rewrite drop_0, take_ge by (rewrite Hl; done). apply list_eq_same_length with (length query); [done|done|].
    intros i x y Hi Hxi Hyi. specialize (Hx i y). rewrite list_lookup_fmap, Hyi in Hx. specialize (Hx eq_refl). congruence.
Qed.

(** ** Evaluation *)

Lemma float_values_ok l n dim : vectors_ok l n dim → float_values l = Ok (raw_values l, Z.of_nat dim).
Proof.
  intros [Hi Hs _ _ _]. unfold float_values. rewrite bool_decide_eq_true_2, Hs by done. cbn [negb].
  by rewrite (proj2 (Z.ltb_ge _ _)) by lia.
Qed.

Section Rows.
Context (l lq : FixedSizeListArray) (n : nat) (metric : DistanceMetric) (query : list f32).
Hypothesis l_ok : vectors_ok l n (length query).
Hypothesis lq_ok : vectors_ok lq 1 (length query).
Hypothesis lq_valid : fsl_valid lq = [true].
Hypothesis lq_row : vector_row lq (length query) 0 = query.

Definition expected_distance (row : nat) (valid : bool) : option f32 :=
  if valid then Some (distance metric (vector_row l (length query) row) query) else None.

Lemma distance_cases a b : (match metric with L2 => l2 a b | Cosine => cosine a b end) = distance metric a b.
Proof. by destruct metric. Qed.

Lemma udf_distance_row row valid :
  fsl_valid l !! row = Some valid →
  udf_distance metric l lq false true (raw_values l) (raw_values lq) (Z.of_nat (length query)) (Z.of_nat (length query)) row
  = Ok (expected_distance row valid) ∧
  udf_distance metric lq l true false (raw_values lq) (raw_values l) (Z.of_nat (length query)) (Z.of_nat (length query)) row
  = Ok (expected_distance row valid).
Proof.
  intros Hv. assert (row < n)%nat as Hrow.
  { rewrite <- (vo_rows _ _ _ l_ok). by eapply lookup_lt_Some. }
  unfold udf_distance, fsl_is_null, expected_distance. rewrite lq_valid, (index_Some _ _ _ Hv).
  rewrite (index_Some [true] 0 true eq_refl). cbn [mbind res_bind negb].
  rewrite (udf_slice_row lq 1), (udf_slice_row l n) by (done || lia).
  destruct valid; cbn [negb mbind res_bind]; [|done]. rewrite lq_row, !distance_cases. split; [done|].
  by rewrite (distance_symmetric metric query).
Qed.

Lemma mapM_valid (f : nat → df_result (option f32)) :
  (∀ row valid, fsl_valid l !! row = Some valid → f row = Ok (expected_distance row valid)) →
  mapM f (seq 0 n) = Ok (imap expected_distance (fsl_valid l)).
Proof.
  intros Hf. apply mapM_res_Ok, Forall2_same_length_lookup_2.
  { by rewrite length_seq, length_imap, (vo_rows _ _ _ l_ok). }
  intros i x y [-> Hi]%lookup_seq Hy. rewrite list_lookup_imap in Hy.
  destruct (fsl_valid l !! i) as [v|] eqn:Hv; [|done]. injection Hy as <-. by apply Hf.
Qed.

Lemma expected_column item :
  imap expected_distance (fsl_valid l) = cell_distance metric query <$> values (fsl_array l item (length query)).
Proof.
  apply list_eq. intros i. cbn. rewrite list_lookup_fmap, !list_lookup_imap.
  by destruct (fsl_valid l !! i) as [[]|].
Qed.
End Rows.

(** A vector column and a query literal, in either order. *)
Lemma invoke_distance_spec l n metric query item :
  query ≠ [] → vectors_ok l n (length query) → Z.of_nat (length query) ≤ i32_max →
  let out := CvArray (Float32Array_of (cell_distance metric query <$> values (fsl_array l item (length query)))) in
  invoke_distance metric [CvList l; CvScalar (query_literal query)] n = Ok out ∧
  invoke_distance metric [CvScalar (query_literal query); CvList l] n = Ok out.
Proof.
  intros Hne Hl Hq out. destruct (query_literal_ok query Hne Hq) as (lq & -> & Hlq & Hv & Hrow).
  unfold invoke_distance, fixed_size_list. cbn [mbind res_bind].
  rewrite (float_values_ok l n (length query)), (float_values_ok lq 1 (length query)) by done.
  cbn [mbind res_bind]. rewrite Z.eqb_refl. cbn [negb andb].
  split; (erewrite (mapM_valid l n metric query Hl);
    [cbn [mbind res_bind]; unfold out; by rewrite (expected_column l metric query item)|];
    intros row valid Hrv; by apply (udf_distance_row l lq n metric query)).
Qed.

(** a projection of [l2_distance] or [cosine_distance] over a vector column
    and a query literal, written in either order, computes exactly the column
    that the reference kernel appends for the lowered plan node: nulls, bits
    and all. *)
Theorem udf_is_the_kernel `{ArrowLaws} b ci l item n metric query name :
  batch_ok b → columns b !! ci = Some (fsl_array l item (length query)) → field_type_of item = Float32 →
  n = num_rows b → query ≠ [] → vectors_ok l n (length query) → Z.of_nat (length query) ≤ i32_max →
  ∃ d, vector_distance b ci query metric name
       = Ok (mkBatch (Schema_new (fields (schema b) ++ [Field_new name Float32 true]))
               (columns b ++ [Float32Array_of d]) n) ∧
    invoke_distance metric [CvList l; CvScalar (query_literal query)] n = Ok (CvArray (Float32Array_of d)) ∧
    invoke_distance metric [CvScalar (query_literal query); CvList l] n = Ok (CvArray (Float32Array_of d)).
Proof.
  intros Hb Hc Hitem -> Hne Hl Hq.
  exists (cell_distance metric query <$> values (fsl_array l item (length query))). split.
  - pose proof (vector_distance_cases b ci _ query metric name Hb Hc) as Hv. cbn [data_type fsl_array] in Hv.
    rewrite !decide_True in Hv by done. apply Hv.
  - by apply invoke_distance_spec.
Qed.

(** ** Coercion *)

(** Two vectors of one dimension, or an error; a [FixedSizeList] of [Float32]
    is left as it is. *)
Theorem coerce_types_spec arg_types :
  match coerce_types arg_types with
  | Ok out => ∃ dim, length out = 2%nat ∧
      Forall2 (λ dt t, ∃ f, t = FixedSizeList f dim ∧ field_type_of f = Float32 ∧
        match dt with FixedSizeList f' d => d = dim ∧ (field_type_of f' = Float32 → t = dt) | _ => True end) arg_types out
  | Err e => ∃ msg, e = DFPlan msg
  | Panic => False
  end.
Proof.
  unfold coerce_types. destruct (Nat.eqb_spec (length arg_types) 2) as [Hlen|]; cbn [negb]; [|by eexists].
  assert (∀ dt, match check_element dt with Ok _ => True | Err e => ∃ msg, e = DFPlan msg | Panic => False end) as Hcheck.
  { intros dt. unfold check_element. destruct (list_element dt) as [f|]; [|by eexists].
    cbn [ok_or mbind res_bind]. destruct (is_numeric _); [done|by eexists]. }
  assert (match mapM check_element arg_types with Ok _ => True | Err e => ∃ msg, e = DFPlan msg | Panic => False end) as Hall.
  { clear Hlen. induction arg_types as [|dt l IH]; [done|]. cbn. specialize (Hcheck dt).
    destruct (check_element dt); cbn; [|done|done]. by destruct (mapM check_element l). }
  destruct (mapM check_element arg_types) as [us|e|]; cbn; [|done|done].
  destruct (omap fixed_dimension arg_types) as [|dim dims] eqn:Hd; cbn; [by eexists|]. rewrite Z.eqb_refl. cbn.
  destruct (existsb _ dims) eqn:Hex; [by eexists|]. exists dim. split; [by rewrite length_fmap|].
  assert (∀ dt f d, dt ∈ arg_types → dt = FixedSizeList f d → d = dim) as Hdim.
  { intros dt f d Hdt ->. assert (d ∈ dim :: dims) as Hin.
    { rewrite <- Hd. apply list_elem_of_omap. by exists (FixedSizeList f d). }
    apply elem_of_cons in Hin as [->|Hin]; [done|].
    destruct (Z.eqb_spec d dim); [done|]. apply not_true_iff_false in Hex. exfalso. apply Hex, existsb_exists.
    exists d. split; [by apply list_elem_of_In|]. by rewrite (proj2 (Z.eqb_neq _ _)). }
  apply Forall2_fmap_r, Forall_Forall2_diag, Forall_forall. intros dt Hdt.
  destruct dt as [| | | | |f d|s]; try by exists (Field_new "item" Float32 true).
  rewrite (Hdim _ f d Hdt eq_refl). cbv beta iota delta [compose]. destruct (decide (field_type_of f = Float32)) as [Hf|Hf].
  - rewrite bool_decide_eq_true_2 by done. by exists f.
  - rewrite bool_decide_eq_false_2 by done. by exists (Field_new "item" Float32 true).
Qed.
End Udf.

(** ** Examples *)

Module UdfExample.
Import VectorExample.

(** A null slot holds zero, and offsets do not wrap. *)
#[local] Instance plain_lists : ListArrays := {|
  raw_values l := default f32_zero <$> fsl_values l;
  value_offset l row := Z.of_nat row * fsl_size l;
  other_list_item s := if decide (s = "List(Float64)") then Some (Field_new "item" Float64 true) else None;
  other_is_numeric s := false;
|}.
#[local] Instance plain_lists_laws : ListArraysLaws.
Proof.
  split; [|done]. intros l. cbn. split; [by rewrite length_fmap|]. intros i x Hx.
  by rewrite list_lookup_fmap, Hx.
Qed.

(** [(3, 4)] and null, as in [VectorExample]. *)
Definition points_list : FixedSizeListArray :=
  mkFsl Float32 2 [true; false] [Some (F32 0x40400000); Some (F32 0x40800000); None; None].

Lemma udf_is_the_kernel_witness :
  ∃ d, vector_distance points 0 [f32_zero; f32_zero] L2 "d"
       = Ok (mkBatch (Schema_new (fields (schema points) ++ [Field_new "d" Float32 true]))
               (columns points ++ [Float32Array_of d]) 2) ∧
    invoke_distance L2 [CvList points_list; CvScalar (query_literal [f32_zero; f32_zero])] 2 = Ok (CvArray (Float32Array_of d)) ∧
    invoke_distance L2 [CvScalar (query_literal [f32_zero; f32_zero]); CvList points_list] 2 = Ok (CvArray (Float32Array_of d)).
Proof.
  apply (udf_is_the_kernel points 0 points_list (Field_new "item" Float32 true) 2 L2 [f32_zero; f32_zero] "d");
    [apply (bool_decide_unpack _); vm_compute; exact I|reflexivity|reflexivity|reflexivity|done| |vm_compute; discriminate].
  split; vm_compute; (reflexivity || discriminate).
Defined.

(** A column of doubles is cast to the dimension of the other argument. *)
Example coerces_lists :
  coerce_types [OtherType "List(Float64)"; FixedSizeList (Field_new "item" Float32 false) 3]
  = Ok [FixedSizeList (Field_new "item" Float32 true) 3; FixedSizeList (Field_new "item" Float32 false) 3].
Proof. reflexivity. Qed.
End UdfExample.
