(* ===== verification/Predict.v ===== *)
(** * oxidelake-compute: the [predict] function of SQL

    Models [src/crates/oxidelake-compute/src/predict.rs]: which activation a
    model file has, the shapes of its layers, the process-wide model cache and
    the evaluation of a batch.  The tensor library (oxmera), the [safetensors]
    parser and the file system are operations of [Oxmera]; the cache with its
    mutex is explicit state, and the contents of the files may differ from call
    to call.  The properties are in [PredictCorrect]. *)

From Stdlib Require Import Ascii.
From S2P Require Import Prelude Floats Arrow Core Telemetry Memory ArrowKernels Kernels Device Operator Execs Planner Udf.

Definition PREDICT : string := "predict".
Definition ACTIVATION_KEY : string := "oxidelake.activation".

Definition exec (message : string) : DataFusionError := DFExecution message.

(** ** Activations *)

Inductive Activation := Relu | Gelu | Sigmoid | Tanh | NoActivation.
#[global] Instance Activation_EqDecision : EqDecision Activation.
Proof. solve_decision. Defined.
#[global] Instance Activation_Countable : Countable Activation.
Proof.
  refine (inj_countable' (λ a, match a with Relu => 0%nat | Gelu => 1%nat | Sigmoid => 2%nat | Tanh => 3%nat | NoActivation => 4%nat end)
    (λ n, match n with 0 => Relu | 1 => Gelu | 2 => Sigmoid | 3 => Tanh | _ => NoActivation end%nat) _).
  by intros [].
Defined.

Definition ALL_ACTIVATIONS : list Activation := [Relu; Gelu; Sigmoid; Tanh; NoActivation].

Definition activation_as_str (a : Activation) : string :=
  match a with
  | Relu => "relu" | Gelu => "gelu" | Sigmoid => "sigmoid" | Tanh => "tanh" | NoActivation => "none"
  end.

(** [[String]::join(", ")]. *)
Definition activation_names : string :=
  foldr (λ a s, match s with EmptyString => activation_as_str a | _ => activation_as_str a +:+ ", " +:+ s end) ""
        ALL_ACTIVATIONS.

Definition activation_parse (name : string) : df_result Activation :=
  ok_or (List.find (λ a, bool_decide (activation_as_str a = to_ascii_lowercase (str_trim name))) ALL_ACTIVATIONS)
        (exec ("unknown activation; expected one of " +:+ activation_names)).

(** ** Model files *)

(** The contents of the files, or the error of reading one. *)
Definition Files : Type := string → res string (list Z).

(** [oxmera] with tensors [T] and linear layers [L], and [safetensors]: the
    metadata map, and the tensors' names and shapes in the order the parser
    yields them. *)
Class Oxmera (T L : Type) := {
  tensor_from_vec : list f32 → nat → nat → res string T;
  tensor_to_vec : T → res string (list f32);
  tensor_relu : T → res string T;
  tensor_gelu : T → res string T;
  tensor_sigmoid : T → res string T;
  tensor_tanh : T → res string T;
  linear_new : nat → nat → nat → L;
  linear_forward : L → T → res string T;
  weights_load : Files → list L → string → res string (list L);
  safetensors_metadata : list Z → res string (option (gmap string string));
  safetensors_tensors : list Z → res string (list (string * list nat));
}.

(** [str::split_once]. *)
Fixpoint split_once (sep : ascii) (l : list ascii) : option (list ascii * list ascii) :=
  match l with
  | [] => None
  | c :: l => if Ascii.eqb c sep then Some ([], l) else (λ p, (c :: p.1, p.2)) <$> split_once sep l
  end.

Section Predict.
Context {T L : Type} `{!Oxmera T L}.

Definition activate (a : Activation) (x : T) : res string T :=
  match a with
  | Relu => tensor_relu x
  | Gelu => tensor_gelu x
  | Sigmoid => tensor_sigmoid x
  | Tanh => tensor_tanh x
  | NoActivation => Ok x
  end.

Definition declared_activation (bytes : list Z) : df_result (option Activation) :=
  metadata ← map_err (λ _, exec "not a safetensors file") (safetensors_metadata bytes);
  match entries ← metadata; (entries : gmap string string) !! ACTIVATION_KEY with
  | Some name => Some <$> map_err (λ _, exec "the declared activation is unknown") (activation_parse name)
  | None => Ok None
  end.

Definition resolve_activation (bytes : list Z) (asserted : option Activation) : df_result Activation :=
  declared ← declared_activation bytes;
  match declared, asserted with
  | Some d, Some a =>
      if decide (d = a) then Ok d else Err (exec "the file and the query name different activations")
  | Some d, None => Ok d
  | None, Some a => Ok a
  | None, None => Err (exec "the file does not declare its activation")
  end.

(** What one tensor says: layer index and [(in_features, out_features)]. *)
Definition layer_entry (t : string * list nat) : df_result (option (Z * (nat * nat))) :=
  match split_once "." (String.list_ascii_of_string t.1) with
  | Some (index, suffix) =>
      if negb (bool_decide (suffix = String.list_ascii_of_string "weight")) then Ok None
      else
        match parse_u64 index with
        | None => Ok None
        | Some i =>
            match t.2 with
            | [out_features; in_features] => Ok (Some (i, (in_features, out_features)))
            | _ => Err (exec "a weight has not two dimensions")
            end
        end
  | None => Ok None
  end.

Fixpoint collect_shapes (tensors : list (string * list nat)) (by_index : gmap Z (nat * nat)) :
    df_result (gmap Z (nat * nat)) :=
  match tensors with
  | [] => Ok by_index
  | t :: tensors =>
      e ← layer_entry t;
      collect_shapes tensors (match e with Some (i, s) => <[i := s]> by_index | None => by_index end)
  end.

(** The check over [windows(2)]. *)
Fixpoint check_composes (shapes : list (nat * nat)) : df_result unit :=
  match shapes with
  | (_, out) :: (((next_in, _) :: _) as rest) =>
      if (out =? next_in)%nat then check_composes rest
      else Err (exec "a layer produces a width the next one does not expect")
  | _ => Ok tt
  end.

Definition layer_shapes (bytes : list Z) : df_result (list (nat * nat)) :=
  tensors ← map_err (λ _, exec "not a safetensors file") (safetensors_tensors bytes);
  by_index ← collect_shapes tensors ∅;
  shapes ← mapM (λ i : nat, ok_or (by_index !! Z.of_nat i) (exec "layers are numbered with a gap"))
                (seq 0 (size by_index));
  _ ← check_composes shapes;
  Ok shapes.

(** ** Models *)

Record Model := mkModel {
  module : list L; in_features : nat; out_features : nat; activation : Activation }.

Fixpoint forward_layers (a : Activation) (last i : nat) (layers : list L) (x : T) : res string T :=
  match layers with
  | [] => Ok x
  | layer :: layers =>
      x ← linear_forward layer x;
      x ← if negb (i =? last)%nat then activate a x else Ok x;
      forward_layers a last (S i) layers x
  end.

Definition forward (m : Model) (input : T) : res string T :=
  forward_layers (activation m) (length (module m) - 1) 0 (module m) input.

Definition load (files : Files) (path : string) (asserted : option Activation) : df_result Model :=
  bytes ← map_err (λ _, exec "reading the model file") (files path);
  act ← resolve_activation bytes asserted;
  shapes ← layer_shapes bytes;
  match head shapes, last shapes with
  | Some (first_in, _), Some (_, last_out) =>
      let stack := imap (λ i s, linear_new s.1 s.2 i) shapes in
      stack ← map_err (λ _, exec "loading the weights") (weights_load files stack path);
      Ok (mkModel stack first_in last_out act)
  | _, _ => Err (exec "the file declares no weights")
  end.

(** The cache and whether a panic poisoned its mutex. The key is the path and
    the asserted activation ([ModelSpec]). *)
Record ModelCache := mkCache { models : gmap (string * option Activation) Model; poisoned : bool }.
Definition empty_cache : ModelCache := mkCache ∅ false.

(** [model]: the lock is held across the load. *)
Definition model (files : Files) (path : string) (spec : option Activation) (c : ModelCache) :
    ModelCache * df_result Model :=
  if poisoned c then (c, Err (exec "model cache poisoned"))
  else
    match models c !! (path, spec) with
    | Some found => (c, Ok found)
    | None =>
        match load files path spec with
        | Ok loaded => (mkCache (<[(path, spec) := loaded]> (models c)) false, Ok loaded)
        | Err e => (c, Err e)
        | Panic => (mkCache (models c) true, Panic)
        end
    end.

(** ** The function *)

Definition is_string (dt : DataType) : bool :=
  match dt with
  | Utf8 => true
  | OtherType s => bool_decide (s = "LargeUtf8") || bool_decide (s = "Utf8View")
  | _ => false
  end.

Definition predict_coerce_types (arg_types : list DataType) : df_result (list DataType) :=
  '(path, features, activation) ←
    match arg_types with
    | [path; features] => Ok (path, features, None)
    | [path; features; activation] => Ok (path, features, Some activation)
    | _ => Err (DFPlan "takes 2 or 3 arguments")
    end;
  if match activation with Some a => negb (is_string a) | None => false end
  then Err (DFPlan "the third argument is the activation as a string")
  else if negb (is_string path) then Err (DFPlan "the first argument is the model path as a string")
  else
    dim ← match features with
          | FixedSizeList _ n => Ok n
          | _ => Err (DFPlan "features must be a FixedSizeList")
          end;
    Ok ([Utf8; FixedSizeList (Field_new "item" Float32 true) dim]
        ++ match activation with Some _ => [Utf8] | None => [] end).

Definition constant_string (v : ColumnarValue) : option string :=
  match v with CvUtf8 (Some s) => Some s | _ => None end.

Definition model_path (v : ColumnarValue) : df_result string :=
  ok_or (constant_string v) (DFPlan "the model path must be a constant string").
Definition activation_argument (v : ColumnarValue) : df_result string :=
  ok_or (constant_string v) (DFPlan "the activation must be a constant string").

Definition feature_list (v : ColumnarValue) : df_result FixedSizeListArray := fst <$> fixed_size_list v.

Context `{!ListArrays}.

(** The checks are those of the distance functions, under another name. *)
Definition feature_values (l : FixedSizeListArray) : df_result (list f32 * Z) := float_values l.

(** One row of the input: its features, or zeros for a null. *)
Definition flat_row (l : FixedSizeListArray) (vals : list f32) (dim : Z) (row : nat) : df_result (list f32 * bool) :=
  null ← fsl_is_null l row;
  if (null : bool) then Ok (replicate (Z.to_nat dim) f32_zero, true)
  else v ← udf_slice vals l row dim; Ok (v, false).

(** One row of the output. *)
Definition output_row (out : list f32) (width row : nat) (is_null : bool) : df_result (option (list f32)) :=
  if is_null then Ok None
  else Some <$> slice out (Z.of_nat (row * width)) (Z.of_nat ((row + 1) * width)).

(** From the features on, with the model found. *)
Definition predict_batch (m : Model) (features : ColumnarValue) (rows : nat) : df_result ColumnarValue :=
  list ← feature_list features;
  '(vals, dim) ← feature_values list;
  if negb (dim =? Z.of_nat (in_features m)) then Err (exec "the model expects another number of features")
  else
    flat ← mapM (flat_row list vals dim) (seq 0 rows);
    input ← map_err (λ _, exec "building the input batch") (tensor_from_vec (concat (fst <$> flat)) rows (Z.to_nat dim));
    out ← map_err exec (forward m input);
    out ← map_err (λ _, exec "reading the output") (tensor_to_vec out);
    lists ← mapM (λ '(row, null), output_row out (out_features m) row null) (zip (seq 0 rows) (snd <$> flat));
    Ok (CvLists lists).

Definition predict_args (args : list ColumnarValue) : df_result (ColumnarValue * ColumnarValue * option ColumnarValue) :=
  match args with
  | [path; features] => Ok (path, features, None)
  | [path; features; activation] => Ok (path, features, Some activation)
  | _ => Err (exec "takes 2 or 3 arguments")
  end.

Definition invoke_predict (files : Files) (args : list ColumnarValue) (number_rows : nat) (c : ModelCache) :
    ModelCache * df_result ColumnarValue :=
  match (
    '(path, features, activation) ← predict_args args;
    path ← model_path path;
    activation ← match activation with
                 | Some v => s ← activation_argument v; Some <$> activation_parse s
                 | None => Ok None
                 end;
    Ok (path, features, activation))
  with
  | Ok (path, features, activation) =>
      let '(c, m) := model files path activation c in
      (c, m ← m; predict_batch m features number_rows)
  | Err e => (c, Err e)
  | Panic => (c, Panic)
  end.
End Predict.
Arguments Model : clear implicits.
Arguments ModelCache : clear implicits.
