(* ===== verification/PredictCorrect.v ===== *)
(** * [predict] runs the declared model on every row

    Properties of [Predict]: an activation is never guessed, a loaded model is a
    stack of layers whose widths fit, the cache answers a repeated question the
    same way whatever happened to the file, and evaluating a batch is evaluating
    the model row by row, with nulls passed through. *)

From Stdlib Require Import Ascii SpecFloat.
From S2P Require Import Prelude Floats Arrow Core Telemetry Memory ArrowKernels Kernels VectorCorrect Device.
From S2P Require Import Operator Execs Planner Udf Predict.

(** What [oxmera] documents: a tensor of this use is a matrix, the layers and the
    activations work on its rows. *)
Class OxmeraLaws (T L : Type) `{Oxmera T L} := {
  tensor_rows : T → list (list f32);
  linear_in : L → nat;
  linear_out : L → nat;
  linear_row : L → list f32 → list f32;
  activation_fn : Activation → f32 → f32;
  from_vec_law rows dim :
    rows ≠ [] → Forall (λ r : list f32, length r = dim) rows →
    ∃ t, tensor_from_vec (concat rows) (length rows) dim = Ok t ∧ tensor_rows t = rows;
  to_vec_law t : tensor_to_vec t = Ok (concat (tensor_rows t));
  linear_forward_law l t :
    tensor_rows t ≠ [] → Forall (λ r, length r = linear_in l) (tensor_rows t) →
    ∃ t', linear_forward l t = Ok t' ∧ tensor_rows t' = linear_row l <$> tensor_rows t;
  linear_row_length l r : length r = linear_in l → length (linear_row l r) = linear_out l;
  activate_law a t :
    a ≠ NoActivation → ∃ t', activate a t = Ok t' ∧ tensor_rows t' = (λ r : list f32, activation_fn a <$> r) <$> tensor_rows t;
  linear_new_law i o seed : linear_in (linear_new i o seed) = i ∧ linear_out (linear_new i o seed) = o;
  weights_load_law files stack path stack' :
    weights_load files stack path = Ok stack' →
    Forall2 (λ l l', linear_in l' = linear_in l ∧ linear_out l' = linear_out l) stack stack';
}.

Section Predict.
Context {T L : Type} `{OxmeraLaws T L}.
#[local] Abbreviation Model := (Model L).
#[local] Abbreviation ModelCache := (ModelCache L).

(** ** The activation *)

(** The activation is the declared one, and the asserted one where there is
    one; without either there is no answer. *)
Lemma resolve_activation_spec bytes asserted :
  match resolve_activation bytes asserted with
  | Ok a => ∃ declared, declared_activation bytes = Ok declared ∧
      (declared = Some a ∧ (asserted = None ∨ asserted = Some a) ∨ declared = None ∧ asserted = Some a)
  | Err _ => declared_activation bytes = Ok None ∧ asserted = None ∨
      (∃ d a, declared_activation bytes = Ok (Some d) ∧ asserted = Some a ∧ d ≠ a) ∨
      ∃ e, declared_activation bytes = Err e
  | Panic => declared_activation bytes = Panic
  end.
Proof.
  unfold resolve_activation. destruct (declared_activation bytes) as [[d|]|e|]; cbn.
  - destruct asserted as [a|]; [case_decide as Hda|]; [|by right; left; exists d, a|].
    + subst. exists (Some a). auto.
    + exists (Some d). auto.
  - destruct asserted as [a|]; [exists None; auto|auto].
  - right; right. by exists e.
  - done.
Qed.

(** A name is parsed whatever its case and the blanks around it, and only the
    five names are. *)
Lemma activation_parse_names a : activation_parse (activation_as_str a) = Ok a.
Proof. destruct a; vm_compute; reflexivity. Qed.

Lemma activation_parse_Ok name a :
  activation_parse name = Ok a → activation_as_str a = to_ascii_lowercase (str_trim name).
Proof.
  unfold activation_parse. intros Hp%ok_or_Ok_inv. apply List.find_some in Hp as [_ Hp].
  by apply bool_decide_eq_true in Hp.
Qed.

(** ** The layers *)

(** The widths of a stack fit. *)
Fixpoint widths_fit (shapes : list (nat * nat)) : Prop :=
  match shapes with
  | (_, out) :: (((next_in, _) :: _) as rest) => out = next_in ∧ widths_fit rest
  | _ => True
  end.

Lemma check_composes_spec shapes :
  match check_composes shapes with Ok _ => widths_fit shapes | Err _ => ¬ widths_fit shapes | Panic => False end.
Proof.
  induction shapes as [|[i o] [|[i' o'] rest] IH]; [done|done|].
  change (check_composes ((i, o) :: (i', o') :: rest)) with
    (if (o =? i')%nat then check_composes ((i', o') :: rest)
     else Err (exec "a layer produces a width the next one does not expect")).
  change (widths_fit ((i, o) :: (i', o') :: rest)) with (o = i' ∧ widths_fit ((i', o') :: rest)).
  destruct (Nat.eqb_spec o i'); [|tauto]. destruct (check_composes _); tauto.
Qed.

Lemma collect_shapes_Ok tensors m m' :
  collect_shapes tensors m = Ok m' →
  ∀ i s, m' !! i = Some s → m !! i = Some s ∨ ∃ t, t ∈ tensors ∧ layer_entry t = Ok (Some (i, s)).
Proof.
  revert m. induction tensors as [|t tensors IH]; intros m; cbn; [intros [= ->]; auto|].
  intros (e & He & Hc)%bind_Ok_inv i s Hi. destruct (IH _ Hc i s Hi) as [Hm|(t' & Ht' & Hl)].
  - destruct e as [[i' s']|]; [|by left].
    destruct (decide (i' = i)) as [->|Hne].
    + rewrite lookup_insert_eq in Hm. injection Hm as ->. right. exists t. split; [apply list_elem_of_here|done].
    + rewrite lookup_insert_ne in Hm by done. by left.
  - right. exists t'. split; [by apply list_elem_of_further|done].
Qed.

(** The shapes are the [N.weight] tensors of the file, numbered without a gap,
    and fit one another. *)
Lemma layer_shapes_Ok bytes shapes :
  layer_shapes bytes = Ok shapes →
  widths_fit shapes ∧ ∃ tensors, safetensors_tensors bytes = Ok tensors ∧
    ∀ i s, shapes !! i = Some s → ∃ t, t ∈ tensors ∧ layer_entry t = Ok (Some (Z.of_nat i, s)).
Proof.
  unfold layer_shapes. intros (tensors & Ht & (m & Hm & (sh & Hsh & (u & Hu & [= ->])%bind_Ok_inv)%bind_Ok_inv)%bind_Ok_inv)%bind_Ok_inv.
  pose proof (check_composes_spec shapes) as Hc. rewrite Hu in Hc. split; [done|].
  destruct (safetensors_tensors bytes) as [ts| |]; [|done|done]. injection Ht as ->. exists tensors. split; [done|].
  intros i s Hi. apply mapM_res_Ok in Hsh. destruct (Forall2_lookup_r _ _ _ _ _ Hsh Hi) as (j & [-> _]%lookup_seq & Hj).
  apply ok_or_Ok_inv in Hj. destruct (collect_shapes_Ok _ _ _ Hm _ _ Hj) as [Hj'|?]; [by rewrite lookup_empty in Hj'|done].
Qed.

(** A model whose layers fit. *)
Definition layer_shape (l : L) : nat * nat := (linear_in l, linear_out l).
Definition model_ok (m : Model) : Prop :=
  widths_fit (layer_shape <$> module m) ∧ (∃ l, head (module m) = Some l ∧ linear_in l = in_features m) ∧
  (∃ l, last (module m) = Some l ∧ linear_out l = out_features m).

Lemma load_Ok files path spec m :
  load files path spec = Ok m →
  model_ok m ∧ ∃ bytes, files path = Ok bytes ∧ resolve_activation bytes spec = Ok (activation m).
Proof.
  unfold load. intros (bytes & Hb & (act & Hact & (shapes & Hsh & Hm)%bind_Ok_inv)%bind_Ok_inv)%bind_Ok_inv.
  destruct (files path) as [bs| |] eqn:Hf; [|done|done]. injection Hb as ->.
  destruct (head shapes) as [[first_in fo]|] eqn:Hhead; [|done]. destruct (last shapes) as [[li last_out]|] eqn:Hlast; [|done].
  apply bind_Ok_inv in Hm as (stack & Hload & [= <-]). cbn.
  destruct (weights_load _ _ _) as [stack'| |] eqn:Hw; [|done|done]. injection Hload as ->.
  apply weights_load_law in Hw.
  assert (layer_shape <$> stack = shapes) as Hshapes.
  { apply list_eq_Forall2. clear -Hw. rewrite <- (list_fmap_id shapes). apply Forall2_fmap.
    apply Forall2_same_length_lookup_2.
    - apply Forall2_length in Hw. by rewrite length_imap in Hw.
    - intros i l s Hl Hs. destruct (Forall2_lookup_r _ _ _ _ _ Hw Hl) as (l0 & Hl0 & Hin & Hout).
      rewrite list_lookup_imap, Hs in Hl0. injection Hl0 as <-. destruct (linear_new_law s.1 s.2 i) as [E1 E2].
      unfold layer_shape. rewrite Hin, Hout, E1, E2. by destruct s. }
  apply layer_shapes_Ok in Hsh as [Hfit _]. split; [|by exists bytes].
  unfold model_ok. cbn. rewrite Hshapes. split; [done|]. rewrite <- Hshapes in Hhead, Hlast. split.
  - destruct stack as [|l stack]; [done|]. exists l. split; [done|]. by injection Hhead.
  - rewrite fmap_last in Hlast. destruct (last stack) as [l|]; [|done]. exists l. split; [done|]. by injection Hlast.
Qed.

(** ** A batch is its rows *)

(** The network on one row: the activation between the layers, none after the
    last. *)
Definition activate_row (a : Activation) (r : list f32) : list f32 :=
  if decide (a = NoActivation) then r else activation_fn a <$> r.

Fixpoint network (a : Activation) (layers : list L) (r : list f32) : list f32 :=
  match layers with
  | [] => r
  | [l] => linear_row l r
  | l :: layers => network a layers (activate_row a (linear_row l r))
  end.

Lemma activate_rows a t : ∃ t', activate a t = Ok t' ∧ tensor_rows t' = activate_row a <$> tensor_rows t.
Proof.
  unfold activate_row. case_decide as Ha; [subst; exists t; by rewrite list_fmap_id|]. by apply activate_law.
Qed.

Lemma forward_layers_rows a last i layers t l0 :
  last = (i + length layers - 1)%nat → head layers = Some l0 → widths_fit (layer_shape <$> layers) →
  tensor_rows t ≠ [] → Forall (λ r, length r = linear_in l0) (tensor_rows t) →
  ∃ t', forward_layers a last i layers t = Ok t' ∧ tensor_rows t' = network a layers <$> tensor_rows t ∧
    ∀ l, list.last layers = Some l → Forall (λ r, length r = linear_out l) (tensor_rows t').
Proof.
  revert i t l0. induction layers as [|l layers IH]; intros i t l0 Hlast; [done|]. intros [= <-] Hfit Hne Hlen.
  destruct (linear_forward_law l t Hne Hlen) as (t1 & Ht1 & Hr1). cbn [forward_layers]. rewrite Ht1. cbn [mbind res_bind].
  assert (Forall (λ r, length r = linear_out l) (tensor_rows t1)) as Hlen1.
  { rewrite Hr1. apply Forall_fmap. eapply Forall_impl; [exact Hlen|]. intros r Hr. by apply linear_row_length. }
  cbn [length] in Hlast. destruct layers as [|l' layers].
  - rewrite (proj2 (Nat.eqb_eq i last)) by (cbn in Hlast; lia). cbn. exists t1. split; [done|]. split; [done|].
    by intros ? [= <-].
  - rewrite (proj2 (Nat.eqb_neq i last)) by (cbn in Hlast; lia). cbn [negb].
    destruct (activate_rows a t1) as (t2 & -> & Hr2). cbn [mbind res_bind]. destruct Hfit as [Hw Hfit].
    destruct (IH (S i) t2 l') as (t' & -> & Hr' & Hl'); [lia|done|done| | |].
    + rewrite Hr2, Hr1. by destruct (tensor_rows t).
    + rewrite Hr2. apply Forall_fmap. eapply Forall_impl; [exact Hlen1|]. intros r Hr. cbn.
      rewrite <- Hw, <- Hr. unfold activate_row. case_decide; [done|apply length_fmap].
    + exists t'. split; [done|]. split; [|done]. rewrite Hr', Hr2, Hr1, <- !list_fmap_compose. done.
Qed.

Lemma forward_rows m t :
  model_ok m → tensor_rows t ≠ [] → Forall (λ r, length r = in_features m) (tensor_rows t) →
  ∃ t', forward m t = Ok t' ∧ tensor_rows t' = network (activation m) (module m) <$> tensor_rows t ∧
    Forall (λ r, length r = out_features m) (tensor_rows t').
Proof.
  intros (Hfit & (l0 & Hl0 & Hin) & (l1 & Hl1 & Hout)) Hne Hlen. rewrite <- Hin in Hlen.
  destruct (forward_layers_rows (activation m) (length (module m) - 1) 0 (module m) t l0) as (t' & Ht' & Hr & Hl); [lia|done..|].
  exists t'. split; [done|]. split; [done|]. rewrite <- Hout. by apply Hl.
Qed.

Context `{!ListArrays, !ListArraysLaws}.

(** The row a null is replaced with does not reach the output. *)
Definition input_row (l : FixedSizeListArray) (dim row : nat) (valid : bool) : list f32 :=
  if valid then vector_row l dim row else replicate dim f32_zero.
Definition predicted (m : Model) (l : FixedSizeListArray) (row : nat) (valid : bool) : option (list f32) :=
  if valid then Some (network (activation m) (module m) (vector_row l (in_features m) row)) else None.

Lemma length_vector_row l n dim row : vectors_ok l n dim → (row < n)%nat → length (vector_row l dim row) = dim.
Proof.
  intros Hl Hr. unfold vector_row. destruct (raw_values_law l) as [Hlen _]. destruct Hl as [_ _ _ Hv _].
  rewrite length_take, length_drop, Hlen, Hv. nia.
Qed.

Lemma flat_rows l n dim :
  vectors_ok l n dim →
  mapM (flat_row l (raw_values l) (Z.of_nat dim)) (seq 0 n)
  = Ok (imap (λ row valid, (input_row l dim row valid, negb valid)) (fsl_valid l)).
Proof.
  intros Hl. apply mapM_res_Ok, Forall2_same_length_lookup_2.
  { by rewrite length_seq, length_imap, (vo_rows _ _ _ Hl). }
  intros i x y [-> Hi]%lookup_seq Hy. rewrite list_lookup_imap in Hy. cbn [Nat.add].
  destruct (fsl_valid l !! i) as [v|] eqn:Hv; [|done]. injection Hy as <-.
  unfold flat_row, fsl_is_null. rewrite (index_Some _ _ _ Hv). cbn [mbind res_bind].
  destruct v; cbn [negb]; [|by rewrite Nat2Z.id]. by rewrite (udf_slice_row l n dim).
Qed.

Lemma output_rows (rows : list (list f32)) width valid :
  Forall (λ r, length r = width) rows → length rows = length valid →
  mapM (λ '(row, null), output_row (concat rows) width row null) (zip (seq 0 (length valid)) (negb <$> valid))
  = Ok (zip_with (λ (r : list f32) (v : bool), if v then Some r else None) rows valid).
Proof.
  intros Hw Hlen. apply mapM_res_Ok, Forall2_same_length_lookup_2.
  { rewrite length_zip_with, length_zip_with, length_seq, length_fmap. lia. }
  intros i [row null] o Hi Ho. apply lookup_zip_with_Some in Hi as (r & v & [= -> ->] & [-> Hi]%lookup_seq & Hv).
  rewrite list_lookup_fmap in Hv. destruct (valid !! i) as [b|] eqn:Hb; [|done]. injection Hv as <-.
  apply lookup_zip_with_Some in Ho as (r' & v' & -> & Hr & Hb'). rewrite Hb in Hb'. injection Hb' as <-.
  unfold output_row. destruct b; cbn [negb Nat.add]; [|done].
  assert (length (concat rows) = (length rows * width)%nat) as Hc.
  { by apply length_concat_rows. }
  apply lookup_lt_Some in Hr as Hir. unfold slice. rewrite !(proj2 (Z.leb_le _ _)) by nia. cbn [andb fmap res_fmap].
  do 2 f_equal. rewrite Nat2Z.id. replace (Z.to_nat _) with width by lia.
  rewrite <- (app_nil_r (concat rows)). by apply concat_row.
Qed.

Lemma predict_batch_rows m l n :
  model_ok m → vectors_ok l n (in_features m) → (0 < n)%nat →
  predict_batch m (CvList l) n = Ok (CvLists (imap (predicted m l) (fsl_valid l))).
Proof.
  intros Hm Hl Hn. unfold predict_batch, feature_list, fixed_size_list, feature_values. cbn [fmap res_fmap mbind res_bind fst].
  rewrite (float_values_ok l n (in_features m)) by done. cbn [mbind res_bind]. rewrite Z.eqb_refl. cbn [negb].
  rewrite (flat_rows l n) by done. cbn [mbind res_bind]. set (rows := imap (input_row l (in_features m)) (fsl_valid l)).
  assert (fst <$> imap (λ row valid, (input_row l (in_features m) row valid, negb valid)) (fsl_valid l) = rows) as ->.
  { unfold rows. apply list_eq. intros i. rewrite list_lookup_fmap, !list_lookup_imap. by destruct (fsl_valid l !! i). }
  assert (snd <$> imap (λ row valid, (input_row l (in_features m) row valid, negb valid)) (fsl_valid l) = negb <$> fsl_valid l) as ->.
  { apply list_eq. intros i. rewrite !list_lookup_fmap, !list_lookup_imap. by destruct (fsl_valid l !! i). }
  pose proof (vo_rows _ _ _ Hl) as Hlen.
  assert (length rows = n) as Hrl by (unfold rows; by rewrite length_imap).
  assert (rows ≠ []) as Hne by (intros E; rewrite E in Hrl; cbn in Hrl; lia).
  assert (Forall (λ r, length r = in_features m) rows) as Hw.
  { apply Forall_lookup_2. intros i r Hi. unfold rows in Hi. rewrite list_lookup_imap in Hi.
    destruct (fsl_valid l !! i) as [v|] eqn:Hv; [|done]. injection Hi as <-. apply lookup_lt_Some in Hv.
    destruct v; [apply (length_vector_row l n); [done|lia]|apply length_replicate]. }
  rewrite Nat2Z.id. destruct (from_vec_law rows (in_features m) Hne Hw) as (t & Ht & Hr). rewrite Hrl in Ht. rewrite Ht.
  cbn [map_err mbind res_bind]. rewrite <- Hr in Hne, Hw. destruct (forward_rows m t Hm Hne Hw) as (t' & -> & Hr' & Hw').
  cbn [map_err mbind res_bind]. rewrite to_vec_law. cbn [map_err mbind res_bind]. rewrite <- Hlen.
  rewrite (output_rows _ (out_features m)); [|done|]; [cbn [mbind res_bind]|rewrite Hr', length_fmap, Hr; lia].
  do 2 f_equal. rewrite Hr', Hr. apply list_eq. intros i. rewrite lookup_zip_with, list_lookup_fmap. unfold rows.
  rewrite !list_lookup_imap. destruct (fsl_valid l !! i) as [[]|]; done.
Qed.

(** ** The cache *)

(** A cached model was loaded from what its file held at some time. *)
Definition cache_ok (c : ModelCache) : Prop :=
  ∀ path spec m, models c !! (path, spec) = Some m → ∃ files, load files path spec = Ok m.

Lemma model_step files path spec c c' r :
  cache_ok c → model files path spec c = (c', r) →
  cache_ok c' ∧ models c ⊆ models c' ∧
  match r with
  | Ok m => models c' !! (path, spec) = Some m ∧ poisoned c = false ∧ poisoned c' = false
  | Err _ => c' = c ∧ (poisoned c = true ∨ models c !! (path, spec) = None ∧ ∃ e, load files path spec = Err e)
  | Panic => poisoned c' = true ∧ models c !! (path, spec) = None ∧ load files path spec = Panic
  end.
Proof.
  intros Hc. unfold model. destruct (poisoned c) eqn:Hp; [intros [= <- <-]; auto|].
  destruct (models c !! (path, spec)) as [m|] eqn:Hm; [intros [= <- <-]; auto|].
  destruct (load files path spec) as [m|e|] eqn:Hl; intros [= <- <-]; cbn.
  - split; [|split; [by apply insert_subseteq|by rewrite lookup_insert_eq]]. intros p s m'. cbn.
    destruct (decide ((path, spec) = (p, s))) as [[= <- <-]|Hne].
    + rewrite lookup_insert_eq. intros [= <-]. by exists files.
    + rewrite lookup_insert_ne by done. apply Hc.
  - split; [done|]. split; [done|]. split; [done|]. right. eauto.
  - auto.
Qed.

(** The calls of queries: what the files hold at that time, the arguments and
    the number of rows. *)
Record Call := { call_files : Files; call_args : list ColumnarValue; call_rows : nat }.
Definition invoke_call (c : ModelCache) (call : Call) : ModelCache :=
  (invoke_predict (call_files call) (call_args call) (call_rows call) c).1.
Definition after (calls : list Call) : ModelCache := foldl invoke_call empty_cache calls.

(** [invoke_predict] changes the cache only by [model]. *)
Lemma invoke_predict_cases files args rows c :
  (∃ path spec features,
     invoke_predict files args rows c
     = ((model files path spec c).1, m ← (model files path spec c).2; predict_batch m features rows)) ∨
  (∃ r, invoke_predict files args rows c = (c, r)).
Proof.
  unfold invoke_predict. set (question := mbind _ (predict_args args)).
  destruct question as [[[path features] spec]|e|]; [|by right; eexists..].
  left. exists path, spec, features. by destruct (model files path spec c).
Qed.

Lemma invoke_call_ok c call : cache_ok c → cache_ok (invoke_call c call) ∧ models c ⊆ models (invoke_call c call).
Proof.
  intros Hc. unfold invoke_call.
  destruct (invoke_predict_cases (call_files call) (call_args call) (call_rows call) c) as [(p & s & f & ->)|[r ->]]; [|done].
  cbn [fst]. destruct (model (call_files call) p s c) as [c' r] eqn:Hm. by destruct (model_step _ _ _ _ _ _ Hc Hm) as (? & ? & _).
Qed.

Lemma calls_ok calls c :
  cache_ok c → cache_ok (foldl invoke_call c calls) ∧ models c ⊆ models (foldl invoke_call c calls).
Proof.
  revert c. induction calls as [|call calls IH]; intros c Hc; [done|]. cbn.
  destruct (invoke_call_ok c call Hc) as [Hc' Hsub]. destruct (IH _ Hc') as [? ?].
  split; [done|by etrans].
Qed.

Lemma after_ok calls : cache_ok (after calls).
Proof. apply calls_ok. intros p s m. cbn. by rewrite lookup_empty. Qed.

(** ** The whole function *)

(** A call on a column of vectors, with a declared activation or none. *)
Definition activation_args (asserted : option Activation) : list ColumnarValue :=
  match asserted with Some a => [CvUtf8 (Some (activation_as_str a))] | None => [] end.
Definition predict_call (path : string) (l : FixedSizeListArray) (asserted : option Activation) : list ColumnarValue :=
  [CvUtf8 (Some path); CvList l] ++ activation_args asserted.

Lemma invoke_predict_call files path l asserted rows c :
  invoke_predict files (predict_call path l asserted) rows c
  = (let '(c', m) := model files path asserted c in (c', m ← m; predict_batch m (CvList l) rows)).
Proof.
  unfold invoke_predict, predict_call, activation_args. destruct asserted as [a|]; [|done].
  cbn [app predict_args mbind res_bind model_path activation_argument constant_string ok_or fmap res_fmap].
  by rewrite activation_parse_names.
Qed.

(** C15: in any session, whatever calls came before and whatever they did to
    the cache, a call on a column of vectors answers only with the outputs of a
    model for that question: one that was loaded from the file, whose widths
    compose, whose activation the file declares or the query asserts (and not
    two different ones), and which takes as many features as the column has.
    Every valid row is then the network applied to that row alone, every null
    stays null, and the model is the one every later call will use.  Otherwise
    there is an error, and it has one of three causes (a poisoned cache, a model
    that does not load, a model with another number of features); a panic comes
    from the loader. *)
Theorem predict_correct calls files path l asserted n dim c' r :
  vectors_ok l n dim → (0 < n)%nat →
  invoke_predict files (predict_call path l asserted) n (after calls) = (c', r) →
  match r with
  | Ok out =>
      ∃ m held bytes, model_ok m ∧ held path = Ok bytes ∧ load held path asserted = Ok m ∧
        resolve_activation bytes asserted = Ok (activation m) ∧ in_features m = dim ∧
        out = CvLists (imap (predicted m l) (fsl_valid l)) ∧
        ∀ later, models (foldl invoke_call c' later) !! (path, asserted) = Some m
  | Err _ =>
      poisoned (after calls) = true ∨
      (models (after calls) !! (path, asserted) = None ∧ ∃ e, load files path asserted = Err e) ∨
      ∃ m, models c' !! (path, asserted) = Some m ∧ in_features m ≠ dim
  | Panic => poisoned c' = true ∧ load files path asserted = Panic
  end.
Proof.
  intros Hl Hn. rewrite invoke_predict_call. pose proof (after_ok calls) as Hc.
  destruct (model files path asserted (after calls)) as [c1 q] eqn:Hm.
  destruct (model_step _ _ _ _ _ _ Hc Hm) as (Hc1 & Hsub & Hq). intros [= <- <-].
  destruct q as [m|e|]; cbn [mbind res_bind]; [|tauto..].
  destruct Hq as (Hmem & _ & _). destruct (Hc1 _ _ _ Hmem) as [held Hload].
  destruct (load_Ok _ _ _ _ Hload) as (Hmok & bytes & Hb & Hact).
  destruct (decide (in_features m = dim)) as [<-|Hne].
  - rewrite (predict_batch_rows m l n) by done. exists m, held, bytes. repeat split; try done; [by apply Hmok..|].
    intros later. destruct (calls_ok later c1 Hc1) as [_ Hs]. by eapply lookup_weaken.
  - unfold predict_batch, feature_list, fixed_size_list, feature_values. cbn [fmap res_fmap mbind res_bind fst].
    rewrite (float_values_ok l n dim) by done. cbn [mbind res_bind].
    rewrite (proj2 (Z.eqb_neq _ _)) by lia. cbn [negb]. right; right. by exists m.
Qed.
End Predict.

(** ** A concrete library *)

Module PredictExample.
Import VectorExample UdfExample.
#[local] Existing Instance plain_lists.
#[local] Existing Instance plain_lists_laws.

(** Matrices as lists of rows, layers that sum their inputs; the only file is
    two layers with a [relu] between them. The other activations change
    nothing. *)
Record Layer := { layer_in : nat; layer_out : nat }.
Definition sum_row (l : Layer) (r : list f32) : list f32 := replicate (layer_out l) (f32_sum r).
Definition rows_of (data : list f32) (rows dim : nat) : list (list f32) :=
  (λ i, take dim (drop (i * dim) data)) <$> seq 0 rows.
Definition relu (x : f32) : f32 := if SFltb (f32_sf x) (f32_sf f32_zero) then f32_zero else x.
Definition is_model (bytes : list Z) : bool := bool_decide (bytes = [1]).

#[local] Instance sums : Oxmera (list (list f32)) Layer := {|
  tensor_from_vec data rows dim := Ok (rows_of data rows dim);
  tensor_to_vec t := Ok (concat t);
  tensor_relu t := Ok ((λ r : list f32, relu <$> r) <$> t);
  tensor_gelu t := Ok t; tensor_sigmoid t := Ok t; tensor_tanh t := Ok t;
  linear_new i o _ := {| layer_in := i; layer_out := o |};
  linear_forward l t := Ok (sum_row l <$> t);
  weights_load files stack path := match files path with Ok _ => Ok stack | Err e => Err e | Panic => Panic end;
  safetensors_metadata bytes := if is_model bytes then Ok (Some {[ACTIVATION_KEY := " Relu "]}) else Err "no header";
  safetensors_tensors bytes :=
    if is_model bytes then Ok [("1.weight", [2; 3]%nat); ("0.bias", [3]%nat); ("0.weight", [3; 2]%nat)] else Err "no header";
|}.

#[local] Instance sums_laws : OxmeraLaws (list (list f32)) Layer.
Proof.
  refine {| tensor_rows t := t; linear_in := layer_in; linear_out := layer_out; linear_row := sum_row;
    activation_fn a := match a with Relu => relu | _ => id end |}.
  - intros rows dim _ Hw. exists rows. split; [|done]. cbn. f_equal. apply list_eq. intros i.
    unfold rows_of. rewrite list_lookup_fmap. destruct (decide (i < length rows)%nat) as [Hi|Hi].
    + rewrite lookup_seq_lt by lia. cbn. destruct (lookup_lt_is_Some_2 rows i Hi) as [r Hr]. rewrite Hr. f_equal.
      rewrite <- (app_nil_r (concat rows)). by apply concat_row.
    + rewrite lookup_seq_ge by lia. cbn. symmetry. apply lookup_ge_None. lia.
  - done.
  - intros l t _ _. by eexists.
  - intros l r _. apply length_replicate.
  - intros a t Ha. destruct a; cbn; [by eexists|..|done]; exists t; (split; [done|]);
      symmetry; rewrite <- (list_fmap_id t) at 2; apply list_fmap_ext; intros ???; apply list_fmap_id.
  - done.
  - intros files stack path stack'. cbn. destruct (files path); [|done..]. intros [= <-].
    by apply Forall_Forall2_diag, Forall_true.
Defined.

Definition model_file : Files := λ path, if decide (path = "net") then Ok [1] else Err "no such file".

(** [3 + 4], three times, summed twice: the second row is null. *)
Example predicts :
  (invoke_predict model_file (predict_call "net" points_list (Some Relu)) 2 empty_cache).2
  = Ok (CvLists [Some [F32 0x41A80000; F32 0x41A80000]; None]).
Proof. vm_compute. reflexivity. Qed.

(** Asserting another activation is refused, and so is a file without one. *)
Example asserts_otherwise :
  match (invoke_predict model_file (predict_call "net" points_list (Some Tanh)) 2 empty_cache).2 with Err _ => true | _ => false end.
Proof. vm_compute. exact I. Qed.

(** A constant feature vector is a list of one row: a batch of two rows reads
    past it. *)
Example constant_features_panic :
  (invoke_predict model_file [CvUtf8 (Some "net"); CvScalar (query_literal [f32_zero; f32_zero])] 2 empty_cache).2 = Panic.
Proof. vm_compute. reflexivity. Qed.

Lemma predict_correct_witness :
  let call := {| call_files := model_file; call_args := predict_call "net" points_list None; call_rows := 2 |} in
  let gone : Files := λ _, Err "no such file" in
  ∃ m held bytes, model_ok m ∧ held "net" = Ok bytes ∧ load held "net" None = Ok m ∧
    resolve_activation bytes None = Ok (activation m) ∧ in_features m = 2%nat ∧
    CvLists [Some [F32 0x41A80000; F32 0x41A80000]; None] = CvLists (imap (predicted m points_list) (fsl_valid points_list)) ∧
    ∀ later, models (foldl invoke_call (invoke_predict gone (predict_call "net" points_list None) 2 (after [call])).1 later)
      !! ("net", None) = Some m.
Proof.
  intros call gone.
  refine (predict_correct [call] gone "net" points_list None 2 2 _
    (Ok (CvLists [Some [F32 0x41A80000; F32 0x41A80000]; None])) _ _ _).
  - split; vm_compute; (reflexivity || discriminate).
  - lia.
  - vm_compute. reflexivity.
Defined.
End PredictExample.
