(* ===== verification/Encoding.v ===== *)
(** * Arrays as buffers

    The uploads take what [Array::to_data] gives them ([to_data_law]).  This is
    a function that satisfies the law: a value bitmap and the values one behind
    the other, nulls as zeros.  It serves the examples of the backends. *)

From S2P Require Import Prelude Floats Arrow Core Memory ArrowKernels Kernels Device Bytes Columns ColumnsCorrect.
From S2P Require Import CudaSpec CudaGather.

#[local] Arguments width : simpl never.

(** The bytes of one row. *)
Definition encode_value (dt : DataType) (o : option Value) : list Z :=
  match o with
  | Some (VInt z) => to_le_bytes 8 z
  | Some (VF64 f) => to_le_bytes 8 (f64_bits f)
  | Some (VF32 f) => to_le_bytes 4 (f32_bits f)
  | Some (VVec l) => concat ((λ f, to_le_bytes 4 (f32_bits f)) <$> l)
  | _ => replicate (width dt) 0
  end.

Definition encode_array (a : Array) : ArrayData :=
  let len := Z.of_nat (array_len a) in
  let nulls := Some ((λ o, bool_decide (is_Some o)) <$> values a) in
  let bytes := concat (encode_value (data_type a) <$> values a) in
  match data_type a with
  | FixedSizeList item size as dt => mkData dt len 0 nulls [] [mkData Float32 (len * size) 0 None [bytes] []]
  | dt => mkData dt len 0 nulls [bytes] []
  end.

Lemma encode_value_row dt v :
  resident dt → value_has_type dt v = true → value_fits v →
  length (encode_value dt (Some v)) = width dt ∧
  ∀ bytes i, cell (width dt) bytes i = encode_value dt (Some v) →
    match dt with
    | FixedSizeList _ size => VVec ((λ j, F32 (from_le_bytes (cell 4 bytes (i * Z.to_nat size + j)))) <$> seq 0 (Z.to_nat size))
    | _ => decode_value dt bytes i
    end = v.
Proof.
  intros Hres Hty Hfits. destruct dt as [| | | | |item size|]; try done; destruct v as [z|f|f|l|s|r]; try done; cbn in Hres.
  all: cbn [value_has_type value_fits encode_value] in *.
  - split; [apply length_to_le_bytes|]. intros bytes i Hc. cbn [decode_value]. change (width Int64) with 8%nat in Hc.
    apply bool_decide_eq_true in Hty. unfold i64_min, i64_max in Hty.
    rewrite Hc, from_to_le_bytes. change (2 ^ (8 * Z.of_nat 8)) with (2 ^ 64). f_equal. unfold i64_of_bits.
    pose proof (Z.div_mod z (2 ^ 64) ltac:(done)). pose proof (Z.mod_pos_bound z (2 ^ 64) ltac:(done)).
    destruct (Z.ltb_spec (z mod 2 ^ 64) (2 ^ 63)); nia.
  - split; [apply length_to_le_bytes|]. intros bytes i Hc. cbn [decode_value]. change (width Float64) with 8%nat in Hc.
    rewrite Hc, from_to_le_bytes, Z.mod_small by exact Hfits. by destruct f.
  - split; [apply length_to_le_bytes|]. intros bytes i Hc. cbn [decode_value]. change (width Float32) with 4%nat in Hc.
    rewrite Hc, from_to_le_bytes, Z.mod_small by exact Hfits. by destruct f.
  - apply andb_true_iff in Hty as [_ Hlen%bool_decide_eq_true]. rewrite width_vector by lia.
    assert (Forall (λ r, length r = 4%nat) ((λ f, to_le_bytes 4 (f32_bits f)) <$> l)) as Hrows.
    { apply Forall_fmap, Forall_true. intros; apply length_to_le_bytes. }
    split; [rewrite (length_concat_rows _ 4), length_fmap by done; lia|]. intros bytes i Hc. f_equal.
    apply list_eq. intros j. rewrite list_lookup_fmap. destruct (decide (j < length l)%nat) as [Hj|Hj].
    + rewrite lookup_seq_lt by lia. destruct (lookup_lt_is_Some_2 l j Hj) as [f Hf]. rewrite Hf.
      cbn [fmap option_fmap option_map Nat.add]. f_equal. rewrite <- cell_cell, Hc by lia. unfold cell. rewrite Nat.mul_comm.
      rewrite <- (app_nil_r (concat _)), (concat_row _ _ 4 j (to_le_bytes 4 (f32_bits f)));
        [|exact Hrows|by rewrite list_lookup_fmap, Hf].
      rewrite from_to_le_bytes, Z.mod_small by exact (Forall_lookup_1 _ _ _ _ Hfits Hf). by destruct f.
    + rewrite lookup_seq_ge by lia. by rewrite lookup_ge_None_2 by lia.
  - apply bool_decide_eq_true in Hty. by destruct Hres.
Qed.

(** Masking a function that decodes every row gives the values. *)
Lemma masked_values (a : Array) (f : nat → Value) :
  (∀ i v, values a !! i = Some (Some v) → f i = v) →
  masked (Some ((λ o, bool_decide (is_Some o)) <$> values a)) f (Z.of_nat (array_len a)) = values a.
Proof.
  intros Hf. unfold masked. rewrite Nat2Z.id. apply list_eq. intros i. rewrite list_lookup_fmap.
  destruct (decide (i < array_len a)%nat) as [Hi|Hi].
  - rewrite lookup_seq_lt by done. destruct (lookup_lt_is_Some_2 (values a) i Hi) as [o Ho].
    cbn [fmap option_fmap option_map Nat.add]. rewrite list_lookup_fmap, Ho. cbn [fmap option_fmap option_map default from_option id].
    destruct o as [v|]; [|done]. by rewrite (Hf i v).
  - rewrite lookup_seq_ge, lookup_ge_None_2 by (unfold array_len in *; lia). done.
Qed.

Section Array.
Context (a : Array).
Hypothesis a_uploadable : uploadable a.
Let w : nat := width (data_type a).
Let rows : list (list Z) := encode_value (data_type a) <$> values a.

Lemma encoded_row o :
  o ∈ values a → length (encode_value (data_type a) o) = w ∧
  ∀ v, o = Some v → value_has_type (data_type a) v = true ∧ value_fits v.
Proof.
  intros Ho. destruct a_uploadable as (Hres & Hok & Hfits & _). unfold array_ok in Hok. rewrite forallb_forall in Hok.
  pose proof (Hok o ltac:(by apply list_elem_of_In)) as Ht. rewrite Forall_forall in Hfits. pose proof (Hfits o Ho) as Hf.
  destruct o as [v|]; [|split; [apply length_replicate|done]].
  split; [by apply encode_value_row|]. by intros v' [= <-].
Qed.

Lemma rows_width : Forall (λ r, length r = w) rows.
Proof. apply Forall_fmap, Forall_forall. intros o Ho. by apply encoded_row. Qed.

Lemma length_rows : length (concat rows) = (array_len a * w)%nat.
Proof. rewrite (length_concat_rows _ w) by apply rows_width. unfold rows. by rewrite length_fmap. Qed.

Lemma row_cell i o : values a !! i = Some o → cell w (concat rows) i = encode_value (data_type a) o.
Proof.
  intros Ho. unfold cell. rewrite Nat.mul_comm, <- (app_nil_r (concat rows)).
  apply (concat_row _ _ w); [apply rows_width|]. unfold rows. by rewrite list_lookup_fmap, Ho.
Qed.

Lemma encode_array_ok :
  data_ok (encode_array a) ∧ to_array (encode_array a) = a ∧ ad_len (encode_array a) = Z.of_nat (array_len a).
Proof.
  pose proof a_uploadable as (Hres & _ & _ & Hlen & Hsize). pose proof length_rows as Hrows.
  assert (nulls_ok (encode_array a)) as Hnulls.
  { unfold encode_array. by destruct (data_type a); intros bits [= <-]; cbn; rewrite length_fmap. }
  assert (∀ i v, values a !! i = Some (Some v) → cell w (concat rows) i = encode_value (data_type a) (Some v) ∧
    value_has_type (data_type a) v = true ∧ value_fits v) as Hrow.
  { intros i v Hv. split; [by apply row_cell|]. by apply (encoded_row (Some v)); [eapply list_elem_of_lookup_2|]. }
  unfold data_ok. split_and!; [exact Hnulls| | |by unfold encode_array; destruct (data_type a)].
  - clear Hrow Hnulls. unfold encode_array, w, rows in *.
    destruct (data_type a) as [| | | | |item size|]; try done; cbn [ad_type].
    1-3: eexists; split; [done|]; split; [done|]; unfold window_ok; cbn [ad_offset ad_len]; rewrite Hrows;
      unfold width in *; cbn [row_bytes] in *; lia.
    cbn [ad_buffers ad_offset ad_len ad_children]. rewrite width_vector in * by (cbn in Hres; lia). destruct Hres as [Hitem Hsz].
    split_and!; [done|lia|lia|done|lia|lia|lia|].
    eexists. split_and!; [done|done|by intros bits [=]| |cbn [ad_len]; lia]. eexists. split_and!; [done|done|].
    unfold window_ok. cbn [ad_offset ad_len]. nia.
  - clear Hrows. subst w rows. unfold encode_array, to_array. destruct a as [dt vals]. cbn [data_type values] in *. unfold array_len in *. cbn [values] in *.
    assert (∀ i v, vals !! i = Some (Some v) →
      match dt with
      | FixedSizeList _ size => VVec ((λ j, F32 (from_le_bytes (cell 4 (concat (encode_value dt <$> vals)) (i * Z.to_nat size + j)))) <$> seq 0 (Z.to_nat size))
      | _ => decode_value dt (concat (encode_value dt <$> vals)) i
      end = v) as Hdec.
    { intros i v Hv. destruct (Hrow i v Hv) as (Hc & Ht & Hf). by apply (encode_value_row dt v Hres Ht Hf). }
    destruct dt as [| | | | |item size|]; try done; cbn [ad_type]; f_equal; unfold data_values; cbn [ad_type ad_nulls ad_len];
      apply (masked_values (mkArray Int64 vals)); intros i v Hv; cbn; by apply Hdec.
Qed.
End Array.

Lemma encode_array_law : to_data_law encode_array.
Proof. intros a Ha. by apply encode_array_ok. Qed.
