(* ===== verification/MetalKernels.v ===== *)
(** * oxidelake-device: the Metal kernels

    Models [src/crates/oxidelake-device/kernels/metal/{filter_project,
    vector_distance}.metal] thread by thread, and how a kernel finds its
    arguments: a dispatch binds buffers and scalars to positions, and a kernel
    reads the positions its parameters name in [[[buffer(k)]]].  A buffer is a
    list of bytes; a kernel sees it as the element type it declares, and an
    access outside of it is a fault ([None]).  SIMD-groups are the 32 threads
    the code assumes; the floating-point arithmetic is IEEE, with products fused
    as the compiler likes ([Fmad]), and [simd_sum] of floats adds in an order of
    its own ([SimdSum]).  The properties are in [MetalFilterCorrect] and
    [MetalVectorCorrect]. *)

From S2P Require Import Prelude Floats Arrow Core ArrowKernels Kernels Bytes Columns CudaKernels CudaVector.

(** ** Typed views of a buffer *)

(** A [device const uint*]: the words of the bytes. *)
Definition words32 (bytes : list Z) : list Z :=
  (λ i, from_le_bytes (cell 4 bytes i)) <$> seq 0 (length bytes / 4).
(** The bytes of words, and one word stored in a [device uint*]. *)
Definition le_words (l : list Z) : list Z := concat (to_le_bytes 4 <$> l).
Definition store_u32 (out : list Z) (i : nat) (v : Z) : option (list Z) :=
  store_range out (4 * i) (to_le_bytes 4 v).

(** ** SIMD-groups *)

Definition OXIDE_TG : nat := 256.
Definition SIMD : nat := 32.

(** The values of the lanes of SIMD-group [sg]. *)
Definition simd_lanes {A} (flags : list A) (sg : nat) : list A := take SIMD (drop (sg * SIMD) flags).

(** [simd_sum] and [simd_prefix_exclusive_sum] of [uint]. *)
Definition simd_sum (lanes : list Z) : Z := wrap32 (sumZ id lanes).
Definition simd_prefix_exclusive_sum (lanes : list Z) (lane : nat) : Z := simd_sum (take lane lanes).

(** [simd_sum] of [float]. *)
Class SimdSum := simd_sum_f32 : list f32 → f32.

(** ** filter_project.metal *)

(** [oxide_is_valid]: the bitmap, or all valid. *)
Definition msl_is_valid (validity : list Z) (has_validity : Z) (i : nat) : option bool :=
  if has_validity =? 0 then Some true
  else b ← validity !! (i / 8)%nat; Some (Z.testbit b (Z.of_nat (i mod 8))).

Definition msl_compare_i64 (values validity : list Z) (has_validity op literal : Z) (n : nat)
    (i : nat) (mask : list Z) : option (list Z) :=
  if (n <=? i)%nat then Some mask
  else
    valid ← msl_is_valid validity has_validity i;
    if negb valid then store mask i 0
    else v ← load_i64 values i; store mask i (Z.b2z (compare_i64 op v literal)).

Definition msl_mask_and (a b : list Z) (n : nat) (i : nat) (out : list Z) : option (list Z) :=
  if (n <=? i)%nat then Some out
  else x ← a !! i; y ← b !! i; store out i (Z.land x y).

(** The flags of the threads of threadgroup [gid]. *)
Definition group_flags (mask : list Z) (n gid : nat) : option (list Z) :=
  mapM (selected mask n) (seq (gid * OXIDE_TG) OXIDE_TG).

(** The order in which the SIMD-groups of a threadgroup reach the atomic. *)
Definition simd_order (turns : list nat) (gid : nat) : list nat :=
  order (OXIDE_TG / SIMD)
    ((λ t, (t mod OXIDE_TG / SIMD)%nat) <$> filter (λ t, t / OXIDE_TG = gid)%nat turns).

(** The threadgroup's [total] between the two barriers. *)
Definition group_total (turns : list nat) (gid : nat) (flags : list Z) : Z :=
  foldl (λ total sg, wrap32 (total + simd_sum (simd_lanes flags sg))) 0 (simd_order turns gid).

Definition msl_block_count (turns : list nat) (mask : list Z) (n : nat)
    (i : nat) (block_counts : list Z) : option (list Z) :=
  let gid := (i / OXIDE_TG)%nat in
  flags ← group_flags mask n gid;
  if (i mod OXIDE_TG =? 0)%nat then store_u32 block_counts gid (group_total turns gid flags) else Some block_counts.

(** [for (s = 0; s < sg; ++s) base += simd_totals[s]]. *)
Definition simd_base (flags : list Z) (sg : nat) : Z :=
  foldl (λ base s, wrap32 (base + simd_sum (simd_lanes flags s))) 0 (seq 0 sg).

Definition msl_scatter_indices (mask : list Z) (n : nat) (block_offsets : list Z)
    (i : nat) (out_indices : list Z) : option (list Z) :=
  let gid := (i / OXIDE_TG)%nat in
  let tid := (i mod OXIDE_TG)%nat in
  let sg := (tid / SIMD)%nat in
  flags ← group_flags mask n gid;
  flag ← flags !! tid;
  if flag =? 0 then Some out_indices
  else
    let local := simd_prefix_exclusive_sum (simd_lanes flags sg) (tid mod SIMD) in
    offset ← words32 block_offsets !! gid;
    store_u32 out_indices (Z.to_nat (wrap32 (wrap32 (offset + simd_base flags sg) + local))) (Z.of_nat i).

(** The copy loop, byte by byte. *)
Definition msl_gather_fixed (src : list Z) (width : nat) (indices : list Z) (n_out : nat)
    (j : nat) (dst : list Z) : option (list Z) :=
  if (n_out <=? j)%nat then Some dst
  else
    i ← words32 indices !! j;
    copy_words src (Z.to_nat i * width) (j * width) 1 width dst.

Definition msl_gather_bit (src_validity : list Z) (has_validity : Z) (indices : list Z) (n_out byte : nat)
    (out : Z) (bit : nat) : option Z :=
  let j := (byte * 8 + bit)%nat in
  if (n_out <=? j)%nat then Some out
  else
    i ← words32 indices !! j;
    valid ← msl_is_valid src_validity has_validity (Z.to_nat i);
    Some (if (valid : bool) then Z.lor out (Z.shiftl 1 (Z.of_nat bit)) else out).

(** [n_bytes] is computed in 32 bits. *)
Definition msl_gather_validity (src_validity : list Z) (has_validity : Z) (indices : list Z) (n_out : nat)
    (byte : nat) (dst_validity : list Z) : option (list Z) :=
  let n_bytes := wrap32 (Z.of_nat n_out + 7) / 8 in
  if n_bytes <=? Z.of_nat byte then Some dst_validity
  else
    out ← foldl (λ (o : option Z) bit, o ≫= λ o, msl_gather_bit src_validity has_validity indices n_out byte o bit)
            (Some 0) (seq 0 8);
    store dst_validity byte out.

(** ** vector_distance.metal *)

Section Distance.
Context `{!Fmad, !SimdSum}.

(** What lane 0 writes, from the partial sums of its SIMD-group. *)
Definition simd_result (metric : Z) (lanes : list Partial) : f32 :=
  if metric =? 0 then f32_sqrt (simd_sum_f32 (p_dist <$> lanes))
  else
    let na := f32_sqrt (simd_sum_f32 (p_nv <$> lanes)) in
    let nb := f32_sqrt (simd_sum_f32 (p_nq <$> lanes)) in
    if f32_eqb na f32_zero || f32_eqb nb f32_zero then F32 0x7fc00000
    else f32_sub f32_one (f32_div (simd_sum_f32 (p_dot <$> lanes)) (f32_mul na nb)).

(** A lane strides over the dimensions as in the CUDA kernel; the query is a
    [device const float*]. The thread's position in the grid is a [uint]. *)
Definition msl_vec_distance (vectors validity : list Z) (has_validity : Z) (n dim : nat) (query : list Z)
    (metric : Z) (tid : nat) (out : list Z) : option (list Z) :=
  let tid := Z.to_nat (wrap32 (Z.of_nat tid)) in
  let lane := (tid mod SIMD)%nat in
  let row := (tid / SIMD)%nat in
  if (n <=? row)%nat then Some out
  else
    valid ← msl_is_valid validity has_validity row;
    if negb valid then (if (lane =? 0)%nat then store_f32 out row f32_zero else Some out)
    else
      lanes ← mapM (lane_loop metric vectors (words32 query) dim row) (seq 0 SIMD);
      if (lane =? 0)%nat then store_f32 out row (simd_result metric lanes) else Some out.

(** ** Arguments *)

Inductive Scalar := ScU32 (v : Z) | ScI32 (v : Z) | ScI64 (v : Z).
(** What a dispatch binds to a position, and what the kernel finds there. *)
Inductive Arg := ArgBuffer (buffer : nat) | ArgScalar (s : Scalar).
Inductive ArgValue := Bytes (content : list Z) | Constant (s : Scalar).

Inductive MetalKernel :=
  | KCompareI64 | KMaskAnd | KBlockCount | KScatterIndices | KGatherFixed | KGatherValidity | KVecDistance.

(** The embedded sources, named by their files, and their kernels. *)
Definition METAL_FILTER_PROJECT_SRC : string := "kernels/metal/filter_project.metal".
Definition METAL_VECTOR_DISTANCE_SRC : string := "kernels/metal/vector_distance.metal".

Definition kernel_named (source function : string) : option MetalKernel :=
  if bool_decide (source = METAL_FILTER_PROJECT_SRC) then
    if bool_decide (function = "oxide_compare_i64") then Some KCompareI64
    else if bool_decide (function = "oxide_mask_and") then Some KMaskAnd
    else if bool_decide (function = "oxide_block_count") then Some KBlockCount
    else if bool_decide (function = "oxide_scatter_indices") then Some KScatterIndices
    else if bool_decide (function = "oxide_gather_fixed") then Some KGatherFixed
    else if bool_decide (function = "oxide_gather_validity") then Some KGatherValidity
    else None
  else if bool_decide (source = METAL_VECTOR_DISTANCE_SRC) then
    if bool_decide (function = "oxide_vec_distance") then Some KVecDistance else None
  else None.

(** The position of the buffer a kernel writes; its other buffers are [const]. *)
Definition kernel_out (k : MetalKernel) : nat :=
  match k with
  | KCompareI64 => 5 | KMaskAnd => 2 | KBlockCount => 2 | KScatterIndices => 3 | KGatherFixed => 4
  | KGatherValidity => 4 | KVecDistance => 7
  end%nat.

(** The kernel on the arguments it finds at its positions. *)
Definition run_kernel (k : MetalKernel) (threads : nat) (turns : list nat) (args : list ArgValue)
    (out : list Z) : option (list Z) :=
  match k, args with
  | KCompareI64, [Bytes values; Bytes validity; Constant (ScU32 has); Constant (ScI32 op); Constant (ScI64 literal); _;
                  Constant (ScU32 n)] =>
      launch threads turns (msl_compare_i64 values validity has op literal (Z.to_nat n)) out
  | KMaskAnd, [Bytes a; Bytes b; _; Constant (ScU32 n)] =>
      launch threads turns (msl_mask_and a b (Z.to_nat n)) out
  | KBlockCount, [Bytes mask; Constant (ScU32 n); _] =>
      launch threads turns (msl_block_count turns mask (Z.to_nat n)) out
  | KScatterIndices, [Bytes mask; Constant (ScU32 n); Bytes offsets; _] =>
      launch threads turns (msl_scatter_indices mask (Z.to_nat n) offsets) out
  | KGatherFixed, [Bytes src; Constant (ScU32 width); Bytes indices; Constant (ScU32 n_out); _] =>
      launch threads turns (msl_gather_fixed src (Z.to_nat width) indices (Z.to_nat n_out)) out
  | KGatherValidity, [Bytes src; Constant (ScU32 has); Bytes indices; Constant (ScU32 n_out); _] =>
      launch threads turns (msl_gather_validity src has indices (Z.to_nat n_out)) out
  | KVecDistance, [Bytes vectors; Bytes validity; Constant (ScU32 has); Constant (ScU32 n); Constant (ScU32 dim);
                   Bytes query; Constant (ScI32 metric); _] =>
      launch threads turns
        (msl_vec_distance vectors validity has (Z.to_nat n) (Z.to_nat dim) query metric) out
  | _, _ => None
  end.
End Distance.
