(* ===== verification/Metal.v ===== *)
(** * oxidelake-device: the Metal backend

    Models [src/crates/oxidelake-device/src/metal.rs] and the shared buffers of
    [src/crates/oxidelake-memory/src/metal.rs].  Host and device share one
    memory ([mt_memory], a map from allocations to bytes), which columns refer
    to and downloaded arrays alias.  A dispatch is only encoded into a pass; the
    kernels of [MetalKernels] run on the shared memory when the pass is
    committed, in the order of their encoding, each on any order of its threads.
    The Metal runtime is the operations of [MetalApi] over an abstract state:
    each call may fail, and a new allocation holds anything.  Device code that
    leaves its buffers, or a host access to an allocation that does not exist,
    would be undefined behaviour and is the outcome [Panic].  Allocations are
    reference-counted in the source; the model keeps them.  The properties are
    in [MetalSpec], [MetalFilterCorrect] and [MetalVectorCorrect]. *)

From S2P Require Import Prelude Floats Arrow Core Memory ArrowKernels Kernels Device Bytes Columns CudaKernels.
From S2P Require Import Cuda CudaVector MetalKernels.

Abbreviation Mem := (gmap nat (list Z)).

(** The Metal runtime. An error is its message. *)
Class MetalApi (D : Type) := {
  mtl_system_default_device : option D;
  mtl_new_queue : D → D * option nat;
  (** the contents of a new shared allocation *)
  mtl_new_buffer : D → nat → D * option (list Z);
  mtl_new_library : D → string → D * (string + nat);
  mtl_new_function : D → nat → string → D * option nat;
  mtl_new_pipeline : D → nat → D * (string + nat);
  mtl_command_buffer : D → nat → D * bool;
  mtl_compute_encoder : D → D * bool;
  (** the turns of the threads of each dispatch, and the command buffer's error *)
  mtl_commit : D → nat → D * (list (list nat) * option string);
  mtl_max_working_set : D → Z;
  mtl_allocated : D → Z;
}.

(** A compiled library, and a pipeline with the kernel it was built from. *)
Record Library := mkLibrary { lib_handle : nat; lib_source : string }.
Record Pipeline := mkPipeline { pl_state : nat; pl_source : string; pl_function : string }.

Record MetalState (D : Type) := mkMetal {
  mt_device : D;
  mt_memory : Mem;
  (** no allocation has this number or a later one *)
  mt_next : nat;
  mt_libraries : gmap string Library;
  mt_pipelines : gmap (string * string) Pipeline;
  mt_queues : list nat;
  mt_next_queue : Z;
  mt_dummy : MetalSharedBuffer;
}.
Arguments mkMetal {D}. Arguments mt_device {D}. Arguments mt_memory {D}. Arguments mt_next {D}.
Arguments mt_libraries {D}. Arguments mt_pipelines {D}. Arguments mt_queues {D}. Arguments mt_next_queue {D}.
Arguments mt_dummy {D}.

Definition ns_error (msg : string) : EngineError := Device Metal msg.
Definition metal_foreign (what : string) (backend : BackendKind) : EngineError :=
  Device Metal (what +:+ " belongs to the " +:+ as_str backend +:+ " backend, not the Metal backend").

Definition TG : nat := 256.
Definition QUEUE_POOL : nat := 4.

Definition metal_device_bytes (b : MetalBatch) : Z :=
  sumZ (λ c, Z.of_nat (ms_len (mc_values c) + match mc_validity c with Some v => ms_len v | None => 0 end))
       (mbt_columns b).

(** ** Passes *)

(** One encoded dispatch of [dp_groups] threadgroups of [TG] threads. *)
Record Dispatch := mkDispatch { dp_pipeline : Pipeline; dp_args : list Arg; dp_groups : nat }.
Definition Pass : Type := list Dispatch.

Definition dispatch (pass : Pass) (pipeline : Pipeline) (args : list Arg) (groups : nat) : Pass :=
  pass ++ [mkDispatch pipeline args (Nat.max groups 1)].

Section Execution.
Context `{!Fmad, !SimdSum}.

Definition arg_value (m : Mem) (a : Arg) : option ArgValue :=
  match a with
  | ArgBuffer b => Bytes <$> m !! b
  | ArgScalar s => Some (Constant s)
  end.

(** A buffer that is written is bound to no other position: its threads would
    race with the reads. *)
Definition bound_once (out : nat) (args : list Arg) : bool :=
  (length (List.filter (λ a, match a with ArgBuffer b => b =? out | ArgScalar _ => false end) args) =? 1)%nat.

Definition run_dispatch (turns : list nat) (d : Dispatch) (m : Mem) : option Mem :=
  k ← kernel_named (pl_source (dp_pipeline d)) (pl_function (dp_pipeline d));
  match dp_args d !! kernel_out k with
  | Some (ArgBuffer out) =>
      if bound_once out (dp_args d) then
        values ← mapM (arg_value m) (dp_args d);
        content ← m !! out;
        content ← run_kernel k (dp_groups d * TG) turns values content;
        Some (<[out := content]> m)
      else None
  | _ => None
  end.

(** The dispatches of a pass, with the turns of each. *)
Fixpoint run_pass (pass : Pass) (turns : list (list nat)) (m : Mem) : option Mem :=
  match pass with
  | [] => Some m
  | d :: pass => m ← run_dispatch (default [] (head turns)) d m; run_pass pass (tail turns) m
  end.
End Execution.

Section Metal.
Context {D : Type} `{!MetalApi D, !Fmad, !SimdSum}.

(** A computation on the backend. *)
Definition Mt (A : Type) : Type := MetalState D → MetalState D * result A.
Definition mt_ret {A} (a : A) : Mt A := λ c, (c, Ok a).
Definition mt_lift {A} (r : result A) : Mt A := λ c, (c, r).
Definition mt_bind {A B} (m : Mt A) (f : A → Mt B) : Mt B := λ c,
  match m c with
  | (c, Ok a) => f a c
  | (c, Err e) => (c, Err e)
  | (c, Panic) => (c, Panic)
  end.
Notation "'mt!' x ':=' m 'in' k" := (mt_bind m (λ x, k))
  (at level 200, x pattern, m at level 100, k at level 200, only parsing).

Fixpoint mt_mapM {A B} (f : A → Mt B) (l : list A) : Mt (list B) :=
  match l with
  | [] => mt_ret []
  | a :: l => mt! b := f a in mt! bs := mt_mapM f l in mt_ret (b :: bs)
  end.

Definition set_device (c : MetalState D) (d : D) : MetalState D :=
  mkMetal d (mt_memory c) (mt_next c) (mt_libraries c) (mt_pipelines c) (mt_queues c) (mt_next_queue c) (mt_dummy c).
Definition set_memory (c : MetalState D) (m : Mem) : MetalState D :=
  mkMetal (mt_device c) m (mt_next c) (mt_libraries c) (mt_pipelines c) (mt_queues c) (mt_next_queue c) (mt_dummy c).

(** A call that may return nothing. *)
Definition mt_call {A} (f : D → D * option A) (e : EngineError) : Mt A := λ c,
  let '(d, r) := f (mt_device c) in (set_device c d, ok_or r e).
Definition mt_try {A} (f : D → D * (string + A)) : Mt A := λ c,
  let '(d, r) := f (mt_device c) in
  (set_device c d, match r with inl msg => Err (ns_error msg) | inr a => Ok a end).
Definition mt_check (f : D → D * bool) (e : EngineError) : Mt unit :=
  mt_call (λ d, let '(d, b) := f d in (d, if b then Some tt else None)) e.

(** ** Shared buffers ([oxidelake-memory/src/metal.rs]) *)

Definition mt_insert (content : list Z) : Mt nat := λ c,
  (mkMetal (mt_device c) (<[mt_next c := content]> (mt_memory c)) (S (mt_next c)) (mt_libraries c) (mt_pipelines c)
     (mt_queues c) (mt_next_queue c) (mt_dummy c), Ok (mt_next c)).

Definition shared_new_uninit (len : nat) : Mt MetalSharedBuffer :=
  mt! content := mt_call (λ d, mtl_new_buffer d (Nat.max len 1))
                   (Allocation (Z.of_nat len) HOST_ALIGN "MTLDevice returned no buffer") in
  mt! buffer := mt_insert content in
  mt_ret (mkShared buffer len).

Definition shared_as_slice (b : MetalSharedBuffer) : Mt (list Z) := λ c,
  (c, match mt_memory c !! ms_buffer b with
      | Some content => if (ms_len b <=? length content)%nat then Ok (take (ms_len b) content) else Panic
      | None => Panic
      end).

(** [as_mut_slice()[..bytes.len()].copy_from_slice(bytes)]. *)
Definition shared_write_prefix (b : MetalSharedBuffer) (bytes : list Z) : Mt unit := λ c,
  match mt_memory c !! ms_buffer b with
  | Some content =>
      if (length bytes <=? ms_len b)%nat && (ms_len b <=? length content)%nat
      then (set_memory c (<[ms_buffer b := bytes ++ drop (length bytes) content]> (mt_memory c)), Ok tt)
      else (c, Panic)
  | None => (c, Panic)
  end.

Definition shared_new (len : nat) : Mt MetalSharedBuffer :=
  mt! b := shared_new_uninit len in
  mt! _ := shared_write_prefix b (replicate len 0) in
  mt_ret b.

Definition shared_from_bytes (bytes : list Z) : Mt MetalSharedBuffer :=
  mt! b := shared_new_uninit (length bytes) in
  mt! _ := shared_write_prefix b bytes in
  mt_ret b.

(** The loop over [as_chunks_mut::<4>] zipped with words. *)
Definition shared_write_words (b : MetalSharedBuffer) (words : list Z) : Mt unit :=
  shared_write_prefix b (le_words (take (ms_len b / 4) words)).

(** ** Libraries and pipelines *)

Definition mt_cache_library (name : string) (l : Library) : Mt Library := λ c,
  (mkMetal (mt_device c) (mt_memory c) (mt_next c) (<[name := l]> (mt_libraries c)) (mt_pipelines c) (mt_queues c)
     (mt_next_queue c) (mt_dummy c), Ok l).
Definition mt_cache_pipeline (key : string * string) (p : Pipeline) : Mt Pipeline := λ c,
  (mkMetal (mt_device c) (mt_memory c) (mt_next c) (mt_libraries c) (<[key := p]> (mt_pipelines c)) (mt_queues c)
     (mt_next_queue c) (mt_dummy c), Ok p).

Definition metal_library (name source : string) : Mt Library := λ c,
  match mt_libraries c !! name with
  | Some lib => (c, Ok lib)
  | None =>
      (mt! handle := mt_try (λ d, mtl_new_library d source) in
       mt_cache_library name (mkLibrary handle source)) c
  end.

Definition metal_pipeline (name source function : string) : Mt Pipeline := λ c,
  match mt_pipelines c !! (name, function) with
  | Some pso => (c, Ok pso)
  | None =>
      (mt! lib := metal_library name source in
       mt! func := mt_call (λ d, mtl_new_function d (lib_handle lib) function)
                     (Device Metal ("kernel '" +:+ function +:+ "' not found in library '" +:+ name +:+ "'")) in
       mt! pso := mt_try (λ d, mtl_new_pipeline d func) in
       mt_cache_pipeline (name, function) (mkPipeline pso (lib_source lib) function)) c
  end.

Definition metal_queue (s : DeviceStream) : result nat :=
  match ds_inner s with
  | StreamMetal q => Ok q
  | _ => Err (metal_foreign "stream" (ds_backend s))
  end.

(** [alloc]. *)
Definition metal_alloc (bytes : nat) : Mt MetalSharedBuffer := shared_new_uninit bytes.

(** ** Columns *)

Definition metal_upload_column (c : ColumnBytes) : Mt MetalColumn :=
  mt! values := shared_from_bytes (cb_values c) in
  mt! validity := match cb_validity c with
                  | Some bits => mt! b := shared_from_bytes bits in mt_ret (Some b)
                  | None => mt_ret None
                  end in
  mt_ret (mkMetalColumn (cb_type c) (Z.to_nat (cb_len c)) (Z.to_nat (cb_child_len c)) (length (cb_values c))
            values validity).

(** [view]: an array aliases the first [len] bytes; this is what it shows. *)
Definition metal_view (b : MetalSharedBuffer) (len : nat) : Mt (list Z) :=
  let len := Nat.min len (ms_len b) in
  mt! slice := shared_as_slice b in mt_ret (take len slice).

Definition metal_download_column (c : MetalColumn) : Mt ColumnBytes :=
  mt! values := metal_view (mc_values c) (mc_values_len c) in
  mt! validity := match mc_validity c with
                  | Some v => mt! b := metal_view v (bitmap_len (mc_len c)) in mt_ret (Some b)
                  | None => mt_ret None
                  end in
  mt_ret (mkColumnBytes (mc_type c) (Z.of_nat (mc_len c)) values validity (Z.of_nat (mc_child_len c))).

Definition metal_batch (d : DeviceBatch) : result MetalBatch :=
  match db_inner d with
  | BatchMetal b => Ok b
  | _ => Err (metal_foreign "batch" (db_backend d))
  end.

Definition metal_column (b : MetalBatch) (index : nat) : result MetalColumn :=
  ok_or (mbt_columns b !! index) (Plan "column index out of range for a batch").

(** [u32_len] and [exclusive_scan] are the functions of [Cuda]: both files define them alike. *)
Fixpoint all_int64_leaves (p : Predicate) : bool :=
  match p with
  | Compare _ _ literal => match literal with LInt64 _ => true | _ => false end
  | And l r => all_int64_leaves l && all_int64_leaves r
  end.

(** ** Encoding *)

Definition pass_begin (queue : nat) : Mt Pass :=
  mt! _ := mt_check (λ d, mtl_command_buffer d queue) (Device Metal "could not create a command buffer") in
  mt! _ := mt_check mtl_compute_encoder (Device Metal "could not create a compute encoder") in
  mt_ret [].

(** The pass runs, and then its error is looked at. *)
Definition pass_finish (pass : Pass) : Mt unit := λ c,
  let '(d, (turns, error)) := mtl_commit (mt_device c) (length pass) in
  let c := set_device c d in
  match run_pass pass turns (mt_memory c) with
  | Some m => (set_memory c m, match error with Some msg => Err (ns_error msg) | None => Ok tt end)
  | None => (c, Panic)
  end.

Definition raw (b : MetalSharedBuffer) : Arg := ArgBuffer (ms_buffer b).
Definition u32_arg (n : nat) : Arg := ArgScalar (ScU32 (Z.of_nat n)).

Definition validity_args (dummy : MetalSharedBuffer) (c : MetalColumn) : list Arg :=
  match mc_validity c with
  | Some bits => [raw bits; u32_arg 1]
  | None => [raw dummy; u32_arg 0]
  end.

Definition mt_get_dummy : Mt MetalSharedBuffer := λ c, (c, Ok (mt_dummy c)).

Definition div_ceil (a b : nat) : nat := (a + (b - 1)) / b.

Definition filter_pipeline (function : string) : Mt Pipeline :=
  metal_pipeline "filter_project" METAL_FILTER_PROJECT_SRC function.

(** Encodes the mask of a predicate; the masks so far are [keep] and the result
    is the index of the predicate's. *)
Fixpoint metal_mask (b : MetalBatch) (p : Predicate) (n : nat) (pass : Pass) (keep : list MetalSharedBuffer) :
    Mt (Pass * list MetalSharedBuffer * nat) :=
  let groups := div_ceil n TG in
  match p with
  | Compare idx op literal =>
      mt! col := mt_lift (metal_column b idx) in
      mt! literal := mt_lift (match mc_type col, literal with
                              | Int64, LInt64 v => Ok v
                              | _, _ => Err (Unsupported "metal.filter" "Metal v1 compares Int64 only")
                              end) in
      mt! out := metal_alloc n in
      mt! pipeline := filter_pipeline "oxide_compare_i64" in
      mt! dummy := mt_get_dummy in
      let pass := dispatch pass pipeline
        ([raw (mc_values col)] ++ validity_args dummy col ++
         [ArgScalar (ScI32 (Cuda.op_code op)); ArgScalar (ScI64 literal); raw out; u32_arg n]) groups in
      mt_ret (pass, keep ++ [out], length keep)
  | And p1 p2 =>
      mt! (pass, keep, l) := metal_mask b p1 n pass keep in
      mt! (pass, keep, r) := metal_mask b p2 n pass keep in
      mt! out := metal_alloc n in
      mt! pipeline := filter_pipeline "oxide_mask_and" in
      mt! ml := mt_lift (index keep l) in
      mt! mr := mt_lift (index keep r) in
      let pass := dispatch pass pipeline [raw ml; raw mr; raw out; u32_arg n] groups in
      mt_ret (pass, keep ++ [out], length keep)
  end.

(** Encodes the gather of a column at [total] indices. *)
Definition metal_gather (col : MetalColumn) (indices : MetalSharedBuffer) (total : nat) (pass : Pass) :
    Mt (Pass * MetalColumn) :=
  mt! width := mt_lift (row_width (mc_type col)) in
  let width := Z.to_nat width in
  mt! total_u32 := mt_lift (u32_len total "gather output") in
  mt! values := metal_alloc (total * width) in
  mt! pass := if (0 <? total)%nat
              then mt! pipeline := filter_pipeline "oxide_gather_fixed" in
                   mt! width_u32 := mt_lift (u32_len width "row width") in
                   mt_ret (dispatch pass pipeline
                     [raw (mc_values col); u32_arg width_u32; raw indices; u32_arg total_u32; raw values]
                     (div_ceil total TG))
              else mt_ret pass in
  mt! (pass, validity) :=
    match mc_validity col with
    | Some src =>
        let bytes := div_ceil total 8 in
        mt! dst := metal_alloc bytes in
        mt! pass := if (0 <? total)%nat
                    then mt! pipeline := filter_pipeline "oxide_gather_validity" in
                         mt_ret (dispatch pass pipeline
                           [raw src; u32_arg 1; raw indices; u32_arg total_u32; raw dst] (div_ceil bytes TG))
                    else mt_ret pass in
        mt_ret (pass, Some dst)
    | None => mt_ret (pass, None)
    end in
  let dim := Z.to_nat (default 0 (vector_dimension (mc_type col))) in
  mt_ret (pass, mkMetalColumn (mc_type col) total (total * dim) (total * width) values validity).

Fixpoint metal_gathers (b : MetalBatch) (projection : list nat) (indices : MetalSharedBuffer) (total : nat)
    (pass : Pass) : Mt (Pass * list MetalColumn) :=
  match projection with
  | [] => mt_ret (pass, [])
  | i :: projection =>
      mt! col := mt_lift (metal_column b i) in
      mt! (pass, c) := metal_gather col indices total pass in
      mt! (pass, cs) := metal_gathers b projection indices total pass in
      mt_ret (pass, c :: cs)
  end.

(** ** Filter and projection *)

Definition metal_field (s : Schema) (i : nat) : result Field := ok_or (fields s !! i) (Plan "column index out of range").

(** The host between the phases: the counts of the threadgroups become offsets. *)
Definition metal_scan (counts : MetalSharedBuffer) (groups : nat) : Mt (MetalSharedBuffer * nat) :=
  mt! slice := shared_as_slice counts in
  let host_counts := take groups (words32 slice) in
  mt! (offsets, total) := mt_lift (exclusive_scan host_counts) in
  mt! offsets_buf := metal_alloc (length offsets * 4) in
  mt! _ := shared_write_words offsets_buf offsets in
  mt_ret (offsets_buf, Z.to_nat total).

Definition dispatch_filter_project (queue : nat) (a : FilterProjectArgs) : Mt DeviceBatch :=
  mt! input := mt_lift (metal_batch (fp_input a)) in
  mt! n := mt_lift (u32_len (mbt_rows input) "filter input") in
  mt! out_fields := mt_lift (mapM (metal_field (db_schema (fp_input a))) (fp_projection a)) in
  mt! _ := mt_lift (mapM (metal_column input) (fp_projection a)) in
  let groups := Nat.max (div_ceil n TG) 1 in
  mt! counts := metal_alloc (groups * 4) in
  mt! phase1 := pass_begin queue in
  mt! (phase1, masks, mask) := metal_mask input (fp_predicate a) n phase1 [] in
  mt! pipeline := filter_pipeline "oxide_block_count" in
  mt! mask_buf := mt_lift (index masks mask) in
  mt! _ := pass_finish (dispatch phase1 pipeline [raw mask_buf; u32_arg n; raw counts] groups) in
  mt! (offsets_buf, total) := metal_scan counts groups in
  mt! indices := metal_alloc (total * 4) in
  mt! phase2 := pass_begin queue in
  mt! phase2 := if (0 <? total)%nat
                then mt! pipeline := filter_pipeline "oxide_scatter_indices" in
                     mt_ret (dispatch phase2 pipeline [raw mask_buf; u32_arg n; raw offsets_buf; raw indices] groups)
                else mt_ret phase2 in
  mt! (phase2, columns) := metal_gathers input (fp_projection a) indices total phase2 in
  mt! _ := pass_finish phase2 in
  mt_ret (mkDeviceBatch Metal (Schema_new out_fields) total (BatchMetal (mkMetalBatch total columns))).

(** ** Vector distance *)

Definition dispatch_vector_distance (queue : nat) (a : VectorDistanceArgs) : Mt DeviceBatch :=
  mt! input := mt_lift (metal_batch (vd_input a)) in
  mt! col := mt_lift (metal_column input (vd_column a)) in
  mt! dim := mt_lift (ok_or (vector_dimension (mc_type col))
                            (Unsupported "metal.vector_distance" "expected FixedSizeList<Float32>")) in
  if negb (Z.of_nat (length (vd_query a)) =? dim)
  then mt_lift (Err (Plan "query vector and column dimensions differ"))
  else
    let dim := Z.to_nat dim in
    mt! n := mt_lift (u32_len (mbt_rows input) "vector input") in
    mt! query := metal_alloc (dim * 4) in
    mt! _ := shared_write_words query (f32_bits <$> vd_query a) in
    mt! out := metal_alloc (mbt_rows input * 4) in
    mt! _ := if (0 <? n)%nat
             then mt! pipeline := metal_pipeline "vector_distance" METAL_VECTOR_DISTANCE_SRC "oxide_vec_distance" in
                  mt! dummy := mt_get_dummy in
                  mt! pass := pass_begin queue in
                  mt! dim_u32 := mt_lift (u32_len dim "vector dimension") in
                  pass_finish (dispatch pass pipeline
                    ([raw (mc_values col)] ++ validity_args dummy col ++
                     [u32_arg n; u32_arg dim_u32; raw query; ArgScalar (ScI32 (metric_code (vd_metric a))); raw out])
                    (div_ceil (mbt_rows input) (TG / 32)))
             else mt_ret tt in
    let new := mkMetalColumn Float32 (mbt_rows input) 0 (mbt_rows input * 4) out (mc_validity col) in
    mt_ret (mkDeviceBatch Metal
              (Schema_new (fields (db_schema (vd_input a)) ++ [Field_new (vd_output_name a) Float32 true]))
              (mbt_rows input) (BatchMetal (mkMetalBatch (mbt_rows input) (mbt_columns input ++ [new])))).

(** ** The backend trait *)

Definition metal_is_available : bool := match mtl_system_default_device (D := D) with Some _ => true | None => false end.

(** [MetalBackend::new]: the queues and the dummy buffer. *)
Definition metal_new : result (MetalState D) :=
  match mtl_system_default_device with
  | None => Err (Device Metal "no Metal device is available")
  | Some d =>
      let fresh := mkMetal d ∅ 0 ∅ ∅ [] 0 (mkShared 0 0) in
      match (mt! queues := mt_mapM (λ _, mt_call mtl_new_queue (Device Metal "could not create a command queue"))
                             (seq 0 QUEUE_POOL) in
             mt! dummy := shared_new 1 in
             mt_ret (queues, dummy)) fresh with
      | (c, Ok (queues, dummy)) =>
          Ok (mkMetal (mt_device c) (mt_memory c) (mt_next c) ∅ ∅ queues 0 dummy)
      | (_, Err e) => Err e
      | (_, Panic) => Panic
      end
  end.

Definition metal_memory_info : Mt MemoryInfo := λ c,
  let total := mtl_max_working_set (mt_device c) in
  let used := mtl_allocated (mt_device c) in
  (c, Ok (mkMemoryInfo total (sat_sub total used) false)).

Definition metal_alloc_device (bytes : Z) : Mt DeviceBuffer :=
  mt! buffer := shared_new (Z.to_nat bytes) in
  mt_ret (mkDeviceBuffer Metal bytes (BufMetal buffer)).

Definition metal_alloc_pinned_host `{!Allocator} (bytes : Z) : result HostAlloc := HostAlloc_pageable bytes.

(** The queues go round; the counter wraps. *)
Definition metal_create_stream : Mt DeviceStream := λ c,
  let index := Z.to_nat (mt_next_queue c mod Z.of_nat (length (mt_queues c))) in
  let c' := mkMetal (mt_device c) (mt_memory c) (mt_next c) (mt_libraries c) (mt_pipelines c) (mt_queues c)
              (wrap64 (mt_next_queue c + 1)) (mt_dummy c) in
  if (length (mt_queues c) =? 0)%nat then (c', Panic)
  else
    (c', match mt_queues c !! index with
         | Some q => Ok (mkStream Metal (StreamMetal q))
         | None => Err (Device Metal "command queue pool is empty")
         end).

Definition metal_copy_h2d `{!CudaDriver} (s : DeviceStream) (src : HostAlloc) (dst : DeviceBuffer) : Mt unit :=
  mt! _ := mt_lift (metal_queue s) in
  if dbuf_len dst <? ha_len src then mt_lift (Err (Execution "copy_h2d: destination too small"))
  else
    match dbuf_inner dst with
    | BufMetal buffer =>
        mt! src := mt_lift (ha_as_slice src) in
        shared_write_prefix buffer src
    | _ => mt_lift (Err (metal_foreign "buffer" (dbuf_backend dst)))
    end.

Definition metal_copy_d2h `{!CudaDriver} (s : DeviceStream) (src : DeviceBuffer) (dst : HostAlloc) : Mt HostAlloc :=
  mt! _ := mt_lift (metal_queue s) in
  if ha_len dst <? dbuf_len src then mt_lift (Err (Execution "copy_d2h: destination too small"))
  else
    match dbuf_inner src with
    | BufMetal buffer =>
        mt! bytes := shared_as_slice buffer in
        mt! src := mt_lift (slice bytes 0 (dbuf_len src)) in
        mt_lift (ha_write_prefix dst src)
    | _ => mt_lift (Err (metal_foreign "buffer" (dbuf_backend src)))
    end.

Definition metal_synchronize (s : DeviceStream) : result unit := (λ _, tt) <$> metal_queue s.

Context `{!ArrowBuffers, !ArrowKernels} (to_data : Array → ArrayData).

Definition metal_upload (s : DeviceStream) (b : RecordBatch) : Mt DeviceBatch :=
  mt! _ := mt_lift (metal_queue s) in
  mt! extracted := mt_lift (extract_batch (to_data <$> columns b)) in
  mt! cols := mt_mapM metal_upload_column extracted in
  mt_ret (mkDeviceBatch Metal (schema b) (num_rows b) (BatchMetal (mkMetalBatch (num_rows b) cols))).

Definition metal_download (s : DeviceStream) (d : DeviceBatch) : Mt RecordBatch :=
  mt! _ := mt_lift (metal_queue s) in
  match db_inner d with
  | BatchMetal resident =>
      mt! cols := mt_mapM metal_download_column (mbt_columns resident) in
      mt_lift (rebuild_batch (db_schema d) cols)
  | BatchHost host => mt_ret host
  | BatchCuda _ => mt_lift (Err (metal_foreign "batch" (db_backend d)))
  end.

Definition metal_filter_project (s : DeviceStream) (a : FilterProjectArgs) : Mt DeviceBatch :=
  mt! queue := mt_lift (metal_queue s) in dispatch_filter_project queue a.

Definition metal_hash_join (_ : DeviceStream) (_ : HashJoinArgs) : Mt DeviceBatch :=
  mt_lift (Err (Unsupported "metal.hash_join" "not implemented on Metal in v1; the CPU path is used")).

Definition metal_aggregate (_ : DeviceStream) (_ : AggregateArgs) : Mt DeviceBatch :=
  mt_lift (Err (Unsupported "metal.aggregate" "not implemented on Metal in v1; the CPU path is used")).

Definition metal_vector_distance (s : DeviceStream) (a : VectorDistanceArgs) : Mt DeviceBatch :=
  mt! queue := mt_lift (metal_queue s) in dispatch_vector_distance queue a.

Definition metal_supports_predicate (p : Predicate) : bool := all_int64_leaves p.
Definition metal_supports_hash_join : bool := false.
Definition metal_supports_aggregate : bool := false.
End Metal.
