(* ===== verification/MetalSpec.v ===== *)
(** * Passes over shared memory: a program logic for the Metal backend

    A dispatch does nothing until its pass is committed.  The logic keeps, next
    to the state of the backend, what memory will hold when the encoded pass has
    run: [inv m0 st pass F] says that from the memory of [st], on any order of
    the threads, [pass] runs without a fault, that the memory [m0] the operation
    started from is never written, and that afterwards each new buffer in [F]
    satisfies its assertion.  Encoding a dispatch updates one assertion;
    committing makes the assertions true of the memory itself. *)

From S2P Require Import Prelude Floats Arrow Core Memory ArrowKernels Kernels Device Bytes Columns CudaKernels.
From S2P Require Import CudaLaunch CudaVector MetalKernels Metal.

(** ** Words *)

Definition word_ok (z : Z) : Prop := 0 ≤ z < Prelude.U32.

Lemma length_le_words l : length (le_words l) = (length l * 4)%nat.
Proof.
  unfold le_words. rewrite (length_concat_rows _ 4), length_fmap; [done|].
  apply Forall_fmap, Forall_true. intros; apply length_to_le_bytes.
Qed.

Lemma le_words_app l k : le_words (l ++ k) = le_words l ++ le_words k.
Proof. unfold le_words. by rewrite fmap_app, concat_app. Qed.

Lemma words32_lookup l rest i z :
  l !! i = Some z → word_ok z → words32 (le_words l ++ rest) !! i = Some z.
Proof.
  intros Hi Hz. pose proof (lookup_lt_Some _ _ _ Hi). unfold words32. rewrite list_lookup_fmap, lookup_seq_lt.
  - cbn [fmap option_fmap option_map Nat.add]. f_equal. unfold cell, le_words. rewrite Nat.mul_comm.
    rewrite (concat_row _ _ 4 i (to_le_bytes 4 z)).
    + rewrite from_to_le_bytes. apply Z.mod_small. exact Hz.
    + apply Forall_fmap, Forall_true. intros; apply length_to_le_bytes.
    + by rewrite list_lookup_fmap, Hi.
  - rewrite length_app, length_le_words. apply Nat.div_le_lower_bound; lia.
Qed.

Lemma words32_prefix l rest :
  Forall word_ok l → take (length l) (words32 (le_words l ++ rest)) = l.
Proof.
  intros Hl. apply list_eq. intros i. destruct (decide (i < length l)%nat) as [Hi|Hi].
  - rewrite lookup_take_lt by done. destruct (lookup_lt_is_Some_2 l i Hi) as [z Hz]. rewrite Hz.
    apply words32_lookup; [done|]. exact (Forall_lookup_1 _ _ _ _ Hl Hz).
  - rewrite lookup_take_ge by lia. symmetry. apply lookup_ge_None_2. lia.
Qed.

(** A launch whose threads write words one behind the other. *)
Lemma launch_words (g : nat → list Z) threads turns body (m0 : list Z) :
  (written g threads * 4 ≤ length m0)%nat →
  (∀ t m, (t < threads)%nat → length m = length m0 → body t m = store_range m (written g t * 4) (le_words (g t))) →
  launch threads turns body m0
  = Some (le_words (concat (g <$> seq 0 threads)) ++ drop (written g threads * 4) m0).
Proof.
  assert (∀ l, concat ((λ t, le_words (g t)) <$> l) = le_words (concat (g <$> l))) as Hc.
  { induction l as [|t l IH]; [done|]. rewrite !fmap_cons, !concat_cons. by rewrite IH, le_words_app. }
  assert (∀ t, written (λ t, le_words (g t)) t = (written g t * 4)%nat) as Hw.
  { intros t. unfold written. by rewrite Hc, length_le_words. }
  intros Hroom Hb. rewrite (launch_concat (λ t, le_words (g t))).
  - by rewrite Hc, Hw.
  - by rewrite Hw.
  - intros t m Ht Hm. rewrite Hw. by apply Hb.
Qed.

(** What the buffers will satisfy when the pass has run. *)
Abbreviation Assertions := (gmap nat (list Z → Prop)).

(** ** Running a pass *)

Section Spec.
Context {D : Type} `{!MetalApi D, !Fmad, !SimdSum}.

Lemma run_pass_snoc pass d turns m :
  run_pass (pass ++ [d]) turns m
  = (m ← run_pass pass turns m; run_dispatch (default [] (turns !! length pass)) d m).
Proof.
  revert turns m. induction pass as [|d' pass IH]; intros turns m; cbn [app run_pass length].
  - destruct turns as [|t turns]; cbn; by destruct (run_dispatch _ d m).
  - destruct (run_dispatch _ d' m); [|done]. cbn [mbind option_bind]. rewrite IH.
    destruct turns; cbn [tail lookup list_lookup]; [by rewrite lookup_nil|done].
Qed.

Lemma arg_values_frame m args values id content :
  mapM (arg_value m) args = Some values → m !! id = None →
  mapM (arg_value (<[id := content]> m)) args = Some values.
Proof.
  intros Hv Hid. apply mapM_Some in Hv. apply mapM_Some_2. eapply Forall2_impl; [exact Hv|].
  intros [b|s] v; cbn [arg_value]; [|done]. intros Hb. rewrite lookup_insert_ne; [done|]. intros ->. by rewrite Hid in Hb.
Qed.

(** A dispatch takes no notice of a buffer that comes after it. *)
Lemma run_dispatch_frame turns d m m' id content :
  run_dispatch turns d m = Some m' → m !! id = None →
  m' !! id = None ∧ run_dispatch turns d (<[id := content]> m) = Some (<[id := content]> m').
Proof.
  unfold run_dispatch. intros (k & -> & Hd)%bind_Some Hid. cbn [mbind option_bind].
  destruct (dp_args d !! kernel_out k) as [[out|s]|]; [|done|done].
  destruct (bound_once out (dp_args d)); [|done].
  apply bind_Some in Hd as (values & Hv & Hd). rewrite (arg_values_frame m _ values) by done.
  apply bind_Some in Hd as (c & Hc & (c' & Hr & [= <-])%bind_Some).
  assert (out ≠ id) as Hne by (intros ->; by rewrite Hid in Hc).
  rewrite lookup_insert_ne by done. split; [done|]. cbn [mbind option_bind].
  rewrite lookup_insert_ne, Hc by done. cbn [mbind option_bind]. rewrite Hr. cbn [mbind option_bind].
  by rewrite insert_insert_ne.
Qed.

Lemma run_pass_frame pass turns m m' id content :
  run_pass pass turns m = Some m' → m !! id = None →
  m' !! id = None ∧ run_pass pass turns (<[id := content]> m) = Some (<[id := content]> m').
Proof.
  revert turns m. induction pass as [|d pass IH]; intros turns m; cbn [run_pass]; [by intros [= <-]|].
  intros (m1 & Hd & Hp)%bind_Some Hid. destruct (run_dispatch_frame _ _ _ _ _ content Hd Hid) as [Hid1 Hd1].
  rewrite Hd1. by apply IH.
Qed.

(** ** Assertions *)

Definition sat (F : Assertions) (m : Mem) : Prop :=
  ∀ id Φ, F !! id = Some Φ → ∃ c, m !! id = Some c ∧ Φ c.

(** The sources of the two libraries; the caches hold nothing else. *)
Definition library_source (name : string) : option string :=
  if bool_decide (name = "filter_project") then Some METAL_FILTER_PROJECT_SRC
  else if bool_decide (name = "vector_distance") then Some METAL_VECTOR_DISTANCE_SRC else None.
Definition caches_ok (st : MetalState D) : Prop :=
  (∀ name lib, mt_libraries st !! name = Some lib → library_source name = Some (lib_source lib)) ∧
  (∀ name function p, mt_pipelines st !! (name, function) = Some p →
     pl_function p = function ∧ library_source name = Some (pl_source p)).

Record metal_ok (st : MetalState D) : Prop := {
  mo_next : ∀ id, (mt_next st ≤ id)%nat → mt_memory st !! id = None;
  mo_caches : caches_ok st;
  mo_dummy : is_Some (mt_memory st !! ms_buffer (mt_dummy st));
}.

(** The memory an operation starts from. *)
Variable m0 : Mem.

Record inv (st : MetalState D) (pass : Pass) (F : Assertions) : Prop := {
  inv_ok : metal_ok st;
  inv_start : m0 ⊆ mt_memory st;
  inv_new : ∀ id, is_Some (F !! id) → m0 !! id = None;
  inv_dummy : is_Some (m0 !! ms_buffer (mt_dummy st));
  inv_run : ∀ turns, ∃ m, run_pass pass turns (mt_memory st) = Some m ∧ m0 ⊆ m ∧ sat F m;
}.

Lemma inv_fresh st pass F id : inv st pass F → (mt_next st ≤ id)%nat → F !! id = None ∧ m0 !! id = None.
Proof.
  intros Hi Hid. pose proof (mo_next st (inv_ok _ _ _ Hi) id Hid) as Hm.
  destruct (inv_run _ _ _ Hi []) as (m & Hr & Hsub & Hsat). destruct (run_pass_frame _ _ _ _ _ [] Hr Hm) as [Hm' _].
  split.
  - destruct (F !! id) as [Φ|] eqn:HF; [|done]. destruct (Hsat id Φ HF) as (c & Hc & _). congruence.
  - destruct (m0 !! id) as [c|] eqn:Hc; [|done]. rewrite (lookup_weaken _ _ _ _ Hc Hsub) in Hm'. done.
Qed.

(** What is known of a buffer that is bound to a kernel. *)
Definition knows (F : Assertions) (b : nat) (Φ : list Z → Prop) : Prop :=
  (∃ c, m0 !! b = Some c ∧ Φ c) ∨ (∃ Ψ, F !! b = Some Ψ ∧ ∀ c, Ψ c → Φ c).

Lemma knows_sat F b Φ m : knows F b Φ → m0 ⊆ m → sat F m → ∃ c, m !! b = Some c ∧ Φ c.
Proof.
  intros [(c & Hc & HΦ)|(Ψ & HF & HΨ)] Hsub Hsat.
  - exists c. split; [by eapply lookup_weaken|done].
  - destruct (Hsat b Ψ HF) as (c & Hc & Hp). exists c. auto.
Qed.

Lemma knows_new F b Φ : F !! b = Some Φ → knows F b Φ.
Proof. intros HF. right. exists Φ. auto. Qed.
Lemma knows_old F b c : m0 !! b = Some c → knows F b (eq c).
Proof. intros Hb. left. by exists c. Qed.
Lemma knows_mono F F' b Φ : F ⊆ F' → knows F b Φ → knows F' b Φ.
Proof. intros HF [?|(Ψ & Hb & ?)]; [by left|right]. exists Ψ. split; [by eapply lookup_weaken|done]. Qed.

(** Encoding a dispatch whose kernel does what is asserted. *)
Lemma inv_dispatch st pass F pipeline args groups k out Φ0 Φ :
  inv st pass F → kernel_named (pl_source pipeline) (pl_function pipeline) = Some k →
  args !! kernel_out k = Some (ArgBuffer out) → bound_once out args = true → F !! out = Some Φ0 →
  (∀ m content turns, m0 ⊆ m → sat F m → Φ0 content → m !! out = Some content →
     ∃ values content', mapM (arg_value m) args = Some values ∧
       run_kernel k (Nat.max groups 1 * TG) turns values content = Some content' ∧ Φ content') →
  inv st (dispatch pass pipeline args groups) (<[out := Φ]> F).
Proof.
  intros [Hok Hstart Hnew Hdummy Hrun] Hk Hout Honce HF Hkernel. split; [done|done| |done|].
  - intros id Hid. destruct (decide (id = out)) as [->|Hne]; [apply Hnew; by rewrite HF|].
    rewrite lookup_insert_ne in Hid by done. by apply Hnew.
  - intros turns. destruct (Hrun turns) as (m & Hm & Hsub & Hsat). destruct (Hsat out Φ0 HF) as (c & Hc & Hc0).
    destruct (Hkernel m c (default [] (turns !! length pass)) Hsub Hsat Hc0 Hc) as (values & c' & Hv & Hr & Hc').
    exists (<[out := c']> m). unfold dispatch. rewrite run_pass_snoc, Hm. cbn [mbind option_bind].
    unfold run_dispatch. cbn [dp_pipeline dp_args dp_groups]. rewrite Hk. cbn [mbind option_bind].
    rewrite Hout, Honce, Hv. cbn [mbind option_bind]. rewrite Hc. cbn [mbind option_bind]. rewrite Hr.
    split; [done|]. split.
    + apply insert_subseteq_r; [|done]. apply Hnew. by rewrite HF.
    + intros id Ψ Hid. destruct (decide (id = out)) as [->|Hne].
      * rewrite lookup_insert_eq in Hid. injection Hid as <-. exists c'. by rewrite lookup_insert_eq.
      * rewrite lookup_insert_ne in Hid by done. rewrite lookup_insert_ne by done. by apply Hsat.
Qed.

(** Assertions can be weakened. *)
Lemma inv_weaken st pass F b Φ Ψ :
  inv st pass (<[b := Φ]> F) → (∀ c, Φ c → Ψ c) → inv st pass (<[b := Ψ]> F).
Proof.
  intros [Hok Hstart Hnew Hdummy Hrun] HΦ. split; [done|done| |done|].
  - intros id Hid. apply Hnew. destruct (decide (id = b)) as [->|Hne]; [by rewrite lookup_insert_eq|].
    by rewrite lookup_insert_ne in * by done.
  - intros turns. destruct (Hrun turns) as (m & Hm & Hsub & Hsat). exists m. split; [done|]. split; [done|].
    intros id Θ Hid. destruct (decide (id = b)) as [->|Hne].
    + rewrite lookup_insert_eq in Hid. injection Hid as <-.
      destruct (Hsat b Φ (lookup_insert_eq _ _ _)) as (c & Hc & HΦc). exists c. auto.
    + apply Hsat. by rewrite lookup_insert_ne in * by done.
Qed.

Lemma inv_insert st F' pass F content Φ :
  inv st pass F → Φ content → F' = <[mt_next st := Φ]> F →
  inv (mkMetal (mt_device st) (<[mt_next st := content]> (mt_memory st)) (S (mt_next st)) (mt_libraries st)
         (mt_pipelines st) (mt_queues st) (mt_next_queue st) (mt_dummy st)) pass F'.
Proof.
  intros Hi HΦ ->. destruct (inv_fresh _ _ _ (mt_next st) Hi (Nat.le_refl _)) as [HF Hm0].
  destruct Hi as [[Hnext Hcaches Hdum] Hstart Hnew Hdummy Hrun]. split; cbn.
  - split; cbn; [|exact Hcaches|].
    + intros id Hid. rewrite lookup_insert_ne by lia. apply Hnext. lia.
    + apply lookup_insert_is_Some'. by right.
  - by apply insert_subseteq_r.
  - intros id Hid. destruct (decide (id = mt_next st)) as [->|]; [done|].
    rewrite lookup_insert_ne in Hid by done. by apply Hnew.
  - done.
  - intros turns. destruct (Hrun turns) as (m & Hm & Hsub & Hsat).
    destruct (run_pass_frame _ _ _ _ _ content Hm (Hnext _ (Nat.le_refl _))) as [Hfresh Hm'].
    exists (<[mt_next st := content]> m). split; [done|]. split; [by apply insert_subseteq_r|].
    intros id Ψ Hid. destruct (decide (id = mt_next st)) as [->|Hne].
    + rewrite lookup_insert_eq in Hid. injection Hid as <-. exists content. by rewrite lookup_insert_eq.
    + rewrite lookup_insert_ne in Hid by done. rewrite lookup_insert_ne by done. by apply Hsat.
Qed.

(** ** Specifications *)

(** No call of the runtime fails. *)
Record healthy : Prop := {
  h_buffer : ∀ d n, is_Some (mtl_new_buffer d n).2;
  h_library : ∀ d s, ∃ h, (mtl_new_library d s).2 = inr h;
  h_function : ∀ d l f, is_Some (mtl_new_function d l f).2;
  h_pipeline : ∀ d f, ∃ p, (mtl_new_pipeline d f).2 = inr p;
  h_command : ∀ d q, (mtl_command_buffer d q).2 = true;
  h_encoder : ∀ d, (mtl_compute_encoder d).2 = true;
  h_commit : ∀ d n, (mtl_commit d n).2.2 = None;
}.

Definition metal_failure (e : EngineError) : Prop :=
  ¬ healthy ∧ ((∃ msg, e = Device Metal msg) ∨ ∃ n, e = Allocation n HOST_ALIGN "MTLDevice returned no buffer").

(** Whatever happens, the backend is usable and no old buffer was written. *)
Definition ends (st : MetalState D) : Prop := metal_ok st ∧ m0 ⊆ mt_memory st.

Definition mt_spec {A} (P : MetalState D → Prop) (m : Mt A) (E : EngineError → Prop) (Q : A → MetalState D → Prop) : Prop :=
  ∀ st, P st →
    match m st with
    | (st', Ok a) => Q a st'
    | (st', Err e) => (metal_failure e ∨ E e) ∧ ends st'
    | (_, Panic) => False
    end.

Lemma inv_ends st pass F : inv st pass F → ends st.
Proof. by intros [Hok Hs _ _ _]. Qed.

Lemma spec_ret {A} (a : A) (P : MetalState D → Prop) E (Q : A → MetalState D → Prop) :
  (∀ st, P st → Q a st) → mt_spec P (mt_ret a) E Q.
Proof. intros HQ st HP. by apply HQ. Qed.

Lemma spec_bind {A B} P (m : Mt A) (f : A → Mt B) E Q R :
  mt_spec P m E Q → (∀ a, mt_spec (Q a) (f a) E R) → mt_spec P (mt_bind m f) E R.
Proof.
  intros Hm Hf st HP. unfold mt_bind. specialize (Hm st HP). destruct (m st) as [st' [a|e|]]; [|done|done].
  by apply Hf.
Qed.

Lemma spec_bind_Ok {A B} P (r : result A) (f : A → Mt B) a E R :
  r = Ok a → mt_spec P (f a) E R → mt_spec P (mt_bind (mt_lift r) f) E R.
Proof. intros -> Hf st HP. exact (Hf st HP). Qed.

(** Two steps together: what the first made and what the second left. *)
Lemma spec_pair_assoc {A B C} P (m : Mt A) (f : A → Mt B) (g : A → B → Mt C) E R :
  mt_spec P (mt_bind (mt_bind m (λ a, mt_bind (f a) (λ b, mt_ret (b, a)))) (λ r, g r.2 r.1)) E R →
  mt_spec P (mt_bind m (λ a, mt_bind (f a) (g a))) E R.
Proof.
  intros Hs st HP. specialize (Hs st HP). unfold mt_bind, mt_ret in *. destruct (m st) as [st1 [a|e|]]; [|done|done].
  by destruct (f a st1) as [st2 [b|e|]].
Qed.

Lemma spec_pre {A} (P P' : MetalState D → Prop) (m : Mt A) E Q :
  (∀ st, P st → P' st) → mt_spec P' m E Q → mt_spec P m E Q.
Proof. intros HP Hm st Hst. by apply Hm, HP. Qed.

Lemma spec_post {A} P (m : Mt A) E (Q R : A → MetalState D → Prop) :
  mt_spec P m E Q → (∀ a st, Q a st → R a st) → mt_spec P m E R.
Proof.
  intros Hm HQ st HP. specialize (Hm st HP). destruct (m st) as [st' [a|e|]]; [by apply HQ|done|done].
Qed.

Lemma spec_exists {A X} (P : X → MetalState D → Prop) (m : Mt A) E Q :
  (∀ x, mt_spec (P x) m E Q) → mt_spec (λ st, ∃ x, P x st) m E Q.
Proof. intros Hm st [x Hx]. exact (Hm x st Hx). Qed.

Lemma spec_and {A} (P : Prop) (R : MetalState D → Prop) (m : Mt A) E Q :
  (P → mt_spec R m E Q) → mt_spec (λ st, P ∧ R st) m E Q.
Proof. intros Hm st [HP HR]. by apply Hm. Qed.

Lemma spec_fst {A} (P R : MetalState D → Prop) (m : Mt A) E Q :
  mt_spec P m E Q → mt_spec (λ st, P st ∧ R st) m E Q.
Proof. intros Hm st [HP _]. by apply Hm. Qed.

Lemma spec_snd {A} (P : Prop) (R : MetalState D → Prop) (m : Mt A) E Q :
  (P → mt_spec R m E Q) → mt_spec (λ st, R st ∧ P) m E Q.
Proof. intros Hm st [HR HP]. by apply Hm. Qed.

(** *** The runtime *)

Context (new_buffer_length : ∀ d n c, (mtl_new_buffer d n).2 = Some c → length c = n).

Lemma inv_same st st' pass F :
  mt_memory st' = mt_memory st → mt_next st' = mt_next st → mt_dummy st' = mt_dummy st → caches_ok st' →
  inv st pass F → inv st' pass F.
Proof.
  intros Hm Hn Hd Hc [[? ? ?] ? ? ? ?]. split; rewrite ?Hm, ?Hd; try done.
  split; rewrite ?Hm, ?Hn, ?Hd; done.
Qed.

Lemma inv_set_device st d pass F : inv st pass F → inv (set_device st d) pass F.
Proof. intros Hi. apply (inv_same st); try done. apply (mo_caches _ (inv_ok _ _ _ Hi)). Qed.

(** A call keeps what is known; if it fails, the runtime is not healthy. *)
Lemma spec_call {A} (f : D → D * option A) e pass F E :
  ((∃ d, (f d).2 = None) → metal_failure e) →
  mt_spec (λ st, inv st pass F) (mt_call f e) E (λ a st, inv st pass F ∧ ∃ d, (f d).2 = Some a).
Proof.
  intros He st Hi. unfold mt_call. destruct (f (mt_device st)) as [d [a|]] eqn:Hf; cbn.
  - split; [by apply inv_set_device|]. exists (mt_device st). by rewrite Hf.
  - split; [left; apply He; exists (mt_device st); by rewrite Hf|]. by eapply inv_ends, inv_set_device.
Qed.

Lemma spec_try {A} (f : D → D * (string + A)) pass F E :
  (healthy → ∀ d, ∃ a, (f d).2 = inr a) →
  mt_spec (λ st, inv st pass F) (mt_try f) E (λ _ st, inv st pass F).
Proof.
  intros He st Hi. unfold mt_try. destruct (f (mt_device st)) as [d [msg|a]] eqn:Hf; cbn.
  - split; [|by eapply inv_ends, inv_set_device]. left. split; [|left; by exists msg].
    intros Hh. destruct (He Hh (mt_device st)) as [a Ha]. by rewrite Hf in Ha.
  - by apply inv_set_device.
Qed.

Lemma spec_cache_library name l pass F E :
  library_source name = Some (lib_source l) →
  mt_spec (λ st, inv st pass F) (mt_cache_library name l) E (λ l' st, inv st pass F ∧ lib_source l' = lib_source l).
Proof.
  intros Hs st Hi. cbn. split; [|done]. apply (inv_same st); try done.
  destruct (mo_caches _ (inv_ok _ _ _ Hi)) as [Hl Hp]. split; [|exact Hp]. cbn. intros name' lib.
  destruct (decide (name = name')) as [<-|Hne]; [rewrite lookup_insert_eq; by intros [= <-]|].
  rewrite lookup_insert_ne by done. apply Hl.
Qed.

Lemma spec_library name source pass F E :
  library_source name = Some source →
  mt_spec (λ st, inv st pass F) (metal_library name source) E (λ l st, inv st pass F ∧ lib_source l = source).
Proof.
  intros Hs st Hi. unfold metal_library. destruct (mt_libraries st !! name) as [lib|] eqn:Hl.
  { split; [done|]. destruct (mo_caches _ (inv_ok _ _ _ Hi)) as [Hc _]. specialize (Hc _ _ Hl). congruence. }
  apply (spec_bind _ _ _ E _ _ (spec_try (λ d, mtl_new_library d source) pass F E (λ Hh d, h_library Hh d source))); [|exact Hi].
  intros h. by apply (spec_cache_library name (mkLibrary h source)).
Qed.

(** The pipeline is the kernel's, from the cache or new. *)
Lemma spec_pipeline name source function pass F E :
  library_source name = Some source →
  mt_spec (λ st, inv st pass F) (metal_pipeline name source function) E
    (λ p st, (pl_source p = source ∧ pl_function p = function) ∧ inv st pass F).
Proof.
  intros Hs st Hi. unfold metal_pipeline. destruct (mt_pipelines st !! (name, function)) as [p|] eqn:Hp.
  { split; [|done]. destruct (mo_caches _ (inv_ok _ _ _ Hi)) as [_ Hc]. destruct (Hc _ _ _ Hp). split; congruence. }
  apply (spec_bind _ _ _ E _ _ (spec_library name source pass F E Hs)); [|exact Hi].
  intros l. apply spec_snd. intros Hl.
  eapply spec_bind; [apply spec_call|].
  { intros [d Hd]. split; [|left; by eexists]. intros Hh. destruct (h_function Hh d (lib_handle l) function). congruence. }
  intros f. eapply spec_bind; [apply spec_fst, spec_try; intros Hh d; apply (h_pipeline Hh)|].
  intros pso st' Hi'. cbn. split; [by rewrite Hl|]. apply (inv_same st'); try done.
  destruct (mo_caches _ (inv_ok _ _ _ Hi')) as [Hlib Hpipe]. split; [exact Hlib|]. cbn. intros name' function' p.
  destruct (decide ((name, function) = (name', function'))) as [[= <- <-]|Hne].
  - rewrite lookup_insert_eq. intros [= <-]. cbn. by rewrite Hl.
  - rewrite lookup_insert_ne by done. apply Hpipe.
Qed.

(** A new buffer holds anything, and nothing else refers to it. *)
Lemma spec_alloc n pass F E :
  mt_spec (λ st, inv st pass F) (metal_alloc n) E
    (λ b st, (ms_len b = n ∧ F !! ms_buffer b = None ∧ m0 !! ms_buffer b = None) ∧
       inv st pass (<[ms_buffer b := λ c, length c = Nat.max n 1]> F)).
Proof.
  unfold metal_alloc, shared_new_uninit. eapply spec_bind; [apply spec_call|].
  { intros [d Hd]. split; [|right; by eexists]. intros Hh. destruct (h_buffer Hh d (Nat.max n 1)). congruence. }
  intros content. apply spec_snd. intros [d Hd]. apply new_buffer_length in Hd. intros st Hi. cbn.
  destruct (inv_fresh _ _ _ (mt_next st) Hi (Nat.le_refl _)) as [HF Hm]. split; [done|].
  by apply (inv_insert st _ pass F content (λ c, length c = Nat.max n 1)).
Qed.

(** *** Passes and the host *)

Lemma spec_begin queue F E :
  mt_spec (λ st, inv st [] F) (pass_begin queue) E (λ p st, p = [] ∧ inv st [] F).
Proof.
  unfold pass_begin, mt_check. eapply spec_bind; [apply spec_call|].
  { intros [d Hd]. destruct (mtl_command_buffer d queue) as [d' b] eqn:Hb. split; [|left; by eexists].
    intros Hh. pose proof (h_command Hh d queue) as Ht. rewrite Hb in Ht. cbn in Ht. by subst b. }
  intros ?. eapply spec_bind; [apply spec_fst, spec_call|].
  { intros [d Hd]. destruct (mtl_compute_encoder d) as [d' b] eqn:Hb. split; [|left; by eexists].
    intros Hh. pose proof (h_encoder Hh d) as Ht. rewrite Hb in Ht. cbn in Ht. by subst b. }
  intros ?. apply spec_ret. by intros st [? _].
Qed.

(** After the pass the assertions hold of the memory. *)
Lemma spec_finish pass F E :
  mt_spec (λ st, inv st pass F) (pass_finish pass) E (λ _ st, inv st [] F).
Proof.
  intros st Hi. unfold pass_finish. destruct (mtl_commit (mt_device st) (length pass)) as [d [turns err]] eqn:Hc.
  destruct (inv_run _ _ _ Hi turns) as (m & Hm & Hsub & Hsat). cbn [set_device mt_memory]. rewrite Hm.
  assert (inv (set_memory (set_device st d) m) [] F) as Hinv.
  { destruct Hi as [[Hnext Hcaches Hdum] Hstart Hnew Hdummy Hrun]. split; cbn; [|done..|].
    - split; cbn; [|exact Hcaches|].
      + intros id Hid. by destruct (run_pass_frame _ _ _ _ _ [] Hm (Hnext id Hid)).
      + destruct Hdummy as [c Hc']. exists c. by eapply lookup_weaken.
    - intros _. exists m. done. }
  destruct err as [msg|]; [|exact Hinv]. split; [|by eapply inv_ends]. left. split; [|left; by eexists].
  intros Hh. pose proof (h_commit Hh (mt_device st) (length pass)) as Ht. by rewrite Hc in Ht.
Qed.

Lemma inv_memory st F b Φ : inv st [] F → knows F b Φ → ∃ c, mt_memory st !! b = Some c ∧ Φ c.
Proof.
  intros Hi Hk. destruct (inv_run _ _ _ Hi []) as (m & [= <-] & Hsub & Hsat). by apply (knows_sat F).
Qed.

(** Reading a buffer when no pass is open. *)
Lemma spec_slice b Φ F E :
  knows F (ms_buffer b) Φ → (∀ c, Φ c → ms_len b ≤ length c)%nat →
  mt_spec (λ st, inv st [] F) (shared_as_slice b) E (λ l st, (∃ c, Φ c ∧ l = take (ms_len b) c) ∧ inv st [] F).
Proof.
  intros Hk Hl st Hi. destruct (inv_memory _ _ _ _ Hi Hk) as (c & Hc & HΦ). unfold shared_as_slice. rewrite Hc.
  rewrite (proj2 (Nat.leb_le _ _)) by by apply Hl. split; [by exists c|done].
Qed.

(** Writing one, before it is bound. *)
Lemma spec_write_prefix b bytes Φ F E :
  F !! ms_buffer b = Some Φ → (∀ c, Φ c → ms_len b ≤ length c)%nat → (length bytes ≤ ms_len b)%nat →
  mt_spec (λ st, inv st [] F) (shared_write_prefix b bytes) E
    (λ _ st, inv st [] (<[ms_buffer b := λ c, ∃ c0, Φ c0 ∧ c = bytes ++ drop (length bytes) c0]> F)).
Proof.
  intros HF Hl Hb st Hi. destruct (inv_memory _ _ _ _ Hi (knows_new _ _ _ HF)) as (c & Hc & HΦ).
  unfold shared_write_prefix. rewrite Hc, (proj2 (Nat.leb_le _ _) Hb), (proj2 (Nat.leb_le _ _) (Hl c HΦ)). cbn [andb].
  destruct Hi as [[Hnext Hcaches Hdum] Hstart Hnew Hdummy Hrun]. destruct (Hrun []) as (m & [= <-] & Hsub & Hsat).
  assert (m0 !! ms_buffer b = None) as Hb0 by (apply Hnew; by rewrite HF).
  split; cbn.
  - split; cbn; [|exact Hcaches|by apply lookup_insert_is_Some'; right].
    intros id Hid. rewrite lookup_insert_ne; [by apply Hnext|]. intros <-. rewrite Hnext in Hc; done.
  - by apply insert_subseteq_r.
  - intros id Hid. destruct (decide (id = ms_buffer b)) as [->|]; [done|]. rewrite lookup_insert_ne in Hid by done. by apply Hnew.
  - done.
  - intros _. eexists. split; [done|]. split; [by apply insert_subseteq_r|]. intros id Ψ Hid.
    destruct (decide (id = ms_buffer b)) as [->|Hne].
    + rewrite lookup_insert_eq in Hid. injection Hid as <-. rewrite lookup_insert_eq. eexists. split; [done|]. by exists c.
    + rewrite lookup_insert_ne in Hid by done. rewrite lookup_insert_ne by done. by apply Hsat.
Qed.
End Spec.

(** An operation starts with nothing encoded and nothing asserted. *)
Lemma inv_begin {D} (st : MetalState D) `{!Fmad, !SimdSum} : metal_ok st → inv (mt_memory st) st [] ∅.
Proof.
  intros Hok. split; [done|done| |apply Hok|].
  - intros id [Φ HΦ]. by rewrite lookup_empty in HΦ.
  - intros turns. exists (mt_memory st). split_and!; [done|done|]. intros id Φ. by rewrite lookup_empty.
Qed.
