(* ===== verification/MetalLaunch.v ===== *)
(** * The Metal kernels, launched

    What each kernel of [MetalKernels] leaves in its output on any order of its
    threads.  Bound to a bitmap and the flag 1, or to anything and 0, the masks
    and the gathers are those of the CUDA backend; the compaction counts with
    the atomic of a threadgroup, in any order of its SIMD-groups, and scans with
    SIMD prefixes and the totals before them. *)

From S2P Require Import Prelude Floats Arrow Core Memory ArrowKernels Kernels Device Bytes Columns.
From S2P Require Import CudaKernels CudaLaunch Cuda CudaScan CudaSpec CudaGather CudaVector MetalKernels Metal MetalSpec.

#[local] Arguments bitmap_len : simpl never.

(** ** Validity *)

(** The pair of arguments that stands for the validity of a column. *)
Definition binds_validity (has : Z) (bits : list Z) (validity : option (list Z)) : Prop :=
  match validity with Some b => has = 1 ∧ bits = b | None => has = 0 end.

Lemma msl_is_valid_bound has bits validity i :
  binds_validity has bits validity → msl_is_valid bits has i = oxide_is_valid validity i.
Proof. destruct validity as [b|]; cbn; [intros [-> ->]|intros ->]; done. Qed.

Lemma msl_compare_bound has bits validity values op literal n i m :
  binds_validity has bits validity →
  msl_compare_i64 values bits has op literal n i m = oxide_compare_i64 values validity op literal n i m.
Proof. intros Hv. unfold msl_compare_i64. by rewrite (msl_is_valid_bound _ _ _ _ Hv). Qed.

Lemma launch_ext {M} threads turns (f g : nat → M → option M) m :
  (∀ t m, f t m = g t m) → launch threads turns f m = launch threads turns g m.
Proof.
  intros Hfg. unfold launch. generalize (Some m). induction (order threads turns) as [|t l IH]; intros o; [done|].
  cbn. rewrite IH. f_equal. by destruct o; cbn.
Qed.

(** ** Compaction *)

Lemma order_sum (f : nat → Z) n turns : sumZ f (order n turns) = sumZ f (seq 0 n).
Proof. apply sumZ_perm, order_perm. Qed.

Lemma fold_wrap32 {A} (f : A → Z) l z :
  foldl (λ total x, wrap32 (total + wrap32 (f x))) (wrap32 z) l = wrap32 (z + sumZ f l).
Proof.
  revert z. induction l as [|x l IH]; intros z; cbn [foldl sumZ]; [by rewrite Z.add_0_r|].
  replace (wrap32 (wrap32 z + wrap32 (f x))) with (wrap32 (z + f x)) by (unfold wrap32; by rewrite <- Z.add_mod).
  rewrite IH. f_equal. lia.
Qed.

(** The SIMD-groups before [k] cover the first lanes. *)
Lemma simd_prefix flags k :
  sumZ (λ sg, sumZ id (simd_lanes flags sg)) (seq 0 k) = prefix flags (k * SIMD).
Proof.
  induction k as [|k IH]; [done|]. rewrite seq_S, sumZ_app, IH. cbn [sumZ Nat.add]. unfold prefix, simd_lanes.
  replace (S k * SIMD)%nat with (k * SIMD + SIMD)%nat by lia.
  rewrite <- (take_drop (k * SIMD) (take (k * SIMD + SIMD) flags)), take_take, Nat.min_l, sumZ_app by lia.
  rewrite List.skipn_firstn_comm. replace (k * SIMD + SIMD - k * SIMD)%nat with SIMD by lia. lia.
Qed.

Lemma group_total_prefix turns gid flags :
  group_total turns gid flags = wrap32 (prefix flags OXIDE_TG).
Proof.
  unfold group_total, simd_sum. rewrite (fold_wrap32 (λ sg, sumZ id (simd_lanes flags sg)) _ 0). f_equal.
  unfold simd_order. by rewrite order_sum, simd_prefix.
Qed.

Lemma simd_base_prefix flags sg : simd_base flags sg = wrap32 (prefix flags (sg * SIMD)).
Proof.
  unfold simd_base, simd_sum. rewrite (fold_wrap32 (λ sg, sumZ id (simd_lanes flags sg)) _ 0). f_equal.
  by rewrite simd_prefix.
Qed.

Lemma simd_local_prefix flags tid :
  simd_prefix_exclusive_sum (simd_lanes flags (tid / SIMD)) (tid mod SIMD)
  = wrap32 (prefix flags tid - prefix flags (tid / SIMD * SIMD)).
Proof.
  unfold simd_prefix_exclusive_sum, simd_sum. f_equal. unfold prefix, simd_lanes.
  pose proof (Nat.div_mod_eq tid SIMD) as Hdm. pose proof (Nat.mod_upper_bound tid SIMD ltac:(done)) as Hlt.
  rewrite take_take, Nat.min_l by lia. set (s := (tid / SIMD * SIMD)%nat) in *.
  rewrite <- (take_drop s (take tid flags)), take_take, Nat.min_l, sumZ_app by lia.
  rewrite List.skipn_firstn_comm. replace (tid - s)%nat with (tid mod SIMD)%nat by lia. lia.
Qed.

Section Compaction.
Context (mask : list Z) (n : nat).
Hypothesis mask_len : (n ≤ length mask)%nat.
#[local] Abbreviation rank := (rank mask n).

Lemma rank_wrap t : (n ≤ t)%nat → Z.of_nat n ≤ u32_max → ∀ i, (i ≤ t)%nat → wrap32 (rank i) = rank i.
Proof.
  intros Hn Hmax i Hi. apply Z.mod_small. pose proof (rank_mono mask n mask_len i t Hi) as Hm.
  rewrite (rank_ge mask n mask_len t Hn) in Hm. pose proof (rank_le mask n mask_len n).
  assert (0 ≤ rank i) by (unfold CudaScan.rank; lia). unfold u32_max in Hmax. lia.
Qed.

Lemma msl_count_launch blocks turns counts0 :
  (blocks * 4 ≤ length counts0)%nat → (n ≤ blocks * OXIDE_TG)%nat → Z.of_nat n ≤ u32_max →
  launch (blocks * TG) turns (msl_block_count turns mask n) counts0
  = Some (le_words (block_total mask n <$> seq 0 blocks) ++ drop (blocks * 4) counts0).
Proof.
  intros Hc Hn Hmax. change (blocks * TG)%nat with (blocks * OXIDE_BLOCK)%nat.
  rewrite (launch_words (count_writes mask n)).
  - by rewrite (concat_counts mask n mask_len), (written_counts mask n mask_len).
  - by rewrite (written_counts mask n mask_len).
  - intros t m Ht Hlen. unfold msl_block_count. change (group_flags mask n) with (block_flags mask n).
    change OXIDE_TG with OXIDE_BLOCK in *.
    rewrite (block_flags_sel mask n mask_len). cbn [mbind option_bind].
    pose proof (Nat.div_mod_eq t OXIDE_BLOCK) as Hdm. pose proof (Nat.mod_upper_bound t OXIDE_BLOCK ltac:(done)) as Hmod.
    assert (t / OXIDE_BLOCK < blocks)%nat as Hb by (apply Nat.Div0.div_lt_upper_bound; lia).
    unfold count_writes at 2. destruct (Nat.eqb_spec (t mod OXIDE_BLOCK) 0) as [H0|H0].
    + unfold store_u32. replace (written (count_writes mask n) t) with (t / OXIDE_BLOCK)%nat.
      2: { rewrite Hdm at 2. by rewrite H0, Nat.add_0_r, Nat.mul_comm, (written_counts mask n mask_len). }
      rewrite Nat.mul_comm. f_equal. unfold le_words. cbn [fmap list_fmap concat]. rewrite app_nil_r. f_equal.
      rewrite group_total_prefix. change OXIDE_TG with OXIDE_BLOCK. rewrite (block_prefix mask n mask_len) by done.
      unfold block_total. replace (t / OXIDE_BLOCK * OXIDE_BLOCK + OXIDE_BLOCK)%nat with (S (t / OXIDE_BLOCK) * OXIDE_BLOCK)%nat by lia.
      apply Z.mod_small. pose proof (rank_mono mask n mask_len (t / OXIDE_BLOCK * OXIDE_BLOCK) (S (t / OXIDE_BLOCK) * OXIDE_BLOCK) ltac:(lia)).
      pose proof (rank_mono mask n mask_len (S (t / OXIDE_BLOCK) * OXIDE_BLOCK) (blocks * OXIDE_BLOCK) ltac:(nia)) as Hle.
      rewrite (rank_ge mask n mask_len _ Hn) in Hle. pose proof (rank_le mask n mask_len n).
      assert (0 ≤ rank (t / OXIDE_BLOCK * OXIDE_BLOCK)) by (unfold CudaScan.rank; lia). unfold u32_max in Hmax. lia.
    + change (le_words []) with (@nil Z). rewrite store_range_nil; [done|].
      pose proof (written_mono (count_writes mask n) t (blocks * OXIDE_BLOCK) ltac:(lia)) as Hw.
      rewrite (written_counts mask n mask_len) in Hw. lia.
Qed.

(** The word a selected thread stores and where. *)
Lemma scatter_position blocks offsets rest t :
  (n ≤ blocks * OXIDE_TG)%nat → Z.of_nat n ≤ u32_max → (t < blocks * OXIDE_TG)%nat → sel mask n t = true →
  offsets = le_words ((λ b, rank (b * OXIDE_TG)) <$> seq 0 blocks) ++ rest →
  ∃ offset, words32 offsets !! (t / OXIDE_TG)%nat = Some offset ∧
    wrap32 (wrap32 (offset + simd_base ((λ i, Z.b2z (sel mask n i)) <$> seq (t / OXIDE_TG * OXIDE_TG) OXIDE_TG)
                              (t mod OXIDE_TG / SIMD))
            + simd_prefix_exclusive_sum
                (simd_lanes ((λ i, Z.b2z (sel mask n i)) <$> seq (t / OXIDE_TG * OXIDE_TG) OXIDE_TG)
                   (t mod OXIDE_TG / SIMD)) (t mod OXIDE_TG mod SIMD)) = rank t.
Proof.
  intros Hn Hmax Ht Hsel ->. set (flags := (λ i, Z.b2z (sel mask n i)) <$> seq (t / OXIDE_TG * OXIDE_TG) OXIDE_TG). pose proof (Nat.div_mod_eq t OXIDE_TG) as Hdm.
  pose proof (Nat.mod_upper_bound t OXIDE_TG ltac:(done)) as Hmod.
  assert (t / OXIDE_TG < blocks)%nat as Hb by (apply Nat.Div0.div_lt_upper_bound; lia).
  exists (rank (t / OXIDE_TG * OXIDE_TG)). split.
  - apply words32_lookup; [by rewrite list_lookup_fmap, lookup_seq_lt|]. unfold word_ok.
    rewrite <- (rank_wrap (blocks * OXIDE_TG) Hn Hmax) by nia. apply Z.mod_pos_bound. done.
  - rewrite simd_base_prefix, simd_local_prefix. unfold wrap32. rewrite Zplus_mod_idemp_r, Zplus_mod_idemp_l, <- Z.add_assoc, (Z.add_comm (_ mod _)), Z.add_assoc, Zplus_mod_idemp_r.
    rewrite <- (rank_wrap (blocks * OXIDE_TG) Hn Hmax t) by lia. unfold wrap32. f_equal.
    assert (prefix flags (t mod OXIDE_TG) = rank t - rank (t / OXIDE_TG * OXIDE_TG)) as ->; [|lia].
    unfold flags. change OXIDE_TG with OXIDE_BLOCK in *. rewrite (block_prefix mask n mask_len) by lia.
    do 2 f_equal. lia.
Qed.

Lemma msl_scatter_launch blocks turns offsets rest out0 :
  (n ≤ blocks * OXIDE_TG)%nat → Z.of_nat n ≤ u32_max → rank n * 4 ≤ Z.of_nat (length out0) →
  offsets = le_words ((λ b, rank (b * OXIDE_TG)) <$> seq 0 blocks) ++ rest →
  launch (blocks * TG) turns (msl_scatter_indices mask n offsets) out0
  = Some (le_words (Z.of_nat <$> filter (λ i, sel mask n i = true) (seq 0 n)) ++ drop (Z.to_nat (rank n) * 4) out0).
Proof.
  intros Hn Hmax Hout Hoff. pose proof (rank_ge mask n mask_len _ Hn) as Hall.
  change (blocks * TG)%nat with (blocks * OXIDE_TG)%nat. rewrite (launch_words (sel_rows mask n)).
  - rewrite (concat_sel mask n mask_len) by done. do 3 f_equal. rewrite <- Hall. unfold CudaScan.rank. lia.
  - unfold CudaScan.rank in *. lia.
  - intros t m Ht Hlen. unfold msl_scatter_indices. change (group_flags mask n) with (block_flags mask n).
    rewrite (block_flags_sel mask n mask_len). cbn [mbind option_bind].
    pose proof (Nat.mod_upper_bound t OXIDE_TG ltac:(done)) as Hmod. pose proof (Nat.div_mod_eq t OXIDE_TG) as Hdm.
    assert (((λ i, Z.b2z (sel mask n i)) <$> seq (t / OXIDE_TG * OXIDE_BLOCK) OXIDE_BLOCK) !! (t mod OXIDE_TG)%nat
      = Some (Z.b2z (sel mask n t))) as ->.
    { rewrite list_lookup_fmap, lookup_seq_lt by done. cbn [fmap option_fmap option_map]. do 3 f_equal.
      change OXIDE_BLOCK with OXIDE_TG. lia. }
    cbn [mbind option_bind]. unfold sel_rows at 2. destruct (sel mask n t) eqn:Hsel; cbn [Z.b2z].
    2: { change (0 =? 0) with true. cbn iota. change (le_words []) with (@nil Z). rewrite store_range_nil; [done|].
         pose proof (rank_mono mask n mask_len t _ (Nat.lt_le_incl _ _ Ht)) as Hm. unfold CudaScan.rank in *. lia. }
    change (1 =? 0) with false. cbn iota.
    destruct (scatter_position blocks offsets rest t Hn Hmax Ht Hsel Hoff) as (offset & -> & Hpos).
    cbn [mbind option_bind]. change OXIDE_BLOCK with OXIDE_TG. rewrite Hpos. unfold store_u32, le_words.
    cbn [fmap list_fmap concat]. rewrite app_nil_r, Nat.mul_comm. do 2 f_equal. unfold CudaScan.rank. lia.
Qed.
End Compaction.

(** ** Gathers *)

Lemma msl_gather_fixed_launch (indices : list Z) n total src w threads turns dst :
  (total ≤ length (words32 indices))%nat →
  (∀ j i, (j < total)%nat → words32 indices !! j = Some i → 0 ≤ i < Z.of_nat n) →
  (n * w ≤ length src)%nat → (total ≤ threads)%nat → (total * w ≤ length dst)%nat →
  launch threads turns (msl_gather_fixed src w indices total) dst
  = Some (concat ((λ j, cell w src (source (words32 indices) j)) <$> seq 0 total) ++ drop (total * w) dst).
Proof.
  intros Hidx Hin Hsrc Ht Hd.
  assert (∀ j, (j < total)%nat → length (cell w src (source (words32 indices) j)) = w) as Hlen.
  { intros j Hj. destruct (source_lookup (words32 indices) n total Hidx Hin j Hj). unfold cell.
    rewrite length_take, length_drop. nia. }
  apply launch_rows; [done..|]. intros t m _ Hm. unfold msl_gather_fixed.
  destruct (Nat.leb_spec total t) as [|Hlt]; [done|].
  destruct (source_lookup (words32 indices) n total Hidx Hin t Hlt) as [-> Hs].
  cbn [mbind option_bind]. rewrite Nat2Z.id, copy_words_spec, Nat.mul_1_r by (rewrite ?Nat.mul_1_r; nia).
  unfold cell. by rewrite (Nat.mul_comm w).
Qed.

Lemma msl_gather_validity_launch (indices : list Z) n total bits threads turns dst :
  (total ≤ length (words32 indices))%nat →
  (∀ j i, (j < total)%nat → words32 indices !! j = Some i → 0 ≤ i < Z.of_nat n) →
  (bitmap_len n ≤ length bits)%nat → (bitmap_len total ≤ threads)%nat → (bitmap_len total ≤ length dst)%nat →
  Z.of_nat total + 7 < U32 →
  ∃ out, launch threads turns (msl_gather_validity bits 1 indices total) dst = Some out ∧
    (bitmap_len total ≤ length out)%nat ∧
    ∀ j, (j < total)%nat → bit_at out j = bit_at bits (source (words32 indices) j).
Proof. intros Hidx Hin Hb Ht Hd Hu. exact (gather_validity_launch (words32 indices) n total Hidx Hin bits Hb threads turns dst Ht Hd Hu). Qed.
