(* ===== verification/MetalTransfer.v ===== *)
(** * What a Metal batch stands for, and transfers

    A Metal column refers to shared memory.  In a memory it stands for the
    column that a CUDA column with the same bytes stands for ([col_in]), so that
    the meaning of device buffers of [CudaSpec] serves both backends, and a
    Metal batch for a record batch ([metal_holds]).  It keeps standing for it
    while no old buffer is written, which is what the logic of [MetalSpec]
    guarantees of every operation.  Uploading copies, downloading aliases; both
    keep the batch. *)

From S2P Require Import Prelude Floats Arrow Core Memory ArrowKernels Kernels Device Bytes Columns ColumnsCorrect.
From S2P Require Import CudaKernels CudaLaunch CudaSpec CudaVector MetalKernels Metal MetalSpec.

#[local] Arguments bitmap_len : simpl never.

(** ** Columns in memory *)

Definition buffer_in (m : Mem) (b : MetalSharedBuffer) (len : nat) (content : list Z) : Prop :=
  m !! ms_buffer b = Some content ∧ (len ≤ ms_len b ≤ length content)%nat.

Record col_in (m : Mem) (mc : MetalColumn) (c : CudaColumn) : Prop := {
  ci_type : cc_type c = mc_type mc;
  ci_len : cc_len c = mc_len mc;
  ci_child : cc_child_len c = mc_child_len mc;
  ci_values_len : cc_values_len c = mc_values_len mc;
  ci_values : buffer_in m (mc_values mc) (mc_values_len mc) (cc_values c);
  ci_validity :
    match mc_validity mc, cc_validity c with
    | Some v, Some bits => buffer_in m v (bitmap_len (mc_len mc)) bits
    | None, None => True
    | _, _ => False
    end;
}.

Definition metal_holds (m : Mem) (d : DeviceBatch) (b : RecordBatch) : Prop :=
  db_schema d = schema b ∧ db_num_rows d = num_rows b ∧ batch_ok b ∧
  ∃ mb cols, db_inner d = BatchMetal mb ∧ mbt_rows mb = num_rows b ∧ Forall2 (col_in m) (mbt_columns mb) cols ∧
    Forall (col_ok (num_rows b)) cols ∧ columns b = col_array <$> cols.

Lemma buffer_in_mono m m' b len content : m ⊆ m' → buffer_in m b len content → buffer_in m' b len content.
Proof. intros Hm [Hb Hl]. split; [by eapply lookup_weaken|done]. Qed.

Lemma col_in_mono m m' mc c : m ⊆ m' → col_in m mc c → col_in m' mc c.
Proof.
  intros Hm [Ht Hl Hc Hv Hvals Hval]. split; try done; [by eapply buffer_in_mono|].
  destruct (mc_validity mc), (cc_validity c); try done. by eapply buffer_in_mono.
Qed.

(** Nothing that happens later changes what a batch stands for, as long as old
    buffers are not written. *)
Lemma metal_holds_mono m m' d b : m ⊆ m' → metal_holds m d b → metal_holds m' d b.
Proof.
  intros Hm (Hs & Hn & Hb & mb & cols & Hin & Hr & Hcols & Hrest). split_and!; [done..|]. exists mb, cols.
  split_and!; [done..| |apply Hrest|apply Hrest]. eapply Forall2_impl; [exact Hcols|]. intros. by eapply col_in_mono.
Qed.

(** ** Columns that a pass is about to fill *)

Section Columns.
Context (m0 : Mem) (F : Assertions).

Definition buffer_will (b : MetalSharedBuffer) (len : nat) (P : list Z → Prop) : Prop :=
  (len ≤ ms_len b)%nat ∧ knows m0 F (ms_buffer b) (λ c, (ms_len b ≤ length c)%nat ∧ P c).

Definition col_will (mc : MetalColumn) (Pv : list Z → Prop) (Pb : option (list Z → Prop)) : Prop :=
  buffer_will (mc_values mc) (mc_values_len mc) Pv ∧
  match mc_validity mc, Pb with
  | Some v, Some P => buffer_will v (bitmap_len (mc_len mc)) P
  | None, None => True
  | _, _ => False
  end.

Lemma buffer_will_in b len P m :
  buffer_will b len P → m0 ⊆ m → sat F m → ∃ c, buffer_in m b len c ∧ P c.
Proof.
  intros [Hl Hk] Hsub Hsat. destruct (knows_sat _ _ _ _ _ Hk Hsub Hsat) as (c & Hc & Hcl & HP).
  exists c. split; [by split|done].
Qed.

Lemma col_will_in mc Pv Pb m :
  col_will mc Pv Pb → m0 ⊆ m → sat F m →
  ∃ values validity,
    col_in m mc (mkCudaColumn (mc_type mc) (mc_len mc) (mc_child_len mc) (mc_values_len mc) values validity) ∧
    Pv values ∧ match Pb, validity with Some P, Some bits => P bits | None, None => True | _, _ => False end.
Proof.
  intros [Hv Hb] Hsub Hsat. destruct (buffer_will_in _ _ _ _ Hv Hsub Hsat) as (values & Hvi & HPv).
  destruct (mc_validity mc) as [v|] eqn:Hmv, Pb as [P|]; try done.
  - destruct (buffer_will_in _ _ _ _ Hb Hsub Hsat) as (bits & Hbi & HPb). exists values, (Some bits).
    split; [|done]. split; cbn; try done. by rewrite Hmv.
  - exists values, None. split; [|done]. split; cbn; try done. by rewrite Hmv.
Qed.
End Columns.

Lemma buffer_will_mono m0 F F' b len P : F ⊆ F' → buffer_will m0 F b len P → buffer_will m0 F' b len P.
Proof. intros HF [Hl Hk]. split; [done|by eapply knows_mono]. Qed.

Lemma col_will_mono m0 F F' mc Pv Pb : F ⊆ F' → col_will m0 F mc Pv Pb → col_will m0 F' mc Pv Pb.
Proof.
  intros HF [Hv Hb]. split; [by eapply buffer_will_mono|].
  destruct (mc_validity mc), Pb; try done. by eapply buffer_will_mono.
Qed.

(** ** Transfers *)

Section Transfer.
Context {D : Type} `{!MetalApi D, !Fmad, !SimdSum}.
Context (new_buffer_length : ∀ d n c, (mtl_new_buffer (D := D) d n).2 = Some c → length c = n).
Variable m0 : Mem.
#[local] Abbreviation inv := (inv (D := D) m0).
#[local] Abbreviation mt_spec := (mt_spec (D := D) m0).

Lemma spec_from_bytes bytes F E :
  mt_spec (λ st, inv st [] F) (shared_from_bytes bytes) E (λ b st, ∃ F', inv st [] F' ∧ F ⊆ F' ∧
    buffer_will m0 F' b (length bytes) (λ c, take (length bytes) c = bytes)).
Proof.
  unfold shared_from_bytes. eapply spec_bind; [by apply spec_alloc|]. intros b. apply spec_and. intros (Hl & HF & Hm).
  eapply spec_bind.
  { eapply (spec_write_prefix _ b bytes); [apply lookup_insert_eq| |lia]. intros c ->. lia. }
  intros ?. apply spec_ret. intros st Hi. rewrite insert_insert_eq in Hi. eexists. split; [exact Hi|].
  split; [by apply insert_subseteq|]. split; [lia|]. right. eexists. split; [apply lookup_insert_eq|].
  intros c (c0 & Hc0 & ->). rewrite Hl, length_app, length_drop, take_app_length. split; [lia|done].
Qed.

Lemma spec_upload_column n c F E :
  cb_ok n c →
  mt_spec (λ st, inv st [] F) (metal_upload_column c) E (λ mc st, ∃ F', inv st [] F' ∧ F ⊆ F' ∧
    ∀ m, m0 ⊆ m → sat F' m → ∃ cc, col_in m mc cc ∧ col_bytes cc = c).
Proof.
  intros (Hlen & Hres & Hvals & Hval & Hchild & _). unfold metal_upload_column.
  eapply spec_bind; [apply spec_from_bytes|]. intros values. apply spec_exists. intros F1.
  eapply spec_pre; [intros st Hst; exact (conj (proj2 Hst) (proj1 Hst))|]. apply spec_and. intros [HF1 Hv].
  eapply (spec_bind _ _ _ _ _ (λ v st, ∃ F', inv st [] F' ∧ F1 ⊆ F' ∧
    match v, cb_validity c with
    | Some b, Some bits => buffer_will m0 F' b (length bits) (λ c, take (length bits) c = bits)
    | None, None => True | _, _ => False end)).
  { destruct (cb_validity c) as [bits|]; [|apply spec_ret; intros st Hi; by exists F1].
    eapply spec_bind; [apply spec_from_bytes|]. intros b. apply spec_ret. intros st (F' & ?). by exists F'. }
  intros v. apply spec_exists. intros F'. apply spec_ret. intros st (Hi & HF' & Hb). exists F'.
  split; [done|]. split; [by etrans|]. intros m Hsub Hsat.
  destruct (buffer_will_in _ _ _ _ _ _ (buffer_will_mono _ _ _ _ _ _ HF' Hv) Hsub Hsat) as (vs & Hvs & Hvt).
  assert (∃ validity, match v, validity with
      | Some b, Some bits => buffer_in m b (bitmap_len n) bits | None, None => True | _, _ => False end ∧
    take (bitmap_len n) <$> validity = cb_validity c) as (validity & Hvi & Hvb).
  { destruct v as [b|], (cb_validity c) as [bits|]; try done; [|by exists None].
    destruct (buffer_will_in _ _ _ _ _ _ Hb Hsub Hsat) as (bs & Hbs & Hbt). rewrite (Hval bits eq_refl) in *.
    exists (Some bs). split; [done|]. cbn. by rewrite Hbt. }
  assert (0 ≤ cb_child_len c) as Hc0.
  { rewrite Hchild. unfold child_items. destruct (cb_type c); cbn in Hres; try done. lia. }
  exists (mkCudaColumn (cb_type c) (Z.to_nat (cb_len c)) (Z.to_nat (cb_child_len c)) (length (cb_values c)) vs validity).
  split.
  - split; cbn; try done. by rewrite Hlen, Nat2Z.id.
  - unfold col_bytes. cbn [cc_type cc_len cc_child_len cc_values_len cc_values cc_validity].
    rewrite Hvt, Hlen, Nat2Z.id, Hvb, Z2Nat.id by done. destruct c. cbn in *. by rewrite Hlen.
Qed.

(** What [mapM] of fallible steps gives, with the assertions growing. *)
Lemma spec_mapM {A B} (f : A → Mt B) l F E (R : Mem → A → B → Prop) :
  (∀ a F, a ∈ l → mt_spec (λ st, inv st [] F) (f a) E (λ b st, ∃ F', inv st [] F' ∧ F ⊆ F' ∧
     ∀ m, m0 ⊆ m → sat F' m → R m a b)) →
  mt_spec (λ st, inv st [] F) (mt_mapM f l) E (λ bs st, ∃ F', inv st [] F' ∧ F ⊆ F' ∧
     ∀ m, m0 ⊆ m → sat F' m → Forall2 (R m) l bs).
Proof.
  revert F. induction l as [|a l IH]; intros F Hf; cbn [mt_mapM].
  { apply spec_ret. intros st Hi. exists F. split; [done|]. split; [done|]. intros. constructor. }
  eapply spec_bind; [apply Hf; set_solver|]. intros b. apply spec_exists. intros F1.
  eapply spec_pre; [intros st Hst; exact (conj (proj2 Hst) (proj1 Hst))|]. apply spec_and. intros [HF1 Hb].
  eapply spec_bind; [apply IH; intros; apply Hf; set_solver|]. intros bs. apply spec_exists. intros F2.
  apply spec_ret. intros st (Hi & HF2 & Hbs). exists F2. split; [done|]. split; [by etrans|].
  intros m Hsub Hsat. constructor; [|by apply Hbs]. apply Hb; [done|].
  intros id Φ Hid. apply Hsat. by eapply lookup_weaken.
Qed.

Context `{!ArrowBuffers, !ArrowBuffersLaws, !ArrowKernels, !ArrowLaws} (to_data : Array → ArrayData).

Lemma metal_upload_spec s b q E :
  to_data_law to_data → metal_queue s = Ok q → batch_ok b → Forall uploadable (columns b) →
  mt_spec (λ st, inv st [] ∅) (metal_upload to_data s b) E (λ d st, ends m0 st ∧ metal_holds (mt_memory st) d b).
Proof.
  intros Hlaw Hs Hb Hres. unfold metal_upload. eapply spec_bind_Ok; [exact Hs|].
  destruct (extract_batch_means to_data b Hlaw Hb Hres) as (cs & Hx & Hcs).
  eapply spec_bind_Ok; [exact Hx|]. eapply spec_bind.
  { apply (spec_mapM _ _ _ _ (λ m c mc, ∃ cc, col_in m mc cc ∧ col_bytes cc = c)). intros c F Hc.
    apply list_elem_of_lookup in Hc as (i & Hi). destruct (Forall2_lookup_r _ _ _ _ _ Hcs Hi) as (a & _ & Hok & _).
    by eapply spec_upload_column. }
  intros cols. apply spec_exists. intros F. apply spec_ret. intros st (Hi & _ & Hcols).
  split; [by eapply inv_ends|]. destruct (inv_run _ _ _ _ Hi []) as (m & [= <-] & Hsub & Hsat).
  specialize (Hcols _ Hsub Hsat). split_and!; [done..|].
  assert (∃ ccs, Forall2 (col_in (mt_memory st)) cols ccs ∧ cs = col_bytes <$> ccs) as (ccs & Hccs & ->).
  { clear -Hcols. induction Hcols as [|c mc cs cols (cc & Hcc & <-) _ (ccs & ? & ->)]; [by exists []|].
    exists (cc :: ccs). split; [by constructor|done]. }
  eexists (mkMetalBatch (num_rows b) cols), ccs. split_and!; [done..| |].
  - apply Forall_forall. intros c Hc. apply list_elem_of_lookup in Hc as (i & Hic).
    assert ((col_bytes <$> ccs) !! i = Some (col_bytes c)) as Hci by by rewrite list_lookup_fmap, Hic.
    by destruct (Forall2_lookup_r _ _ _ _ _ Hcs Hci) as (a & _ & Hok & _).
  - clear -Hcs. apply list_eq_Forall2. revert Hcs. generalize (columns b) as l. induction ccs as [|cc ccs IH]; intros l Hcs.
    { by apply Forall2_nil_inv_r in Hcs as ->. }
    apply Forall2_cons_inv_r in Hcs as (a & l' & [_ <-] & Hcs & ->). constructor; [done|by apply IH].
Qed.

(** ** Downloads *)

Lemma metal_view_shows (st : MetalState D) b len content :
  buffer_in (mt_memory st) b len content → metal_view b len st = (st, Ok (take len content)).
Proof.
  intros [Hb [Hl Hc]]. unfold metal_view, mt_bind, shared_as_slice. rewrite Hb, (proj2 (Nat.leb_le _ _) Hc).
  unfold mt_ret. rewrite take_take, !Nat.min_l by lia. done.
Qed.

Lemma metal_download_column_shows (st : MetalState D) mc c :
  col_in (mt_memory st) mc c → metal_download_column mc st = (st, Ok (col_bytes c)).
Proof.
  intros [Ht Hl Hch Hvl Hv Hb]. unfold metal_download_column, mt_bind. rewrite (metal_view_shows _ _ _ _ Hv).
  unfold col_bytes. rewrite Ht, Hl, Hch, Hvl.
  destruct (mc_validity mc) as [v|], (cc_validity c) as [bits|]; try done. by rewrite (metal_view_shows _ _ _ _ Hb).
Qed.

(** A download reads and changes nothing. *)
Lemma metal_download_shows s q d b (st : MetalState D) :
  metal_queue s = Ok q → metal_holds (mt_memory st) d b → columns b ≠ [] → metal_download s d st = (st, Ok b).
Proof.
  intros Hs (Hsch & Hnr & Hb & mb & cols & Hin & Hrows & Hci & Hok & Hcols) Hne.
  unfold metal_download. rewrite Hs, Hin. cbn [mt_bind mt_lift].
  assert (∀ mcs cs, Forall2 (col_in (mt_memory st)) mcs cs →
    mt_mapM metal_download_column mcs st = (st, Ok (col_bytes <$> cs))) as Hmap.
  { induction 1 as [|mc c mcs cs Hc _ IH]; [done|]. cbn [mt_mapM]. unfold mt_bind at 1.
    rewrite (metal_download_column_shows _ _ _ Hc). unfold mt_bind. by rewrite IH. }
  unfold mt_bind. rewrite (Hmap _ _ Hci). unfold mt_lift. rewrite Hsch, (rebuild_batch_means b); [done|done|done| |].
  - by apply Forall_fmap.
  - by rewrite <- list_fmap_compose.
Qed.
End Transfer.

(** ** The backend *)

Section Backend.
Context {D : Type} `{!MetalApi D, !Fmad, !SimdSum}.
Context (new_buffer_length : ∀ d n c, (mtl_new_buffer (D := D) d n).2 = Some c → length c = n).

(** A new backend is usable, has its queues and a dummy buffer of one zero byte. *)
Lemma metal_new_ok (st : MetalState D) :
  metal_new = Ok st →
  metal_ok st ∧ length (mt_queues st) = QUEUE_POOL ∧ mt_memory st !! ms_buffer (mt_dummy st) = Some [0].
Proof.
  unfold metal_new. destruct mtl_system_default_device as [d|]; [|done].
  unfold QUEUE_POOL. cbn [seq mt_mapM]. unfold mt_bind, mt_call, mt_ret.
  repeat (cbn [mt_device set_device]; match goal with |- context [mtl_new_queue ?d] => destruct (mtl_new_queue d) as [? [?|]] end; [|done]).
  cbn [ok_or]. unfold shared_new, shared_new_uninit, mt_bind, mt_call. cbn [mt_device set_device].
  destruct (mtl_new_buffer _ (Nat.max 1 1)) as [d' [content|]] eqn:Hb; [|done].
  pose proof (new_buffer_length _ _ content ltac:(by rewrite Hb)) as Hl. cbn in Hl.
  cbn [ok_or mt_insert mt_ret]. unfold shared_write_prefix. cbn [mt_memory ms_buffer mt_next set_device].
  rewrite lookup_insert_eq. cbn [ms_len length replicate Nat.leb andb]. rewrite Hl. cbn [Nat.leb].
  intros [= <-]. cbn. assert (drop 1 content = []) as -> by (apply length_zero_iff_nil; rewrite length_drop; lia).
  rewrite insert_insert_eq. cbn. split; [|by rewrite lookup_insert_eq]. split; [|split|].
  - intros id Hid. cbn in *. rewrite lookup_insert_ne by lia. apply lookup_empty.
  - intros name lib. cbn. by rewrite lookup_empty.
  - intros name function p. cbn. by rewrite lookup_empty.
  - cbn. rewrite lookup_insert_eq. by eexists.
Qed.

(** Its streams take the queues in turn. *)
Lemma metal_create_stream_turns (st : MetalState D) :
  length (mt_queues st) = QUEUE_POOL →
  ∃ q, mt_queues st !! Z.to_nat (mt_next_queue st mod 4) = Some q ∧
    (metal_create_stream st).2 = Ok (mkStream Metal (StreamMetal q)) ∧
    mt_next_queue (metal_create_stream st).1 = wrap64 (mt_next_queue st + 1) ∧
    mt_memory (metal_create_stream st).1 = mt_memory st.
Proof.
  intros Hl. pose proof (Z.mod_pos_bound (mt_next_queue st) 4 ltac:(lia)).
  destruct (lookup_lt_is_Some_2 (mt_queues st) (Z.to_nat (mt_next_queue st mod 4))) as [q Hq]; [rewrite Hl; unfold QUEUE_POOL; lia|].
  exists q. split; [done|]. unfold metal_create_stream. rewrite Hl. change (Z.of_nat QUEUE_POOL) with 4. by rewrite Hq.
Qed.

Context `{!ArrowBuffers, !ArrowBuffersLaws, !ArrowKernels, !ArrowLaws} (to_data : Array → ArrayData).

(** C36: a batch uploaded to shared memory comes back: unless the runtime fails,
    the upload gives a batch that a download turns into the very batch that was
    uploaded, now or after whatever has been done since without writing a buffer
    that existed, and the download changes nothing. *)
Theorem metal_roundtrip s q b (st : MetalState D) :
  metal_queue s = Ok q → metal_ok st → to_data_law to_data → batch_ok b → Forall uploadable (columns b) →
  columns b ≠ [] →
  let '(st', r) := metal_upload to_data s b st in
  metal_ok st' ∧ mt_memory st ⊆ mt_memory st' ∧
  match r with
  | Ok d => ∀ later : MetalState D, mt_memory st' ⊆ mt_memory later → metal_download s d later = (later, Ok b)
  | Err e => metal_failure (D := D) e
  | Panic => False
  end.
Proof.
  intros Hs Hok Hlaw Hb Hup Hne.
  pose proof (metal_upload_spec new_buffer_length (mt_memory st) to_data s b q (λ _, False) Hlaw Hs Hb Hup st
    (inv_begin st Hok)) as Hspec.
  destruct (metal_upload to_data s b st) as [st' [d|e|]]; [| |done].
  - destruct Hspec as [[Hok' Hsub] Hd]. split_and!; [done|done|]. intros later Hlater.
    apply (metal_download_shows s q); [done| |done]. by eapply metal_holds_mono.
  - destruct Hspec as ([Hfail|[]] & Hok' & Hsub). done.
Qed.
End Backend.
