(* ===== verification/MetalFilterCorrect.v ===== *)
(** * The Metal filter is the reference filter

    [metal_filter_project] of [Metal] on a batch in shared memory that stands
    for a record batch: two passes, on every order of their threads, leave a
    batch that stands for the reference filter (its schema's metadata aside),
    unless the runtime fails.  No buffer that existed before is written, so that
    the input and every downloaded array stay what they were. *)

From S2P Require Import Prelude Floats Arrow Core Memory ArrowKernels Kernels FilterCorrect Device Bytes Columns ColumnsCorrect.
From S2P Require Import Cuda CudaKernels CudaLaunch CudaScan CudaSpec CudaGather CudaFilterCorrect CudaVector.
From S2P Require Import Encoding MetalKernels Metal MetalSpec MetalLaunch MetalTransfer.

#[local] Arguments bitmap_len : simpl never.
#[local] Arguments width : simpl never.

(** The buffer a kernel writes is bound once. *)
Ltac bound_once :=
  unfold bound_once, raw, u32_arg; cbn [List.filter app];
  repeat match goal with
  | |- context [if (?b =? ?b)%nat then _ else _] => rewrite (Nat.eqb_refl b)
  | |- context [if (?b =? ?out)%nat then _ else _] => rewrite (proj2 (Nat.eqb_neq b out)) by congruence
  end; reflexivity.

(** The arguments a kernel finds are the contents of the buffers it was given. *)
Ltac find_args := apply mapM_Some_2; repeat constructor; cbn [arg_value raw u32_arg]; by simplify_option_eq.

Section Filter.
Context {D : Type} `{!MetalApi D, !Fmad, !SimdSum}.
Context (new_buffer_length : ∀ d n c, (mtl_new_buffer (D := D) d n).2 = Some c → length c = n).
Variable m0 : Mem.
#[local] Abbreviation inv := (inv (D := D) m0).
#[local] Abbreviation mt_spec := (mt_spec (D := D) m0).

Lemma filter_pipeline_spec function pass F E :
  mt_spec (λ st, inv st pass F) (filter_pipeline function) E
    (λ p st, (pl_source p = METAL_FILTER_PROJECT_SRC ∧ pl_function p = function) ∧ inv st pass F).
Proof. by apply spec_pipeline. Qed.

Lemma get_dummy_spec pass F E :
  mt_spec (λ st, inv st pass F) mt_get_dummy E (λ d st, is_Some (m0 !! ms_buffer d) ∧ inv st pass F).
Proof. intros st Hi. split; [apply Hi|done]. Qed.

(** The two arguments for the validity of an input column. *)
Lemma validity_bound mc c dummy :
  col_in m0 mc c → is_Some (m0 !! ms_buffer dummy) →
  ∃ b has bits, validity_args dummy mc = [ArgBuffer b; ArgScalar (ScU32 has)] ∧ m0 !! b = Some bits ∧
    binds_validity has bits (cc_validity c).
Proof.
  intros Hc [bits Hd]. pose proof (ci_validity _ _ _ Hc) as Hv. unfold validity_args.
  destruct (mc_validity mc) as [v|], (cc_validity c) as [b|]; try done.
  - exists (ms_buffer v), 1, b. split_and!; [done|apply Hv|done].
  - exists (ms_buffer dummy), 0, bits. done.
Qed.

Lemma div_ceil_covers n b : (0 < b)%nat → (n ≤ Nat.max (div_ceil n b) 1 * b)%nat.
Proof.
  intros Hb. unfold div_ceil. pose proof (Nat.div_mod_eq (n + (b - 1)) b).
  pose proof (Nat.mod_upper_bound (n + (b - 1)) b ltac:(lia)). nia.
Qed.

(** ** Masks *)

Section Mask.
Context (n : nat) (mb : MetalBatch) (cols : list CudaColumn).
Hypothesis cols_in : Forall2 (col_in m0) (mbt_columns mb) cols.
Hypothesis cols_ok : Forall (col_ok n) cols.

(** A mask among [keep] whose buffer will hold [f]. *)
Definition will_mask (F : Assertions) (keep : list MetalSharedBuffer) (k : nat) (f : nat → bool) : Prop :=
  ∃ out Φ, keep !! k = Some out ∧ F !! ms_buffer out = Some Φ ∧ ∀ c, Φ c → mask_is n c f.

Lemma will_mask_mono F F' keep more k f : F ⊆ F' → will_mask F keep k f → will_mask F' (keep ++ more) k f.
Proof.
  intros HF (out & Φ & Hk & HΦ & Hm). exists out, Φ.
  split; [by apply lookup_app_l_Some|]. split; [by eapply lookup_weaken|done].
Qed.

(** What building the mask of a predicate promises. *)
Definition mask_ok (p : Predicate) : Prop := ∀ pass keep F E,
  leaves_typed cols p → all_int64_leaves p = true →
  mt_spec (λ st, inv st pass F) (metal_mask mb p n pass keep) E (λ r st, ∃ F', inv st r.1.1 F' ∧ F ⊆ F' ∧
    will_mask F' r.1.2 r.2 (mask_row cols p) ∧ (∃ more, r.1.2 = keep ++ more) ∧
    ∀ out, r.1.2 !! r.2 = Some out → F !! ms_buffer out = None).

Lemma metal_mask_leaf idx op literal : mask_ok (Compare idx op literal).
Proof.
  intros pass keep F E. cbn [leaves_typed all_int64_leaves metal_mask].
  intros (c & Hc & Ht) Hint. destruct literal as [v|]; [|done]. cbn [literal_data_type] in Ht.
  destruct (Forall2_lookup_r _ _ _ _ _ cols_in Hc) as (mc & Hmc & Hcin).
  pose proof (Forall_lookup_1 _ _ _ _ cols_ok Hc) as Hcok.
  eapply (spec_bind_Ok _ _ _ _ mc); [unfold metal_column; by rewrite Hmc|].
  eapply (spec_bind_Ok _ _ _ _ v); [by rewrite <- (ci_type _ _ _ Hcin), Ht|].
  eapply spec_bind; [by apply spec_alloc|]. intros out. apply spec_and. intros (Hol & HF & Hm).
  eapply spec_bind; [apply filter_pipeline_spec|]. intros pl. apply spec_and. intros [Hsrc Hfn].
  eapply spec_bind; [apply get_dummy_spec|]. intros dummy. apply spec_and. intros Hdummy.
  destruct (validity_bound mc c dummy Hcin Hdummy) as (b & has & bits & Hargs & Hb & Hbound).
  apply spec_ret. intros st Hi. destruct (ci_values _ _ _ Hcin) as [Hvals _]. rewrite Hargs.
  exists (<[ms_buffer out := λ c', mask_is n c' (mask_row cols (Compare idx op (LInt64 v)))]> F). cbn [fst snd].
  split_and!.
  - erewrite <- (insert_insert_eq F). eapply (inv_dispatch m0 _ _ _ _ _ _ KCompareI64); [exact Hi| | | |apply lookup_insert_eq|].
    + by rewrite Hsrc, Hfn.
    + done.
    + bound_once.
    + intros m content turns Hsub Hsat Hlen Hcontent. cbn beta in Hlen.
      pose proof (lookup_weaken _ _ _ _ Hvals Hsub) as Hvals'. pose proof (lookup_weaken _ _ _ _ Hb Hsub) as Hb'.
      destruct (leaf_launch n cols idx c op (LInt64 v) (Nat.max (div_ceil n TG) 1 * TG) turns content Hcok Ht Hc)
        as (out' & Hl & Hmask & _); [by apply div_ceil_covers; unfold TG; lia|lia|].
      eexists [Bytes (cc_values c); Bytes bits; Constant (ScU32 has); Constant (ScI32 _); Constant (ScI64 v); Bytes content;
               Constant (ScU32 (Z.of_nat n))], out'.
      split; [find_args|]. split; [|done]. cbn [run_kernel]. rewrite Nat2Z.id, <- Hl.
      apply launch_ext. intros t m'. by apply msl_compare_bound.
  - by apply insert_subseteq.
  - exists out. eexists. split; [by apply list_lookup_middle|]. split; [apply lookup_insert_eq|]. auto.
  - by eexists.
  - intros out'. rewrite list_lookup_middle by done. by intros [= <-].
Qed.

Lemma metal_mask_and p1 p2 : mask_ok p1 → mask_ok p2 → mask_ok (And p1 p2).
Proof.
  intros IH1 IH2 pass keep F E. cbn [leaves_typed all_int64_leaves metal_mask].
  intros [H1 H2] [Hi1 Hi2]%andb_true_iff. eapply spec_bind; [by apply IH1|]. intros [[pass1 keep1] l]. cbn [fst snd].
  apply spec_exists. intros F1. eapply spec_pre; [intros st Hst; exact (conj (proj2 Hst) (proj1 Hst))|].
  apply spec_and. intros (HF1 & Hl & (more1 & ->) & _).
  eapply spec_bind; [by apply IH2|]. intros [[pass2 keep2] r]. cbn [fst snd].
  apply spec_exists. intros F2. eapply spec_pre; [intros st Hst; exact (conj (proj2 Hst) (proj1 Hst))|].
  apply spec_and. intros (HF2 & Hr & (more2 & ->) & _).
  eapply spec_bind; [by apply spec_alloc|]. intros out. apply spec_and. intros (Hol & HF & Hm).
  eapply spec_bind; [apply filter_pipeline_spec|]. intros pl. apply spec_and. intros [Hsrc Hfn].
  destruct (will_mask_mono _ F2 _ more2 _ _ HF2 Hl) as (ml & Φl & Hkl & HΦl & Hml). destruct Hr as (mr & Φr & Hkr & HΦr & Hmr).
  eapply (spec_bind_Ok _ _ _ _ ml); [by apply index_Some|]. eapply (spec_bind_Ok _ _ _ _ mr); [by apply index_Some|].
  apply spec_ret. intros st Hi. eexists (<[ms_buffer out := λ c', mask_is n c' _]> F2). cbn [fst snd].
  split_and!.
  - erewrite <- (insert_insert_eq F2). eapply (inv_dispatch m0 _ _ _ _ _ _ KMaskAnd); [exact Hi| | | |apply lookup_insert_eq|].
    + by rewrite Hsrc, Hfn.
    + done.
    + bound_once.
    + intros m content turns Hsub Hsat Hlen Hcontent. cbn beta in Hlen.
      destruct (Hsat (ms_buffer ml) Φl) as (cl & Hcl & HPl); [rewrite lookup_insert_ne; [done|congruence]|].
      destruct (Hsat (ms_buffer mr) Φr) as (cr & Hcr & HPr); [rewrite lookup_insert_ne; [done|congruence]|].
      destruct (and_launch n cl cr _ _ (Nat.max (div_ceil n TG) 1 * TG) turns content (Hml _ HPl) (Hmr _ HPr))
        as (out' & Hlaunch & Hmask & _); [by apply div_ceil_covers; unfold TG; lia|lia|].
      exists [Bytes cl; Bytes cr; Bytes content; Constant (ScU32 (Z.of_nat n))], out'.
      split; [find_args|]. split; [|exact Hmask]. cbn [run_kernel]. by rewrite Nat2Z.id.
  - etrans; [exact HF1|]. etrans; [exact HF2|]. by apply insert_subseteq.
  - exists out. eexists. split; [by apply list_lookup_middle|]. split; [apply lookup_insert_eq|]. auto.
  - exists (more1 ++ more2 ++ [out]). by rewrite !app_assoc.
  - intros out'. rewrite list_lookup_middle by done. intros [= <-].
    eapply lookup_weaken_None; [exact HF|]. by etrans.
Qed.

Lemma metal_mask_spec p : mask_ok p.
Proof. induction p; auto using metal_mask_leaf, metal_mask_and. Qed.
End Mask.

(** ** Compaction *)

(** A mask that says [f], the first of its kind. *)
Definition mask_of (n : nat) (f : nat → bool) : list Z := (λ i, Z.b2z (f i)) <$> seq 0 n.

Lemma mask_of_is n f : mask_is n (mask_of n f) f.
Proof. pose proof (mask_slots n f []) as Hm. rewrite drop_nil, app_nil_r in Hm. exact Hm. Qed.

Lemma sel_mask_of n mask f i : mask_is n mask f → sel mask n i = sel (mask_of n f) n i.
Proof. intros Hm. by rewrite (sel_mask n mask f i Hm), (sel_mask n _ f i (mask_of_is n f)). Qed.

Lemma written_ext {A} (f g : nat → list A) t : (∀ i, f i = g i) → written f t = written g t.
Proof. intros Hfg. unfold written. do 2 f_equal. apply list_fmap_ext. intros ? i _. apply Hfg. Qed.

Lemma rank_mask_of n mask f t : mask_is n mask f → rank mask n t = rank (mask_of n f) n t.
Proof.
  intros Hm. unfold rank. f_equal. apply written_ext. intros i. unfold sel_rows. by rewrite (sel_mask_of n mask f i Hm).
Qed.

Section Compact.
Context (n : nat) (f : nat → bool).
Hypothesis n_u32 : Z.of_nat n ≤ u32_max.
#[local] Abbreviation rank := (rank (mask_of n f) n).
Let groups : nat := Nat.max (div_ceil n TG) 1.
Let mask_len : (n ≤ length (mask_of n f))%nat := proj1 (mask_of_is n f).

Lemma groups_cover : (n ≤ groups * TG)%nat.
Proof. apply div_ceil_covers. unfold TG. lia. Qed.

Lemma groups_max : Nat.max groups 1 = groups.
Proof. unfold groups. lia. Qed.

Lemma rank_all : rank (groups * OXIDE_TG) = Z.of_nat (length (kept_by n f)).
Proof. change OXIDE_TG with TG. rewrite (rank_ge _ _ mask_len _ groups_cover). apply rank_kept, mask_of_is. Qed.

Lemma rank_word t : (t ≤ groups * OXIDE_TG)%nat → word_ok (rank t).
Proof.
  intros Ht. unfold word_ok. rewrite <- (rank_wrap _ _ mask_len (groups * OXIDE_TG) groups_cover n_u32 t Ht).
  by apply Z.mod_pos_bound.
Qed.

(** The counts of the threadgroups. *)
Definition counts_are (c : list Z) : Prop := c = le_words (block_total (mask_of n f) n <$> seq 0 groups).

Lemma dispatch_count_spec st pass F pl mask counts Φ :
  inv st pass F → pl_source pl = METAL_FILTER_PROJECT_SRC → pl_function pl = "oxide_block_count" →
  F !! ms_buffer mask = Some Φ → (∀ c, Φ c → mask_is n c f) → ms_buffer mask ≠ ms_buffer counts →
  F !! ms_buffer counts = Some (λ c, length c = (groups * 4)%nat) →
  inv st (dispatch pass pl [raw mask; u32_arg n; raw counts] groups) (<[ms_buffer counts := counts_are]> F).
Proof.
  intros Hi Hsrc Hfn Hmask HΦ Hne Hcounts. eapply (inv_dispatch m0 _ _ _ _ _ _ KBlockCount); [exact Hi| |done| |exact Hcounts|].
  - by rewrite Hsrc, Hfn.
  - bound_once.
  - intros m content turns Hsub Hsat Hlen Hcontent. cbn beta in Hlen.
    destruct (Hsat _ _ Hmask) as (cm & Hcm & Hm). apply HΦ in Hm. pose proof (proj1 Hm) as Hml.
    eexists [Bytes cm; Constant (ScU32 (Z.of_nat n)); Bytes content], _. split; [find_args|]. cbn [run_kernel].
    rewrite Nat2Z.id, groups_max, (msl_count_launch cm n Hml groups) by (done || lia || apply groups_cover).
    split; [done|]. unfold counts_are. rewrite drop_ge, app_nil_r by lia. f_equal. apply list_fmap_ext. intros ? b _.
    unfold block_total. by rewrite !(rank_mask_of n cm f).
Qed.

(** The offsets of the threadgroups, and how many rows are kept. *)
Definition offsets_are (c : list Z) : Prop := ∃ rest, c = le_words ((λ b, rank (b * OXIDE_TG)) <$> seq 0 groups) ++ rest.

Lemma block_total_word b : (b < groups)%nat → word_ok (block_total (mask_of n f) n b).
Proof.
  intros Hb. unfold block_total. change OXIDE_BLOCK with OXIDE_TG.
  pose proof (rank_mono _ _ mask_len (b * OXIDE_TG) (S b * OXIDE_TG) ltac:(lia)).
  pose proof (rank_word (S b * OXIDE_TG) ltac:(nia)) as [_ Hs]. pose proof (rank_word (b * OXIDE_TG) ltac:(nia)) as [Hz _].
  unfold word_ok. lia.
Qed.

Lemma metal_scan_spec counts F E :
  F !! ms_buffer counts = Some counts_are → ms_len counts = (groups * 4)%nat →
  mt_spec (λ st, inv st [] F) (metal_scan counts groups) E (λ r st, ∃ F', inv st [] F' ∧ F ⊆ F' ∧
    r.2 = length (kept_by n f) ∧ F' !! ms_buffer r.1 = Some (λ c, offsets_are c) ∧ F !! ms_buffer r.1 = None).
Proof.
  intros Hcounts Hlen. unfold metal_scan. set (totals := block_total (mask_of n f) n <$> seq 0 groups).
  assert (length (le_words totals) = (groups * 4)%nat) as Hlw.
  { unfold totals. by rewrite length_le_words, length_fmap, length_seq. }
  eapply spec_bind.
  { eapply (spec_slice _ counts counts_are); [by apply knows_new|]. intros c ->. fold totals. lia. }
  intros slice. apply spec_and. intros (c & Hc & ->). assert (c = le_words totals) as -> by exact Hc.
  rewrite (take_ge (le_words totals)) by lia.
  assert (take groups (words32 (le_words totals)) = totals) as ->.
  { rewrite <- (app_nil_r (le_words totals)). replace groups with (length totals) by (unfold totals; by rewrite length_fmap, length_seq).
    apply words32_prefix. unfold totals. apply Forall_fmap, Forall_forall. intros b Hb%elem_of_seq. apply block_total_word. lia. }
  eapply spec_bind_Ok.
  { apply (scan_from_blocks _ _ mask_len 0 groups). cbn [Nat.add]. change OXIDE_BLOCK with OXIDE_TG.
    pose proof (rank_word (groups * OXIDE_TG) (Nat.le_refl _)) as [_ Hw]. unfold u32_max. lia. }
  cbn [Nat.add]. change OXIDE_BLOCK with OXIDE_TG. rewrite rank_all, Nat2Z.id.
  set (offsets := (λ b, rank (b * OXIDE_TG)) <$> seq 0 groups).
  assert (length offsets = groups) as Hol by (unfold offsets; by rewrite length_fmap, length_seq).
  eapply spec_bind; [by apply spec_alloc|]. intros buf. apply spec_and. intros (Hbl & HF & Hm).
  eapply spec_bind.
  { unfold shared_write_words. rewrite Hbl, Nat.div_mul, take_ge by lia.
    eapply (spec_write_prefix _ buf (le_words offsets)); [apply lookup_insert_eq| |rewrite length_le_words; lia].
    intros c' ->. lia. }
  intros ?. apply spec_ret. intros st Hi. rewrite insert_insert_eq in Hi.
  exists (<[ms_buffer buf := λ c, offsets_are c]> F). split.
  - eapply inv_weaken; [exact Hi|]. intros c' (c0 & _ & ->). by eexists.
  - cbn [fst snd]. split; [by apply insert_subseteq|]. split; [done|]. split; [apply lookup_insert_eq|done].
Qed.

(** The selected rows. *)
Definition indices_are (c : list Z) : Prop := take (length (kept_by n f)) (words32 c) = Z.of_nat <$> kept_by n f.

Lemma kept_words : Forall word_ok (Z.of_nat <$> kept_by n f).
Proof.
  apply Forall_fmap, Forall_forall. intros i [_ Hi%elem_of_seq]%list_elem_of_filter. unfold word_ok, u32_max in *. cbn. lia.
Qed.

Lemma dispatch_scatter_spec st pass F pl mask offsets indices Φ :
  inv st pass F → pl_source pl = METAL_FILTER_PROJECT_SRC → pl_function pl = "oxide_scatter_indices" →
  F !! ms_buffer mask = Some Φ → (∀ c, Φ c → mask_is n c f) → F !! ms_buffer offsets = Some (λ c, offsets_are c) →
  ms_buffer mask ≠ ms_buffer indices → ms_buffer offsets ≠ ms_buffer indices →
  F !! ms_buffer indices = Some (λ c, length c = Nat.max (length (kept_by n f) * 4) 1) →
  inv st (dispatch pass pl [raw mask; u32_arg n; raw offsets; raw indices] groups)
    (<[ms_buffer indices := λ c, indices_are c]> F).
Proof.
  intros Hi Hsrc Hfn Hmask HΦ Hoffsets Hne1 Hne2 Hindices.
  eapply (inv_dispatch m0 _ _ _ _ _ _ KScatterIndices); [exact Hi| |done| |exact Hindices|].
  - by rewrite Hsrc, Hfn.
  - bound_once.
  - intros m content turns Hsub Hsat Hlen Hcontent. cbn beta in Hlen.
    destruct (Hsat _ _ Hmask) as (cm & Hcm & Hm). apply HΦ in Hm. pose proof (proj1 Hm) as Hml.
    destruct (Hsat _ _ Hoffsets) as (co & Hco & rest & Hrest).
    eexists [Bytes cm; Constant (ScU32 (Z.of_nat n)); Bytes co; Bytes content], _. split; [find_args|]. cbn [run_kernel].
    rewrite Nat2Z.id, groups_max. pose proof (rank_kept n cm f Hm) as Hrank.
    rewrite (msl_scatter_launch cm n Hml groups turns co rest);
      [split; [done|]|apply groups_cover|done|rewrite Hrank; lia|].
    + unfold indices_are. rewrite (sel_kept n cm f Hm). rewrite <- (length_fmap Z.of_nat). by apply words32_prefix, kept_words.
    + rewrite Hrest. do 2 f_equal. apply list_fmap_ext. intros ? b _. by rewrite (rank_mask_of n cm f).
Qed.

(** ** Gathers *)

Section Gather.
Context (mc : MetalColumn) (c : CudaColumn) (indices : MetalSharedBuffer).
Hypothesis c_in : col_in m0 mc c.
Hypothesis c_ok : col_ok n c.
Hypothesis c_gatherable : gatherable (cc_type c).
Let idx : list Z := Z.of_nat <$> kept_by n f.
Let total : nat := length (kept_by n f).
Let w : nat := width (cc_type c).
Hypothesis total_u32 : Z.of_nat total + 7 < Prelude.U32.
Hypothesis total_fits : Z.of_nat (total * w) < 2 ^ 63.

Lemma idx_len : length idx = total.
Proof. apply length_fmap. Qed.

Lemma idx_in j i : (j < total)%nat → idx !! j = Some i → 0 ≤ i < Z.of_nat n.
Proof.
  intros _ Hi. apply list_elem_of_lookup_2 in Hi.
  apply list_elem_of_fmap in Hi as (k & -> & [_ Hk%elem_of_seq]%list_elem_of_filter). lia.
Qed.

(** What a kernel reads through the index buffer. *)
Lemma read_indices ci :
  indices_are ci →
  (total ≤ length (words32 ci))%nat ∧ (∀ j, (j < total)%nat → words32 ci !! j = idx !! j) ∧
  (∀ j i, (j < total)%nat → words32 ci !! j = Some i → 0 ≤ i < Z.of_nat n) ∧
  ∀ j, (j < total)%nat → source (words32 ci) j = source idx j.
Proof.
  unfold indices_are. fold total idx. intros Hci.
  assert (∀ j, (j < total)%nat → words32 ci !! j = idx !! j) as Hj.
  { intros j Hj. by rewrite <- Hci, lookup_take_lt by done. }
  split; [|split; [done|split]].
  - apply (f_equal length) in Hci. rewrite length_take, idx_len in Hci. lia.
  - intros j i Hlt. rewrite Hj by done. by apply idx_in.
  - intros j Hlt. unfold source. by rewrite Hj.
Qed.

Definition values_are (values : list Z) : Prop :=
  (total * w ≤ length values)%nat ∧ ∀ j, (j < total)%nat → cell w values j = cell w (cc_values c) (source idx j).

Lemma dispatch_gather_spec st pass F pl values Ψ :
  inv st pass F → pl_source pl = METAL_FILTER_PROJECT_SRC → pl_function pl = "oxide_gather_fixed" →
  F !! ms_buffer indices = Some Ψ → (∀ ci, Ψ ci → indices_are ci) → ms_buffer indices ≠ ms_buffer values →
  F !! ms_buffer values = Some (λ c, length c = Nat.max (total * w) 1) →
  inv st (dispatch pass pl [raw (mc_values mc); u32_arg w; raw indices; u32_arg total; raw values] (div_ceil total TG))
    (<[ms_buffer values := values_are]> F).
Proof.
  intros Hi Hsrc Hfn Hind HΨ Hne Hvalues. destruct (ci_values _ _ _ c_in) as [Hsrcv _].
  assert (m0 !! ms_buffer values = None) as Hnew by (apply (inv_new _ _ _ _ Hi); by rewrite Hvalues).
  eapply (inv_dispatch m0 _ _ _ _ _ _ KGatherFixed); [exact Hi| |done| |exact Hvalues|].
  - by rewrite Hsrc, Hfn.
  - bound_once.
  - intros m content turns Hsub Hsat Hlen Hcontent. cbn beta in Hlen.
    destruct (Hsat _ _ Hind) as (ci & Hci & Hr). destruct (read_indices ci (HΨ _ Hr)) as (Hil & _ & Hin & Hsource).
    pose proof (lookup_weaken _ _ _ _ Hsrcv Hsub) as Hsv. destruct (col_ok_prefix n c c_ok) as [Hsl _].
    eexists [Bytes (cc_values c); Constant (ScU32 (Z.of_nat w)); Bytes ci; Constant (ScU32 (Z.of_nat total)); Bytes content], _.
    split; [find_args|]. cbn [run_kernel]. rewrite !Nat2Z.id.
    rewrite (msl_gather_fixed_launch ci n total (cc_values c) w); [split; [done|]|done|done|done|apply div_ceil_covers; unfold TG; lia|lia].
    assert (∀ j, (j < total)%nat → length (cell w (cc_values c) (source (words32 ci) j)) = w) as Hcl.
    { intros j Hj. destruct (source_lookup (words32 ci) n total Hil Hin j Hj) as [_ Hs].
      unfold cell. rewrite length_take, length_drop. fold w in Hsl. nia. }
    split.
    + rewrite length_app, (length_concat_rows _ w), length_fmap, length_seq; [lia|].
      apply Forall_fmap, Forall_forall. intros j Hj%elem_of_seq. apply Hcl. lia.
    + intros j Hj. rewrite <- Hsource by done. unfold cell at 1. by apply (cell_concat (λ j, cell w (cc_values c) (source (words32 ci) j))).
Qed.

Definition bits_are (bits out : list Z) : Prop :=
  (bitmap_len total ≤ length out)%nat ∧ ∀ j, (j < total)%nat → bit_at out j = bit_at bits (source idx j).

Lemma dispatch_validity_spec st pass F pl src bits dst Ψ :
  inv st pass F → pl_source pl = METAL_FILTER_PROJECT_SRC → pl_function pl = "oxide_gather_validity" →
  mc_validity mc = Some src → cc_validity c = Some bits →
  F !! ms_buffer indices = Some Ψ → (∀ ci, Ψ ci → indices_are ci) → ms_buffer indices ≠ ms_buffer dst →
  F !! ms_buffer dst = Some (λ c, length c = Nat.max (bitmap_len total) 1) →
  inv st (dispatch pass pl [raw src; u32_arg 1; raw indices; u32_arg total; raw dst] (div_ceil (bitmap_len total) TG))
    (<[ms_buffer dst := bits_are bits]> F).
Proof.
  intros Hi Hsrc Hfn Hmv Hcv Hind HΨ Hne Hdst. pose proof (ci_validity _ _ _ c_in) as Hv. rewrite Hmv, Hcv in Hv.
  destruct Hv as [Hsrcb _]. destruct (col_bits n c bits c_ok Hcv) as [Hbl _].
  assert (m0 !! ms_buffer dst = None) as Hnew by (apply (inv_new _ _ _ _ Hi); by rewrite Hdst).
  eapply (inv_dispatch m0 _ _ _ _ _ _ KGatherValidity); [exact Hi| |done| |exact Hdst|].
  - by rewrite Hsrc, Hfn.
  - bound_once.
  - intros m content turns Hsub Hsat Hlen Hcontent. cbn beta in Hlen.
    destruct (Hsat _ _ Hind) as (ci & Hci & Hr). destruct (read_indices ci (HΨ _ Hr)) as (Hil & _ & Hin & Hsource).
    pose proof (lookup_weaken _ _ _ _ Hsrcb Hsub) as Hsb.
    destruct (msl_gather_validity_launch ci n total bits (Nat.max (div_ceil (bitmap_len total) TG) 1 * TG) turns content)
      as (out & Hl & Hol & Hbit); [done|done|done|apply div_ceil_covers; unfold TG; lia|lia|done|].
    eexists [Bytes bits; Constant (ScU32 1); Bytes ci; Constant (ScU32 (Z.of_nat total)); Bytes content], out.
    split; [find_args|]. cbn [run_kernel]. rewrite Nat2Z.id. split; [exact Hl|]. split; [done|].
    intros j Hj. by rewrite <- Hsource, Hbit by done.
Qed.

(** The index buffer is filled by the pass, or there is nothing to select. *)
Definition will_index (F : Assertions) : Prop := ∃ Ψ, F !! ms_buffer indices = Some Ψ ∧ ∀ ci, Ψ ci → indices_are ci.

Lemma gather_values_will pass F E :
  will_index F →
  mt_spec (λ st, inv st pass F)
    (mt_bind (metal_alloc (total * w)) (λ values,
       mt_bind (if (0 <? total)%nat
                then mt_bind (filter_pipeline "oxide_gather_fixed") (λ pipeline,
                       mt_bind (mt_lift (u32_len w "row width")) (λ width_u32,
                         mt_ret (dispatch pass pipeline
                           [raw (mc_values mc); u32_arg width_u32; raw indices; u32_arg total; raw values]
                           (div_ceil total TG))))
                else mt_ret pass) (λ pass, mt_ret (pass, values)))) E
    (λ r st, (ms_len r.2 = (total * w)%nat ∧ F !! ms_buffer r.2 = None) ∧ inv st r.1 (<[ms_buffer r.2 := values_are]> F)).
Proof.
  intros (Ψ & Hind & HΨ). pose proof c_ok as (_ & Hres & _). cbn in Hres.
  destruct (row_width_gatherable _ Hres c_gatherable) as (_ & Hwu & _).
  eapply spec_bind; [by apply spec_alloc|]. intros values. apply spec_and. intros (Hvl & HF & Hm).
  assert (ms_buffer indices ≠ ms_buffer values) as Hne by (intros Heq; by rewrite Heq, HF in Hind).
  eapply (spec_bind _ _ _ _ _ (λ pass st, inv st pass (<[ms_buffer values := values_are]> F))).
  - destruct (Nat.ltb_spec 0 total) as [Hpos|Hzero].
    + eapply spec_bind; [apply filter_pipeline_spec|]. intros pl. apply spec_and. intros [Hsrc Hfn].
      eapply spec_bind_Ok; [exact Hwu|]. apply spec_ret. intros st Hi.
      rewrite <- (insert_insert_eq F (ms_buffer values) values_are (λ c, length c = Nat.max (total * w) 1)).
      eapply dispatch_gather_spec; [exact Hi|done|done| |exact HΨ|done|apply lookup_insert_eq].
      by rewrite lookup_insert_ne.
    + apply spec_ret. intros st Hi. eapply inv_weaken; [exact Hi|]. intros c' Hc'. cbn beta in Hc'. split; [lia|]. intros j Hj. lia.
  - intros pass'. apply spec_ret. intros st Hi. done.
Qed.

Lemma gather_validity_will pass F E :
  will_index F →
  mt_spec (λ st, inv st pass F)
    (match mc_validity mc with
     | Some src =>
         let bytes := div_ceil total 8 in
         mt_bind (metal_alloc bytes) (λ dst,
           mt_bind (if (0 <? total)%nat
                    then mt_bind (filter_pipeline "oxide_gather_validity") (λ pipeline,
                           mt_ret (dispatch pass pipeline
                             [raw src; u32_arg 1; raw indices; u32_arg total; raw dst] (div_ceil bytes TG)))
                    else mt_ret pass) (λ pass, mt_ret (pass, Some dst)))
     | None => mt_ret (pass, None)
     end) E
    (λ r st, ∃ F', inv st r.1 F' ∧ F ⊆ F' ∧
       match cc_validity c, r.2 with
       | Some bits, Some dst => ms_len dst = bitmap_len total ∧ F' !! ms_buffer dst = Some (bits_are bits)
       | None, None => True
       | _, _ => False
       end).
Proof.
  intros (Ψ & Hind & HΨ). pose proof (ci_validity _ _ _ c_in) as Hv.
  destruct (mc_validity mc) as [src|] eqn:Hmv, (cc_validity c) as [bits|] eqn:Hcv; try done.
  2: { apply spec_ret. intros st Hi. by exists F. }
  change (div_ceil total 8) with (bitmap_len total). cbv zeta.
  eapply spec_bind; [by apply spec_alloc|]. intros dst. apply spec_and. intros (Hdl & HF & Hm).
  assert (ms_buffer indices ≠ ms_buffer dst) as Hne by (intros Heq; by rewrite Heq, HF in Hind).
  eapply (spec_bind _ _ _ _ _ (λ pass st, inv st pass (<[ms_buffer dst := bits_are bits]> F))).
  - destruct (Nat.ltb_spec 0 total) as [Hpos|Hzero].
    + eapply spec_bind; [apply filter_pipeline_spec|]. intros pl. apply spec_and. intros [Hsrc Hfn].
      apply spec_ret. intros st Hi.
      rewrite <- (insert_insert_eq F (ms_buffer dst) (bits_are bits) (λ c, length c = Nat.max (bitmap_len total) 1)).
      eapply dispatch_validity_spec; [exact Hi|done|done|exact Hmv|exact Hcv| |exact HΨ|done|apply lookup_insert_eq].
      by rewrite lookup_insert_ne.
    + apply spec_ret. intros st Hi. eapply inv_weaken; [exact Hi|]. intros c' Hc'. cbn beta in Hc'. split; [lia|]. intros j Hj. lia.
  - intros pass'. apply spec_ret. intros st Hi. eexists. split; [exact Hi|]. cbn [fst snd].
    split; [by apply insert_subseteq|]. split; [done|apply lookup_insert_eq].
Qed.

(** The column that the pass will have gathered. *)
Lemma metal_gather_spec pass F E :
  will_index F →
  mt_spec (λ st, inv st pass F) (metal_gather mc indices total pass) E (λ r st, ∃ F', inv st r.1 F' ∧ F ⊆ F' ∧
    ∀ m, m0 ⊆ m → sat F' m → ∃ c', col_in m r.2 c' ∧ gathered c idx total c').
Proof.
  intros Hind. pose proof c_ok as (_ & Hres & _). cbn in Hres.
  destruct (row_width_gatherable _ Hres c_gatherable) as (Hrw & _ & _). pose proof (ci_type _ _ _ c_in) as Ht.
  unfold metal_gather. rewrite <- Ht. eapply spec_bind_Ok; [exact Hrw|]. cbv zeta. change (Z.to_nat (row_bytes (cc_type c))) with w.
  eapply spec_bind_Ok; [apply u32_len_small; lia|].
  apply spec_pair_assoc. eapply spec_bind; [by apply gather_values_will|]. intros [pass1 values]. cbn [fst snd].
  apply spec_and. intros [Hvl HF]. eapply spec_bind.
  { apply gather_validity_will. destruct Hind as (Ψ & Hi & HΨ). exists Ψ. split; [|done].
    rewrite lookup_insert_ne; [done|]. intros Heq. by rewrite <- Heq, HF in Hi. }
  intros [pass2 validity]. cbn [fst snd]. apply spec_exists. intros F2. apply spec_ret.
  intros st (Hi & HF2 & Hval). exists F2. cbn [fst snd]. split; [done|]. split; [etrans; [|exact HF2]; by apply insert_subseteq|].
  intros m Hsub Hsat.
  destruct (Hsat (ms_buffer values) values_are) as (vs & Hvs & Hare); [eapply lookup_weaken; [apply lookup_insert_eq|exact HF2]|].
  pose proof Hare as [Hvsl Hcells].
  assert (∃ v, match validity, v with
      | Some dst, Some bits => buffer_in m dst (bitmap_len total) bits | None, None => True | _, _ => False end ∧
    validity_gathered c idx total v) as (v & Hvin & Hvg).
  { unfold validity_gathered. destruct (cc_validity c) as [bits|], validity as [dst|]; try done; [|by exists None].
    destruct Hval as [Hdl Hd]. destruct (Hsat _ _ Hd) as (out & Hout & Hol & Hbit).
    exists (Some out). split; [split; [done|lia]|]. by exists out. }
  exists (mkCudaColumn (cc_type c) total (total * Z.to_nat (default 0 (vector_dimension (cc_type c)))) (total * w) vs v).
  split; [split; cbn; try done; split; [done|lia]|].
  apply (gathered_means n c idx total c_ok c_gatherable); [rewrite idx_len; lia|intros; by eapply idx_in|done|done|done|done|done].
Qed.
End Gather.

Lemma will_index_mono indices F F' : F ⊆ F' → will_index indices F → will_index indices F'.
Proof. intros HF (Ψ & Hi & HΨ). exists Ψ. split; [by eapply lookup_weaken|done]. Qed.

(** The columns of the projection. *)
Lemma metal_gathers_spec mb all indices projection pass F E :
  let idx := Z.of_nat <$> kept_by n f in
  let total := length (kept_by n f) in
  Forall2 (col_in m0) (mbt_columns mb) all → Forall (col_ok n) all → Z.of_nat total + 7 < Prelude.U32 →
  Forall (λ i, ∃ c, all !! i = Some c ∧ gatherable (cc_type c) ∧ Z.of_nat (total * width (cc_type c)) < 2 ^ 63) projection →
  will_index indices F →
  mt_spec (λ st, inv st pass F) (metal_gathers mb projection indices total pass) E (λ r st, ∃ F', inv st r.1 F' ∧ F ⊆ F' ∧
    ∀ m, m0 ⊆ m → sat F' m → ∃ cols, Forall2 (col_in m) r.2 cols ∧
      Forall2 (λ i c', ∃ c, all !! i = Some c ∧ col_ok n c ∧ gathered c idx total c') projection cols).
Proof.
  intros idx total Hin Hok Hu Hproj. revert pass F. induction Hproj as [|i projection (c & Hc & Hg & Hsz) _ IH];
    intros pass F Hind; cbn [metal_gathers].
  { apply spec_ret. intros st Hi. exists F. split; [done|]. split; [done|]. intros. exists []. by split. }
  destruct (Forall2_lookup_r _ _ _ _ _ Hin Hc) as (mc & Hmc & Hcin). pose proof (Forall_lookup_1 _ _ _ _ Hok Hc) as Hcok.
  eapply (spec_bind_Ok _ _ _ _ mc); [unfold metal_column; by rewrite Hmc|].
  eapply spec_bind; [by apply (metal_gather_spec mc c indices)|]. intros [pass1 c1]. cbn [fst snd].
  apply spec_exists. intros F1. eapply spec_pre; [intros st Hst; exact (conj (proj2 Hst) (proj1 Hst))|].
  apply spec_and. intros [HF1 Hc1].
  eapply spec_bind; [apply IH; by eapply will_index_mono|]. intros [pass2 cs]. cbn [fst snd]. apply spec_exists. intros F2.
  apply spec_ret. intros st (Hi & HF2 & Hcs). exists F2. cbn [fst snd]. split; [done|]. split; [by etrans|].
  intros m Hsub Hsat. destruct (Hcs m Hsub Hsat) as (cols & Hcols & Hgs).
  destruct (Hc1 m Hsub) as (c' & Hc' & Hgd); [intros id Φ Hid; apply Hsat; by eapply lookup_weaken|].
  exists (c' :: cols). split; constructor; try done. by exists c.
Qed.
(** The second pass fills the index buffer, when there is something to select. *)
Lemma scatter_pass_spec mask offsets indices F Φ E :
  F !! ms_buffer mask = Some Φ → (∀ c, Φ c → mask_is n c f) → F !! ms_buffer offsets = Some (λ c, offsets_are c) →
  F !! ms_buffer indices = None →
  mt_spec (λ st, inv st [] (<[ms_buffer indices := λ c, length c = Nat.max (length (kept_by n f) * 4) 1]> F))
    (if (0 <? length (kept_by n f))%nat
     then mt_bind (filter_pipeline "oxide_scatter_indices") (λ pipeline,
            mt_ret (dispatch [] pipeline [raw mask; u32_arg n; raw offsets; raw indices] groups))
     else mt_ret []) E
    (λ pass st, inv st pass (<[ms_buffer indices := λ c, indices_are c]> F)).
Proof.
  intros Hmask HΦ Hoffsets Hnone.
  assert (ms_buffer mask ≠ ms_buffer indices) as Hne1 by (intros Heq; by rewrite Heq, Hnone in Hmask).
  assert (ms_buffer offsets ≠ ms_buffer indices) as Hne2 by (intros Heq; by rewrite Heq, Hnone in Hoffsets).
  destruct (Nat.ltb_spec 0 (length (kept_by n f))) as [Hpos|Hzero].
  - eapply spec_bind; [apply filter_pipeline_spec|]. intros pl. apply spec_and. intros [Hsrc Hfn].
    apply spec_ret. intros st Hi. rewrite <- (insert_insert_eq F (ms_buffer indices) (λ c, indices_are c)
      (λ c, length c = Nat.max (length (kept_by n f) * 4) 1)).
    eapply dispatch_scatter_spec; [exact Hi|done|done| |exact HΦ| |done|done|apply lookup_insert_eq];
      by rewrite lookup_insert_ne.
  - apply spec_ret. intros st Hi. eapply inv_weaken; [exact Hi|]. intros c _. unfold indices_are.
    assert (kept_by n f = []) as -> by (apply length_zero_iff_nil; lia). done.
Qed.
End Compact.

(** ** The filter *)

Context `{!ArrowKernels, !ArrowLaws}.

Lemma int_pred_agrees b p : all_int64_leaves p = true → pred_agrees b p.
Proof.
  induction p as [idx op literal|p1 IH1 p2 IH2]; cbn; [by destruct literal|]. intros [? ?]%andb_true_iff. auto.
Qed.

(** The result: what the passes leave is the reference filter. *)
Lemma filtered_holds m b (all : list CudaColumn) p proj (fs : list Field) (cs cols : list CudaColumn) out :
  batch_ok b → columns b = col_array <$> all → Forall (col_ok (num_rows b)) all → pred_agrees b p → pred_fault b p = None →
  mapM (λ i, fields (schema b) !! i) proj = Some fs → mapM (λ i, all !! i) proj = Some cs →
  let total := length (kept_by (num_rows b) (mask_row all p)) in
  let idx := Z.of_nat <$> kept_by (num_rows b) (mask_row all p) in
  Forall2 (col_in m) out cols →
  Forall2 (λ i c', ∃ c, all !! i = Some c ∧ col_ok (num_rows b) c ∧ gathered c idx total c') proj cols →
  ∃ ref, filter_project b p proj = Ok ref ∧
    metal_holds m (mkDeviceBatch Metal (Schema_new fs) total (BatchMetal (mkMetalBatch total out))) (no_metadata ref).
Proof.
  intros Hb Hcols Hok Hagree Hfault Hf Hc total idx Hout Hgs.
  assert (mapM (λ i, columns b !! i) proj = Some (col_array <$> cs)) as Hca.
  { apply mapM_Some_2, Forall2_fmap_r. apply mapM_Some in Hc. eapply Forall2_impl; [exact Hc|].
    intros i c Hi. cbn. by rewrite Hcols, list_lookup_fmap, Hi. }
  assert (kept_by (num_rows b) (mask_row all p) = kept_rows b p) as Hkept by by apply kept_by_rows.
  unfold total, idx in *. rewrite Hkept in *. fold (kept b p) in Hgs.
  assert (length (kept_rows b p) = length (kept b p)) as Hlen by (unfold kept; by rewrite length_fmap).
  rewrite Hlen in Hgs.
  destruct (gathered_projection (num_rows b) all proj (kept b p) (kept b p) cs cols Hc) as [Hcok Hcarr];
    [by rewrite take_ge by done|apply kept_in_rows|done|]. rewrite <- Hlen in Hcok.
  eexists. split; [by apply (filter_batch_spec b p fs (col_array <$> cs) proj)|].
  split_and!; [done|done|by apply (kept_batch_ok b p fs (col_array <$> cs) proj)|].
  exists (mkMetalBatch (length (kept_rows b p)) out), cols. split_and!; [done..|]. cbn. rewrite Hcarr.
  by rewrite <- list_fmap_compose.
Qed.

Lemma dispatch_filter_spec queue a b :
  metal_holds m0 (fp_input a) b → Z.of_nat (num_rows b) + 7 < Prelude.U32 →
  pred_fault b (fp_predicate a) = None → all_int64_leaves (fp_predicate a) = true →
  Forall (λ i, (i < num_columns b)%nat) (fp_projection a) →
  Forall (λ c, gatherable (data_type c)) (columns b) →
  mt_spec (λ st, inv st [] ∅) (dispatch_filter_project queue a) (λ _, False) (λ d st, ends m0 st ∧ ∃ ref,
    filter_project b (fp_predicate a) (fp_projection a) = Ok ref ∧ metal_holds (mt_memory st) d (no_metadata ref)).
Proof.
  intros (Hsch & Hnr & Hb & mb & all & Hin & Hrows & Hall & Hok & Hcols) Hu Hfault Hint Hproj Hgather.
  set (p := fp_predicate a) in *. set (proj := fp_projection a) in *. set (n := num_rows b) in *.
  destruct (mapM_lookup_in (fields (schema b)) proj) as [fs Hf]; [by rewrite (batch_ok_num_columns _ Hb)|].
  destruct (mapM_lookup_in all proj) as [cs Hc]; [unfold num_columns in Hproj; by rewrite Hcols, length_fmap in Hproj|].
  destruct (mapM_lookup_in (mbt_columns mb) proj) as [ms Hms].
  { rewrite (Forall2_length _ _ _ Hall). unfold num_columns in Hproj. by rewrite Hcols, length_fmap in Hproj. }
  unfold dispatch_filter_project. eapply (spec_bind_Ok _ _ _ _ mb); [unfold metal_batch; by rewrite Hin|].
  eapply (spec_bind_Ok _ _ _ _ n); [rewrite Hrows; apply u32_len_small; lia|].
  eapply (spec_bind_Ok _ _ _ _ fs); [rewrite Hsch; by apply mapM_ok_or|].
  eapply (spec_bind_Ok _ _ _ _ ms); [by apply mapM_ok_or|]. cbv zeta. set (groups := Nat.max (div_ceil n TG) 1).
  set (f := mask_row all p). assert (Z.of_nat n ≤ u32_max) as Hn by (unfold u32_max; lia).
  assert (length (kept_by n f) ≤ n)%nat as Hle.
  { unfold kept_by. etrans; [apply length_filter|]. by rewrite length_seq. }
  eapply spec_bind; [by apply spec_alloc|]. intros counts. apply spec_and. intros (Hcl & _ & _).
  replace (Nat.max (groups * 4) 1) with (groups * 4)%nat by lia.
  eapply spec_bind; [apply spec_begin|]. intros ?. apply spec_and. intros ->.
  eapply spec_bind; [by apply (metal_mask_spec n mb all Hall Hok p); [by eapply pred_fault_typed|]|].
  intros [[pass1 masks] k]. cbn [fst snd]. apply spec_exists. intros F1.
  eapply spec_pre; [intros st Hst; exact (conj (proj2 Hst) (proj1 Hst))|]. apply spec_and.
  intros (HF1 & (mask & Φ & Hk & HΦ & Hmask) & _ & Hfresh). specialize (Hfresh mask Hk).
  assert (ms_buffer mask ≠ ms_buffer counts) as Hne by (intros Heq; by rewrite Heq, lookup_insert_eq in Hfresh).
  eapply spec_bind; [apply filter_pipeline_spec|]. intros pl. apply spec_and. intros [Hsrc Hfn].
  eapply (spec_bind_Ok _ _ _ _ mask); [by apply index_Some|].
  eapply spec_bind.
  { eapply spec_pre; [|apply spec_finish]. intros st Hi.
    apply (dispatch_count_spec n f Hn st pass1 F1 pl mask counts Φ); try done.
    eapply lookup_weaken; [apply lookup_insert_eq|]. exact HF1. }
  intros ?. assert ((<[ms_buffer counts := counts_are n f]> F1) !! ms_buffer mask = Some Φ) as HΦ1.
  { rewrite lookup_insert_ne; [done|congruence]. }
  eapply spec_bind; [by apply (metal_scan_spec n f Hn); [apply lookup_insert_eq|]|].
  intros [offsets total]. cbn [fst snd]. apply spec_exists. intros F2.
  eapply spec_pre; [intros st Hst; exact (conj (proj2 Hst) (proj1 Hst))|]. apply spec_and. intros (HF2 & -> & Hoff & _).
  pose proof (lookup_weaken _ _ _ _ HΦ1 HF2) as HΦ2.
  eapply spec_bind; [by apply spec_alloc|]. intros indices. apply spec_and. intros (_ & Hnone & _).
  eapply spec_bind; [apply spec_begin|]. intros ?. apply spec_and. intros ->.
  eapply spec_bind; [by apply (scatter_pass_spec n f Hn mask offsets indices F2 Φ)|]. intros pass2.
  eapply spec_bind.
  { apply (metal_gathers_spec n f mb all indices proj); [done|done|lia| |].
    - apply Forall_forall. intros i (j & Hj)%list_elem_of_lookup. apply mapM_Some in Hc.
      destruct (Forall2_lookup_l _ _ _ _ _ Hc Hj) as (c & _ & Hi). exists c. split; [done|]. split.
      + rewrite Hcols in Hgather. apply (Forall_lookup_1 _ _ i (col_array c) Hgather). by rewrite list_lookup_fmap, Hi.
      + pose proof (Forall_lookup_1 _ _ _ _ Hok Hi) as (_ & _ & _ & _ & _ & Hsz & _). change (cb_type (col_bytes c)) with (cc_type c) in Hsz. nia.
    - eexists. split; [apply lookup_insert_eq|]. auto. }
  intros [pass3 cols']. cbn [fst snd]. apply spec_exists. intros F3.
  eapply spec_pre; [intros st Hst; exact (conj (proj2 Hst) (proj1 Hst))|]. apply spec_and. intros [_ Hgs].
  eapply spec_bind; [apply spec_finish|]. intros ?. apply spec_ret. intros st Hi.
  split; [by eapply inv_ends|]. destruct (inv_run _ _ _ _ Hi []) as (m & [= <-] & Hsub & Hsat).
  destruct (Hgs _ Hsub Hsat) as (cols & Hcols' & Hg). apply (filtered_holds _ b all p proj fs cs cols cols'); try done. by apply int_pred_agrees.
Qed.

End Filter.

Section Correct.
Context {D : Type} `{!MetalApi D, !Fmad, !SimdSum, !ArrowKernels, !ArrowLaws}.
Context (new_buffer_length : ∀ d n c, (mtl_new_buffer (D := D) d n).2 = Some c → length c = n).

(** C8: the Metal filter on any order of the threads of its kernels: given a batch in
    shared memory that stands for a record batch, an [Int64] predicate and a
    projection in range, it ends with a batch that stands for the reference
    filter's output (its schema's metadata aside), or with an error of the
    runtime if the runtime failed; it never leaves a buffer. In both cases the
    backend stays usable and no buffer that existed is written, so that every
    batch that stood for a record batch still does. *)
Theorem metal_filter_correct s q a b (st : MetalState D) :
  metal_queue s = Ok q → metal_ok st →
  metal_holds (mt_memory st) (fp_input a) b → Z.of_nat (num_rows b) + 7 < Prelude.U32 →
  pred_fault b (fp_predicate a) = None → metal_supports_predicate (fp_predicate a) = true →
  Forall (λ i, (i < num_columns b)%nat) (fp_projection a) →
  Forall (λ c, gatherable (data_type c)) (columns b) →
  let '(st', r) := metal_filter_project s a st in
  metal_ok st' ∧ (∀ d b', metal_holds (mt_memory st) d b' → metal_holds (mt_memory st') d b') ∧
  match r with
  | Ok d => ∃ ref, filter_project b (fp_predicate a) (fp_projection a) = Ok ref ∧
              metal_holds (mt_memory st') d (no_metadata ref)
  | Err e => metal_failure (D := D) e
  | Panic => False
  end.
Proof.
  intros Hs Hok Hh Hu Hf Hp Hproj Hg. unfold metal_filter_project, mt_bind, mt_lift. rewrite Hs.
  pose proof (dispatch_filter_spec new_buffer_length (mt_memory st) q a b Hh Hu Hf Hp Hproj Hg st (inv_begin st Hok)) as Hspec.
  destruct (dispatch_filter_project q a st) as [st' [d|e|]]; [| |done].
  - destruct Hspec as ([Hok' Hsub] & Href). split; [done|]. split; [|done]. intros. by eapply metal_holds_mono.
  - destruct Hspec as ([Hfail|[]] & Hok' & Hsub). split; [done|]. split; [|done]. intros. by eapply metal_holds_mono.
Qed.
End Correct.

(** ** Examples *)

Module MetalExample.

(** A runtime that does not fail, whose allocations hold junk and whose threads
    run from the last to the first. *)
#[export] Instance backwards : MetalApi nat := {|
  mtl_system_default_device := Some 0%nat;
  mtl_new_queue d := (S d, Some d);
  mtl_new_buffer d n := (S d, Some (replicate n (Z.of_nat d mod 256)));
  mtl_new_library d _ := (S d, inr d);
  mtl_new_function d _ _ := (S d, Some d);
  mtl_new_pipeline d _ := (S d, inr d);
  mtl_command_buffer d _ := (S d, true);
  mtl_compute_encoder d := (S d, true);
  mtl_commit d dispatches := (S d, (replicate dispatches (reverse (seq 0 256)), None));
  mtl_max_working_set _ := 2 ^ 33;
  mtl_allocated d := Z.of_nat d;
|}.
#[export] Instance fused : Fmad := f32_fma.
#[export] Instance in_order : SimdSum := foldl f32_add f32_zero.

Lemma buffer_length d n c : (mtl_new_buffer (D := nat) d n).2 = Some c → length c = n.
Proof. intros [= <-]. apply length_replicate. Qed.
Lemma healthy_backwards : healthy (D := nat).
Proof. split; try done; intros; by eexists. Qed.

(** The demo batch of [FilterExample] in shared memory, behind the dummy buffer. *)
Definition memory : Mem :=
  <[0%nat := [0]]>
  (<[1%nat := concat (to_le_bytes 8 <$> [3; 0; 7; 9])]> (<[2%nat := [13]]>
  (<[3%nat := concat (to_le_bytes 8 <$> [0x4008000000000000; 0; 0; 0x4022000000000000])]> (<[4%nat := [11]]> ∅)))).
Definition start : MetalState nat := mkMetal 0%nat memory 5 ∅ ∅ [7%nat] 0 (mkShared 0 1).
Definition stream : DeviceStream := mkStream Metal (StreamMetal 7).
Definition demo_device : DeviceBatch :=
  mkDeviceBatch Metal (schema FilterExample.demo) 4
    (BatchMetal (mkMetalBatch 4
       [mkMetalColumn Int64 4 0 32 (mkShared 1 32) (Some (mkShared 2 1));
        mkMetalColumn Float64 4 0 32 (mkShared 3 32) (Some (mkShared 4 1))])).

Lemma start_ok : metal_ok start.
Proof.
  split; [|split|by eexists].
  - intros id Hid. cbn in Hid. unfold start, memory. cbn [mt_memory]. by rewrite !lookup_insert_ne by lia.
  - intros name lib. cbn. by rewrite lookup_empty.
  - intros name function p. cbn. by rewrite lookup_empty.
Qed.

Lemma demo_in_memory : metal_holds (mt_memory start) demo_device FilterExample.demo.
Proof.
  destruct CudaExample.demo_holds as (_ & _ & Hb & cb & [= <-] & _ & Hok & Hcols).
  split_and!; [done|done|exact Hb|]. eexists _, CudaExample.demo_columns. split_and!; [done|done| |exact Hok|exact Hcols].
  repeat constructor; cbn; lia.
Qed.

(** [k > 2 AND k <= 8]. *)
Definition int_pred : Predicate := And (Compare 0 CGt (LInt64 2)) (Compare 0 CLtEq (LInt64 8)).
Definition args (projection : list nat) : FilterProjectArgs := mkFilterArgs demo_device int_pred projection.

Lemma metal_filter_correct_witness :
  let '(st', r) := metal_filter_project stream (args [1; 0]%nat) start in
  metal_ok st' ∧ (∀ d b', metal_holds (mt_memory start) d b' → metal_holds (mt_memory st') d b') ∧
  match r with
  | Ok d => ∃ ref, filter_project FilterExample.demo int_pred [1; 0]%nat = Ok ref ∧
              metal_holds (mt_memory st') d (no_metadata ref)
  | Err e => metal_failure (D := nat) e
  | Panic => False
  end.
Proof.
  apply (metal_filter_correct buffer_length stream 7 (args [1; 0]%nat) FilterExample.demo start);
    [reflexivity|apply start_ok|apply demo_in_memory|vm_compute; reflexivity|vm_compute; reflexivity|vm_compute; reflexivity
    |repeat constructor|repeat constructor].
Defined.

(** The two rows that qualify, in memory. *)
Example demo_on_metal :
  let '(c, r) := metal_filter_project stream (args [0]%nat) start in
  match r with
  | Ok d => db_num_rows d = 2%nat ∧
      match db_inner d with
      | BatchMetal b => (λ m, words32 (default [] (mt_memory c !! ms_buffer (mc_values m)))) <$> mbt_columns b = [[3; 0; 7; 0]]
      | _ => False
      end
  | _ => False
  end.
Proof. vm_compute. done. Qed.

(** A round trip of the demo batch from a new backend. *)
#[local] Existing Instance ColumnsExample.packed_buffers.
#[local] Existing Instance ColumnsExample.packed_buffers_laws.

Lemma demo_uploadable : Forall uploadable (columns FilterExample.demo).
Proof. repeat constructor; cbn; done. Qed.

Lemma metal_roundtrip_witness :
  let '(st', r) := metal_upload encode_array stream FilterExample.demo start in
  metal_ok st' ∧ mt_memory start ⊆ mt_memory st' ∧
  match r with
  | Ok d => ∀ later : MetalState nat, mt_memory st' ⊆ mt_memory later →
              metal_download stream d later = (later, Ok FilterExample.demo)
  | Err e => metal_failure (D := nat) e
  | Panic => False
  end.
Proof.
  apply (metal_roundtrip buffer_length encode_array stream 7 FilterExample.demo start);
    [reflexivity|apply start_ok|apply encode_array_law|apply demo_in_memory|apply demo_uploadable|discriminate].
Defined.
End MetalExample.
