(* ===== verification/MetalVectorCorrect.v ===== *)
(** * The Metal distances are sums over the same terms

    [metal_vector_distance] of [Metal] on a batch in shared memory that stands
    for a record batch: on every order of the threads it leaves a batch that
    stands for the input with a distance column appended, in the sense of
    [CudaVectorCorrect]: each distance is the metric's formula over sums in
    which every dimension occurs once.  [simd_sum] adds the lanes in an order of
    its own ([SimdSumLaw]).  Arithmetic is IEEE: what Metal's fast-math mode may
    do to it is not modelled. *)

From S2P Require Import Prelude Floats Arrow Core Memory ArrowKernels Kernels FilterCorrect VectorCorrect.
From S2P Require Import Device Bytes Columns ColumnsCorrect CudaKernels CudaLaunch Cuda CudaSpec CudaGather.
From S2P Require Import CudaFilterCorrect CudaVector CudaVectorCorrect CudaVectorExact FloatFacts.
From S2P Require Import MetalKernels Metal MetalSpec MetalLaunch MetalTransfer MetalFilterCorrect.

#[local] Arguments bitmap_len : simpl never.
#[local] Arguments width : simpl never.

(** ** [simd_sum] *)

(** The sum of the lanes, each once, in some order and grouping. *)
Inductive lane_sum : list f32 → f32 → Prop :=
  | lane_sum_zero : lane_sum [] f32_zero
  | lane_sum_one x : lane_sum [x] x
  | lane_sum_add l1 l2 x y : lane_sum l1 x → lane_sum l2 y → lane_sum (l1 ++ l2) (f32_add x y)
  | lane_sum_perm l l' x : l ≡ₚ l' → lane_sum l x → lane_sum l' x.

Class SimdSumLaw `{SimdSum} : Prop := simd_sum_law l : lane_sum l (simd_sum_f32 l).

(** Over lanes that are sums it is the sum of all their terms. *)
Lemma lane_sum_summed v x : lane_sum v x → ∀ terms, Forall2 summed terms v → summed (terms ≫= id) x.
Proof.
  induction 1 as [|x|l1 l2 x y _ IH1 _ IH2|l l' x Hl _ IH]; intros terms Ht.
  - apply Forall2_nil_inv_r in Ht as ->. constructor.
  - apply Forall2_cons_inv_r in Ht as (t & ts & Ht & ->%Forall2_nil_inv_r & ->). cbn. by rewrite app_nil_r.
  - apply Forall2_app_inv_r in Ht as (t1 & t2 & H1 & H2 & ->). rewrite bind_app. constructor; auto.
  - apply Forall2_flip in Ht. destruct (Permutation_Forall2 (symmetry Hl) Ht) as (terms' & Hp & H').
    apply Forall2_flip in H'. rewrite Hp. by apply IH.
Qed.

Lemma bind_id_fmap {A B} (f : A → list B) l : (f <$> l) ≫= id = l ≫= f.
Proof. induction l as [|a l IH]; [done|]. cbn. by rewrite IH. Qed.

(** ** A SIMD-group on its row *)

Section Row.
Context `{FmadLaw, SimdSumLaw}.

Lemma simd_sum_summed (T : nat → list (f32 * f32)) (f : nat → f32) lanes :
  (∀ l, summed (T l) (f l)) → summed (lanes ≫= T) (simd_sum_f32 (f <$> lanes)).
Proof.
  intros Hf. rewrite <- bind_id_fmap. apply (lane_sum_summed (f <$> lanes)); [apply simd_sum_law|].
  apply Forall2_fmap, Forall_Forall2_diag, Forall_true. done.
Qed.

Lemma simd_result_spec dim query metric v :
  length query = dim → length v = dim →
  device_distance metric v query (simd_result (metric_code metric) (lane_sums dim v query metric <$> seq 0 32)).
Proof.
  intros Hq Hv.
  assert (∀ (f : Partial → f32) g, (∀ l, summed (lane_terms dim v query g l) (f (lane_sums dim v query metric l))) →
    summed (zip_with g v query) (simd_sum_f32 (f <$> (lane_sums dim v query metric <$> seq 0 32)))) as Hsum.
  { intros f g Hfg. rewrite <- list_fmap_compose, <- (warp_terms dim) by done. by apply simd_sum_summed. }
  unfold simd_result. destruct metric; cbn [metric_code Z.eqb device_distance].
  - eexists. split; [apply (Hsum p_dist)|done]. apply (lane_sums_summed dim v query L2).
  - eexists _, _, _. split_and!;
      [apply (Hsum p_dot); intros l; apply (lane_sums_summed dim v query Cosine)
      |apply (Hsum p_nv); intros l; apply (lane_sums_summed dim v query Cosine)
      |apply (Hsum p_nq); intros l; apply (lane_sums_summed dim v query Cosine)|].
    by replace f32_nan with (F32 0x7fc00000) by (vm_compute; reflexivity).
Qed.
End Row.

(** ** The kernel *)

Section Launch.
Context `{FmadLaw, SimdSumLaw}.
Context (n dim : nat) (c : CudaColumn) (item : Field) (query : list f32) (metric : DistanceMetric).
Hypothesis c_ok : col_ok n c.
Hypothesis c_type : cc_type c = FixedSizeList item (Z.of_nat dim).
Hypothesis query_dim : length query = dim.
Hypothesis query_ok : Forall f32_ok query.
Context (has : Z) (bits : list Z).
Hypothesis bound : binds_validity has bits (cc_validity c).

Definition query_words : list Z := le_words (f32_bits <$> query).

Lemma words_query : words32 query_words = f32_bits <$> query.
Proof.
  pose proof (words32_prefix (f32_bits <$> query) []) as Hw. rewrite app_nil_r, take_ge in Hw.
  - apply Hw. by apply Forall_fmap.
  - unfold words32. rewrite length_fmap, length_seq, length_le_words, Nat.div_mul by lia. lia.
Qed.

#[local] Abbreviation result_bytes := (result_bytes dim c query metric (simd_result (metric_code metric))).

Lemma msl_vec_thread t out :
  Z.of_nat t < Prelude.U32 →
  msl_vec_distance (cc_values c) bits has n dim query_words (metric_code metric) t out
  = if (n <=? t / 32)%nat then Some out
    else if (t mod 32 =? 0)%nat then store_range out (t / 32 * 4) (result_bytes (t / 32)) else Some out.
Proof.
  intros Ht. unfold msl_vec_distance. cbv zeta. unfold wrap32. rewrite Z.mod_small, Nat2Z.id by lia. change SIMD with 32%nat.
  destruct (Nat.leb_spec n (t / 32)) as [|Hrow]; [done|].
  rewrite (msl_is_valid_bound _ _ _ _ bound), (is_valid_col n c) by done. cbn [mbind option_bind].
  unfold CudaVectorCorrect.result_bytes, row_result, store_f32. rewrite (Nat.mul_comm 4).
  destruct (row_valid (cb_validity (col_bytes c)) (t / 32)); cbn [negb]; [|done].
  by rewrite words_query, (row_lanes n dim c item) by done.
Qed.

Lemma msl_vec_launch groups turns out0 :
  (n ≤ groups)%nat → Z.of_nat (groups * 32) ≤ Prelude.U32 → (n * 4 ≤ length out0)%nat →
  launch (groups * 32) turns
    (msl_vec_distance (cc_values c) bits has n dim query_words (metric_code metric)) out0
  = Some (concat (result_bytes <$> seq 0 n) ++ drop (n * 4) out0).
Proof.
  intros Hn Hu Hout.
  apply (launch_leaders result_bytes n 4 32 groups); [lia|done|done|intros; apply length_to_le_bytes|].
  intros t m Ht Hlen. apply msl_vec_thread. lia.
Qed.
End Launch.

(** ** The operation *)

(** The threads: one SIMD-group for each row, and their numbers fit. *)
Lemma vec_threads n :
  Z.of_nat n * 32 + 255 ≤ Prelude.U32 →
  (n ≤ Nat.max (div_ceil n 8) 1 * 8)%nat ∧ Z.of_nat (Nat.max (div_ceil n 8) 1 * 8 * 32) ≤ Prelude.U32.
Proof.
  intros Hn. split; [apply div_ceil_covers; lia|]. unfold div_ceil. pose proof (Nat.div_mod_eq (n + (8 - 1)) 8).
  change Prelude.U32 with (2 ^ 32) in *. lia.
Qed.

Section Vector.
Context {D : Type} `{!MetalApi D, FmadLaw, SimdSumLaw}.
Context (new_buffer_length : ∀ d n c, (mtl_new_buffer (D := D) d n).2 = Some c → length c = n).
Variable m0 : Mem.
#[local] Abbreviation inv := (inv (D := D) m0).
#[local] Abbreviation mt_spec := (mt_spec (D := D) m0).

Section Column.
Context (n dim : nat) (mc : MetalColumn) (c : CudaColumn) (item : Field) (query : list f32) (metric : DistanceMetric).
Hypothesis c_in : col_in m0 mc c.
Hypothesis c_ok : col_ok n c.
Hypothesis c_type : cc_type c = FixedSizeList item (Z.of_nat dim).
Hypothesis query_dim : length query = dim.
Hypothesis query_ok : Forall f32_ok query.
Hypothesis n_threads : Z.of_nat n * 32 + 255 ≤ Prelude.U32.

Definition out_are (out : list Z) : Prop :=
  ∃ out0, length out0 = Nat.max (n * 4) 1 ∧
    out = concat (result_bytes dim c query metric (simd_result (metric_code metric)) <$> seq 0 n) ++ drop (n * 4) out0.

Lemma dispatch_vector_spec st pass F pl dummy query_buf out :
  inv st pass F → pl_source pl = METAL_VECTOR_DISTANCE_SRC → pl_function pl = "oxide_vec_distance" →
  is_Some (m0 !! ms_buffer dummy) →
  F !! ms_buffer query_buf = Some (λ q, q = query_words query) → ms_buffer query_buf ≠ ms_buffer out →
  F !! ms_buffer out = Some (λ c, length c = Nat.max (n * 4) 1) →
  inv st (dispatch pass pl
      ([raw (mc_values mc)] ++ validity_args dummy mc ++
       [u32_arg n; u32_arg dim; raw query_buf; ArgScalar (ScI32 (metric_code metric)); raw out])
      (div_ceil n (TG / 32)))
    (<[ms_buffer out := out_are]> F).
Proof.
  intros Hi Hsrc Hfn Hdummy Hquery Hne Hout. destruct (ci_values _ _ _ c_in) as [Hvals _].
  destruct (validity_bound m0 mc c dummy c_in Hdummy) as (b & has & bits & Hargs & Hb & Hbound).
  assert (m0 !! ms_buffer out = None) as Hnew by (apply (inv_new _ _ _ _ Hi); by rewrite Hout).
  rewrite Hargs. eapply (inv_dispatch m0 _ _ _ _ _ _ KVecDistance); [exact Hi| |done| |exact Hout|].
  - by rewrite Hsrc, Hfn.
  - bound_once.
  - intros m content turns Hsub Hsat Hlen Hcontent. cbn beta in Hlen.
    destruct (Hsat _ _ Hquery) as (q & Hq & ->).
    pose proof (lookup_weaken _ _ _ _ Hvals Hsub) as Hvals'. pose proof (lookup_weaken _ _ _ _ Hb Hsub) as Hb'.
    eexists [Bytes (cc_values c); Bytes bits; Constant (ScU32 has); Constant (ScU32 (Z.of_nat n));
             Constant (ScU32 (Z.of_nat dim)); Bytes (query_words query); Constant (ScI32 (metric_code metric)); Bytes content], _.
    split; [find_args|]. cbn [run_kernel]. rewrite !Nat2Z.id.
    replace (Nat.max (div_ceil n (TG / 32)) 1 * TG)%nat with (Nat.max (div_ceil n 8) 1 * 8 * 32)%nat by (change (TG / 32)%nat with 8%nat; change TG with 256%nat; lia).
    rewrite (msl_vec_launch n dim c item query metric) by (done || lia || by apply vec_threads).
    split; [done|]. by exists content.
Qed.

(** The column that the pass leaves. *)
Lemma out_column m out outs :
  buffer_in m out (n * 4) outs → m0 ⊆ m →
  (∀ i, (i < n)%nat → cell 4 outs i = result_bytes dim c query metric (simd_result (metric_code metric)) i) →
  ∃ c', col_in m (mkMetalColumn Float32 n 0 (n * 4) out (mc_validity mc)) c' ∧ col_ok n c' ∧
    col_array c' = Float32Array_of (result_cell dim c query metric (simd_result (metric_code metric)) <$> seq 0 n).
Proof.
  intros Hout Hsub Hcells. pose proof (ci_validity _ _ _ (col_in_mono _ _ _ _ Hsub c_in)) as Hval.
  exists (mkCudaColumn Float32 n 0 (n * 4) outs (cc_validity c)). split.
  - split; cbn; try done. destruct c_ok as (Hlen & _). cbn in Hlen.
    rewrite <- (ci_len _ _ _ c_in) in Hval. by rewrite (Nat2Z.inj _ _ Hlen) in Hval.
  - apply (result_column_spec n dim c item); [done..|intros; by apply simd_result_spec| |destruct Hout; lia|done].
    unfold Prelude.U32 in *. lia.
Qed.

Lemma out_are_cells out :
  out_are out → (n * 4 ≤ length out)%nat ∧
  ∀ i, (i < n)%nat → cell 4 out i = result_bytes dim c query metric (simd_result (metric_code metric)) i.
Proof.
  intros (out0 & Hl & ->). split.
  - rewrite length_app, length_drop, (length_concat_rows _ 4), length_fmap, length_seq; [lia|].
    apply Forall_fmap, Forall_true. intros; apply length_to_le_bytes.
  - intros i Hi. unfold cell. by apply cell_concat; [intros; apply length_to_le_bytes|].
Qed.

(** The pass over the rows, if there are any. *)
Lemma vector_pass_spec queue query_buf out F E :
  F !! ms_buffer query_buf = Some (λ q, q = query_words query) → ms_buffer query_buf ≠ ms_buffer out →
  F !! ms_buffer out = Some (λ c, length c = Nat.max (n * 4) 1) → Z.of_nat dim ≤ u32_max →
  mt_spec (λ st, inv st [] F)
    (if (0 <? n)%nat
     then mt_bind (metal_pipeline "vector_distance" METAL_VECTOR_DISTANCE_SRC "oxide_vec_distance") (λ pipeline,
            mt_bind mt_get_dummy (λ dummy, mt_bind (pass_begin queue) (λ pass,
              mt_bind (mt_lift (Cuda.u32_len dim "vector dimension")) (λ dim_u32,
                pass_finish (dispatch pass pipeline
                  ([raw (mc_values mc)] ++ validity_args dummy mc ++
                   [u32_arg n; u32_arg dim_u32; raw query_buf; ArgScalar (ScI32 (metric_code metric)); raw out])
                  (div_ceil n (TG / 32)))))))
     else mt_ret tt) E (λ _ st, inv st [] (<[ms_buffer out := out_are]> F)).
Proof.
  intros Hquery Hne Hout Hdim. destruct (Nat.ltb_spec 0 n) as [Hpos|Hzero].
  - eapply spec_bind; [by apply spec_pipeline|]. intros pl. apply spec_and. intros [Hsrc Hfn].
    eapply spec_bind; [apply get_dummy_spec|]. intros dummy. apply spec_and. intros Hdummy.
    eapply spec_bind; [apply spec_begin|]. intros ?. apply spec_and. intros ->.
    eapply spec_bind_Ok; [apply u32_len_small; unfold u32_max in *; lia|]. eapply spec_pre; [|apply spec_finish].
    intros st Hi. by apply dispatch_vector_spec.
  - apply spec_ret. intros st Hi. rewrite <- (insert_id F _ _ Hout) in Hi. eapply inv_weaken; [exact Hi|].
    intros out0 Hl. cbn beta in Hl. exists out0. split; [done|]. assert (n = 0%nat) as -> by lia. done.
Qed.
End Column.

Context `{!ArrowKernels, !ArrowLaws}.

Lemma dispatch_distance_spec queue a b col item :
  metal_holds m0 (vd_input a) b → Z.of_nat (num_rows b) * 32 + 255 ≤ Prelude.U32 →
  columns b !! vd_column a = Some col →
  data_type col = FixedSizeList item (Z.of_nat (length (vd_query a))) →
  (0 < length (vd_query a))%nat → Z.of_nat (length (vd_query a)) ≤ u32_max → Forall f32_ok (vd_query a) →
  mt_spec (λ st, inv st [] ∅) (dispatch_vector_distance queue a) (λ _, False) (λ d st, ends m0 st ∧ ∃ cells,
    Forall2 (device_cell (vd_metric a) (vd_query a)) (values col) cells ∧
    metal_holds (mt_memory st) d (with_distances b (vd_output_name a) cells)).
Proof.
  intros (Hsch & Hnr & Hb & mb & all & Hin & Hrows & Hall & Hok & Hcols) Hu Hcol Hty Hpos Hmax Hq.
  rewrite Hcols in Hcol. apply list_lookup_fmap_Some in Hcol as (c & -> & Hc).
  change (data_type (col_array c)) with (cc_type c) in Hty.
  pose proof (Forall_lookup_1 _ _ _ _ Hok Hc) as Hcok.
  destruct (Forall2_lookup_r _ _ _ _ _ Hall Hc) as (mc & Hmc & Hcin).
  assert (field_type_of item = Float32) as Hitem.
  { destruct Hcok as (_ & Hres & _). cbn in Hres. rewrite Hty in Hres. apply Hres. }
  unfold dispatch_vector_distance. eapply (spec_bind_Ok _ _ _ _ mb); [unfold metal_batch; by rewrite Hin|].
  eapply (spec_bind_Ok _ _ _ _ mc); [unfold metal_column; by rewrite Hmc|].
  eapply (spec_bind_Ok _ _ _ _ (Z.of_nat (length (vd_query a)))).
  { rewrite <- (ci_type _ _ _ Hcin), Hty. unfold vector_dimension.
    by rewrite bool_decide_eq_true_2, (proj2 (Z.ltb_lt _ _)) by (done || lia). }
  rewrite Z.eqb_refl. cbn [negb]. cbv zeta. rewrite Hrows, Nat2Z.id.
  eapply spec_bind_Ok; [apply u32_len_small; unfold Prelude.U32 in *; lia|].
  eapply spec_bind; [by apply spec_alloc|]. intros query_buf. apply spec_and. intros (Hql & _ & _).
  assert (length (le_words (f32_bits <$> vd_query a)) = (length (vd_query a) * 4)%nat) as Hqw by by rewrite length_le_words, length_fmap.
  eapply spec_bind.
  { unfold shared_write_words. rewrite Hql, Nat.div_mul, take_ge by (rewrite ?length_fmap; lia).
    eapply (spec_write_prefix _ query_buf); [apply lookup_insert_eq| |lia]. intros c' ->. lia. }
  intros ?. eapply spec_pre.
  { intros st Hi. rewrite insert_insert_eq in Hi. eapply (inv_weaken _ _ _ _ _ _ (λ q, q = query_words (vd_query a))); [exact Hi|].
    intros c' (c0 & Hc0 & ->). rewrite drop_ge, app_nil_r by lia. done. }
  eapply spec_bind; [by apply spec_alloc|]. intros out. apply spec_and. intros (Hol & HF & Hm).
  assert (ms_buffer query_buf ≠ ms_buffer out) as Hne by (intros Heq; by rewrite Heq, lookup_insert_eq in HF).
  eapply spec_bind.
  { apply (vector_pass_spec (num_rows b) (length (vd_query a)) mc c item (vd_query a) (vd_metric a)); [done..| |done| |done].
    - rewrite lookup_insert_ne by done. apply lookup_insert_eq.
    - apply lookup_insert_eq. }
  intros ?. apply spec_ret. intros st Hi. split; [by eapply inv_ends|].
  destruct (inv_run _ _ _ _ Hi []) as (m & [= <-] & Hsub & Hsat).
  destruct (Hsat (ms_buffer out) _ (lookup_insert_eq _ _ _)) as (outs & Houts & Hare).
  destruct (out_are_cells _ _ _ _ _ eq_refl _ Hare) as [Hlen Hcells].
  destruct (out_column (num_rows b) (length (vd_query a)) mc c item (vd_query a) (vd_metric a) Hcin Hcok Hty eq_refl Hu
    (mt_memory st) out outs) as (c' & Hc' & Hok' & Harr); [split; [done|lia]|done|done|].
  eexists. split.
  { apply (result_cells_device (num_rows b) (length (vd_query a)) c item); [done..|intros; by apply simd_result_spec]. }
  split_and!; [by rewrite Hsch|done|apply with_distances_ok; [done|by rewrite length_fmap, length_seq]|].
  eexists _, (all ++ [c']). split_and!; [done|done| | |].
  - apply Forall2_app; [|by constructor]. eapply Forall2_impl; [exact Hall|]. intros. by eapply col_in_mono.
  - apply Forall_app. by split; [|constructor].
  - cbn [with_distances columns]. rewrite fmap_app, Hcols. f_equal. cbn [fmap list_fmap]. f_equal. by symmetry.
Qed.
End Vector.

Section Correct.
Context {D : Type} `{!MetalApi D, FmadLaw, SimdSumLaw, !ArrowKernels, !ArrowLaws}.
Context (new_buffer_length : ∀ d n c, (mtl_new_buffer (D := D) d n).2 = Some c → length c = n).

(** C21: the Metal distances on any order of the threads: given a batch in shared
    memory that stands for a record batch, a vector column of the query's
    dimension, and few enough rows that the threads can be numbered, the
    operation ends, unless the runtime fails, with a batch that stands for the
    input with one more column: null where the vector is null and otherwise the
    metric's formula over sums in which each dimension occurs once. Where the
    order of the additions does not matter, this is the reference's batch. The
    new column shares the input's validity buffer, and no buffer that existed
    is written. *)
Theorem metal_vector_correct s q a b col item (st : MetalState D) :
  metal_queue s = Ok q → metal_ok st →
  metal_holds (mt_memory st) (vd_input a) b → Z.of_nat (num_rows b) * 32 + 255 ≤ Prelude.U32 →
  columns b !! vd_column a = Some col →
  data_type col = FixedSizeList item (Z.of_nat (length (vd_query a))) →
  (0 < length (vd_query a))%nat → Z.of_nat (length (vd_query a)) ≤ u32_max → Forall f32_ok (vd_query a) →
  let '(st', r) := metal_vector_distance s a st in
  metal_ok st' ∧ (∀ d b', metal_holds (mt_memory st) d b' → metal_holds (mt_memory st') d b') ∧
  match r with
  | Ok d => ∃ cells, Forall2 (device_cell (vd_metric a) (vd_query a)) (values col) cells ∧
      metal_holds (mt_memory st') d (with_distances b (vd_output_name a) cells) ∧
      (Forall (sums_agree (vd_metric a) (vd_query a)) (values col) →
       vector_distance b (vd_column a) (vd_query a) (vd_metric a) (vd_output_name a)
       = Ok (with_distances b (vd_output_name a) cells))
  | Err e => metal_failure (D := D) e
  | Panic => False
  end.
Proof.
  intros Hs Hok Hh Hu Hcol Hty Hpos Hmax Hq. unfold metal_vector_distance, mt_bind, mt_lift. rewrite Hs.
  pose proof (dispatch_distance_spec new_buffer_length (mt_memory st) q a b col item Hh Hu Hcol Hty Hpos Hmax Hq st
    (inv_begin st Hok)) as Hspec.
  destruct (dispatch_vector_distance q a st) as [st' [d|e|]]; [| |done].
  - destruct Hspec as ([Hok' Hsub] & cells & Hcells & Hd). split; [done|]. split; [intros; by eapply metal_holds_mono|].
    exists cells. split_and!; [done|done|]. intros Hagree. destruct Hh as (_ & _ & Hb & mb & all & _ & _ & _ & Hall & Hcols).
    apply (distances_reference b (vd_column a) col item); try done.
    rewrite Hcols in Hcol. apply list_lookup_fmap_Some in Hcol as (c & -> & Hc).
    by destruct (Forall_lookup_1 _ _ _ _ Hall Hc) as (_ & Hres & _).
  - destruct Hspec as ([Hfail|[]] & Hok' & Hsub). split; [done|]. split; [|done]. intros. by eapply metal_holds_mono.
Qed.
End Correct.

(** ** Examples *)

Module MetalVectorExample.
Import MetalExample VectorExample.

#[local] Instance fused_law : FmadLaw.
Proof. intros x y s. by right. Qed.
#[local] Instance in_order_law : SimdSumLaw.
Proof.
  intros l. unfold simd_sum_f32, in_order. induction l as [|x l IH] using rev_ind; [constructor|].
  rewrite foldl_snoc. by constructor; [|constructor].
Qed.

(** The points of [VectorExample] in shared memory: [(3, 4)] and null. *)
Definition points_memory : Mem :=
  <[0%nat := [0]]> (<[1%nat := concat (to_le_bytes 4 <$> [0x40400000; 0x40800000; 0; 0])]> (<[2%nat := [1]]> ∅)).
Definition points_start : MetalState nat := mkMetal 0%nat points_memory 3 ∅ ∅ [7%nat] 0 (mkShared 0 1).
Definition points_device : DeviceBatch :=
  mkDeviceBatch Metal (schema points) 2
    (BatchMetal (mkMetalBatch 2
       [mkMetalColumn (FixedSizeList (Field_new "item" Float32 true) 2) 2 4 16 (mkShared 1 16) (Some (mkShared 2 1))])).
Definition vec_args : VectorDistanceArgs := mkVecArgs points_device 0 [f32_zero; f32_zero] L2 "d".

Lemma points_start_ok : metal_ok points_start.
Proof.
  split; [|split|by eexists].
  - intros id Hid. cbn in Hid. unfold points_start, points_memory. cbn [mt_memory]. by rewrite !lookup_insert_ne by lia.
  - intros name lib. cbn. by rewrite lookup_empty.
  - intros name function p. cbn. by rewrite lookup_empty.
Qed.

Lemma points_hold : metal_holds (mt_memory points_start) points_device points.
Proof.
  destruct CudaVectorExample.points_holds as (_ & _ & Hb & cb & [= <-] & _ & Hok & Hcols).
  split_and!; [done|done|exact Hb|]. eexists _, CudaVectorExample.points_columns.
  split_and!; [done|done| |exact Hok|exact Hcols]. repeat constructor; cbn; lia.
Qed.

Lemma metal_vector_correct_witness :
  let '(st', r) := metal_vector_distance stream vec_args points_start in
  match r with
  | Ok d => ∃ cells, metal_holds (mt_memory st') d (with_distances points "d" cells) ∧
      vector_distance points 0 [f32_zero; f32_zero] L2 "d" = Ok (with_distances points "d" cells)
  | Err e => metal_failure (D := nat) e
  | Panic => False
  end.
Proof.
  pose proof (metal_vector_correct buffer_length stream 7 vec_args points _ _ points_start eq_refl points_start_ok points_hold
    ltac:(vm_compute; discriminate) eq_refl eq_refl ltac:(cbn; lia) ltac:(vm_compute; discriminate)
    ltac:(repeat constructor; vm_compute; discriminate)) as Hc.
  destruct (metal_vector_distance stream vec_args points_start) as [st' [d|e|]]; [|apply Hc|apply Hc].
  destruct Hc as (_ & _ & cells & _ & Hd & Href). exists cells. split; [done|]. apply Href. constructor; [|by repeat constructor].
  apply (integer_sums_agree L2 [3; 4] [0; 0]); [done|done|]. split_and!; [by repeat constructor..|].
  split; [by repeat constructor|done].
Defined.

(** A grid has no thread for the rows past 2^27: their positions wrap to the
    first rows. *)
Example rows_past_the_grid vectors validity n dim query metric out :
  (0 < n)%nat →
  msl_vec_distance vectors validity 1 n dim query metric (Z.to_nat Prelude.U32) out
  = msl_vec_distance vectors validity 1 n dim query metric 0 out.
Proof.
  intros Hn. unfold msl_vec_distance. rewrite Z2Nat.id by done. by replace (wrap32 Prelude.U32) with (wrap32 (Z.of_nat 0)).
Qed.
End MetalVectorExample.
