(* ===== verification/Datagen.v ===== *)
(** * oxidelake-storage: the demo table

    Models the generator of [src/crates/oxidelake-storage/src/datagen.rs]; what
    it needs of Arrow are the laws of [ArrowLaws].  The second
    part shows the rows it yields; [Parquet] writes them to a file. *)

From Stdlib Require Import SpecFloat.
From S2P Require Import Prelude Floats Arrow Core ArrowKernels FloatFacts.

(** ** The generator *)

Definition EMBEDDING_DIM : nat := 8.
Definition KEY_CARDINALITY : Z := 100.
Definition CHUNK_ROWS : Z := 65536.
Definition S_VALUES : list string :=
  ["s0"; "s1"; "s2"; "s3"; "s4"; "s5"; "s6"; "s7"; "s8"; "s9"; "s10"; "s11"; "s12"].

Definition GOLDEN : Z := 0x9E3779B97F4A7C15.

(** The new state, and the value drawn. *)
Definition mix64 (z : Z) : Z :=
  let z := wmul64 (Z.lxor z (Z.shiftr z 30)) 0xBF58476D1CE4E5B9 in
  let z := wmul64 (Z.lxor z (Z.shiftr z 27)) 0x94D049BB133111EB in
  Z.lxor z (Z.shiftr z 31).
Definition splitmix64 (state : Z) : Z * Z :=
  let state := wadd64 state GOLDEN in (state, mix64 state).

Definition emb_item : Field := Field_new "item" Float32 false.
Definition emb_type : DataType := FixedSizeList emb_item (Z.of_nat EMBEDDING_DIM).
Definition demo_schema : Schema :=
  Schema_new [Field_new "id" Int64 false; Field_new "k" Int64 true; Field_new "v" Float64 true;
              Field_new "s" Utf8 false; Field_new "emb" emb_type false].

(** Division of doubles and the conversion of small integers. *)
Definition f64_div (a b : f64) : f64 := sf_f64 (SFdiv 53 1024 (f64_sf a) (f64_sf b)).

(** [(r >> 8) as i64 % KEY_CARDINALITY], [f64::from((r >> 8) as u32 % 100) / 4.0]
    and [f32::from((r % 2000) as u16) / 100.0 - 10.0]. *)
Definition key_of (r : Z) : option Z :=
  if r mod 50 =? 0 then None else Some (Z.rem (Z.shiftr r 8) KEY_CARDINALITY).
Definition measure_of (r : Z) : option f64 :=
  if r mod 40 =? 0 then None else Some (f64_div (f64_int (wrap32 (Z.shiftr r 8) mod 100)) (f64_int 4)).
Definition coordinate_of (r : Z) : f32 :=
  f32_sub (f32_div (f32_int ((r mod 2000) mod 2 ^ 16)) (f32_int 100)) (f32_int 10).

(** [n] draws. *)
Fixpoint draws (n : nat) (state : Z) : Z * list Z :=
  match n with
  | O => (state, [])
  | S n => let '(state, r) := splitmix64 state in let '(state, rs) := draws n state in (state, r :: rs)
  end.

(** The loop over the rows: the vectors [id], [k], [v] and [emb] as they grow. *)
Record ChunkColumns := mkChunk { ck_id : list (option Z); ck_k : list (option Z); ck_v : list (option f64); ck_emb : list f32 }.

Fixpoint gen_rows (n : nat) (row : Z) (first_id : Z) (state : Z) (c : ChunkColumns) : ChunkColumns :=
  match n with
  | O => c
  | S n =>
      let id := wadd64 first_id row in
      let id := if id <=? i64_max then id else i64_max in
      let '(state, r1) := splitmix64 state in
      let '(state, r2) := splitmix64 state in
      let '(state, rs) := draws EMBEDDING_DIM state in
      gen_rows n (row + 1) first_id state
        (mkChunk (ck_id c ++ [Some id]) (ck_k c ++ [key_of r1]) (ck_v c ++ [measure_of r2])
                 (ck_emb c ++ (coordinate_of <$> rs)))
  end.

Definition chunk_seed (seed first_id : Z) : Z := Z.lxor seed (wmul64 first_id 0xA0761D6478BD642F).

(** [FixedSizeListArray::new] over the flat floats. *)
Definition emb_array (n : nat) (emb : list f32) : Array :=
  mkArray emb_type ((λ i, Some (VVec (take EMBEDDING_DIM (drop (i * EMBEDDING_DIM) emb)))) <$> seq 0 n).

Section Generate.
Context `{!ArrowKernels}.

Definition gen_chunk (s : Schema) (first_id rows seed : Z) : result RecordBatch :=
  let n := Z.to_nat rows in
  let c := gen_rows n 0 first_id (chunk_seed seed first_id) (mkChunk [] [] [] []) in
  let strings := mkArray Utf8
    ((λ row, VStr <$> S_VALUES !! Z.to_nat (wadd64 first_id (Z.of_nat row) mod 13)) <$> seq 0 n) in
  map_err (λ _, Execution "datagen batch")
    (batch_try_new s [Int64Array_of (ck_id c); Int64Array_of (ck_k c); Float64Array_of (ck_v c); strings;
                      emb_array n (ck_emb c)]).

(** [(0..rows).step_by(CHUNK_ROWS)]. *)
Definition chunk_firsts (rows : Z) : list Z :=
  (λ i, Z.of_nat i * CHUNK_ROWS) <$> seq 0 (Z.to_nat ((rows + (CHUNK_ROWS - 1)) / CHUNK_ROWS)).

Definition demo_chunks (rows seed : Z) : list (result RecordBatch) :=
  (λ first, gen_chunk demo_schema first (Z.min CHUNK_ROWS (rows - first)) seed) <$> chunk_firsts rows.

Definition demo_batches (rows seed : Z) : result (list RecordBatch) := mapM id (demo_chunks rows seed).
End Generate.

(** ** The demo table is a function of the seed and the row

    The state of the generator after [d] draws is the seed and [d] increments,
    so that a row of a chunk can be computed on its own.  The whole table is
    that function applied to the row numbers: it does not depend on how many
    rows are asked for, and its values are in the ranges the data set promises. *)

(** ** Rows on their own *)

(** The [d]-th value drawn from a state. *)
Definition draw (s d : Z) : Z := mix64 (wrap64 (s + (d + 1) * GOLDEN)).

Record DemoRow := mkRow { dr_id : Z; dr_k : option Z; dr_v : option f64; dr_s : option string; dr_emb : list f32 }.

(** Row [j] of the chunk that starts at [first]. *)
Definition chunk_row (seed first : Z) (j : nat) : DemoRow :=
  let s := chunk_seed seed first in
  let d := 10 * Z.of_nat j in
  mkRow (first + Z.of_nat j) (key_of (draw s d)) (measure_of (draw s (d + 1)))
    (S_VALUES !! Z.to_nat ((first + Z.of_nat j) mod 13))
    ((λ k, coordinate_of (draw s (d + 2 + Z.of_nat k))) <$> seq 0 EMBEDDING_DIM).

(** Row [i] of the table. *)
Definition demo_row (seed : Z) (i : nat) : DemoRow :=
  chunk_row seed (Z.of_nat i / CHUNK_ROWS * CHUNK_ROWS) (Z.to_nat (Z.of_nat i mod CHUNK_ROWS)).

(** Its cells. *)
Definition row_cells (r : DemoRow) : list (option Value) :=
  [Some (VInt (dr_id r)); VInt <$> dr_k r; VF64 <$> dr_v r; VStr <$> dr_s r; Some (VVec (dr_emb r))].

(** ** The loop *)

Definition state_at (s d : Z) : Z := wrap64 (s + d * GOLDEN).

Lemma splitmix_at s d : splitmix64 (state_at s d) = (state_at s (d + 1), draw s d).
Proof.
  unfold splitmix64, draw, state_at. assert (wadd64 (wrap64 (s + d * GOLDEN)) GOLDEN = wrap64 (s + (d + 1) * GOLDEN)) as ->; [|done].
  unfold wadd64, wrap64. rewrite Zplus_mod_idemp_l. f_equal. lia.
Qed.

Lemma draws_at n s d :
  draws n (state_at s d) = (state_at s (d + Z.of_nat n), (λ k, draw s (d + Z.of_nat k)) <$> seq 0 n).
Proof.
  revert d. induction n as [|n IH]; intros d; cbn [draws]; [by rewrite Z.add_0_r|].
  rewrite splitmix_at, IH. f_equal; [f_equal; lia|]. cbn [seq fmap list_fmap]. f_equal; [by rewrite Z.add_0_r|].
  rewrite <- (fmap_S_seq 0), <- list_fmap_compose. apply list_fmap_ext. intros k x _. cbn. f_equal. lia.
Qed.

Lemma gen_rows_spec n row first s c :
  is_u64 (first + Z.of_nat row + Z.of_nat n) → 0 ≤ first → first + Z.of_nat row + Z.of_nat n ≤ i64_max + 1 →
  gen_rows n (Z.of_nat row) first (state_at s (10 * Z.of_nat row)) c
  = let rows := (λ j, mkRow (first + Z.of_nat j) (key_of (draw s (10 * Z.of_nat j))) (measure_of (draw s (10 * Z.of_nat j + 1))) None
                  ((λ k, coordinate_of (draw s (10 * Z.of_nat j + 2 + Z.of_nat k))) <$> seq 0 EMBEDDING_DIM)) <$> seq row n in
    mkChunk (ck_id c ++ ((λ r, Some (dr_id r)) <$> rows)) (ck_k c ++ (dr_k <$> rows)) (ck_v c ++ (dr_v <$> rows))
            (ck_emb c ++ (rows ≫= dr_emb)).
Proof.
  revert row c. induction n as [|n IH]; intros row c Hu Hf Hmax; cbn [gen_rows seq fmap list_fmap mbind list_bind].
  { rewrite !app_nil_r. by destruct c. }
  rewrite !splitmix_at, draws_at. unfold i64_max in *.
  rewrite wadd64_small by (unfold is_u64, U64 in *; lia). rewrite (proj2 (Z.leb_le _ _)) by lia.
  replace (Z.of_nat row + 1) with (Z.of_nat (S row)) by lia.
  replace (10 * Z.of_nat row + 1 + 1 + Z.of_nat EMBEDDING_DIM) with (10 * Z.of_nat (S row)) by (unfold EMBEDDING_DIM; lia).
  rewrite IH by (unfold is_u64 in *; lia). cbn [ck_id ck_k ck_v ck_emb dr_id dr_k dr_v dr_emb].
  rewrite <- !app_assoc, <- list_fmap_compose.
  replace (10 * Z.of_nat row + 1 + 1) with (10 * Z.of_nat row + 2) by lia. done.
Qed.

(** ** Ranges *)

Lemma lxor_u64 a b : is_u64 a → is_u64 b → is_u64 (Z.lxor a b).
Proof.
  intros [Ha Ha'] [Hb Hb']. split; [by apply Z.lxor_nonneg|].
  destruct (decide (Z.lxor a b = 0)) as [->|]; [done|].
  assert (0 ≤ Z.lxor a b) by by apply Z.lxor_nonneg. unfold U64 in *. apply Z.log2_lt_pow2; [lia|].
  eapply Z.le_lt_trans; [by apply Z.log2_lxor|].
  assert (∀ z, 0 ≤ z < 2 ^ 64 → Z.log2 z < 64) as Hlog.
  { intros z Hz. destruct (decide (z = 0)) as [->|]; [done|]. apply Z.log2_lt_pow2; lia. }
  pose proof (Hlog a). pose proof (Hlog b). lia.
Qed.

Lemma mix64_nonneg z : 0 ≤ z → 0 ≤ mix64 z.
Proof.
  intros Hz. unfold mix64. assert (∀ a b, 0 ≤ wmul64 a b) as Hw by (intros; apply wrap64_range).
  apply Z.lxor_nonneg. split; intros _; [apply Z.shiftr_nonneg|]; apply Hw.
Qed.

Lemma draw_nonneg s d : 0 ≤ draw s d.
Proof. apply mix64_nonneg, wrap64_range. Qed.

Lemma state_at_start seed first : is_u64 seed → state_at (chunk_seed seed first) 0 = chunk_seed seed first.
Proof.
  intros Hs. unfold state_at. rewrite Z.add_0_r. apply wrap64_small, lxor_u64; [done|apply wrap64_range].
Qed.

(** The three values drawn. *)
Definition key_in_range (o : option Z) : Prop := match o with Some k => 0 ≤ k < KEY_CARDINALITY | None => True end.

(** A quarter: four of it make the integer. *)
Definition is_quarter (q : Z) (v : f64) : bool :=
  match f64_sf v with
  | S754_zero false => q =? 0
  | S754_finite false m e => (e <=? 0) && (Zpos m * 4 =? q * 2 ^ (- e))
  | _ => false
  end.
Definition measure_in_range (o : option f64) : Prop :=
  match o with Some v => ∃ q, 0 ≤ q < 100 ∧ is_quarter q v = true | None => True end.

(** From -10 up to, and not including, 10. *)
Definition coordinate_in_range (c : f32) : Prop :=
  SFleb (f32_sf (f32_int (-10))) (f32_sf c) = true ∧ SFltb (f32_sf c) (f32_sf (f32_int 10)) = true.

Lemma key_of_range r : 0 ≤ r → key_in_range (key_of r).
Proof.
  intros Hr. unfold key_of. destruct (r mod 50 =? 0); [done|]. cbn. pose proof (Z.rem_bound_pos (Z.shiftr r 8) KEY_CARDINALITY) as Hb.
  apply Hb; [by apply Z.shiftr_nonneg|done].
Qed.

Lemma measure_of_range r : measure_in_range (measure_of r).
Proof.
  unfold measure_of. destruct (r mod 40 =? 0); [done|]. exists (wrap32 (Z.shiftr r 8) mod 100).
  pose proof (Z.mod_pos_bound (wrap32 (Z.shiftr r 8)) 100 ltac:(done)) as Hq. split; [done|].
  revert Hq. generalize (wrap32 (Z.shiftr r 8) mod 100) as q. intros q Hq.
  assert (forallb (λ k, is_quarter (Z.of_nat k) (f64_div (f64_int (Z.of_nat k)) (f64_int 4))) (seq 0 100) = true) as Hall by by vm_compute.
  rewrite forallb_forall in Hall. specialize (Hall (Z.to_nat q)). rewrite Z2Nat.id in Hall by lia.
  apply Hall, list_elem_of_In, elem_of_seq. lia.
Qed.

Lemma coordinate_of_range r : coordinate_in_range (coordinate_of r).
Proof.
  unfold coordinate_of. pose proof (Z.mod_pos_bound r 2000 ltac:(done)) as Hq. rewrite (Z.mod_small (r mod 2000)) by lia.
  revert Hq. generalize (r mod 2000) as q. intros q Hq.
  assert (forallb (λ k, let c := f32_sub (f32_div (f32_int (Z.of_nat k)) (f32_int 100)) (f32_int 10) in
      SFleb (f32_sf (f32_int (-10))) (f32_sf c) && SFltb (f32_sf c) (f32_sf (f32_int 10))) (seq 0 2000) = true) as Hall by by vm_compute.
  rewrite forallb_forall in Hall. specialize (Hall (Z.to_nat q)). rewrite Z2Nat.id in Hall by lia. unfold coordinate_in_range.
  apply andb_true_iff, Hall, list_elem_of_In, elem_of_seq. lia.
Qed.

(** What every row keeps to. *)
Definition row_in_range (r : DemoRow) : Prop :=
  key_in_range (dr_k r) ∧ measure_in_range (dr_v r) ∧ is_Some (dr_s r) ∧ length (dr_emb r) = EMBEDDING_DIM ∧
  Forall coordinate_in_range (dr_emb r).

Lemma chunk_row_range seed first j : 0 ≤ first → row_in_range (chunk_row seed first j).
Proof.
  intros Hf. unfold row_in_range, chunk_row. cbn [dr_k dr_v dr_s dr_emb]. split_and!.
  - apply key_of_range, draw_nonneg.
  - apply measure_of_range.
  - apply lookup_lt_is_Some. pose proof (Z.mod_pos_bound (first + Z.of_nat j) 13 ltac:(done)). change (length S_VALUES) with 13%nat. lia.
  - by rewrite length_fmap, length_seq.
  - apply Forall_fmap, Forall_true. intros k. apply coordinate_of_range.
Qed.

Lemma demo_row_range seed i : dr_id (demo_row seed i) = Z.of_nat i ∧ row_in_range (demo_row seed i).
Proof.
  pose proof (eq_refl : 0 <? CHUNK_ROWS = true) as Hpos%Z.ltb_lt. unfold demo_row. split.
  - cbn [dr_id chunk_row]. pose proof (Z.div_mod (Z.of_nat i) CHUNK_ROWS ltac:(lia)).
    pose proof (Z.mod_pos_bound (Z.of_nat i) CHUNK_ROWS Hpos). rewrite Z2Nat.id; lia.
  - apply chunk_row_range. pose proof (Z.div_pos (Z.of_nat i) CHUNK_ROWS). nia.
Qed.

(** ** A chunk *)

Section Table.
Context `{!ArrowKernels, !ArrowLaws}.

(** The batch of some rows. *)
Definition rows_batch (rows : list DemoRow) : RecordBatch :=
  mkBatch demo_schema
    [Int64Array_of ((Some ∘ dr_id) <$> rows); Int64Array_of (dr_k <$> rows); Float64Array_of (dr_v <$> rows);
     mkArray Utf8 ((λ r, VStr <$> dr_s r) <$> rows); mkArray emb_type ((λ r, Some (VVec (dr_emb r))) <$> rows)] (length rows).

Lemma rows_batch_ok rows :
  Forall (λ r, 0 ≤ dr_id r ≤ i64_max ∧ row_in_range r) rows → batch_ok (rows_batch rows).
Proof.
  intros Hr. unfold batch_ok, rows_batch, demo_schema, array_len. cbn [schema columns num_rows fields Schema_new].
  rewrite Forall_forall in Hr.
  assert (∀ (f : Field) (g : DemoRow → option Value),
    (∀ r, r ∈ rows → match g r with Some v => value_has_type (field_type_of f) v = true | None => field_nullable f = true end) →
    column_ok f (mkArray (field_type_of f) (g <$> rows)) = true ∧ length (g <$> rows) = length rows) as Hcol.
  { intros f g Hg. split; [|apply length_fmap]. unfold column_ok, array_ok. cbn [data_type values].
    rewrite bool_decide_eq_true_2 by done. cbn [andb]. apply andb_true_iff. split.
    - apply forallb_forall. intros o (r & -> & Hin)%list_elem_of_In%list_elem_of_fmap. specialize (Hg r Hin). by destruct (g r).
    - apply orb_true_iff. destruct (field_nullable f) eqn:Hf; [by left|right].
      apply forallb_forall. intros o (r & -> & Hin)%list_elem_of_In%list_elem_of_fmap. specialize (Hg r Hin).
      destruct (g r); [by rewrite bool_decide_eq_true_2|done]. }
  unfold Int64Array_of, Float64Array_of. rewrite <- !list_fmap_compose.
  repeat apply Forall2_cons_2; [| | | | |constructor]; apply Hcol; intros r Hin; destruct (Hr r Hin) as (Hid & Hk & Hv & Hs & He & _); cbn.
  - apply bool_decide_eq_true_2. unfold i64_min. lia.
  - destruct (dr_k r) as [k|]; [|done]. cbn in *. apply bool_decide_eq_true_2. unfold KEY_CARDINALITY, i64_min, i64_max in *. lia.
  - by destruct (dr_v r).
  - by destruct (dr_s r); [|destruct Hs].
  - rewrite He. done.
Qed.

(** The flat floats cut into rows again. *)
Lemma emb_array_rows rows :
  (∀ r, r ∈ rows → length (dr_emb r) = EMBEDDING_DIM) →
  emb_array (length rows) (rows ≫= dr_emb) = mkArray emb_type ((λ r, Some (VVec (dr_emb r))) <$> rows).
Proof.
  intros Hd. unfold emb_array. f_equal. apply list_eq. intros j. rewrite !list_lookup_fmap.
  destruct (decide (j < length rows)%nat) as [Hj|Hj].
  - rewrite lookup_seq_lt by done. destruct (lookup_lt_is_Some_2 rows j Hj) as [r Hr']. rewrite Hr'.
    cbn [fmap option_fmap option_map Nat.add]. do 3 f_equal.
    assert (rows ≫= dr_emb = concat (dr_emb <$> rows)) as -> by (clear; induction rows as [|? ? IH]; [done|cbn; by rewrite IH]).
    rewrite <- (app_nil_r (concat _)). apply (concat_row _ _ EMBEDDING_DIM); [|by rewrite list_lookup_fmap, Hr'].
    apply Forall_fmap, Forall_forall. intros r' Hin. by apply Hd.
  - rewrite lookup_seq_ge by lia. by rewrite lookup_ge_None_2 by lia.
Qed.

Lemma gen_chunk_spec first rows seed :
  is_u64 seed → 0 ≤ first → 0 ≤ rows → first + rows ≤ i64_max + 1 →
  gen_chunk demo_schema first rows seed = Ok (rows_batch (chunk_row seed first <$> seq 0 (Z.to_nat rows))).
Proof.
  intros Hseed Hf Hr Hmax. set (n := Z.to_nat rows). set (rs := chunk_row seed first <$> seq 0 n).
  assert (Hlen : length rs = n) by (unfold rs; by rewrite length_fmap, length_seq).
  assert (batch_ok (rows_batch rs)) as Hok.
  { apply rows_batch_ok, Forall_fmap, Forall_forall. intros j Hj%elem_of_seq. cbn.
    split; [unfold i64_max in *; lia|by apply chunk_row_range]. }
  unfold gen_chunk. fold n. rewrite <- (state_at_start seed first Hseed).
  pose proof (gen_rows_spec n 0 first (chunk_seed seed first) (mkChunk [] [] [] [])) as Hgen.
  change (10 * Z.of_nat 0) with 0 in Hgen. change (Z.of_nat 0) with 0 in Hgen. rewrite Hgen; clear Hgen;
    [|unfold is_u64, U64, i64_max in *; lia|done|unfold i64_max in *; lia].
  cbv zeta. cbn [ck_id ck_k ck_v ck_emb app].
  match goal with |- context [?l ≫= dr_emb] => set (us := l) end.
  assert (Hus : length us = n) by (unfold us; by rewrite length_fmap, length_seq).
  rewrite <- Hus at 2. rewrite emb_array_rows
    by (intros r (j & -> & _)%list_elem_of_fmap; cbn [dr_emb]; by rewrite length_fmap, length_seq).
  assert (((λ row, VStr <$> S_VALUES !! Z.to_nat (wadd64 first (Z.of_nat row) mod 13)) <$> seq 0 n)
          = (λ r, VStr <$> dr_s r) <$> rs) as ->.
  { unfold rs. rewrite <- list_fmap_compose. apply Forall_fmap_ext_1, Forall_forall. intros j Hj%elem_of_seq. cbn.
    by rewrite wadd64_small by (unfold is_u64, U64, i64_max in *; lia). }
  assert (((λ r, Some (dr_id r)) <$> us) = (Some ∘ dr_id) <$> rs ∧ dr_k <$> us = dr_k <$> rs ∧ dr_v <$> us = dr_v <$> rs
          ∧ ((λ r, Some (VVec (dr_emb r))) <$> us) = (λ r, Some (VVec (dr_emb r))) <$> rs) as (-> & -> & -> & ->)
    by (unfold us, rs; rewrite <- !list_fmap_compose; done).
  assert (Harr : array_len (Int64Array_of ((Some ∘ dr_id) <$> rs)) = length rs)
    by (unfold array_len, Int64Array_of; cbn [values]; by rewrite !length_fmap).
  unfold rows_batch in Hok |- *. rewrite <- Harr in Hok |- *. by rewrite try_new_law.
Qed.

Lemma rows_batch_rows rows : batch_rows (rows_batch rows) = (λ r, Some <$> row_cells r) <$> rows.
Proof.
  unfold batch_rows, rows_batch. cbn [num_rows]. apply list_eq. intros j. rewrite !list_lookup_fmap.
  destruct (decide (j < length rows)%nat) as [Hj|Hj].
  - rewrite lookup_seq_lt by done. destruct (lookup_lt_is_Some_2 rows j Hj) as [r Hr]. rewrite Hr. cbn [fmap option_fmap option_map].
    unfold batch_row, row_cells, Int64Array_of, Float64Array_of. cbn [columns]. rewrite !fmap_cons, !fmap_nil. cbn [values].
    rewrite Nat.add_0_l. by rewrite !list_lookup_fmap, Hr.
  - rewrite lookup_seq_ge by lia. by rewrite lookup_ge_None_2 by lia.
Qed.

(** ** The whole table *)

(** Pieces of [c] elements, and the rest. *)
Lemma pieces {A} (f : nat → A) (c n m : nat) :
  (seq 0 m ≫= λ i, (λ j, f (i * c + j)%nat) <$> seq 0 (Nat.min c (n - i * c))) = f <$> seq 0 (Nat.min n (m * c)).
Proof.
  induction m as [|m IH]; [cbn; by rewrite Nat.min_0_r|].
  rewrite seq_S, bind_app, IH. cbn [mbind list_bind Nat.add]. rewrite app_nil_r.
  replace (Nat.min n (S m * c)) with (Nat.min n (m * c) + Nat.min c (n - m * c))%nat by lia.
  rewrite seq_app, fmap_app. f_equal. cbn [Nat.add].
  destruct (decide (m * c <= n)%nat) as [Hle|]; [|by replace (n - m * c)%nat with 0%nat by lia; rewrite Nat.min_0_r].
  rewrite (Nat.min_r n) by done.
  replace (seq (m * c) (Nat.min c (n - m * c))) with (Nat.add (m * c) <$> seq 0 (Nat.min c (n - m * c)))
    by (rewrite fmap_add_seq; f_equal; lia).
  rewrite <- list_fmap_compose. by apply list_fmap_ext.
Qed.

(** The chunks are the table: [demo_chunks] yields one good batch per chunk,
    and their rows one after the other are the rows [0 .. rows]. *)
Lemma demo_batches_spec rows seed :
  is_u64 seed → 0 ≤ rows ≤ i64_max + 1 →
  ∃ bs, demo_batches rows seed = Ok bs ∧ Forall (λ b, batch_ok b ∧ schema b = demo_schema) bs ∧
    bs ≫= batch_rows = (λ i, Some <$> row_cells (demo_row seed i)) <$> seq 0 (Z.to_nat rows).
Proof.
  intros Hseed [Hr Hmax]. unfold demo_batches, demo_chunks, chunk_firsts. rewrite <- list_fmap_compose.
  set (m := Z.to_nat ((rows + (CHUNK_ROWS - 1)) / CHUNK_ROWS)). set (c := Z.to_nat CHUNK_ROWS).
  assert (Hc : Z.of_nat c = CHUNK_ROWS) by (unfold c; by rewrite Z2Nat.id). pose proof (eq_refl : 0 <? CHUNK_ROWS = true) as Hpos%Z.ltb_lt.
  assert (Hm : (rows <= Z.of_nat m * CHUNK_ROWS) ∧ ∀ i, (i < m)%nat → Z.of_nat i * CHUNK_ROWS < rows).
  { pose proof (Z.div_mod (rows + (CHUNK_ROWS - 1)) CHUNK_ROWS ltac:(lia)) as Hdm.
    pose proof (Z.mod_pos_bound (rows + (CHUNK_ROWS - 1)) CHUNK_ROWS Hpos) as Hb.
    assert (Z.of_nat m = (rows + (CHUNK_ROWS - 1)) / CHUNK_ROWS) as Hz by (unfold m; rewrite Z2Nat.id; [done|apply Z.div_pos; lia]).
    rewrite Hz. split; [nia|]. intros i Hi. assert (Z.of_nat i + 1 <= (rows + (CHUNK_ROWS - 1)) / CHUNK_ROWS) by lia. nia. }
  destruct Hm as [Hm Hlt]. clearbody m c.
  set (piece := λ i, (λ j, demo_row seed (i * c + j)%nat) <$> seq 0 (Nat.min c (Z.to_nat rows - i * c))).
  assert (Hchunk : ∀ i, (i < m)%nat →
    gen_chunk demo_schema (Z.of_nat i * CHUNK_ROWS) (Z.min CHUNK_ROWS (rows - Z.of_nat i * CHUNK_ROWS)) seed = Ok (rows_batch (piece i))).
  { intros i Hi. specialize (Hlt i Hi). assert (0 <= Z.of_nat i * CHUNK_ROWS) by nia.
    rewrite gen_chunk_spec by (assumption || lia). do 2 f_equal. unfold piece.
    replace (Z.to_nat (Z.min CHUNK_ROWS (rows - Z.of_nat i * CHUNK_ROWS))) with (Nat.min c (Z.to_nat rows - i * c))
      by (rewrite <- Hc in *; lia).
    apply Forall_fmap_ext_1, Forall_forall. intros j Hj%elem_of_seq. unfold demo_row.
    rewrite <- Hc. replace (Z.of_nat (i * c + j)) with (Z.of_nat j + Z.of_nat i * Z.of_nat c) by lia.
    rewrite Z.div_add, Z.mod_add by lia. rewrite Z.div_small, Z.mod_small by lia. by rewrite Z.add_0_l, Nat2Z.id. }
  exists ((λ i, rows_batch (piece i)) <$> seq 0 m). split_and!.
  - apply mapM_res_Ok. apply Forall2_fmap, Forall_Forall2_diag, Forall_forall. intros i Hi%elem_of_seq. apply Hchunk. lia.
  - apply Forall_fmap, Forall_forall. intros i Hi%elem_of_seq. split; [|done]. apply rows_batch_ok, Forall_fmap, Forall_forall.
    intros j Hj%elem_of_seq. destruct (demo_row_range seed (i * c + j)) as [Hid Hin]. split; [rewrite Hid; lia|done].
  - assert (∀ l, ((λ i, rows_batch (piece i)) <$> l) ≫= batch_rows = l ≫= (λ i, batch_rows (rows_batch (piece i)))) as ->
      by (induction l as [|i l IH]; [done|]; cbn; by rewrite IH).
    rewrite <- (Nat.min_l (Z.to_nat rows) (m * c)) by lia. rewrite <- (pieces _ c).
    apply list_bind_ext; [|done]. intros i. rewrite rows_batch_rows. unfold piece. by rewrite <- list_fmap_compose.
Qed.
End Table.
