(* ===== verification/Parquet.v ===== *)
(** * oxidelake-storage: writing Parquet files

    Models the writer options of [src/crates/oxidelake-storage/src/parquet_opts.rs],
    the file writer of [parquet_io.rs], [write_demo_table] of [datagen.rs] and
    the Arrow IPC files of [ipc.rs].
    The [parquet] crate and the file system are the operations of [ParquetApi]
    over an abstract state; what the code relies on are the laws of
    [ParquetLaws], in the second part with the properties. *)

From Stdlib Require Import SpecFloat Ascii.
From S2P Require Import Prelude Floats Arrow Core ArrowKernels FloatFacts Datagen.

(** ** The crate and the file system *)

Inductive EnabledStatistics := StatisticsPage.
Inductive WriterVersion := PARQUET_2_0.

Class ParquetApi := {
  Fs : Type;
  File : Type;
  ArrowWriter : Type;
  ZstdLevel : Type;
  zstd_level_try_new : Z → res string ZstdLevel;
  WriterProperties : Type;
  (** [PqCompression] *)
  PqCompression : Type;
  ZSTD : ZstdLevel → PqCompression;
  LZ4_RAW : PqCompression;
  UNCOMPRESSED : PqCompression;
  (** [WriterProperties::builder] and its methods *)
  Builder : Type;
  builder : Builder;
  set_writer_version : WriterVersion → Builder → Builder;
  set_max_row_group_row_count : option Z → Builder → Builder;
  set_compression : PqCompression → Builder → Builder;
  set_dictionary_enabled : bool → Builder → Builder;
  set_statistics_enabled : EnabledStatistics → Builder → Builder;
  set_bloom_filter_enabled : bool → Builder → Builder;
  set_column_bloom_filter_enabled : string → bool → Builder → Builder;
  set_column_bloom_filter_fpp : string → f64 → Builder → Builder;
  build : Builder → WriterProperties;
  (** [std::fs] *)
  create_dir_all : string → Fs → res ErrorKind unit * Fs;
  file_create : string → Fs → res ErrorKind File * Fs;
  (** the writer; an error is its message, the row count of a closed file is
      that of its metadata *)
  writer_try_new : File → Schema → WriterProperties → Fs → res string ArrowWriter * Fs;
  writer_write : ArrowWriter → RecordBatch → Fs → res string ArrowWriter * Fs;
  writer_close : ArrowWriter → Fs → res string Z * Fs;
}.

(** [PathBuf::join] with a relative path. *)
Definition path_join (dir file : string) : string :=
  match last (String.list_ascii_of_string dir) with
  | None => file
  | Some c => if decide (c = "/"%char) then dir +:+ file else dir +:+ "/" +:+ file
  end.

(** ** Options ([parquet_opts.rs]) *)

Inductive Compression := Zstd | Lz4 | CNone.
#[global] Instance Compression_EqDecision : EqDecision Compression.
Proof. solve_decision. Defined.

Definition Compression_default : Compression := Zstd.

Definition Compression_as_str (c : Compression) : string :=
  match c with Zstd => "zstd" | Lz4 => "lz4" | CNone => "none" end.

Definition Compression_from_str (s : string) : result Compression :=
  let s := to_ascii_lowercase (str_trim s) in
  if decide (s = "zstd") then Ok Zstd
  else if decide (s = "lz4") then Ok Lz4
  else if decide (s = "none" ∨ s = "uncompressed") then Ok CNone
  else Err (Plan ("unknown compression '" +:+ s +:+ "'; expected none, lz4 or zstd")).

Record ParquetWriteOptions := mkWriteOptions {
  row_group_rows : Z;
  compression : Compression;
  dictionary : bool;
  bloom_filter_columns : list string;
  bloom_filter_fpp : f64;
}.

Definition fpp_default : f64 := f64_div (f64_int 1) (f64_int 100).
Definition ParquetWriteOptions_default : ParquetWriteOptions :=
  mkWriteOptions 262144 Compression_default true [] fpp_default.

Definition with_bloom_filter (column : string) (o : ParquetWriteOptions) : ParquetWriteOptions :=
  mkWriteOptions (row_group_rows o) (compression o) (dictionary o) (bloom_filter_columns o ++ [column]) (bloom_filter_fpp o).

(** [datagen.rs] *)
Definition demo_write_options (rows : Z) (c : Compression) : ParquetWriteOptions :=
  let d := ParquetWriteOptions_default in
  with_bloom_filter "k" (with_bloom_filter "id"
    (mkWriteOptions rows c (dictionary d) (bloom_filter_columns d) (bloom_filter_fpp d))).

Definition f64_ltb (a b : f64) : bool := SFltb (f64_sf a) (f64_sf b).

Section Writer.
Context `{!ParquetApi}.

Definition to_parquet (c : Compression) : result PqCompression :=
  match c with
  | Zstd => ZSTD <$> map_err Plan (zstd_level_try_new 1)
  | Lz4 => Ok LZ4_RAW
  | CNone => Ok UNCOMPRESSED
  end.

Definition writer_properties (o : ParquetWriteOptions) : result WriterProperties :=
  if row_group_rows o =? 0 then Err (Plan "row_group_rows must be positive")
  else if negb (f64_ltb f64_zero (bloom_filter_fpp o) && f64_ltb (bloom_filter_fpp o) (f64_int 1))
  then Err (Plan "bloom_filter_fpp must be in (0, 1)")
  else
    c ← to_parquet (compression o);
    let b := set_bloom_filter_enabled false
               (set_statistics_enabled StatisticsPage
                  (set_dictionary_enabled (dictionary o)
                     (set_compression c
                        (set_max_row_group_row_count (Some (row_group_rows o))
                           (set_writer_version PARQUET_2_0 builder))))) in
    let b := foldl (λ b column, set_column_bloom_filter_fpp column (bloom_filter_fpp o)
                                  (set_column_bloom_filter_enabled column true b)) b (bloom_filter_columns o) in
    Ok (build b).

(** ** The file writer ([parquet_io.rs]) *)

(** Steps over the file system: it keeps what a failed step did to it. *)
Definition fs_op (A : Type) : Type := Fs → result A * Fs.
Definition fs_ret {A} (a : A) : fs_op A := λ fs, (Ok a, fs).
Definition fs_bind {A B} (m : fs_op A) (f : A → fs_op B) : fs_op B := λ fs,
  match m fs with
  | (Ok a, fs) => f a fs
  | (Err e, fs) => (Err e, fs)
  | (Panic, fs) => (Panic, fs)
  end.
Definition fs_lift {A} (m : result A) : fs_op A := λ fs, (m, fs).
Definition fs_call {E A} (f : E → EngineError) (m : Fs → res E A * Fs) : fs_op A := λ fs,
  let '(r, fs) := m fs in (map_err f r, fs).

Definition writer_error (msg : string) : EngineError := Execution ("parquet writer: " +:+ msg).

(** [ParquetFileWriter] is its [writer]. *)
Definition ParquetFileWriter_create (path : string) (s : Schema) (o : ParquetWriteOptions) : fs_op ArrowWriter :=
  fs_bind (fs_call Io (file_create path)) (λ file,
  fs_bind (fs_lift (writer_properties o)) (λ props,
  fs_call writer_error (writer_try_new file s props))).

Definition ParquetFileWriter_write (w : ArrowWriter) (b : RecordBatch) : fs_op ArrowWriter :=
  fs_call writer_error (writer_write w b).

(** A negative row count reads as 0. *)
Definition ParquetFileWriter_close (w : ArrowWriter) : fs_op Z :=
  fs_bind (fs_call writer_error (writer_close w)) (λ num_rows,
  fs_ret (if 0 <=? num_rows then num_rows else 0)).

(** The loops over the batches: those of [write_demo_table] may themselves be
    errors. *)
Fixpoint write_chunks (w : ArrowWriter) (chunks : list (result RecordBatch)) : fs_op ArrowWriter :=
  match chunks with
  | [] => fs_ret w
  | chunk :: chunks =>
      fs_bind (fs_lift chunk) (λ b,
      fs_bind (ParquetFileWriter_write w b) (λ w, write_chunks w chunks))
  end.

Definition write_parquet (path : string) (s : Schema) (batches : list RecordBatch) (o : ParquetWriteOptions) : fs_op Z :=
  fs_bind (ParquetFileWriter_create path s o) (λ w,
  fs_bind (write_chunks w (Ok <$> batches)) ParquetFileWriter_close).

Record DemoTable := mkDemoTable { dt_path : string; dt_rows : Z }.

Definition write_demo_table `{!ArrowKernels} (dir : string) (rows seed : Z) (o : ParquetWriteOptions) : fs_op DemoTable :=
  fs_bind (fs_call Io (create_dir_all dir)) (λ _,
  let path := path_join dir "t.parquet" in
  fs_bind (ParquetFileWriter_create path demo_schema o) (λ w,
  fs_bind (write_chunks w (demo_chunks rows seed)) (λ w,
  fs_bind (ParquetFileWriter_close w) (λ written,
  fs_ret (mkDemoTable path written))))).
End Writer.

(** ** Arrow IPC files ([ipc.rs]) *)

Definition IPC_ALIGNMENT : Z := 64.

Class IpcApi `{ParquetApi} := {
  IpcWriteOptions : Type;
  IpcWriter : Type;
  IpcReader : Type;
  BufFile : Type;
  (** alignment, the legacy format; the metadata version is V5 *)
  ipc_write_options : Z → bool → res ArrowError IpcWriteOptions;
  ipc_writer : File → Schema → IpcWriteOptions → Fs → res ArrowError IpcWriter * Fs;
  ipc_write_batch : IpcWriter → RecordBatch → Fs → res ArrowError IpcWriter * Fs;
  ipc_finish : IpcWriter → Fs → res ArrowError IpcWriter * Fs;
  ipc_into_inner : IpcWriter → Fs → res ArrowError BufFile * Fs;
  flush_file : BufFile → Fs → res ErrorKind unit * Fs;
  metadata_len : string → Fs → res ErrorKind Z * Fs;
  file_open : string → Fs → res ErrorKind File * Fs;
  (** the reader and its iterator; an error is its message *)
  ipc_reader : File → Fs → res string IpcReader * Fs;
  ipc_batches : IpcReader → list (res string RecordBatch);
}.

Section Ipc.
Context `{IpcApi}.

Fixpoint write_ipc_batches (w : IpcWriter) (batches : list RecordBatch) : fs_op IpcWriter :=
  match batches with
  | [] => fs_ret w
  | b :: batches => fs_bind (fs_call ArrowE (ipc_write_batch w b)) (λ w, write_ipc_batches w batches)
  end.

Definition write_ipc_file (path : string) (s : Schema) (batches : list RecordBatch) : fs_op Z :=
  fs_bind (fs_lift (map_err ArrowE (ipc_write_options IPC_ALIGNMENT false))) (λ options,
  fs_bind (fs_call Io (file_create path)) (λ file,
  fs_bind (fs_call ArrowE (ipc_writer file s options)) (λ w,
  fs_bind (write_ipc_batches w batches) (λ w,
  fs_bind (fs_call ArrowE (ipc_finish w)) (λ w,
  fs_bind (fs_call ArrowE (ipc_into_inner w)) (λ file,
  fs_bind (fs_call Io (flush_file file)) (λ _,
  fs_call Io (metadata_len path)))))))).

Definition read_ipc_file (path : string) : fs_op (list RecordBatch) :=
  fs_bind (fs_call Io (file_open path)) (λ file,
  fs_bind (fs_call (λ e, Format ("invalid Arrow IPC file " +:+ path +:+ ": " +:+ e)) (ipc_reader file)) (λ reader,
  fs_lift (map_err (λ e, Format ("corrupt Arrow IPC file " +:+ path +:+ ": " +:+ e)) (mapM id (ipc_batches reader))))).

(** An IPC file is read whole or not at all: a missing file is an I/O error, and
    one with an unreadable head or batch is a format error. *)
Lemma read_ipc_file_spec path fs :
  match read_ipc_file path fs with
  | (Ok bs, _) => ∃ file fs1 reader fs2,
      file_open path fs = (Ok file, fs1) ∧ ipc_reader file fs1 = (Ok reader, fs2) ∧ ipc_batches reader = Ok <$> bs
  | (Err (Io kind), fs') => file_open path fs = (Err kind, fs')
  | (Err e, _) => ∃ file fs1 msg, file_open path fs = (Ok file, fs1) ∧ e = Format msg
  | (Panic, _) => True
  end.
Proof.
  unfold read_ipc_file, fs_bind, fs_call, fs_lift. destruct (file_open path fs) as [[file|k|] fs1]; cbn; [|done|done].
  destruct (ipc_reader file fs1) as [[reader|e|] fs2] eqn:Hr; cbn; [|by eexists _, _, _|done].
  destruct (mapM id (ipc_batches reader)) as [bs|e|] eqn:Hm; cbn; [|by eexists _, _, _|done].
  exists file, fs1, reader, fs2. split; [done|]. split; [done|]. apply mapM_res_Ok in Hm.
  apply list_eq_Forall2, Forall2_fmap_r. eapply Forall2_impl; [exact Hm|]. by intros ? ?.
Qed.

(** The writer settles its options before it creates the file: when they are
    refused, the file that was there is untouched. *)
Lemma write_ipc_refused path s batches e fs :
  ipc_write_options IPC_ALIGNMENT false = Err e → write_ipc_file path s batches fs = (Err (ArrowE e), fs).
Proof. intros He. unfold write_ipc_file, fs_bind, fs_lift. by rewrite He. Qed.
End Ipc.

(** ** The demo table reaches the file

    What the code relies on of the [parquet] crate and the file system, and the
    theorem that [write_demo_table] leaves the table of [demo_row] in the file,
    with an instance of the laws.  An unusable option is refused, but only after
    the file was truncated. *)

Abbreviation Row := (list (option (option Value))).

(** The types every Parquet writer maps. *)
Fixpoint plain_type (dt : DataType) : bool :=
  match dt with
  | Int64 | Float64 | Float32 | Int32 | Utf8 => true
  | FixedSizeList f size => plain_type (field_type_of f) && (0 <? size)
  | OtherType _ => false
  end.
Definition plain_schema (s : Schema) : bool := forallb (λ f, plain_type (field_type_of f)) (fields s).

(** A file system on which nothing fails: no disk full, no permission denied. *)
Class ParquetLaws `{ParquetApi} := {
  healthy : Fs → Prop;
  is_dir : Fs → string → Prop;
  (** the file is open at a path, a writer is at work on a path *)
  opened : Fs → File → string → Prop;
  writing : Fs → ArrowWriter → string → Schema → list Row → Prop;
  (** the rows a reader finds in a finished file *)
  file_rows : Fs → string → option (Schema * list Row);
  zstd_law : ∃ l, zstd_level_try_new 1 = Ok l;
  create_dir_law fs d : healthy fs →
    ∃ fs', create_dir_all d fs = (Ok tt, fs') ∧ healthy fs' ∧ is_dir fs' d;
  create_law fs d name : healthy fs → is_dir fs d → ("/"%char ∉ String.list_ascii_of_string name) → name ≠ "" →
    ∃ f fs', file_create (path_join d name) fs = (Ok f, fs') ∧ healthy fs' ∧ opened fs' f (path_join d name);
  new_law fs f p s props : healthy fs → opened fs f p → plain_schema s = true →
    ∃ w fs', writer_try_new f s props fs = (Ok w, fs') ∧ healthy fs' ∧ writing fs' w p s [];
  write_law fs w p s rows b : healthy fs → writing fs w p s rows → batch_ok b → schema b = s →
    ∃ w' fs', writer_write w b fs = (Ok w', fs') ∧ healthy fs' ∧ writing fs' w' p s (rows ++ batch_rows b);
  close_law fs w p s rows : healthy fs → writing fs w p s rows → Z.of_nat (length rows) ≤ i64_max →
    ∃ fs', writer_close w fs = (Ok (Z.of_nat (length rows)), fs') ∧ healthy fs' ∧ file_rows fs' p = Some (s, rows);
}.

Section Written.
Context `{!ArrowKernels, !ArrowLaws, !ParquetApi, !ParquetLaws}.

(** Steps that succeed, and one that fails. *)
Lemma fs_bind_Ok {A B} (m : fs_op A) (f : A → fs_op B) a fs fs' :
  m fs = (Ok a, fs') → fs_bind m f fs = f a fs'.
Proof. unfold fs_bind. by intros ->. Qed.
Lemma fs_bind_Err {A B} (m : fs_op A) (f : A → fs_op B) e fs fs' :
  m fs = (Err e, fs') → fs_bind m f fs = (Err e, fs').
Proof. unfold fs_bind. by intros ->. Qed.
Lemma fs_call_Ok {E A} (g : E → EngineError) (m : Fs → res E A * Fs) a fs fs' :
  m fs = (Ok a, fs') → fs_call g m fs = (Ok a, fs').
Proof. unfold fs_call. by intros ->. Qed.

(** The options [writer_properties] accepts. *)
Definition usable_options (o : ParquetWriteOptions) : bool :=
  negb (row_group_rows o =? 0) && (f64_ltb f64_zero (bloom_filter_fpp o) && f64_ltb (bloom_filter_fpp o) (f64_int 1)).

Lemma writer_properties_usable o :
  if usable_options o then ∃ p, writer_properties o = Ok p else ∃ msg, writer_properties o = Err (Plan msg).
Proof.
  unfold usable_options, writer_properties. destruct (row_group_rows o =? 0); cbn [negb andb]; [by eexists|].
  destruct (_ && _); cbn [negb]; [|by eexists]. destruct zstd_law as [l Hl].
  destruct (compression o); cbn [to_parquet]; rewrite ?Hl; cbn; by eexists.
Qed.

Lemma create_spec fs d name s o :
  healthy fs → is_dir fs d → ("/"%char ∉ String.list_ascii_of_string name) → name ≠ "" → plain_schema s = true →
  if usable_options o
  then ∃ w fs', ParquetFileWriter_create (path_join d name) s o fs = (Ok w, fs') ∧ healthy fs' ∧ writing fs' w (path_join d name) s []
  else ∃ msg, ParquetFileWriter_create (path_join d name) s o fs = (Err (Plan msg), (file_create (path_join d name) fs).2).
Proof.
  intros Hh Hd Hn Hne Hs. destruct (create_law fs d name Hh Hd Hn Hne) as (f & fs1 & Hf & Hh1 & Ho).
  pose proof (writer_properties_usable o) as Hp. unfold ParquetFileWriter_create. rewrite (fs_bind_Ok _ _ _ _ _ (fs_call_Ok Io _ _ _ _ Hf)).
  destruct (usable_options o); destruct Hp as [p Hp]; [|exists p; unfold fs_bind, fs_lift; by rewrite Hp, Hf].
  destruct (new_law fs1 f _ s p Hh1 Ho Hs) as (w & fs2 & Hw & Hh2 & Hwr). exists w, fs2. split_and!; [|done|done].
  unfold fs_bind, fs_lift. rewrite Hp. by apply fs_call_Ok.
Qed.

Lemma write_chunks_spec fs w p s rows bs :
  healthy fs → writing fs w p s rows → Forall (λ b, batch_ok b ∧ schema b = s) bs →
  ∃ w' fs', write_chunks w (Ok <$> bs) fs = (Ok w', fs') ∧ healthy fs' ∧ writing fs' w' p s (rows ++ (bs ≫= batch_rows)).
Proof.
  intros Hh Hw Hbs. revert fs w rows Hh Hw. induction Hbs as [|b bs [Hb Hs] _ IH]; intros fs w rows Hh Hw; cbn [fmap list_fmap write_chunks].
  { exists w, fs. by rewrite app_nil_r. }
  destruct (write_law fs w p s rows b Hh Hw Hb Hs) as (w1 & fs1 & Hg1 & Hh1 & Hw1).
  rewrite (fs_bind_Ok _ _ b fs fs) by done. rewrite (fs_bind_Ok _ _ _ _ _ (fs_call_Ok writer_error _ _ _ _ Hg1)).
  destruct (IH fs1 w1 _ Hh1 Hw1) as (w2 & fs2 & Hg2 & Hh2 & Hw2). exists w2, fs2. split_and!; [done|done|].
  by rewrite <- app_assoc in Hw2.
Qed.

Lemma close_spec fs w p s rows :
  healthy fs → writing fs w p s rows → Z.of_nat (length rows) ≤ i64_max →
  ∃ fs', ParquetFileWriter_close w fs = (Ok (Z.of_nat (length rows)), fs') ∧ healthy fs' ∧ file_rows fs' p = Some (s, rows).
Proof.
  intros Hh Hw Hl. destruct (close_law fs w p s rows Hh Hw Hl) as (fs' & Hc & Hh' & Hr). exists fs'.
  unfold ParquetFileWriter_close. rewrite (fs_bind_Ok _ _ _ _ _ (fs_call_Ok writer_error _ _ _ _ Hc)). unfold fs_ret. by rewrite (proj2 (Z.leb_le _ _)) by lia.
Qed.

(** C23: [oxide gen-data] writes the table the seed determines.  With usable
    options [write_demo_table] creates the directory and leaves in [t.parquet],
    under the demo schema, exactly the rows [demo_row seed 0], [demo_row seed 1],
    ... in order, as many as asked for, and reports their number; row [i] is a
    function of the seed and [i] alone, so a longer table extends a shorter one
    and chunk boundaries do not show, and its values keep to the promised
    ranges.  Unusable options are refused with a plan error, which leaves the
    file as [File::create] left it: truncated. *)
Theorem demo_table_written fs dir rows seed o :
  healthy fs → is_u64 seed → 0 ≤ rows ≤ i64_max →
  if usable_options o
  then ∃ fs', write_demo_table dir rows seed o fs = (Ok (mkDemoTable (path_join dir "t.parquet") rows), fs') ∧
         file_rows fs' (path_join dir "t.parquet")
         = Some (demo_schema, (λ i, Some <$> row_cells (demo_row seed i)) <$> seq 0 (Z.to_nat rows)) ∧
         ∀ i, (i < Z.to_nat rows)%nat → dr_id (demo_row seed i) = Z.of_nat i ∧ row_in_range (demo_row seed i)
  else ∃ msg fs1, create_dir_all dir fs = (Ok tt, fs1) ∧
         write_demo_table dir rows seed o fs = (Err (Plan msg), (file_create (path_join dir "t.parquet") fs1).2).
Proof.
  intros Hh Hseed Hrows. destruct (create_dir_law fs dir Hh) as (fs1 & Hd & Hh1 & Hdir).
  assert (Hn : "/"%char ∉ String.list_ascii_of_string "t.parquet") by (by apply (bool_decide_eq_true_1 (_ ∉ _)); vm_compute).
  pose proof (create_spec fs1 dir "t.parquet" demo_schema o Hh1 Hdir Hn ltac:(done) ltac:(by vm_compute)) as Hc.
  unfold write_demo_table. rewrite (fs_bind_Ok _ _ _ _ _ (fs_call_Ok Io _ _ _ _ Hd)). cbv zeta.
  destruct (usable_options o); [|destruct Hc as [msg Hc]; exists msg, fs1; by rewrite (fs_bind_Err _ _ _ _ _ Hc)].
  destruct Hc as (w & fs2 & Hc & Hh2 & Hw). rewrite (fs_bind_Ok _ _ _ _ _ Hc).
  destruct (demo_batches_spec rows seed Hseed ltac:(lia)) as (bs & Hbs & Hok & Hcells).
  apply mapM_res_Ok in Hbs. assert (demo_chunks rows seed = Ok <$> bs) as ->.
  { clear -Hbs. induction Hbs as [|x y l k Hxy _ IH]; [done|]. cbn in Hxy |- *. by rewrite Hxy, IH. }
  destruct (write_chunks_spec fs2 w _ _ _ _ Hh2 Hw Hok) as (w3 & fs3 & Hg3 & Hh3 & Hw3). cbn [app] in Hw3. rewrite Hcells in Hw3.
  destruct (close_spec fs3 w3 _ _ _ Hh3 Hw3) as (fs4 & Hg4 & Hh4 & Hr4); [rewrite length_fmap, length_seq; lia|].
  exists fs4. rewrite (fs_bind_Ok _ _ _ _ _ Hg3), (fs_bind_Ok _ _ _ _ _ Hg4). unfold fs_ret. rewrite length_fmap, length_seq, Z2Nat.id by lia. split_and!; [done|done|].
  intros i Hi. apply demo_row_range.
Qed.
End Written.

(** ** A file system in memory *)

Module ParquetExample.

(** Directories, and finished files; a directory must exist before a file is
    created below it. *)
Record MemFs := mkFs { fs_dirs : list string; fs_files : gmap string (Schema * list Row) }.

Definition below (dir p : string) : bool := String.prefix dir p.

#[global] Instance mem_parquet : ParquetApi := {|
  Fs := MemFs;
  File := string;
  ArrowWriter := string * Schema * list Row;
  ZstdLevel := Z;
  zstd_level_try_new := λ l, if (1 <=? l) && (l <=? 22) then Ok l else Err "level out of range";
  WriterProperties := list string;
  PqCompression := string;
  ZSTD := λ _, "zstd";
  LZ4_RAW := "lz4";
  UNCOMPRESSED := "none";
  Builder := list string;
  builder := [];
  set_writer_version := λ _ b, b;
  set_max_row_group_row_count := λ _ b, b;
  set_compression := λ c b, c :: b;
  set_dictionary_enabled := λ _ b, b;
  set_statistics_enabled := λ _ b, b;
  set_bloom_filter_enabled := λ _ b, b;
  set_column_bloom_filter_enabled := λ c _ b, c :: b;
  set_column_bloom_filter_fpp := λ _ _ b, b;
  build := id;
  create_dir_all := λ d fs, (Ok tt, mkFs (d :: fs_dirs fs) (fs_files fs));
  file_create := λ p fs,
    if existsb (λ d, below d p) (fs_dirs fs) then (Ok p, mkFs (fs_dirs fs) (delete p (fs_files fs))) else (Err IoNotFound, fs);
  writer_try_new := λ f s _ fs, if plain_schema s then (Ok (f, s, []), fs) else (Err "unsupported", fs);
  writer_write := λ '(p, s, rows) b fs,
    if decide (schema b = s) then (Ok (p, s, rows ++ batch_rows b), fs) else (Err "schema", fs);
  writer_close := λ '(p, s, rows) fs,
    (Ok (Z.of_nat (length rows)), mkFs (fs_dirs fs) (<[p := (s, rows)]> (fs_files fs)));
|}.

Lemma prefix_app a b : String.prefix a (a +:+ b) = true.
Proof.
  induction a as [|c a IH]; [by destruct b|]. change (String c a +:+ b) with (String c (a +:+ b)). cbn [String.prefix].
  destruct (ascii_dec c c); [exact IH|congruence].
Qed.

Lemma below_join d name : below d (path_join d name) = true.
Proof.
  unfold below, path_join. destruct (last _) as [c|] eqn:Hl; [case_decide; apply prefix_app|].
  destruct d as [|c d]; [by destruct name|]. cbn in Hl. by apply last_None in Hl.
Qed.

#[global, program] Instance mem_parquet_laws : ParquetLaws := {|
  healthy := λ _, True;
  is_dir := λ fs d, d ∈ fs_dirs fs;
  opened := λ _ f p, f = p;
  writing := λ _ w p s rows, w = (p, s, rows);
  file_rows := λ fs p, fs_files fs !! p;
|}.
Next Obligation. by eexists. Qed.
Next Obligation. intros fs d _. eexists. split_and!; [done|done|]. cbn. by left. Qed.
Next Obligation.
  intros fs d name _ Hd _ _. cbn [file_create mem_parquet].
  replace (existsb _ _) with true; [by do 2 eexists|]. symmetry. apply existsb_exists. exists d.
  split; [by apply list_elem_of_In|apply below_join].
Qed.
Next Obligation. intros fs f p s props _ -> Hs. cbn [writer_try_new mem_parquet]. rewrite Hs. by do 2 eexists. Qed.
Next Obligation. intros fs w p s rows b _ -> _ Hs. cbn [writer_write mem_parquet]. rewrite decide_True by done. by do 2 eexists. Qed.
Next Obligation. intros fs w p s rows _ -> _. eexists. split_and!; [done|done|]. cbn. apply lookup_insert_eq. Qed.

Definition small : ParquetWriteOptions := demo_write_options 500 CNone.

(** Three rows of seed 42 in a directory that did not exist. *)
Lemma demo_table_written_witness :
  usable_options small = true ∧
  ∃ fs', write_demo_table "/data" 3 42 small (mkFs [] ∅) = (Ok (mkDemoTable "/data/t.parquet" 3), fs').
Proof.
  assert (Hu : usable_options small = true) by by vm_compute. split; [done|].
  pose proof (demo_table_written (mkFs [] ∅) "/data" 3 42 small I ltac:(unfold is_u64, U64; lia) ltac:(unfold i64_max; lia)) as H.
  rewrite Hu in H. destruct H as (fs' & H & _). exists fs'. exact H.
Defined.

(** A zero row-group size is found out after the old file is gone. *)
Example refused_after_truncation :
  write_demo_table "/data" 3 42 (demo_write_options 0 CNone) (mkFs ["/data"] {["/data/t.parquet" := (demo_schema, [])]})
  = (Err (Plan "row_group_rows must be positive"), mkFs ["/data"; "/data"] ∅).
Proof. by vm_compute. Qed.
End ParquetExample.
