(* ===== verification/Text.v ===== *)
(** * Text and numbers as Rust formats them

    A Rust string is the sequence of its [char]s here, a [char] its code point.
    [fmt] on floats is exact: [{:.p}] and [{:.pe}] print the decimal nearest to
    the binary value, a tie going to the even digit, and [str::parse::<f64>]
    the float nearest to the decimal. *)

From Stdlib Require Import SpecFloat.
From S2P Require Import Prelude Floats.

Abbreviation text := (list Z).

(** ** Strings *)

(** The characters of a UTF-8 string. *)
Definition byte_of (c : Ascii.ascii) : Z := Z.of_N (Ascii.N_of_ascii c).
Fixpoint utf8_decode (l : list Z) : text :=
  match l with
  | [] => []
  | b :: l =>
      if b <? 0x80 then b :: utf8_decode l
      else if b <? 0xE0 then
        match l with c1 :: l => (b - 0xC0) * 64 + (c1 - 0x80) :: utf8_decode l | _ => [] end
      else if b <? 0xF0 then
        match l with
        | c1 :: c2 :: l => ((b - 0xE0) * 64 + (c1 - 0x80)) * 64 + (c2 - 0x80) :: utf8_decode l
        | _ => [] end
      else
        match l with
        | c1 :: c2 :: c3 :: l => (((b - 0xF0) * 64 + (c1 - 0x80)) * 64 + (c2 - 0x80)) * 64 + (c3 - 0x80) :: utf8_decode l
        | _ => [] end
  end.
Definition chars (s : string) : text := utf8_decode (byte_of <$> String.list_ascii_of_string s).

(** A character's bytes, and a string of characters. *)
Definition utf8_bytes (c : Z) : list Z :=
  if c <? 0x80 then [c]
  else if c <? 0x800 then [0xC0 + c / 64; 0x80 + c mod 64]
  else if c <? 0x10000 then [0xE0 + c / 4096; 0x80 + c / 64 mod 64; 0x80 + c mod 64]
  else [0xF0 + c / 262144; 0x80 + c / 4096 mod 64; 0x80 + c / 64 mod 64; 0x80 + c mod 64].
Definition ascii_of (z : Z) : Ascii.ascii := Ascii.ascii_of_N (Z.to_N z).
Definition to_string (t : text) : string := String.string_of_list_ascii (ascii_of <$> (t ≫= utf8_bytes)).

Definition is_char (c : Z) : Prop := 0 ≤ c < 0x110000.

Lemma byte_of_ascii z : 0 ≤ z < 256 → byte_of (ascii_of z) = z.
Proof. intros Hz. unfold byte_of, ascii_of. rewrite Ascii.N_ascii_embedding by lia. lia. Qed.

Lemma utf8_bytes_range c : is_char c → Forall (λ b, 0 ≤ b < 256) (utf8_bytes c).
Proof.
  unfold is_char, utf8_bytes. intros Hc.
  assert (∀ z, 0 ≤ z mod 64 < 64) by (intros; by apply Z.mod_pos_bound).
  destruct (Z.ltb_spec c 0x80); [|destruct (Z.ltb_spec c 0x800); [|destruct (Z.ltb_spec c 0x10000)]];
    repeat constructor; try (specialize (H c); lia); try (specialize (H (c / 64)); lia); try (specialize (H (c / 4096)); lia);
    try (apply Z.add_nonneg_nonneg; [done|apply Z.div_pos; lia]).
  - assert (c / 64 < 32) by (apply Z.div_lt_upper_bound; lia). lia.
  - assert (c / 4096 < 16) by (apply Z.div_lt_upper_bound; lia). lia.
  - assert (c / 262144 < 5) by (apply Z.div_lt_upper_bound; lia). lia.
Qed.

Lemma utf8_decode_bytes c l : is_char c → utf8_decode (utf8_bytes c ++ l) = c :: utf8_decode l.
Proof.
  unfold is_char, utf8_bytes. intros Hc. pose proof (Z.div_mod c 64 ltac:(lia)) as H1. pose proof (Z.mod_pos_bound c 64 ltac:(lia)).
  pose proof (Z.div_mod (c / 64) 64 ltac:(lia)) as H2. pose proof (Z.mod_pos_bound (c / 64) 64 ltac:(lia)). rewrite Z.div_div in H2 by lia.
  pose proof (Z.div_mod (c / 4096) 64 ltac:(lia)) as H3. pose proof (Z.mod_pos_bound (c / 4096) 64 ltac:(lia)). rewrite Z.div_div in H3 by lia.
  change (64 * 64) with 4096 in H2. change (4096 * 64) with 262144 in H3.
  destruct (Z.ltb_spec c 0x80) as [Hs|Hs]; [|destruct (Z.ltb_spec c 0x800) as [Ht|Ht]; [|destruct (Z.ltb_spec c 0x10000) as [Hu|Hu]]];
    cbn [app utf8_decode].
  - by rewrite (proj2 (Z.ltb_lt _ _)) by lia.
  - rewrite (proj2 (Z.ltb_ge _ _)), (proj2 (Z.ltb_lt _ _)) by lia. f_equal. lia.
  - rewrite !(proj2 (Z.ltb_ge (0xE0 + c / 4096) _)), (proj2 (Z.ltb_lt _ _)) by lia. f_equal. lia.
  - rewrite !(proj2 (Z.ltb_ge (0xF0 + c / 262144) _)) by lia. f_equal. lia.
Qed.

Lemma chars_to_string t : Forall is_char t → chars (to_string t) = t.
Proof.
  intros Ht. unfold chars, to_string. rewrite String.list_ascii_of_string_of_list_ascii.
  assert (byte_of <$> (ascii_of <$> (t ≫= utf8_bytes)) = t ≫= utf8_bytes) as ->.
  { rewrite <- list_fmap_compose. rewrite <- (list_fmap_id (t ≫= utf8_bytes)) at 2. apply Forall_fmap_ext_1.
    induction Ht as [|c t Hc _ IH]; [constructor|]. cbn [mbind list_bind]. apply Forall_app. split; [|done].
    eapply Forall_impl; [by apply utf8_bytes_range|]. intros b Hb. by apply byte_of_ascii. }
  induction Ht as [|c t Hc _ IH]; [done|]. cbn [mbind list_bind]. by rewrite utf8_decode_bytes, IH.
Qed.

(** [char::is_whitespace] and [str::trim]; [str::split_once]; [str::replace] of
    one character. *)
Definition is_whitespace (c : Z) : bool :=
  ((9 <=? c) && (c <=? 13)) || (c =? 32) || (c =? 0x85) || (c =? 0xA0) || (c =? 0x1680)
  || ((0x2000 <=? c) && (c <=? 0x200A)) || (c =? 0x2028) || (c =? 0x2029) || (c =? 0x202F) || (c =? 0x205F) || (c =? 0x3000).
Fixpoint trim_start (t : text) : text :=
  match t with [] => [] | c :: t' => if is_whitespace c then trim_start t' else t end.
Definition trim (t : text) : text := trim_start (rev (trim_start (rev t))).

Fixpoint strip_prefix (p t : text) : option text :=
  match p, t with
  | [], _ => Some t
  | a :: p, b :: t => if a =? b then strip_prefix p t else None
  | _ :: _, [] => None
  end.
Fixpoint split_once (sep t : text) : option (text * text) :=
  match strip_prefix sep t with
  | Some rest => Some ([], rest)
  | None => match t with [] => None | c :: t => '(a, b) ← split_once sep t; Some (c :: a, b) end
  end.
Definition replace_char (c : Z) (by_ : text) (t : text) : text := t ≫= λ x, if x =? c then by_ else [x].

Definition ch (s : string) : Z := default 0 (head (chars s)).

(** [trim_end_matches] of one character, and [{:>n}]. *)
Fixpoint drop_leading (c : Z) (s : text) : text :=
  match s with [] => [] | x :: s' => if x =? c then drop_leading c s' else s end.
Definition trim_end_matches (c : Z) (s : text) : text := rev (drop_leading c (rev s)).
Definition pad_left (n : nat) (s : text) : text := replicate (n - length s) (ch " ") ++ s.

(** ** Integers *)

(** The last [n] decimal digits, and the whole number. *)
Fixpoint digits_n (n : nat) (z : Z) : text :=
  match n with O => [] | S n => digits_n n (z / 10) ++ [ch "0" + z mod 10] end.
Fixpoint digit_count_fuel (fuel : nat) (z : Z) : nat :=
  match fuel with O => 0%nat | S fuel => if z <? 10 then 1%nat else S (digit_count_fuel fuel (z / 10)) end.
Definition digit_count (z : Z) : nat := digit_count_fuel (S (Z.to_nat (Z.log2 z))) z.
Definition decimal (z : Z) : text := digits_n (digit_count z) z.
Definition int_text (z : Z) : text := if z <? 0 then ch "-" :: decimal (- z) else decimal z.

(** ** Floats *)

(** The fraction [num / den] to the nearest integer, a tie to the even one. *)
Definition round_half_even (num den : Z) : Z :=
  let q := num / den in
  match Z.compare (2 * (num mod den)) den with
  | Lt => q
  | Gt => q + 1
  | Eq => if Z.even q then q else q + 1
  end.

(** A positive finite magnitude [m * 2^e] as a fraction. *)
Definition mag_num (m : positive) (e : Z) : Z := Zpos m * 2 ^ Z.max 0 e.
Definition mag_den (e : Z) : Z := 2 ^ Z.max 0 (- e).

(** [n / 10^p] with [p] decimals. *)
Definition fixed_text (p : nat) (n : Z) : text :=
  decimal (n / 10 ^ Z.of_nat p) ++ (if (p =? 0)%nat then [] else ch "." :: digits_n p n).

Definition signed (s : bool) (t : text) : text := if s then ch "-" :: t else t.

(** [{:.p}]. *)
Definition format_fixed (p : nat) (v : spec_float) : text :=
  match v with
  | S754_nan => chars "NaN"
  | S754_infinity s => signed s (chars "inf")
  | S754_zero s => signed s (fixed_text p 0)
  | S754_finite s m e => signed s (fixed_text p (round_half_even (mag_num m e * 10 ^ Z.of_nat p) (mag_den e)))
  end.

(** The decimal exponent of [num / den]: [10^k <= num / den < 10^(k+1)]. *)
Definition log10 (num den : Z) : Z :=
  if den <=? num then Z.of_nat (digit_count (num / den)) - 1
  else - Z.of_nat (digit_count ((den + num - 1) / num - 1)).

(** [p + 1] digits and an exponent. *)
Definition exp_text (p : nat) (n k : Z) : text :=
  fixed_text p n ++ ch "e" :: int_text k.

(** [{:.pe}]: rounding may carry into one digit more. *)
Definition format_exp (p : nat) (v : spec_float) : text :=
  match v with
  | S754_nan => chars "NaN"
  | S754_infinity s => signed s (chars "inf")
  | S754_zero s => signed s (exp_text p 0 0)
  | S754_finite s m e =>
      let num := mag_num m e in
      let den := mag_den e in
      let k := log10 num den in
      let shift := Z.of_nat p - k in
      let n := round_half_even (num * 10 ^ Z.max 0 shift) (den * 10 ^ Z.max 0 (- shift)) in
      signed s (if n =? 10 ^ (Z.of_nat p + 1) then exp_text p (10 ^ Z.of_nat p) (k + 1) else exp_text p n k)
  end.

(** ** Parsing *)

Definition is_digit (c : Z) : bool := (ch "0" <=? c) && (c <=? ch "9").
Fixpoint span_digits (s : text) : text * text :=
  match s with
  | c :: s' => if is_digit c then let '(d, r) := span_digits s' in (c :: d, r) else ([], s)
  | [] => ([], [])
  end.
Definition digits_value (ds : text) : Z := foldl (λ z c, z * 10 + (c - ch "0")) 0 ds.

Definition split_sign (s : text) : bool * text :=
  match s with
  | c :: s' => if c =? ch "-" then (true, s') else if c =? ch "+" then (false, s') else (false, s)
  | [] => (false, s)
  end.

(** An exponent must be the rest of the text. *)
Definition parse_exp (s : text) : option Z :=
  match s with
  | [] => Some 0
  | c :: s =>
      if (c =? ch "e") || (c =? ch "E") then
        let '(neg, s) := split_sign s in
        let '(ds, rest) := span_digits s in
        match ds, rest with
        | _ :: _, [] => Some (if neg then - digits_value ds else digits_value ds)
        | _, _ => None
        end
      else None
  end.

(** [digits [. digits] [e exponent]], as [n * 10^x]. *)
Definition parse_number (s : text) : option (Z * Z) :=
  let '(ip, s) := span_digits s in
  let '(fp, s) := match s with
                  | c :: s' => if c =? ch "." then span_digits s' else ([], s)
                  | [] => ([], s)
                  end in
  match ip ++ fp with
  | [] => None
  | ds => x ← parse_exp s; Some (digits_value ds, x - Z.of_nat (length fp))
  end.

Definition lower (c : Z) : Z := if (ch "A" <=? c) && (c <=? ch "Z") then c + 32 else c.

(** [str::parse::<u64>]. *)
Definition parse_u64 (s : text) : option Z :=
  let s := match s with c :: s' => if c =? ch "+" then s' else s | [] => s end in
  match span_digits s with
  | (_ :: _ as ds, []) => let z := digits_value ds in if z <? U64 then Some z else None
  | _ => None
  end.

(** The float nearest to [num / den]. *)
Definition sf_ratio (s : bool) (num den : positive) : spec_float :=
  let '(m, e, l) := SFdiv_core_binary 53 1024 (Zpos num) 0 (Zpos den) 0 in
  binary_round_aux 53 1024 s m e l.

Definition sf_decimal (s : bool) (n x : Z) : spec_float :=
  match n * 10 ^ Z.max 0 x, 10 ^ Z.max 0 (- x) with
  | Zpos num, Zpos den => sf_ratio s num den
  | _, _ => S754_zero s
  end.

Definition parse_f64 (s : text) : option spec_float :=
  let '(neg, s) := split_sign s in
  let l := lower <$> s in
  if decide (l = chars "inf" ∨ l = chars "infinity") then Some (S754_infinity neg)
  else if decide (l = chars "nan") then Some S754_nan
  else '(n, x) ← parse_number s; Some (sf_decimal neg n x).

Definition sf_finite (v : spec_float) : bool :=
  match v with S754_zero _ | S754_finite _ _ _ => true | _ => false end.

(** [u64 as f64]. *)
Definition sf_of_u64 (z : Z) : spec_float := binary_normalize 53 1024 z 0 false.

#[global] Instance spec_float_EqDecision : EqDecision spec_float.
Proof. solve_decision. Defined.

(** The digits [{:?}] prints: the shortest decimal that reads back as the float,
    the nearest of those, as [n * 10^x]. *)
Definition shortest_with (v : spec_float) (num den k : Z) (p : nat) : option (Z * Z) :=
  let shift := Z.of_nat p - k in
  let a := num * 10 ^ Z.max 0 shift in
  let b := den * 10 ^ Z.max 0 (- shift) in
  let lo := a / b in
  let good n := bool_decide (sf_decimal false n (- shift) = v) in
  match good lo, good (lo + 1) with
  | false, false => None
  | true, false => Some (lo, - shift)
  | false, true => Some (lo + 1, - shift)
  | true, true => Some (if 2 * (a mod b) <? b then lo else lo + 1, - shift)
  end.
Fixpoint first_some {A B} (f : A → option B) (l : list A) : option B :=
  match l with [] => None | a :: l => match f a with Some b => Some b | None => first_some f l end end.
Fixpoint strip_zeros (fuel : nat) (n x : Z) : Z * Z :=
  match fuel with O => (n, x) | S fuel => if n mod 10 =? 0 then strip_zeros fuel (n / 10) (x + 1) else (n, x) end.

(** Seventeen digits always suffice. *)
Definition shortest (m : positive) (e : Z) : Z * Z :=
  let num := mag_num m e in
  let den := mag_den e in
  let '(n, x) := default (num / den, 0) (first_some (shortest_with (S754_finite false m e) num den (log10 num den)) (seq 0 17)) in
  strip_zeros 17 n x.

(** [{:?}]: positional from [1e-4] up to [1e16]. *)
Definition format_debug (v : spec_float) : text :=
  match v with
  | S754_nan => chars "NaN"
  | S754_infinity s => signed s (chars "inf")
  | S754_zero s => signed s (chars "0.0")
  | S754_finite s m e =>
      let '(n, x) := shortest m e in
      let a := S754_finite false m e in
      signed s
        (if SFleb (sf_decimal false 1 16) a || SFltb a (sf_decimal false 1 (-4))
         then let d := digit_count n in fixed_text (d - 1) n ++ ch "e" :: int_text (x + Z.of_nat d - 1)
         else if 0 <=? x then decimal (n * 10 ^ x) ++ chars ".0"
         else fixed_text (Z.to_nat (- x)) n)
  end.

(** What [fmt] and [parse] give for some floats. *)
Example text_examples :
  (format_fixed 1 <$> [sf_of_u64 0; sf_decimal false 25 (-2); sf_decimal false 35 (-2); sf_decimal true 1 (-2)])
    = [chars "0.0"; chars "0.2"; chars "0.3"; chars "-0.0"] ∧
  (λ p, format_exp p (sf_decimal false 999999 (-2))) <$> [0%nat; 2%nat] = [chars "1e4"; chars "1.00e4"] ∧
  (λ s, format_exp 2 <$> parse_f64 (chars s)) <$> ["1979969.2416513609"; "-.00012"; "1e-400"; "1e400"; "."; "1e"]
    = [Some (chars "1.98e6"); Some (chars "-1.20e-4"); Some (chars "0.00e0"); Some (chars "inf"); None; None] ∧
  (λ '(n, x), format_debug (sf_decimal true n x)) <$> [(4, 0); (1, -1); (2 ^ 53 + 1, 0); (1, 16); (123, -7); (1, -4); (17976931348623157, 292); (5, -324)]
    = chars <$> ["-4.0"; "-0.1"; "-9007199254740992.0"; "-1e16"; "-1.23e-5"; "-0.0001"; "-1.7976931348623157e308"; "-5e-324"] ∧
  chars "a…" = [97; 0x2026].
Proof. vm_compute. repeat split; reflexivity. Qed.
