(* ===== verification/Tui.v ===== *)
(** * oxidelake-tui: the dashboard's state and its event loop

    Models [src/crates/oxidelake-tui/src/state.rs], the model of [model.rs] and
    the loop of [app.rs].  The terminal, crossterm's events and the caller's
    [refresh] closure are the operations of [TerminalApi] over an abstract
    world; the frames the loop draws are in the loop's result.  The second
    part has the properties; what a frame shows is [Render]. *)

From S2P Require Import Prelude Floats Core Telemetry Text.

(** ** State ([state.rs]) *)

Inductive Panel := PlanDag | Inspector | TelemetryPanel | Describe.
#[global] Instance Panel_EqDecision : EqDecision Panel.
Proof. solve_decision. Defined.

Definition Panel_ALL : list Panel := [PlanDag; Inspector; TelemetryPanel; Describe].
Definition Panel_next (p : Panel) : Panel :=
  match p with PlanDag => Inspector | Inspector => TelemetryPanel | TelemetryPanel => Describe | Describe => PlanDag end.
Definition Panel_title (p : Panel) : string :=
  match p with PlanDag => "Plan DAG" | Inspector => "Inspector" | TelemetryPanel => "Telemetry" | Describe => "Describe" end.

Inductive KeyInput := Up | Down | Tab | Quit | OtherKey.
#[global] Instance KeyInput_EqDecision : EqDecision KeyInput.
Proof. solve_decision. Defined.
Inductive Transition := TContinue | TQuit.
#[global] Instance Transition_EqDecision : EqDecision Transition.
Proof. solve_decision. Defined.

Record AppState := mkState { node_count : Z; selected : Z; panel : Panel; quit : bool }.
#[global] Instance AppState_EqDecision : EqDecision AppState.
Proof. solve_decision. Defined.

Definition AppState_new (node_count : Z) : AppState := mkState node_count 0 PlanDag false.

(** [selected + 1] stays below [node_count], which is a [usize]. *)
Definition select_next (s : AppState) : AppState :=
  if (0 <? node_count s) && (wadd64 (selected s) 1 <? node_count s)
  then mkState (node_count s) (wadd64 (selected s) 1) (panel s) (quit s) else s.
(** [saturating_sub] *)
Definition select_prev (s : AppState) : AppState :=
  mkState (node_count s) (Z.max 0 (selected s - 1)) (panel s) (quit s).
Definition cycle_panel (s : AppState) : AppState :=
  mkState (node_count s) (selected s) (Panel_next (panel s)) (quit s).

Definition on_key (key : KeyInput) (s : AppState) : AppState * Transition :=
  let s :=
    match key with
    | Up => select_prev s
    | Down => select_next s
    | Tab => cycle_panel s
    | Quit => mkState (node_count s) (selected s) (panel s) true
    | OtherKey => s
    end in
  (s, if quit s then TQuit else TContinue).

(** ** What a frame shows ([model.rs]) *)

Record ColumnProfile := mkProfile {
  cp_name : text;
  cp_data_type : text;
  cp_min : text;
  cp_max : text;
  cp_null_count : Z;
  cp_p25 : text;
  cp_p50 : text;
  cp_p99 : text;
}.

Record DashboardModel := mkModel {
  dm_telemetry : TelemetrySnapshot;
  dm_profiles : list ColumnProfile;
  dm_title : text;
}.

Definition dm_plan (m : DashboardModel) : list PlanNodeSummary := snap_plan (dm_telemetry m).
Definition dm_operator (m : DashboardModel) (i : nat) : option OperatorSnapshot := snap_operators (dm_telemetry m) !! i.

(** The synthetic model of a dashboard without a query. *)
Definition demo_plan : list PlanNodeSummary := [
  mkPlanNode 0 "GpuAggregateExec" Cuda "group_by=[k], aggr=[SUM(v), COUNT(v)]";
  mkPlanNode 1 "GpuFilterExec" Cuda "k >= 2 AND v < 4.0, projection=[k, v]";
  mkPlanNode 2 "DataSourceExec" CpuSimd "parquet: data/t.parquet, 100 row groups"].

Definition demo_operators : list OperatorSnapshot := [
  mkOpSnapshot 0 "GpuAggregateExec" Cuda 812400 9 100 184000000 13000000 512 16777216 0;
  mkOpSnapshot 1 "GpuFilterExec" Cuda 1000000 812400 100 96000000 24000000 19500000 33554432 7;
  mkOpSnapshot 2 "DataSourceExec" CpuSimd 1000000 1000000 100 410000000 0 0 8388608 0].

Definition GIB : Z := 1024 * 1024 * 1024.
Definition MIB : Z := 1024 * 1024.

Definition demo_profiles : list ColumnProfile := [
  mkProfile (chars "k") (chars "Int64") (chars "0") (chars "99") 0 (chars "24") (chars "49") (chars "98");
  mkProfile (chars "v") (chars "Float64") (chars "0.0") (chars "24.0") 76923 (chars "6.0") (chars "12.0") (chars "23.75");
  mkProfile (chars "s") (chars "Utf8") (chars "s0") (chars "s6") 0 [] [] []].

Definition demo_model : DashboardModel :=
  mkModel
    (mkSnapshot demo_operators (mkTierSnapshot (6 * GIB) (3 * GIB / 2) (512 * MIB))
       (mkSpillSnapshot 42 7 (3 * GIB) (256 * MIB)) demo_plan (mkCapacity (Some (8 * GIB)) (Some (4 * GIB)) true))
    demo_profiles
    (chars "data/t.parquet — SELECT k, sum(v), count(v) FROM t WHERE k >= 2 AND v < 4.0 GROUP BY k").

(** Every node of the demo has its own operator. *)
Example demo_model_pairs :
  (λ n, (pn_name n, pn_backend n)) <$> dm_plan demo_model = (λ o, (sn_name o, sn_backend o)) <$> demo_operators.
Proof. reflexivity. Qed.

(** ** Crossterm *)

(** The key codes the source names; every other one is [KCOther]. *)
Inductive KeyCode := KCUp | KCDown | KCTab | KCEsc | KCChar (c : Z) | KCOther.
Inductive KeyEventKind := Press | Repeat | Release.
#[global] Instance KeyEventKind_EqDecision : EqDecision KeyEventKind.
Proof. solve_decision. Defined.
(** [control]: [modifiers.contains(KeyModifiers::CONTROL)]. *)
Record KeyEvent := mkKey { code : KeyCode; control : bool; kind : KeyEventKind }.
Inductive Event := EKey (k : KeyEvent) | EResize | EOther.

Definition key_input_from_crossterm (key : KeyEvent) : option KeyInput :=
  if decide (kind key = Release) then None
  else Some
    match code key with
    | KCUp => Up
    | KCDown => Down
    | KCTab => Tab
    | KCEsc => Quit
    | KCChar c =>
        if c =? ch "k" then Up
        else if c =? ch "j" then Down
        else if c =? ch "q" then Quit
        else if (c =? ch "c") && control key then Quit
        else OtherKey
    | KCOther => OtherKey
    end.

Class TerminalApi := {
  World : Type;
  (** both ends attached to a terminal *)
  is_interactive_terminal : World → bool;
  try_init : World → res ErrorKind unit * World;
  restore : World → World;
  (** the panic hook that [ratatui::try_init] installs *)
  panic_hook : World → World;
  (** the closure the caller passes *)
  refresh : DashboardModel → World → DashboardModel * World;
  begin_synchronized_update : World → res ErrorKind unit * World;
  end_synchronized_update : World → res ErrorKind unit * World;
  flush : World → res ErrorKind unit * World;
  (** [terminal.draw] of the frame of a state and a model *)
  draw : AppState → DashboardModel → World → res ErrorKind unit * World;
  poll : Z → World → res ErrorKind bool * World;
  read : World → res ErrorKind Event * World;
}.

(** ** The loop ([app.rs]) *)

Section App.
Context `{!TerminalApi}.

Definition io_op (A : Type) : Type := World → res ErrorKind A * World.
Definition io_bind {A B} (m : io_op A) (f : A → io_op B) : io_op B := λ w,
  match m w with
  | (Ok a, w) => f a w
  | (Err e, w) => (Err e, w)
  | (Panic, w) => (Panic, w)
  end.

Definition draw_frame (s : AppState) (m : DashboardModel) : io_op unit :=
  io_bind begin_synchronized_update (λ _,
  io_bind (draw s m) (λ _,
  io_bind end_synchronized_update (λ _, flush))).

(** One turn: go on with a state and a model, or leave the loop. *)
Inductive Turn := TurnNext (s : AppState) (m : DashboardModel) | TurnQuit.

Definition turn (tick : option Z) (s : AppState) (m : DashboardModel) : io_op Turn := λ w,
  let '(m, w) := refresh m w in
  io_bind (draw_frame s m) (λ _,
  io_bind (match tick with Some timeout => poll timeout | None => λ w, (Ok true, w) end) (λ ready,
  if negb ready then λ w, (Ok (TurnNext s m), w)
  else
    io_bind read (λ event w,
    match event with
    | EKey key =>
        match key_input_from_crossterm key with
        | Some input =>
            let '(s, t) := on_key input s in
            if decide (t = TQuit) then (Ok TurnQuit, w) else (Ok (TurnNext s m), w)
        | None => (Ok (TurnNext s m), w)
        end
    | EResize => (Ok (TurnNext s m), w)
    | EOther => (Ok (TurnNext s m), w)
    end))) w.

(** The loop, for at most [fuel] turns; [None]: it is still running. *)
Fixpoint event_loop (fuel : nat) (tick : option Z) (s : AppState) (m : DashboardModel) (w : World) :
    option (res ErrorKind unit * World) :=
  match fuel with
  | O => None
  | S fuel =>
      match turn tick s m w with
      | (Ok (TurnNext s m), w) => event_loop fuel tick s m w
      | (Ok TurnQuit, w) => Some (Ok tt, w)
      | (Err e, w) => Some (Err e, w)
      | (Panic, w) => Some (Panic, w)
      end
  end.

(** [NotConnected] is none of the kinds the library tells apart. A panic unwinds
    past [ratatui::restore]. *)
Definition run_terminal (fuel : nat) (m : DashboardModel) (tick : option Z) (w : World) :
    option (res ErrorKind unit * World) :=
  if negb (is_interactive_terminal w) then Some (Err IoOther, w)
  else
    match try_init w with
    | (Ok _, w) =>
        let s := AppState_new (Z.of_nat (length (dm_plan m))) in
        '(result, w) ← event_loop fuel tick s m w;
        Some (result, match result with Panic => panic_hook w | _ => restore w end)
    | (Err e, w) => Some (Err e, w)
    | (Panic, w) => Some (Panic, w)
    end.
End App.

(** ** The dashboard's event loop

    A terminal that follows a script: each turn refreshes the model, draws,
    polls and reads as its step says, and a script that has run out is a
    closed input.  On every script the loop stops at the first step that
    quits or fails, gives the terminal back exactly once, and the frames it
    drew show the state the keys typed so far lead to. *)

(** ** Where the keys lead *)

(** The selection is a walk between the first and the last operator. *)
Definition key_delta (k : KeyInput) : Z := match k with Up => -1 | Down => 1 | _ => 0 end.
Definition walk (n : Z) (sel : Z) (k : KeyInput) : Z := Z.max 0 (Z.min (n - 1) (sel + key_delta k)).
Definition tabs (ks : list KeyInput) : nat := length (filter (λ k, k = Tab) ks).

Definition state_after (n : Z) (ks : list KeyInput) : AppState :=
  mkState n (foldl (walk n) 0 ks) (default PlanDag (Panel_ALL !! (tabs ks mod 4)%nat)) false.

Lemma walk_range n ks : 0 ≤ n → 0 ≤ foldl (walk n) 0 ks ∧ (foldl (walk n) 0 ks < n ∨ n = 0 ∧ foldl (walk n) 0 ks = 0).
Proof.
  intros Hn. induction ks as [|k ks IH] using rev_ind; [cbn; lia|]. rewrite foldl_app. cbn [foldl]. unfold walk at 1 3 5. lia.
Qed.

Lemma panel_next_nth i : Panel_next (default PlanDag (Panel_ALL !! (i mod 4)%nat)) = default PlanDag (Panel_ALL !! (S i mod 4)%nat).
Proof.
  replace (S i) with (i + 1)%nat by lia. rewrite <- Nat.Div0.add_mod_idemp_l.
  pose proof (Nat.mod_upper_bound i 4 ltac:(lia)) as Hb. destruct (i mod 4)%nat as [|[|[|[|]]]]; [done..|lia].
Qed.

Lemma on_key_after n ks k :
  0 ≤ n < U64 → k ≠ Quit → on_key k (state_after n ks) = (state_after n (ks ++ [k]), TContinue).
Proof.
  intros Hn Hk. pose proof (walk_range n ks ltac:(lia)) as Hw. unfold on_key, state_after, tabs.
  rewrite foldl_app, filter_app, length_app. cbn [foldl]. set (sel := foldl (walk n) 0 ks) in *. unfold walk at 1.
  destruct k; cbn [key_delta]; [| | |done|];
    try (rewrite !filter_cons_False by done; rewrite filter_nil; cbn [length]; rewrite Nat.add_0_r).
  - unfold select_prev. cbn [node_count selected panel quit]. do 2 f_equal. lia.
  - unfold select_next. cbn [node_count selected panel quit]. rewrite wadd64_small by (unfold is_u64, U64 in *; lia).
    destruct (Z.ltb_spec 0 n); cbn [andb]; [destruct (Z.ltb_spec (sel + 1) n)|]; cbn [quit]; do 2 f_equal; lia.
  - unfold cycle_panel. cbn [node_count selected panel quit]. rewrite filter_cons_True, filter_nil by done. cbn [length].
    rewrite panel_next_nth, Nat.add_1_r. do 2 f_equal. lia.
  - cbn [quit]. do 2 f_equal. lia.
Qed.

(** ** Scripts *)

Record Step := mkStep {
  st_refresh : DashboardModel → DashboardModel;
  st_draw : res ErrorKind unit;
  st_poll : res ErrorKind bool;
  st_read : res ErrorKind Event;
}.

Record ScriptWorld := mkWorld {
  sw_interactive : bool;
  sw_init : res ErrorKind unit;
  sw_steps : list Step;
  (** the frames drawn and how often the terminal was restored *)
  sw_frames : list (AppState * DashboardModel);
  sw_restored : nat;
}.

(** The step of an input that has been closed. *)
Definition closed_step : Step := mkStep id (Ok tt) (Ok true) (Err IoOther).
Definition this_step (w : ScriptWorld) : Step := default closed_step (head (sw_steps w)).
Definition next_step (w : ScriptWorld) : ScriptWorld :=
  mkWorld (sw_interactive w) (sw_init w) (tail (sw_steps w)) (sw_frames w) (sw_restored w).

(** A step is over when it was read, or polled in vain; the panic hook restores
    the terminal. *)
#[global] Instance script_terminal : TerminalApi := {|
  World := ScriptWorld;
  is_interactive_terminal := sw_interactive;
  try_init := λ w, (sw_init w, w);
  restore := λ w, mkWorld (sw_interactive w) (sw_init w) (sw_steps w) (sw_frames w) (S (sw_restored w));
  panic_hook := λ w, mkWorld (sw_interactive w) (sw_init w) (sw_steps w) (sw_frames w) (S (sw_restored w));
  refresh := λ m w, (st_refresh (this_step w) m, w);
  begin_synchronized_update := λ w, (Ok tt, w);
  end_synchronized_update := λ w, (Ok tt, w);
  flush := λ w, (Ok tt, w);
  draw := λ s m w, (st_draw (this_step w), mkWorld (sw_interactive w) (sw_init w) (sw_steps w) (sw_frames w ++ [(s, m)]) (sw_restored w));
  poll := λ _ w, (st_poll (this_step w),
                  match st_poll (this_step w) with Ok false => next_step w | _ => w end);
  read := λ w, (st_read (this_step w), next_step w);
|}.

(** What a step does to the loop. *)
Definition step_input (tick : option Z) (st : Step) : res ErrorKind (option KeyInput) :=
  _ ← st_draw st;
  ready ← (match tick with Some _ => st_poll st | None => Ok true end);
  if negb ready then Ok None
  else event ← st_read st; Ok (match event with EKey k => key_input_from_crossterm k | _ => None end).

(** The outcome of the loop, if the step ends it. *)
Definition step_end (tick : option Z) (st : Step) : option (res ErrorKind unit) :=
  match step_input tick st with
  | Ok (Some Quit) => Some (Ok tt)
  | Ok _ => None
  | Err e => Some (Err e)
  | Panic => Some Panic
  end.
Definition step_key (tick : option Z) (st : Step) : option KeyInput :=
  match step_input tick st with Ok o => o | _ => None end.

Definition model_after (m : DashboardModel) (steps : list Step) : DashboardModel :=
  foldl (λ m st, st_refresh st m) m steps.

(** ** The loop over a script *)

Section Loop.
Context (tick : option Z) (n : Z) (Hn : 0 ≤ n < U64).

Definition world_with (w : ScriptWorld) (steps : list Step) (frames : list (AppState * DashboardModel)) : ScriptWorld :=
  mkWorld (sw_interactive w) (sw_init w) steps frames (sw_restored w).

(** Reading an event and acting on it. *)
Definition read_turn (s : AppState) (m : DashboardModel) : io_op Turn :=
  io_bind read (λ event w,
    match event with
    | EKey key =>
        match key_input_from_crossterm key with
        | Some input =>
            let '(s, t) := on_key input s in
            if decide (t = TQuit) then (Ok TurnQuit, w) else (Ok (TurnNext s m), w)
        | None => (Ok (TurnNext s m), w)
        end
    | EResize => (Ok (TurnNext s m), w)
    | EOther => (Ok (TurnNext s m), w)
    end).

Definition turn_of (ks : list KeyInput) (m : DashboardModel) (r : res ErrorKind (option KeyInput)) : res ErrorKind Turn :=
  match r with
  | Ok (Some Quit) => Ok TurnQuit
  | Ok o => Ok (TurnNext (state_after n (ks ++ option_list o)) m)
  | Err e => Err e
  | Panic => Panic
  end.

Lemma read_turn_spec w ks m :
  read_turn (state_after n ks) m w
  = (turn_of ks m (event ← st_read (this_step w); Ok (match event with EKey k => key_input_from_crossterm k | _ => None end)), next_step w).
Proof.
  unfold read_turn, io_bind. cbn [read script_terminal].
  destruct (st_read (this_step w)) as [[key| |]|e|]; cbn [mbind res_bind turn_of option_list]; rewrite ?app_nil_r; try done.
  destruct (key_input_from_crossterm key) as [input|]; cbn [turn_of option_list]; rewrite ?app_nil_r; [|done].
  destruct (decide (input = Quit)) as [->|Hq]; [done|]. rewrite on_key_after by done. rewrite decide_False by done. by destruct input.
Qed.

(** One turn of the loop draws the state of the keys so far, and ends or goes
    on as its step says. *)
Lemma turn_step w ks m :
  let st := this_step w in
  let m' := st_refresh st m in
  let frames := sw_frames w ++ [(state_after n ks, m')] in
  ∃ steps,
    turn tick (state_after n ks) m w = (turn_of ks m' (step_input tick st), world_with w steps frames) ∧
    (step_end tick st = None → steps = tail (sw_steps w)).
Proof.
  intros st m' frames. unfold turn, draw_frame, io_bind at 1 2 3 4. cbn [refresh begin_synchronized_update draw end_synchronized_update flush script_terminal].
  unfold step_end, step_input. fold st m' frames. set (w1 := mkWorld _ _ (sw_steps w) frames _).
  destruct (st_draw st) as [[]|e|]; cbn [mbind res_bind turn_of]; [|by exists (sw_steps w)..].
  fold (read_turn (state_after n ks) m').
  assert (Hread : ∃ steps, read_turn (state_after n ks) m' w1
    = (turn_of ks m' (event ← st_read st; Ok (match event with EKey k => key_input_from_crossterm k | _ => None end)), world_with w steps frames) ∧
    steps = tail (sw_steps w)) by (exists (tail (sw_steps w)); by rewrite read_turn_spec).
  unfold io_bind at 1. destruct tick as [timeout|].
  - cbn [poll script_terminal]. change (this_step w1) with st. destruct (st_poll st) as [[]|e|]; cbn [negb mbind res_bind turn_of].
    + destruct Hread as (steps & Hr & Hs). exists steps. by rewrite Hr.
    + exists (tail (sw_steps w)). cbn [option_list]. by rewrite app_nil_r.
    + by exists (sw_steps w).
    + by exists (sw_steps w).
  - cbn [negb mbind res_bind]. destruct Hread as (steps & Hr & Hs). exists steps. by rewrite Hr.
Qed.

Definition keys_of (steps : list Step) : list KeyInput := omap (step_key tick) steps.

(** The frame of turn [j]. *)
Definition frame_at (ks : list KeyInput) (m : DashboardModel) (steps : list Step) (j : nat) : AppState * DashboardModel :=
  (state_after n (ks ++ keys_of (take j steps)), model_after m (take (S j) steps)).

(** Step [k] is the first to end the loop. *)
Definition first_end (steps : list Step) (k : nat) (r : res ErrorKind unit) : Prop :=
  step_end tick (default closed_step (steps !! k)) = Some r ∧
  ∀ j, (j < k)%nat → step_end tick (default closed_step (steps !! j)) = None.

Lemma step_end_turn ks m st : step_end tick st = None → ∃ o, step_input tick st = Ok o ∧ step_key tick st = o ∧
  turn_of ks m (step_input tick st) = Ok (TurnNext (state_after n (ks ++ option_list o)) m).
Proof. unfold step_end, step_key. destruct (step_input tick st) as [[[]|]|e|]; intros; simplify_eq; by eexists. Qed.

Lemma loop_spec k r : ∀ w ks m, first_end (sw_steps w) k r →
  ∃ steps, ∀ fuel, event_loop fuel tick (state_after n ks) m w
    = if (k <? fuel)%nat
      then Some (r, world_with w steps (sw_frames w ++ (frame_at ks m (sw_steps w) <$> seq 0 (S k)))) else None.
Proof.
  induction k as [|k IH]; intros w ks m [Hend Hgo].
  - destruct (turn_step w ks m) as (steps & Ht & _). exists steps. intros [|fuel]; [done|]. cbn [event_loop Nat.ltb Nat.leb].
    rewrite Ht. cbn [fmap list_fmap seq]. unfold frame_at. cbn [take keys_of omap list_omap]. rewrite app_nil_r.
    assert (model_after m (take 1 (sw_steps w)) = st_refresh (this_step w) m) as -> by (unfold this_step; by destruct (sw_steps w)).
    assert (this_step w = default closed_step (sw_steps w !! 0%nat)) as Hst by (unfold this_step; by destruct (sw_steps w)).
    rewrite Hst in *. unfold step_end in Hend. destruct (step_input tick _) as [[[]|]|e|]; by simplify_eq.
  - pose proof (Hgo 0%nat ltac:(lia)) as H0. destruct (turn_step w ks m) as (steps & Ht & Hs).
    destruct (sw_steps w) as [|st rest] eqn:Hw; [by destruct tick|]. cbn [lookup list_lookup default] in H0.
    assert (this_step w = st) as Hst by (unfold this_step; by rewrite Hw). rewrite Hst in Ht, Hs. cbn [tail] in Hs. specialize (Hs H0). subst steps.
    destruct (step_end_turn ks (st_refresh st m) st H0) as (o & _ & Ho & Hto). rewrite Hto in Ht.
    set (w1 := world_with w rest _) in Ht.
    destruct (IH w1 (ks ++ option_list o) (st_refresh st m)) as [steps IH'].
    { split; [exact Hend|]. intros j Hj. apply (Hgo (S j)). lia. }
    exists steps. intros [|fuel]; [done|]. cbn [event_loop]. rewrite Ht, IH'.
    change (S k <? S fuel)%nat with (k <? fuel)%nat. destruct (k <? fuel)%nat; [|done]. do 2 f_equal.
    unfold w1, world_with. cbn [sw_interactive sw_init sw_frames sw_steps sw_restored]. f_equal.
    rewrite <- app_assoc. f_equal. rewrite <- (cons_seq (S k)), fmap_cons. cbn [app]. f_equal.
    + unfold frame_at. cbn [take keys_of omap list_omap]. by rewrite app_nil_r.
    + rewrite <- (fmap_S_seq 0), <- list_fmap_compose. apply list_fmap_ext. intros j x _. unfold frame_at. cbn.
      rewrite Ho, <- app_assoc. by destruct o.
Qed.

Lemma first_end_exists steps : ∃ k r, (k ≤ length steps)%nat ∧ first_end steps k r.
Proof.
  induction steps as [|st steps (k & r & Hk & Hend & Hgo)].
  - exists 0%nat, (Err IoOther). split; [done|]. split; [by destruct tick|lia].
  - destruct (step_end tick st) as [r'|] eqn:He.
    + exists 0%nat, r'. split; [lia|]. split; [done|lia].
    + exists (S k), r. split; [cbn; lia|]. split; [done|]. intros [|j] Hj; [done|]. apply Hgo. lia.
Qed.
End Loop.

(** Reading the keys of a key event: only an unmodified [q], Escape or Ctrl-C quit. *)
Definition quits (k : KeyEvent) : bool :=
  negb (bool_decide (kind k = Release)) &&
  match code k with KCEsc => true | KCChar c => (c =? ch "q") || ((c =? ch "c") && control k) | _ => false end.

Lemma key_quits k : key_input_from_crossterm k = Some Quit ↔ quits k = true.
Proof.
  unfold key_input_from_crossterm, quits. destruct k as [code ctl kind]. cbn [Tui.kind Tui.code control].
  destruct (decide (kind = Release)) as [->|Hk]; [by rewrite bool_decide_eq_true_2|]. rewrite bool_decide_eq_false_2 by done. cbn [negb andb].
  destruct code as [| | | |c|]; try done.
  destruct (Z.eqb_spec c (ch "k")) as [->|]; [done|]. destruct (Z.eqb_spec c (ch "j")) as [->|]; [done|].
  destruct (c =? ch "q"); [done|]. cbn [orb]. by destruct ((c =? ch "c") && ctl).
Qed.

(** A refresh that keeps the number of rows of the plan, as [main]'s does. *)
Definition keeps_rows (st : Step) : Prop :=
  ∀ m, length (dm_plan (st_refresh st m)) = length (dm_plan m).

Lemma model_after_rows m steps :
  Forall keeps_rows steps → length (dm_plan (model_after m steps)) = length (dm_plan m).
Proof. intros Hs. unfold model_after. revert m. induction Hs as [|st steps Hst _ IH]; intros m; [done|]. cbn. by rewrite IH. Qed.

(** C24: the dashboard follows the keyboard and gives the terminal back.  On
    every terminal script the loop ends, at the first step that fails or
    delivers a quit key (q, Escape or Ctrl-C, not released), with that error or
    success, and for no smaller fuel; the terminal has then been restored
    exactly once (after a panic by ratatui's hook) and one frame drawn per turn:
    the model as refreshed so far, with the panel the Tab presses cycled to and
    the selection the arrow keys walked to between the first and the last row of
    the plan the dashboard opened with, or 0 if that had none.  The loop does
    not look at the plan again, so the selection is a row of the plan a frame
    shows as long as the refreshes keep the number of rows.  Without an
    interactive terminal, or when it cannot be initialised, it draws nothing. *)
Theorem dashboard_session tick m steps :
  let n := Z.of_nat (length (dm_plan m)) in
  n < U64 →
  (∃ k r, (k ≤ length steps)%nat ∧ first_end tick steps k r ∧
    (r = Ok tt → ∃ st e, steps !! k = Some st ∧ st_read st = Ok (EKey e) ∧ quits e = true) ∧
    ∃ steps', ∀ fuel,
      run_terminal fuel m tick (mkWorld true (Ok tt) steps [] 0)
      = if (k <? fuel)%nat
        then Some (r, mkWorld true (Ok tt) steps' (frame_at tick n [] m steps <$> seq 0 (S k)) 1)
        else None) ∧
  (∀ j s m', frame_at tick n [] m steps j = (s, m') →
     quit s = false ∧ 0 ≤ selected s ∧ (selected s < n ∨ n = 0 ∧ selected s = 0) ∧
     (n ≠ 0 → Forall keeps_rows (take (S j) steps) → is_Some (dm_plan m' !! Z.to_nat (selected s)))) ∧
  (∀ fuel init, run_terminal fuel m tick (mkWorld false init steps [] 0) = Some (Err IoOther, mkWorld false init steps [] 0)) ∧
  (∀ fuel e, run_terminal fuel m tick (mkWorld true (Err e) steps [] 0) = Some (Err e, mkWorld true (Err e) steps [] 0)).
Proof.
  intros n Hn. assert (Hn' : 0 ≤ n < U64) by lia. split_and!; [| |done|done].
  - destruct (first_end_exists tick steps) as (k & r & Hk & He). exists k, r. split_and!; [done|done| |].
    + intros ->. destruct He as [He _]. unfold step_end in He.
      destruct (steps !! k) as [st|] eqn:Hst; cbn [default] in He; [|by destruct tick]. exists st.
      change (id st) with st in He. unfold step_input in He.
      destruct (st_draw st); [|by cbn in He; simplify_eq..]. cbn [mbind res_bind] in He.
      destruct (match tick with Some _ => _ | None => _ end) as [[]|e|]; [|by cbn in He; simplify_eq..]. cbn [mbind res_bind negb] in He.
      destruct (st_read st) as [[key| |]|e|]; [|by cbn in He; simplify_eq..]. cbn [mbind res_bind] in He. exists key. split_and!; [done|done|].
      apply key_quits. by destruct (key_input_from_crossterm key) as [[]|].
    + destruct (loop_spec tick n Hn' k r (mkWorld true (Ok tt) steps [] 0) [] m He) as [steps' Hl]. exists steps'. intros fuel.
      unfold run_terminal. cbn [is_interactive_terminal script_terminal sw_interactive negb try_init sw_init].
      specialize (Hl fuel). unfold state_after in Hl at 1. cbn in Hl |- *. unfold AppState_new. fold n. unfold n in Hl |- *. rewrite Hl.
      destruct fuel as [|fuel]; [done|]. destruct (k <=? fuel)%nat; [by destruct r|done].
  - intros j s m' [= <- <-]. cbn [quit selected state_after]. pose proof (walk_range n (keys_of tick (take j steps)) ltac:(lia)) as Hw.
    cbn [app]. split_and!; [done|lia|lia|]. intros Hne Hrows. apply lookup_lt_is_Some.
    rewrite model_after_rows by done. unfold n in *. lia.
Qed.

(** A session: down, a resize, a released key, Tab and q. *)
Definition key (c : KeyCode) (k : KeyEventKind) : Step := mkStep id (Ok tt) (Ok true) (Ok (EKey (mkKey c false k))).
Definition demo_script : list Step :=
  [key KCDown Press; mkStep id (Ok tt) (Ok true) (Ok EResize); key KCUp Release; key KCTab Press; key (KCChar (ch "q")) Press; key KCUp Press].
Definition two_operators : DashboardModel :=
  mkModel (mkSnapshot [] (mkTierSnapshot 0 0 0) (mkSpillSnapshot 0 0 0 0)
    [mkPlanNode 0 "GpuFilterExec" Cuda ""; mkPlanNode 1 "DataSourceExec" CpuSimd ""] TierCapacity_default) [] [].

Lemma dashboard_session_witness :
  ∃ steps', run_terminal 5 two_operators None (mkWorld true (Ok tt) demo_script [] 0)
    = Some (Ok tt, mkWorld true (Ok tt) steps' (frame_at None 2 [] two_operators demo_script <$> seq 0 5) 1).
Proof.
  destruct (dashboard_session None two_operators demo_script ltac:(by vm_compute)) as ((k & r & Hk & [He Hgo] & _ & steps' & H) & _).
  assert (k = 4%nat) as ->.
  { destruct (decide (k < 4)%nat) as [Hlt|Hge].
    - exfalso. destruct k as [|[|[|[|]]]]; [by vm_compute in He..|lia].
    - destruct (decide (4 < k)%nat) as [Hlt|]; [|lia]. specialize (Hgo 4%nat Hlt). by vm_compute in Hgo. }
  vm_compute in He. injection He as <-. exists steps'. exact (H 5%nat).
Defined.

Example demo_frames :
  (λ j, let s := (frame_at None 2 [] two_operators demo_script j).1 in (selected s, panel s)) <$> seq 0 5
  = [(0, PlanDag); (1, PlanDag); (1, PlanDag); (1, PlanDag); (1, Inspector)].
Proof. by vm_compute. Qed.
