(* ===== verification/Render.v ===== *)
(** * oxidelake-tui: what a frame shows

    Models [src/crates/oxidelake-tui/src/render.rs] (and
    [OperatorSnapshot::mean_batch_latency_ms] of the telemetry hub).  A frame is
    the list of widgets handed to ratatui with the area each is drawn in; how
    ratatui splits areas and draws widgets is left to it, so an area is the way
    it was derived.  The properties are in [RenderCorrect]. *)

From Stdlib Require Import SpecFloat.
From S2P Require Import Prelude Floats Core Telemetry Text Tui.

(** ** ratatui's data *)

Inductive Color := Green | Magenta | Blue | Yellow | Cyan | DarkGray | Red.
Record Style := mkStyle { fg : option Color; bg : option Color; bold : bool }.
Definition style_default : Style := mkStyle None None false.
Definition with_fg (c : Color) (s : Style) : Style := mkStyle (Some c) (bg s) (bold s).
Definition with_bg (c : Color) (s : Style) : Style := mkStyle (fg s) (Some c) (bold s).
Definition add_bold (s : Style) : Style := mkStyle (fg s) (bg s) true.

Definition Span : Type := text * Style.
Definition raw (t : text) : Span := (t, style_default).
Definition Line : Type := list Span.

Record Block := mkBlock { block_title : Span; block_border : Style }.

Inductive Constraint := CLength (n : Z) | CMin (n : Z) | CPercentage (n : Z).

(** The whole frame, the [i]-th part of a split area, the inside of a block. *)
Inductive Area :=
  | Whole
  | Part (vertical : bool) (constraints : list Constraint) (i : nat) (area : Area)
  | Inside (b : Block) (area : Area).

Inductive Widget :=
  | WParagraph (lines : list Line) (block : option Block)
  | WList (items : list Line) (block : Block) (highlight : Style) (symbol : text) (select : option Z)
  | WBlock (block : Block)
  | WGauge (style : Style) (ratio : spec_float) (label : text)
  | WTable (header : list text) (header_style : Style) (rows : list (list text)) (widths : list Constraint) (block : Block).

(** ** Formatting *)

Definition UNITS : list string := ["B"; "KiB"; "MiB"; "GiB"; "TiB"].
Definition sf_1024 : spec_float := sf_of_u64 1024.

(** The loop over the units: [fuel] is how many are left. *)
Fixpoint scale_bytes (fuel : nat) (value : spec_float) (unit : nat) : spec_float * nat :=
  match fuel with
  | O => (value, unit)
  | S fuel => if SFleb sf_1024 value then scale_bytes fuel (SFdiv 53 1024 value sf_1024) (S unit) else (value, unit)
  end.

Definition human_bytes (bytes : Z) : text :=
  let '(value, unit) := scale_bytes (length UNITS - 1) (sf_of_u64 bytes) 0 in
  if (unit =? 0)%nat then decimal bytes ++ chars " B"
  else format_fixed 1 value ++ chars " " ++ chars (default "" (UNITS !! unit)).

Definition ratio (used total : Z) : spec_float :=
  if total =? 0 then S754_zero false
  else
    let x := SFdiv 53 1024 (sf_of_u64 used) (sf_of_u64 total) in
    let x := if SFltb x (S754_zero false) then S754_zero false else x in
    if SFltb (sf_of_u64 1) x then sf_of_u64 1 else x.

Definition trim_zeros (rendered : text) : text :=
  if negb (bool_decide (ch "." ∈ rendered)) then rendered
  else trim_end_matches (ch ".") (trim_end_matches (ch "0") rendered).

Definition fit_text (raw : text) (width : nat) : text :=
  if (length raw <=? width)%nat then raw
  else match width with O => [] | S w => take w raw ++ [ch "…"] end.

(** [(0..=n).rev().find(...)] of the candidates that fit. *)
Fixpoint first_fitting (candidate : nat → text) (width : nat) (precisions : list nat) : option text :=
  match precisions with
  | [] => None
  | p :: ps => let c := candidate p in if (length c <=? width)%nat then Some c else first_fitting candidate width ps
  end.

Definition fit_number (raw : text) (width : nat) : text :=
  if (length raw <=? width)%nat then raw
  else
    match parse_f64 raw with
    | None => fit_text raw width
    | Some value =>
        if negb (sf_finite value) then fit_text raw width
        else
          match first_fitting (λ p, trim_zeros (format_fixed p value)) width [3; 2; 1; 0]%nat with
          | Some c => c
          | None =>
              match first_fitting (λ p, format_exp p value) width [2; 1; 0]%nat with
              | Some c => c
              | None => fit_text raw width
              end
          end
    end.

(** [mean_batch_latency_ms] *)
Definition mean_batch_latency_ms (op : OperatorSnapshot) : spec_float :=
  if sn_batches op =? 0 then S754_zero false
  else SFdiv 53 1024 (SFdiv 53 1024 (sf_of_u64 (sn_elapsed_ns op)) (sf_of_u64 (sn_batches op))) (sf_of_u64 1000000).

(** ** The panels *)

Definition backend_tag (b : BackendKind) : Span :=
  let '(t, c) := match b with Cuda => ("[CUDA]", Green) | Metal => ("[Metal]", Magenta) | CpuSimd => ("[CPU]", Blue) end in
  (chars t, add_bold (with_fg c style_default)).

Definition bold_span (t : text) : Span := (t, add_bold style_default).

Definition panel_block (title : string) (p focused : Panel) : Block :=
  let style := if decide (p = focused) then add_bold (with_fg Yellow style_default) else style_default in
  mkBlock (chars " " ++ chars title ++ chars " ", style) style.

Definition plan_item (node : PlanNodeSummary) : Line :=
  let indent := concat (replicate (Z.to_nat (pn_depth node)) (chars "  ")) in
  let branch := if pn_depth node =? 0 then [] else chars "└─ " in
  [raw (indent ++ branch); bold_span (chars (pn_name node)); raw (chars " "); backend_tag (pn_backend node)].

Definition render_plan (s : AppState) (m : DashboardModel) (area : Area) : list (Widget * Area) :=
  [(WList (plan_item <$> dm_plan m) (panel_block "Plan DAG" PlanDag (panel s))
      (add_bold (with_bg DarkGray style_default)) (chars "▶ ")
      (if bool_decide (dm_plan m = []) then None else Some (selected s)), area)].

(** The CPU-fallback line. *)
Definition fallback_line (op : OperatorSnapshot) : Line :=
  let style :=
    if fell_back_entirely op then add_bold (with_fg Red style_default)
    else if 0 <? sn_fallback_batches op then with_fg Yellow style_default
    else with_fg Green style_default in
  [raw (chars "cpu fallback ");
   (pad_left 14 (decimal (sn_fallback_batches op) ++ chars " / " ++ decimal (sn_batches op)), style)].

Definition counter_line (label : string) (n : Z) : Line := [raw (chars label ++ pad_left 14 (decimal n))].

Definition node_lines (node : PlanNodeSummary) (op : OperatorSnapshot) : list Line :=
  [[bold_span (chars (pn_name node)); raw (chars " "); backend_tag (pn_backend node)];
   [raw (chars (pn_detail node))];
   [raw []];
   counter_line "rows in      " (sn_rows_in op);
   counter_line "rows out     " (sn_rows_out op);
   counter_line "batches      " (sn_batches op);
   [raw (chars "latency/batch" ++ pad_left 11 (format_fixed 3 (mean_batch_latency_ms op)) ++ chars " ms")];
   [raw (chars "memory       " ++ pad_left 14 (human_bytes (sn_memory_bytes op)))];
   [raw (chars "H2D / D2H    " ++ pad_left 6 (human_bytes (sn_bytes_h2d op)) ++ chars " / "
         ++ pad_left 6 (human_bytes (sn_bytes_d2h op)))];
   fallback_line op].

Definition inspector_lines (s : AppState) (m : DashboardModel) : list Line :=
  match dm_plan m !! Z.to_nat (selected s), dm_operator m (Z.to_nat (selected s)) with
  | Some node, Some op => node_lines node op
  | Some node, None => [[raw (chars (pn_name node))]; [raw (chars "no counters yet")]]
  | None, _ => [[raw (chars "no operator selected")]]
  end.

Definition render_inspector (s : AppState) (m : DashboardModel) (area : Area) : list (Widget * Area) :=
  [(WParagraph (inspector_lines s m) (Some (panel_block "Inspector" Inspector (panel s))), area)].

Definition spill_scope_line (on_query_path : bool) : Line :=
  if on_query_path then [raw (chars "spill "); (chars "on the query path", with_fg Green style_default)]
  else [raw (chars "spill "); (chars "library only: no query registers batches", with_fg DarkGray style_default)].

(** The sum of [u64]s, which wraps in a release build. *)
Definition sum_u64 (l : list Z) : Z := foldl wadd64 0 l.

Definition tier_gauge (label : string) (used : Z) (cap : option Z) (c : Color) : Widget :=
  WGauge (with_fg c style_default)
    (match cap with Some cap => ratio used cap | None => S754_zero false end)
    (chars label ++ chars ": " ++ human_bytes used
     ++ match cap with Some cap => chars " / " ++ human_bytes cap | None => [] end).

Definition telemetry_lines (m : DashboardModel) : list Line :=
  let t := dm_telemetry m in
  let sp := snap_spill t in
  [[raw (chars "PCIe  H2D " ++ human_bytes (sum_u64 (sn_bytes_h2d <$> snap_operators t)) ++ chars "  D2H "
         ++ human_bytes (sum_u64 (sn_bytes_d2h <$> snap_operators t)))];
   [raw (chars "NVMe  spilled " ++ human_bytes (ss_spilled_bytes sp) ++ chars " (" ++ decimal (ss_demotions sp)
         ++ chars " demotions)  reloaded " ++ human_bytes (ss_reloaded_bytes sp) ++ chars " (" ++ decimal (ss_promotions sp)
         ++ chars " promotions)")];
   spill_scope_line (spill_on_query_path (snap_capacity t))].

Definition render_telemetry (s : AppState) (m : DashboardModel) (area : Area) : list (Widget * Area) :=
  let block := panel_block "Telemetry" TelemetryPanel (panel s) in
  let inner := Inside block area in
  let split i := Part true [CLength 2; CLength 2; CLength 2; CMin 1] i inner in
  let t := dm_telemetry m in
  [(WBlock block, area);
   (tier_gauge "VRAM" (ts_device_bytes (snap_tiers t)) (cap_device_bytes (snap_capacity t)) Green, split 0%nat);
   (tier_gauge "host RAM" (ts_host_bytes (snap_tiers t)) (cap_host_bytes (snap_capacity t)) Cyan, split 1%nat);
   (tier_gauge "disk spill" (ts_disk_bytes (snap_tiers t)) None Yellow, split 2%nat);
   (WParagraph (telemetry_lines m) None, split 3%nat)].

Definition DESCRIBE_WIDTHS : list nat := [8; 8; 7; 7; 7; 6; 6; 6]%nat.

Definition describe_row (p : ColumnProfile) : list text :=
  let w i := default 0%nat (DESCRIBE_WIDTHS !! i) in
  [fit_text (cp_name p) (w 0%nat); fit_text (cp_data_type p) (w 1%nat);
   fit_number (cp_min p) (w 2%nat); fit_number (cp_max p) (w 3%nat);
   fit_number (decimal (cp_null_count p)) (w 4%nat);
   fit_number (cp_p25 p) (w 5%nat); fit_number (cp_p50 p) (w 6%nat); fit_number (cp_p99 p) (w 7%nat)].

Definition describe_header : list text :=
  chars <$> ["column"; "type"; "min"; "max"; "nulls"; "p25"; "p50"; "p99"].

Definition render_describe (s : AppState) (m : DashboardModel) (area : Area) : list (Widget * Area) :=
  [(WTable describe_header (add_bold style_default) (describe_row <$> dm_profiles m)
      ((λ w, CLength (Z.of_nat w)) <$> DESCRIBE_WIDTHS) (panel_block "Describe" Describe (panel s)), area)].

(** ** The frame *)

Definition render (s : AppState) (m : DashboardModel) : list (Widget * Area) :=
  let rows i := Part true [CLength 1; CMin 8; CLength 1] i Whole in
  let halves i := Part false [CPercentage 50; CPercentage 50] i (rows 1%nat) in
  let left i := Part true [CPercentage 55; CPercentage 45] i (halves 0%nat) in
  let right i := Part true [CPercentage 45; CPercentage 55] i (halves 1%nat) in
  [(WParagraph [[(chars "OxideLake", add_bold (with_fg Cyan style_default)); raw (chars "  "); raw (dm_title m)]] None, rows 0%nat)]
  ++ render_plan s m (left 0%nat)
  ++ render_inspector s m (left 1%nat)
  ++ render_telemetry s m (right 0%nat)
  ++ render_describe s m (right 1%nat)
  ++ [(WParagraph [[bold_span (chars " ↑/↓ "); raw (chars "select operator  "); bold_span (chars "Tab");
                    raw (chars " next panel  "); bold_span (chars "q"); raw (chars " quit")]] None, rows 2%nat)].

Example render_examples :
  human_bytes <$> [0; 1023; 1024; 1536; 1048575; 6442450944; 18446744073709551615]
    = chars <$> ["0 B"; "1023 B"; "1.0 KiB"; "1.5 KiB"; "1024.0 KiB"; "6.0 GiB"; "16777216.0 TiB"] ∧
  (λ s, fit_number (chars s) 6) <$> ["1979969.2416513609"; "12.3456789"; "-0.00012345"; "0.0012345"; "hello world"; "-123456789"]
    = chars <$> ["1.98e6"; "12.346"; "-0"; "0.001"; "hello…"; "-1.2e8"].
Proof. by vm_compute. Qed.
