(* ===== verification/RenderCorrect.v ===== *)
(** * The dashboard never shows a number that was cut

    The texts of [fmt] read back: a decimal printed with some precision is the
    number that was printed, within half a unit of its last digit.  So a value
    that does not fit its column is shown rounded or marked, never cut. *)

From Stdlib Require Import SpecFloat QArith Qabs Qpower Qfield.
From S2P Require Import Prelude Floats Core Telemetry FloatFacts Text Tui Render.

#[local] Open Scope Z_scope.

(** ** Digits *)

Lemma digits_n_length k z : length (digits_n k z) = k.
Proof. revert z. induction k as [|k IH]; intros z; [done|]. cbn [digits_n]. rewrite length_app, IH. cbn. lia. Qed.

Lemma digit_char d : 0 ≤ d < 10 → is_digit (ch "0" + d) = true.
Proof. intros Hd. unfold is_digit. change (ch "0") with 48. change (ch "9") with 57. apply andb_true_iff. lia. Qed.

Lemma digits_n_digits k z : Forall (λ c, is_digit c = true) (digits_n k z).
Proof.
  revert z. induction k as [|k IH]; intros z; cbn [digits_n]; [constructor|]. apply Forall_app. split; [done|].
  constructor; [|constructor]. apply digit_char, Z.mod_pos_bound. done.
Qed.

Lemma digits_value_app l k : digits_value (l ++ k) = digits_value l * 10 ^ Z.of_nat (length k) + digits_value k.
Proof.
  unfold digits_value. rewrite foldl_app. generalize (foldl (λ z c, z * 10 + (c - ch "0")) 0 l) as a.
  induction k as [|c k IH] using rev_ind; intros a; [cbn; lia|].
  rewrite !foldl_app, length_app, IH. cbn [foldl length]. rewrite Nat.add_1_r, Nat2Z.inj_succ, Z.pow_succ_r by lia. lia.
Qed.

Lemma digits_n_value k z : digits_value (digits_n k z) = z mod 10 ^ Z.of_nat k.
Proof.
  revert z. induction k as [|k IH]; intros z; [by rewrite Z.mod_1_r|]. cbn [digits_n]. rewrite digits_value_app, IH. cbn [length].
  unfold digits_value. cbn [foldl]. change (10 ^ Z.of_nat 1) with 10. rewrite Nat2Z.inj_succ, Z.pow_succ_r by lia.
  rewrite Z.rem_mul_r by lia. lia.
Qed.

Lemma digit_count_bound z : 0 ≤ z → z < 10 ^ Z.of_nat (digit_count z).
Proof.
  intros Hz. unfold digit_count. assert (Hl : z < 2 ^ Z.of_nat (S (Z.to_nat (Z.log2 z)))).
  { destruct (decide (z = 0)) as [->|]; [done|]. pose proof (Z.log2_nonneg z). rewrite Nat2Z.inj_succ, Z2Nat.id by done. apply Z.log2_spec. lia. }
  revert Hl. generalize (S (Z.to_nat (Z.log2 z))) as f. intros f. revert z Hz.
  induction f as [|f IH]; intros z Hz Hl; [cbn in Hl; cbn; lia|]. cbn [digit_count_fuel].
  destruct (Z.ltb_spec z 10) as [Hs|Hb]; [done|]. rewrite Nat2Z.inj_succ, Z.pow_succ_r by lia.
  rewrite Nat2Z.inj_succ, Z.pow_succ_r in Hl by lia.
  assert (z / 10 < 10 ^ Z.of_nat (digit_count_fuel f (z / 10))) as H.
  { apply IH; [apply Z.div_pos; lia|]. apply Z.div_lt_upper_bound; [lia|]. assert (0 < 2 ^ Z.of_nat f) by (apply Z.pow_pos_nonneg; lia). lia. }
  pose proof (Z.div_mod z 10 ltac:(lia)). pose proof (Z.mod_pos_bound z 10 ltac:(lia)). lia.
Qed.

Lemma decimal_value z : 0 ≤ z → digits_value (decimal z) = z.
Proof. intros Hz. unfold decimal. rewrite digits_n_value, Z.mod_small; [done|]. split; [done|]. by apply digit_count_bound. Qed.

Lemma decimal_cons z : ∃ c l, decimal z = c :: l ∧ Forall (λ c, is_digit c = true) (c :: l).
Proof.
  assert (Forall (λ c, is_digit c = true) (decimal z)) as H by apply digits_n_digits.
  destruct (decimal z) as [|c l] eqn:Hd; [|eauto]. exfalso. apply (f_equal length) in Hd. revert Hd. unfold decimal. rewrite digits_n_length.
  unfold digit_count. cbn [digit_count_fuel]. destruct (z <? 10); done.
Qed.

(** ** Reading a number back *)

Definition no_digit_first (s : text) : Prop := match s with c :: _ => is_digit c = false | [] => True end.

Lemma span_digits_app ds rest :
  Forall (λ c, is_digit c = true) ds → no_digit_first rest → span_digits (ds ++ rest) = (ds, rest).
Proof.
  intros Hd Hr. induction Hd as [|c ds Hc _ IH]; [|cbn [app span_digits]; by rewrite Hc, IH].
  destruct rest as [|c rest]; [done|]. cbn in Hr |- *. by rewrite Hr.
Qed.

(** What follows the digits: nothing, or an exponent. *)
Definition exponent_text (t : text) (k : Z) : Prop := no_digit_first t ∧ head t ≠ Some (ch ".") ∧ parse_exp t = Some k.

Lemma exponent_nil : exponent_text [] 0.
Proof. done. Qed.

Lemma exponent_int k : exponent_text (ch "e" :: int_text k) k.
Proof.
  split_and!; [done|done|]. unfold parse_exp, int_text. change ((ch "e" =? ch "e") || (ch "e" =? ch "E")) with true. cbv iota.
  destruct (Z.ltb_spec k 0) as [Hk|Hk].
  - cbn [split_sign]. change (ch "-" =? ch "-") with true. cbv iota. destruct (decimal_cons (- k)) as (c & l & Hd & Hf).
    rewrite <- (app_nil_r (decimal (- k))), Hd. rewrite span_digits_app by done. rewrite <- Hd. rewrite decimal_value by lia. f_equal. lia.
  - destruct (decimal_cons k) as (c & l & Hd & Hf). rewrite Hd. cbn [split_sign].
    assert (is_digit c = true) as Hc by by inversion Hf. unfold is_digit in Hc. apply andb_true_iff in Hc as [Hc1%Z.leb_le Hc2%Z.leb_le].
    change (ch "0") with 48 in *. change (ch "-") with 45. change (ch "+") with 43.
    rewrite (proj2 (Z.eqb_neq _ _)), (proj2 (Z.eqb_neq _ _)) by lia.
    rewrite <- (app_nil_r (c :: l)). rewrite span_digits_app by done. rewrite <- Hd. by rewrite decimal_value.
Qed.

Lemma parse_number_text ip fp t k :
  Forall (λ c, is_digit c = true) ip → Forall (λ c, is_digit c = true) fp → ip ≠ [] → exponent_text t k →
  parse_number (ip ++ (match fp with [] => [] | _ => ch "." :: fp end) ++ t)
  = Some (digits_value (ip ++ fp), k - Z.of_nat (length fp)).
Proof.
  intros Hip Hfp Hne (Ht & Hdot & Hk). unfold parse_number. destruct fp as [|c fp].
  - cbn [app]. rewrite span_digits_app by done. rewrite app_nil_r.
    assert (match t with c :: s' => if c =? ch "." then span_digits s' else ([], t) | [] => ([], t) end = ([], t)) as ->.
    { destruct t as [|c t]; [done|]. destruct (Z.eqb_spec c (ch ".")) as [->|]; [by destruct Hdot|done]. }
    rewrite app_nil_r. destruct ip; [done|]. by rewrite Hk.
  - rewrite span_digits_app by done. cbn [app]. rewrite Z.eqb_refl. change (c :: fp ++ t) with ((c :: fp) ++ t).
    rewrite span_digits_app by done. destruct ip; [done|]. cbn [app]. by rewrite Hk.
Qed.

Lemma fixed_text_shape p n : ∃ ip fp, ip ≠ [] ∧ Forall (λ c, is_digit c = true) ip ∧ Forall (λ c, is_digit c = true) fp ∧
  length fp = p ∧ fixed_text p n = ip ++ (match fp with [] => [] | _ => ch "." :: fp end) ∧
  (0 ≤ n → digits_value (ip ++ fp) = n).
Proof.
  exists (decimal (n / 10 ^ Z.of_nat p)), (digits_n p n). destruct (decimal_cons (n / 10 ^ Z.of_nat p)) as (c & l & Hd & Hf). split_and!.
  - by rewrite Hd.
  - apply digits_n_digits.
  - apply digits_n_digits.
  - apply digits_n_length.
  - unfold fixed_text. pose proof (digits_n_length p n). by destruct (digits_n p n), p.
  - intros Hn. assert (0 < 10 ^ Z.of_nat p) by (apply Z.pow_pos_nonneg; lia).
    rewrite digits_value_app, digits_n_length, decimal_value by (apply Z.div_pos; lia). rewrite digits_n_value.
    pose proof (Z.div_mod n (10 ^ Z.of_nat p) ltac:(lia)). lia.
Qed.

(** Trailing zeros, and a point they leave behind, are dropped. *)
Lemma drop_leading_spec c l : ∃ k, l = replicate k c ++ drop_leading c l ∧ head (drop_leading c l) ≠ Some c.
Proof.
  induction l as [|x l (k & Hk & Hh)]; [by exists 0%nat|]. cbn [drop_leading]. destruct (Z.eqb_spec x c) as [->|Hne].
  - exists (S k). cbn. by rewrite <- Hk.
  - exists 0%nat. split; [done|]. cbn. congruence.
Qed.

Lemma rev_reverse (l : text) : rev l = reverse l.
Proof. apply rev_alt. Qed.

Lemma trim_end_spec c l : ∃ k, l = trim_end_matches c l ++ replicate k c ∧ last (trim_end_matches c l) ≠ Some c.
Proof.
  destruct (drop_leading_spec c (rev l)) as (k & Hk & Hh). exists k. unfold trim_end_matches. split.
  - apply (f_equal (@rev Z)) in Hk. rewrite rev_involutive, rev_app_distr in Hk. rewrite Hk at 1. f_equal.
    rewrite rev_reverse. apply reverse_replicate.
  - rewrite rev_reverse, last_reverse. done.
Qed.

Lemma drop_leading_not c l : head l ≠ Some c → drop_leading c l = l.
Proof. destruct l as [|x l]; [done|]. cbn. intros H. destruct (Z.eqb_spec x c); congruence. Qed.

Lemma drop_leading_replicate c k l : head l ≠ Some c → drop_leading c (replicate k c ++ l) = l.
Proof. intros H. induction k as [|k IH]; cbn; [by apply drop_leading_not|]. by rewrite Z.eqb_refl. Qed.

Lemma trim_end_app c l k : last l ≠ Some c → trim_end_matches c (l ++ replicate k c) = l.
Proof.
  intros H. unfold trim_end_matches. rewrite rev_app_distr.
  assert (rev (replicate k c) = replicate k c) as -> by (rewrite rev_reverse; apply reverse_replicate).
  rewrite drop_leading_replicate, rev_involutive; [done|]. rewrite rev_reverse. by rewrite head_reverse.
Qed.

Lemma digits_no_dot l : Forall (λ c, is_digit c = true) l → ch "." ∉ l.
Proof. intros Hl Hin. rewrite Forall_forall in Hl. by specialize (Hl _ Hin). Qed.

Lemma trim_zeros_shape ip fp :
  ip ≠ [] → ch "." ∉ ip → Forall (λ c, is_digit c = true) fp →
  ∃ fp' z, fp = fp' ++ replicate z (ch "0") ∧ Forall (λ c, is_digit c = true) fp' ∧
    trim_zeros (ip ++ match fp with [] => [] | _ => ch "." :: fp end) = ip ++ match fp' with [] => [] | _ => ch "." :: fp' end.
Proof.
  intros Hne Hip Hfp.
  destruct (trim_end_spec (ch "0") fp) as (z & Hz & Hl). set (fp' := trim_end_matches (ch "0") fp) in *.
  assert (Hfp' : Forall (λ c, is_digit c = true) fp') by (rewrite Hz in Hfp; by apply Forall_app in Hfp as [? _]).
  exists fp', z. split_and!; [done|done|]. unfold trim_zeros. destruct fp as [|c fp].
  - rewrite app_nil_r, bool_decide_eq_false_2 by done. cbn [negb]. destruct fp'; [by rewrite app_nil_r|done].
  - rewrite bool_decide_eq_true_2 by (rewrite elem_of_app; right; by left). cbn [negb]. rewrite Hz.
    change (ch "." :: fp' ++ replicate z (ch "0")) with ((ch "." :: fp') ++ replicate z (ch "0")). rewrite app_assoc.
    rewrite trim_end_app.
    + destruct fp' as [|d fp'].
      * rewrite app_nil_r. apply (trim_end_app (ch ".") ip 1).
        destruct (last ip) as [x|] eqn:Hlast; [|done]. intros [= ->]. apply last_Some_elem_of in Hlast. by apply Hip.
      * rewrite <- (app_nil_r (ip ++ _)) at 1. apply (trim_end_app (ch ".") _ 0). rewrite last_app_cons.
        destruct (last (ch "." :: d :: fp')) as [x|] eqn:Hlast; [|done]. intros [= ->].
        rewrite last_cons_cons in Hlast. apply last_Some_elem_of in Hlast. by apply (digits_no_dot (d :: fp') Hfp').
    + rewrite last_app_cons. destruct fp' as [|d fp']; [done|]. by rewrite last_cons_cons.
Qed.

(** ** Values *)

(** The number [n * 10^x], and the magnitude [m * 2^e]. *)
Definition dec_q (n x : Z) : Q := (inject_Z n * (10 # 1) ^ x)%Q.
Definition mag_q (m : positive) (e : Z) : Q := (inject_Z (Zpos m) * (2 # 1) ^ e)%Q.

(** A text reads as a sign and a number, as [str::parse] takes it apart. *)
Definition reads (t : text) (s : bool) (n x : Z) : Prop :=
  ∃ t', split_sign t = (s, t') ∧ parse_number t' = Some (n, x).

Lemma inject_pow b k : 0 ≤ k → (inject_Z (Zpos b ^ k) == (Zpos b # 1) ^ k)%Q.
Proof. intros Hk. change (Zpos b # 1)%Q with (inject_Z (Zpos b)). by apply Zpower_Qpower. Qed.

Lemma inject_nonzero z : z ≠ 0 → ¬ (inject_Z z == 0)%Q.
Proof. unfold Qeq. cbn. lia. Qed.

Lemma Qpow_nonzero b k : ¬ ((Zpos b # 1) ^ k == 0)%Q.
Proof. apply Qpower_not_0. unfold Qeq. cbn. lia. Qed.

Lemma mag_q_frac m e : (mag_q m e == inject_Z (mag_num m e) / inject_Z (mag_den e))%Q.
Proof.
  unfold mag_q, mag_num, mag_den. rewrite inject_Z_mult, !inject_pow by lia.
  destruct (Z.le_ge_cases 0 e).
  - rewrite (Z.max_r 0 e), (Z.max_l 0 (- e)) by lia. cbn [Qpower]. field.
  - rewrite (Z.max_l 0 e), (Z.max_r 0 (- e)) by lia. rewrite Qpower_opp. cbn [Qpower]. field. apply Qpow_nonzero.
Qed.

(** Rounding is off by at most a half. *)
Lemma round_half_even_bound a b : 0 < b → - b ≤ 2 * (round_half_even a b * b - a) ≤ b.
Proof.
  intros Hb. unfold round_half_even. pose proof (Z.div_mod a b ltac:(lia)) as Hd. pose proof (Z.mod_pos_bound a b Hb) as Hm.
  destruct (Z.compare_spec (2 * (a mod b)) b); [destruct (Z.even (a / b))| |]; nia.
Qed.

Lemma round_half_even_nonneg a b : 0 ≤ a → 0 < b → 0 ≤ round_half_even a b.
Proof.
  intros Ha Hb. unfold round_half_even. pose proof (Z.div_pos a b Ha Hb). destruct (2 * (a mod b) ?= b); [destruct (Z.even (a / b))| |]; lia.
Qed.

Lemma round_half_even_near a b :
  0 < b → (Qabs (inject_Z (round_half_even a b) - inject_Z a / inject_Z b) <= 1 # 2)%Q.
Proof.
  intros Hb. pose proof (round_half_even_bound a b Hb) as Hr. set (r := round_half_even a b) in *.
  assert (inject_Z r - inject_Z a / inject_Z b == inject_Z (r * b - a) / inject_Z b)%Q as ->.
  { unfold Z.sub. rewrite inject_Z_plus, inject_Z_opp, inject_Z_mult. field. apply inject_nonzero. lia. }
  apply Qabs_Qle_condition. destruct b as [|b|b]; [lia| |lia]. unfold Qdiv, Qinv, Qle, Qmult, Qopp, inject_Z. cbn. lia.
Qed.

(** Scaling the rounded number back scales the error. *)
Lemma near_scaled r v q k :
  (Qabs (inject_Z r - v * (10 # 1) ^ k) <= 1 # 2)%Q → q = (- k)%Z →
  (Qabs (dec_q r q - v) <= (1 # 2) * (10 # 1) ^ q)%Q.
Proof.
  intros Hr ->. unfold dec_q. set (w := ((10 # 1) ^ (- k))%Q).
  assert (Hw : (0 <= w)%Q) by (apply Qpower_pos; discriminate).
  assert (inject_Z r * w - v == (inject_Z r - v * (10 # 1) ^ k) * w)%Q as ->.
  { unfold w. rewrite Qpower_opp. field. apply Qpow_nonzero. }
  rewrite Qabs_Qmult, (Qabs_pos w) by done. by apply Qmult_le_compat_r.
Qed.

Lemma fixed_near p m e :
  let n := round_half_even (mag_num m e * 10 ^ Z.of_nat p) (mag_den e) in
  (Qabs (dec_q n (- Z.of_nat p) - mag_q m e) <= (1 # 2) * (10 # 1) ^ (- Z.of_nat p))%Q.
Proof.
  intros n. assert (Hd : 0 < mag_den e) by (apply Z.pow_pos_nonneg; lia).
  apply (near_scaled _ _ _ (Z.of_nat p)); [|done]. rewrite mag_q_frac.
  pose proof (round_half_even_near (mag_num m e * 10 ^ Z.of_nat p) (mag_den e) Hd) as Hr. fold n in Hr.
  rewrite inject_Z_mult, inject_pow in Hr by lia.
  assert (inject_Z (mag_num m e) / inject_Z (mag_den e) * (10 # 1) ^ Z.of_nat p
          == inject_Z (mag_num m e) * (10 # 1) ^ Z.of_nat p / inject_Z (mag_den e))%Q as ->; [|done].
  field. apply inject_nonzero. lia.
Qed.

Lemma exp_near p k m e :
  let shift := Z.of_nat p - k in
  let n := round_half_even (mag_num m e * 10 ^ Z.max 0 shift) (mag_den e * 10 ^ Z.max 0 (- shift)) in
  (Qabs (dec_q n (k - Z.of_nat p) - mag_q m e) <= (1 # 2) * (10 # 1) ^ (k - Z.of_nat p))%Q.
Proof.
  intros shift n. assert (Hd : 0 < mag_den e) by (apply Z.pow_pos_nonneg; lia).
  assert (Hp : 0 < 10 ^ Z.max 0 (- shift)) by (apply Z.pow_pos_nonneg; lia).
  apply (near_scaled _ _ _ shift); [|unfold shift; lia]. rewrite mag_q_frac.
  pose proof (round_half_even_near (mag_num m e * 10 ^ Z.max 0 shift) (mag_den e * 10 ^ Z.max 0 (- shift)) ltac:(lia)) as Hr. fold n in Hr.
  rewrite !inject_Z_mult, !inject_pow in Hr by lia.
  assert (inject_Z (mag_num m e) / inject_Z (mag_den e) * (10 # 1) ^ shift
          == inject_Z (mag_num m e) * (10 # 1) ^ Z.max 0 shift / (inject_Z (mag_den e) * (10 # 1) ^ Z.max 0 (- shift)))%Q as ->; [|done].
  destruct (Z.le_ge_cases 0 shift).
  - rewrite (Z.max_r 0 shift), (Z.max_l 0 (- shift)) by lia. cbn [Qpower]. field. apply inject_nonzero. lia.
  - rewrite (Z.max_l 0 shift), (Z.max_r 0 (- shift)) by lia. rewrite Qpower_opp. cbn [Qpower]. field.
    split; [apply Qpow_nonzero|apply inject_nonzero; lia].
Qed.

(** ** Printed numbers read back *)

Definition sf_sign (v : spec_float) : bool :=
  match v with S754_zero s | S754_infinity s | S754_finite s _ _ => s | S754_nan => false end.
Definition sf_mag (v : spec_float) : Q := match v with S754_finite _ m e => mag_q m e | _ => 0%Q end.

Lemma reads_signed s t n x c l : t = c :: l → is_digit c = true → parse_number t = Some (n, x) → reads (signed s t) s n x.
Proof.
  intros Ht Hc Hp. exists t. split; [|done]. destruct s; [done|]. subst t. cbn [signed split_sign].
  unfold is_digit in Hc. apply andb_true_iff in Hc as [Hc1%Z.leb_le Hc2%Z.leb_le].
  change (ch "0") with 48 in *. change (ch "-") with 45. change (ch "+") with 43.
  by rewrite (proj2 (Z.eqb_neq _ _)), (proj2 (Z.eqb_neq _ _)) by lia.
Qed.

Lemma dec_q_zeros n z x : (dec_q (n * 10 ^ Z.of_nat z) x == dec_q n (x + Z.of_nat z))%Q.
Proof. unfold dec_q. rewrite inject_Z_mult, inject_pow, Qpower_plus by (lia || discriminate). ring. Qed.

Lemma digits_value_zeros z : digits_value (replicate z (ch "0")) = 0.
Proof.
  induction z as [|z IH]; [done|]. change (replicate (S z) (ch "0")) with ([ch "0"] ++ replicate z (ch "0")).
  rewrite digits_value_app, IH. done.
Qed.

Lemma signed_app s a b : signed s (a ++ b) = signed s a ++ b.
Proof. by destruct s. Qed.

(** The trimmed text of [n / 10^p] is that number. *)
Lemma trimmed_reads s p n :
  0 ≤ n → ∃ n' x, reads (trim_zeros (signed s (fixed_text p n))) s n' x ∧ - Z.of_nat p ≤ x ∧ (dec_q n' x == dec_q n (- Z.of_nat p))%Q.
Proof.
  intros Hn. destruct (fixed_text_shape p n) as (ip & fp & Hne & Hip & Hfp & Hlen & -> & Hv). specialize (Hv Hn). rewrite signed_app.
  destruct (trim_zeros_shape (signed s ip) fp) as (fp' & z & -> & Hfp' & ->); [by destruct s|..|done|].
  { destruct s; cbn [signed]; [|by apply digits_no_dot]. apply not_elem_of_cons. split; [done|]. by apply digits_no_dot. }
  rewrite <- signed_app. destruct ip as [|c ip]; [done|].
  exists (digits_value ((c :: ip) ++ fp')), (0 - Z.of_nat (length fp')). rewrite length_app, length_replicate in Hlen. split_and!.
  - eapply reads_signed; [done|by inversion Hip|].
    rewrite <- (app_nil_r (match fp' with [] => [] | _ => _ end)). by apply parse_number_text; [..|apply exponent_nil].
  - lia.
  - rewrite <- Hv, app_assoc, (digits_value_app _ (replicate _ _)), digits_value_zeros, length_replicate, Z.add_0_r, dec_q_zeros.
    by replace (- Z.of_nat p + Z.of_nat z)%Z with (0 - Z.of_nat (length fp'))%Z by lia.
Qed.

Lemma exp_text_reads s p n k : 0 ≤ n → reads (signed s (exp_text p n k)) s n (k - Z.of_nat p).
Proof.
  intros Hn. unfold exp_text. destruct (fixed_text_shape p n) as (ip & fp & Hne & Hip & Hfp & Hlen & -> & Hv). specialize (Hv Hn).
  destruct ip as [|c ip]; [done|]. eapply reads_signed; [done|by inversion Hip|].
  rewrite <- app_assoc, (parse_number_text _ _ _ k); [by rewrite Hv, Hlen|done..|apply exponent_int].
Qed.

(** A text shows a float when it reads as its sign and, within half a unit of
    the last digit, its magnitude. *)
Definition shows (t : text) (v : spec_float) : Prop :=
  ∃ n x, reads t (sf_sign v) n x ∧ (Qabs (dec_q n x - sf_mag v) <= (1 # 2) * (10 # 1) ^ x)%Q.

Lemma Qpow10_le x y : x ≤ y → ((10 # 1) ^ x <= (10 # 1) ^ y)%Q.
Proof. intros H. by apply Qpower_le_compat_l. Qed.

Lemma shows_zero t s n x : reads t s n x → (dec_q n x == 0)%Q → shows t (S754_zero s).
Proof.
  intros Hr Hz. exists n, x. split; [done|]. cbn [sf_mag]. rewrite Hz.
  assert (0 - 0 == 0)%Q as -> by ring. change (Qabs 0) with 0%Q. apply Qmult_le_0_compat; [discriminate|]. apply Qpower_pos. discriminate.
Qed.

Lemma dec_q_0 x : (dec_q 0 x == 0)%Q.
Proof. unfold dec_q. ring. Qed.

Lemma format_fixed_shows p v : sf_finite v = true → shows (trim_zeros (format_fixed p v)) v.
Proof.
  intros Hv. destruct v as [s| | |s m e]; [|done..|]; cbn [format_fixed].
  - destruct (trimmed_reads s p 0 ltac:(done)) as (n & x & Hr & Hx & Hq). apply (shows_zero _ _ n x Hr). by rewrite Hq, dec_q_0.
  - set (n := round_half_even _ _). assert (Hd : 0 < mag_den e) by (apply Z.pow_pos_nonneg; lia).
    assert (0 ≤ n) as Hn.
    { apply round_half_even_nonneg; [|done]. unfold mag_num. repeat apply Z.mul_nonneg_nonneg; try apply Z.pow_nonneg; lia. }
    destruct (trimmed_reads s p n Hn) as (n' & x & Hr & Hx & Hq). exists n', x. split; [done|]. cbn [sf_mag]. rewrite Hq.
    eapply Qle_trans; [apply fixed_near|]. apply Qmult_le_l; [reflexivity|]. by apply Qpow10_le.
Qed.

Lemma format_exp_shows p v : sf_finite v = true → shows (format_exp p v) v.
Proof.
  intros Hv. destruct v as [s| | |s m e]; [|done..|]; cbn [format_exp].
  - eapply shows_zero; [by apply exp_text_reads|apply dec_q_0].
  - set (k := log10 _ _). set (n := round_half_even _ _). assert (Hd : 0 < mag_den e) by (apply Z.pow_pos_nonneg; lia).
    pose proof (exp_near p k m e) as Hnear. cbv zeta in Hnear. fold n in Hnear.
    assert (0 ≤ n) as Hn.
    { apply round_half_even_nonneg; [|apply Z.mul_pos_pos; [done|]; apply Z.pow_pos_nonneg; lia].
      unfold mag_num. repeat apply Z.mul_nonneg_nonneg; try apply Z.pow_nonneg; lia. }
    destruct (Z.eqb_spec n (10 ^ (Z.of_nat p + 1))) as [Hc|Hc].
    + exists (10 ^ Z.of_nat p), (k + 1 - Z.of_nat p). split; [apply exp_text_reads; apply Z.pow_nonneg; lia|]. cbn [sf_mag].
      assert (dec_q (10 ^ Z.of_nat p) (k + 1 - Z.of_nat p) == dec_q n (k - Z.of_nat p))%Q as ->.
      { rewrite Hc, Z.pow_add_r by lia. rewrite (dec_q_zeros _ 1). by replace (k - Z.of_nat p + Z.of_nat 1)%Z with (k + 1 - Z.of_nat p)%Z by lia. }
      eapply Qle_trans; [exact Hnear|]. apply Qmult_le_l; [reflexivity|]. apply Qpow10_le. lia.
    + exists n, (k - Z.of_nat p). split; [by apply exp_text_reads|done].
Qed.

(** ** The cells of Describe *)

(** The first candidate that fits, if any does. *)
Definition first_fit (w : nat) (candidates : list text) (c : text) : Prop :=
  ∃ before after, candidates = before ++ c :: after ∧ (length c ≤ w)%nat ∧ Forall (λ t, (w < length t)%nat) before.

Lemma first_fitting_spec f w ps :
  match first_fitting f w ps with
  | Some c => first_fit w (f <$> ps) c ∧ ∃ p, c = f p
  | None => Forall (λ t, (w < length t)%nat) (f <$> ps)
  end.
Proof.
  induction ps as [|p ps IH]; [constructor|]. cbn [first_fitting fmap list_fmap].
  destruct (Nat.leb_spec (length (f p)) w) as [Hl|Hl].
  - split; [|by exists p]. by exists [], (f <$> ps).
  - destruct (first_fitting f w ps) as [c|]; [|by constructor]. destruct IH as [(before & after & Heq & Hc & Hall) Hp].
    split; [|done]. exists (f p :: before), after. rewrite Heq. by repeat constructor.
Qed.

(** A finite float's texts, from the most digits to the fewest: with up to three
    decimals, then with an exponent and up to two. *)
Definition fixed_forms (v : spec_float) : list text := (λ p, trim_zeros (format_fixed p v)) <$> [3; 2; 1; 0]%nat.
Definition exp_forms (v : spec_float) : list text := (λ p, format_exp p v) <$> [2; 1; 0]%nat.

(** The beginning of a text, marked as cut where there is room for the mark. *)
Definition marked (raw : text) (w : nat) : text := match w with O => [] | S w' => take w' raw ++ [ch "…"] end.

Lemma fit_text_length raw w : (length (fit_text raw w) ≤ w)%nat.
Proof.
  unfold fit_text. destruct (Nat.leb_spec (length raw) w); [done|]. destruct w as [|w]; [done|].
  rewrite length_app, length_take. cbn. lia.
Qed.

(** C30: a cell of the Describe panel rounds a number before it cuts one.  What
    [fit_number] returns fits the column, and is the query's own rendering
    whenever that fits.  A longer rendering of a finite number becomes the first
    of its texts that fits, tried with three decimals down to none and then with
    an exponent and two decimals down to none, and that text reads back as the
    float the rendering parses to, sign included, within half a unit of its last
    printed digit.  Only when none of the seven fits, or the rendering is not a
    finite number, is it cut, to its beginning and an ellipsis (in a column of no
    width, to nothing). *)
Theorem fit_number_correct raw w :
  (length (fit_number raw w) ≤ w)%nat ∧
  ((length raw ≤ w)%nat → fit_number raw w = raw) ∧
  ((w < length raw)%nat →
     match parse_f64 raw with
     | Some v =>
         if sf_finite v then
           (first_fit w (fixed_forms v ++ exp_forms v) (fit_number raw w) ∧ shows (fit_number raw w) v) ∨
           (Forall (λ t, (w < length t)%nat) (fixed_forms v ++ exp_forms v) ∧ fit_number raw w = marked raw w)
         else fit_number raw w = marked raw w
     | None => fit_number raw w = marked raw w
     end).
Proof.
  unfold fit_number. destruct (Nat.leb_spec (length raw) w) as [Hle|Hgt]; [split_and!; [done|done|lia]|].
  assert (Hfit : fit_text raw w = marked raw w).
  { unfold fit_text, marked. by destruct (Nat.leb_spec (length raw) w); [lia|]. }
  pose proof (fit_text_length raw w) as Hlen.
  destruct (parse_f64 raw) as [v|]; [|split_and!; [done|lia|done]].
  destruct (sf_finite v) eqn:Hv; cbn [negb]; [|split_and!; [done|lia|done]].
  pose proof (first_fitting_spec (λ p, trim_zeros (format_fixed p v)) w [3; 2; 1; 0]%nat) as Hfixed.
  destruct (first_fitting _ w [3; 2; 1; 0]%nat) as [c|].
  { destruct Hfixed as [(before & after & Heq & Hl & Hall) [p ->]]. split_and!; [done|lia|]. intros _. left. split; [|by apply format_fixed_shows].
    exists before, (after ++ exp_forms v). unfold fixed_forms. by rewrite Heq, <- app_assoc. }
  pose proof (first_fitting_spec (λ p, format_exp p v) w [2; 1; 0]%nat) as Hexp.
  destruct (first_fitting _ w [2; 1; 0]%nat) as [c|].
  - destruct Hexp as [(before & after & Heq & Hl & Hall) [p ->]]. split_and!; [done|lia|]. intros _. left. split; [|by apply format_exp_shows].
    exists (fixed_forms v ++ before), after. unfold exp_forms. rewrite Heq, <- app_assoc. split_and!; [done|done|by apply Forall_app].
  - split_and!; [done|lia|]. intros _. right. split; [|done]. by apply Forall_app.
Qed.

(** The column shows at most three decimals, even where a fourth would fit, so
    a small number may show as zero. *)
Example three_decimals_at_most :
  (λ s, fit_number (chars s) 6) <$> ["0.0012345"; "0.00012345"; "-0.00012345"] = chars <$> ["0.001"; "0"; "-0"] ∧
  length (chars "0.0012") = 6%nat.
Proof. by vm_compute. Qed.

(** ** Byte counts *)

(** Dividing by 1024 lowers the exponent by ten. *)
Lemma round_aux_even c e :
  2 ^ 52 ≤ Zpos c < 2 ^ 53 → -1000 ≤ e ≤ 900 → binary_round_aux 53 1024 false (Zpos c~0) e loc_Exact = S754_finite false c (e + 1).
Proof.
  intros Hc He. assert (Hl : Z.log2 (Zpos c) = 52) by (apply Z.log2_unique; [done|]; change (2 ^ Z.succ 52) with (2 ^ 53); lia).
  assert (Hl2 : Z.log2 (Zpos c~0) = 53) by (rewrite Pos2Z.inj_xO, Z.log2_double by done; lia).
  unfold binary_round_aux, shr_fexp. cbn [Zdigits2]. rewrite digits2_log2, Hl2.
  assert (fexp 53 1024 (53 + 1 + e) - e = 1) as -> by (unfold fexp, emin; lia).
  cbn [shr shr_record_of_loc SpecFloat.iter_pos shr_1 shr_m orb loc_of_shr_record round_nearest_even fst snd].
  cbn [Zdigits2]. rewrite digits2_log2, Hl. assert (fexp 53 1024 (52 + 1 + (e + 1)) - (e + 1) = 0) as -> by (unfold fexp, emin; lia).
  cbn [shr shr_record_of_loc shr_m]. by rewrite (proj2 (Z.leb_le _ _)) by lia.
Qed.

Lemma div_1024 c e :
  2 ^ 52 ≤ Zpos c < 2 ^ 53 → -900 ≤ e ≤ 900 → SFdiv 53 1024 (S754_finite false c e) sf_1024 = S754_finite false c (e - 10).
Proof.
  intros Hc He. assert (sf_1024 = S754_finite false 4503599627370496 (-42)) as -> by by vm_compute.
  assert (Hl : Z.log2 (Zpos c) = 52) by (apply Z.log2_unique; [done|]; change (2 ^ Z.succ 52) with (2 ^ 53); lia).
  cbn [SFdiv xorb]. unfold SFdiv_core_binary. cbn [Zdigits2]. rewrite digits2_log2, Hl.
  change (Zpos (digits2_pos 4503599627370496)) with 53.
  assert (Z.min (fexp 53 1024 (52 + 1 + e - (53 + -42))) (e - -42) = e - 11) as -> by (unfold fexp, emin; lia).
  replace (e - -42 - (e - 11)) with 53 by lia.
  assert (Z.div_eucl (Z.shiftl (Zpos c) 53) 4503599627370496 = (Zpos c~0, 0)) as ->.
  { pose proof (Z_div_mod (Z.shiftl (Zpos c) 53) 4503599627370496 ltac:(lia)) as H.
    destruct (Z.div_eucl _ _) as [q r]. destruct H as [Hq Hr]. rewrite Z.shiftl_mul_pow2 in Hq by lia. f_equal; lia. }
  cbn [new_location].
  rewrite round_aux_even by lia. f_equal. lia.
Qed.

(** The float of an integer [z] after [u] divisions. *)
Definition scaled (z : Z) (u : nat) : spec_float :=
  S754_finite false (Z.to_pos (z * 2 ^ (52 - Z.log2 z))) (Z.log2 z - 52 - 10 * Z.of_nat u).

Lemma scaled_mantissa z : 0 < z < 2 ^ 53 → 2 ^ 52 ≤ Zpos (Z.to_pos (z * 2 ^ (52 - Z.log2 z))) < 2 ^ 53.
Proof.
  intros Hz. assert (Hl : 0 ≤ Z.log2 z ≤ 52) by (split; [apply Z.log2_nonneg|]; assert (Z.log2 z < 53); [apply Z.log2_lt_pow2; lia|lia]).
  pose proof (Z.log2_spec z ltac:(lia)) as Hs. assert (0 < 2 ^ (52 - Z.log2 z)) by (apply Z.pow_pos_nonneg; lia).
  assert (2 ^ 52 = 2 ^ Z.log2 z * 2 ^ (52 - Z.log2 z)) as -> by (rewrite <- Z.pow_add_r by lia; f_equal; lia).
  assert (2 ^ 53 = 2 ^ Z.succ (Z.log2 z) * 2 ^ (52 - Z.log2 z)) as -> by (rewrite <- Z.pow_add_r by lia; f_equal; lia).
  rewrite Z2Pos.id by nia. nia.
Qed.

Lemma sf_of_u64_scaled z : 0 < z < 2 ^ 53 → sf_of_u64 z = scaled z 0.
Proof.
  intros Hz. unfold sf_of_u64. pose proof (normalize_int 53 1024 ltac:(done) ltac:(done) ltac:(done) z 0 ltac:(unfold small; lia) ltac:(done)) as H.
  change (- 0) with 0 in H. rewrite Z.pow_0_r, Z.mul_1_r in H. rewrite H. unfold sf_int, scaled.
  destruct z as [|z|z]; [lia| |lia]. change (Z.abs (Zpos z)) with (Zpos z). f_equal. change (Z.of_nat 0) with 0. lia.
Qed.

(** The loop stops in the unit whose value is below 1024, or the last. *)
Lemma scale_bytes_spec fuel z u :
  0 < z < 2 ^ 53 → (u + fuel = 4)%nat → 10 * Z.of_nat u ≤ Z.log2 z ∨ u = 0%nat →
  ∃ u', scale_bytes fuel (scaled z u) u = (scaled z u', u') ∧ (u' ≤ 4)%nat ∧
    (10 * Z.of_nat u' ≤ Z.log2 z) ∧ (u' = 4%nat ∨ Z.log2 z < 10 * (Z.of_nat u' + 1)).
Proof.
  intros Hz. pose proof (scaled_mantissa z Hz) as Hm. pose proof (Z.log2_nonneg z) as Hl.
  assert (Z.log2 z < 53) as Hl' by (apply Z.log2_lt_pow2; lia).
  revert u. induction fuel as [|fuel IH]; intros u Hu Hlow; cbn [scale_bytes].
  { exists u. split_and!; [done|lia|lia|left; lia]. }
  assert (SFleb sf_1024 (scaled z u) = bool_decide (10 ≤ Z.log2 z - 10 * Z.of_nat u)) as ->.
  { assert (sf_1024 = S754_finite false 4503599627370496 (-42)) as -> by by vm_compute.
    unfold SFleb, scaled. cbn [SFcompare]. destruct (Z.compare_spec (-42) (Z.log2 z - 52 - 10 * Z.of_nat u)).
    - rewrite bool_decide_eq_true_2 by lia. change (2 ^ 52) with 4503599627370496 in Hm.
      change (PosDef.Pos.compare_cont Eq 4503599627370496 (Z.to_pos (z * 2 ^ (52 - Z.log2 z))))
        with (Pos.compare 4503599627370496 (Z.to_pos (z * 2 ^ (52 - Z.log2 z)))).
      destruct (Pos.compare_spec 4503599627370496 (Z.to_pos (z * 2 ^ (52 - Z.log2 z)))); try done. lia.
    - by rewrite bool_decide_eq_true_2 by lia.
    - by rewrite bool_decide_eq_false_2 by lia. }
  destruct (bool_decide_reflect (10 ≤ Z.log2 z - 10 * Z.of_nat u)) as [Hge|Hlt].
  - unfold scaled at 1. rewrite div_1024 by lia.
    replace (Z.log2 z - 52 - 10 * Z.of_nat u - 10) with (Z.log2 z - 52 - 10 * Z.of_nat (S u)) by lia. fold (scaled z (S u)).
    apply IH; lia.
  - exists u. split_and!; [done|lia|lia|right; lia].
Qed.

(** byte counts are shown in the right unit and rounded, never cut.  A
    count below 2^53 is shown exactly below 1 KiB; from there on in the largest
    unit it reaches, up to TiB, with the one decimal nearest to it: the shown
    tenths are within half a tenth of a unit of the count. *)
Theorem human_bytes_correct bytes :
  0 ≤ bytes < 2 ^ 53 →
  ∃ u unit, (u ≤ 4)%nat ∧ UNITS !! u = Some unit ∧ (u = 0%nat ∨ 1024 ^ Z.of_nat u ≤ bytes) ∧
    (u = 4%nat ∨ bytes < 1024 ^ (Z.of_nat u + 1)) ∧
    if (u =? 0)%nat then human_bytes bytes = decimal bytes ++ chars " B"
    else ∃ tenths, human_bytes bytes = fixed_text 1 tenths ++ chars " " ++ chars unit ∧
           - 1024 ^ Z.of_nat u ≤ 2 * (tenths * 1024 ^ Z.of_nat u - 10 * bytes) ≤ 1024 ^ Z.of_nat u.
Proof.
  intros Hb. unfold human_bytes. destruct (decide (bytes = 0)) as [->|Hne].
  { exists 0%nat, "B". split_and!; [lia|done|by left|right; done|]. by vm_compute. }
  assert (Hz : 0 < bytes < 2 ^ 53) by lia. rewrite sf_of_u64_scaled by done.
  destruct (scale_bytes_spec 4 bytes 0 Hz eq_refl (or_intror eq_refl)) as (u & Hs & Hu & Hlo & Hhi). cbn [length Nat.sub UNITS]. rewrite Hs.
  assert (Hp : ∀ k, 1024 ^ Z.of_nat k = 2 ^ (10 * Z.of_nat k)) by (intros k; by rewrite Z.pow_mul_r by lia).
  pose proof (Z.log2_spec bytes ltac:(lia)) as Hlog.
  destruct (lookup_lt_is_Some_2 UNITS u) as [unit Hunit]; [cbn; lia|]. exists u, unit. split_and!; [done|done| | |].
  - right. rewrite Hp. eapply Z.le_trans; [|apply Hlog]. apply Z.pow_le_mono_r; lia.
  - destruct Hhi as [->|Hhi]; [by left|right]. replace (Z.of_nat u + 1) with (Z.of_nat (S u)) by lia. rewrite Hp.
    eapply Z.lt_le_trans; [apply Hlog|]. apply Z.pow_le_mono_r; lia.
  - destruct (Nat.eqb_spec u 0) as [->|Hu0]; [done|]. rewrite Hunit. cbn [default]. unfold scaled. cbn [format_fixed signed].
    eexists. split; [done|]. assert (Hl : Z.log2 bytes < 53) by (apply Z.log2_lt_pow2; lia). pose proof (Z.log2_nonneg bytes) as Hl0.
    set (e := Z.log2 bytes - 52 - 10 * Z.of_nat u). unfold mag_num, mag_den.
    rewrite (Z.max_l 0 e), (Z.max_r 0 (- e)) by (unfold e; lia). set (g := 2 ^ (52 - Z.log2 bytes)).
    assert (Hg : 0 < g) by (apply Z.pow_pos_nonneg; lia). rewrite Z2Pos.id by nia. change (2 ^ 0) with 1. change (10 ^ Z.of_nat 1) with 10.
    assert (2 ^ (- e) = g * 1024 ^ Z.of_nat u) as ->.
    { rewrite Hp. unfold g, e. rewrite <- Z.pow_add_r by lia. f_equal. lia. }
    assert (0 < 1024 ^ Z.of_nat u) by (apply Z.pow_pos_nonneg; lia).
    pose proof (round_half_even_bound (bytes * g * 1 * 10) (g * 1024 ^ Z.of_nat u) ltac:(nia)) as Hr.
    set (n := round_half_even _ _) in *. set (w := 1024 ^ Z.of_nat u) in *.
    replace (2 * (n * (g * w) - bytes * g * 1 * 10)) with (g * (2 * (n * w - 10 * bytes))) in Hr by ring. nia.
Qed.

Lemma human_bytes_correct_witness :
  0 ≤ 1572864 < 2 ^ 53 ∧ ∃ u unit, UNITS !! u = Some unit ∧ (u = 4%nat ∨ 1572864 < 1024 ^ (Z.of_nat u + 1)).
Proof.
  assert (Hb : 0 ≤ 1572864 < 2 ^ 53) by (split; [done|by vm_compute]). split; [exact Hb|].
  destruct (human_bytes_correct 1572864 Hb) as (u & unit & _ & Hu & _ & Hhi & _). exists u, unit. split; [exact Hu|exact Hhi].
Defined.
