(* ===== verification/Display.v ===== *)
(** * oxidelake-compute: what [EXPLAIN] says of the device nodes

    Models [src/crates/oxidelake-compute/src/display.rs] and the names and
    [fmt_as] lines of the [Gpu*Exec] nodes ([exec/filter.rs], [exec/join.rs],
    [exec/aggregate.rs], [exec/vector.rs]).  What DataFusion's own nodes print
    is an operation of [PlanDisplay]. *)

From S2P Require Import Prelude Floats Arrow Core Execs Planner Text.

(** ** [display.rs] *)

(** [Vec::join]. *)
Fixpoint join_texts (sep : text) (l : list text) : text :=
  match l with [] => [] | [t] => t | t :: l => t ++ sep ++ join_texts sep l end.

Definition column_name (s : Schema) (index : nat) : text :=
  match fields s !! index with Some f => chars (field_name f) | None => chars "col" ++ decimal (Z.of_nat index) end.

Definition literal (l : Literal) : text :=
  match l with LInt64 v => int_text v | LFloat64 v => format_debug (f64_sf v) end.

Fixpoint predicate (p : Predicate) (s : Schema) : text :=
  match p with
  | Compare column op l => column_name s column ++ chars " " ++ chars (symbol op) ++ chars " " ++ literal l
  | And l r => predicate l s ++ chars " AND " ++ predicate r s
  end.

Definition aggregate (spec : AggregateSpec) (s : Schema) : text :=
  let aggr := (λ '(f, c), chars (agg_name f) ++ chars "(" ++ column_name s c ++ chars ")") <$> aggregates spec in
  chars "group_by=[" ++ column_name s (group_by spec) ++ chars "], aggr=[" ++ join_texts (chars ", ") aggr ++ chars "]".

Definition projection (l : list nat) (s : Schema) : text := join_texts (chars ", ") ((λ i, column_name s i) <$> l).

(** ** The nodes' lines *)

Inductive DisplayFormatType := DefaultFormat | Verbose | TreeRender.

Definition tagged (name : string) (b : BackendKind) : text := chars name ++ chars "[" ++ chars (as_str b) ++ chars "]".
Definition backend_line (b : BackendKind) : text := chars "backend=" ++ chars (as_str b) ++ [10].

Section Nodes.
Context {P : Type} `{!PlanNode P}.

Definition gf_fmt_as (t : DisplayFormatType) (e : GpuFilterExec P) : text :=
  let input_schema := node_schema (gf_input e) in
  let b := cfg_target (gf_config e) in
  match t with
  | DefaultFormat | Verbose =>
      tagged "GpuFilterExec" b ++ chars ": " ++ predicate (gf_predicate e) input_schema ++ chars ", projection=["
      ++ projection (gf_projection e) input_schema ++ chars "]"
  | TreeRender => backend_line b ++ chars "predicate=" ++ predicate (gf_predicate e) input_schema
  end.

Definition gj_fmt_as (t : DisplayFormatType) (e : GpuHashJoinExec P) : text :=
  let b := cfg_target (gj_config e) in
  let on := column_name (node_schema (gj_left e)) (gj_left_key e) ++ chars " = "
            ++ column_name (node_schema (gj_right e)) (gj_right_key e) in
  let proj :=
    match gj_projection e with
    | Some _ => chars ", projection=[" ++ join_texts (chars ", ") (chars ∘ field_name <$> fields (gj_schema e)) ++ chars "]"
    | None => []
    end in
  match t with
  | DefaultFormat | Verbose =>
      tagged "GpuHashJoinExec" b ++ chars ": join_type=Inner, on=[" ++ on ++ chars "]" ++ proj
  | TreeRender => backend_line b ++ chars "on=" ++ on
  end.

Definition ga_fmt_as (t : DisplayFormatType) (e : GpuAggregateExec P) : text :=
  let b := cfg_target (ga_config e) in
  let detail := aggregate (ga_spec e) (node_schema (ga_input e)) in
  match t with
  | DefaultFormat | Verbose => tagged "GpuAggregateExec" b ++ chars ": " ++ detail
  | TreeRender => backend_line b ++ detail
  end.

Definition gv_fmt_as (t : DisplayFormatType) (e : GpuVectorDistanceExec P) : text :=
  let b := cfg_target (gv_config e) in
  let name := column_name (node_schema (gv_input e)) (gv_column e) in
  match t with
  | DefaultFormat | Verbose =>
      tagged "GpuVectorDistanceExec" b ++ chars ": " ++ chars (metric_name (gv_metric e)) ++ chars "(" ++ name ++ chars ") AS "
      ++ chars (gv_output_name e) ++ chars ", dim=" ++ decimal (Z.of_nat (length (gv_query e)))
  | TreeRender => backend_line b ++ chars "metric=" ++ chars (metric_name (gv_metric e)) ++ [10] ++ chars "column=" ++ name
  end.
End Nodes.

(** What DataFusion's own nodes are called and print, and the line it makes of
    [displayable(node).one_line()]. *)
Class PlanDisplay := {
  df_name : ExecutionPlan → string;
  df_fmt_as : DisplayFormatType → ExecutionPlan → text;
  one_line : text → text;
}.

Section Plan.
Context `{!PlanDisplay}.

Definition plan_name (p : ExecutionPlan) : string :=
  match p with
  | GpuFilter _ => "GpuFilterExec"
  | GpuJoin _ => "GpuHashJoinExec"
  | GpuAggregate _ => "GpuAggregateExec"
  | GpuVector _ => "GpuVectorDistanceExec"
  | _ => df_name p
  end.

Definition fmt_as (t : DisplayFormatType) (p : ExecutionPlan) : text :=
  match p with
  | GpuFilter e => gf_fmt_as t e
  | GpuJoin e => gj_fmt_as t e
  | GpuAggregate e => ga_fmt_as t e
  | GpuVector e => gv_fmt_as t e
  | _ => df_fmt_as t p
  end.
End Plan.

Example display_demo :
  predicate (And (Compare 0 CGtEq (LInt64 (-2))) (Compare 7 CLt (LFloat64 (sf_f64 (sf_decimal false 4 0)))))
    (Schema_new [Field_new "k" Int64 true]) = chars "k >= -2 AND col7 < 4.0".
Proof. by vm_compute. Qed.
