(* ===== verification/Dashboard.v ===== *)
(** * oxidelake-runtime: building the dashboard from a session

    Models [src/crates/oxidelake-runtime/src/dashboard.rs].  Planning, running
    and formatting are DataFusion's: operations of [SqlSession] over an abstract
    world that holds the session's telemetry hub.  The properties are in
    [DashboardCorrect]. *)

From S2P Require Import Prelude Floats Arrow Core Telemetry Execs Planner Text Tui Display.

(** ** The plan ([plan_summary]) *)

Definition node_backend (p : ExecutionPlan) : BackendKind :=
  match p with
  | GpuFilter e => cfg_target (gf_config e)
  | GpuJoin e => cfg_target (gj_config e)
  | GpuAggregate e => cfg_target (ga_config e)
  | GpuVector e => cfg_target (gv_config e)
  | _ => CpuSimd
  end.

Section Summary.
Context `{!PlanDisplay}.

Definition node_detail (p : ExecutionPlan) : text :=
  match split_once (chars ": ") (one_line (fmt_as DefaultFormat p)) with
  | Some (_, rest) => trim rest
  | None => []
  end.

Definition node_summary (p : ExecutionPlan) (depth : Z) : PlanNodeSummary :=
  mkPlanNode depth (plan_name p) (node_backend p) (to_string (node_detail p)).

(** The node, then its children one level deeper. *)
Fixpoint plan_walk (p : ExecutionPlan) (depth : Z) : list PlanNodeSummary :=
  let walk_list := fix walk_list (cs : list ExecutionPlan) : list PlanNodeSummary :=
    match cs with [] => [] | c :: cs => plan_walk c (depth + 1) ++ walk_list cs end in
  node_summary p depth ::
  match p with
  | FilterExec i _ _ _ | ProjectionExec i _ _ | SortExec i _ _ | AggregateExec i _ _
  | RepartitionExec i _ | CoalescePartitionsExec i _ => plan_walk i (depth + 1)
  | HashJoinExec l r _ _ | SortMergeJoinExec l r _ _ => plan_walk l (depth + 1) ++ plan_walk r (depth + 1)
  | GpuFilter e => plan_walk (gf_input e) (depth + 1)
  | GpuJoin e => plan_walk (gj_left e) (depth + 1) ++ plan_walk (gj_right e) (depth + 1)
  | GpuAggregate e => plan_walk (ga_input e) (depth + 1)
  | GpuVector e => plan_walk (gv_input e) (depth + 1)
  | OtherExec _ cs _ => walk_list cs
  end.

Definition plan_summary (p : ExecutionPlan) : list PlanNodeSummary := plan_walk p 0.
End Summary.

(** ** The counters ([operators_for_plan]) *)

Definition zero_operator (name : string) (b : BackendKind) : OperatorSnapshot :=
  mkOpSnapshot 0 name b 0 0 0 0 0 0 0 0.

(** [+=] on [u64] wraps in a release build. *)
Definition add_operator (entry op : OperatorSnapshot) : OperatorSnapshot :=
  mkOpSnapshot (sn_id entry) (sn_name entry) (sn_backend entry)
    (wadd64 (sn_rows_in entry) (sn_rows_in op)) (wadd64 (sn_rows_out entry) (sn_rows_out op))
    (wadd64 (sn_batches entry) (sn_batches op)) (wadd64 (sn_elapsed_ns entry) (sn_elapsed_ns op))
    (wadd64 (sn_bytes_h2d entry) (sn_bytes_h2d op)) (wadd64 (sn_bytes_d2h entry) (sn_bytes_d2h op))
    (Z.max (sn_memory_bytes entry) (sn_memory_bytes op))
    (wadd64 (sn_fallback_batches entry) (sn_fallback_batches op)).

Definition by_name (recorded : list OperatorSnapshot) : gmap string OperatorSnapshot :=
  foldl (λ m op, <[sn_name op := add_operator (default (zero_operator (sn_name op) (sn_backend op)) (m !! sn_name op)) op]> m)
    ∅ recorded.

Definition operators_for_plan (plan : list PlanNodeSummary) (recorded : list OperatorSnapshot) : list OperatorSnapshot :=
  let m := by_name recorded in
  imap (λ id node,
    let op := default (zero_operator (pn_name node) (pn_backend node)) (m !! pn_name node) in
    mkOpSnapshot (Z.of_nat id) (sn_name op) (pn_backend node) (sn_rows_in op) (sn_rows_out op) (sn_batches op)
      (sn_elapsed_ns op) (sn_bytes_h2d op) (sn_bytes_d2h op) (sn_memory_bytes op) (sn_fallback_batches op)) plan.

(** ** Column profiles ([profile_table]) *)

Definition quote_char : Z := 34.
Definition quoted (name : text) : text := [quote_char] ++ replace_char quote_char [quote_char; quote_char] name ++ [quote_char].

Definition is_numeric (dt : DataType) : bool := match dt with Int64 | Float64 => true | _ => false end.
Definition is_orderable (dt : DataType) : bool := is_numeric dt || match dt with Utf8 => true | _ => false end.

Definition call (f : string) (arg : text) : text := chars f ++ chars "(" ++ arg ++ chars ")".
Definition percentile (q : text) (p : string) : text := call "approx_percentile_cont" (q ++ chars ", " ++ chars p).

(** The expressions of one column. *)
Definition column_selects (f : Field) : list text :=
  let q := quoted (chars (field_name f)) in
  let numeric := is_numeric (field_type_of f) in
  [call "count" q]
  ++ (if is_orderable (field_type_of f) then [call "min" q; call "max" q] else [])
  ++ (if numeric then percentile q <$> ["0.25"; "0.5"; "0.99"] else []).

(** The loop over the fields: the select list, and each column's slot. *)
Fixpoint build_selects (fs : list Field) (selects : list text) : list text * list (nat * bool * bool) :=
  match fs with
  | [] => (selects, [])
  | f :: fs =>
      let first := length selects in
      let '(all, layout) := build_selects fs (selects ++ column_selects f) in
      (all, (first, is_orderable (field_type_of f), is_numeric (field_type_of f)) :: layout)
  end.

Definition profile_sql (table : text) (selects : list text) : text :=
  chars "SELECT " ++ join_texts (chars ", ") selects ++ chars " FROM " ++ quoted table.

Class SqlSession := {
  SqlWorld : Type;
  Frame : Type;
  sql : text → SqlWorld → result Frame * SqlWorld;
  create_physical_plan : Frame → SqlWorld → df_result ExecutionPlan * SqlWorld;
  (** [DataFrame::collect], and [collect] of a plan in the session's context *)
  collect_frame : Frame → SqlWorld → df_result (list RecordBatch) * SqlWorld;
  collect_plan : ExecutionPlan → SqlWorld → df_result (list RecordBatch) * SqlWorld;
  (** the schema of the table's provider *)
  table_schema : text → SqlWorld → df_result Schema * SqlWorld;
  (** the session's hub *)
  telemetry : SqlWorld → TelemetryHub;
  with_telemetry : (TelemetryHub → TelemetryHub) → SqlWorld → SqlWorld;
  (** [ArrayFormatter::try_new(column).value(0)], nulls as the empty text *)
  format_first : Array → option text;
  data_type_text : DataType → text;
}.

Section Session.
Context `{!SqlSession, !PlanDisplay}.

Definition sql_op (A : Type) : Type := SqlWorld → result A * SqlWorld.
Definition sql_ret {A} (a : A) : sql_op A := λ w, (Ok a, w).
Definition sql_bind {A B} (m : sql_op A) (f : A → sql_op B) : sql_op B := λ w,
  match m w with
  | (Ok a, w) => f a w
  | (Err e, w) => (Err e, w)
  | (Panic, w) => (Panic, w)
  end.
(** [map_err(EngineError::from)]. *)
Definition df_op {A} (m : SqlWorld → df_result A * SqlWorld) : sql_op A := λ w,
  let '(r, w) := m w in (map_err DataFusion r, w).

Definition render_cell (b : RecordBatch) (column : nat) : text :=
  match columns b !! column with Some c => default [] (format_first c) | None => [] end.

(** The profile of one column, from the slots of the result row. *)
Definition column_profile (row : RecordBatch) (total : Z) (f : Field) (slot : nat * bool * bool) : ColumnProfile :=
  let '(first, orderable, numeric) := slot in
  let non_null := default 0 (parse_u64 (render_cell row first)) in
  let quantile i := if numeric then render_cell row (first + 3 + i) else [] in
  mkProfile (chars (field_name f)) (data_type_text (field_type_of f))
    (if orderable then render_cell row (first + 1) else []) (if orderable then render_cell row (first + 2) else [])
    (Z.max 0 (total - non_null)) (quantile 0%nat) (quantile 1%nat) (quantile 2%nat).

Definition profile_table (table : text) : sql_op (list ColumnProfile) :=
  sql_bind (df_op (table_schema table)) (λ s,
  let '(selects, layout) := build_selects (fields s) [chars "count(*)"] in
  sql_bind (sql (profile_sql table selects)) (λ frame,
  sql_bind (df_op (collect_frame frame)) (λ batches w,
  match find (λ b, (0 <? num_rows b)%nat) batches with
  | None => (Err (Execution "profile query returned no rows"), w)
  | Some row =>
      let total := default 0 (parse_u64 (render_cell row 0)) in
      (Ok (zip_with (column_profile row total) (fields s) layout), w)
  end))).

Fixpoint profile_tables (tables : list text) : sql_op (list ColumnProfile) :=
  match tables with
  | [] => sql_ret []
  | t :: ts => sql_bind (profile_table t) (λ ps, sql_bind (profile_tables ts) (λ rest, sql_ret (ps ++ rest)))
  end.

(** ** The model of one query ([query_dashboard]) *)

Definition query_dashboard (query : text) (tables : list text) : sql_op DashboardModel :=
  sql_bind (sql query) (λ frame,
  sql_bind (df_op (create_physical_plan frame)) (λ p,
  sql_bind (df_op (collect_plan p)) (λ _ w,
  let nodes := plan_summary p in
  let w := with_telemetry (set_plan nodes) w in
  let snap := hub_snapshot (telemetry w) in
  let snap := mkSnapshot (operators_for_plan nodes (snap_operators snap)) (snap_tiers snap) (snap_spill snap) nodes (snap_capacity snap) in
  sql_bind (profile_tables tables) (λ profiles, sql_ret (mkModel snap profiles query)) w))).
End Session.
