(* ===== verification/DashboardCorrect.v ===== *)
(** * What the dashboard says of a query

    The rows of the plan panel determine the plan; the counters beside a node
    are the sums of what the operators of its name recorded; the slots of the
    profile query are read where they were written, whatever the columns are
    called. *)

From Stdlib Require Import SpecFloat.
From S2P Require Import Prelude Floats Arrow Core Telemetry Execs Planner PlacementCorrect Text Tui Render.
From S2P Require Import RenderCorrect Display Dashboard.

(** ** The rows of a plan *)

Section Rows.
Context `{!PlanDisplay}.

Lemma plan_walk_unfold p d : plan_walk p d = node_summary p d :: (plan_children p ≫= λ c, plan_walk c (d + 1)).
Proof.
  destruct p as [| | | | | | | | | | | |name cs props]; cbn [plan_walk plan_children mbind list_bind]; rewrite ?app_nil_r; try done.
Qed.

Inductive PlanTree := PTree (node : PlanNodeSummary) (children : list PlanTree).

(** The tree of a plan's summaries. *)
Inductive tree_of : Z → ExecutionPlan → PlanTree → Prop :=
  | tree_node d p ts : Forall2 (tree_of (d + 1)) (plan_children p) ts → tree_of d p (PTree (node_summary p d) ts).

(** Reading the trees at depth [d] off a list of rows. *)
Fixpoint forest_fuel (fuel : nat) (d : Z) (rows : list PlanNodeSummary) : list PlanTree * list PlanNodeSummary :=
  match fuel, rows with
  | S fuel, n :: rows' =>
      if pn_depth n =? d then
        let '(kids, rest) := forest_fuel fuel (d + 1) rows' in
        let '(siblings, rest) := forest_fuel fuel d rest in
        (PTree n kids :: siblings, rest)
      else ([], rows)
  | _, _ => ([], rows)
  end.
Definition forest (d : Z) (rows : list PlanNodeSummary) : list PlanTree * list PlanNodeSummary := forest_fuel (length rows) d rows.

Lemma forest_fuel_le fuel d rows : (length (forest_fuel fuel d rows).2 ≤ length rows)%nat.
Proof.
  revert d rows. induction fuel as [|fuel IH]; intros d [|n rows]; cbn [forest_fuel snd]; try done.
  destruct (pn_depth n =? d); [|done]. pose proof (IH (d + 1) rows) as H1. destruct (forest_fuel fuel (d + 1) rows) as [ks r1].
  pose proof (IH d r1) as H2. destruct (forest_fuel fuel d r1) as [ss r2]. cbn in *. lia.
Qed.

Lemma forest_fuel_enough f1 : ∀ f2 d rows, (length rows ≤ f1)%nat → (length rows ≤ f2)%nat → forest_fuel f1 d rows = forest_fuel f2 d rows.
Proof.
  induction f1 as [|f1 IH]; intros f2 d [|n rows] H1 H2; cbn in H1, H2; try (destruct f2; done); try lia.
  destruct f2 as [|f2]; [lia|]. cbn [forest_fuel]. destruct (pn_depth n =? d); [|done].
  rewrite (IH f2 (d + 1) rows) by lia. pose proof (forest_fuel_le f2 (d + 1) rows) as Hle.
  destruct (forest_fuel f2 (d + 1) rows) as [ks r1]. cbn in Hle. by rewrite (IH f2 d r1) by lia.
Qed.

Lemma forest_cons d n rows : pn_depth n = d →
  forest d (n :: rows) = (PTree n (forest (d + 1) rows).1 :: (forest d (forest (d + 1) rows).2).1, (forest d (forest (d + 1) rows).2).2).
Proof.
  intros <-. unfold forest at 1. cbn [length forest_fuel]. rewrite Z.eqb_refl. fold (forest (pn_depth n + 1) rows).
  pose proof (forest_fuel_le (length rows) (pn_depth n + 1) rows) as Hle. fold (forest (pn_depth n + 1) rows) in Hle.
  destruct (forest (pn_depth n + 1) rows) as [ks r1]. cbn [fst snd] in *.
  rewrite (forest_fuel_enough (length rows) (length r1)) by lia. fold (forest (pn_depth n) r1). by destruct (forest (pn_depth n) r1).
Qed.

(** Rows that do not start deeper than [d]. *)
Definition no_deeper (d : Z) (rows : list PlanNodeSummary) : Prop := match rows with n :: _ => pn_depth n ≤ d | [] => True end.

Lemma forest_stop d rows : no_deeper d rows → forest (d + 1) rows = ([], rows).
Proof. destruct rows as [|n rows]; [done|]. cbn. intros Hn. unfold forest. cbn. by rewrite (proj2 (Z.eqb_neq _ _)) by lia. Qed.

Lemma forest_walk p : ∀ d rest, no_deeper d rest →
  ∃ t, tree_of d p t ∧ forest d (plan_walk p d ++ rest) = (t :: (forest d rest).1, (forest d rest).2).
Proof.
  induction p as [p IH] using plan_ind'. intros d rest Hrest.
  assert (Hkids : ∃ ts, Forall2 (tree_of (d + 1)) (plan_children p) ts ∧
    forest (d + 1) ((plan_children p ≫= λ c, plan_walk c (d + 1)) ++ rest) = (ts, rest)).
  { induction IH as [|c cs Hc _ (ts & Hts & Hf)]; [exists []; split; [constructor|by apply forest_stop]|].
    cbn [mbind list_bind]. rewrite <- app_assoc.
    destruct (Hc (d + 1) ((cs ≫= λ c, plan_walk c (d + 1)) ++ rest)) as (t & Ht & Hft).
    { destruct cs as [|c' cs]; cbn [mbind list_bind app]; [destruct rest; [done|cbn in *; lia]|]. rewrite plan_walk_unfold. cbn. lia. }
    exists (t :: ts). split; [by constructor|]. by rewrite Hft, Hf. }
  destruct Hkids as (ts & Hts & Hf). exists (PTree (node_summary p d) ts). split; [by constructor|].
  rewrite plan_walk_unfold. cbn [app]. rewrite forest_cons by done. by rewrite Hf.
Qed.

(** The rows of the plan panel determine the plan. *)
Lemma plan_summary_roundtrip p : ∃ t, tree_of 0 p t ∧ forest 0 (plan_summary p) = ([t], []).
Proof. destruct (forest_walk p 0 [] I) as (t & Ht & Hf). rewrite app_nil_r in Hf. by exists t. Qed.
End Rows.

(** ** The counters of a node *)

(** What the operators of a name recorded. *)
Definition recorded_as (name : string) (recorded : list OperatorSnapshot) : list OperatorSnapshot :=
  filter (λ o, sn_name o = name) recorded.

Lemma by_name_lookup recorded name :
  by_name recorded !! name =
    match recorded_as name recorded with
    | [] => None
    | (o :: _) as ops => Some (foldl add_operator (zero_operator name (sn_backend o)) ops)
    end.
Proof.
  unfold by_name, recorded_as. induction recorded as [|op recorded IH] using rev_ind; [done|].
  rewrite foldl_app, filter_app. cbn [foldl]. destruct (decide (sn_name op = name)) as [<-|Hne].
  - rewrite lookup_insert_eq, IH, filter_cons_True, filter_nil by done.
    destruct (filter _ recorded) as [|o ops]; cbn [app]; [done|]. cbn [default]. change (o :: ops ++ [op]) with ((o :: ops) ++ [op]).
    by rewrite foldl_app.
  - rewrite lookup_insert_ne by done. rewrite IH, filter_cons_False, filter_nil by done. by rewrite app_nil_r.
Qed.

(** A counter adds up, the memory of a name is its largest. *)
Lemma foldl_add_counter (f : OperatorSnapshot → Z) ops z :
  (∀ a b, f (add_operator a b) = wadd64 (f a) (f b)) → f (foldl add_operator z ops) = foldl wadd64 (f z) (f <$> ops).
Proof. intros Hf. revert z. induction ops as [|o ops IH]; intros z; [done|]. cbn [foldl fmap list_fmap]. by rewrite IH, Hf. Qed.

Definition counters : list (OperatorSnapshot → Z) :=
  [sn_rows_in; sn_rows_out; sn_batches; sn_elapsed_ns; sn_bytes_h2d; sn_bytes_d2h; sn_fallback_batches].

Lemma counters_add f a b : f ∈ counters → f (add_operator a b) = wadd64 (f a) (f b).
Proof. unfold counters. rewrite !elem_of_cons, elem_of_nil. naive_solver. Qed.

Lemma counters_zero f name b : f ∈ counters → f (zero_operator name b) = 0.
Proof. unfold counters. rewrite !elem_of_cons, elem_of_nil. naive_solver. Qed.

Lemma operators_for_plan_lookup plan recorded i node :
  plan !! i = Some node → ∃ op, operators_for_plan plan recorded !! i = Some op ∧
    sn_id op = Z.of_nat i ∧ sn_name op = pn_name node ∧ sn_backend op = pn_backend node ∧
    (∀ f, f ∈ counters → f op = sum_u64 (f <$> recorded_as (pn_name node) recorded)) ∧
    sn_memory_bytes op = foldl Z.max 0 (sn_memory_bytes <$> recorded_as (pn_name node) recorded).
Proof.
  intros Hi. unfold operators_for_plan. cbv zeta. rewrite list_lookup_imap, Hi. cbn [fmap option_fmap option_map].
  rewrite by_name_lookup. set (ops := recorded_as (pn_name node) recorded).
  set (op := default (zero_operator (pn_name node) (pn_backend node)) _). eexists. split; [reflexivity|].
  cbn [sn_id sn_name sn_backend sn_memory_bytes].
  assert (Hop : sn_name op = pn_name node ∧ (∀ f, f ∈ counters → f op = sum_u64 (f <$> ops)) ∧
                sn_memory_bytes op = foldl Z.max 0 (sn_memory_bytes <$> ops)).
  { unfold op. destruct ops as [|o ops']; cbn [default id].
    - split_and!; [done|intros f Hf; by apply counters_zero|done].
    - set (z := zero_operator _ _). split_and!.
      + assert (∀ l a, sn_name (foldl add_operator a l) = sn_name a) as -> by (induction l as [|x l IH]; intros a; [done|]; cbn [foldl]; by rewrite IH).
        done.
      + intros f Hf. rewrite (foldl_add_counter f) by (intros; by apply counters_add). unfold z. by rewrite counters_zero.
      + assert (∀ l a, sn_memory_bytes (foldl add_operator a l) = foldl Z.max (sn_memory_bytes a) (sn_memory_bytes <$> l)) as -> by
          (induction l as [|x l IH]; intros a; [done|]; cbn [foldl fmap list_fmap]; by rewrite IH).
        done. }
  destruct Hop as (Hn & Hc & Hm). split_and!; [done|done|done| |done].
  intros f Hf. rewrite <- (Hc f Hf). revert Hf. unfold counters. rewrite !elem_of_cons, elem_of_nil. naive_solver.
Qed.

(** *** Totals *)

Definition zsum (l : list Z) : Z := foldr Z.add 0 l.

Lemma sum_u64_wrap l : sum_u64 l = wrap64 (zsum l).
Proof.
  unfold sum_u64, zsum. assert (∀ l a, wrap64 (foldl wadd64 a l) = wrap64 (a + foldr Z.add 0 l)) as H.
  { clear l. induction l as [|x l IH]; intros a; cbn [foldl foldr]; [by rewrite Z.add_0_r|].
    rewrite IH. unfold wadd64, wrap64. rewrite Zplus_mod_idemp_l. f_equal. lia. }
  rewrite <- (Z.add_0_l (foldr _ _ _)), <- H. destruct l as [|x l] using rev_ind; [done|].
  rewrite foldl_app. cbn [foldl]. unfold wadd64, wrap64. by rewrite Zmod_mod.
Qed.

(** How many nodes of the plan have a name. *)
Definition nodes_named (name : string) (plan : list PlanNodeSummary) : Z :=
  Z.of_nat (length (filter (λ n, pn_name n = name) plan)).

Lemma zsum_named (f : OperatorSnapshot → Z) plan recorded :
  zsum ((λ n, zsum (f <$> recorded_as (pn_name n) recorded)) <$> plan)
  = zsum ((λ o, f o * nodes_named (sn_name o) plan) <$> recorded).
Proof.
  unfold zsum, nodes_named. induction plan as [|n plan IH].
  - cbn [fmap list_fmap foldr]. induction recorded as [|o recorded IH]; [done|]. cbn in *. lia.
  - cbn [fmap list_fmap foldr]. rewrite IH. clear IH. unfold recorded_as. induction recorded as [|o recorded IH]; [done|].
    destruct (decide (sn_name o = pn_name n)) as [He|Hne].
    + rewrite (filter_cons_True _ o) by done. cbn [fmap list_fmap foldr]. rewrite (filter_cons_True _ n) by done. cbn [length]. rewrite <- IH. lia.
    + rewrite (filter_cons_False _ o) by done. cbn [fmap list_fmap foldr]. rewrite (filter_cons_False _ n) by congruence. rewrite <- IH. lia.
Qed.

Lemma zsum_wrapped l : wrap64 (zsum (wrap64 <$> l)) = wrap64 (zsum l).
Proof.
  unfold zsum, wrap64. induction l as [|x l IH]; [done|]. cbn [fmap list_fmap foldr].
  rewrite Zplus_mod, Zmod_mod, IH, <- Zplus_mod. done.
Qed.

(** the inspector pairs each node with its own counters.  Row [i] of
    [operators_for_plan] carries the plan's name and backend of node [i] and,
    in every counter, the (wrapping) sum of what the operators of that name
    recorded, over all their partitions, with the largest memory among them.
    Summed over the rows, as the telemetry panel does for the transferred
    bytes, a recorded operator therefore counts once for every node of its
    name: plans with two nodes of one kind show multiples of what was moved. *)
Theorem operators_for_plan_correct plan recorded :
  length (operators_for_plan plan recorded) = length plan ∧
  (∀ i node, plan !! i = Some node → ∃ op, operators_for_plan plan recorded !! i = Some op ∧
     sn_id op = Z.of_nat i ∧ sn_name op = pn_name node ∧ sn_backend op = pn_backend node ∧
     (∀ f, f ∈ counters → f op = sum_u64 (f <$> recorded_as (pn_name node) recorded)) ∧
     sn_memory_bytes op = foldl Z.max 0 (sn_memory_bytes <$> recorded_as (pn_name node) recorded)) ∧
  (∀ f, f ∈ counters → sum_u64 (f <$> operators_for_plan plan recorded)
     = wrap64 (zsum ((λ o, f o * nodes_named (sn_name o) plan) <$> recorded))).
Proof.
  split_and!; [by unfold operators_for_plan; rewrite length_imap|intros; by apply operators_for_plan_lookup|].
  intros f Hf. rewrite sum_u64_wrap, <- zsum_named.
  rewrite <- (zsum_wrapped ((λ n, zsum (f <$> recorded_as (pn_name n) recorded)) <$> plan)), <- list_fmap_compose. do 2 f_equal.
  apply list_eq. intros i. rewrite !list_lookup_fmap. destruct (plan !! i) as [node|] eqn:Hi.
  - destruct (operators_for_plan_lookup plan recorded i node Hi) as (op & -> & _ & _ & _ & Hc & _). cbn [fmap option_fmap option_map].
    f_equal. rewrite (Hc f Hf), sum_u64_wrap. done.
  - rewrite (lookup_ge_None_2 (operators_for_plan _ _)); [done|]. unfold operators_for_plan. rewrite length_imap. by apply lookup_ge_None_1.
Qed.

(** ** Column profiles *)

(** Reading a quoted SQL identifier: a doubled quote stands for one. *)
Fixpoint lex_body (t : text) : option (text * text) :=
  match t with
  | [] => None
  | c :: t =>
      if c =? quote_char then
        match t with
        | c' :: t' => if c' =? quote_char then '(name, rest) ← lex_body t'; Some (quote_char :: name, rest) else Some ([], t)
        | [] => Some ([], [])
        end
      else '(name, rest) ← lex_body t; Some (c :: name, rest)
  end.
Definition lex_identifier (t : text) : option (text * text) :=
  match t with c :: t => if c =? quote_char then lex_body t else None | [] => None end.

Lemma lex_quoted name rest : head rest ≠ Some quote_char → lex_identifier (quoted name ++ rest) = Some (name, rest).
Proof.
  intros Hr. unfold quoted. cbn [app lex_identifier]. rewrite Z.eqb_refl. unfold replace_char.
  induction name as [|c name IH]; cbn [mbind list_bind app lex_body].
  - rewrite Z.eqb_refl. destruct rest as [|c rest]; [done|]. by rewrite (proj2 (Z.eqb_neq c quote_char)) by (intros ->; by destruct Hr).
  - destruct (Z.eqb_spec c quote_char) as [->|Hne]; cbn [app lex_body].
    + rewrite !Z.eqb_refl. by rewrite IH.
    + rewrite (proj2 (Z.eqb_neq _ _)) by done. by rewrite IH.
Qed.

Lemma build_selects_spec fs selects :
  build_selects fs selects = (selects ++ (fs ≫= column_selects), (build_selects fs selects).2) ∧
  ∀ i f, fs !! i = Some f → ∃ first, (build_selects fs selects).2 !! i = Some (first, is_orderable (field_type_of f), is_numeric (field_type_of f)) ∧
    ∀ j e, column_selects f !! j = Some e → (selects ++ (fs ≫= column_selects)) !! (first + j)%nat = Some e.
Proof.
  revert selects. induction fs as [|f fs IH]; intros selects; [split; [cbn; by rewrite app_nil_r|done]|].
  cbn [build_selects mbind list_bind]. destruct (IH (selects ++ column_selects f)) as [Hall Hslot].
  destruct (build_selects fs (selects ++ column_selects f)) as [all layout]. cbn [snd] in *. injection Hall as ->.
  rewrite <- app_assoc in *. split; [done|]. intros [|i] g; cbn [lookup list_lookup].
  - intros [= <-]. exists (length selects). split; [done|]. intros j e He. rewrite lookup_app_r by lia.
    replace (length selects + j - length selects)%nat with j by lia. rewrite lookup_app_l; [done|]. by eapply lookup_lt_Some.
  - intros Hi. destruct (Hslot i g Hi) as (first & Hl & Hc). by exists first.
Qed.

Section Profiles.
Context `{!SqlSession, !PlanDisplay}.

(** The profile of a column, when every expression has a value. *)
Definition profile_of (eval : text → text) (f : Field) : ColumnProfile :=
  let q := quoted (chars (field_name f)) in
  let dt := field_type_of f in
  let number t := default 0 (parse_u64 (eval t)) in
  mkProfile (chars (field_name f)) (data_type_text dt)
    (if is_orderable dt then eval (call "min" q) else []) (if is_orderable dt then eval (call "max" q) else [])
    (Z.max 0 (number (chars "count(*)") - number (call "count" q)))
    (if is_numeric dt then eval (percentile q "0.25") else []) (if is_numeric dt then eval (percentile q "0.5") else [])
    (if is_numeric dt then eval (percentile q "0.99") else []).

(** The select list of a table. *)
Definition table_selects (s : Schema) : list text := chars "count(*)" :: (fields s ≫= column_selects).

Lemma column_profile_spec eval row f first :
  (∀ j e, column_selects f !! j = Some e → render_cell row (first + j) = eval e) →
  column_profile row (default 0 (parse_u64 (eval (chars "count(*)")))) f (first, is_orderable (field_type_of f), is_numeric (field_type_of f))
  = profile_of eval f.
Proof.
  intros Hc. unfold column_profile, profile_of, column_selects in *. set (q := quoted (chars (field_name f))) in *.
  pose proof (Hc 0%nat _ eq_refl) as Hz. rewrite Nat.add_0_r in Hz. rewrite Hz.
  destruct (field_type_of f) as [| | | | |item size|n]; cbn [is_orderable is_numeric orb app fmap list_fmap] in *; try done.
  - rewrite <- !Nat.add_assoc. cbn [Nat.add]. by rewrite (Hc 1%nat _ eq_refl), (Hc 2%nat _ eq_refl), (Hc 3%nat _ eq_refl), (Hc 4%nat _ eq_refl), (Hc 5%nat _ eq_refl).
  - rewrite <- !Nat.add_assoc. cbn [Nat.add]. by rewrite (Hc 1%nat _ eq_refl), (Hc 2%nat _ eq_refl), (Hc 3%nat _ eq_refl), (Hc 4%nat _ eq_refl), (Hc 5%nat _ eq_refl).
  - by rewrite (Hc 1%nat _ eq_refl), (Hc 2%nat _ eq_refl).
Qed.

(** C28: the profile of a column is that column's.  When the engine answers the
    profile query with a row whose cells are the values of the select list,
    [profile_table] returns, for every column in schema order, its own minimum,
    maximum, percentiles and null count, however many expressions the columns
    before it asked for; numbers and orderings are only asked of types that
    have them.  The identifiers in the query read back as the names they
    quote, so a column or table called anything stays an identifier. *)
Theorem profile_table_correct table eval w w1 w2 w3 s frame batches row :
  table_schema table w = (Ok s, w1) →
  sql (profile_sql table (table_selects s)) w1 = (Ok frame, w2) →
  collect_frame frame w2 = (Ok batches, w3) →
  find (λ b, (0 <? num_rows b)%nat) batches = Some row →
  (∀ j e, table_selects s !! j = Some e → render_cell row j = eval e) →
  profile_table table w = (Ok (profile_of eval <$> fields s), w3) ∧
  (∀ name rest, head rest ≠ Some quote_char → lex_identifier (quoted name ++ rest) = Some (name, rest)).
Proof.
  intros Hs Hq Hc Hrow Hcells. split; [|intros; by apply lex_quoted]. unfold profile_table, sql_bind, df_op. rewrite Hs. cbn [map_err].
  destruct (build_selects_spec (fields s) [chars "count(*)"]) as [Hall Hslot]. cbn [app] in Hall, Hslot. fold (table_selects s) in Hall, Hslot.
  rewrite Hall. set (layout := (build_selects (fields s) [chars "count(*)"]).2) in *. rewrite Hq, Hc. cbn [map_err]. rewrite Hrow.
  do 2 f_equal. rewrite (Hcells 0%nat _ eq_refl). apply list_eq. intros i. rewrite lookup_zip_with, list_lookup_fmap.
  destruct (fields s !! i) as [f|] eqn:Hf; [|done]. cbn [mbind option_bind fmap option_fmap option_map].
  destruct (Hslot i f Hf) as (first & -> & Hsel). cbn [mbind option_bind]. f_equal. apply column_profile_spec. intros j e He.
  by apply Hcells, Hsel.
Qed.

(** ** The whole model *)

(** C25: the dashboard of a query shows the query's plan with what the session's
    hub holds about its operators.  When planning, running and profiling
    succeed, [query_dashboard] yields a model whose title is the query and whose
    rows are the executed plan's: read back, a row deeper than the one before it
    being its child, they give the tree of the plan's nodes, each with its name,
    placement tag and detail.  Selecting a row, which is all the event loop makes
    while it is one of the plan's, shows the node's name, tag and detail with
    counters and never an empty inspector.  The counters are those of the node's
    name, not of the node: the sums, and of the memory the maximum, over every
    operator of that name in the hub once the query has run, those of another
    node of the name and of earlier queries included, and zeros for a node that
    reports nothing.  They are what the run recorded where the hub held no
    operator of the name before it. *)
Theorem query_dashboard_correct query tables w w1 w2 w3 w4 frame p bs profiles :
  (∀ f w, telemetry (with_telemetry f w) = f (telemetry w)) →
  sql query w = (Ok frame, w1) →
  create_physical_plan frame w1 = (Ok p, w2) →
  collect_plan p w2 = (Ok bs, w3) →
  profile_tables tables (with_telemetry (set_plan (plan_summary p)) w3) = (Ok profiles, w4) →
  ∃ m, query_dashboard query tables w = (Ok m, w4) ∧
    dm_plan m = plan_summary p ∧ dm_profiles m = profiles ∧ dm_title m = query ∧
    (∃ t, tree_of 0 p t ∧ forest 0 (dm_plan m) = ([t], [])) ∧
    ∀ st, 0 ≤ selected st < Z.of_nat (length (dm_plan m)) →
      ∃ node op, dm_plan m !! Z.to_nat (selected st) = Some node ∧ inspector_lines st m = node_lines node op ∧
        sn_backend op = pn_backend node ∧
        let held := snap_operators (hub_snapshot (telemetry w3)) in
        (∀ f, f ∈ counters → f op = sum_u64 (f <$> recorded_as (pn_name node) held)) ∧
        sn_memory_bytes op = foldl Z.max 0 (sn_memory_bytes <$> recorded_as (pn_name node) held) ∧
        ∀ before run f, held = before ++ run → recorded_as (pn_name node) before = [] → f ∈ counters →
          f op = sum_u64 (f <$> recorded_as (pn_name node) run).
Proof.
  intros Hlaw Hq Hp Hb Hprof. eexists. split.
  { unfold query_dashboard, sql_bind, df_op. rewrite Hq, Hp. cbn [map_err]. rewrite Hb. cbn [map_err]. rewrite Hprof. reflexivity. }
  unfold dm_plan, dm_operator. cbn [dm_telemetry dm_profiles dm_title snap_plan]. split_and!; [done..|apply plan_summary_roundtrip|]. intros st Hst.
  destruct (lookup_lt_is_Some_2 (plan_summary p) (Z.to_nat (selected st))) as [node Hnode]; [lia|].
  set (recorded := snap_operators (hub_snapshot (telemetry (with_telemetry (set_plan (plan_summary p)) w3)))).
  destruct (operators_for_plan_lookup (plan_summary p) recorded _ node Hnode) as (op & Hop & _ & _ & Hbk & Hc & Hm).
  assert (recorded = snap_operators (hub_snapshot (telemetry w3))) as Hrec by (unfold recorded; by rewrite Hlaw).
  rewrite Hrec in Hc, Hm. exists node, op. split_and!; [done| |done|exact Hc|exact Hm|].
  - unfold inspector_lines, dm_plan, dm_operator. cbn [dm_telemetry snap_plan snap_operators]. by rewrite Hnode, Hop.
  - intros before run f Heq Hnone Hf. rewrite (Hc f Hf), Heq. unfold recorded_as in *. by rewrite filter_app, Hnone.
Qed.
End Profiles.

(** ** A session over one table *)

Module DashboardExample.

Definition s_schema : Schema := Schema_new [Field_new "k" Int64 true; Field_new "s" Utf8 false].

(** The engine's answer to an expression: how long it is. *)
Definition answer (e : text) : text := decimal (Z.of_nat (length e)).

Definition answer_row : RecordBatch :=
  let cells := (λ e, mkArray Utf8 [Some (VStr (to_string (answer e)))]) <$> (chars "count(*)" :: (fields s_schema ≫= column_selects)) in
  mkBatch (Schema_new ((λ _, Field_new "x" Utf8 true) <$> cells)) cells 1.

Definition scan : ExecutionPlan := OtherExec "DataSourceExec" [] (mkProperties s_schema (UnknownPartitioning 1) Incremental).
Definition query_plan : ExecutionPlan := OtherExec "CoalescePartitionsExec" [scan] (mkProperties s_schema (UnknownPartitioning 1) Incremental).

#[local] Instance display : PlanDisplay := {|
  df_name := λ p, match p with OtherExec name _ _ => name | _ => "Exec" end;
  df_fmt_as := λ _ p, match p with OtherExec name _ _ => chars name ++ chars ": rows" | _ => [] end;
  one_line := λ t, t ++ [10];
|}.

#[local] Instance session : SqlSession := {|
  SqlWorld := TelemetryHub;
  Frame := text;
  sql := λ t w, (Ok t, w);
  create_physical_plan := λ _ w, (Ok query_plan, w);
  collect_frame := λ _ w, (Ok [mkBatch s_schema [] 0; answer_row], w);
  collect_plan := λ _ w, (Ok [], w);
  table_schema := λ _ w, (Ok s_schema, w);
  telemetry := id;
  with_telemetry := λ f w, f w;
  format_first := λ a, match values a with Some (VStr s) :: _ => Some (chars s) | _ => None end;
  data_type_text := λ _, chars "type";
|}.

(** The hub before and after the plan is set. *)
Definition hub : SqlWorld := TelemetryHub_new.
Definition planned : SqlWorld := set_plan (plan_summary query_plan) TelemetryHub_new.

Lemma profile_table_correct_witness :
  profile_table (chars "t") hub = (Ok (profile_of answer <$> fields s_schema), hub) ∧
  lex_identifier (quoted [34; 59] ++ chars " x") = Some ([34; 59], chars " x").
Proof.
  destruct (profile_table_correct (chars "t") answer hub hub hub hub s_schema
    (profile_sql (chars "t") (table_selects s_schema)) [mkBatch s_schema [] 0; answer_row] answer_row
    eq_refl eq_refl eq_refl eq_refl) as [Hp Hq].
  - intros j e. do 10 (destruct j as [|j]; [intros [= <-]; by vm_compute|]). done.
  - split; [exact Hp|]. apply Hq. by vm_compute.
Defined.

Lemma query_dashboard_correct_witness :
  ∃ m, query_dashboard (chars "SELECT 1") [chars "t"] hub = (Ok m, planned) ∧ dm_plan m = plan_summary query_plan ∧
    ∃ node op, dm_plan m !! 1%nat = Some node ∧
      inspector_lines (mkState 2 1 PlanDag false) m = node_lines node op ∧ sn_rows_in op = 0.
Proof.
  destruct (query_dashboard_correct (chars "SELECT 1") [chars "t"] hub hub hub hub
    planned (chars "SELECT 1") query_plan []
    (profile_of answer <$> fields s_schema)) as (m & Hm & Hplan & _ & _ & _ & Hsel).
  - done.
  - done.
  - done.
  - done.
  - by vm_compute.
  - exists m. split; [exact Hm|]. split; [exact Hplan|].
    destruct (Hsel (mkState 2 1 PlanDag false)) as (node & op & Hnode & Hlines & _ & Hc & _).
    { rewrite Hplan. vm_compute. split; [discriminate|reflexivity]. }
    exists node, op. split; [exact Hnode|]. split; [exact Hlines|]. rewrite (Hc sn_rows_in) by (by left). reflexivity.
Defined.

(** A query before this one ran an operator of the same name: its rows are shown
    beside the node, although this run recorded nothing. *)
Example earlier_query_shows :
  let earlier := (register_operator "DataSourceExec" CpuSimd TelemetryHub_new).2 in
  let ran := mkHub (record_batch 7 7 1 <$> hub_heap earlier) (operators earlier) (next_operator_id earlier) (tiers earlier)
               (spill earlier) (plan earlier) (skips earlier) (capacity earlier) in
  match (query_dashboard (chars "SELECT 1") [] (ran : SqlWorld)).1 with
  | Ok m => sn_rows_in <$> snap_operators (dm_telemetry m) = [0; 7]
  | _ => False
  end.
Proof. by vm_compute. Qed.

(** Two nodes of one name: the totals of the telemetry panel count what was
    moved once for each. *)
Example transferred_twice :
  let node d := mkPlanNode d "GpuHashJoinExec" Cuda "" in
  let op := mkOpSnapshot 0 "GpuHashJoinExec" Cuda 0 0 1 0 500 0 0 0 in
  sum_u64 (sn_bytes_h2d <$> operators_for_plan [node 0; node 1] [op]) = 1000.
Proof. by vm_compute. Qed.
End DashboardExample.
