(* ===== verification/Session.v ===== *)
(** * oxidelake-runtime: sessions, in process and on a cluster

    Models [src/crates/oxidelake-runtime/src/session.rs], the session
    configuration and pruning counters of
    [src/crates/oxidelake-storage/src/session.rs] and the session state the
    scheduler builds ([cluster.rs]).  DataFusion's and Ballista's part
    (planning, running, the connection) is the operations of [SessionApi] over
    the process state [World]; of a configuration only the options the source
    sets are kept, of a log line everything but the clock.  The second part
    has the properties. *)

From S2P Require Import Prelude Floats Arrow Core Telemetry Memory ArrowKernels Kernels Device Execs Planner.
From S2P Require Import PlacementCorrect Udf.

(** ** Configuration ([storage/src/session.rs]) *)

Record SessionConfig := mkSessionConfig {
  sc_batch_size : Z;
  sc_parquet_pruning : bool;
  sc_bloom_filter_pruning : bool;
  sc_page_index_pruning : bool;
  sc_leaf_expression_pushdown : bool;
  (** the codec of the placement rule's nodes is installed *)
  sc_oxide_codec : bool;
}.

Definition set_pruning (b : bool) (c : SessionConfig) : SessionConfig :=
  mkSessionConfig (sc_batch_size c) b b b (sc_leaf_expression_pushdown c) (sc_oxide_codec c).
Definition set_batch_size (rows : Z) (c : SessionConfig) : SessionConfig :=
  mkSessionConfig rows (sc_parquet_pruning c) (sc_bloom_filter_pruning c) (sc_page_index_pruning c)
    (sc_leaf_expression_pushdown c) (sc_oxide_codec c).
Definition set_codec (c : SessionConfig) : SessionConfig :=
  mkSessionConfig (sc_batch_size c) (sc_parquet_pruning c) (sc_bloom_filter_pruning c) (sc_page_index_pruning c)
    (sc_leaf_expression_pushdown c) true.

Definition with_pruning (c : SessionConfig) : SessionConfig :=
  set_pruning true
    (mkSessionConfig (sc_batch_size c) (sc_parquet_pruning c) (sc_bloom_filter_pruning c) (sc_page_index_pruning c) false (sc_oxide_codec c)).
Definition with_pruning_disabled (c : SessionConfig) : SessionConfig := set_pruning false c.
Definition GPU_BATCH_SIZE : Z := 65536.
Definition with_gpu_batch_size (c : SessionConfig) : SessionConfig := set_batch_size GPU_BATCH_SIZE c.

(** *** Errors of files ([storage/src/errors.rs]) *)

(** The errors [classify_error] takes apart: messages are the crates' own, an
    [OtherError] is any other. *)
Inductive ArrowFailure := ArrowIo (kind : ErrorKind) | ArrowOther (msg : string).
Inductive ObjectStoreFailure := StoreNotFound (path source : string) | StoreOther (msg : string).
Inductive FileError :=
  | ParquetError (msg : string)
  | ArrowError' (e : ArrowFailure) (context : option string)
  | IoError (kind : ErrorKind)
  | ObjectStoreError (e : ObjectStoreFailure)
  | Context (msg : string) (inner : FileError)
  | ExternalEngine (e : EngineError)
  | OtherError (e : DataFusionError).

Fixpoint classify_error (e : FileError) : EngineError :=
  match e with
  | ParquetError msg => Format ("parquet: " +:+ msg)
  | ArrowError' (ArrowIo kind) _ => Io kind
  | ArrowError' (ArrowOther msg) ctx =>
      Format ("arrow: " +:+ msg +:+ match ctx with Some c => " (" +:+ c +:+ ")" | None => EmptyString end)
  | IoError kind => Io kind
  | ObjectStoreError (StoreNotFound _ _) => Io IoNotFound
  | ObjectStoreError (StoreOther _) => Io IoOther
  | Context _ inner => classify_error inner
  | ExternalEngine e => e
  | OtherError e => DataFusion e
  end.

(** *** Pruning counters *)

Record PruningSummary := mkPruning {
  row_groups_pruned_statistics : Z;
  row_groups_matched_statistics : Z;
  row_groups_pruned_bloom_filter : Z;
  row_groups_matched_bloom_filter : Z;
  page_index_rows_pruned : Z;
  page_index_rows_matched : Z;
}.
Definition PruningSummary_default : PruningSummary := mkPruning 0 0 0 0 0 0.
Definition row_groups_pruned (s : PruningSummary) : Z :=
  wadd64 (row_groups_pruned_statistics s) (row_groups_pruned_bloom_filter s).

(** A metric the visitor looks at: its name, what it pruned and what matched. *)
Inductive Metric := PruningMetrics (name : string) (pruned matched : Z) | OtherMetric.

Definition pre_visit_metric (s : PruningSummary) (m : Metric) : PruningSummary :=
  match m with
  | PruningMetrics name pruned matched =>
      let 'mkPruning a b c d e f := s in
      if decide (name = "row_groups_pruned_statistics") then mkPruning (wadd64 a pruned) (wadd64 b matched) c d e f
      else if decide (name = "row_groups_pruned_bloom_filter") then mkPruning a b (wadd64 c pruned) (wadd64 d matched) e f
      else if decide (name = "page_index_rows_pruned") then mkPruning a b c d (wadd64 e pruned) (wadd64 f matched)
      else s
  | OtherMetric => s
  end.

(** [metrics]: what a node's [metrics()] returns. *)
Definition pre_visit (metrics : ExecutionPlan → option (list Metric)) (s : PruningSummary) (p : ExecutionPlan) : PruningSummary :=
  match metrics p with Some ms => foldl pre_visit_metric s ms | None => s end.

(** [accept]: a node before its children, left to right. *)
Fixpoint accept (metrics : ExecutionPlan → option (list Metric)) (p : ExecutionPlan) (s : PruningSummary) : PruningSummary :=
  let walk := fix walk (cs : list ExecutionPlan) (s : PruningSummary) : PruningSummary :=
    match cs with [] => s | c :: cs => walk cs (accept metrics c s) end in
  let s := pre_visit metrics s p in
  match p with
  | FilterExec i _ _ _ | ProjectionExec i _ _ | SortExec i _ _ | AggregateExec i _ _
  | RepartitionExec i _ | CoalescePartitionsExec i _ => accept metrics i s
  | HashJoinExec l r _ _ | SortMergeJoinExec l r _ _ => accept metrics r (accept metrics l s)
  | GpuFilter e => accept metrics (gf_input e) s
  | GpuJoin e => accept metrics (gj_right e) (accept metrics (gj_left e) s)
  | GpuAggregate e => accept metrics (ga_input e) s
  | GpuVector e => accept metrics (gv_input e) s
  | OtherExec _ cs _ => walk cs s
  end.

Definition scan_pruning_metrics (metrics : ExecutionPlan → option (list Metric)) (p : ExecutionPlan) : PruningSummary :=
  accept metrics p PruningSummary_default.

(** ** Sessions ([session.rs]) *)

Inductive SessionMode := Embedded (target : BackendKind) | Cluster (scheduler_url : string).

Definition SessionMode_to_string (m : SessionMode) : string :=
  match m with Embedded target => "embedded/" +:+ as_str target | Cluster url => "cluster/" +:+ url end.

Record SessionOptions := mkOptions { so_target : option BackendKind; so_batch_size : option Z }.
Definition SessionOptions_new : SessionOptions := mkOptions None None.
Definition with_target (t : BackendKind) (o : SessionOptions) : SessionOptions := mkOptions (Some t) (so_batch_size o).
Definition with_batch_size (rows : Z) (o : SessionOptions) : SessionOptions := mkOptions (so_target o) (Some rows).

Definition apply_options (o : SessionOptions) (c : SessionConfig) (target : option BackendKind) : result SessionConfig :=
  match so_batch_size o with
  | Some rows =>
      if rows =? 0 then Err (Plan "batch size must be at least 1 row (0 would make every query return nothing)")
      else Ok (set_batch_size rows c)
  | None => if match target with Some t => is_gpu t | None => false end then Ok (with_gpu_batch_size c) else Ok c
  end.

(** The context is the state it was built with. *)
Record SessionState := mkSessionState {
  ss_config : SessionConfig;
  ss_rules : list OptimizerRule;
  ss_udfs : list string;
  (** the tables registered since, name and path *)
  ss_tables : list (string * string);
}.

Record OxideSession := mkSession { ses_state : SessionState; ses_mode : SessionMode; ses_telemetry : HubRef }.

(** The line [collect] logs. *)
Record QueryLog := mkQueryLog {
  ql_mode : string; ql_rows : Z; ql_batches : Z; ql_gpu_operators : Z; ql_fallback_batches : Z }.

Class SessionApi := {
  (** [SessionConfig::new], [new_with_ballista] and the default rules *)
  config_new : SessionConfig;
  config_new_with_ballista : SessionConfig;
  default_rules : list OptimizerRule;
  (** connecting to a scheduler *)
  remote_with_state : string → SessionState → World → World * df_result unit;
  (** [ctx.sql(query)], [collect] of the frame, and the text of its plan; the
      rules and operators they run report to the hubs of the world *)
  Frame : Type;
  ctx_sql : OxideSession → string → World → World * df_result Frame;
  frame_schema : Frame → Schema;
  frame_collect : Frame → World → World * df_result (list RecordBatch);
  frame_plan_text : Frame → World → World * df_result string;
  (** [ctx.register_parquet(name, path)] *)
  ctx_register_parquet : OxideSession → string → string → World → World * res FileError unit;
}.

Section Session.
Context `{Hardware, Allocator, CudaDriver, ArrowKernels, HashOrder, !SessionApi}.
(** [OXIDE_BACKEND], and whether the [predict] feature is on. *)
Context (env : option string) (feature_predict : bool).

Definition local_capacity (w : World) : World * TierCapacity :=
  let '(w, backend) := local_backend env w in
  match backend with
  | Ok g =>
      match gb_memory_info g with
      | Ok info =>
          (w, if is_gpu (gb_kind g) then mkCapacity (Some (total_bytes info)) None false
              else mkCapacity None (Some (total_bytes info)) false)
      | _ => (w, TierCapacity_default)
      end
  | _ => (w, TierCapacity_default)
  end.

(** [TelemetryHub::new]. *)
Definition new_hub (w : World) : World * HubRef := (mkWorld (w_local w) (w_hubs w ++ [TelemetryHub_new]), length (w_hubs w)).
Definition on_hub (h : HubRef) (f : TelemetryHub → TelemetryHub) (w : World) : World := mkWorld (w_local w) (alter f h (w_hubs w)).

Definition local_with_options (o : SessionOptions) (w : World) : World * result OxideSession :=
  let '(w, target) :=
    match so_target o with
    | Some t => (w, Ok t)
    | None => let '(w, g) := local_backend env w in (w, gb_kind <$> g)
    end in
  match target with
  | Err e => (w, Err e)
  | Panic => (w, Panic)
  | Ok target =>
      let '(w, hub) := new_hub w in
      let '(w, capacity) := local_capacity w in
      let w := on_hub hub (set_capacity capacity) w in
      let rule := rule_with_telemetry (HardwarePlacementRule_new target) hub in
      (w,
       config ← apply_options o (with_pruning config_new) (Some target);
       Ok (mkSession (mkSessionState config (physical_optimizer_rules default_rules rule) (oxide_udfs feature_predict) [])
             (Embedded target) hub))
  end.

Definition local (w : World) : World * result OxideSession := local_with_options SessionOptions_new w.
Definition local_with_target (t : BackendKind) (w : World) : World * result OxideSession :=
  local_with_options (with_target t SessionOptions_new) w.

Definition connect_with_options (scheduler_url : string) (o : SessionOptions) (w : World) : World * result OxideSession :=
  match apply_options o (set_codec (with_pruning config_new_with_ballista)) None with
  | Err e => (w, Err e)
  | Panic => (w, Panic)
  | Ok config =>
      let '(w, connected) := remote_with_state scheduler_url (mkSessionState config default_rules [] []) w in
      match connected with
      | Err e => (w, Err (DataFusion e))
      | Panic => (w, Panic)
      | Ok _ =>
          let '(w, hub) := new_hub w in
          (w, Ok (mkSession (mkSessionState config default_rules (oxide_udfs feature_predict) []) (Cluster scheduler_url) hub))
      end
  end.

(** *** Tables *)

Definition with_table (name path : string) (s : OxideSession) : OxideSession :=
  let 'mkSessionState config rules udfs tables := ses_state s in
  mkSession (mkSessionState config rules udfs (tables ++ [(name, path)])) (ses_mode s) (ses_telemetry s).

(** [register_parquet_table]; the context gains the table. *)
Definition register_parquet (s : OxideSession) (name path : string) (w : World) : World * result OxideSession :=
  let '(w, r) := ctx_register_parquet s name path w in
  (w, _ ← map_err classify_error r; Ok (with_table name path s)).

(** *** Queries *)

Definition hub_of (s : OxideSession) (w : World) : TelemetryHub := default TelemetryHub_new (w_hubs w !! ses_telemetry s).

(** [collect]: the result, and the line it logs when the query succeeds. *)
Definition collect (s : OxideSession) (query : string) (w : World) :
    World * result (Schema * list RecordBatch) * option QueryLog :=
  let '(w, frame) := ctx_sql s query w in
  match frame with
  | Err e => (w, Err (DataFusion e), None)
  | Panic => (w, Panic, None)
  | Ok frame =>
      let schema := frame_schema frame in
      let '(w, batches) := frame_collect frame w in
      match batches with
      | Err e => (w, Err (DataFusion e), None)
      | Panic => (w, Panic, None)
      | Ok batches =>
          let operators := snap_operators (hub_snapshot (hub_of s w)) in
          (w, Ok (schema, batches),
           Some (mkQueryLog (SessionMode_to_string (ses_mode s))
                   (foldl (λ n b, wadd64 n (Z.of_nat (num_rows b))) 0 batches) (Z.of_nat (length batches))
                   (Z.of_nat (length (filter (λ o, is_gpu (sn_backend o) = true) operators)))
                   (foldl (λ n o, wadd64 n (sn_fallback_batches o)) 0 operators)))
      end
  end.

Definition placement_notes (s : OxideSession) (w : World) : string :=
  match skips (hub_of s w) with
  | [] => EmptyString
  | sks =>
      nl +:+ "placement notes (target "
      +:+ match ses_mode s with Embedded target => as_str target | Cluster _ => "on the scheduler" end
      +:+ "):" +:+ nl
      +:+ concat_strings ((λ sk, "  " +:+ skip_node sk +:+ ": " +:+ skip_reason sk +:+ nl) <$> sks)
  end.

Definition explain (s : OxideSession) (query : string) (w : World) : World * result string :=
  let w := on_hub (ses_telemetry s) clear_skips w in
  let '(w, frame) := ctx_sql s query w in
  match frame with
  | Err e => (w, Err (DataFusion e))
  | Panic => (w, Panic)
  | Ok frame =>
      let '(w, text) := frame_plan_text frame w in
      match text with
      | Err e => (w, Err (DataFusion e))
      | Panic => (w, Panic)
      | Ok text => (w, Ok (text +:+ placement_notes s w))
      end
  end.
End Session.

(** [pruning_session] of the storage crate: a context without the rules. *)
Definition pruning_session `{!SessionApi} : SessionState := mkSessionState (with_pruning config_new) default_rules [] [].

(** ** The scheduler's sessions ([cluster.rs]) *)

(** [session_config], and the state built from it; [functions] are Ballista's
    own scalar functions. *)
Definition session_config `{!SessionApi} : SessionConfig := set_codec (with_pruning config_new_with_ballista).
Definition build_session_state `{!SessionApi} (feature_predict : bool) (functions : list string)
    (config : SessionConfig) (target : BackendKind) : SessionState :=
  mkSessionState (if is_gpu target then with_gpu_batch_size config else config)
    (physical_optimizer_rules default_rules (HardwarePlacementRule_new target))
    (functions ++ oxide_udfs feature_predict) [].

(** ** What a session is built with, and what it reports

    The configuration of every session the code builds; the notes under an
    [EXPLAIN], which are this query's; the line [collect] logs, which sums over
    every query of the session. *)

(** ** Pruning counters *)

(** The nodes of a plan, a node before its children. *)
Inductive preorder : ExecutionPlan → list ExecutionPlan → Prop :=
  | pre_node p ls : Forall2 preorder (plan_children p) ls → preorder p (p :: concat ls).

Lemma accept_unfold metrics p s :
  accept metrics p s = foldl (λ s c, accept metrics c s) (pre_visit metrics s p) (plan_children p).
Proof.
  destruct p as [| | | | | | | | | | | |name cs props]; cbn [accept plan_children foldl]; try done.
  generalize (pre_visit metrics s (OtherExec name cs props)) as s0. induction cs as [|c cs IH]; intros s0; [done|]. cbn [foldl]. by rewrite <- IH.
Qed.

Lemma accept_preorder metrics p : ∃ l, preorder p l ∧ ∀ s, accept metrics p s = foldl (pre_visit metrics) s l.
Proof.
  induction p as [p IH] using plan_ind'.
  assert (∃ ls, Forall2 preorder (plan_children p) ls ∧
    ∀ s, foldl (λ s c, accept metrics c s) s (plan_children p) = foldl (pre_visit metrics) s (concat ls)) as (ls & Hls & Hf).
  { induction IH as [|c cs (l & Hl & Hc) _ (ls & Hls & Hf)]; [by exists []|]. exists (l :: ls). split; [by constructor|].
    intros s. cbn [foldl concat]. by rewrite foldl_app, Hc, Hf. }
  exists (p :: concat ls). split; [by constructor|]. intros s. rewrite accept_unfold. cbn [foldl]. by rewrite Hf.
Qed.

(** What the metrics of one name add up to. *)
Definition pruned_as (name : string) (m : Metric) : Z :=
  match m with PruningMetrics n pruned _ => if decide (n = name) then pruned else 0 | OtherMetric => 0 end.
Definition matched_as (name : string) (m : Metric) : Z :=
  match m with PruningMetrics n _ matched => if decide (n = name) then matched else 0 | OtherMetric => 0 end.
Definition total (f : Metric → Z) (ms : list Metric) : Z := foldr Z.add 0 (f <$> ms).

Definition summary_of (ms : list Metric) : PruningSummary :=
  let p name := wrap64 (total (pruned_as name) ms) in
  let m name := wrap64 (total (matched_as name) ms) in
  mkPruning (p "row_groups_pruned_statistics") (m "row_groups_pruned_statistics")
    (p "row_groups_pruned_bloom_filter") (m "row_groups_pruned_bloom_filter")
    (p "page_index_rows_pruned") (m "page_index_rows_pruned").

Lemma total_snoc f ms m : wrap64 (total f (ms ++ [m])) = wadd64 (wrap64 (total f ms)) (f m).
Proof.
  unfold wadd64, wrap64, total. rewrite Zplus_mod_idemp_l. f_equal. rewrite fmap_app. cbn [fmap list_fmap].
  induction (f <$> ms) as [|x l IH]; cbn; lia.
Qed.

Lemma wadd64_wrap_0 a : wadd64 (wrap64 a) 0 = wrap64 a.
Proof. unfold wadd64, wrap64. by rewrite Z.add_0_r, Zmod_mod. Qed.

Lemma summary_snoc ms m : pre_visit_metric (summary_of ms) m = summary_of (ms ++ [m]).
Proof.
  unfold summary_of at 2. cbv zeta. rewrite !total_snoc. unfold summary_of, pre_visit_metric.
  destruct m as [name pruned matched|]; cbn [pruned_as matched_as]; [|by rewrite !wadd64_wrap_0].
  destruct (decide (name = "row_groups_pruned_statistics")) as [->|];
    [|destruct (decide (name = "row_groups_pruned_bloom_filter")) as [->|];
      [|destruct (decide (name = "page_index_rows_pruned")) as [->|]]];
    cbn [decide decide_rel]; repeat (rewrite decide_False by done); repeat (rewrite decide_True by done); by rewrite ?wadd64_wrap_0.
Qed.

Lemma fold_metrics ms : ∀ ms0, foldl pre_visit_metric (summary_of ms0) ms = summary_of (ms0 ++ ms).
Proof.
  induction ms as [|m ms IH]; intros ms0; cbn [foldl]; [by rewrite app_nil_r|]. by rewrite summary_snoc, IH, <- app_assoc.
Qed.

(** the pruning counters of an executed plan are the sums over all its
    nodes: each of the three mechanisms' pruned and matched counts is the
    (wrapping) total of the metrics of its name, over every scan of the plan
    and every metric of a scan, and no other metric contributes. *)
Theorem scan_pruning_metrics_correct metrics p :
  ∃ nodes, preorder p nodes ∧
    scan_pruning_metrics metrics p = summary_of (nodes ≫= λ n, default [] (metrics n)).
Proof.
  destruct (accept_preorder metrics p) as (l & Hl & Ha). exists l. split; [done|]. unfold scan_pruning_metrics. rewrite Ha.
  assert (∀ ms0, foldl (pre_visit metrics) (summary_of ms0) l = summary_of (ms0 ++ (l ≫= λ n, default [] (metrics n)))) as H; [|exact (H [])].
  clear. induction l as [|n l IH]; intros ms0; cbn [foldl mbind list_bind]; [by rewrite app_nil_r|].
  unfold pre_visit at 2. destruct (metrics n) as [ms|]; cbn [default id app]; [|apply IH]. by rewrite fold_metrics, IH, <- app_assoc.
Qed.

(** ** Building sessions *)

(** The rows per batch a session works with. *)
Definition session_batch_size (default : Z) (o : SessionOptions) (target : option BackendKind) : Z :=
  match so_batch_size o with
  | Some rows => rows
  | None => if match target with Some t => is_gpu t | None => false end then GPU_BATCH_SIZE else default
  end.

(** Pruning is on and projections stay where the placement rule sees them. *)
Definition prunes (c : SessionConfig) : Prop :=
  sc_parquet_pruning c = true ∧ sc_bloom_filter_pruning c = true ∧ sc_page_index_pruning c = true ∧ sc_leaf_expression_pushdown c = false.

Lemma apply_options_spec o c target :
  if bool_decide (so_batch_size o = Some 0) then ∃ msg, apply_options o c target = Err (Plan msg)
  else apply_options o c target = Ok (set_batch_size (session_batch_size (sc_batch_size c) o target) c).
Proof.
  unfold apply_options, session_batch_size. destruct (so_batch_size o) as [rows|].
  - destruct (Z.eqb_spec rows 0) as [->|Hne]; [rewrite bool_decide_eq_true_2 by done; by eexists|].
    by rewrite bool_decide_eq_false_2 by congruence.
  - rewrite bool_decide_eq_false_2 by done. destruct (match target with Some t => is_gpu t | None => false end); [done|]. by destruct c.
Qed.

(** The capacities a hub reports are what the backend says, of the tier it has. *)
Definition capacity_of (g : GpuBackend) (c : TierCapacity) : Prop :=
  spill_on_query_path c = false ∧
  (∀ n, cap_device_bytes c = Some n → is_gpu (gb_kind g) = true ∧ ∃ i, gb_memory_info g = Ok i ∧ n = total_bytes i) ∧
  (∀ n, cap_host_bytes c = Some n → is_gpu (gb_kind g) = false ∧ ∃ i, gb_memory_info g = Ok i ∧ n = total_bytes i).

Section Build.
Context `{Hardware, Allocator, CudaDriver, ArrowKernels, HashOrder, !SessionApi} (env : option string) (feature_predict : bool).

Lemma local_backend_hubs w w1 r : local_backend env w = (w1, r) → w_hubs w1 = w_hubs w.
Proof. unfold local_backend. destruct (w_local w); by intros [= <- _]. Qed.

(** The selection is made once: it is the answer ever after. *)
Lemma local_backend_again w w1 r hubs : local_backend env w = (w1, r) → (local_backend env (mkWorld (w_local w1) hubs)).2 = r.
Proof. unfold local_backend. destruct (w_local w) as [l|] eqn:Hl; intros [= <- <-]; cbn [w_local]; [by rewrite Hl|done]. Qed.

Lemma local_backend_same w hubs : (local_backend env (mkWorld (w_local w) hubs)).2 = (local_backend env w).2.
Proof. unfold local_backend. cbn [w_local]. by destruct (w_local w). Qed.

Lemma local_capacity_spec w w1 c : local_capacity env w = (w1, c) →
  w_hubs w1 = w_hubs w ∧ ((∃ g, (local_backend env w).2 = Ok g ∧ capacity_of g c) ∨ c = TierCapacity_default).
Proof.
  unfold local_capacity. destruct (local_backend env w) as [w2 r] eqn:Hb. pose proof (local_backend_hubs _ _ _ Hb) as Hh.
  destruct r as [g|e|]; [|intros [= <- <-]; by split; [done|right]..].
  destruct (gb_memory_info g) as [i|e|] eqn:Hi; [|intros [= <- <-]; by split; [done|right]..].
  intros [= <- <-]. split; [done|left]. exists g. split; [done|]. unfold capacity_of.
  destruct (is_gpu (gb_kind g)) eqn:Hg; cbn; (split_and!; [done| |]); intros n Hn; simplify_eq; split; [done| |done|]; by exists i.
Qed.

(** What a session that plans on a scheduler is built with: pruning, the plan
    codec and the rows per batch the client asked for, else DataFusion's. *)
Definition connects_with (o : SessionOptions) (c : SessionConfig) : Prop :=
  prunes c ∧ sc_oxide_codec c = true ∧ sc_batch_size c = session_batch_size (sc_batch_size config_new_with_ballista) o None.

(** C29: every session is configured the way the placement and the scans need
    it.  An embedded session plans for the requested backend or else the
    detected one, with pruning on, leaf pushdown off, the placement rules for
    that backend last and reporting to the session's own new hub, whose gauges
    have a capacity only where the backend named one; its batches have the
    requested size, else the GPU size for a GPU target, else DataFusion's.  A
    session on a cluster connects with pruning on, the plan codec and the
    requested batch size, else DataFusion's, under DataFusion's own rules, and
    keeps that configuration, with the SQL functions and a new empty hub; where
    the connection fails it is that error.  A batch size of zero is refused by
    both, on a cluster before anything is connected.  The scheduler's sessions
    start from a configuration with pruning and the codec, keep both, and carry
    the placement rules for the scheduler's target and the SQL functions; for a
    GPU target their batches have the GPU size, whatever the client asked
    for. *)
Theorem session_configuration o w :
  (let '(w', r) := local_with_options env feature_predict o w in
   match so_target o with Some t => True | None => ∃ g w1, local_backend env w = (w1, Ok g) end →
   if bool_decide (so_batch_size o = Some 0) then ∃ msg, r = Err (Plan msg)
   else ∃ s t hub,
     r = Ok s ∧ ses_mode s = Embedded t ∧
     (so_target o = Some t ∨ so_target o = None ∧ ∃ g w1, local_backend env w = (w1, Ok g) ∧ t = gb_kind g) ∧
     prunes (ss_config (ses_state s)) ∧
     sc_batch_size (ss_config (ses_state s)) = session_batch_size (sc_batch_size config_new) o (Some t) ∧
     ss_rules (ses_state s) = physical_optimizer_rules default_rules (mkRule t (Some (ses_telemetry s))) ∧
     ses_telemetry s = length (w_hubs w) ∧ w_hubs w' = w_hubs w ++ [hub] ∧
     operators hub = [] ∧ skips hub = [] ∧
     (Telemetry.capacity hub = TierCapacity_default ∨ ∃ g, (local_backend env w).2 = Ok g ∧ capacity_of g (Telemetry.capacity hub))) ∧
  (∀ url, let '(w', r) := connect_with_options feature_predict url o w in
   if bool_decide (so_batch_size o = Some 0) then w' = w ∧ ∃ msg, r = Err (Plan msg)
   else ∃ st, connects_with o (ss_config st) ∧ ss_rules st = default_rules ∧
     let '(w1, connected) := remote_with_state url st w in
     match connected with
     | Ok _ => ∃ s, r = Ok s ∧ ses_mode s = Cluster url ∧ ss_config (ses_state s) = ss_config st ∧
         ss_rules (ses_state s) = default_rules ∧ ss_udfs (ses_state s) = oxide_udfs feature_predict ∧
         ses_telemetry s = length (w_hubs w1) ∧ w_hubs w' = w_hubs w1 ++ [TelemetryHub_new]
     | Err e => w' = w1 ∧ r = Err (DataFusion e)
     | Panic => w' = w1 ∧ r = Panic
     end) ∧
  (prunes session_config ∧ sc_oxide_codec session_config = true) ∧
  (∀ functions config target,
     let st := build_session_state feature_predict functions config target in
     (prunes config → prunes (ss_config st)) ∧ sc_oxide_codec (ss_config st) = sc_oxide_codec config ∧
     sc_batch_size (ss_config st) = (if is_gpu target then GPU_BATCH_SIZE else sc_batch_size config) ∧
     ss_rules st = physical_optimizer_rules default_rules (HardwarePlacementRule_new target) ∧
     ss_udfs st = functions ++ oxide_udfs feature_predict).
Proof.
  split; [|split; [|split]].
  - unfold local_with_options.
    destruct (match so_target o with Some t => _ | None => _ end) as [w1 target] eqn:Ht.
    assert (w_hubs w1 = w_hubs w ∧ (∀ hubs, (local_backend env (mkWorld (w_local w1) hubs)).2 = (local_backend env w).2) ∧ (match so_target o with Some t => True | None => ∃ g w1, local_backend env w = (w1, Ok g) end →
      ∃ t, target = Ok t ∧ (so_target o = Some t ∨ so_target o = None ∧ ∃ g w1, local_backend env w = (w1, Ok g) ∧ t = gb_kind g))) as (Hh1 & Hsame & Htarget).
    { destruct (so_target o) as [t|]; [injection Ht as <- <-; split_and!; [done|intros; apply local_backend_same|]; intros _; exists t; by split; [|left]|].
      destruct (local_backend env w) as [w2 g] eqn:Hb. injection Ht as <- <-. split_and!; [by eapply local_backend_hubs|intros; by eapply local_backend_again|].
      intros (g' & w3 & [= <- ->]). exists (gb_kind g'). split; [done|]. right. split; [done|]. eauto. }
    destruct target as [t|e|]; [|intros Hx; destruct (Htarget Hx) as (? & ? & _); by simplify_eq..].
    unfold new_hub. destruct (local_capacity env _) as [w2 c] eqn:Hc. intros Hx. destruct (Htarget Hx) as (t' & [= <-] & Ht').
    destruct (local_capacity_spec _ _ _ Hc) as [Hh2 Hcap]. cbn [w_hubs w_local] in Hh2.
    pose proof (apply_options_spec o (with_pruning config_new) (Some t)) as Ha.
    destruct (bool_decide (so_batch_size o = Some 0)); [destruct Ha as [msg ->]; by eexists|]. rewrite Ha. cbn [mbind res_bind].
    eexists _, t, (set_capacity c TelemetryHub_new). split; [done|]. cbn [ses_mode ses_state ses_telemetry ss_config ss_rules].
    split_and!; try done.
    + by rewrite Hh1.
    + unfold on_hub. cbn [w_hubs]. rewrite Hh2, alter_app_r_alt by lia. by rewrite Nat.sub_diag, Hh1.
    + cbn [Telemetry.capacity set_capacity]. destruct Hcap as [(g & Hg & Hcap)|Hcap]; [|by left].
      right. exists g. by rewrite Hsame in Hg.
  - intros url. unfold connect_with_options. pose proof (apply_options_spec o (set_codec (with_pruning config_new_with_ballista)) None) as Ha.
    destruct (bool_decide (so_batch_size o = Some 0)); [destruct Ha as [msg ->]; split; [done|by exists msg]|]. rewrite Ha.
    set (config := set_batch_size _ _).
    destruct (remote_with_state url (mkSessionState config default_rules [] []) w) as [w1 [u|e|]] eqn:Hr;
      exists (mkSessionState config default_rules [] []); (split; [done|]); (split; [done|]); rewrite Hr; [|done|done].
    by eexists.
  - done.
  - intros functions config target. cbn. by destruct (is_gpu target).
Qed.
End Build.

(** ** What a session reports *)

(** The lines of some skips. *)
Definition skip_lines (sks : list PlacementSkip) : string :=
  concat_strings ((λ sk, "  " +:+ skip_node sk +:+ ": " +:+ skip_reason sk +:+ nl) <$> sks).

Section Reports.
Context `{Hardware, Allocator, CudaDriver, ArrowKernels, HashOrder, !SessionApi}.

Lemma hub_of_on s f w : (ses_telemetry s < length (w_hubs w))%nat → hub_of s (on_hub (ses_telemetry s) f w) = f (hub_of s w).
Proof.
  intros Hl. unfold hub_of, on_hub. cbn [w_hubs]. rewrite list_lookup_alter. destruct (lookup_lt_is_Some_2 _ _ Hl) as [h Hh]. rewrite Hh. by rewrite decide_True by done.
Qed.

(** the notes under an [EXPLAIN] are about the query explained.  Whatever
    was planned before on the session, the text is the plan's followed by one
    line for every node the placement left on the CPU while planning this
    query, in order, under a heading naming the target, and nothing else; no
    notes when it left none. *)
Theorem explain_notes s query w w1 w2 frame text new :
  (ses_telemetry s < length (w_hubs w))%nat →
  ctx_sql s query (on_hub (ses_telemetry s) clear_skips w) = (w1, Ok frame) →
  frame_plan_text frame w1 = (w2, Ok text) →
  skips (hub_of s w2) = skips (hub_of s (on_hub (ses_telemetry s) clear_skips w)) ++ new →
  explain s query w =
    (w2, Ok (text +:+
      match new with
      | [] => EmptyString
      | _ => nl +:+ "placement notes (target "
             +:+ match ses_mode s with Embedded target => as_str target | Cluster _ => "on the scheduler" end
             +:+ "):" +:+ nl +:+ skip_lines new
      end)).
Proof.
  intros Hl Hq Ht Hnew. unfold explain. rewrite Hq, Ht. rewrite hub_of_on in Hnew by done. cbn [skips clear_skips app] in Hnew.
  unfold placement_notes. rewrite Hnew. by destruct new.
Qed.

(** the log line of a query counts the fallbacks of the whole session.  The
    rows and batches of the line are the query's own; but its operator and
    fallback counts are sums over every operator the session's hub has seen, so
    when the hub held operators before, their fallbacks are in the line of
    every later query again, also of one that had none. *)
Theorem collect_log_accumulates s query w w1 w2 frame batches new :
  ctx_sql s query w = (w1, Ok frame) →
  frame_collect frame w1 = (w2, Ok batches) →
  snap_operators (hub_snapshot (hub_of s w2)) = snap_operators (hub_snapshot (hub_of s w)) ++ new →
  ∃ line, collect s query w = (w2, Ok (frame_schema frame, batches), Some line) ∧
    ql_rows line = foldl (λ n b, wadd64 n (Z.of_nat (num_rows b))) 0 batches ∧
    ql_batches line = Z.of_nat (length batches) ∧
    ql_fallback_batches line
    = foldl (λ n o, wadd64 n (sn_fallback_batches o))
        (foldl (λ n o, wadd64 n (sn_fallback_batches o)) 0 (snap_operators (hub_snapshot (hub_of s w)))) new.
Proof.
  intros Hq Hc Hnew. unfold collect. rewrite Hq, Hc. eexists. split; [reflexivity|]. cbn [ql_rows ql_batches ql_fallback_batches]. by rewrite Hnew, foldl_app.
Qed.
End Reports.

(** ** A session on a machine without GPUs *)

Module SessionExample.
#[local] Instance bump : Allocator := λ size align, Some (align * 16).
#[local] Instance no_driver : CudaDriver := {| ctx_alloc_pinned := λ _, Err "no driver"; pinned_wait := λ _, Err "no driver" |}.
#[local] Instance order : HashOrder := map_to_list.
#[local] Instance cpu_only : Hardware := {|
  feature_cuda := false; feature_metal := false; cuda_probe := false; metal_probe := false;
  cuda_new := Err (Execution "no driver"); metal_new := Err (Execution "no driver");
  meminfo_text := None |}.

Definition data_schema : Schema := Schema_new [Field_new "k" Int64 true].

(** Every query runs one operator that falls back once; planning leaves one
    join on the CPU. *)
Definition run_operator (h : TelemetryHub) : TelemetryHub :=
  let '(i, h) := register_operator "GpuFilterExec" Cuda h in
  with_stats i (λ s, mkStats (os_id s) (os_name s) (os_backend s) 2 1 1 5 0 0 0 1) h.

#[local] Instance api : SessionApi := {|
  config_new := mkSessionConfig 8192 true false false true false;
  config_new_with_ballista := mkSessionConfig 8192 true false false true false;
  default_rules := [DataFusionRule "join_selection"; DataFusionRule "ProjectionPushdown"];
  remote_with_state := λ _ _ w, (w, Ok tt);
  Frame := string;
  ctx_sql := λ s q w, (on_hub (ses_telemetry s) (record_skip "HashJoinExec" ("query " +:+ q)) w, Ok q);
  frame_schema := λ _, data_schema;
  frame_collect := λ _ w, (on_hub 0 run_operator w, Ok [mkBatch data_schema [] 1]);
  frame_plan_text := λ _ w, (w, Ok "plan");
  ctx_register_parquet := λ _ _ path w, (w, if bool_decide (path = "") then Err (ParquetError "no file") else Ok tt);
|}.

Definition frame_of (q : string) : Frame := q.
Definition empty_world : World := mkWorld None [].

Lemma session_configuration_witness :
  (∃ w s, local_with_options None false (with_target Cuda SessionOptions_new) empty_world = (w, Ok s) ∧
    sc_batch_size (ss_config (ses_state s)) = GPU_BATCH_SIZE ∧ prunes (ss_config (ses_state s))) ∧
  (∃ w s, connect_with_options false "df://host:50050" (with_batch_size 100 SessionOptions_new) empty_world = (w, Ok s) ∧
    connects_with (with_batch_size 100 SessionOptions_new) (ss_config (ses_state s)) ∧
    sc_batch_size (ss_config (ses_state s)) = 100).
Proof.
  split.
  - destruct (session_configuration None false (with_target Cuda SessionOptions_new) empty_world) as [Hl _].
    destruct (local_with_options None false (with_target Cuda SessionOptions_new) empty_world) as [w r].
    specialize (Hl I). rewrite bool_decide_eq_false_2 in Hl by done. destruct Hl as (s & t & hub & -> & Hm & Ht & Hp & Hb & _).
    exists w, s. split; [reflexivity|]. split; [|exact Hp]. rewrite Hb. destruct Ht as [[= <-]|[? _]]; done.
  - destruct (session_configuration None false (with_batch_size 100 SessionOptions_new) empty_world) as (_ & Hc & _).
    specialize (Hc "df://host:50050").
    destruct (connect_with_options false "df://host:50050" (with_batch_size 100 SessionOptions_new) empty_world) as [w r].
    rewrite bool_decide_eq_false_2 in Hc by done. destruct Hc as (st & Hst & _ & s & -> & _ & Hconf & _).
    exists w, s. split; [reflexivity|]. rewrite Hconf. split; [exact Hst|]. apply Hst.
Defined.

Definition the_session : OxideSession := mkSession (mkSessionState config_new [] [] []) (Embedded Cuda) 0.
Definition hub_world : World := mkWorld None [TelemetryHub_new].

Lemma explain_notes_witness :
  ∃ w, explain the_session "q" (on_hub 0 (record_skip "SortExec" "an earlier query") hub_world)
    = (w, Ok ("plan" +:+ nl +:+ "placement notes (target cuda):" +:+ nl +:+ "  HashJoinExec: query q" +:+ nl)).
Proof.
  eexists. eapply (explain_notes the_session "q" (on_hub 0 (record_skip "SortExec" "an earlier query") hub_world) _ _ (frame_of "q") "plan"
    [mkSkip "HashJoinExec" "query q"]); [cbn; lia|reflexivity..].
Defined.

(** The second query did not fall back more than once, but its line says two. *)
Definition after_one : World := (collect the_session "first" hub_world).1.1.
Lemma collect_log_accumulates_witness :
  ∃ w line, collect the_session "second" after_one = (w, Ok (data_schema, [mkBatch data_schema [] 1]), Some line) ∧
    ql_rows line = 1 ∧ ql_fallback_batches line = 2.
Proof.
  edestruct (collect_log_accumulates the_session "second" after_one) as (line & Hc & Hr & _ & Hf);
    [reflexivity|reflexivity|by instantiate (1 := [mkOpSnapshot 1 "GpuFilterExec" Cuda 2 1 1 5 0 0 0 1]); vm_compute|].
  eexists _, line. split; [exact Hc|]. split; [exact Hr|]. rewrite Hf. by vm_compute.
Defined.
End SessionExample.
