(* ===== verification/Cluster.v ===== *)
(** * oxidelake-runtime: cluster mode and its two processes

    Models [src/crates/oxidelake-runtime/src/cluster.rs] (the session state a
    scheduler builds is in [Session]) and the processes of
    [bin/oxide_worker.rs] and [bin/oxide_scheduler.rs] after their arguments are
    parsed.  Ballista, the network and the sockets are the operations of
    [Ballista] over an abstract state.  The second part shows that the processes
    of a cluster fit together and that a worker runs on the backend it was
    started for, or not at all. *)

From S2P Require Import Prelude Floats Arrow Core Telemetry Memory ArrowKernels Kernels Device DeviceCorrect Execs Planner.
From S2P Require Import Udf Session.

(** What [main] returns: an [anyhow::Error] made of an engine error, an I/O
    error or a message of its own. *)
Inductive MainError := EngineFailed (e : EngineError) | IoFailed (kind : ErrorKind) | Message (msg : string).

(** The fields the source sets. *)
Record SchedulerConfig := mkSchedulerConfig {
  bind_host : string;
  bind_port : Z;
  override_session_builder : SessionConfig → SessionState;
  override_config_producer : SessionConfig;
  (** [OxidePhysicalCodec] over Ballista's is installed *)
  override_physical_codec : bool;
}.

Record ExecutorProcessConfig := mkExecutorConfig {
  ex_scheduler_host : string;
  ex_scheduler_port : Z;
  ex_port : Z;
  ex_grpc_port : Z;
  concurrent_tasks : Z;
  work_dir : option string;
  ex_physical_codec : bool;
  override_function_registry : gset string;
  ex_config_producer : SessionConfig;
}.

Class Ballista := {
  Rest : Type;
  Address : Type;
  BallistaCluster : Type;
  SchedulerClient : Type;
  (** the scalar functions of Ballista's sessions and of a default registry,
      and [ExecutorProcessConfig::default().concurrent_tasks] *)
  ballista_scalar_functions : list string;
  registry_default : gset string;
  default_concurrent_tasks : Z;
  parse_address : string → res string Address;
  (** [(host, port).to_socket_addrs()], and binding a listener whose server is
      spawned *)
  to_socket_addrs : string → Z → Rest → res ErrorKind (list Address) * Rest;
  serve_on : Address → Rest → res ErrorKind unit * Rest;
  (** the scheduler's and the executor's processes, until they exit *)
  new_from_config : SchedulerConfig → Rest → res string BallistaCluster * Rest;
  start_server : BallistaCluster → Address → SchedulerConfig → Rest → res string unit * Rest;
  start_executor_process : ExecutorProcessConfig → Rest → res string unit * Rest;
  (** in-process: a scheduler with its session builder, a client, an executor *)
  new_standalone_scheduler : (SessionConfig → SessionState) → SessionConfig → Rest → res string Address * Rest;
  connect_scheduler : Address → Rest → res string SchedulerClient * Rest;
  new_standalone_executor : SchedulerClient → Z → SessionConfig → gset string → Rest → res string unit * Rest;
}.

(** Steps of a process outside its own state. *)
Definition rest_op `{!Ballista} (E A : Type) : Type := Rest → res E A * Rest.
Definition rest_bind `{!Ballista} {E A B} (m : rest_op E A) (f : A → rest_op E B) : rest_op E B := λ w,
  match m w with
  | (Ok a, w) => f a w
  | (Err e, w) => (Err e, w)
  | (Panic, w) => (Panic, w)
  end.
Definition rest_map_err `{!Ballista} {E F A} (f : E → F) (m : rest_op E A) : rest_op F A := λ w,
  let '(r, w) := m w in (map_err f r, w).

Section Cluster.
Context `{!SessionApi, !Ballista} (feature_predict feature_metrics : bool).

Definition ballista_error (msg : string) : EngineError := Execution ("ballista: " +:+ msg).

Definition session_builder (target : BackendKind) (c : SessionConfig) : SessionState :=
  build_session_state feature_predict ballista_scalar_functions c target.

Definition function_registry : gset string :=
  foldl (λ registry udf, {[udf]} ∪ registry) registry_default (oxide_udfs feature_predict).

Definition scheduler_config (host : string) (port : Z) (target : BackendKind) : SchedulerConfig :=
  mkSchedulerConfig host port (session_builder target) session_config true.

Definition run_scheduler (c : SchedulerConfig) : rest_op EngineError unit := λ w,
  match parse_address (bind_host c +:+ ":" +:+ pretty (bind_port c)) with
  | Err e => (Err (Plan ("invalid scheduler bind address: " +:+ e)), w)
  | Panic => (Panic, w)
  | Ok address =>
      rest_bind (rest_map_err ballista_error (new_from_config c)) (λ cluster,
      rest_map_err ballista_error (start_server cluster address c)) w
  end.

Definition executor_config (scheduler_host : string) (scheduler_port port grpc_port : Z)
    (tasks : option Z) (dir : option string) : ExecutorProcessConfig :=
  mkExecutorConfig scheduler_host scheduler_port port grpc_port (default default_concurrent_tasks tasks) dir
    true function_registry session_config.

Definition run_executor (c : ExecutorProcessConfig) : rest_op EngineError unit :=
  rest_map_err ballista_error (start_executor_process c).

(** One turn of the loop of [start_standalone]. *)
Definition standalone_executor (addr : Address) (tasks : Z) : rest_op EngineError unit :=
  rest_bind (rest_map_err ballista_error (connect_scheduler addr)) (λ client,
  rest_map_err ballista_error
    (new_standalone_executor client (Z.max tasks 1) session_config function_registry)).

Fixpoint standalone_executors (n : nat) (addr : Address) (tasks : Z) : rest_op EngineError unit :=
  match n with
  | O => λ w, (Ok tt, w)
  | S n => rest_bind (standalone_executor addr tasks) (λ _, standalone_executors n addr tasks)
  end.

Definition start_standalone (target : BackendKind) (executors : nat) (tasks : Z) : rest_op EngineError Address :=
  rest_bind (rest_map_err ballista_error (new_standalone_scheduler (session_builder target) session_config)) (λ addr,
  rest_bind (standalone_executors (Nat.max executors 1) addr tasks) (λ _ w, (Ok addr, w))).

(** *** The processes *)

Definition serve_metrics (port : option Z) (host : string) : rest_op MainError unit := λ w,
  match port with
  | None => (Ok tt, w)
  | Some port =>
      if feature_metrics
      then
        rest_bind (rest_map_err IoFailed (to_socket_addrs host port)) (λ addrs w,
        match addrs with
        | [] => (Err (Message ("--metrics-host '" +:+ host +:+ "' resolved to no address")), w)
        | addr :: _ => rest_map_err IoFailed (serve_on addr) w
        end) w
      else (Err (Message "--metrics-port needs the `metrics` feature; rebuild with `cargo build -p oxidelake-runtime --features metrics`"), w)
  end.

Record SchedulerCli := mkSchedulerCli {
  sl_bind_host : string;
  sl_port : Z;
  sl_cluster_backend : option string;
  sl_metrics_port : option Z;
  sl_metrics_host : string;
}.

(** [env]: the value of [OXIDE_CLUSTER_BACKEND]. *)
Definition scheduler_main (env : option string) (cli : SchedulerCli) : rest_op MainError unit := λ w,
  let target := match sl_cluster_backend cli with
                | Some name => BackendKind_from_str name
                | None => resolve_cluster_target env
                end in
  match target with
  | Err e => (Err (EngineFailed e), w)
  | Panic => (Panic, w)
  | Ok target =>
      rest_bind (serve_metrics (sl_metrics_port cli) (sl_metrics_host cli)) (λ _,
      rest_map_err EngineFailed (run_scheduler (scheduler_config (sl_bind_host cli) (sl_port cli) target))) w
  end.

Record WorkerCli := mkWorkerCli {
  wl_scheduler_host : string;
  wl_scheduler_port : Z;
  wl_port : Z;
  wl_grpc_port : Z;
  wl_concurrent_tasks : option Z;
  wl_work_dir : option string;
  wl_backend : option BackendKind;
  wl_metrics_port : option Z;
  wl_metrics_host : string;
}.

Definition worker_config (cli : WorkerCli) : ExecutorProcessConfig :=
  executor_config (wl_scheduler_host cli) (wl_scheduler_port cli) (wl_port cli) (wl_grpc_port cli)
    (wl_concurrent_tasks cli) (wl_work_dir cli).

(** [env]: the value of [OXIDE_BACKEND]; the process keeps its own state. *)
Definition worker_main `{Hardware, Allocator, CudaDriver, ArrowKernels, HashOrder} (env : option string)
    (cli : WorkerCli) (w : World) (rest : Rest) : World * (res MainError unit * Rest) :=
  let '(w, backend) := match wl_backend cli with
                       | Some kind => init_local_backend env (Some (as_str kind)) w
                       | None => local_backend env w
                       end in
  (w,
   match backend with
   | Err e => (Err (EngineFailed e), rest)
   | Panic => (Panic, rest)
   | Ok _ =>
       rest_bind (serve_metrics (wl_metrics_port cli) (wl_metrics_host cli)) (λ _,
       rest_map_err EngineFailed (run_executor (worker_config cli))) rest
   end).
End Cluster.

(** ** The processes of a cluster fit together

    What the scheduler ships, an executor can read and run; a worker that
    cannot have its backend starts nothing. *)

Section Correct.
Context `{!SessionApi, !Ballista} (feature_predict feature_metrics : bool).

Lemma elem_of_function_registry f :
  f ∈ function_registry feature_predict ↔ f ∈ oxide_udfs feature_predict ∨ f ∈ registry_default.
Proof.
  unfold function_registry. generalize registry_default as r. induction (oxide_udfs feature_predict) as [|u us IH]; intros r; cbn [foldl].
  - set_solver.
  - rewrite IH. set_solver.
Qed.

Lemma rest_bind_Ok {E A B} (m : rest_op E A) (f : A → rest_op E B) w w' b :
  rest_bind m f w = (Ok b, w') → ∃ a w1, m w = (Ok a, w1) ∧ f a w1 = (Ok b, w').
Proof. unfold rest_bind. destruct (m w) as [[a|e|] w1]; [|done|done]. intros Hf. by exists a, w1. Qed.
Lemma rest_map_err_Ok {E F A} (f : E → F) (m : rest_op E A) w w' a :
  rest_map_err f m w = (Ok a, w') ↔ m w = (Ok a, w').
Proof. unfold rest_map_err. destruct (m w) as [[]]; cbn; split; congruence. Qed.

(** One executor joined the cluster at [addr]. *)
Definition joined_cluster (addr : Address) (tasks : Z) (w w' : Rest) : Prop :=
  ∃ client w1, connect_scheduler addr w = (Ok client, w1) ∧
    new_standalone_executor client (Z.max tasks 1) session_config (function_registry feature_predict) w1 = (Ok tt, w').

Lemma standalone_executors_Ok n addr tasks w w' :
  standalone_executors feature_predict n addr tasks w = (Ok tt, w') → nsteps (joined_cluster addr tasks) n w w'.
Proof.
  revert w. induction n as [|n IH]; intros w; cbn [standalone_executors]; [intros [= <-]; constructor|].
  intros ([] & w1 & Hx & Hrest)%rest_bind_Ok. apply rest_bind_Ok in Hx as (client & w2 & Hc%rest_map_err_Ok & He%rest_map_err_Ok).
  econstructor; [by exists client, w2|by apply IH].
Qed.

(** what one process of a cluster ships, the others can read and run.  The
    scheduler, every executor and every connected client have the codec of the
    placement rule's nodes installed and the same configuration; every function
    a client or the scheduler plans with is one that Ballista itself brings or
    that every executor's registry has; the scheduler places for the declared
    backend, in that backend's batch size, whatever a client asked for; and an
    in-process cluster that starts has at least one executor, each with at least
    one task slot, all joined to the one scheduler. *)
Theorem cluster_agrees host port target shost sport eport gport tasks dir :
  let s := scheduler_config feature_predict host port target in
  let e := executor_config feature_predict shost sport eport gport tasks dir in
  override_physical_codec s = true ∧ ex_physical_codec e = true ∧
  override_config_producer s = ex_config_producer e ∧ sc_oxide_codec (ex_config_producer e) = true ∧
  (∀ config f, f ∈ ss_udfs (override_session_builder s config) →
     f ∈ ballista_scalar_functions ∨ f ∈ override_function_registry e) ∧
  (∀ config, ss_rules (override_session_builder s config)
     = physical_optimizer_rules default_rules (HardwarePlacementRule_new target)) ∧
  (∀ config, sc_batch_size (ss_config (override_session_builder s config))
     = if is_gpu target then GPU_BATCH_SIZE else sc_batch_size config) ∧
  (∀ url o w w' client, connect_with_options feature_predict url o w = (w', Ok client) →
     sc_oxide_codec (ss_config (ses_state client)) = true ∧
     ∀ f, f ∈ ss_udfs (ses_state client) →
       f ∈ override_function_registry e ∧ ∀ config, f ∈ ss_udfs (override_session_builder s config)) ∧
  (∀ n slots w w' addr, start_standalone feature_predict target n slots w = (Ok addr, w') →
     ∃ w1, new_standalone_scheduler (override_session_builder s) (override_config_producer s) w = (Ok addr, w1) ∧
       nsteps (joined_cluster addr slots) (Nat.max n 1) w1 w').
Proof.
  intros s e. do 4 (split; [done|]). split_and!.
  - intros config f. cbn. rewrite elem_of_function_registry. intros [|]%elem_of_app; auto.
  - done.
  - intros config. cbn. unfold build_session_state. cbn. by destruct (is_gpu target).
  - intros url o w w' client Hc. unfold connect_with_options in Hc.
    destruct (apply_options _ _ _) as [config| |] eqn:Ha; [|done|done].
    destruct (remote_with_state _ _ _) as [w1 [u| |]]; [|done|done]. injection Hc as _ <-. cbn. split.
    + unfold apply_options in Ha. destruct (so_batch_size o) as [rows|]; [destruct (rows =? 0)|]; try done; by injection Ha as <-.
    + intros f Hf. split; [apply elem_of_function_registry; by left|]. intros ?. apply elem_of_app. by right.
  - intros n slots w w' addr Hs. apply rest_bind_Ok in Hs as (a & w1 & Hsch%rest_map_err_Ok & Hx).
    apply rest_bind_Ok in Hx as ([] & w2 & Hex & [= <- <-]). exists w1. split; [exact Hsch|by apply standalone_executors_Ok].
Qed.

(** C26: a worker runs on the backend it was started for, or not at all.  When
    the flag, or else the environment, names a backend this machine cannot
    provide, [worker_main] returns that error having opened no port and started
    no executor.  Otherwise the backend it selected is the process's for good,
    of the kind the flag named, also for every operator of every later task;
    the metrics endpoint is served first, and an executor only when that
    succeeded. *)
Theorem worker_backend `{HardwareLaws, Allocator, CudaDriver, ArrowKernels, HashOrder} env cli hubs rest :
  let selected := select_with (match wl_backend cli with Some k => Some (as_str k) | None => env end) in
  let '(w, (r, rest')) := worker_main feature_predict feature_metrics env cli (mkWorld None hubs) rest in
  match selected with
  | Ok g =>
      (∀ k, wl_backend cli = Some k → gb_kind g = k) ∧
      (∀ env', local_backend env' w = (w, Ok g)) ∧
      match serve_metrics feature_metrics (wl_metrics_port cli) (wl_metrics_host cli) rest with
      | (Ok _, rest1) => (r, rest') = rest_map_err EngineFailed (run_executor (worker_config feature_predict cli)) rest1
      | (Err e, rest1) => r = Err e ∧ rest' = rest1
      | (Panic, rest1) => r = Panic ∧ rest' = rest1
      end
  | Err _ => rest' = rest ∧ r = Err (EngineFailed (Execution "backend selection failed"))
  | Panic => rest' = rest ∧ r = Panic
  end.
Proof.
  intros selected. unfold worker_main.
  assert ((match wl_backend cli with
           | Some kind => init_local_backend env (Some (as_str kind)) (mkWorld None hubs)
           | None => local_backend env (mkWorld None hubs)
           end) = (mkWorld (Some selected) hubs, local_answer selected)) as ->.
  { unfold selected. by destruct (wl_backend cli). }
  destruct selected as [g|e|] eqn:Hsel; cbn [local_answer]; [|done|done].
  unfold rest_bind. destruct (serve_metrics _ _ _ rest) as [[u|e|] rest1]; cbn zeta.
  2, 3: (split; [intros k Hk; unfold selected in Hsel; rewrite Hk in Hsel; by apply select_named|done]).
  destruct (rest_map_err _ _ rest1) as [r rest'] eqn:Hr.
  split; [intros k Hk; unfold selected in Hsel; rewrite Hk in Hsel; by apply select_named|done].
Qed.
End Correct.

(** ** A machine without GPUs *)

Module ClusterExample.
Import DeviceExample.
#[local] Existing Instances bump no_driver order cpu_only cpu_only_laws SessionExample.api.

(** A network that only notes what it was asked for. *)
#[local] Instance notes : Ballista := {|
  Rest := list string; Address := string; BallistaCluster := unit; SchedulerClient := string;
  ballista_scalar_functions := ["abs"]; registry_default := {["abs"]}; default_concurrent_tasks := 8;
  parse_address := λ s, Ok s;
  to_socket_addrs := λ host _ w, (Ok [host], w);
  serve_on := λ a w, (Ok tt, w ++ ["metrics on " +:+ a]);
  new_from_config := λ c w, (Ok tt, w);
  start_server := λ _ a _ w, (Ok tt, w ++ ["scheduler on " +:+ a]);
  start_executor_process := λ c w, (Ok tt, w ++ ["executor of " +:+ ex_scheduler_host c]);
  new_standalone_scheduler := λ _ _ w, (Ok "127.0.0.1:1", w ++ ["scheduler"]);
  connect_scheduler := λ a w, (Ok a, w);
  new_standalone_executor := λ c _ _ _ w, (Ok tt, w ++ ["executor at " +:+ c]);
|}.

Definition worker_on (backend : option BackendKind) : WorkerCli :=
  mkWorkerCli "s" 50050 50051 50052 None None backend (Some 9100) "127.0.0.1".
Definition start_worker (backend : option BackendKind) : World * (res MainError unit * list string) :=
  worker_main false true (Some "cuda") (worker_on backend) (mkWorld None []) [].

(** The flag wins over an environment that names a missing backend; without it
    nothing starts. *)
Lemma worker_backend_witness :
  (start_worker (Some CpuSimd)).2 = (Ok tt, ["metrics on 127.0.0.1"; "executor of s"]) ∧
  (start_worker None).2 = (Err (EngineFailed (Execution "backend selection failed")), []).
Proof.
  pose proof (worker_backend false true (Some "cuda") (worker_on (Some CpuSimd)) [] []) as H1.
  pose proof (worker_backend false true (Some "cuda") (worker_on None) [] []) as H2.
  fold (start_worker (Some CpuSimd)) (start_worker None) in H1, H2. unfold start_worker in *.
  cbv zeta in H1, H2. destruct (worker_main _ _ _ (worker_on (Some CpuSimd)) _ _) as [w [r rest]].
  destruct (worker_main _ _ _ (worker_on None) _ _) as [w2 [r2 rest2]].
  split; [exact (proj2 (proj2 H1))|destruct H2 as [-> ->]; reflexivity].
Defined.

(** Asking for no executors gives one. *)
Example one_executor_at_least :
  start_standalone false CpuSimd 0 0 ([] : list string) = (Ok "127.0.0.1:1", ["scheduler"; "executor at 127.0.0.1:1"]).
Proof. reflexivity. Qed.
End ClusterExample.
