(* ===== verification/Metrics.v ===== *)
(** * oxidelake-runtime: the metrics endpoint and the output formats

    Models one connection of [src/crates/oxidelake-runtime/src/metrics.rs]
    ([handle]; accepting and spawning is tokio's) and [output.rs], whose table,
    JSON and CSV writers are the operations of [OutputApi].  A request is the
    bytes the peer sends before it stops.  The second part has the
    properties. *)

From Stdlib Require Import Ascii.
From S2P Require Import Prelude Floats Arrow Core Telemetry Device.

(** ** UTF-8 ([std::str::from_utf8]) *)

Definition in_range (lo hi : Z) (c : ascii) : bool := let z := Z.of_nat (nat_of_ascii c) in (lo <=? z) && (z <=? hi).
Definition continuation (c : ascii) : bool := in_range 0x80 0xBF c.

Fixpoint utf8_valid (l : list ascii) : bool :=
  match l with
  | [] => true
  | b :: l =>
      if in_range 0 0x7F b then utf8_valid l
      else if in_range 0xC2 0xDF b then match l with c1 :: l => continuation c1 && utf8_valid l | _ => false end
      else if in_range 0xE0 0xEF b then
        match l with
        | c1 :: c2 :: l =>
            (if in_range 0xE0 0xE0 b then in_range 0xA0 0xBF c1 else if in_range 0xED 0xED b then in_range 0x80 0x9F c1 else continuation c1)
            && continuation c2 && utf8_valid l
        | _ => false
        end
      else if in_range 0xF0 0xF4 b then
        match l with
        | c1 :: c2 :: c3 :: l =>
            (if in_range 0xF0 0xF0 b then in_range 0x90 0xBF c1 else if in_range 0xF4 0xF4 b then in_range 0x80 0x8F c1 else continuation c1)
            && continuation c2 && continuation c3 && utf8_valid l
        | _ => false
        end
      else false
  end.

(** ** Metrics ([metrics.rs]) *)

Definition METRICS_PATH : string := "/metrics".
Definition MAX_REQUEST_LINE : nat := 8192.

(** [read_line]: up to and including the first line feed. *)
Fixpoint read_line (l : list ascii) : list ascii :=
  match l with [] => [] | c :: l => if decide (c = "010"%char) then [c] else c :: read_line l end.

(** [split('?').next()]. *)
Fixpoint before_question (l : list ascii) : list ascii :=
  match l with [] => [] | c :: l => if decide (c = "?"%char) then [] else c :: before_question l end.

Definition crlf : string := String "013"%char nl.

Definition status (code : Z) (reason body : string) : string :=
  "HTTP/1.1 " +:+ pretty code +:+ " " +:+ reason +:+ crlf
  +:+ "Content-Type: text/plain; charset=utf-8" +:+ crlf
  +:+ "Content-Length: " +:+ pretty (Z.of_nat (String.length body)) +:+ crlf
  +:+ "Connection: close" +:+ crlf +:+ crlf +:+ body.

Definition metrics_ok (body : string) : string :=
  "HTTP/1.1 200 OK" +:+ crlf
  +:+ "Content-Type: text/plain; version=0.0.4; charset=utf-8" +:+ crlf
  +:+ "Content-Length: " +:+ pretty (Z.of_nat (String.length body)) +:+ crlf
  +:+ "Connection: close" +:+ crlf +:+ crlf +:+ body.

(** The bytes written back; a line that is not UTF-8 closes the connection
    without an answer. *)
Definition handle (request : list ascii) (hub : TelemetryHub) : res ErrorKind string :=
  let line := read_line (take MAX_REQUEST_LINE request) in
  if negb (utf8_valid line) then Err IoOther
  else
    let text l := String.string_of_list_ascii l in
    Ok match split_ws [] line with
       | method :: path :: _ =>
           if decide (text method = "GET") then
             if decide (text (before_question path) = METRICS_PATH) then metrics_ok (to_prometheus (hub_snapshot hub))
             else status 404 "Not Found" ("only /metrics is served" +:+ nl)
           else status 405 "Method Not Allowed" ("only GET is served" +:+ nl)
       | _ => status 400 "Bad Request" ("expected a request line" +:+ nl)
       end.

(** [serve]: what the loop answers to the connections it accepts, each with the
    hub as it was when its task read it; a failed accept is only logged. *)
Definition serve (accepted : list (res ErrorKind (list ascii * TelemetryHub))) : list (res ErrorKind string) :=
  omap (λ connection, match connection with Ok (request, hub) => Some (handle request hub) | _ => None end) accepted.

(** ** Output formats ([output.rs]) *)

Inductive OutputFormat := Table | Json | Csv.
#[global] Instance OutputFormat_EqDecision : EqDecision OutputFormat.
Proof. solve_decision. Defined.
Definition OutputFormat_ALL : list OutputFormat := [Table; Json; Csv].
Definition OutputFormat_default : OutputFormat := Table.
Definition OutputFormat_as_str (f : OutputFormat) : string := match f with Table => "table" | Json => "json" | Csv => "csv" end.

Definition OutputFormat_from_str (s : string) : result OutputFormat :=
  let s := to_ascii_lowercase (str_trim s) in
  if decide (s = "table") then Ok Table
  else if decide (s = "json") then Ok Json
  else if decide (s = "csv") then Ok Csv
  else Err (Plan ("unknown output format '" +:+ s +:+ "'; expected one of table, json, csv")).

Class OutputApi := {
  (** [pretty_format_batches]; the JSON array of all batches; the CSV writer's
      bytes for its first batch and for a later one *)
  pretty_format_batches : list RecordBatch → res ArrowError string;
  json_array : list RecordBatch → res ArrowError (list ascii);
  csv_first : RecordBatch → res ArrowError (list ascii);
  csv_next : RecordBatch → res ArrowError (list ascii);
}.

Definition RecordBatch_new_empty (s : Schema) : RecordBatch :=
  mkBatch s ((λ f, mkArray (field_type_of f) []) <$> fields s) 0.

(** A newline, unless there is one, and the bytes as text. *)
Definition finish (buffer : list ascii) : result string :=
  let buffer := if decide (last buffer = Some "010"%char) then buffer else buffer ++ ["010"%char] in
  if utf8_valid buffer then Ok (String.string_of_list_ascii buffer)
  else Err (Execution "rendered output was not UTF-8").

Section Render.
Context `{!OutputApi}.

Definition csv_bytes (batches : list RecordBatch) : res ArrowError (list ascii) :=
  match batches with
  | [] => Ok []
  | b :: bs => first ← csv_first b; rest ← mapM csv_next bs; Ok (first ++ concat rest)
  end.

Definition render (s : Schema) (batches : list RecordBatch) (f : OutputFormat) : result string :=
  match f with
  | Table => t ← map_err ArrowE (pretty_format_batches batches); Ok (t +:+ nl)
  | Json => bytes ← map_err ArrowE (json_array batches); finish bytes
  | Csv =>
      let batches := match batches with [] => [RecordBatch_new_empty s] | _ => batches end in
      bytes ← map_err ArrowE (csv_bytes batches); finish bytes
  end.
End Render.

(** ** The metrics endpoint answers with well-formed responses

    Whatever a peer sends, the endpoint looks at one bounded line, and what it
    writes splits back, the way a client splits it, into the status line, the
    headers and a body of the announced length. *)

(** ** Splitting a response *)

Definition cr : ascii := "013"%char.
Definition lf : ascii := "010"%char.

(** The lines up to the empty one, and the rest. *)
Fixpoint http_split (cur l : list ascii) : list (list ascii) * list ascii :=
  match l with
  | [] => ([rev cur], [])
  | c :: l1 =>
      if decide (c = cr) then
        match l1 with
        | c2 :: l2 =>
            if decide (c2 = lf) then
              match cur with [] => ([], l2) | _ => let '(ls, b) := http_split [] l2 in (rev cur :: ls, b) end
            else http_split (c :: cur) l1
        | [] => http_split (c :: cur) l1
        end
      else http_split (c :: cur) l1
  end.

Lemma http_split_go t : ∀ cur l, cr ∉ t → http_split cur (t ++ l) = http_split (rev t ++ cur) l.
Proof.
  induction t as [|c t IH]; intros cur l Ht; [done|]. apply not_elem_of_cons in Ht as [Hc Ht]. cbn [app http_split].
  rewrite decide_False by congruence. rewrite IH by done. cbn [rev]. by rewrite <- app_assoc.
Qed.

Lemma http_split_line t l :
  cr ∉ t → t ≠ [] → http_split [] (t ++ cr :: lf :: l) = (t :: (http_split [] l).1, (http_split [] l).2).
Proof.
  intros Ht Hne. rewrite http_split_go by done. cbn [http_split]. rewrite !decide_True by done. rewrite app_nil_r.
  destruct (rev t) as [|c t'] eqn:Hr; [by apply (f_equal (@rev ascii)) in Hr; rewrite rev_involutive in Hr|].
  rewrite <- Hr, rev_involutive. by destruct (http_split [] l).
Qed.

(** ** Numbers *)

Lemma pretty_N_char_not_cr n : pretty_N_char n ≠ cr.
Proof. unfold pretty_N_char. by repeat case_match. Qed.

Lemma pretty_N_go_not_cr n : ∀ s, cr ∉ String.list_ascii_of_string s → cr ∉ String.list_ascii_of_string (pretty_N_go n s).
Proof.
  induction n as [n IH] using (well_founded_induction N.lt_wf_0). intros s Hs. destruct (decide (n = 0%N)) as [->|Hn]; [by rewrite pretty_N_go_0|].
  rewrite pretty_N_go_step by lia. apply IH; [apply N.div_lt; lia|]. cbn [String.list_ascii_of_string]. apply not_elem_of_cons.
  split; [|done]. intros Heq. by apply (pretty_N_char_not_cr (n mod 10)).
Qed.

Lemma pretty_not_cr (z : Z) : cr ∉ String.list_ascii_of_string (pretty z).
Proof.
  assert (∀ n : N, cr ∉ String.list_ascii_of_string (pretty n)) as Hn.
  { intros n. unfold pretty, pretty_N. case_decide; [by apply (bool_decide_eq_true_1 (_ ∉ _)); vm_compute|]. apply pretty_N_go_not_cr, not_elem_of_nil. }
  destruct z as [|p|p]; cbn; [by apply (bool_decide_eq_true_1 (_ ∉ _)); vm_compute|apply (Hn (Npos p))|].
  apply not_elem_of_cons. split; [done|]. apply (Hn (Npos p)).
Qed.

Abbreviation bytes := String.list_ascii_of_string.

(** The headers of a response with a body. *)
Definition headers (status_line content_type : string) (body : string) : list (list ascii) :=
  [bytes status_line; bytes ("Content-Type: " +:+ content_type);
   bytes ("Content-Length: " +:+ pretty (Z.of_nat (length (bytes body)))); bytes "Connection: close"].

Lemma bytes_length s : String.length s = length (bytes s).
Proof. induction s as [|c s IH]; [done|]. cbn. by rewrite IH. Qed.

Lemma response_split status_line content_type body :
  cr ∉ bytes status_line → status_line ≠ EmptyString → cr ∉ bytes content_type →
  http_split [] (bytes (status_line +:+ crlf +:+ "Content-Type: " +:+ content_type +:+ crlf
    +:+ "Content-Length: " +:+ pretty (Z.of_nat (String.length body)) +:+ crlf +:+ "Connection: close" +:+ crlf +:+ crlf +:+ body))
  = (headers status_line content_type body, bytes body).
Proof.
  intros Hs Hne Hc. rewrite bytes_length. unfold headers. assert (Hcrlf : bytes crlf = [cr; lf]) by done.
  rewrite !list_ascii_app, !Hcrlf.
  set (len := bytes (pretty _)). assert (Hlen : cr ∉ len) by apply pretty_not_cr.
  assert (Hlit : ∀ s, bool_decide (cr ∉ bytes s) = true → cr ∉ bytes s) by (intros s; apply bool_decide_eq_true_1).
  cbn [app]. rewrite http_split_line; [|done|by destruct status_line].
  rewrite (app_assoc (bytes "Content-Type: ")), http_split_line; [|apply not_elem_of_app; split; [by apply Hlit|done]|done].
  rewrite (app_assoc (bytes "Content-Length: ")), http_split_line; [|apply not_elem_of_app; split; [by apply Hlit|done]|done].
  rewrite http_split_line by (done || by apply Hlit). cbn [http_split fst snd]. by rewrite !decide_True.
Qed.

(** ** The endpoint *)

Lemma read_line_app l k : lf ∈ l → read_line (l ++ k) = read_line l.
Proof.
  induction l as [|c l IH]; intros Hin; [by apply elem_of_nil in Hin|]. cbn [app read_line]. destruct (decide (c = "010"%char)) as [|Hne]; [done|].
  apply elem_of_cons in Hin as [Heq|Hin]; [by destruct Hne|]. by rewrite IH.
Qed.

(** The first line of a request, within the bound. *)
Definition request_line (request : list ascii) : list ascii := read_line (take MAX_REQUEST_LINE request).

Lemma request_line_app request more :
  (MAX_REQUEST_LINE ≤ length request)%nat ∨ lf ∈ take MAX_REQUEST_LINE request → request_line (request ++ more) = request_line request.
Proof.
  unfold request_line. intros [Hl|Hin]; [by rewrite take_app_le|]. destruct (decide (MAX_REQUEST_LINE ≤ length request)%nat) as [|Hlt]; [by rewrite take_app_le|].
  rewrite take_app_ge by lia. rewrite (take_ge request) by lia. rewrite (take_ge request) in Hin by lia. by rewrite read_line_app.
Qed.

(** What is asked for. *)
Definition words (line : list ascii) : list string := String.string_of_list_ascii <$> split_ws [] line.
Definition path_of (s : string) : string := String.string_of_list_ascii (before_question (bytes s)).

(** C31: the metrics endpoint answers one bounded line with a well-formed
    response.  Nothing past the first line feed, or past 8 KiB, changes the
    answer.  A line that is UTF-8 is answered, and the answer splits at the
    empty line into its status line, its headers and a body that has exactly
    the announced length: the hub's exposition with status 200 just for [GET]
    of [/metrics], a query string ignored; 404 for [GET] of another path, 405
    for another method, 400 for a line of fewer than two words. *)
Theorem metrics_response request hub :
  match handle request hub with
  | Ok r =>
      utf8_valid (request_line request) = true ∧
      ∃ status_line content_type body,
        http_split [] (bytes r) = (headers status_line content_type body, bytes body) ∧
        match words (request_line request) with
        | method :: path :: _ =>
            if decide (method = "GET") then
              if decide (path_of path = "/metrics")
              then status_line = "HTTP/1.1 200 OK" ∧ body = to_prometheus (hub_snapshot hub)
              else status_line = "HTTP/1.1 404 Not Found"
            else status_line = "HTTP/1.1 405 Method Not Allowed"
        | _ => status_line = "HTTP/1.1 400 Bad Request"
        end
  | Err _ => utf8_valid (request_line request) = false
  | Panic => False
  end ∧
  (∀ more, (MAX_REQUEST_LINE ≤ length request)%nat ∨ lf ∈ take MAX_REQUEST_LINE request →
     handle (request ++ more) hub = handle request hub).
Proof.
  assert (Hlit : ∀ s, bool_decide (cr ∉ bytes s) = true → cr ∉ bytes s) by (intros s; apply bool_decide_eq_true_1).
  split.
  - unfold handle. fold (request_line request). destruct (utf8_valid (request_line request)); cbn [negb]; [|done]. split; [done|].
    unfold words, path_of. destruct (split_ws [] (request_line request)) as [|method [|path rest]]; cbn [fmap list_fmap].
    + eexists "HTTP/1.1 400 Bad Request", "text/plain; charset=utf-8", _. split; [by apply (response_split "HTTP/1.1 400 Bad Request"); [apply Hlit|..|apply Hlit]|done].
    + eexists "HTTP/1.1 400 Bad Request", "text/plain; charset=utf-8", _. split; [by apply (response_split "HTTP/1.1 400 Bad Request"); [apply Hlit|..|apply Hlit]|done].
    + rewrite String.list_ascii_of_string_of_list_ascii. destruct (decide (String.string_of_list_ascii method = "GET")).
      * unfold METRICS_PATH. destruct (decide (_ = "/metrics")).
        -- eexists "HTTP/1.1 200 OK", "text/plain; version=0.0.4; charset=utf-8", _.
           split; [by apply (response_split "HTTP/1.1 200 OK"); [apply Hlit|..|apply Hlit]|done].
        -- eexists "HTTP/1.1 404 Not Found", "text/plain; charset=utf-8", _. split; [by apply (response_split "HTTP/1.1 404 Not Found"); [apply Hlit|..|apply Hlit]|done].
      * eexists "HTTP/1.1 405 Method Not Allowed", "text/plain; charset=utf-8", _.
        split; [by apply (response_split "HTTP/1.1 405 Method Not Allowed"); [apply Hlit|..|apply Hlit]|done].
  - intros more Hm. unfold handle. fold (request_line request) (request_line (request ++ more)). by rewrite request_line_app.
Qed.

(** A failed accept costs no other connection its answer. *)
Lemma serve_survives before e after : serve (before ++ Err e :: after) = serve before ++ serve after.
Proof. unfold serve. by rewrite omap_app. Qed.

(** ** Output formats *)

Lemma finish_newline buffer t : finish buffer = Ok t → last (bytes t) = Some lf.
Proof.
  unfold finish. case_decide as Hl; destruct (utf8_valid _); intros [= <-]; rewrite String.list_ascii_of_string_of_list_ascii; [done|by rewrite last_snoc].
Qed.

(** what [oxide sql] prints ends in a newline in every format, so a script
    never sees a cut last line; an empty result still has the CSV header of
    its schema; and every format's name, in any case and padding, selects it. *)
Theorem output_render `{!OutputApi} s batches f :
  (∀ t, render s batches f = Ok t → last (bytes t) = Some lf) ∧
  (render s [] Csv = match csv_first (RecordBatch_new_empty s) with Ok b => finish b | Err e => Err (ArrowE e) | Panic => Panic end) ∧
  (OutputFormat_from_str (OutputFormat_as_str f) = Ok f) ∧
  (∀ n g, OutputFormat_from_str n = Ok g → to_ascii_lowercase (str_trim n) = OutputFormat_as_str g).
Proof.
  split_and!.
  - intros t. destruct f; cbn [render].
    + destruct (pretty_format_batches batches) as [x|e|]; cbn; [|done..]. intros [= <-]. rewrite list_ascii_app. change (bytes nl) with [lf]. by rewrite last_snoc.
    + destruct (json_array batches) as [x|e|]; cbn; [apply finish_newline|done..].
    + destruct (csv_bytes _) as [x|e|]; cbn; [apply finish_newline|done..].
  - cbn [render csv_bytes mapM]. destruct (csv_first (RecordBatch_new_empty s)) as [x|e|]; [|done..]. cbn. by rewrite app_nil_r.
  - by destruct f.
  - intros n g. unfold OutputFormat_from_str. repeat case_decide; intros [= <-]; done.
Qed.

Example metrics_demo :
  handle (bytes ("POST /metrics HTTP/1.1" +:+ crlf)) TelemetryHub_new = Ok (status 405 "Method Not Allowed" ("only GET is served" +:+ nl)) ∧
  handle (bytes ("GET /metrics?x=1 HTTP/1.1" +:+ crlf)) TelemetryHub_new = Ok (metrics_ok (to_prometheus (hub_snapshot TelemetryHub_new))) ∧
  handle (bytes "GET") TelemetryHub_new = Ok (status 400 "Bad Request" ("expected a request line" +:+ nl)).
Proof. by vm_compute. Qed.
