(* ===== verification/Cli.v ===== *)
(** * oxidelake-runtime: the command line

    Models [src/crates/oxidelake-runtime/src/bin/oxide.rs] after its arguments
    are parsed: the table specifications, the session they open, the four
    commands and what they write.  A session's context as the dashboard sees it
    is an operation of [SessionContexts]; standard output is a reader that
    takes a number of bytes and then fails.  Standard error is the lines written
    to it: the subscriber that [main] installs and the report of an error that
    [main] returns are operations of [Diagnostics].  The second part has the
    properties. *)

From Stdlib Require Import Ascii.
From S2P Require Import Prelude Floats Arrow Core Telemetry Memory ArrowKernels Kernels Device Execs Planner.
From S2P Require Import Udf Predict Datagen Parquet Text Tui Render Display Dashboard Session Cluster Metrics.

(** ** Standard output ([write_out]) *)

Inductive WriteKind := BrokenPipe | WriteFailed (kind : ErrorKind).

(** A reader that takes [room] more bytes, any number for [None], and then
    fails every write. *)
Record Stdout := mkStdout { printed : list ascii; room : option nat; failure : WriteKind }.

Definition write_stdout (bytes : list ascii) (o : Stdout) : res WriteKind unit * Stdout :=
  match room o with
  | None => (Ok tt, mkStdout (printed o ++ bytes) None (failure o))
  | Some n =>
      let o' := mkStdout (printed o ++ take n bytes) (Some (n - length bytes)%nat) (failure o) in
      (if (length bytes <=? n)%nat then Ok tt else Err (failure o), o')
  end.

Definition write_out (text : string) (o : Stdout) : res ErrorKind unit * Stdout :=
  match write_stdout (String.list_ascii_of_string text) o with
  | (Err BrokenPipe, o) => (Ok tt, o)
  | (Err (WriteFailed kind), o) => (Err kind, o)
  | (Ok _, o) => (Ok tt, o)
  | (Panic, o) => (Panic, o)
  end.

(** ** The arguments *)

Inductive Command :=
  | GenData (rows : Z) (out : string) (seed row_group_rows : Z) (compression : Compression)
  | Sql (query : string) (tables : list string) (cluster : option string) (target : option BackendKind)
        (batch_size : option Z) (output : OutputFormat)
  | Explain (query : string) (tables : list string) (target : option BackendKind) (batch_size : option Z)
  | TuiCommand (query : option string) (tables : list string) (target : option BackendKind) (batch_size : option Z).

Definition parse_table (spec : string) : res MainError (string * string) :=
  match Predict.split_once "=" (String.list_ascii_of_string spec) with
  | Some (name, path) => Ok (String.string_of_list_ascii name, String.string_of_list_ascii path)
  | None => Err (Message ("--table expects NAME=PATH, got '" +:+ spec +:+ "'"))
  end.
Definition parse_tables (tables : list string) : res MainError (list (string * string)) := mapM parse_table tables.

(** A session's context as [query_dashboard] uses it. *)
Class SessionContexts := {
  context_of : OxideSession → SqlSession;
  enter s : Execs.World → @SqlWorld (context_of s);
  leave s : @SqlWorld (context_of s) → Execs.World;
}.

(** Standard error: the subscriber [main] installs, with [RUST_LOG]'s filter, and
    what the runtime writes about a [main] that fails. *)
Class Diagnostics `{ParquetApi} := {
  (** the lines that the events of the crates below leave while a command works,
      as far as the filter admits them *)
  layer_events : Command → Execs.World → Fs → list string;
  (** the INFO event of a query, with the time it took, if the filter admits it *)
  query_line : QueryLog → option string;
  (** [Error: {err:?}], and the message of a panic *)
  error_report : MainError → string;
  panic_message : string;
}.

(** [main]'s outcome: it returns, or leaves with a code. *)
Inductive Exit := Returned (r : res MainError unit) | ExitCode (code : Z).

Section Cli.
Context `{Hardware, Allocator, CudaDriver, ArrowKernels, HashOrder, !SessionApi, !SessionContexts, !PlanDisplay}.
Context `{!ParquetApi, !TerminalApi, !OutputApi, !Diagnostics}.
(** [OXIDE_BACKEND], and whether the [predict] feature is on. *)
Context (env : option string) (feature_predict : bool).

Record CliState := mkCli {
  cs_world : Execs.World;
  cs_fs : Fs;
  cs_stdout : Stdout;
  cs_stderr : list string;
  cs_terminal : Tui.World;
}.

(** *** The session ([session]) *)

Fixpoint register_all (tables : list (string * string)) (s : OxideSession) (w : Execs.World) :
    Execs.World * result OxideSession :=
  match tables with
  | [] => (w, Ok s)
  | (name, path) :: tables =>
      let '(w, r) := register_parquet s name path w in
      match r with
      | Ok s => register_all tables s w
      | Err e => (w, Err e)
      | Panic => (w, Panic)
      end
  end.

Definition session_options (batch_size : option Z) : SessionOptions :=
  match batch_size with Some rows => with_batch_size rows SessionOptions_new | None => SessionOptions_new end.

Definition open_session (cluster : option string) (target : option BackendKind) (batch_size : option Z)
    (w : Execs.World) : Execs.World * res MainError OxideSession :=
  let options := session_options batch_size in
  match cluster, target with
  | Some _, Some _ =>
      (w, Err (Message "--target picks the embedded placement target; on a cluster the scheduler's OXIDE_CLUSTER_BACKEND decides placement"))
  | Some url, None => let '(w, r) := connect_with_options feature_predict url options w in (w, map_err EngineFailed r)
  | None, target =>
      let options := match target with Some t => with_target t options | None => options end in
      let '(w, r) := local_with_options env feature_predict options w in (w, map_err EngineFailed r)
  end.

Definition session (cluster : option string) (target : option BackendKind) (batch_size : option Z)
    (tables : list string) (w : Execs.World) : Execs.World * res MainError OxideSession :=
  match open_session cluster target batch_size w with
  | (w, Ok s) =>
      match parse_tables tables with
      | Ok pairs => let '(w, r) := register_all pairs s w in (w, map_err EngineFailed r)
      | Err e => (w, Err e)
      | Panic => (w, Panic)
      end
  | (w, r) => (w, r)
  end.

(** *** The commands *)

Definition written_line (rows : Z) (path : string) (seed row_group_rows : Z) (c : Compression) : string :=
  "wrote " +:+ pretty rows +:+ " rows to " +:+ path +:+ " (seed " +:+ pretty seed +:+ ", "
  +:+ pretty row_group_rows +:+ " rows per row group, " +:+ Compression_as_str c +:+ ")" +:+ nl.

Definition set_world (w : Execs.World) (st : CliState) : CliState :=
  mkCli w (cs_fs st) (cs_stdout st) (cs_stderr st) (cs_terminal st).
Definition set_fs (fs : Fs) (st : CliState) : CliState :=
  mkCli (cs_world st) fs (cs_stdout st) (cs_stderr st) (cs_terminal st).
Definition set_terminal (t : Tui.World) (st : CliState) : CliState :=
  mkCli (cs_world st) (cs_fs st) (cs_stdout st) (cs_stderr st) t.

(** Lines on standard error. *)
Definition logged (lines : list string) (st : CliState) : CliState :=
  mkCli (cs_world st) (cs_fs st) (cs_stdout st) (cs_stderr st ++ lines) (cs_terminal st).

(** The last step of a command that prints. *)
Definition print (text : string) (st : CliState) : Exit * CliState :=
  let '(r, o) := write_out text (cs_stdout st) in
  (Returned (map_err IoFailed r), mkCli (cs_world st) (cs_fs st) o (cs_stderr st) (cs_terminal st)).

Definition fail {A} (r : res MainError A) (st : CliState) : Exit * CliState :=
  (Returned (match r with Ok _ => Ok tt | Err e => Err e | Panic => Panic end), st).

Definition gen_data (rows : Z) (out : string) (seed row_group_rows : Z) (c : Compression) (st : CliState) : Exit * CliState :=
  let '(r, fs) := write_demo_table out rows seed (demo_write_options row_group_rows c) (cs_fs st) in
  let st := logged (layer_events (GenData rows out seed row_group_rows c) (cs_world st) (cs_fs st)) (set_fs fs st) in
  match r with
  | Ok table => print (written_line (dt_rows table) (dt_path table) seed row_group_rows c) st
  | Err e => fail (A := unit) (Err (EngineFailed e)) st
  | Panic => fail (A := unit) Panic st
  end.

Definition sql_command (query : string) (tables : list string) (cluster : option string) (target : option BackendKind)
    (batch_size : option Z) (output : OutputFormat) (st : CliState) : Exit * CliState :=
  let events := layer_events (Sql query tables cluster target batch_size output) (cs_world st) (cs_fs st) in
  let '(w, s) := session cluster target batch_size tables (cs_world st) in
  match s with
  | Ok s =>
      let '(w, r, log) := Session.collect s query w in
      let st := logged (option_list (log ≫= query_line)) (logged events (set_world w st)) in
      match map_err EngineFailed ('(schema, batches) ← r; Metrics.render schema batches output) with
      | Ok text => print text st
      | bad => fail bad st
      end
  | bad => fail bad (logged events (set_world w st))
  end.

Definition explain_command (query : string) (tables : list string) (target : option BackendKind)
    (batch_size : option Z) (st : CliState) : Exit * CliState :=
  let events := layer_events (Explain query tables target batch_size) (cs_world st) (cs_fs st) in
  let '(w, s) := session None target batch_size tables (cs_world st) in
  match s with
  | Ok s =>
      let '(w, r) := Session.explain s query w in
      let st := logged events (set_world w st) in
      match map_err EngineFailed r with
      | Ok text => print text st
      | bad => fail bad st
      end
  | bad => fail bad (logged events (set_world w st))
  end.

Definition NON_INTERACTIVE_TERMINAL_MESSAGE : string :=
  "oxide tui needs an interactive terminal; use oxide sql or oxide explain for non-interactive output".

(** The model the dashboard opens with. *)
Definition tui_model (query : option string) (tables : list string) (target : option BackendKind)
    (batch_size : option Z) (w : Execs.World) : Execs.World * res MainError DashboardModel :=
  match query with
  | None => (w, Ok demo_model)
  | Some sql =>
      match session None target batch_size tables w with
      | (w, Ok s) =>
          match parse_tables tables with
          | Ok pairs =>
              let '(r, sw) := query_dashboard (H := context_of s) (chars sql) (chars <$> pairs.*1) (enter s w) in
              (leave s sw, map_err EngineFailed r)
          | Err e => (w, Err e)
          | Panic => (w, Panic)
          end
      | (w, Err e) => (w, Err e)
      | (w, Panic) => (w, Panic)
      end
  end.

(** The terminal with [main]'s closure, [|_| {}]. *)
Definition unrefreshed : TerminalApi := {|
  Tui.World := Tui.World; Tui.is_interactive_terminal := is_interactive_terminal; Tui.try_init := try_init;
  Tui.restore := restore; Tui.panic_hook := panic_hook; Tui.refresh := λ m w, (m, w);
  Tui.begin_synchronized_update := begin_synchronized_update; Tui.end_synchronized_update := end_synchronized_update;
  Tui.flush := flush; Tui.draw := draw; Tui.poll := poll; Tui.read := read |}.

(** [fuel] bounds the turns of the dashboard; [None]: it is still open. *)
Definition tui_command (fuel : nat) (query : option string) (tables : list string) (target : option BackendKind)
    (batch_size : option Z) (st : CliState) : option (Exit * CliState) :=
  if negb (is_interactive_terminal (cs_terminal st))
  then Some (ExitCode 2, mkCli (cs_world st) (cs_fs st) (cs_stdout st)
                           (cs_stderr st ++ [NON_INTERACTIVE_TERMINAL_MESSAGE]) (cs_terminal st))
  else
    let events := layer_events (TuiCommand query tables target batch_size) (cs_world st) (cs_fs st) in
    let '(w, m) := tui_model query tables target batch_size (cs_world st) in
    let st := logged events (set_world w st) in
    match m with
    | Ok m =>
        '(r, t) ← run_terminal (H := unrefreshed) fuel m None (cs_terminal st);
        Some (fail (map_err IoFailed r) (set_terminal t st))
    | bad => Some (fail bad st)
    end.

Definition run_command (fuel : nat) (c : Command) (st : CliState) : option (Exit * CliState) :=
  match c with
  | GenData rows out seed row_group_rows c => Some (gen_data rows out seed row_group_rows c st)
  | Sql query tables cluster target batch_size output => Some (sql_command query tables cluster target batch_size output st)
  | Explain query tables target batch_size => Some (explain_command query tables target batch_size st)
  | TuiCommand query tables target batch_size => tui_command fuel query tables target batch_size st
  end.

(** What the runtime reports of [main]'s result. *)
Definition report_lines (ex : Exit) : list string :=
  match ex with
  | Returned (Err e) => [error_report e]
  | Returned Panic => [panic_message]
  | _ => []
  end.

(** [main], with the report of the error it returns. *)
Definition oxide_main (fuel : nat) (c : Command) (st : CliState) : option (Exit * CliState) :=
  (λ '(ex, st), (ex, logged (report_lines ex) st)) <$> run_command fuel c st.
End Cli.

(** ** What a command leaves behind

    Standard output only ever grows by the one text a command reports; a
    command whose reader hangs up has not failed; the tables of a session are
    the ones on the command line. *)

Lemma split_once_spec (sep : ascii) l :
  match Predict.split_once sep l with
  | Some (a, b) => l = a ++ sep :: b ∧ sep ∉ a
  | None => sep ∉ l
  end.
Proof.
  induction l as [|c l IH]; cbn; [set_solver|]. destruct (Ascii.eqb_spec c sep) as [->|Hne]; [set_solver|].
  destruct (Predict.split_once sep l) as [[a b]|]; cbn; [|set_solver]. destruct IH as [-> Hs]. set_solver.
Qed.

Definition no_equals (s : string) : Prop := ("="%char : ascii) ∉ String.list_ascii_of_string s.
(** A specification names a table and its path: the first equals sign parts
    them. *)
Definition names_table (spec : string) (p : string * string) : Prop := spec = p.1 +:+ "=" +:+ p.2 ∧ no_equals p.1.

Lemma parse_table_spec spec :
  match parse_table spec with
  | Ok p => names_table spec p
  | Err e => no_equals spec ∧ ∃ msg, e = Message msg
  | Panic => False
  end.
Proof.
  unfold parse_table, no_equals. pose proof (split_once_spec "=" (String.list_ascii_of_string spec)) as Hs.
  destruct (Predict.split_once _ _) as [[a b]|]; [|split; [done|by eexists]]. destruct Hs as [Heq Ha]. split.
  - cbn. rewrite <- (String.string_of_list_ascii_of_string spec), Heq.
    rewrite <- (String.string_of_list_ascii_of_string (_ +:+ _)), !list_ascii_app, !String.list_ascii_of_string_of_list_ascii. done.
  - unfold no_equals. cbn. by rewrite String.list_ascii_of_string_of_list_ascii.
Qed.

Lemma parse_tables_spec tables :
  match parse_tables tables with
  | Ok pairs => Forall2 names_table tables pairs
  | Err e => (∃ spec, spec ∈ tables ∧ no_equals spec) ∧ ∃ msg, e = Message msg
  | Panic => False
  end.
Proof.
  induction tables as [|spec tables IH]; [constructor|]. unfold parse_tables in *. cbn.
  pose proof (parse_table_spec spec) as Hs. destruct (parse_table spec) as [p|e|]; cbn; [| |done].
  - destruct (mapM parse_table tables) as [ps|e|]; cbn; [by constructor| |done].
    destruct IH as [(s & Hin & Hn) He]. split; [|done]. exists s. set_solver.
  - destruct Hs as [Hn He]. split; [|done]. exists spec. set_solver.
Qed.

Section Correct.
Context `{Hardware, Allocator, CudaDriver, ArrowKernels, HashOrder, !SessionApi, !SessionContexts, !PlanDisplay}.
Context `{!ParquetApi, !TerminalApi, !OutputApi, !Diagnostics}.
Context (env : option string) (feature_predict : bool).

Lemma register_all_tables pairs s w w' s' :
  register_all pairs s w = (w', Ok s') → ss_tables (ses_state s') = ss_tables (ses_state s) ++ pairs.
Proof.
  revert s w. induction pairs as [|[name path] pairs IH]; intros s w; cbn [register_all].
  { intros [= _ <-]. by rewrite app_nil_r. }
  unfold register_parquet. destruct (ctx_register_parquet s name path w) as [w1 [u|e|]]; cbn; [|done|done].
  intros ->%IH. unfold with_table. destruct (ses_state s). cbn. by rewrite <- app_assoc.
Qed.

Lemma open_session_fresh cluster target batch_size w w' s :
  open_session env feature_predict cluster target batch_size w = (w', Ok s) →
  ss_tables (ses_state s) = [] ∧ ¬ (is_Some cluster ∧ is_Some target).
Proof.
  unfold open_session. destruct cluster as [url|].
  - destruct target as [t|]; [done|]. unfold connect_with_options.
    destruct (apply_options _ _ _); cbn; [|done|done]. destruct (remote_with_state _ _ _) as [w1 []]; cbn; [|done|done].
    intros [= _ <-]. split; [done|]. by intros [_ []].
  - intros Hs. split; [|by intros [[] _]]. revert Hs. generalize (match target with Some t => with_target t (session_options batch_size) | None => session_options batch_size end) as o.
    intros o. unfold local_with_options. destruct (match so_target o with Some t => _ | None => _ end) as [w0 [t| |]]; cbn; [|done|done].
    destruct (local_capacity env _) as [w1 c]. destruct (apply_options _ _ _); cbn; [|done|done]. by intros [= _ <-].
Qed.

Lemma session_tables cluster target batch_size tables w w' s :
  session env feature_predict cluster target batch_size tables w = (w', Ok s) →
  Forall2 names_table tables (ss_tables (ses_state s)) ∧ ¬ (is_Some cluster ∧ is_Some target).
Proof.
  unfold session. destruct (open_session _ _ _ _ _ _) as [w1 [s1| |]] eqn:Ho; [|done|done].
  apply open_session_fresh in Ho as [Hnil Hboth]. pose proof (parse_tables_spec tables) as Hp.
  destruct (parse_tables tables) as [pairs| |]; [|done|done].
  destruct (register_all pairs s1 w1) as [w2 [s2| |]] eqn:Hr; cbn; [|done|done]. intros [= _ <-].
  apply register_all_tables in Hr. by rewrite Hr, Hnil.
Qed.

Lemma collect_logs s query w w' r log :
  Session.collect s query w = (w', r, log) →
  match r with
  | Ok (_, batches) => ∃ line, log = Some line ∧ ql_mode line = SessionMode_to_string (ses_mode s) ∧
      ql_rows line = foldl (λ n b, wadd64 n (Z.of_nat (num_rows b))) 0 batches ∧ ql_batches line = Z.of_nat (length batches)
  | _ => log = None
  end.
Proof.
  unfold Session.collect. destruct (ctx_sql s query w) as [w1 [frame|e|]]; [|by intros [= _ <- <-]..].
  destruct (frame_collect frame w1) as [w2 [batches|e|]]; intros [= _ <- <-]; [by eexists|done..].
Qed.

(** The lines a query leaves: one, about this query, once it has run and if the
    filter admits it. *)
Definition query_lines (c : Command) (st : CliState) : list string :=
  match c with
  | Sql query tables cluster target batch_size _ =>
      match session env feature_predict cluster target batch_size tables (cs_world st) with
      | (w, Ok s) => let '(_, _, log) := Session.collect s query w in option_list (log ≫= query_line)
      | _ => []
      end
  | _ => []
  end.

(** The text a command is to print, when it gets as far. *)
Definition reports (c : Command) (st : CliState) (text : string) : Prop :=
  match c with
  | GenData rows out seed row_group_rows c => ∃ t fs,
      write_demo_table out rows seed (demo_write_options row_group_rows c) (cs_fs st) = (Ok t, fs) ∧
      text = written_line (dt_rows t) (dt_path t) seed row_group_rows c
  | Sql query tables cluster target batch_size output => ∃ s w w' schema batches line,
      session env feature_predict cluster target batch_size tables (cs_world st) = (w, Ok s) ∧
      Session.collect s query w = (w', Ok (schema, batches), Some line) ∧ Metrics.render schema batches output = Ok text ∧
      query_lines c st = option_list (query_line line) ∧ ql_mode line = SessionMode_to_string (ses_mode s) ∧
      ql_rows line = foldl (λ n b, wadd64 n (Z.of_nat (num_rows b))) 0 batches ∧ ql_batches line = Z.of_nat (length batches)
  | Explain query tables target batch_size => ∃ s w w',
      session env feature_predict None target batch_size tables (cs_world st) = (w, Ok s) ∧
      Session.explain s query w = (w', Ok text)
  | TuiCommand _ _ _ _ => False
  end.

(** Standard output has taken what it had room for. *)
Definition delivered (text : string) (o o' : Stdout) : Prop :=
  printed o' = printed o ++ match room o with
                            | Some n => take n (String.list_ascii_of_string text)
                            | None => String.list_ascii_of_string text
                            end.
Definition fits (text : string) (o : Stdout) : Prop :=
  match room o with Some n => (length (String.list_ascii_of_string text) ≤ n)%nat | None => True end.

(** Standard error gains the events of the layers below, the query's line, and
    a report if the command failed. *)
Definition stderr_after (c : Command) (st : CliState) (ex : Exit) (st' : CliState) : Prop :=
  cs_stderr st' = cs_stderr st ++ layer_events c (cs_world st) (cs_fs st) ++ query_lines c st ++ report_lines ex.

(** A command that prints, and one that stops before. *)
Definition prints (text : string) (st : CliState) (ex : Exit) (st' : CliState) : Prop :=
  delivered text (cs_stdout st) (cs_stdout st') ∧
  (ex = Returned (Ok tt) ↔ fits text (cs_stdout st) ∨ failure (cs_stdout st) = BrokenPipe).
Definition stops (st : CliState) (ex : Exit) (st' : CliState) : Prop :=
  cs_stdout st' = cs_stdout st ∧ ex ≠ Returned (Ok tt).

Lemma print_prints text st st0 ex st' :
  cs_stdout st = cs_stdout st0 → print text st = (ex, st') → prints text st0 ex st' ∧ cs_stderr st' = cs_stderr st.
Proof.
  intros Ho. unfold print, write_out, write_stdout, prints, delivered, fits. rewrite Ho.
  destruct (cs_stdout st0) as [p [n|] fl]; cbn; [|intros [= <- <-]; cbn; by repeat split; auto].
  destruct (Nat.leb_spec (length (String.list_ascii_of_string text)) n) as [Hle|Hgt].
  - intros [= <- <-]. cbn. repeat split; auto.
  - destruct fl as [|kind]; intros [= <- <-]; cbn; repeat split; auto.
    + done.
    + intros [Hf|Hf]; [lia|done].
Qed.

(** A dashboard prints nothing on standard output; without a terminal it says so
    and does nothing. *)
Definition dashboard_only (c : Command) (st : CliState) (ex : Exit) (st' : CliState) : Prop :=
  cs_stdout st' = cs_stdout st ∧
  if is_interactive_terminal (cs_terminal st) then stderr_after c st ex st'
  else ex = ExitCode 2 ∧
    st' = mkCli (cs_world st) (cs_fs st) (cs_stdout st) (cs_stderr st ++ [NON_INTERACTIVE_TERMINAL_MESSAGE]) (cs_terminal st).

Definition outcome (c : Command) (st : CliState) (ex : Exit) (st' : CliState) : Prop :=
  (∃ text, reports c st text ∧ prints text st ex st' ∧ stderr_after c st ex st') ∨
  ((∀ text, ¬ reports c st text) ∧
   match c with TuiCommand _ _ _ _ => dashboard_only c st ex st' | _ => stops st ex st' ∧ stderr_after c st ex st' end).

Definition main_outcome (c : Command) (st : CliState) (r : Exit * CliState) : Prop :=
  outcome c st r.1 (logged (report_lines r.1) r.2).

Lemma sql_outcome query tables cluster target batch_size output st :
  main_outcome (Sql query tables cluster target batch_size output) st
    (sql_command env feature_predict query tables cluster target batch_size output st).
Proof.
  unfold main_outcome, sql_command, outcome, stderr_after. cbn [reports query_lines].
  destruct (session _ _ _ _ _ _ _) as [w [s|e|]] eqn:Hs.
  2, 3: (right; split; [by intros text (? & ? & ? & ? & ? & ? & [= ] & _)|]; split; [done|by cbn; rewrite <- app_assoc]).
  destruct (Session.collect s query w) as [[w' r] log] eqn:Hc. pose proof (collect_logs _ _ _ _ _ _ Hc) as Hlog.
  assert (∀ text, (∃ s0 w0 w1 sc bs line, (w, Ok (E := MainError) s) = (w0, Ok s0) ∧ Session.collect s0 query w0 = (w1, Ok (sc, bs), Some line) ∧
      Metrics.render sc bs output = Ok text ∧ option_list (log ≫= query_line) = option_list (query_line line) ∧
      ql_mode line = SessionMode_to_string (ses_mode s0) ∧
      ql_rows line = foldl (λ n b, wadd64 n (Z.of_nat (num_rows b))) 0 bs ∧ ql_batches line = Z.of_nat (length bs)) →
    ∃ sc bs, r = Ok (sc, bs) ∧ Metrics.render sc bs output = Ok text) as Hinv.
  { intros text (s0 & w0 & w1 & sc & bs & line & [= <- <-] & Hc' & Hr & _). exists sc, bs. split; [congruence|done]. }
  destruct r as [[schema batches]|e|]; cbn [mbind res_bind map_err].
  2, 3: (right; split; [by intros text (? & ? & [= ] & _)%Hinv|]; split; [done|]; cbn; by rewrite <- !app_assoc).
  destruct Hlog as (line & -> & Hm & Hrows & Hbatches).
  destruct (Metrics.render schema batches output) as [text|e|] eqn:Hr; cbn [map_err].
  - destruct (print text _) as [ex st'] eqn:Hp. apply (print_prints text _ st) in Hp as [Hp He]; [|done]. left.
    exists text. split; [by repeat eexists|]. split; [exact Hp|]. cbn in He |- *. rewrite He. by rewrite <- !app_assoc.
  - right. split; [intros text (sc & bs & [= <- <-] & Hr')%Hinv; congruence|]. split; [done|]. cbn. by rewrite <- !app_assoc.
  - right. split; [intros text (sc & bs & [= <- <-] & Hr')%Hinv; congruence|]. split; [done|]. cbn. by rewrite <- !app_assoc.
Qed.

Lemma explain_outcome query tables target batch_size st :
  main_outcome (Explain query tables target batch_size) st
    (explain_command env feature_predict query tables target batch_size st).
Proof.
  unfold main_outcome, explain_command, outcome, stderr_after. cbn [reports query_lines].
  destruct (session _ _ _ _ _ _ _) as [w [s|e|]] eqn:Hs.
  2, 3: (right; split; [by intros text (? & ? & ? & [= ] & _)|]; split; [done|by cbn; rewrite <- app_assoc]).
  destruct (Session.explain s query w) as [w' [text|e|]] eqn:Hc; cbn [map_err].
  - destruct (print text _) as [ex st'] eqn:Hp. apply (print_prints text _ st) in Hp as [Hp He]; [|done]. left.
    exists text. split; [by repeat eexists|]. split; [exact Hp|]. cbn in He |- *. rewrite He. by rewrite <- !app_assoc.
  - right. split; [|split; [done|by cbn; rewrite <- app_assoc]]. intros text (s0 & w0 & w1 & [= <- <-] & Hc'). congruence.
  - right. split; [|split; [done|by cbn; rewrite <- app_assoc]]. intros text (s0 & w0 & w1 & [= <- <-] & Hc'). congruence.
Qed.

Lemma gen_data_outcome rows out seed row_group_rows c st :
  main_outcome (GenData rows out seed row_group_rows c) st (gen_data rows out seed row_group_rows c st).
Proof.
  unfold main_outcome, gen_data, outcome, stderr_after. cbn [reports query_lines].
  destruct (write_demo_table _ _ _ _ _) as [[t|e|] fs] eqn:Hw.
  - destruct (print _ _) as [ex st'] eqn:Hp. apply (print_prints _ _ st) in Hp as [Hp He]; [|done]. left.
    eexists. split; [by exists t, fs|]. split; [exact Hp|]. cbn in He |- *. rewrite He. by rewrite <- !app_assoc.
  - right. split; [by intros text (t & fs' & [= ] & _)|split; [done|by cbn; rewrite <- app_assoc]].
  - right. split; [by intros text (t & fs' & [= ] & _)|split; [done|by cbn; rewrite <- app_assoc]].
Qed.

Lemma tui_outcome fuel query tables target batch_size st :
  match tui_command env feature_predict fuel query tables target batch_size st with
  | Some r => main_outcome (TuiCommand query tables target batch_size) st r
  | None => True
  end.
Proof.
  unfold main_outcome, tui_command, outcome, dashboard_only, stderr_after. cbn [reports query_lines].
  destruct (is_interactive_terminal (cs_terminal st)); cbn [negb].
  - destruct (tui_model _ _ _ _ _ _ _) as [w [m|e|]]; cbn.
    + destruct (run_terminal _ _ _ _) as [[r t]|]; cbn; [|done]. right. split; [by intros text []|].
      split; [done|by rewrite <- app_assoc].
    + right. split; [by intros text []|]. split; [done|by rewrite <- app_assoc].
    + right. split; [by intros text []|]. split; [done|by rewrite <- app_assoc].
  - right. split; [by intros text []|]. split; [done|]. split; [done|]. unfold logged. cbn. by rewrite app_nil_r.
Qed.

(** C27: [oxide] prints on standard output the one text its command reports, and
    nothing else; what it has to say besides goes to standard error.  Whatever
    fails before that text exists (a table specification, the session, a
    registration, the query, the rendering, the file) leaves standard output as
    it was and the exit unsuccessful; once it exists, standard output takes as
    much of it as the reader has room for, and the command succeeds exactly when
    that was all of it or the reader hung up.  Standard error gains what the
    filter admits of the events of the layers below and, from a query that ran,
    of the one line that names its mode, rows and batches; then, exactly when
    the command failed, the one report of its error.  The dashboard prints
    nothing on standard output, and without a terminal it does nothing but say
    so on standard error and leave with code 2; only an open dashboard does not
    end.  The session a query runs in has exactly the tables of the command line,
    in order, each specification parted at its first equals sign, and was not
    given a target on a cluster. *)
Theorem oxide_output fuel c st :
  match oxide_main env feature_predict fuel c st with
  | Some (ex, st') => outcome c st ex st'
  | None => ∃ query tables target batch_size, c = TuiCommand query tables target batch_size
  end ∧
  (∀ cluster target batch_size tables w w' s,
     session env feature_predict cluster target batch_size tables w = (w', Ok s) →
     Forall2 names_table tables (ss_tables (ses_state s)) ∧ ¬ (is_Some cluster ∧ is_Some target)).
Proof.
  split; [|intros *; apply session_tables]. unfold oxide_main. destruct c; cbn [run_command fmap option_fmap option_map].
  - pose proof (gen_data_outcome rows out seed row_group_rows compression st) as Ho. by destruct (gen_data _ _ _ _ _ _).
  - pose proof (sql_outcome query tables cluster target batch_size output st) as Ho. by destruct (sql_command _ _ _ _ _ _ _ _ _).
  - pose proof (explain_outcome query tables target batch_size st) as Ho. by destruct (explain_command _ _ _ _ _ _ _).
  - pose proof (tui_outcome fuel query tables target batch_size st) as Ho.
    destruct (tui_command _ _ _ _ _ _ _ _) as [[ex st']|]; [done|by repeat eexists].
Qed.
End Correct.

(** ** A query that runs, and one that is refused *)

Module CliExample.
Import SessionExample ParquetExample.
#[local] Existing Instances bump no_driver order cpu_only api ReferenceArrow.

#[local] Instance no_display : PlanDisplay := {| df_name := λ _, ""; df_fmt_as := λ _ _, []; one_line := id |}.
Definition no_context : SqlSession := {|
  SqlWorld := Execs.World; Dashboard.Frame := unit;
  sql := λ _ w, (Err (Plan "no context"), w); create_physical_plan := λ _ w, (Err (DFPlan "no context"), w);
  Dashboard.collect_frame := λ _ w, (Ok [], w); collect_plan := λ _ w, (Ok [], w);
  table_schema := λ _ w, (Err (DFPlan "no tables"), w); telemetry := λ _, TelemetryHub_new; with_telemetry := λ _ w, w;
  format_first := λ _, None; data_type_text := λ _, [] |}.
#[local] Instance contexts : SessionContexts := {|
  context_of := λ _, no_context; enter := λ _ w, w; leave := λ _ w, w |}.
#[local] Instance counted : OutputApi := {|
  pretty_format_batches := λ bs, Ok ("batches: " +:+ pretty (length bs));
  json_array := λ _, Ok []; csv_first := λ _, Ok []; csv_next := λ _, Ok [] |}.
(** [RUST_LOG=info], and a message for an error of its own kind. *)
#[local] Instance info : Diagnostics := {|
  layer_events := λ _ _ _, [];
  query_line := λ l, Some ("query finished mode=" +:+ ql_mode l +:+ " rows=" +:+ pretty (ql_rows l));
  error_report := λ e, "Error: " +:+ match e with EngineFailed (Plan msg) => msg | _ => "failed" end;
  panic_message := "panicked" |}.

Definition shell : CliState :=
  mkCli empty_world (mkFs [] ∅) (mkStdout [] None BrokenPipe) [] (mkWorld false (Ok tt) [] [] 0).
Definition select_one (batch_size : option Z) : Command := Sql "SELECT 1" [] None (Some Cuda) batch_size Table.

(** What is seen of a run: the exit, standard output and standard error. *)
Definition seen (r : option (Exit * CliState)) : option (Exit * string * list string) :=
  (λ '(ex, st), (ex, String.string_of_list_ascii (printed (cs_stdout st)), cs_stderr st)) <$> r.

Lemma oxide_output_witness :
  (∃ ex st, oxide_main None false 0 (select_one None) shell = Some (ex, st) ∧ outcome None false (select_one None) shell ex st ∧
    seen (Some (ex, st)) = Some (Returned (Ok tt), "batches: 1" +:+ nl, ["query finished mode=embedded/cuda rows=1"])) ∧
  ∃ ex st, oxide_main None false 0 (select_one (Some 0)) shell = Some (ex, st) ∧
    outcome None false (select_one (Some 0)) shell ex st ∧
    let msg := "batch size must be at least 1 row (0 would make every query return nothing)" in
    seen (Some (ex, st)) = Some (Returned (Err (EngineFailed (Plan msg))), "", ["Error: " +:+ msg]).
Proof.
  split.
  - assert (seen (oxide_main None false 0 (select_one None) shell) = Some (Returned (Ok tt), "batches: 1" +:+ nl,
      ["query finished mode=embedded/cuda rows=1"])) as Hs by (vm_compute; reflexivity).
    destruct (oxide_output None false 0 (select_one None) shell) as [Ho _].
    destruct (oxide_main None false 0 (select_one None) shell) as [[ex st]|]; [|discriminate Hs].
    exists ex, st. split; [reflexivity|]. split; [exact Ho|exact Hs].
  - assert (seen (oxide_main None false 0 (select_one (Some 0)) shell)
      = Some (Returned (Err (EngineFailed (Plan "batch size must be at least 1 row (0 would make every query return nothing)"))), "",
          ["Error: batch size must be at least 1 row (0 would make every query return nothing)"])) as Hs by (vm_compute; reflexivity).
    destruct (oxide_output None false 0 (select_one (Some 0)) shell) as [Ho _].
    destruct (oxide_main None false 0 (select_one (Some 0)) shell) as [[ex st]|]; [|discriminate Hs].
    exists ex, st. split; [reflexivity|]. split; [exact Ho|exact Hs].
Defined.
End CliExample.
