(* ===== verification/Api.v ===== *)
(** * oxidelake-api: the frame API

    Models [src/crates/oxidelake-api/src/frame.rs]: [OxideFrame] with its verbs
    and the entry points of [OxideSessionExt].  DataFusion's data frames,
    expressions and contexts are operations of [DataFrames], over the session
    of [Dashboard]. *)

From S2P Require Import Prelude Floats Arrow Core Telemetry Memory ArrowKernels Kernels VectorCorrect.
From S2P Require Import ConcatCorrect Device DeviceCorrect Operator OperatorCorrect OperatorClaims Execs.
From S2P Require Import ExecsCorrect ExecsMore Planner PlannerCorrect FloatFacts Udf Text Tui Render Display.
From S2P Require Import Dashboard.

Class DataFrames `{SqlSession} := {
  Expr : Type;
  SortExpr : Type;
  (** [col], [lit], [ScalarUDF::call] *)
  col : string → Expr;
  lit : ScalarValue → Expr;
  udf_call : string → list Expr → Expr;
  (** the methods of [DataFrame] *)
  df_schema : Frame → Schema;
  df_filter : Frame → Expr → df_result Frame;
  df_select_columns : Frame → list string → df_result Frame;
  df_alias : Frame → string → df_result Frame;
  df_join : Frame → Frame → JoinType → list string → list string → option Expr → df_result Frame;
  df_aggregate : Frame → list Expr → list Expr → df_result Frame;
  df_sort : Frame → list SortExpr → df_result Frame;
  df_limit : Frame → Z → option Z → df_result Frame;
  df_with_column : Frame → string → Expr → df_result Frame;
  (** [displayable(plan).indent(true)] *)
  indented : ExecutionPlan → text;
  (** the context's tables *)
  ctx_read_parquet : string → SqlWorld → df_result Frame * SqlWorld;
  ctx_table : string → SqlWorld → df_result Frame * SqlWorld;
}.

Section Api.
Context `{DataFrames}.

Record OxideFrame := OxideFrame_new { inner : Frame }.

(** [Ok(Self::new(inner?))]. *)
Definition framed (r : df_result Frame) : result OxideFrame := OxideFrame_new <$> map_err DataFusion r.

Definition OxideFrame_schema (f : OxideFrame) : Schema := df_schema (inner f).
Definition filter (f : OxideFrame) (predicate : Expr) : result OxideFrame := framed (df_filter (inner f) predicate).
Definition select (f : OxideFrame) (columns : list string) : result OxideFrame :=
  framed (df_select_columns (inner f) columns).
Definition alias (f : OxideFrame) (name : string) : result OxideFrame := framed (df_alias (inner f) name).
Definition join (f right : OxideFrame) (left_key right_key : string) : result OxideFrame :=
  framed (df_join (inner f) (inner right) Inner [left_key] [right_key] None).
Definition aggregate (f : OxideFrame) (group_by aggregates : list Expr) : result OxideFrame :=
  framed (df_aggregate (inner f) group_by aggregates).
Definition sort (f : OxideFrame) (exprs : list SortExpr) : result OxideFrame := framed (df_sort (inner f) exprs).
Definition limit (f : OxideFrame) (n : Z) : result OxideFrame := framed (df_limit (inner f) 0 (Some n)).

(** The call [vector_distance] appends. *)
Definition distance_call (column : string) (query : list f32) (metric : DistanceMetric) : Expr :=
  udf_call (distance_udf_name metric) [col column; lit (query_literal query)].

Definition vector_distance (f : OxideFrame) (column : string) (query : list f32) (metric : DistanceMetric)
    (output : string) : result OxideFrame :=
  framed (df_with_column (inner f) output (distance_call column query metric)).

Definition explain (f : OxideFrame) : sql_op text :=
  sql_bind (df_op (create_physical_plan (inner f))) (λ plan, sql_ret (indented plan)).

Definition collect (f : OxideFrame) : sql_op (list RecordBatch) := df_op (collect_frame (inner f)).

(** [OxideSessionExt]. *)
Definition read_parquet (path : string) : sql_op OxideFrame :=
  sql_bind (df_op (ctx_read_parquet path)) (λ f, sql_ret (OxideFrame_new f)).
Definition table (name : string) : sql_op OxideFrame :=
  sql_bind (df_op (ctx_table name)) (λ f, sql_ret (OxideFrame_new f)).
Definition sql_frame (query : text) : sql_op OxideFrame :=
  sql_bind (sql query) (λ f, sql_ret (OxideFrame_new f)).
End Api.

(** ** The frame API reaches the device and means the SQL function

    Properties of [Api]: what [vector_distance] asks DataFusion for, a column of
    calls of the SQL distance function, is, as a projection behind the columns of
    its input, what the placement rule replaces by [GpuVectorDistanceExec], and
    running that node delivers what evaluating the SQL function on every batch
    gives.  Which plan DataFusion makes of a frame is not assumed. *)

(** ** The projection of a distance *)

(** The type of an argument. *)
Definition argument_type (s : Schema) (e : PhysicalExpr) : option DataType :=
  match e with
  | EColumn _ i => field_type_of <$> fields s !! i
  | ELiteral (SvFixedSizeList l) => Some (FixedSizeList (Field_new "item" (fsl_item l) true) (fsl_size l))
  | _ => None
  end.

(** Every column of a schema, under its name. *)
Definition all_columns (s : Schema) : list (PhysicalExpr * string) :=
  imap (λ i f, (EColumn (field_name f) i, field_name f)) (fields s).

(** The call, planned over the input's columns. *)
Definition planned_call (column : string) (i : nat) (query : list f32) (metric : DistanceMetric) : PhysicalExpr :=
  EScalarFunction (distance_udf_name metric) [EColumn column i; ELiteral (query_literal query)].

(** What the projection computes of a batch whose vector column is [l]. *)
Definition evaluate_distance `{ListArrays} (s : Schema) (l : FixedSizeListArray) (metric : DistanceMetric)
    (query : list f32) (b : RecordBatch) : df_result RecordBatch :=
  v ← invoke_distance metric [CvList l; CvScalar (query_literal query)] (num_rows b);
  match v with
  | CvArray a => Ok (mkBatch s (columns b ++ [a]) (num_rows b))
  | _ => Err (DFInternal "expected an array")
  end.

(** ** The rule on such a projection *)

Lemma split_last_app {A} (l : list A) x : split_last (l ++ [x]) = Some (x, l).
Proof. unfold split_last. rewrite rev_app_distr. cbn. by rewrite rev_involutive. Qed.

Lemma all_columns_pass s : passes_through s (all_columns s) = true.
Proof.
  unfold passes_through, all_columns. rewrite length_imap, Nat.eqb_refl. cbn [andb].
  apply forallb_forall. intros [position [e alias]] Hin. apply list_elem_of_In, elem_of_lookup_imap in Hin.
  destruct Hin as (i & x & [= -> <-] & Hx). rewrite list_lookup_imap in Hx.
  destruct (fields s !! i) as [f|] eqn:Hf; [|done]. injection Hx as [= <- <-]. cbn [column_index].
  rewrite Nat.eqb_refl. cbn. by apply bool_decide_eq_true_2.
Qed.

Lemma metric_of_name m : distance_metric_for (distance_udf_name m) = Some m.
Proof. by destruct m. Qed.

Lemma literal_query_of query :
  query ≠ [] → Z.of_nat (length query) ≤ i32_max → literal_query (query_literal query) = Ok (Some query).
Proof.
  intros Hne Hlen. unfold query_literal, literal_query. rewrite (proj2 (Z.leb_le _ _)) by done. cbn [fsl_valid fsl_item fsl_size fsl_values].
  destruct query as [|q qs]; [done|]. set (query := q :: qs) in *. rewrite bool_decide_eq_true_2 by done. cbn [negb].
  replace (forallb _ _) with true.
  2: { symmetry. apply forallb_forall. intros o (x & -> & _)%list_elem_of_In%list_elem_of_fmap. by apply bool_decide_eq_true_2. }
  cbn [negb]. rewrite (proj2 (Z.ltb_ge _ _)) by lia.
  assert (default f32_zero <$> (Some <$> query) = query) as ->.
  { rewrite <- list_fmap_compose. apply list_fmap_id. }
  unfold slice. rewrite Z.leb_refl, !(proj2 (Z.leb_le _ _)) by lia. cbn [andb fmap res_fmap].
  rewrite drop_0, take_ge; [done|lia].
Qed.

(** The call's arguments need no coercion. *)
Lemma distance_arguments `{ListArrays} s column i f item query :
  fields s !! i = Some f → field_type_of f = FixedSizeList item (Z.of_nat (length query)) → field_type_of item = Float32 →
  query ≠ [] → Z.of_nat (length query) ≤ i32_max →
  ∃ tys, mapM (argument_type s) [EColumn column i; ELiteral (query_literal query)] = Some tys ∧ coerce_types tys = Ok tys.
Proof.
  intros Hf Ht Hi Hne Hlen. unfold query_literal. rewrite (proj2 (Z.leb_le _ _)) by done.
  eexists. split; [cbn; rewrite Hf; cbn; rewrite Ht; reflexivity|].
  unfold coerce_types. cbn [length Nat.eqb negb mapM]. unfold check_element. cbn [list_element ok_or mbind res_bind].
  cbn [field_type_of Field_new]. rewrite Hi. cbn [is_numeric mbind res_bind mret res_ret omap list_omap fixed_dimension head ok_or existsb].
  rewrite !Z.eqb_refl. cbn [negb orb]. cbn [fmap list_fmap field_type_of Field_new].
  by rewrite Hi, !bool_decide_eq_true_2 by done.
Qed.

Lemma field_type_lookup s i f who : fields s !! i = Some f → field_type s i who = Ok (field_type_of f).
Proof. intros Hf. unfold field_type. by rewrite Hf. Qed.

Lemma distance_lowered r p pass props column i f item query metric output h :
  fields (node_schema p) !! i = Some f →
  field_type_of f = FixedSizeList item (Z.of_nat (length query)) → field_type_of item = Float32 →
  query ≠ [] → Z.of_nat (length query) ≤ i32_max →
  passes_through (node_schema p) pass = true →
  pp_schema props = Schema_new (fields (node_schema p) ++ [Field_new output Float32 true]) →
  ∃ e0, GpuVectorDistanceExec_try_new p i query metric output (hr_target r) = Ok e0 ∧
    pp_schema (gv_properties e0) = pp_schema props ∧ gv_schema e0 = pp_schema props ∧
    rewrite_vector r (ProjectionExec p (pass ++ [(planned_call column i query metric, output)]) props) h
    = (h, Ok (Some (GpuVector (instrument r gv_with_config e0)))).
Proof.
  intros Hf Ht Hi Hne Hlen Hpass Hs.
  assert (0 < Z.of_nat (length query)) as Hpos by (destruct query; [done|cbn; lia]).
  eassert (GpuVectorDistanceExec_try_new p i query metric output (hr_target r) = Ok _) as Hnew.
  { unfold GpuVectorDistanceExec_try_new. rewrite (field_type_lookup _ _ _ _ Hf). cbn [mbind res_bind].
    rewrite Ht. unfold vector_dimension. rewrite Hi, bool_decide_eq_true_2 by done. rewrite (proj2 (Z.ltb_lt _ _)) by done.
    cbn [andb ok_or mbind res_bind]. rewrite Z.eqb_refl. reflexivity. }
  eexists. split; [exact Hnew|]. split; [by rewrite Hs|]. split; [by rewrite Hs|].
  cbn [rewrite_vector]. unfold lower_vector_distance. rewrite split_last_app, Hpass. cbn [negb planned_call].
  rewrite metric_of_name. cbn [distance_args]. unfold pm_bind, pm_lift. rewrite literal_query_of by done.
  rewrite Hnew. rewrite bool_decide_eq_true_2 by (by rewrite Hs). done.
Qed.

(** ** From the frame to the rows *)

Section Frames.
Context `{Hardware, Allocator, CudaDriver, !ArrowKernels, !ArrowLaws, !HashOrder, !HashOrderLaw, !BatchSize} (env : option string).
Context `{SqlSession, !DataFrames, ListArrays, !ListArraysLaws}.

Lemma evaluate_is_with_distances s l b i item n metric query :
  columns b !! i = Some (fsl_array l item (length query)) → vectors_ok l (num_rows b) (length query) →
  n = num_rows b → query ≠ [] → Z.of_nat (length query) ≤ i32_max →
  evaluate_distance s l metric query b = Ok (with_distances s b i query metric).
Proof.
  intros Hc Hl -> Hne Hlen. unfold evaluate_distance.
  destruct (invoke_distance_spec l (num_rows b) metric query item Hne Hl Hlen) as [-> _].
  cbn [mbind res_bind]. unfold with_distances, column_values. by rewrite Hc.
Qed.

(** C22: the distance column of a frame runs on the device and means the SQL
    function.  [vector_distance] asks DataFusion for a column that calls the
    metric's SQL function on the named column and the query as a list literal;
    with a vector column of the query's dimension the call needs no coercion and
    returns [Float32].  Wherever a plan projects such a call behind all columns
    of its input, under the schema the call has (nullable, and no metadata on the
    schema), the placement rule replaces the projection, with the same schema
    and without a skip, by a [GpuVectorDistanceExec] over the same input with
    that column, query, metric and name.  On any backend that meets its contract
    that node delivers, batch by batch, the rows that the projection would have
    computed by calling the SQL function on the column and the query literal,
    or, on a GPU only, a failure of the device in their place.  Which plan
    DataFusion makes of a frame, and of column names the frame already has, is
    its own matter. *)
Theorem frame_vector_distance g `{!BackendContract g} r p pass props column i f item query metric output :
  passes_through (node_schema p) pass = true → fields (node_schema p) !! i = Some f →
  field_type_of f = FixedSizeList item (Z.of_nat (length query)) → field_type_of item = Float32 →
  query ≠ [] → Z.of_nat (length query) ≤ i32_max →
  pp_schema props = Schema_new (fields (node_schema p) ++ [Field_new output Float32 true]) →
  let q := ProjectionExec p (pass ++ [(planned_call column i query metric, output)]) props in
  (∀ fr, vector_distance fr column query metric output
     = framed (df_with_column (inner fr) output
         (udf_call (distance_udf_name metric) [col column; lit (query_literal query)]))) ∧
  (∃ tys, mapM (argument_type (node_schema p)) [EColumn column i; ELiteral (query_literal query)] = Some tys ∧
     coerce_types tys = Ok tys ∧ return_type tys = Ok Float32) ∧
  ∃ e, (∀ h, rewrite_vector r q h = (h, Ok (Some (GpuVector e)))) ∧
    node_schema (GpuVector e) = node_schema q ∧ gv_schema e = node_schema q ∧
    gv_input e = p ∧ gv_column e = i ∧ gv_query e = query ∧ gv_metric e = metric ∧ gv_output_name e = output ∧
    cfg_target (gv_config e) = hr_target r ∧
    ∀ c w w1 c1 o bes (list_of : RecordBatch → FixedSizeListArray),
      config_operator env c "GpuVectorDistanceExec" w = (w1, c1, Ok o) → op_backend o = g →
      Forall (typed (node_schema p)) bes.*1 → Forall (λ b, Z.of_nat (num_rows b) ≤ i64_max) bes.*1 →
      Forall (λ b, columns b !! i = Some (fsl_array (list_of b) item (length query)) ∧
                   vectors_ok (list_of b) (num_rows b) (length query)) bes.*1 →
      ∃ outs, (gv_execute env (gv_with_config (λ _, c) e) (Ok (ok_item <$> bes)) w).2 = Ok outs ∧
        Forall2 (λ b out, ∃ ref, evaluate_distance (node_schema q) (list_of b) metric query b = Ok ref ∧ delivers g ref out)
          bes.*1 outs.
Proof.
  intros Hpass Hf Ht Hi Hne Hlen Hs q. split; [done|]. split.
  { destruct (distance_arguments (node_schema p) column i f item query Hf Ht Hi Hne Hlen) as (tys & Htys & Hco). by exists tys. }
  destruct (distance_lowered r p pass props column i f item query metric output TelemetryHub_new Hf Ht Hi Hne Hlen Hpass Hs)
    as (e0 & Hnew & Hps & Hgs & _).
  destruct (instrument_cases r gv_with_config e0) as (k & Hk & Hkt); [by intros []|].
  pose proof Hnew as Hfields. unfold GpuVectorDistanceExec_try_new in Hfields.
  apply bind_Ok_inv in Hfields as (dt & _ & Hfields). apply bind_Ok_inv in Hfields as (dim & _ & Hfields).
  destruct (negb _) in Hfields; [done|].
  exists (instrument r gv_with_config e0). split.
  { intros h. destruct (distance_lowered r p pass props column i f item query metric output h Hf Ht Hi Hne Hlen Hpass Hs)
      as (e1 & Hnew1 & _ & _ & Hrw). rewrite Hnew in Hnew1. by injection Hnew1 as <-. }
  rewrite Hk. split; [exact Hps|]. split; [exact Hgs|].
  do 5 (split; [by injection Hfields as <-|]).
  split; [injection Hfields as <-; apply Hkt|].
  intros c w w1 c1 o bes list_of Hc Hg Hty Hrows Hlists.
  destruct (vector_exec_correct env g p i query metric output (hr_target r) e0 c w w1 c1 o bes Hnew Hc Hg Hty Hrows)
    as (_ & outs & Hrun & _ & Hdel).
  exists outs. split; [exact Hrun|]. rewrite Forall2_fmap_l in Hdel. rewrite Forall_forall in Hlists.
  apply Forall2_same_length_lookup. split; [exact (Forall2_length _ _ _ Hdel)|]. intros j b out Hb Hj.
  pose proof (Forall2_lookup_lr _ _ _ _ _ _ Hdel Hb Hj) as Hd. cbn in Hd.
  destruct (Hlists b (list_elem_of_lookup_2 _ _ _ Hb)) as [Hc' Hl]. eexists. split; [|exact Hd].
  rewrite (evaluate_is_with_distances _ _ b i item _ metric query Hc' Hl eq_refl Hne Hlen).
  cbn [gv_schema gv_with_config].
  by rewrite Hgs.
Qed.
End Frames.

(** ** A frame over one scan *)

Module ApiExample.
Import OperatorExample ExecsExample.
#[local] Existing Instances bump no_driver order order_law size fake_contract cpu_only UdfExample.plain_lists UdfExample.plain_lists_laws.

(** Logical expressions, and a frame that is the plan it would have. *)
Inductive LogicalExpr := LCol (name : string) | LLit (v : ScalarValue) | LCall (name : string) (args : list LogicalExpr).

Definition find_column (s : Schema) (name : string) : option nat :=
  fst <$> list_find (λ f, field_name f = name) (fields s).

Definition physical_arg (s : Schema) (e : LogicalExpr) : option PhysicalExpr :=
  match e with
  | LCol name => EColumn name <$> find_column s name
  | LLit v => Some (ELiteral v)
  | LCall _ _ => None
  end.

Definition append_column (p : ExecutionPlan) (output : string) (e : LogicalExpr) : df_result ExecutionPlan :=
  match e with
  | LCall name args =>
      match mapM (physical_arg (node_schema p)) args with
      | Some pes =>
          let s := mkSchema (fields (node_schema p) ++ [Field_new output Float32 true]) (schema_metadata (node_schema p)) in
          Ok (ProjectionExec p (all_columns (node_schema p) ++ [(EScalarFunction name pes, output)])
                (plan_properties s (node_partitioning p) Incremental))
      | None => Err (DFPlan "no such column")
      end
  | _ => Err (DFPlan "not a call")
  end.

#[local] Instance session : SqlSession := {|
  SqlWorld := TelemetryHub; Dashboard.Frame := ExecutionPlan;
  sql := λ _ w, (Err (Plan "no tables"), w); create_physical_plan := λ p w, (Ok p, w);
  collect_frame := λ _ w, (Ok [], w); collect_plan := λ _ w, (Ok [], w);
  table_schema := λ _ w, (Err (DFPlan "no tables"), w);
  telemetry := id; with_telemetry := λ f w, f w; format_first := λ _, None; data_type_text := λ _, [];
|}.

#[local] Instance frames : DataFrames := {|
  Expr := LogicalExpr; SortExpr := LogicalExpr; col := LCol; lit := LLit; udf_call := LCall;
  df_schema := λ p, pp_schema (plan_props p);
  df_filter := λ p _, Ok p; df_select_columns := λ p _, Ok p; df_alias := λ p _, Ok p;
  df_join := λ p _ _ _ _ _, Ok p; df_aggregate := λ p _ _, Ok p; df_sort := λ p _, Ok p; df_limit := λ p _ _, Ok p;
  df_with_column := append_column; indented := λ _, [];
  ctx_read_parquet := λ _ w, (Err (DFPlan "no files"), w); ctx_table := λ _ w, (Err (DFPlan "no tables"), w);
|}.

Definition points_plan : ExecutionPlan :=
  OtherExec "DataSourceExec" [] (plan_properties (schema VectorExample.points) (UnknownPartitioning 1) Incremental).
Definition origin : list f32 := [f32_zero; f32_zero].
Definition rule : HardwarePlacementRule := HardwarePlacementRule_new Cuda.

(** A frame, and the one that [vector_distance] makes of it. *)
Definition points_frame : OxideFrame := OxideFrame_new points_plan.
Definition nearest : result OxideFrame := vector_distance points_frame "e" origin L2 "d".

Definition points_props : PlanProperties :=
  plan_properties (mkSchema (fields (schema VectorExample.points) ++ [Field_new "d" Float32 true]) []) (UnknownPartitioning 1) Incremental.

Lemma frame_vector_distance_witness :
  ∃ fr' e outs, nearest = Ok fr' ∧
    (∀ h, rewrite_vector rule (inner fr') h = (h, Ok (Some (GpuVector e)))) ∧
    (gv_execute None (gv_with_config (λ _, on_fake None) e) (Ok (ok_item <$> [(VectorExample.points, 2)])) world).2 = Ok outs ∧
    Forall2 (λ b out, ∃ ref, evaluate_distance (node_schema (inner fr')) UdfExample.points_list L2 origin b = Ok ref ∧
               delivers FakeGpu ref out)
      [VectorExample.points] outs.
Proof.
  destruct (frame_vector_distance None FakeGpu rule points_plan (all_columns (node_schema points_plan)) points_props "e" 0
    (Field_new "e" (FixedSizeList (Field_new "item" Float32 true) 2) true) (Field_new "item" Float32 true) origin L2 "d")
    as (Hverb & _ & e & Hrw & _ & _ & _ & _ & _ & _ & _ & _ & Hrun).
  - apply all_columns_pass.
  - reflexivity.
  - reflexivity.
  - reflexivity.
  - discriminate.
  - vm_compute. discriminate.
  - reflexivity.
  - destruct (Hrun (on_fake None) world world (on_fake None)
      (mkOperator FakeGpu (op_streams new_op) 0 None None false) [(VectorExample.points, 2)] (λ _, UdfExample.points_list))
      as (outs & Ho & Hall); [reflexivity|reflexivity| | | |].
    + repeat constructor; apply (bool_decide_unpack _); vm_compute; exact I.
    + repeat constructor; vm_compute; discriminate.
    + repeat constructor; vm_compute; (reflexivity || discriminate).
    + eexists _, e, outs. split; [unfold nearest; rewrite Hverb; vm_compute; reflexivity|]. split; [exact Hrw|]. by split.
Defined.
End ApiExample.
